(* ===== verification/_CoqProject ===== *)
-Q . S2P
Prelude.v
Bytes.v
Range.v
RangeSet.v
Redb.v
Path.v
Types.v
Db.v
Dirty.v
InodeAllocator.v
Blob.v
Index.v
Dirs.v
ArenaCache.v
CacheInv.v
CacheSpec.v
GlobalCache.v
Mark.v
Engine.v
Realize.v
Notifier.v
Churten.v
Jobs.v
Downloader.v
RealStore.v
RangedHash.v
MoveDirs.v
Watcher.v
Storage.v
Household.v
Nfs.v
Control.v
Connections.v
Reconnect.v
Network.v
