(* ===== verification/Prelude.v ===== *)
(** * Realize: a verification development

    Realize keeps files of a household in arenas: directories shared by several
    machines.  Each machine (a peer) has for each arena

    - an index of the files that are there locally, with a history log;
    - a cache that knows the files of the other peers, as a directory tree with one
      entry by file and peer and the version that is presented (the default entry);
    - a blob store with the parts of files that were downloaded;
    - marks, inherited along paths, that say which files are to be kept, owned or
      only watched;
    - dirty paths, which the engine turns into a stream of jobs.

    Peers send each other notifications made from the histories, the cache takes them
    in, paths that change become dirty, jobs download files into blobs and move them
    into the arena, and readers download what they read.  This library models that
    loop, from the ranges of bytes up to the jobs, and, beside it, the older way to
    bring files together: the store of files that a machine offers to others, and the
    moving of whole arenas from one store to another.

    The code is under src/crate: realize-types (T below), realize-storage (S),
    realize-core (C) and realize-network (N).

    ** Files, from the bottom up

    - [Prelude]: 64-bit integers with their wrap-around, [result], the state monad of
      fallible operations ([StateM]), its weakest preconditions ([wp]), and lemmas on
      lists.
    - [Bytes]: reading and writing the bytes of a file at an offset.
    - [Range] (T/byterange.rs): [ByteRange] and its chunk iterator.
    - [RangeSet] (T/byterange.rs): [ByteRanges], as the ordered map of boundary points
      that the code keeps.  [wf] is the canonical form and [mem] the set of offsets:
      every operation is the operation on sets and keeps the form.
    - [Redb]: the interface of a table of the redb crate ([Class] of operations, and
      their laws), with the instance on [gmap] that the witnesses use.
    - [Path] (T/path.rs): paths as strings, their components, prefixes.
    - [Types] (T/arena.rs, peer.rs, data.rs, time.rs, S/types.rs, S/arena/types.rs,
      S/global/types.rs, S/error.rs): identifiers, times, errors and table entries.
    - [Db] (S/arena/db.rs, S/global/db.rs): the tables, and [write_txn], which runs an
      operation on them, commits what it changed or drops it, and then runs what was
      registered to run after the commit.
    - [Dirty] (S/arena/engine.rs): dirty paths, the log of counters, failures.
    - [InodeAllocator] (S/global/inode_allocator.rs).
    - [Blob] (S/arena/blob.rs): the store of blobs and the handles on them.
    - [Index] (S/arena/index.rs): the index and its history.
    - [Dirs], [ArenaCache], [CacheInv], [CacheSpec] (S/arena/arena_cache.rs): the
      directory tree; the operations of the cache; the invariant and one lemma for
      each kind of notification; the specification by path and the refinement.
    - [GlobalCache] (S/global/cache.rs): the caches of all arenas below one root, and
      the operations dispatched to them by path or by the owner of the inode.
    - [Mark] (S/arena/mark.rs): marks.
    - [Engine] (S/arena/engine.rs, S/arena.rs): the choice of a job and the stream of
      jobs, a state machine polled against a database that changes between turns.
    - [Realize] (S/arena.rs): moving content between blobs and the arena.
    - [Notifier] (S/arena/notifier.rs, notify of C/rpc/household.rs, update of
      S/lib.rs): what a subscriber is sent and what it does with it.
    - [Churten] (C/consensus/churten.rs, tracker.rs, progress.rs, types.rs): the
      notifications about a job, and the tracker that keeps the recent jobs.
    - [Jobs] (C/consensus/jobs.rs, S/arena/hasher.rs): the jobs: download, verify,
      repair, realize, unrealize.
    - [Downloader] (C/fs/downloader.rs): the reader of a file that is not all there.
    - [RealStore] (S/arena/store.rs): the operations on the files of an arena that
      other machines call, with the partial files and their names.
    - [RangedHash] (RangedHash of C/rpc/realstore.rs): comparing files by the hashes
      of their chunks.
    - [MoveDirs] (C/consensus/movedirs.rs): moving the files of an arena, over calls
      that may be refused, lost or repeated.
    - [Watcher] (S/arena/watcher.rs, S/arena/hasher.rs): how events of the filesystem and
      the catchup of a start become changes of the index, as tasks that take turns.
    - [Storage] (S/lib.rs, S/arena/indexed_store.rs): the operations above put together
      on the state that the arenas share, and what other peers are given of a file.
    - [Household] (C/rpc/household.rs, store.capnp): the messages between peers, and
      what becomes of notifications, subscriptions and reads on a connection that
      loses calls.
    - [Nfs] (C/fs/nfs.rs): the files as the NFS server shows them: attributes, lookups,
      the pages of a directory, and reads through the readers that it keeps.
    - [Control] (C/rpc/control/*.rs, control.capnp, start and shutdown of
      C/consensus/churten.rs, update of realize-control/src/display.rs): what a program
      that is connected to the daemon asks, and what it learns of the jobs.
    - [Connections] (N/capnp.rs, N/security.rs, the peers of N/network.rs): the tasks that
      keep the peers connected, and the choice of a connection for an operation.
    - [Reconnect] (N/reconnect.rs): calls on a connection that several flows share and
      make again when it is lost.
    - [Network] (N/hostport.rs, N/rate_limit.rs, accept of N/network.rs): the text of an
      address, a stream that is slowed down, and the choice of a service.

    ** How state and operations correspond to the code

    A write transaction of an arena is an operation of [TxnM]: a function from the
    tables, what was registered for after the commit, and what outlives a rollback
    ([ext]: files on disk, the global database with the inode allocator).  An
    operation that opens its own transaction is an operation of [WorldM] on a [World]:
    the committed database, the counters that the watch channels hold, and [ext].
    Operations keep the names, the order of effects and the early returns of the code;
    an error keeps the state that the code would have left.  An async function that
    only moves its body to another thread is that body.

    Polling is explicit: what a file, a peer or a channel answers is an argument of a
    step, so a theorem about a step relation holds for every interleaving of the
    answers.  The time, the digests and the delays that were configured are arguments.

    ** What is shown

    - Representation: byte range sets are canonical and act as sets ([RangeSet]); the
      bytes of an identifier determine it ([Types]); paths are their components
      ([Path]).
    - Invariants over every sequence of operations: [Dirty.dirty_reachable_inv],
      [InodeAllocator.inodes_unique], [Index.index_history_replays],
      [CacheSpec.cache_reachable_inv], [Blob.handle_tracks_writes],
      [Churten.tracker_reachable_inv].
    - Refinement: [CacheSpec.update_refines] says what a notification does to what is
      seen of each path, and [CacheSpec.catchup_synchronises] what a catchup comes to;
      [Notifier.incremental_sync] composes the history of one peer with the cache of
      another.
    - Composition: [GlobalCache.walk_finds_arena] and [GlobalCache.update_one_arena] for
      the caches of all arenas; [Storage.storage_keeps_tree] for every sequence of
      operations of the storage; [Household.household_sync] carries
      [Notifier.incremental_sync] over the connection, both path by path (a path that
      was dropped and is back is excepted), and [Household.peer_is_honest]
      discharges the hypothesis of [Jobs.honest_download].
    - Round trips: [Realize.realize_after_unrealize] moves a file into the blob store and
      back; [RangeSet.from_ranges_canonical] lists a set and builds it again.
    - Loops and streams: [Engine.job_stream_loses_nothing] and its liveness
      counterpart [Engine.job_stream_progress].
    - Jobs: [Jobs.honest_download] and [Jobs.realize_job_done] cover the data path
      whatever the peers send; [Downloader.reader_content] the same for readers.
    - The server: [Nfs.pages_complete] and [Nfs.pages_end] for a client that asks for one
      page after the other while the directory changes, [Nfs.nfs_read_content] for its
      reads.
    - Watching: [Watcher.watcher_reachable_inv] for any events and any disk, and
      [Watcher.catchup_synchronises_index] when the disk rests, but for indexed paths
      where a directory took the place of the file.
    - Files of the arena: [RealStore.list_resolves] says that listing and the other
      operations agree on what stands for a path, [RealStore.send_read] that what is
      sent is read back.
    - Moving: [MoveDirs.move_keeps_content] and [MoveDirs.move_dir_keeps_content]
      show that no content is lost whatever becomes of the calls, and
      [MoveDirs.move_file_succeeds] that moving works when they are answered.
    - Programs that are connected: [Control.subscriber_in_step], that they come to show
      the jobs that the daemon knows, and [Control.control_mark], that the marks they
      set are the ones they get.
    - Connections: [Connections.connections_reachable_inv], [Connections.kept_peer_connects]
      and [Connections.tracked_while_up] for any interleaving of the tasks that keep
      peers connected, [Reconnect.reconnect_calls] and [Reconnect.reconnect_progress] for
      the calls that share a connection.
    - Divergences between the code and its intent are theorems about the code as it
      is: [Engine.job_stream_spins], [Engine.retry_delay_bounds],
      [Blob.stale_handle_reports], [CacheSpec.catchup_keeps_stale_version],
      [Notifier.dropped_and_added_is_stale], [Notifier.new_database_keeps_old_files],
      [Churten.retry_goes_unseen], [Downloader.fill_ends],
      [Downloader.seek_during_read_misplaces], [Downloader.empty_download_repeats],
      [Watcher.catchup_removes_new_file], [Watcher.late_hash_adds_removed_file],
      [Watcher.directory_keeps_file_indexed],
      [RealStore.dot_part_breaks_list], [MoveDirs.empty_file_never_moves],
      [GlobalCache.old_directory_hides_arena], [Storage.repair_copies_start],
      [Household.failed_batch_lost], [Household.failed_subscription_reported_made],
      [Nfs.missing_content_breaks_listing], [Control.late_tracker_hides_job],
      [Control.lag_keeps_queue], [Connections.restart_hides_client].

    ** Bounds and fuel

    - [u64] is [N]; additions that may overflow are [u64_add], and the theorems that
      need it say that sizes, counters and inodes stay below 2^64.
    - The loop that looks for a mark has one turn for each component of the path and
      one more ([Mark.get_mark_enough]); marking a directory in the cache has the
      depth of the tree as its fuel ([Mark.dir_depth_spec]).
    - [Downloader.fill] has the number of chunks in memory and one more: then it has
      ended, or never ends ([Downloader.fill_ends]).
    - The stream of jobs is a relation, without fuel; [Engine.job_stream_progress]
      says that finitely many turns lead it to where it waits, and when it stays there.

    ** Parameters

    redb (tables are ordered maps), bimap (a bijection), the blake2 digest, fast_rsync
    (signatures and deltas), walkdir (the files of a directory, in any order), pathdiff
    (relative paths), tarpc and Cap'n Proto (what becomes of a call, and in which order
    answers come), the channels of tokio (whether a receiver lags), tokio_retry (the
    delays), rustls (whose key the other side has), the operating system as the watcher sees it ([Watcher.Os]), and what
    the peers and the disk answer are parameters of the definitions that use them;
    their laws are the hypotheses of a class or a section, and each has an instance in
    the witnesses.

    ** Not modelled

    - Directories of the filesystem, symbolic links and permissions: the disk is a
      map from paths to files with content, size and modification time.  Deleting the
      directories that become empty is left out with them.
    - Commits that fail, and crashes between the commit of a transaction and the
      change of the filesystem that follows it.
    - The tasks and channels of tokio, beyond what a watch channel holds and the
      sequence of messages of a stream; the watcher handles an event in one turn, without
      the awaits of the index in between.
    - The byte form of Cap'n Proto messages: entries of tables and messages are their
      fields.
    - Sockets, TLS, listening and shutting down; the byte form of messages of tarpc;
      command lines, configuration files, terminal output and logs: they are I/O around
      what is modelled here. *)
From Stdlib Require Export NArith ZArith Ascii Lia.
From stdpp Require Export base gmap strings list sorting.


Declare Scope realize_scope.
Delimit Scope realize_scope with realize.

(** ** Machine integers

    A [u64] of the source is an [N]; addition and subtraction are written with
    their wrap-around, which is what a release build computes (a debug build
    panics instead). *)

Definition u64_modulus : N := 18446744073709551616.
Definition u64_max : N := 18446744073709551615.

Definition is_u64 (n : N) : Prop := (n < u64_modulus)%N.

Definition u64_add (a b : N) : N := ((a + b) mod u64_modulus)%N.
Definition u64_sub (a b : N) : N := ((a + (u64_modulus - b)) mod u64_modulus)%N.
(** [N.sub] is truncated at 0, like [saturating_sub]. *)
Definition u64_saturating_sub (a b : N) : N := (a - b)%N.

#[global] Instance is_u64_dec n : Decision (is_u64 n).
Proof. unfold is_u64. apply _. Defined.

Section machine_integers.
Local Open Scope N_scope.

Lemma u64_add_small a b : a + b < u64_modulus → u64_add a b = a + b.
Proof. intros H. unfold u64_add. by apply N.mod_small. Qed.

Lemma u64_add_range a b : u64_add a b < u64_modulus.
Proof. unfold u64_add. apply N.mod_upper_bound. by vm_compute. Qed.

Lemma u64_sub_small a b : b ≤ a → a < u64_modulus → u64_sub a b = a - b.
Proof.
  intros Hba Ha. unfold u64_sub.
  replace (a + (u64_modulus - b)) with ((a - b) + 1 * u64_modulus) by lia.
  rewrite N.Div0.mod_add. apply N.mod_small. lia.
Qed.
End machine_integers.

(** ** Results and the state monad of fallible operations

    [result E A] is Rust's [Result<A, E>].  An operation that reads and changes
    a state [S] is a function [S → result E A * S]: the state of a failed
    operation is kept, because some effects outlive an error (a file that was
    deleted, an inode range that was committed to another database). *)

Inductive result (E A : Type) : Type :=
| Ok (a : A)
| Err (e : E).
Arguments Ok {E A} a.
Arguments Err {E A} e.

Definition result_map {E A B} (f : A → B) (r : result E A) : result E B :=
  match r with Ok a => Ok (f a) | Err e => Err e end.

Definition result_bind {E A B} (r : result E A) (f : A → result E B) : result E B :=
  match r with Ok a => f a | Err e => Err e end.

(** [opt.ok_or(e)] *)
Definition ok_or {E A} (e : E) (o : option A) : result E A :=
  match o with Some a => Ok a | None => Err e end.

Definition is_ok {E A} (r : result E A) : bool :=
  match r with Ok _ => true | Err _ => false end.

(** [r.ok()] *)
Definition result_ok {E A} (r : result E A) : option A :=
  match r with Ok a => Some a | Err _ => None end.

Definition StateM (S E A : Type) : Type := S → result E A * S.

Section state_monad.
Context {S E : Type}.
Implicit Types s : S.

Definition sret {A} (a : A) : StateM S E A := λ s, (Ok a, s).
Definition sthrow {A} (e : E) : StateM S E A := λ s, (Err e, s).
Definition sbind {A B} (m : StateM S E A) (f : A → StateM S E B) : StateM S E B :=
  λ s, match m s with
       | (Ok a, s') => f a s'
       | (Err e, s') => (Err e, s')
       end.
(** Read a projection of the state, change the state, lift a pure result. *)
Definition sget {A} (f : S → A) : StateM S E A := λ s, (Ok (f s), s).
Definition smodify (f : S → S) : StateM S E unit := λ s, (Ok tt, f s).
Definition slift {A} (r : result E A) : StateM S E A := λ s, (r, s).

(** [for x in l { f(x)? }] *)
Fixpoint sfor {A} (l : list A) (f : A → StateM S E unit) : StateM S E unit :=
  match l with
  | [] => sret tt
  | x :: l => sbind (f x) (λ _, sfor l f)
  end.

(** Weakest precondition: [Q] holds of a success, [X] of a failure. *)
Definition wp {A} (m : StateM S E A) (Q : A → S → Prop) (X : E → S → Prop) (s : S) : Prop :=
  match m s with
  | (Ok a, s') => Q a s'
  | (Err e, s') => X e s'
  end.

Lemma wp_ret {A} (a : A) Q X s : Q a s → wp (sret a) Q X s.
Proof. done. Qed.
Lemma wp_throw {A} e (Q : A → S → Prop) X s : X e s → wp (sthrow e) Q X s.
Proof. done. Qed.
Lemma wp_get {A} (f : S → A) Q X s : Q (f s) s → wp (sget f) Q X s.
Proof. done. Qed.
Lemma wp_modify f Q X s : Q tt (f s) → wp (smodify f) Q X s.
Proof. done. Qed.
Lemma wp_lift {A} (r : result E A) Q X s :
  (∀ a, r = Ok a → Q a s) → (∀ e, r = Err e → X e s) → wp (slift r) Q X s.
Proof. intros HQ HX. unfold wp, slift. destruct r; eauto. Qed.

Lemma wp_bind {A B} (m : StateM S E A) (f : A → StateM S E B) Q X s :
  wp m (λ a s', wp (f a) Q X s') X s → wp (sbind m f) Q X s.
Proof. unfold wp, sbind. by destruct (m s) as [[a|e] s']. Qed.

Lemma wp_mono {A} (m : StateM S E A) (Q Q' : A → S → Prop) (X X' : E → S → Prop) s :
  wp m Q X s → (∀ a s', Q a s' → Q' a s') → (∀ e s', X e s' → X' e s') → wp m Q' X' s.
Proof. unfold wp. destruct (m s) as [[a|e] s']; eauto. Qed.

Lemma wp_for {A} (l : list A) (f : A → StateM S E unit) (I : S → Prop) X s :
  I s → (∀ x s, x ∈ l → I s → wp (f x) (λ _, I) X s) → wp (sfor l f) (λ _, I) X s.
Proof.
  revert s. induction l as [|x l IH]; intros s HI Hstep; simpl.
  { by apply wp_ret. }
  apply wp_bind. eapply wp_mono; [apply Hstep; [by left|done]| |done].
  simpl. intros _ s' HI'. apply IH; [done|].
  intros y s'' Hy. apply Hstep. by right.
Qed.
End state_monad.

Notation "'let*' x := m 'in' k" := (sbind m (λ x, k))
  (at level 10, x name, m at level 100, k at level 200, only parsing) : realize_scope.
Notation "'let*' ' p := m 'in' k" := (sbind m (λ x, let p := x in k))
  (at level 10, p strict pattern, m at level 100, k at level 200, only parsing) : realize_scope.
Notation "'do*' m 'in' k" := (sbind m (λ _, k))
  (at level 10, m at level 100, k at level 200, only parsing) : realize_scope.

(** ** Automation *)

Create HintDb realize.
#[export] Hint Unfold is_u64 : realize.
#[export] Hint Resolve wp_ret wp_throw wp_get wp_modify : realize.

(** Step through a monadic program. *)
Ltac wp_step :=
  lazymatch goal with
  | |- wp (sbind _ _) _ _ _ => apply wp_bind
  | |- wp (sret _) _ _ _ => apply wp_ret
  | |- wp (sthrow _) _ _ _ => apply wp_throw
  | |- wp (sget _) _ _ _ => apply wp_get
  | |- wp (smodify _) _ _ _ => apply wp_modify
  end.
Ltac wp_steps := repeat (wp_step; simpl).

(** Split a boolean comparison of numbers into its two cases. *)
Ltac cmp_cases :=
  repeat match goal with
  | |- context [ (?a <? ?b)%N ] => destruct (N.ltb_spec a b)
  | |- context [ (?a <=? ?b)%N ] => destruct (N.leb_spec a b)
  | |- context [ (?a =? ?b)%N ] => destruct (N.eqb_spec a b)
  | |- context [ (?a <? ?b)%Z ] => destruct (Z.ltb_spec a b)
  | |- context [ (?a <=? ?b)%Z ] => destruct (Z.leb_spec a b)
  | |- context [ (?a =? ?b)%Z ] => destruct (Z.eqb_spec a b)
  end.

(** Destruct the scrutinee of a [match] in the goal. *)
Ltac case_goal :=
  match goal with |- context [ match ?x with _ => _ end ] => destruct x eqn:? end.

(** ** Lists *)

Section lists.
Context {A : Type}.
Implicit Types l : list A.

Lemma Forall_sublist (P : A → Prop) l k : l `sublist_of` k → Forall P k → Forall P l.
Proof.
  induction 1; intros Hk; [constructor|apply Forall_cons in Hk as [??]..]; auto.
Qed.

Lemma last_filter_Some (P : A → Prop) `{∀ x, Decision (P x)} l x :
  last (filter P l) = Some x → P x ∧ x ∈ l.
Proof.
  intros Hl. apply last_Some in Hl as [l' Hl'].
  assert (x ∈ filter P l) as Hx by (rewrite Hl'; set_solver).
  by apply list_elem_of_filter in Hx.
Qed.

Lemma head_filter_Some (P : A → Prop) `{∀ x, Decision (P x)} l x :
  head (filter P l) = Some x → P x ∧ x ∈ l.
Proof.
  intros Hl. destruct (filter P l) as [|y k] eqn:E; simplify_eq/=.
  assert (x ∈ filter P l) as Hx by (rewrite E; set_solver).
  by apply list_elem_of_filter in Hx.
Qed.

Lemma filter_all (P : A → Prop) `{∀ x, Decision (P x)} l :
  Forall P l → filter P l = l.
Proof. induction 1; [done|]. by rewrite filter_cons_True, IHForall. Qed.

Lemma filter_ext_in (P Q : A → Prop) `{∀ x, Decision (P x), ∀ x, Decision (Q x)} l :
  (∀ x, x ∈ l → P x ↔ Q x) → filter P l = filter Q l.
Proof.
  induction l as [|x l IH]; intros HPQ; [done|]. rewrite !filter_cons.
  rewrite IH by (intros y Hy; apply HPQ; by right).
  pose proof (HPQ x (list_elem_of_here x l)).
  destruct (decide (P x)), (decide (Q x)); tauto || done.
Qed.

Lemma prefix_snoc_inv l k x : l `prefix_of` k ++ [x] → l `prefix_of` k ∨ l = k ++ [x].
Proof.
  intros [t Ht]. destruct t as [|y t _] using rev_ind; [right; by rewrite app_nil_r in Ht|].
  left. rewrite app_assoc in Ht. apply app_inj_tail in Ht as [-> _]. by exists t.
Qed.

Lemma filter_none (P : A → Prop) `{∀ x, Decision (P x)} l :
  Forall (λ x, ¬ P x) l → filter P l = [].
Proof. induction 1; [done|]. by rewrite filter_cons_False. Qed.
End lists.
