(* ===== verification/Bytes.v ===== *)
(** * Bytes

    The content of a file as a list of bytes: reading and writing at a position, as
    [pread] and [pwrite] do, and the bytes between two offsets. *)
From Stdlib Require Import Strings.Byte.
From S2P Require Import Prelude.
Local Open Scope N_scope.

(** [pread], [pwrite] *)
Definition read_at (off n : N) (data : list byte) : list byte :=
  take (N.to_nat n) (drop (N.to_nat off) data).
Definition write_at (off : N) (d data : list byte) : list byte :=
  match d with
  | [] => data
  | _ => resize (N.to_nat off) x00 data ++ d ++ drop (N.to_nat off + length d) data
  end.

Definition slice (from to : N) (d : list byte) : list byte := take (N.to_nat (to - from)) (drop (N.to_nat from) d).

Lemma read_at_slice o n (l : list byte) : read_at o n l = slice o (o + n) l.
Proof. unfold read_at, slice. f_equal. lia. Qed.

Lemma length_slice a b (l : list byte) : a ≤ b → b ≤ N.of_nat (length l) → N.of_nat (length (slice a b l)) = b - a.
Proof. intros H1 H2. unfold slice. rewrite length_take, length_drop. lia. Qed.

Lemma slice_app a b e (l : list byte) : a ≤ b → b ≤ e → slice a b l ++ slice b e l = slice a e l.
Proof.
  intros H1 H2. unfold slice. replace (N.to_nat (e - a)) with (N.to_nat (b - a) + N.to_nat (e - b))%nat by lia.
  assert (drop (N.to_nat b) l = drop (N.to_nat (b - a)) (drop (N.to_nat a) l)) as ->.
  { rewrite drop_drop. f_equal. lia. }
  apply take_take_drop.
Qed.

Lemma slice_slice s e a b (l : list byte) :
  s ≤ a → a ≤ b → b ≤ e → slice (a - s) (b - s) (slice s e l) = slice a b l.
Proof.
  intros H1 H2 H3. unfold slice. replace (N.to_nat (b - s - (a - s))) with (N.to_nat (b - a)) by lia.
  replace (N.to_nat (e - s)) with (N.to_nat (a - s) + N.to_nat (e - a))%nat by lia.
  rewrite <- take_drop_commute, take_take, drop_drop. f_equal; [lia|]. f_equal. lia.
Qed.

Lemma slice_nil a (l : list byte) : slice a a l = [].
Proof. unfold slice. by replace (N.to_nat (a - a)) with 0%nat by lia. Qed.

Lemma length_write_at o d data :
  (N.to_nat o + length d ≤ length data)%nat → length (write_at o d data) = length data.
Proof.
  intros H. unfold write_at. destruct d as [|c d]; [done|].
  rewrite !length_app, length_resize, length_drop. simpl in *. lia.
Qed.

Lemma lookup_write_at o d data (x : nat) :
  (N.to_nat o + length d ≤ length data)%nat →
  write_at o d data !! x =
    if decide (N.to_nat o ≤ x < N.to_nat o + length d)%nat then d !! (x - N.to_nat o)%nat else data !! x.
Proof.
  intros Hl. unfold write_at. destruct d as [|c d0].
  { simpl. rewrite decide_False by lia. done. }
  set (d := c :: d0) in *. rewrite resize_le by lia.
  assert (length (take (N.to_nat o) data) = N.to_nat o) as Ht by (rewrite length_take; lia).
  case_decide as Hx.
  - rewrite lookup_app_r by lia. rewrite Ht. rewrite lookup_app_l by lia. done.
  - destruct (Nat.lt_ge_cases x (N.to_nat o)) as [Hlt|Hge].
    + rewrite lookup_app_l by lia. by apply lookup_take_lt.
    + rewrite lookup_app_r by lia. rewrite Ht. rewrite lookup_app_r by lia. rewrite lookup_drop. f_equal. lia.
Qed.

(** A byte of a file, which is 0 after its end. *)
Definition byte_at (x : N) (data : list byte) : byte := default x00 (data !! N.to_nat x).

Lemma length_write_max o d data : d ≠ [] →
  length (write_at o d data) = Nat.max (length data) (N.to_nat o + length d).
Proof.
  intros Hd. unfold write_at. destruct d as [|c d0]; [done|].
  rewrite !length_app, length_resize, length_drop. lia.
Qed.

Lemma byte_at_resize n data x : x < N.of_nat n → byte_at x (resize n x00 data) = byte_at x data.
Proof.
  intros Hx. unfold byte_at. destruct (decide (N.to_nat x < length data)%nat) as [Hl|Hl].
  - by rewrite lookup_resize by lia.
  - rewrite (lookup_ge_None_2 data) by lia. by rewrite lookup_resize_new by lia.
Qed.

Lemma byte_at_write o d data x :
  byte_at x (write_at o d data) =
  if decide (o ≤ x ∧ x < o + N.of_nat (length d)) then byte_at (x - o) d else byte_at x data.
Proof.
  destruct d as [|c d0]; [by rewrite decide_False by (simpl; lia)|].
  unfold write_at. set (d := c :: d0). case_decide as Hx.
  - unfold byte_at. rewrite lookup_app_r by (rewrite length_resize; lia). rewrite length_resize.
    rewrite lookup_app_l by lia. do 2 f_equal. lia.
  - destruct (N.lt_ge_cases x o) as [Hlt|Hge].
    + rewrite <- (byte_at_resize (N.to_nat o) data) by lia. unfold byte_at. rewrite lookup_app_l; [done|].
      rewrite length_resize. lia.
    + unfold byte_at. rewrite lookup_app_r by (rewrite length_resize; lia). rewrite length_resize.
      rewrite lookup_app_r by lia. rewrite lookup_drop. do 2 f_equal. lia.
Qed.

Lemma byte_at_read o n data x : x < n → byte_at x (read_at o n data) = byte_at (o + x) data.
Proof.
  intros Hx. unfold byte_at, read_at. rewrite lookup_take_lt by lia. rewrite lookup_drop. do 2 f_equal. lia.
Qed.

Lemma bytes_eq (a b : list byte) :
  length a = length b → (∀ x, x < N.of_nat (length a) → byte_at x a = byte_at x b) → a = b.
Proof.
  intros Hl H. apply list_eq. intros i. destruct (decide (i < length a)%nat) as [Hi|Hi].
  - specialize (H (N.of_nat i) ltac:(lia)). unfold byte_at in H. rewrite !Nat2N.id in H.
    destruct (lookup_lt_is_Some_2 a i Hi) as [c Hc]. destruct (lookup_lt_is_Some_2 b i ltac:(lia)) as [c' Hc'].
    rewrite Hc, Hc' in *. simpl in H. by subst.
  - by rewrite !lookup_ge_None_2 by lia.
Qed.
