(* ===== verification/Range.v ===== *)
(** * Byte ranges

    [crate/realize-types/src/byterange.rs], first half: the closed-open range
    [ByteRange] and the [ChunkIterator] that splits one.  The theorems give the
    ranges their meaning as sets of offsets, and show that chunking terminates
    and partitions the range into non-empty pieces of bounded size. *)
From S2P Require Import Prelude.
Local Open Scope N_scope.

(** ** Data *)

Record ByteRange : Type := { start : N; end_ : N }.

#[global] Instance ByteRange_eq_dec : EqDecision ByteRange.
Proof. solve_decision. Defined.

(** ** Operations *)
Module ByteRange.
Definition new (s e : N) : ByteRange := {| start := s; end_ := e |}.

Definition new_with_size (s size : N) : ByteRange :=
  {| start := s; end_ := u64_add s size |}.

Definition zero_len (s : N) : ByteRange := {| start := s; end_ := s |}.

Definition empty : ByteRange := {| start := 0; end_ := 0 |}.

Definition is_empty (r : ByteRange) : bool := end_ r <=? start r.

Definition bytecount (r : ByteRange) : N := u64_saturating_sub (end_ r) (start r).

Definition overlaps (r other : ByteRange) : bool :=
  (start r <? end_ other) && (start other <? end_ r).

Definition intersection (r other : ByteRange) : ByteRange :=
  let s := N.max (start r) (start other) in
  let e := N.min (end_ r) (end_ other) in
  if e <=? s then empty else {| start := s; end_ := e |}.

Definition span (r other : ByteRange) : ByteRange :=
  {| start := N.min (start r) (start other); end_ := N.max (end_ r) (end_ other) |}.

Definition contains (r : ByteRange) (val : N) : bool :=
  (start r <=? val) && (val <? end_ r).
End ByteRange.

Record ChunkIterator : Type := { offset : N; total : N; chunk_size : N }.

Module ChunkIterator.
Definition new (range : ByteRange) (size : N) : ChunkIterator :=
  {| offset := start range; total := end_ range; chunk_size := size |}.

(** [Iterator::next]: the next chunk and the iterator after it. *)
Definition next (it : ChunkIterator) : option (ByteRange * ChunkIterator) :=
  if (chunk_size it =? 0) || (total it <=? offset it) then None
  else
    let e := u64_add (offset it) (chunk_size it) in
    let e := if total it <? e then total it else e in
    Some (ByteRange.new (offset it) e,
          {| offset := e; total := total it; chunk_size := chunk_size it |}).

(** Collecting the iterator; [None] when the fuel runs out before its end. *)
Fixpoint collect (fuel : nat) (it : ChunkIterator) : option (list ByteRange) :=
  match fuel with
  | O => None
  | S fuel =>
      match next it with
      | None => Some []
      | Some (r, it') => match collect fuel it' with
                         | Some rs => Some (r :: rs)
                         | None => None
                         end
      end
  end.

(** Enough fuel for any range: one step per byte, and the last [None]. *)
Definition fuel (it : ChunkIterator) : nat := S (N.to_nat (total it - offset it)).
End ChunkIterator.

(** [ByteRange::chunked], collected. *)
Definition chunked (r : ByteRange) (size : N) : option (list ByteRange) :=
  let it := ChunkIterator.new r size in
  ChunkIterator.collect (ChunkIterator.fuel it) it.

(** ** Basic lemmas *)

Ltac br_unfold :=
  unfold ByteRange.is_empty, ByteRange.bytecount, ByteRange.overlaps,
    ByteRange.contains, ByteRange.intersection, ByteRange.span,
    u64_saturating_sub in *; simpl in *.

Lemma contains_spec r x :
  ByteRange.contains r x = true ↔ start r ≤ x ∧ x < end_ r.
Proof. br_unfold. cmp_cases; simpl; intuition (done || lia). Qed.

Lemma is_empty_contains r :
  ByteRange.is_empty r = true ↔ ∀ x, ByteRange.contains r x = false.
Proof.
  split.
  - intros H x. br_unfold. revert H. cmp_cases; simpl; intros; (done || lia).
  - intros H. specialize (H (start r)). revert H. br_unfold.
    cmp_cases; simpl; intros; (done || lia).
Qed.

Lemma bytecount_is_empty r : ByteRange.is_empty r = true ↔ ByteRange.bytecount r = 0.
Proof. br_unfold. cmp_cases; split; intros; (done || lia). Qed.

(** The chunks of a non-empty range tile it: each starts where the previous one
    ends, the first at the start of the range and the last ends at its end. *)
Fixpoint tiles (s e : N) (rs : list ByteRange) : Prop :=
  match rs with
  | [] => e ≤ s
  | r :: rs => start r = s ∧ start r < end_ r ∧ end_ r ≤ e ∧ tiles (end_ r) e rs
  end.

Lemma tiles_contains s e rs x :
  tiles s e rs →
  existsb (λ r, ByteRange.contains r x) rs = ByteRange.contains (ByteRange.new s e) x.
Proof.
  revert s. induction rs as [|r rs IH]; intros s; simpl.
  - intros Hle. br_unfold. cmp_cases; simpl; (done || lia).
  - intros (<- & Hlt & Hle & Ht). rewrite (IH _ Ht). br_unfold.
    cmp_cases; simpl; (done || lia).
Qed.

Lemma tiles_bytecount s e rs :
  s ≤ e → tiles s e rs →
  foldr (λ r n, ByteRange.bytecount r + n) 0 rs = e - s.
Proof.
  revert s. induction rs as [|r rs IH]; intros s Hse; simpl; [lia|].
  intros (<- & Hlt & Hle & Ht). rewrite (IH _ Hle Ht).
  unfold ByteRange.bytecount, u64_saturating_sub. lia.
Qed.

Lemma collect_tiles n it :
  0 < chunk_size it → total it + chunk_size it ≤ u64_modulus →
  (N.to_nat (total it - offset it) < n)%nat →
  ∃ rs, ChunkIterator.collect n it = Some rs ∧ tiles (offset it) (total it) rs ∧
        Forall (λ r, ByteRange.bytecount r ≤ chunk_size it) rs.
Proof.
  revert it. induction n as [|n IH]; intros [o t c]; simpl; [lia|].
  intros Hc Hov Hn. unfold ChunkIterator.next; simpl.
  destruct (N.eqb_spec c 0) as [->|_]; [lia|]. simpl.
  destruct (N.leb_spec t o) as [Hto|Hto]; simpl; [by exists []|].
  rewrite u64_add_small by lia.
  set (e := if t <? o + c then t else o + c).
  assert (o < e ∧ e ≤ t ∧ e - o ≤ c) as (He1 & He2 & He3).
  { subst e. cmp_cases; lia. }
  destruct (IH {| offset := e; total := t; chunk_size := c |}) as (rs & Hrs & Ht & Hb);
    simpl; [lia..|].
  rewrite Hrs. eexists; split; [done|]. split; [done|].
  constructor; [done|]. done.
Qed.

Lemma chunked_run (r : ByteRange) (size : N)
  (Hsize : 0 < size) (Hov : end_ r + size ≤ u64_modulus) :
  ∃ rs, chunked r size = Some rs ∧
        tiles (start r) (end_ r) rs ∧
        Forall (λ c, ByteRange.bytecount c ≤ size) rs ∧
        foldr (λ c n, ByteRange.bytecount c + n) 0 rs = ByteRange.bytecount r ∧
        ∀ x, existsb (λ c, ByteRange.contains c x) rs = ByteRange.contains r x.
Proof.
  destruct (collect_tiles (ChunkIterator.fuel (ChunkIterator.new r size))
              (ChunkIterator.new r size)) as (rs & Hrs & Ht & Hb);
    [done|done|unfold ChunkIterator.fuel; simpl; lia|].
  exists rs. do 3 (split; [done|]). split.
  - destruct (N.le_gt_cases (start r) (end_ r)) as [Hle|Hlt].
    + rewrite (tiles_bytecount (start r) (end_ r)); done.
    + destruct rs as [|c rs]; simpl in *; [br_unfold; lia|].
      destruct Ht as (Hs & ? & ? & _). simpl in *. lia.
  - intros x. by destruct r as [s e]; apply (tiles_contains s e).
Qed.

(** ** Properties *)

(** Chunking a range whose end leaves room for one more chunk terminates,
    whatever its size; the chunks tile the range without a gap or an overlap,
    none is longer than the chunk size, and their lengths add up to it. *)
Theorem chunked_partition (r : ByteRange) (size : N)
  (Hsize : 0 < size) (Hov : end_ r + size ≤ u64_modulus) :
  ∃ rs, chunked r size = Some rs ∧
        tiles (start r) (end_ r) rs ∧
        Forall (λ c, ByteRange.bytecount c ≤ size) rs ∧
        foldr (λ c n, ByteRange.bytecount c + n) 0 rs = ByteRange.bytecount r ∧
        ∀ x, existsb (λ c, ByteRange.contains c x) rs = ByteRange.contains r x.
Proof. by apply chunked_run. Qed.

Example chunked_partition_witness :
  chunked (ByteRange.new 0 10) 3 =
    Some [ByteRange.new 0 3; ByteRange.new 3 6; ByteRange.new 6 9; ByteRange.new 9 10] ∧
  ∃ rs, chunked (ByteRange.new 0 10) 3 = Some rs ∧ tiles 0 10 rs ∧
        Forall (λ c, ByteRange.bytecount c ≤ 3) rs ∧
        foldr (λ c n, ByteRange.bytecount c + n) 0 rs =
          ByteRange.bytecount (ByteRange.new 0 10) ∧
        ∀ x, existsb (λ c, ByteRange.contains c x) rs =
             ByteRange.contains (ByteRange.new 0 10) x.
Proof.
  split; [reflexivity|].
  exact (chunked_partition (ByteRange.new 0 10) 3 eq_refl ltac:(by vm_compute)).
Defined.

(** The algebra of ranges agrees with sets of offsets: an intersection
    holds the common offsets, two ranges share an offset exactly when both are
    non-empty and [overlaps] says so, and a span covers both ranges. *)
Theorem range_algebra (a b : ByteRange) :
  (∀ x, ByteRange.contains (ByteRange.intersection a b) x =
        ByteRange.contains a x && ByteRange.contains b x) ∧
  ((∃ x, ByteRange.contains a x = true ∧ ByteRange.contains b x = true) ↔
   ByteRange.overlaps a b = true ∧
   ByteRange.is_empty a = false ∧ ByteRange.is_empty b = false) ∧
  (∀ x, ByteRange.contains a x || ByteRange.contains b x = true →
        ByteRange.contains (ByteRange.span a b) x = true) ∧
  ByteRange.bytecount (ByteRange.intersection a b) ≤
    N.min (ByteRange.bytecount a) (ByteRange.bytecount b).
Proof.
  destruct a as [s1 e1], b as [s2 e2]. split_and!.
  - intros x. apply eq_true_iff_eq. rewrite andb_true_iff, !contains_spec. simpl.
    unfold ByteRange.intersection; simpl. cmp_cases; simpl; lia.
  - split.
    + intros (x & H1%contains_spec & H2%contains_spec). br_unfold.
      cmp_cases; simpl; split_and!; (done || lia).
    + intros H. exists (N.max s1 s2). rewrite !contains_spec; simpl.
      revert H. br_unfold. cmp_cases; simpl; intros (?&?&?); (done || lia).
  - intros x. br_unfold. cmp_cases; simpl; (done || lia).
  - br_unfold. cmp_cases; simpl; lia.
Qed.
