(* ===== verification/RangeSet.v ===== *)
(** * Sets of byte ranges

    [crate/realize-types/src/byterange.rs], second half: [ByteRanges], a set of
    offsets kept as the start and end points of its maximal ranges in a
    [BTreeMap<u64, Point>], its sweeps over two sets ([Merged], [union],
    [intersection], [subtraction]) and its queries.

    The specification is the set of offsets [mem r]; every operation is proved
    to compute the set operation it names and to keep the representation
    invariant [wf] (points strictly increasing, alternating [Start]/[End]),
    under which the representation of a set is unique. *)
From S2P Require Import Prelude Range.
Local Open Scope N_scope.

(** ** The point map *)

Inductive Point : Type := Start | End.

#[global] Instance Point_eq_dec : EqDecision Point.
Proof. solve_decision. Defined.

Definition reverse (p : Point) : Point :=
  match p with Start => End | End => Start end.

(** [BTreeMap<u64, Point>]: its entries in key order. *)
Abbreviation btree := (list (N * Point)).

Module BTree.
Fixpoint insert (k : N) (v : Point) (t : btree) : btree :=
  match t with
  | [] => [(k, v)]
  | (k', v') :: t' =>
      match k ?= k' with
      | Lt => (k, v) :: t
      | Eq => (k, v) :: t'
      | Gt => (k', v') :: insert k v t'
      end
  end.

Fixpoint remove (k : N) (t : btree) : btree :=
  match t with
  | [] => []
  | (k', v') :: t' => if k =? k' then t' else (k', v') :: remove k t'
  end.

(** [range(..x)], [range(..=x)], [range(x..)], [range(x..=y)], [range(x..y)] *)
Definition range_lt (x : N) (t : btree) : btree := filter (λ kv, kv.1 < x) t.
Definition range_le (x : N) (t : btree) : btree := filter (λ kv, kv.1 ≤ x) t.
Definition range_ge (x : N) (t : btree) : btree := filter (λ kv, x ≤ kv.1) t.
Definition range_incl (x y : N) (t : btree) : btree :=
  filter (λ kv, x ≤ kv.1 ∧ kv.1 ≤ y) t.
Definition range_excl (x y : N) (t : btree) : btree :=
  filter (λ kv, x ≤ kv.1 ∧ kv.1 < y) t.
End BTree.

Definition is_start (o : option (N * Point)) : bool :=
  match o with Some (_, Start) => true | _ => false end.
Definition is_end (o : option (N * Point)) : bool :=
  match o with Some (_, End) => true | _ => false end.

Record ByteRanges : Type := { points : btree }.

#[global] Instance ByteRanges_eq_dec : EqDecision ByteRanges.
Proof. solve_decision. Defined.

(** [Merged]: the points of two maps in key order; a start and an end at the
    same offset cancel each other. *)
Fixpoint merged (a : btree) : btree → btree :=
  fix merged_a (b : btree) : btree :=
    match a, b with
    | [], _ => b
    | _, [] => a
    | (val_a, pt_a) :: a', (val_b, pt_b) :: b' =>
        if (val_a =? val_b) && negb (bool_decide (pt_a = pt_b)) then merged a' b'
        else if val_a <? val_b then (val_a, pt_a) :: merged a' b
        else (val_b, pt_b) :: merged_a b'
    end.

(** The variables of the loops over [Merged]. *)
Record sweep : Type := { depth : Z; started : bool; out : btree }.

Module ByteRanges.
Definition new : ByteRanges := {| points := [] |}.

Definition single (s e : N) : ByteRanges :=
  if s <? e
  then {| points := BTree.insert e End (BTree.insert s Start []) |}
  else new.

Definition for_range (r : ByteRange) : ByteRanges := single (start r) (end_ r).

Definition is_empty (r : ByteRanges) : bool :=
  match points r with [] => true | _ => false end.

Definition len (r : ByteRanges) : nat := Nat.div2 (length (points r)).

(** [ByteRangesIter]: stops at the first pair that is not a start followed by
    an end. *)
Fixpoint iter_points (t : btree) : list ByteRange :=
  match t with
  | (s, Start) :: (e, End) :: t => ByteRange.new s e :: iter_points t
  | _ => []
  end.
Definition iter (r : ByteRanges) : list ByteRange := iter_points (points r).
Definition as_vec (r : ByteRanges) : list ByteRange := iter r.

Definition bytecount (r : ByteRanges) : N :=
  foldl (λ sum c, u64_add sum (ByteRange.bytecount c)) 0 (iter r).

Definition add (r : ByteRanges) (range : ByteRange) : ByteRanges :=
  if ByteRange.is_empty range then r
  else
    let t := foldl (λ t kv, BTree.remove kv.1 t) (points r)
               (BTree.range_incl (start range) (end_ range) (points r)) in
    let t := if is_start (last (BTree.range_lt (start range) t)) then t
             else BTree.insert (start range) Start t in
    let t := if is_end (head (BTree.range_ge (end_ range) t)) then t
             else BTree.insert (end_ range) End t in
    {| points := t |}.

Definition from_ranges (rs : list ByteRange) : ByteRanges := foldl add new rs.
Definition from_range_refs (rs : list ByteRange) : ByteRanges := foldl add new rs.

(** [extend(&mut self, other)] *)
Definition extend (r other : ByteRanges) : ByteRanges :=
  if is_empty r then other else foldl add r (iter other).

Definition union_step (st : sweep) (pt : N * Point) : sweep :=
  match pt with
  | (val, Start) =>
      {| depth := depth st + 1; started := started st;
         out := if (depth st =? 0)%Z then BTree.insert val Start (out st) else out st |}
  | (val, End) =>
      {| depth := depth st - 1; started := started st;
         out := if (depth st - 1 =? 0)%Z then BTree.insert val End (out st) else out st |}
  end.
Definition union (a b : ByteRanges) : ByteRanges :=
  if is_empty a then b
  else {| points := out (foldl union_step {| depth := 0; started := false; out := [] |}
                               (merged (points a) (points b))) |}.

Definition intersection_step (st : sweep) (pt : N * Point) : sweep :=
  match pt with
  | (val, Start) =>
      {| depth := depth st + 1; started := started st;
         out := if (depth st + 1 =? 2)%Z then BTree.insert val Start (out st) else out st |}
  | (val, End) =>
      {| depth := depth st - 1; started := started st;
         out := if (depth st =? 2)%Z then BTree.insert val End (out st) else out st |}
  end.
Definition intersection (a b : ByteRanges) : ByteRanges :=
  if is_empty a || is_empty b then new
  else {| points := out (foldl intersection_step {| depth := 0; started := false; out := [] |}
                               (merged (points a) (points b))) |}.

Definition subtraction_step (st : sweep) (pt : N * Point) : sweep :=
  match pt with
  | (val, Start) =>
      if (depth st + 1 =? 2)%Z
      then {| depth := depth st + 1; started := true; out := BTree.insert val Start (out st) |}
      else {| depth := depth st + 1; started := started st; out := out st |}
  | (val, End) =>
      {| depth := depth st - 1; started := started st;
         out := if (depth st =? 2)%Z && started st
                then BTree.insert val End (out st) else out st |}
  end.
Definition subtraction (a b : ByteRanges) : ByteRanges :=
  {| points := out (foldl subtraction_step {| depth := 1; started := false; out := [] |}
                      (merged (points a)
                              (map (λ kv, (kv.1, reverse kv.2)) (points b)))) |}.

(** [None] when [BTreeMap::range] panics, which it does on a range whose start
    is after its end. *)
Definition overlaps (r : ByteRanges) (range : ByteRange) : option bool :=
  if end_ range <? start range then None
  else Some (existsb (λ kv, bool_decide (kv.2 = Start))
                     (BTree.range_excl (start range) (end_ range) (points r))
             || is_start (last (BTree.range_lt (start range) (points r)))).

Definition containing_range (r : ByteRanges) (offset : N) : option ByteRange :=
  match last (BTree.range_le offset (points r)) with
  | Some (s, Start) =>
      match head (BTree.range_ge (u64_add offset 1) (points r)) with
      | Some (e, End) => Some (ByteRange.new s e)
      | _ => None
      end
  | _ => None
  end.

(** [ByteRanges::chunked], collected. *)
Definition chunked (r : ByteRanges) (size : N) : option (list ByteRange) :=
  (λ rs : list (list ByteRange), mjoin rs) <$> mapM (λ c, Range.chunked c size) (iter r).
End ByteRanges.

(** ** The set of offsets and the invariant *)

Definition sgn (p : Point) : Z := match p with Start => 1 | End => -1 end.

(** Starts minus ends, at or before [x] and in total. *)
Definition delta (t : btree) (x : N) : Z :=
  foldr (λ kv acc, if kv.1 <=? x then (sgn kv.2 + acc)%Z else acc) 0%Z t.
Definition net (t : btree) : Z := foldr (λ kv acc, (sgn kv.2 + acc)%Z) 0%Z t.

Definition mem (r : ByteRanges) (x : N) : bool := (0 <? delta (points r) x)%Z.

(** The state (inside a range or not) after reading the points from state [s];
    [None] when a point does not alternate. *)
Fixpoint run (s : bool) (t : btree) : option bool :=
  match t with
  | [] => Some s
  | (_, Start) :: t => if s then None else run true t
  | (_, End) :: t => if s then run false t else None
  end.

Definition key_lt (a b : N * Point) : Prop := a.1 < b.1.

#[global] Instance key_lt_trans : Transitive key_lt.
Proof. intros a b c. unfold key_lt. lia. Qed.

Definition wf (r : ByteRanges) : Prop :=
  StronglySorted key_lt (points r) ∧ run false (points r) = Some false.

(** ** Lemmas on points *)

Definition b2z (b : bool) : Z := if b then 1 else 0.

Lemma delta_app a b x : delta (a ++ b) x = (delta a x + delta b x)%Z.
Proof. induction a as [|[k p] a IH]; simpl; [done|]. rewrite IH. cmp_cases; lia. Qed.

Lemma delta_above t x : Forall (λ kv, x < kv.1) t → delta t x = 0%Z.
Proof. induction 1 as [|[k p] t Hk _ IH]; simpl in *; [done|]. cmp_cases; lia. Qed.

Lemma delta_below t x : Forall (λ kv, kv.1 ≤ x) t → delta t x = net t.
Proof. induction 1 as [|[k p] t Hk _ IH]; simpl in *; [done|]. cmp_cases; lia. Qed.

Lemma delta_reverse t x :
  delta (map (λ kv, (kv.1, reverse kv.2)) t) x = (- delta t x)%Z.
Proof. induction t as [|[k []] t IH]; simpl; [done|..]; cmp_cases; lia. Qed.

Lemma net_reverse t : net (map (λ kv, (kv.1, reverse kv.2)) t) = (- net t)%Z.
Proof. induction t as [|[k []] t IH]; simpl; lia. Qed.

Lemma run_app s a b : run s (a ++ b) = run s a ≫= λ s', run s' b.
Proof. revert s. induction a as [|[k []] a IH]; intros []; simpl; auto. Qed.

Lemma run_net s t s' : run s t = Some s' → (b2z s + net t)%Z = b2z s'.
Proof.
  revert s. induction t as [|[k []] t IH]; intros [] H; simplify_eq/=; try done;
    apply IH in H; simpl in *; lia.
Qed.

Lemma run_last s t s' :
  run s t = Some s' →
  s' = match last t with Some (_, p) => bool_decide (p = Start) | None => s end.
Proof.
  revert s. induction t as [|[k p] t IH]; intros s H; simplify_eq/=; [done|].
  destruct t as [|kp t]; [by destruct p, s; simplify_eq/=|].
  rewrite last_cons_cons.
  destruct (last (kp :: t)) as [[k' p']|] eqn:E; [|by apply last_None in E].
  destruct p, s; try done; by apply IH in H.
Qed.

Lemma run_is_start t s' : run false t = Some s' → is_start (last t) = s'.
Proof. intros H%run_last. subst. by destruct (last t) as [[? []]|]. Qed.

Lemma run_is_end s t : run s t = Some false → is_end (head t) = s.
Proof. by destruct t as [|[? []] ?], s. Qed.

(** A prefix of a well-formed sequence of points leaves the state that its
    offsets' membership says. *)
Lemma run_delta s t s' x :
  StronglySorted key_lt t → run s t = Some s' →
  ∃ b, (b2z s + delta t x)%Z = b2z b.
Proof.
  intros Hs. revert s. induction Hs as [|[k p] t Hs IH Hk]; intros s H; simpl.
  { exists s. lia. }
  assert (Forall (λ kv, k < kv.1) t) as Hk' by done.
  destruct (N.leb_spec k x) as [Hle|Hgt].
  - destruct p, s; simplify_eq/=; apply IH in H as [b Hb]; exists b; simpl in *; lia.
  - exists s. rewrite delta_above; [lia|].
    eapply Forall_impl; [exact Hk'|]. simpl; lia.
Qed.

Lemma split_lt (t : btree) x :
  StronglySorted key_lt t → t = BTree.range_lt x t ++ BTree.range_ge x t.
Proof.
  unfold BTree.range_lt, BTree.range_ge.
  induction 1 as [|[k p] t Hs IH Hk]; [done|].
  destruct (decide (k < x)) as [Hlt|Hge].
  - rewrite filter_cons_True by done. rewrite (filter_cons_False _ _ t) by (simpl; lia).
    simpl. by f_equal.
  - rewrite !filter_cons_False by done. rewrite filter_cons_True by (simpl; lia).
    rewrite filter_none; [simpl; f_equal; rewrite filter_all; [done|]|];
      eapply Forall_impl; [exact Hk| |exact Hk|]; unfold key_lt; simpl; lia.
Qed.

Lemma delta_split t k x :
  StronglySorted key_lt t →
  delta t x = (delta (BTree.range_lt k t) x + delta (BTree.range_ge k t) x)%Z.
Proof. intros Hs. by rewrite (split_lt t k Hs) at 1; rewrite delta_app. Qed.

Lemma range_le_lt (t : btree) x : BTree.range_le x t = BTree.range_lt (x + 1) t.
Proof. apply list_filter_iff. intros [k p]; simpl. lia. Qed.

Lemma wf_split t x s' :
  StronglySorted key_lt t → run false t = Some s' →
  ∃ s, run false (BTree.range_lt x t) = Some s ∧ run s (BTree.range_ge x t) = Some s' ∧
       b2z s = net (BTree.range_lt x t).
Proof.
  intros Hs Hr. rewrite (split_lt t x Hs), run_app in Hr.
  destruct (run false (BTree.range_lt x t)) as [s|] eqn:E; [|done].
  exists s. split_and!; [done|done|]. apply run_net in E. simpl in *. lia.
Qed.

Lemma range_lt_below x t : Forall (λ kv, kv.1 < x) (BTree.range_lt x t).
Proof.
  apply Forall_forall. intros kv H%list_elem_of_filter. tauto.
Qed.

Lemma range_ge_above x t : Forall (λ kv, x ≤ kv.1) (BTree.range_ge x t).
Proof.
  apply Forall_forall. intros kv H%list_elem_of_filter. tauto.
Qed.

(** ** The sweeps

    All three loops emit a point exactly when the depth crosses a threshold
    ([1] for the union, [2] for the others). *)

Fixpoint emit (t d : Z) (m : btree) : btree :=
  match m with
  | [] => []
  | (k, Start) :: m => (if (d + 1 =? t)%Z then [(k, Start)] else []) ++ emit t (d + 1) m
  | (k, End) :: m => (if (d =? t)%Z then [(k, End)] else []) ++ emit t (d - 1) m
  end.

Definition insert_all (t m : btree) : btree :=
  foldl (λ t kv, BTree.insert kv.1 kv.2 t) t m.

Lemma union_fold m d b t :
  out (foldl ByteRanges.union_step {| depth := d; started := b; out := t |} m) =
  insert_all t (emit 1 d m).
Proof.
  revert d b t. induction m as [|[k []] m IH]; intros d b t; simpl; [done|..];
    rewrite IH; cmp_cases; try lia; done.
Qed.

Lemma intersection_fold m d b t :
  out (foldl ByteRanges.intersection_step {| depth := d; started := b; out := t |} m) =
  insert_all t (emit 2 d m).
Proof.
  revert d b t. induction m as [|[k []] m IH]; intros d b t; simpl; [done|..];
    rewrite IH; cmp_cases; try lia; done.
Qed.

(** [started] never suppresses a point: depth 2 is only reached by a start that
    was emitted. *)
Lemma subtraction_fold m d b t :
  ((d <? 2)%Z || b) = true →
  out (foldl ByteRanges.subtraction_step {| depth := d; started := b; out := t |} m) =
  insert_all t (emit 2 d m).
Proof.
  revert d b t. induction m as [|[k []] m IH]; intros d b t Hb; simpl; [done|..].
  - destruct (Z.eqb_spec (d + 1) 2) as [E|E]; simpl; rewrite IH; try done.
    + by rewrite orb_true_r.
    + revert Hb. cmp_cases; simpl; intros; (done || lia).
  - rewrite IH.
    + destruct (Z.eqb_spec d 2) as [->|]; simpl in *; by rewrite ?Hb.
    + revert Hb. cmp_cases; simpl; intros; (done || lia).
Qed.

Lemma insert_above k v t :
  Forall (λ kv, kv.1 < k) t → BTree.insert k v t = t ++ [(k, v)].
Proof.
  induction 1 as [|[k' v'] t Hk Ht IH]; simpl in *; [done|].
  destruct (N.compare_spec k k'); [lia|lia|]. by rewrite IH.
Qed.

Lemma insert_all_app t m :
  StronglySorted key_lt (t ++ m) → insert_all t m = t ++ m.
Proof.
  revert t. induction m as [|[k v] m IH]; intros t Hs; simpl; [by rewrite app_nil_r|].
  rewrite insert_above.
  - rewrite IH; rewrite <- (assoc_L (++)); done.
  - apply Forall_forall. intros kv Hkv.
    apply (StronglySorted_app_1_elem_of key_lt t ((k, v) :: m) kv (k, v)); [done|done|by left].
Qed.

(** Merged points: in key order, and never a start and an end together. *)
Definition key_le_same (a b : N * Point) : Prop := a.1 < b.1 ∨ (a.1 = b.1 ∧ a.2 = b.2).

#[global] Instance key_le_same_trans : Transitive key_le_same.
Proof. intros [] [] []. unfold key_le_same; simpl. intuition (lia || congruence || idtac). Qed.

Lemma delta_merged a b x : delta (merged a b) x = (delta a x + delta b x)%Z.
Proof.
  revert b. induction a as [|[ka pa] a IHa]; intros b; simpl; [by destruct b|].
  induction b as [|[kb pb] b IHb]; simpl; [cmp_cases; lia|].
  destruct (N.eqb_spec ka kb) as [->|Hne]; simpl.
  - destruct (bool_decide_reflect (pa = pb)) as [->|Hp]; simpl.
    + rewrite N.ltb_irrefl. simpl. rewrite IHb. simpl. cmp_cases; lia.
    + rewrite IHa. destruct pa, pb; simpl; try done; cmp_cases; lia.
  - destruct (N.ltb_spec ka kb); simpl; [rewrite IHa|rewrite IHb]; simpl; cmp_cases; lia.
Qed.

Lemma net_merged a b : net (merged a b) = (net a + net b)%Z.
Proof.
  revert b. induction a as [|[ka pa] a IHa]; intros b; simpl; [by destruct b|].
  induction b as [|[kb pb] b IHb]; simpl; [lia|].
  destruct (N.eqb_spec ka kb) as [->|Hne]; simpl.
  - destruct (bool_decide_reflect (pa = pb)) as [->|Hp]; simpl.
    + rewrite N.ltb_irrefl. simpl. rewrite IHb. simpl. lia.
    + rewrite IHa. destruct pa, pb; simpl; try done; lia.
  - destruct (ka <? kb); simpl; [rewrite IHa|rewrite IHb]; simpl; lia.
Qed.

Lemma merged_subset a b kv : kv ∈ merged a b → kv ∈ a ∨ kv ∈ b.
Proof.
  revert b. induction a as [|[ka pa] a IHa]; intros b; simpl; [destruct b; auto|].
  induction b as [|[kb pb] b IHb]; simpl; [auto|].
  repeat case_match; rewrite !elem_of_cons.
  - intros [?|?]%IHa; auto.
  - intros [?|[?|?]%IHa]; rewrite ?elem_of_cons in *; auto.
  - intros [?|[?|?]%IHb]; rewrite ?elem_of_cons in *; auto.
Qed.

Lemma Forall_merged (P : N * Point → Prop) a b :
  Forall P a → Forall P b → Forall P (merged a b).
Proof.
  rewrite !Forall_forall. intros Ha Hb kv [?|?]%merged_subset; auto.
Qed.

Lemma merged_sorted a b :
  StronglySorted key_lt a → StronglySorted key_lt b →
  StronglySorted key_le_same (merged a b).
Proof.
  assert (∀ c, StronglySorted key_lt c → StronglySorted key_le_same c) as Hweak.
  { induction 1; constructor; [done|]. eapply Forall_impl; [done|]. unfold key_lt, key_le_same. auto. }
  intros Ha. revert b. induction Ha as [|[ka pa] a Ha IHa Hka]; intros b Hb; simpl.
  { destruct b; by apply Hweak. }
  induction Hb as [|[kb pb] b Hb IHb Hkb]; simpl; [by apply Hweak; constructor|].
  destruct ((ka =? kb) && negb (bool_decide (pa = pb))) eqn:Esk; [by apply IHa|].
  assert (ka = kb → pa = pb) as Hp.
  { intros ->. rewrite N.eqb_refl in Esk. simpl in Esk.
    by destruct (bool_decide_reflect (pa = pb)). }
  destruct (N.ltb_spec ka kb) as [Hlt|Hge].
  - constructor; [apply IHa; by constructor|]. apply Forall_merged.
    + eapply Forall_impl; [exact Hka|]. intros ? ?; by left.
    + constructor; [by left|]. eapply Forall_impl; [exact Hkb|].
      unfold key_lt, key_le_same; simpl; lia.
  - constructor; [by apply IHb|].
    apply (Forall_merged _ ((ka, pa) :: a) b).
    + constructor.
      * unfold key_le_same; simpl. destruct (N.eq_dec kb ka); [right; naive_solver|left; lia].
      * eapply Forall_impl; [exact Hka|]. unfold key_lt, key_le_same; simpl; lia.
    + eapply Forall_impl; [exact Hkb|]. unfold key_lt, key_le_same; simpl; lia.
Qed.

Lemma emit_sublist t d m : emit t d m `sublist_of` m.
Proof.
  revert d. induction m as [|[k []] m IH]; intros d; simpl; [constructor|..];
    case_match; simpl; constructor; apply IH.
Qed.

Lemma emit_run t d m s :
  s = (t <=? d)%Z → run s (emit t d m) = Some (t <=? d + net m)%Z.
Proof.
  revert d s. induction m as [|[k []] m IH]; intros d s ->; simpl.
  - by rewrite Z.add_0_r.
  - destruct (Z.eqb_spec (d + 1) t) as [<-|Hne]; simpl.
    + rewrite (proj2 (Z.leb_gt (d + 1) d)) by lia. rewrite IH; [do 2 f_equal; lia|].
      symmetry. apply Z.leb_le. lia.
    + rewrite IH; [do 2 f_equal; lia|]. cmp_cases; lia.
  - destruct (Z.eqb_spec d t) as [->|Hne]; simpl.
    + rewrite Z.leb_refl. rewrite IH; [do 2 f_equal; lia|].
      symmetry. apply Z.leb_gt. lia.
    + rewrite IH; [do 2 f_equal; lia|]. cmp_cases; lia.
Qed.

Lemma sublist_sorted {A} (R : relation A) (l k : list A) :
  l `sublist_of` k → StronglySorted R k → StronglySorted R l.
Proof.
  induction 1 as [|x l k Hlk IH|x l k Hlk IH]; intros Hs; [constructor| |];
    apply StronglySorted_inv in Hs as [Hs Hx]; [|by apply IH].
  constructor; [by apply IH|]. eapply Forall_sublist; eauto.
Qed.

Lemma alternating_strict t s s' :
  StronglySorted key_le_same t → run s t = Some s' → StronglySorted key_lt t.
Proof.
  intros Hs. revert s. induction Hs as [|[k p] t Hs IH Hk]; intros s Hr; [constructor|].
  assert (∃ s1, run s1 t = Some s' ∧ (p = Start ↔ s1 = true)) as (s1 & Hr1 & Hp).
  { destruct p, s; simplify_eq/=; eauto. exists true; naive_solver. exists false; naive_solver. }
  specialize (IH _ Hr1). constructor; [done|].
  destruct t as [|[k2 p2] t]; [constructor|].
  apply Forall_cons in Hk as [Hk _]. apply StronglySorted_inv in IH as [_ Hk2].
  assert (k < k2) as Hlt.
  { destruct Hk as [|[_ Heq]]; [done|]. simpl in *. subst p2.
    destruct p, s1; naive_solver. }
  constructor; [done|]. eapply Forall_impl; [exact Hk2|]. unfold key_lt; simpl; lia.
Qed.

Lemma delta_emit t d m x :
  StronglySorted key_le_same m →
  (b2z (t <=? d) + delta (emit t d m) x)%Z = b2z (t <=? d + delta m x)%Z.
Proof.
  intros Hs. revert d. induction Hs as [|[k p] m Hs IH Hk]; intros d; simpl.
  { by rewrite !Z.add_0_r. }
  destruct (N.leb_spec k x) as [Hle|Hgt].
  - destruct p; simpl; rewrite delta_app.
    + specialize (IH (d + 1)%Z). replace (d + (1 + delta m x))%Z with (d + 1 + delta m x)%Z by lia.
      rewrite <- IH. destruct (Z.eqb_spec (d + 1) t); simpl; cmp_cases; simpl; lia.
    + specialize (IH (d - 1)%Z). replace (d + (-1 + delta m x))%Z with (d - 1 + delta m x)%Z by lia.
      rewrite <- IH. destruct (Z.eqb_spec d t); simpl; cmp_cases; simpl; lia.
  - assert (Forall (λ kv, x < kv.1) ((k, p) :: m)) as Hx.
    { constructor; [done|]. eapply Forall_impl; [exact Hk|]. unfold key_le_same; simpl; lia. }
    rewrite (delta_above (match p with Start => _ | End => _ end)).
    + rewrite delta_above by (by apply Forall_cons in Hx as [_ ?]). by rewrite !Z.add_0_r.
    + eapply (Forall_sublist _ (emit t d ((k, p) :: m))); [apply emit_sublist|done].
Qed.

(** What a sweep over merged points computes, and that it is well-formed. *)
Lemma sweep_spec t d m x :
  StronglySorted key_le_same m → (d < t)%Z → (d + net m < t)%Z →
  wf {| points := insert_all [] (emit t d m) |} ∧
  mem {| points := insert_all [] (emit t d m) |} x = (t <=? d + delta m x)%Z.
Proof.
  intros Hs Hd Htot.
  assert (run false (emit t d m) = Some false) as Hrun.
  { rewrite (emit_run t d m false); [f_equal|]; [|symmetry]; apply Z.leb_gt; lia. }
  assert (StronglySorted key_lt (emit t d m)) as Hlt.
  { eapply alternating_strict, Hrun. eapply sublist_sorted; [apply emit_sublist|done]. }
  rewrite insert_all_app by done. split; [done|].
  pose proof (delta_emit t d m x Hs) as H. unfold mem; simpl.
  rewrite (proj2 (Z.leb_gt t d)) in H by lia.
  replace (delta (emit t d m) x) with (b2z (t <=? d + delta m x)%Z) by (simpl in H; lia).
  by destruct (_ <=? _)%Z.
Qed.

Lemma wf_net r : wf r → net (points r) = 0%Z.
Proof. intros [_ H%run_net]. simpl in H. lia. Qed.

Lemma wf_delta r x : wf r → delta (points r) x = b2z (mem r x).
Proof.
  intros [Hs Hr]. destruct (run_delta _ _ _ x Hs Hr) as [b Hb].
  unfold mem. simpl in Hb. replace (delta (points r) x) with (b2z b) by lia. by destruct b.
Qed.

Lemma wf_empty_mem r x : ByteRanges.is_empty r = true → mem r x = false.
Proof. destruct r as [[|]]; done. Qed.

Lemma reverse_sorted t :
  StronglySorted key_lt t → StronglySorted key_lt (map (λ kv, (kv.1, reverse kv.2)) t).
Proof.
  induction 1 as [|kv t Hs IH Hk]; simpl; constructor; [done|].
  clear -Hk. induction Hk; simpl; constructor; auto.
Qed.

(** Two well-formed sequences read from the same state that hold the same
    offsets are equal. *)
Lemma run_unique s a b :
  StronglySorted key_lt a → StronglySorted key_lt b →
  run s a = Some false → run s b = Some false →
  (∀ x, delta a x = delta b x) → a = b.
Proof.
  intros Ha. revert s b. induction Ha as [|[ka pa] a Ha IH Hka]; intros s b Hb Hra Hrb Heq.
  - destruct b as [|[kb pb] b]; [done|]. apply StronglySorted_inv in Hb as [_ Hkb].
    specialize (Heq kb). simpl in Heq. rewrite N.leb_refl, (delta_above b) in Heq by done.
    by destruct pb.
  - destruct b as [|[kb pb] b].
    { specialize (Heq ka). simpl in Heq. rewrite N.leb_refl, (delta_above a) in Heq by done.
      by destruct pa. }
    apply StronglySorted_inv in Hb as [Hb Hkb].
    assert (pa = pb) as <- by (by destruct pa, pb, s).
    assert (ka = kb) as <-.
    { destruct (N.lt_trichotomy ka kb) as [Hlt|[?|Hlt]]; [|done|]; exfalso.
      - specialize (Heq ka). simpl in Heq. rewrite N.leb_refl, (proj2 (N.leb_gt kb ka)) in Heq by done.
        rewrite !delta_above in Heq;
          [by destruct pa|eapply Forall_impl; [exact Hkb|unfold key_lt; simpl; lia]|done].
      - specialize (Heq kb). simpl in Heq. rewrite N.leb_refl, (proj2 (N.leb_gt ka kb)) in Heq by done.
        rewrite !delta_above in Heq;
          [by destruct pa|done|eapply Forall_impl; [exact Hka|unfold key_lt; simpl; lia]]. }
    f_equal. assert (∀ x, delta a x = delta b x) as Heq'.
    { intros x. specialize (Heq x). simpl in Heq. destruct (ka <=? x) eqn:E; [lia|].
      apply N.leb_gt in E.
      rewrite !delta_above; [done|eapply Forall_impl; [exact Hkb|]|eapply Forall_impl; [exact Hka|]];
        unfold key_lt; simpl; lia. }
    destruct pa, s; simpl in *; try done; eapply IH; eauto.
Qed.

Lemma wf_unique a b : wf a → wf b → (∀ x, mem a x = mem b x) → a = b.
Proof.
  intros Ha Hb Heq. destruct a as [a], b as [b]. f_equal.
  apply (run_unique false); [apply Ha|apply Hb|apply Ha|apply Hb|].
  intros x. pose proof (wf_delta _ x Ha) as H1. pose proof (wf_delta _ x Hb) as H2.
  simpl in *. by rewrite H1, H2, Heq.
Qed.

Lemma wf_new : wf ByteRanges.new.
Proof. split; [constructor|done]. Qed.

Lemma single_spec s e :
  wf (ByteRanges.single s e) ∧
  ∀ x, mem (ByteRanges.single s e) x = ByteRange.contains (ByteRange.new s e) x.
Proof.
  unfold ByteRanges.single. destruct (N.ltb_spec s e) as [Hlt|Hge].
  - simpl. destruct (N.compare_spec e s); [lia|lia|]. split.
    + split; [|done]. repeat constructor; unfold key_lt; simpl; lia.
    + intros x. unfold mem, ByteRange.contains; simpl. cmp_cases; simpl; (done || lia).
  - split; [apply wf_new|]. intros x. unfold mem, ByteRange.contains; simpl.
    cmp_cases; simpl; (done || lia).
Qed.

Lemma union_spec a b :
  wf a → wf b →
  wf (ByteRanges.union a b) ∧
  ∀ x, mem (ByteRanges.union a b) x = mem a x || mem b x.
Proof.
  intros Ha Hb. unfold ByteRanges.union.
  destruct (ByteRanges.is_empty a) eqn:E.
  { split; [done|]. intros x. by rewrite (wf_empty_mem a). }
  rewrite union_fold.
  pose proof (merged_sorted _ _ (proj1 Ha) (proj1 Hb)) as Hs.
  assert (0 + net (merged (points a) (points b)) < 1)%Z as Htot
    by (rewrite net_merged, !wf_net by done; lia).
  split; [by apply (sweep_spec 1 0 _ 0)|].
  intros x. destruct (sweep_spec 1 0 _ x Hs) as [_ ->]; [lia|done|].
  rewrite delta_merged, !wf_delta by done. by destruct (mem a x), (mem b x).
Qed.

Lemma intersection_spec a b :
  wf a → wf b →
  wf (ByteRanges.intersection a b) ∧
  ∀ x, mem (ByteRanges.intersection a b) x = mem a x && mem b x.
Proof.
  intros Ha Hb. unfold ByteRanges.intersection.
  destruct (ByteRanges.is_empty a || ByteRanges.is_empty b) eqn:E.
  { split; [apply wf_new|]. intros x. apply orb_true_iff in E as [E|E].
    - by rewrite (wf_empty_mem a).
    - by rewrite (wf_empty_mem b), andb_false_r. }
  rewrite intersection_fold.
  pose proof (merged_sorted _ _ (proj1 Ha) (proj1 Hb)) as Hs.
  assert (0 + net (merged (points a) (points b)) < 2)%Z as Htot
    by (rewrite net_merged, !wf_net by done; lia).
  split; [by apply (sweep_spec 2 0 _ 0)|].
  intros x. destruct (sweep_spec 2 0 _ x Hs) as [_ ->]; [lia|done|].
  rewrite delta_merged, !wf_delta by done. by destruct (mem a x), (mem b x).
Qed.

Lemma subtraction_spec a b :
  wf a → wf b →
  wf (ByteRanges.subtraction a b) ∧
  ∀ x, mem (ByteRanges.subtraction a b) x = mem a x && negb (mem b x).
Proof.
  intros Ha Hb. unfold ByteRanges.subtraction.
  rewrite subtraction_fold by done.
  pose proof (merged_sorted _ _ (proj1 Ha) (reverse_sorted _ (proj1 Hb))) as Hs.
  set (m := merged _ _) in *.
  assert (net m = 0)%Z as Htot
    by (subst m; rewrite net_merged, net_reverse, !wf_net by done; lia).
  split; [apply (sweep_spec 2 1 m 0); [done|lia..]|].
  intros x. destruct (sweep_spec 2 1 m x Hs) as [_ ->]; [lia..|].
  subst m. rewrite delta_merged, delta_reverse, !wf_delta by done.
  by destruct (mem a x), (mem b x).
Qed.

(** ** [add] *)

Lemma remove_all_filter (t : btree) (ks : btree) :
  StronglySorted key_lt t →
  foldl (λ t kv, BTree.remove kv.1 t) t ks = filter (λ kv, kv.1 ∉ ks.*1) t.
Proof.
  revert t. induction ks as [|[k v] ks IH]; intros t Hs; simpl.
  { symmetry. apply filter_all, Forall_forall. intros; set_solver. }
  assert (BTree.remove k t = filter (λ kv, kv.1 ≠ k) t) as ->.
  { clear IH. induction Hs as [|[k' v'] t Hs IH Hk]; simpl; [done|].
    destruct (N.eqb_spec k k') as [->|Hne].
    - rewrite filter_cons_False by (simpl; auto). rewrite filter_all; [done|].
      eapply Forall_impl; [exact Hk|]. unfold key_lt; simpl; lia.
    - rewrite filter_cons_True by (simpl; auto). by rewrite IH. }
  rewrite IH.
  - rewrite list_filter_filter. apply list_filter_iff. set_solver.
  - eapply sublist_sorted; [apply sublist_filter|done].
Qed.

(** Removing the points between [s] and [e] leaves those before and those after. *)
Lemma remove_range t s e :
  StronglySorted key_lt t → s < e →
  foldl (λ t kv, BTree.remove kv.1 t) t (BTree.range_incl s e t) =
  BTree.range_lt s t ++ BTree.range_ge (e + 1) t.
Proof.
  intros Hs Hse. rewrite remove_all_filter by done.
  rewrite (split_lt (filter _ _) s) by (eapply sublist_sorted; [apply sublist_filter|done]).
  unfold BTree.range_lt, BTree.range_ge, BTree.range_incl. rewrite !list_filter_filter.
  f_equal; apply filter_ext_in; intros [k p] Hkp; simpl;
    rewrite list_elem_of_fmap; setoid_rewrite list_elem_of_filter.
  - split; [tauto|]. intros ?; split; [done|]. intros ([k' p'] & -> & ? & ?); simpl in *; lia.
  - split.
    + intros [? Hn]. destruct (N.le_gt_cases k e); [|lia]. destruct Hn.
      exists (k, p). simpl. auto with lia.
    + intros ?; split; [lia|]. intros ([k' p'] & -> & ? & ?); simpl in *; lia.
Qed.

Lemma sorted_app a b :
  StronglySorted key_lt a → StronglySorted key_lt b →
  (∀ p q, p ∈ a → q ∈ b → key_lt p q) → StronglySorted key_lt (a ++ b).
Proof.
  induction 1 as [|p a Ha IH Hp]; intros Hb Hab; simpl; [done|].
  constructor; [apply IH; [done|]; intros; apply Hab; [by right|done]|].
  apply Forall_app; split; [done|]. apply Forall_forall. intros q Hq.
  apply Hab; [by left|done].
Qed.

Lemma insert_middle k v (a b : btree) :
  Forall (λ kv, kv.1 < k) a → Forall (λ kv, k < kv.1) b →
  BTree.insert k v (a ++ b) = a ++ (k, v) :: b.
Proof.
  induction 1 as [|[k' v'] a Hk Ha IH]; intros Hb; simpl in *.
  - destruct Hb as [|[k' v'] b Hk Hb]; simpl in *; [done|].
    destruct (N.compare_spec k k'); [lia|done|lia].
  - destruct (N.compare_spec k k'); [lia|lia|]. by rewrite IH.
Qed.

Lemma range_lt_app k (a b : btree) :
  Forall (λ kv, kv.1 < k) a → Forall (λ kv, k ≤ kv.1) b →
  BTree.range_lt k (a ++ b) = a ∧ BTree.range_ge k (a ++ b) = b.
Proof.
  intros Ha Hb. unfold BTree.range_lt, BTree.range_ge. rewrite !filter_app.
  rewrite (filter_all _ a), (filter_none _ b) by
    (done || (eapply Forall_impl; [done|]; simpl; lia)).
  rewrite (filter_none _ a), (filter_all _ b) by
    (done || (eapply Forall_impl; [done|]; simpl; lia)).
  by rewrite app_nil_r.
Qed.

(** What the code's two conditional insertions build, and the state they leave. *)
Definition add_start (s : N) (sL : bool) : btree := if sL then [] else [(s, Start)].
Definition add_end (e : N) (sR : bool) : btree := if sR then [] else [(e, End)].

Lemma add_points t s e sL sR :
  StronglySorted key_lt t → s < e →
  run false (BTree.range_lt s t) = Some sL → run sR (BTree.range_ge (e + 1) t) = Some false →
  ByteRanges.add {| points := t |} (ByteRange.new s e) =
  {| points := BTree.range_lt s t ++ add_start s sL ++ add_end e sR
               ++ BTree.range_ge (e + 1) t |}.
Proof.
  intros Hs Hse HL HR. unfold ByteRanges.add, ByteRange.is_empty; simpl.
  rewrite (proj2 (N.leb_gt e s)) by done. rewrite remove_range by done. f_equal.
  pose proof (range_lt_below s t) as HLs. pose proof (range_ge_above (e + 1) t) as HRs.
  set (L := BTree.range_lt s t) in *. set (R := BTree.range_ge (e + 1) t) in *.
  assert (Forall (λ kv, s < kv.1) R ∧ Forall (λ kv, e < kv.1) R ∧ Forall (λ kv, kv.1 < e) L)
    as (HRs1 & HRe & HLe).
  { split_and!; (eapply Forall_impl; [eassumption|]; simpl; lia). }
  destruct (range_lt_app s L R HLs) as [-> _]; [eapply Forall_impl; [exact HRs|]; simpl; lia|].
  rewrite (run_is_start _ _ HL).
  assert ((if sL then L ++ R else BTree.insert s Start (L ++ R)) = (L ++ add_start s sL) ++ R)
    as ->.
  { unfold add_start. destruct sL; rewrite <- (assoc_L (++)); [done|].
    by rewrite insert_middle. }
  assert (Forall (λ kv, kv.1 < e) (L ++ add_start s sL)) as HLSe.
  { apply Forall_app; split; [done|]. unfold add_start. destruct sL; repeat constructor; done. }
  destruct (range_lt_app e (L ++ add_start s sL) R HLSe) as [_ ->];
    [eapply Forall_impl; [exact HRe|]; simpl; lia|].
  rewrite (run_is_end _ _ HR). unfold add_end.
  destruct sR; [|rewrite insert_middle by done]; by rewrite <- !(assoc_L (++)).
Qed.

Definition add_result (t : btree) (s e : N) (sL sR : bool) : btree :=
  BTree.range_lt s t ++ add_start s sL ++ add_end e sR ++ BTree.range_ge (e + 1) t.

Lemma add_result_sorted t s e sL sR :
  StronglySorted key_lt t → s < e → StronglySorted key_lt (add_result t s e sL sR).
Proof.
  intros Hs Hse. unfold add_result.
  pose proof (range_lt_below s t) as HL. pose proof (range_ge_above (e + 1) t) as HR.
  rewrite Forall_forall in HL, HR.
  assert (∀ P : N * Point → Prop, ∀ H : ∀ x, Decision (P x), StronglySorted key_lt (filter P t))
    as Hf by (intros; eapply sublist_sorted; [apply sublist_filter|done]).
  assert (∀ q, q ∈ add_end e sR → q.1 = e) as HE.
  { unfold add_end. intros q Hq. destruct sR; set_unfold in Hq; naive_solver. }
  assert (∀ q, q ∈ add_start s sL → q.1 = s) as HS.
  { unfold add_start. intros q Hq. destruct sL; set_unfold in Hq; naive_solver. }
  rewrite !StronglySorted_app. unfold key_lt. split_and!; try apply Hf.
  - intros p q Hp%HL [->%HS|[->%HE|Hq%HR]%elem_of_app]%elem_of_app; lia.
  - intros p q ->%HS [->%HE|Hq%HR]%elem_of_app; lia.
  - unfold add_start. destruct sL; repeat constructor.
  - intros p q ->%HE Hq%HR; lia.
  - unfold add_end. destruct sR; repeat constructor.
Qed.

Ltac by_keys H := eapply Forall_impl; [apply H|]; simpl; lia.

Lemma add_result_delta t s e sL sR x :
  StronglySorted key_lt t → s < e →
  b2z sL = net (BTree.range_lt s t) → b2z sR = net (BTree.range_lt (e + 1) t) →
  delta (add_result t s e sL sR) x =
    if ByteRange.contains (ByteRange.new s e) x then 1%Z else delta t x.
Proof.
  intros Hs Hse HtL HtR. unfold add_result. rewrite !delta_app.
  assert (delta (add_start s sL) x = if (s <=? x)%N then 1 - b2z sL else 0)%Z as ->
    by (unfold add_start; destruct sL; simpl; cmp_cases; lia).
  assert (delta (add_end e sR) x = if (e <=? x)%N then b2z sR - 1 else 0)%Z as ->
    by (unfold add_end; destruct sR; simpl; cmp_cases; lia).
  unfold ByteRange.contains; simpl.
  destruct (N.leb_spec s x) as [Hsx|Hsx]; [destruct (N.leb_spec e x) as [Hex|Hex]|].
  - rewrite (delta_below (BTree.range_lt s t)), <- HtL by by_keys range_lt_below.
    rewrite (proj2 (N.ltb_ge x e)) by done. simpl.
    rewrite (delta_split t (e + 1) x Hs).
    rewrite (delta_below (BTree.range_lt (e + 1) t)), <- HtR by by_keys range_lt_below. lia.
  - rewrite (delta_below (BTree.range_lt s t)), <- HtL by by_keys range_lt_below.
    rewrite (delta_above (BTree.range_ge (e + 1) t)) by by_keys range_ge_above.
    rewrite (proj2 (N.ltb_lt x e)) by done. simpl. lia.
  - rewrite (proj2 (N.leb_gt e x)) by lia. simpl.
    rewrite (delta_above (BTree.range_ge (e + 1) t)) by by_keys range_ge_above.
    rewrite (delta_split t s x Hs).
    rewrite (delta_above (BTree.range_ge s t)) by by_keys range_ge_above. lia.
Qed.

Lemma add_spec r range :
  wf r →
  wf (ByteRanges.add r range) ∧
  ∀ x, mem (ByteRanges.add r range) x = mem r x || ByteRange.contains range x.
Proof.
  destruct r as [t]. intros [Hs Hr]. destruct range as [s e]; simpl in *.
  change {| start := s; end_ := e |} with (ByteRange.new s e).
  destruct (N.le_gt_cases e s) as [Hle|Hse].
  { unfold ByteRanges.add, ByteRange.is_empty; simpl. rewrite (proj2 (N.leb_le e s) Hle).
    split; [done|]. intros x. unfold ByteRange.contains; simpl.
    cmp_cases; simpl; rewrite ?orb_false_r; (done || lia). }
  destruct (wf_split t s false Hs Hr) as (sL & HL & _ & HtL).
  destruct (wf_split t (e + 1) false Hs Hr) as (sR & _ & HR & HtR).
  rewrite (add_points t s e sL sR) by done. fold (add_result t s e sL sR).
  split; [split; [by apply add_result_sorted|]|]; simpl.
  - unfold add_result. rewrite !run_app, HL. by destruct sL, sR.
  - intros x. unfold mem; simpl. rewrite add_result_delta by done.
    destruct (ByteRange.contains _ x); [by rewrite orb_true_r|by rewrite orb_false_r].
Qed.

Lemma fold_add_spec rs r :
  wf r →
  wf (foldl ByteRanges.add r rs) ∧
  ∀ x, mem (foldl ByteRanges.add r rs) x =
       mem r x || existsb (λ c, ByteRange.contains c x) rs.
Proof.
  revert r. induction rs as [|c rs IH]; intros r Hr; simpl.
  { split; [done|]. intros x. by rewrite orb_false_r. }
  destruct (add_spec r c Hr) as [Hw Hm]. destruct (IH _ Hw) as [Hw' Hm'].
  split; [done|]. intros x. by rewrite Hm', Hm, orb_assoc.
Qed.

(** ** Reading a set back as ranges *)

(** Maximal ranges: non-empty, in increasing order, with a gap between any two. *)
Fixpoint separated (lo : N) (rs : list ByteRange) : Prop :=
  match rs with
  | [] => True
  | r :: rs => lo ≤ start r ∧ start r < end_ r ∧ separated (end_ r + 1) rs
  end.

Lemma iter_points_spec t lo :
  StronglySorted key_lt t → run false t = Some false → Forall (λ kv, lo ≤ kv.1) t →
  separated lo (ByteRanges.iter_points t) ∧
  ∀ x, (0 <? delta t x)%Z = existsb (λ c, ByteRange.contains c x) (ByteRanges.iter_points t).
Proof.
  revert lo. induction t as [t IH] using (induction_ltof1 _ length); unfold ltof in IH.
  intros lo Hs Hr Hlo. destruct t as [|[s []] [|[e []] t]]; simpl in *; try done.
  apply StronglySorted_inv in Hs as [Hs Hk1]. apply StronglySorted_inv in Hs as [Hs Hk2].
  apply Forall_cons in Hlo as [Hls _]. apply Forall_cons in Hk1 as [Hse _].
  unfold key_lt in *; simpl in *.
  destruct (IH t ltac:(lia) (e + 1) Hs Hr) as [IH1 IH2];
    [eapply Forall_impl; [exact Hk2|]; simpl; lia|].
  split; [done|]. intros x. rewrite <- IH2. unfold ByteRange.contains; simpl.
  destruct (N.leb_spec s x), (N.leb_spec e x); simpl; try lia.
  - rewrite (proj2 (N.ltb_ge x e)) by done. simpl. f_equal; lia.
  - rewrite (proj2 (N.ltb_lt x e)) by done. simpl.
    rewrite delta_above by (eapply Forall_impl; [exact Hk2|]; simpl; lia). done.
Qed.

Lemma iter_spec r :
  wf r →
  separated 0 (ByteRanges.iter r) ∧
  ∀ x, mem r x = existsb (λ c, ByteRange.contains c x) (ByteRanges.iter r).
Proof.
  intros [Hs Hr]. apply iter_points_spec; [done|done|].
  apply Forall_forall. intros; lia.
Qed.

(** The number of offsets below [n] in the set. *)
Definition count (f : N → bool) (n : N) : N :=
  N.peano_rect (λ _, N) 0 (λ x c, if f x then c + 1 else c) n.

Lemma count_succ f n : count f (n + 1) = if f n then count f n + 1 else count f n.
Proof. unfold count. rewrite N.add_1_r. by rewrite N.peano_rect_succ. Qed.

Lemma count_contains c rs n :
  start c < end_ c → separated (end_ c + 1) rs →
  count (λ x, existsb (λ d, ByteRange.contains d x) (c :: rs)) n =
  (N.min n (end_ c) - start c) + count (λ x, existsb (λ d, ByteRange.contains d x) rs) n.
Proof.
  intros Hc Hsep.
  assert (∀ x lo rs, separated lo rs → x < lo →
            existsb (λ d, ByteRange.contains d x) rs = false) as Hbelow.
  { clear. intros x lo rs. revert lo. induction rs as [|c rs IH]; intros lo; simpl; [done|].
    intros (?&?&Hs) Hx. rewrite (IH _ Hs) by lia. rewrite orb_false_r.
    unfold ByteRange.contains. by rewrite (proj2 (N.leb_gt (start c) x)) by lia. }
  induction n as [|n IH] using N.peano_ind; [unfold count; simpl; lia|].
  rewrite <- N.add_1_r, !count_succ, IH. simpl.
  destruct (ByteRange.contains c n) eqn:E; simpl.
  - apply contains_spec in E. rewrite (Hbelow n _ _ Hsep) by lia. lia.
  - assert (¬ (start c ≤ n ∧ n < end_ c)) by (rewrite <- contains_spec, E; done).
    destruct (existsb _ rs); lia.
Qed.

Lemma count_separated rs lo n :
  separated lo rs → Forall (λ c, end_ c ≤ n) rs →
  count (λ x, existsb (λ d, ByteRange.contains d x) rs) n =
  foldr (λ c s, ByteRange.bytecount c + s) 0 rs.
Proof.
  revert lo. induction rs as [|c rs IH]; intros lo; simpl.
  { intros _ _. induction n as [|n IH] using N.peano_ind; [done|].
    by rewrite <- N.add_1_r, count_succ, IH. }
  intros (_ & Hc & Hs) [Hle Hles]%Forall_cons.
  change (count (λ x, existsb (λ d, ByteRange.contains d x) (c :: rs)) n = ByteRange.bytecount c +
            foldr (λ c s, ByteRange.bytecount c + s) 0 rs).
  rewrite count_contains by done. rewrite (IH _ Hs Hles).
  unfold ByteRange.bytecount, u64_saturating_sub. lia.
Qed.

Lemma count_le f n : count f n ≤ n.
Proof.
  induction n as [|n IH] using N.peano_ind; [done|].
  rewrite <- N.add_1_r, count_succ. destruct (f n); lia.
Qed.

Lemma fold_bytecount rs acc :
  acc + foldr (λ c s, ByteRange.bytecount c + s) 0 rs < u64_modulus →
  foldl (λ sum c, u64_add sum (ByteRange.bytecount c)) acc rs =
  acc + foldr (λ c s, ByteRange.bytecount c + s) 0 rs.
Proof.
  revert acc. induction rs as [|c rs IH]; intros acc Hov; simpl in *; [lia|].
  rewrite u64_add_small by lia. rewrite IH; lia.
Qed.

Lemma iter_points_ends t :
  Forall (λ kv, kv.1 < u64_modulus) t →
  Forall (λ c, end_ c ≤ u64_max) (ByteRanges.iter_points t).
Proof.
  induction t as [t IH] using (induction_ltof1 _ length); unfold ltof in IH.
  destruct t as [|[s []] [|[e []] t]]; simpl in *; try by constructor.
  intros [_ [He Ht]%Forall_cons]%Forall_cons.
  constructor; [simpl in *; unfold u64_modulus, u64_max in *; lia|]. apply IH; [lia|done].
Qed.

Lemma count_ext f g n : (∀ x, f x = g x) → count f n = count g n.
Proof.
  intros H. induction n as [|n IH] using N.peano_ind; [done|].
  by rewrite <- N.add_1_r, !count_succ, IH, H.
Qed.

(** The offsets of a well-formed set, read off the points around them. *)
Lemma mem_before r x s :
  wf r → run false (BTree.range_le x (points r)) = Some s → mem r x = s.
Proof.
  intros [Hs Hr] H. unfold mem. rewrite range_le_lt in H.
  rewrite (delta_split _ (x + 1) x Hs), (delta_above (BTree.range_ge _ _)) by by_keys range_ge_above.
  rewrite (delta_below (BTree.range_lt (x + 1) (points r))) by by_keys range_lt_below.
  apply run_net in H. simpl in H.
  replace (net (BTree.range_lt (x + 1) (points r))) with (b2z s) by lia. by destruct s.
Qed.

Lemma run_range_le r x : wf r → run false (BTree.range_le x (points r)) = Some (mem r x).
Proof.
  intros [Hs Hr]. destruct (wf_split _ (x + 1) _ Hs Hr) as (s & H & _).
  rewrite <- range_le_lt in H. by rewrite (mem_before r x s).
Qed.

Lemma mem_last r x :
  wf r → is_start (last (BTree.range_le x (points r))) = mem r x.
Proof. intros H. eapply run_is_start. by apply run_range_le. Qed.

Lemma filter_sorted (P : N * Point → Prop) `{∀ x, Decision (P x)} t :
  StronglySorted key_lt t → StronglySorted key_lt (filter P t).
Proof. intros. eapply sublist_sorted; [apply sublist_filter|done]. Qed.

(** The last point of a prefix is its greatest. *)
Lemma last_greatest t kv kv' :
  StronglySorted key_lt t → last t = Some kv → kv' ∈ t → kv'.1 ≤ kv.1.
Proof.
  intros Hs Hl Hin. apply last_Some in Hl as [l ->].
  apply elem_of_app in Hin as [Hin|Hin%list_elem_of_singleton]; [|by subst].
  apply StronglySorted_app in Hs as (Hs & _). specialize (Hs kv' kv Hin).
  unfold key_lt in Hs. set_solver by lia.
Qed.

Lemma head_least t kv kv' :
  StronglySorted key_lt t → head t = Some kv → kv' ∈ t → kv.1 ≤ kv'.1.
Proof.
  destruct t as [|kv0 t]; [done|]. intros [Hs Hk]%StronglySorted_inv ? Hin. simplify_eq/=.
  apply elem_of_cons in Hin as [->|Hin]; [done|]. rewrite Forall_forall in Hk.
  apply Hk in Hin. unfold key_lt in Hin. lia.
Qed.

Lemma range_lt_incl s x t :
  s ≤ x → BTree.range_lt s (BTree.range_le x t) = BTree.range_lt s t.
Proof.
  intros H. unfold BTree.range_lt, BTree.range_le. rewrite list_filter_filter.
  apply list_filter_iff. intros [k p]; simpl. lia.
Qed.

(** A point of the set starts or ends a range: its offset is in the set exactly
    when it is a start. *)
Lemma mem_point r k p : wf r → (k, p) ∈ points r → mem r k = bool_decide (p = Start).
Proof.
  intros Hwf Hin. pose proof (run_range_le r k Hwf) as Hrun.
  apply run_last in Hrun. rewrite Hrun.
  destruct (last (BTree.range_le k (points r))) as [[k' p']|] eqn:E.
  - assert (k' = k ∧ p' = p) as [-> ->]; [|done].
    assert ((k, p) ∈ BTree.range_le k (points r)) as Hin'
      by (apply list_elem_of_filter; simpl; auto with lia).
    pose proof (last_greatest _ _ _ (filter_sorted _ _ (proj1 Hwf)) E Hin') as Hge.
    apply last_filter_Some in E as [Hle Hin2]. simpl in *.
    assert (k' = k) as -> by lia. split; [done|].
    destruct Hwf as [Hs _]. clear -Hs Hin Hin2.
    induction Hs as [|[k2 p2] t Hs IH Hk]; [set_solver|].
    rewrite Forall_forall in Hk. unfold key_lt in Hk.
    apply elem_of_cons in Hin as [?|Hin]; apply elem_of_cons in Hin2 as [?|Hin2];
      simplify_eq/=; auto.
    + apply Hk in Hin2. simpl in Hin2. lia.
    + apply Hk in Hin. simpl in Hin. lia.
  - apply last_None in E. exfalso. eapply (not_elem_of_nil (A := N * Point)).
    rewrite <- E. apply list_elem_of_filter. split; [|exact Hin]. simpl. lia.
Qed.

Lemma overlaps_spec r range :
  wf r → start range ≤ end_ range →
  ByteRanges.overlaps r range = Some true ↔
    (∃ x, mem r x = true ∧ ByteRange.contains range x = true) ∨
    (0 < start range ∧ mem r (start range - 1) = true).
Proof.
  intros Hwf Hle. destruct range as [s e]; simpl in *.
  unfold ByteRanges.overlaps; simpl. rewrite (proj2 (N.ltb_ge e s)) by done.
  assert (0 < s → is_start (last (BTree.range_lt s (points r))) = mem r (s - 1)) as Hlast.
  { intros Hs. rewrite <- mem_last by done. rewrite range_le_lt. by replace (s - 1 + 1) with s by lia. }
  assert (¬ 0 < s → BTree.range_lt s (points r) = []) as Hnil.
  { intros Hs. apply filter_none, Forall_forall. intros; lia. }
  split.
  - intros [= H]. apply orb_true_iff in H as [H|H].
    + apply existsb_exists in H as ([k p] & Hin%list_elem_of_In & Hp%bool_decide_eq_true).
      simpl in Hp; subst. apply list_elem_of_filter in Hin as [Hk Hin].
      left. exists k. rewrite (mem_point r k Start) by done. split; [done|].
      by apply contains_spec.
    + right. destruct (N.lt_decidable 0 s) as [Hs|Hs]; [|by rewrite Hnil in H].
      by rewrite Hlast in H.
  - intros H. f_equal. apply orb_true_iff. destruct H as [(x & Hx & Hc%contains_spec)|[Hs Hm]];
      [|right; by rewrite Hlast].
    simpl in Hc. rewrite <- mem_last in Hx by done.
    destruct (last (BTree.range_le x (points r))) as [[k []]|] eqn:E; try done.
    pose proof (last_filter_Some _ _ _ E) as [Hkx Hin]. simpl in Hkx.
    destruct (N.le_gt_cases s k) as [Hsk|Hks].
    + left. apply existsb_exists. exists (k, Start). split; [|done].
      apply list_elem_of_In, list_elem_of_filter. simpl. split; [lia|done].
    + right. replace (BTree.range_lt s (points r)) with (BTree.range_le x (points r)); [by rewrite E|].
      apply filter_ext_in. intros kv Hkv; simpl. split; [|lia]. intros Hkvx.
      pose proof (last_greatest _ _ kv (filter_sorted _ _ (proj1 Hwf)) E) as Hg.
      rewrite list_elem_of_filter in Hg. simpl in Hg. specialize (Hg (conj Hkvx Hkv)). lia.
Qed.

Lemma containing_points t o :
  StronglySorted key_lt t → run false t = Some false → o + 1 < u64_modulus →
  ByteRanges.containing_range {| points := t |} o =
  List.find (λ c, ByteRange.contains c o) (ByteRanges.iter_points t).
Proof.
  intros Hs Hr Ho. unfold ByteRanges.containing_range; simpl. rewrite u64_add_small by done.
  induction t as [t IH] using (induction_ltof1 _ length); unfold ltof in IH.
  destruct t as [|[s []] [|[e []] t]]; simpl in *; try done.
  apply StronglySorted_inv in Hs as [Hs Hk1]. apply StronglySorted_inv in Hs as [Hs Hk2].
  apply Forall_cons in Hk1 as [Hse _]. unfold key_lt in *; simpl in *.
  unfold ByteRange.contains, BTree.range_le, BTree.range_ge in *; simpl.
  specialize (IH t ltac:(lia) Hs Hr).
  destruct (N.leb_spec s o) as [Hso|Hso]; [destruct (N.ltb_spec o e) as [Hoe|Hoe]|]; simpl.
  - rewrite filter_cons_True, filter_cons_False by (simpl; lia).
    rewrite (filter_none _ t) by (eapply Forall_impl; [exact Hk2|]; simpl; lia). simpl.
    rewrite filter_cons_False, filter_cons_True by (simpl; lia). done.
  - rewrite !filter_cons_True by (simpl; lia). rewrite !filter_cons_False by (simpl; lia).
    rewrite <- IH. destruct (filter (λ kv, kv.1 ≤ o) t) as [|kv k] eqn:E; [done|].
    by rewrite !last_cons_cons.
  - rewrite filter_none.
    + rewrite filter_none in IH; [exact IH|]. eapply Forall_impl; [exact Hk2|]. simpl; lia.
    + repeat (constructor; [simpl; lia|]). eapply Forall_impl; [exact Hk2|]. simpl; lia.
Qed.

Lemma extend_spec a b :
  wf a → wf b → wf (ByteRanges.extend a b) ∧ ∀ x, mem (ByteRanges.extend a b) x = mem a x || mem b x.
Proof.
  intros Ha Hb. unfold ByteRanges.extend. destruct (ByteRanges.is_empty a) eqn:E.
  - split; [done|]. intros x. by rewrite (wf_empty_mem a x).
  - destruct (fold_add_spec (ByteRanges.iter b) a Ha) as [Hw Hm]. split; [done|]. intros x.
    destruct (iter_spec b Hb) as [_ Hi]. by rewrite Hm, Hi.
Qed.

(** The chunks of a set are pieces of it that hold all of its offsets. *)
Lemma chunked_pieces rs size : 0 < size →
  Forall (λ r, end_ r + size ≤ u64_modulus) rs →
  ∃ l, mapM (λ c, chunked c size) rs = Some l ∧
    (∀ c, c ∈ mjoin l → start c < end_ c ∧ ByteRange.bytecount c ≤ size) ∧
    ∀ x, existsb (λ c, ByteRange.contains c x) (mjoin l) = existsb (λ c, ByteRange.contains c x) rs.
Proof.
  intros Hs. induction 1 as [|r rs Hr Hrs IH].
  { exists []. split; [done|]. split; [|done]. intros c Hc. by apply elem_of_nil in Hc. }
  destruct IH as (l & Hl & H1 & H2). destruct (chunked_run r size Hs Hr) as (cs & Hcs & Ht & Hb & _ & Hx).
  exists (cs :: l). simpl. rewrite Hcs. simpl. rewrite Hl. split; [done|]. split.
  - intros c [Hc|Hc]%elem_of_app; [|by apply H1]. rewrite Forall_forall in Hb. split; [|by apply Hb].
    clear -Hc Ht. revert Ht Hc. generalize (start r) as lo. induction cs as [|d cs IH]; intros lo Ht Hc.
    + by apply elem_of_nil in Hc.
    + simpl in Ht. destruct Ht as (_ & Hlt & _ & Ht). apply elem_of_cons in Hc as [->|Hc]; [done|by eapply IH].
  - intros x. rewrite existsb_app, Hx, H2. done.
Qed.

Lemma chunked_spec r size :
  wf r → 0 < size → (∀ x, mem r x = true → x + 1 + size ≤ u64_modulus) →
  ∃ l, ByteRanges.chunked r size = Some l ∧ (∀ c, c ∈ l → start c < end_ c ∧ ByteRange.bytecount c ≤ size) ∧
    ∀ x, existsb (λ c, ByteRange.contains c x) l = mem r x.
Proof.
  intros Hw Hs Hr. destruct (iter_spec r Hw) as [Hsep Hm].
  destruct (chunked_pieces (ByteRanges.iter r) size Hs) as (l & H1 & H2 & H3).
  { rewrite Forall_forall. intros c Hc.
    assert (start c < end_ c) as Hlt.
    { clear -Hc Hsep. revert Hsep Hc. generalize 0 as lo. generalize (ByteRanges.iter r) as rs.
      induction rs as [|d rs IH]; intros lo Ht Hc; [by apply elem_of_nil in Hc|].
      destruct Ht as (_ & Hlt & Ht). apply elem_of_cons in Hc as [->|Hc]; [done|by eapply IH]. }
    specialize (Hr (end_ c - 1)). replace (end_ c) with (end_ c - 1 + 1) by lia. apply Hr. rewrite Hm.
    apply existsb_exists. exists c. split; [by apply list_elem_of_In|]. apply contains_spec. lia. }
  exists (mjoin l). unfold ByteRanges.chunked. rewrite H1. split; [done|]. split; [done|]. intros x. by rewrite H3, Hm.
Qed.

(** ** Properties *)

(** C33: on well-formed sets, [union], [intersection], [subtraction], [extend] and
    [add] return well-formed sets holding exactly the offsets of the union, the
    intersection and the difference. *)
Theorem set_operations (a b : ByteRanges) (range : ByteRange) (Ha : wf a) (Hb : wf b) :
  (wf (ByteRanges.union a b) ∧ wf (ByteRanges.intersection a b) ∧ wf (ByteRanges.subtraction a b) ∧
   wf (ByteRanges.extend a b) ∧ wf (ByteRanges.add a range)) ∧
  ∀ x, mem (ByteRanges.union a b) x = mem a x || mem b x ∧
       mem (ByteRanges.intersection a b) x = mem a x && mem b x ∧
       mem (ByteRanges.subtraction a b) x = mem a x && negb (mem b x) ∧
       mem (ByteRanges.extend a b) x = mem a x || mem b x ∧
       mem (ByteRanges.add a range) x = mem a x || ByteRange.contains range x.
Proof.
  destruct (union_spec a b Ha Hb), (intersection_spec a b Ha Hb), (subtraction_spec a b Ha Hb),
    (extend_spec a b Ha Hb), (add_spec a range Ha). auto 10.
Qed.

Example set_operations_witness :
  let a := ByteRanges.from_ranges [ByteRange.new 0 10; ByteRange.new 20 30] in
  let b := ByteRanges.from_ranges [ByteRange.new 5 22] in
  ByteRanges.iter (ByteRanges.subtraction a b) = [ByteRange.new 0 5; ByteRange.new 22 30] ∧
  wf (ByteRanges.subtraction a b) ∧
  ∀ x, mem (ByteRanges.add a (ByteRange.new 7 9)) x = mem a x || ByteRange.contains (ByteRange.new 7 9) x.
Proof.
  split; [reflexivity|].
  destruct (set_operations (ByteRanges.from_ranges [ByteRange.new 0 10; ByteRange.new 20 30])
    (ByteRanges.from_ranges [ByteRange.new 5 22]) (ByteRange.new 7 9)) as [(_ & _ & H & _) Hx];
    [split; [repeat constructor|reflexivity]..|].
  split; [exact H|]. intros x. apply Hx.
Defined.

(** C38: a set built from any list of ranges is canonical and holds exactly their
    offsets; [as_vec] lists it as ranges in order that are not empty and leave a gap
    between them, which hold the same offsets and build the same set; the order of the
    ranges it was built from, their repetitions and their overlaps do not show. *)
Theorem from_ranges_canonical (rs rs' : list ByteRange)
  (Hsame : ∀ x, existsb (λ c, ByteRange.contains c x) rs =
                existsb (λ c, ByteRange.contains c x) rs') :
  let r := ByteRanges.from_ranges rs in
  wf r ∧ (∀ x, mem r x = existsb (λ c, ByteRange.contains c x) rs) ∧
  separated 0 (ByteRanges.as_vec r) ∧
  (∀ x, existsb (λ c, ByteRange.contains c x) (ByteRanges.as_vec r) = existsb (λ c, ByteRange.contains c x) rs) ∧
  ByteRanges.from_ranges (ByteRanges.as_vec r) = r ∧
  ByteRanges.as_vec r = ByteRanges.as_vec (ByteRanges.from_ranges rs') ∧
  r = ByteRanges.from_ranges rs'.
Proof.
  intros r. destruct (fold_add_spec rs _ wf_new) as [Hw Hm].
  destruct (fold_add_spec rs' _ wf_new) as [Hw' Hm'].
  destruct (iter_spec r Hw) as [Hsep Hmem].
  destruct (fold_add_spec (ByteRanges.iter r) _ wf_new) as [Hwi Hmi].
  assert (r = ByteRanges.from_ranges rs') as E.
  { apply wf_unique; [done|done|]. intros x. by rewrite Hm, Hm', Hsame. }
  split_and!; [done|done|exact Hsep| | |by rewrite <- E|done].
  - intros x. unfold ByteRanges.as_vec. rewrite <- Hmem. apply Hm.
  - apply wf_unique; [done|done|]. intros x. by rewrite Hmi, Hmem.
Qed.

Example from_ranges_canonical_witness :
  let r := ByteRanges.from_ranges [ByteRange.new 0 5; ByteRange.new 5 10; ByteRange.new 12 15; ByteRange.new 8 13] in
  ByteRanges.as_vec r = [ByteRange.new 0 15] ∧ separated 0 (ByteRanges.as_vec r) ∧
  r = ByteRanges.from_ranges [ByteRange.new 0 15].
Proof.
  destruct (from_ranges_canonical
    [ByteRange.new 0 5; ByteRange.new 5 10; ByteRange.new 12 15; ByteRange.new 8 13] [ByteRange.new 0 15])
    as (_ & _ & H & _ & _ & _ & E).
  - intros x. unfold ByteRange.contains; simpl. cmp_cases; simpl; (done || lia).
  - split; [reflexivity|]. split; [exact H|exact E].
Defined.

(** Reading a well-formed set back gives its maximal ranges, in order and
    separated by gaps; they hold the same offsets, rebuilding the set from them
    gives the set back, and [bytecount] counts its offsets. *)
Theorem iter_roundtrip (r : ByteRanges) (Hwf : wf r)
  (Hu64 : Forall (λ kv, kv.1 < u64_modulus) (points r)) :
  separated 0 (ByteRanges.iter r) ∧
  (∀ x, mem r x = existsb (λ c, ByteRange.contains c x) (ByteRanges.iter r)) ∧
  ByteRanges.from_ranges (ByteRanges.iter r) = r ∧
  ByteRanges.bytecount r = count (mem r) u64_max.
Proof.
  destruct (iter_spec r Hwf) as [Hsep Hmem].
  destruct (fold_add_spec (ByteRanges.iter r) _ wf_new) as [Hw Hm].
  split_and!; [done|done| |].
  - apply wf_unique; [done|done|]. intros x. by rewrite Hm, Hmem.
  - rewrite (count_ext _ _ _ Hmem). unfold ByteRanges.bytecount.
    pose proof (count_separated _ _ _ Hsep (iter_points_ends _ Hu64)) as Hc.
    rewrite fold_bytecount; [by rewrite <- Hc|]. rewrite <- Hc.
    eapply N.le_lt_trans; [apply count_le|by vm_compute].
Qed.

Example iter_roundtrip_witness :
  let r := ByteRanges.from_ranges [ByteRange.new 2 4; ByteRange.new 8 11] in
  ByteRanges.bytecount r = 5 ∧
  separated 0 (ByteRanges.iter r) ∧
  (∀ x, mem r x = existsb (λ c, ByteRange.contains c x) (ByteRanges.iter r)) ∧
  ByteRanges.from_ranges (ByteRanges.iter r) = r ∧
  ByteRanges.bytecount r = count (mem r) u64_max.
Proof.
  split; [reflexivity|]. apply iter_roundtrip.
  - split; [repeat constructor|reflexivity].
  - repeat constructor.
Defined.

(** [containing_range] finds the range of the iteration that holds the
    offset, and [overlaps] answers more than it should: it is also true of a
    range whose start directly follows an offset of the set, although they
    share none. *)
Theorem queries_spec (r : ByteRanges) (Hwf : wf r) :
  (∀ o, o + 1 < u64_modulus →
        ByteRanges.containing_range r o =
        List.find (λ c, ByteRange.contains c o) (ByteRanges.iter r)) ∧
  (∀ range, start range ≤ end_ range →
        ByteRanges.overlaps r range = Some true ↔
          (∃ x, mem r x = true ∧ ByteRange.contains range x = true) ∨
          (0 < start range ∧ mem r (start range - 1) = true)).
Proof.
  split.
  - intros o Ho. destruct r as [t]. by apply containing_points; [apply Hwf|apply Hwf|].
  - intros range Hle. by apply overlaps_spec.
Qed.

Example queries_spec_witness :
  let r := ByteRanges.single 0 10 in
  ByteRanges.overlaps r (ByteRange.new 10 15) = Some true ∧
  (∀ o, o + 1 < u64_modulus →
        ByteRanges.containing_range r o =
        List.find (λ c, ByteRange.contains c o) (ByteRanges.iter r)) ∧
  (∀ range, start range ≤ end_ range →
        ByteRanges.overlaps r range = Some true ↔
          (∃ x, mem r x = true ∧ ByteRange.contains range x = true) ∨
          (0 < start range ∧ mem r (start range - 1) = true)).
Proof. split; [reflexivity|]. apply queries_spec. apply single_spec. Defined.
