(* ===== verification/Redb.v ===== *)
(** * The embedded database

    The program keeps its state in tables of the [redb] crate, which is not part
    of the repository.  A table is therefore an abstract type, with the
    operations the program calls ([Redb]) and the documented behaviour of an
    ordered key-value table it relies on ([RedbLaws]): what is read is what was
    last written, and ranges are read in key order.  Every component is a
    section over these two classes.

    [gmap_redb] instantiates them with stdpp's finite maps; the witnesses of the
    properties evaluate the components on it. *)
From S2P Require Import Prelude.

(** ** Ordered keys *)

Class KeyOrder (K : Type) : Type := {
  key_eq_dec :: EqDecision K;
  key_countable :: Countable K;
  key_le : relation K;
  key_le_dec :: RelDecision key_le;
  key_le_po :: PartialOrder key_le;
  key_le_total :: Total key_le;
}.

Definition key_lt {K} `{KeyOrder K} : relation K := strict key_le.

#[global] Instance key_lt_dec {K} `{KeyOrder K} : RelDecision key_lt.
Proof. unfold key_lt, strict. intros x y. apply _. Defined.

(** [u64], [Inode], [BlobId] and [JobId] keys: numeric order. *)
#[global] Program Instance N_key : KeyOrder N := {| key_le := N.le |}.

(** [&str] keys: bytewise lexicographic order. *)
#[global] Program Instance string_key : KeyOrder string := {| key_le := String.le |}.

Definition unit_le : relation () := λ _ _, True.

#[global] Program Instance unit_key : KeyOrder () := {| key_le := unit_le |}.
Next Obligation. intros ??. left. exact I. Defined.
Next Obligation. repeat split; try done. intros [] []; done. Qed.
Next Obligation. intros ??. by left. Qed.

(** Tuple keys: lexicographic order. *)
Definition prod_le {A B} `{KeyOrder A, KeyOrder B} : relation (A * B) :=
  λ p q, (p.1 ≠ q.1 ∧ key_le p.1 q.1) ∨ (p.1 = q.1 ∧ key_le p.2 q.2).

#[global] Program Instance prod_key {A B} `{KeyOrder A, KeyOrder B} : KeyOrder (A * B) :=
  {| key_le := prod_le |}.
Next Obligation. intros A HA B HB p q. unfold prod_le. apply _. Defined.
Next Obligation.
  intros A HA B HB. unfold prod_le. repeat split.
  - intros [a b]; right; simpl; split; [done|reflexivity].
  - intros [a1 b1] [a2 b2] [a3 b3]; simpl. intros [[H1 H2]|[-> H2]] [[H3 H4]|[-> H4]]; auto.
    + left. split; [|by etrans]. intros ->. apply H1. by apply (anti_symm key_le).
    + right. split; [done|by etrans].
  - intros [a1 b1] [a2 b2]; simpl. intros [[H1 H2]|[-> H2]] [[H3 H4]|[H3 H4]];
      simplify_eq; try done.
    + by destruct H1; apply (anti_symm key_le).
    + f_equal. by apply (anti_symm key_le).
Qed.
Next Obligation.
  intros A HA B HB [a1 b1] [a2 b2]. unfold prod_le; simpl.
  destruct (decide (a1 = a2)) as [->|Hne].
  - destruct (total key_le b1 b2); auto.
  - destruct (total key_le a1 a2); auto.
Qed.

Section key_order.
Context {K : Type} `{KeyOrder K}.

#[export] Instance key_lt_trans : Transitive key_lt.
Proof. unfold key_lt. apply _. Qed.

Lemma key_lt_irrefl (k : K) : ¬ key_lt k k.
Proof. unfold key_lt. intros [H1 H2]. by apply H2. Qed.

Lemma key_lt_le (a b : K) : key_lt a b ↔ key_le a b ∧ a ≠ b.
Proof.
  unfold key_lt, strict. split; intros [H1 H2]; split; auto.
  - intros ->. by apply H2.
  - intros H3. apply H2. by apply (anti_symm key_le).
Qed.
End key_order.

(** ** Ranges of keys *)

(** [std::ops::Bound] *)
Inductive bound (K : Type) : Type :=
| Unbounded
| Included (k : K)
| Excluded (k : K).
Arguments Unbounded {K}.
Arguments Included {K} k.
Arguments Excluded {K} k.

Definition above {K} `{KeyOrder K} (lo : bound K) (k : K) : Prop :=
  match lo with
  | Unbounded => True
  | Included l => key_le l k
  | Excluded l => key_lt l k
  end.
Definition below {K} `{KeyOrder K} (hi : bound K) (k : K) : Prop :=
  match hi with
  | Unbounded => True
  | Included h => key_le k h
  | Excluded h => key_lt k h
  end.
Definition in_range {K} `{KeyOrder K} (lo hi : bound K) (k : K) : Prop :=
  above lo k ∧ below hi k.

#[global] Instance above_dec {K} `{KeyOrder K} lo (k : K) : Decision (above lo k).
Proof. destruct lo; simpl; apply _. Defined.
#[global] Instance below_dec {K} `{KeyOrder K} hi (k : K) : Decision (below hi k).
Proof. destruct hi; simpl; apply _. Defined.
#[global] Instance in_range_dec {K} `{KeyOrder K} lo hi (k : K) : Decision (in_range lo hi k).
Proof. unfold in_range. apply _. Defined.

Lemma empty_le (k : string) : key_le "" k.
Proof. simpl. unfold String.le, String.leb. by destruct k. Qed.

(** The keys from [(i, "")] to [(i + 1, "")], excluded, are those of [i]. *)
Lemma in_range_fst (i j : N) (k : string) :
  in_range (Included (i, "")) (Excluded ((i + 1)%N, "")) (j, k) ↔ j = i.
Proof.
  unfold in_range, above, below, key_lt, strict. pose proof (empty_le k) as Hk.
  simpl. unfold prod_le. simpl. split.
  - intros [[[_ H1]|[-> _]] [[[H2 H3]|[-> _]] H4]]; [lia| |lia|lia].
    exfalso. apply H4. by right.
  - intros ->. split; [by right|]. split; [left; lia|]. intros [[_ H]|[H _]]; lia.
Qed.

(** The keys from [(p, lo)] to [(p, hi)] are those of [p] with numbers in between. *)
Lemma in_range_snd (p q : string) (lo hi i : N) :
  in_range (Included (p, lo)) (Included (p, hi)) (q, i) ↔ q = p ∧ (lo ≤ i)%N ∧ (i ≤ hi)%N.
Proof.
  unfold in_range, above, below. simpl. unfold prod_le. simpl. split.
  - intros [[[H1 H2]|[-> H2]] [[H3 H4]|[H5 H4]]]; [|by destruct H1|done|done].
    destruct H3. by apply (anti_symm key_le).
  - intros (-> & H1 & H2). split; by right.
Qed.

(** ** Tables *)

Class Redb : Type := {
  table : ∀ (K : Type) `{KeyOrder K} (V : Type), Type;
  tbl_empty : ∀ {K} `{KeyOrder K} {V}, table K V;
  tbl_get : ∀ {K} `{KeyOrder K} {V}, K → table K V → option V;
  tbl_insert : ∀ {K} `{KeyOrder K} {V}, K → V → table K V → table K V;
  tbl_remove : ∀ {K} `{KeyOrder K} {V}, K → table K V → table K V;
  (** [range(lo, hi)]; [iter()] is [range(..)] *)
  tbl_range : ∀ {K} `{KeyOrder K} {V}, bound K → bound K → table K V → list (K * V);
  tbl_last : ∀ {K} `{KeyOrder K} {V}, table K V → option (K * V);
  tbl_pop_first : ∀ {K} `{KeyOrder K} {V}, table K V → option (K * V) * table K V;
  (** [retain_in(range, f)]: drops the entries of the range that fail [f] *)
  tbl_retain_in : ∀ {K} `{KeyOrder K} {V},
    bound K → bound K → (K → V → bool) → table K V → table K V;
  (** [extract_from_if(range, f)], its iterator read to the end *)
  tbl_extract_from_if : ∀ {K} `{KeyOrder K} {V},
    bound K → bound K → (K → V → bool) → table K V → list (K * V) * table K V;
}.

Definition tbl_iter {R : Redb} {K} `{KeyOrder K} {V} (t : table K V) : list (K * V) :=
  tbl_range Unbounded Unbounded t.

Class RedbLaws (R : Redb) : Prop := {
  get_empty : ∀ {K} `{KeyOrder K} {V} (k : K), tbl_get k (tbl_empty : table K V) = None;
  get_insert : ∀ {K} `{KeyOrder K} {V} (k k' : K) (v : V) (t : table K V),
    tbl_get k (tbl_insert k' v t) = if decide (k = k') then Some v else tbl_get k t;
  get_remove : ∀ {K} `{KeyOrder K} {V} (k k' : K) (t : table K V),
    tbl_get k (tbl_remove k' t) = if decide (k = k') then None else tbl_get k t;
  elem_of_range : ∀ {K} `{KeyOrder K} {V} lo hi (t : table K V) (k : K) (v : V),
    (k, v) ∈ tbl_range lo hi t ↔ tbl_get k t = Some v ∧ in_range lo hi k;
  range_sorted : ∀ {K} `{KeyOrder K} {V} lo hi (t : table K V),
    StronglySorted key_lt (tbl_range lo hi t).*1;
  last_spec : ∀ {K} `{KeyOrder K} {V} (t : table K V), tbl_last t = last (tbl_iter t);
  pop_first_spec : ∀ {K} `{KeyOrder K} {V} (t : table K V),
    tbl_pop_first t = match head (tbl_iter t) with
                      | None => (None, t)
                      | Some (k, v) => (Some (k, v), tbl_remove k t)
                      end;
  get_retain_in : ∀ {K} `{KeyOrder K} {V} lo hi f (t : table K V) (k : K),
    tbl_get k (tbl_retain_in lo hi f t) =
      v ← tbl_get k t; if bool_decide (in_range lo hi k) && negb (f k v) then None else Some v;
  extract_from_if_spec : ∀ {K} `{KeyOrder K} {V} lo hi f (t : table K V),
    (tbl_extract_from_if lo hi f t).1 = filter (λ kv, f kv.1 kv.2 = true) (tbl_range lo hi t) ∧
    ∀ k, tbl_get k (tbl_extract_from_if lo hi f t).2 =
         v ← tbl_get k t; if bool_decide (in_range lo hi k) && f k v then None else Some v;
}.

#[export] Hint Rewrite @get_empty @get_insert @get_remove @get_retain_in
  using (typeclasses eauto) : redb.

(** Evaluate lookups and split on key equality. *)
Ltac redb_simpl := autorewrite with redb in *.
Ltac redb_solve :=
  repeat (redb_simpl; repeat case_decide; simplify_eq/=); try done.

(** Look up in updated tables, by cases on key equality. *)
Ltac key_cases :=
  rewrite ?get_remove, ?get_insert; repeat case_decide; subst;
  try done; try lia; try congruence.

Section table_lemmas.
Context {R : Redb} `{!RedbLaws R} {K : Type} `{KeyOrder K} {V : Type}.
Implicit Types t : table K V.

Lemma elem_of_iter t k v : (k, v) ∈ tbl_iter t ↔ tbl_get k t = Some v.
Proof. unfold tbl_iter. rewrite elem_of_range. unfold in_range. simpl. tauto. Qed.

Lemma get_insert_eq k v t : tbl_get k (tbl_insert k v t) = Some v.
Proof. rewrite get_insert. by rewrite decide_True. Qed.
Lemma get_insert_ne k k' v t : k ≠ k' → tbl_get k (tbl_insert k' v t) = tbl_get k t.
Proof. intros. rewrite get_insert. by rewrite decide_False. Qed.
Lemma get_remove_eq k t : tbl_get k (tbl_remove k t) = None.
Proof. rewrite get_remove. by rewrite decide_True. Qed.
Lemma get_remove_ne k k' t : k ≠ k' → tbl_get k (tbl_remove k' t) = tbl_get k t.
Proof. intros. rewrite get_remove. by rewrite decide_False. Qed.

Lemma sorted_keys_NoDup (l : list K) : StronglySorted key_lt l → NoDup l.
Proof.
  induction 1 as [|k l Hl IH Hk]; constructor; [|done].
  intros Hin. rewrite Forall_forall in Hk. by apply Hk, key_lt_irrefl in Hin.
Qed.

Lemma range_NoDup lo hi t : NoDup (tbl_range lo hi t).*1.
Proof. apply sorted_keys_NoDup, range_sorted. Qed.

(** [last()] is the entry with the greatest key. *)
Lemma tbl_last_greatest t k v :
  tbl_last t = Some (k, v) →
  tbl_get k t = Some v ∧ ∀ k', is_Some (tbl_get k' t) → key_le k' k.
Proof.
  rewrite last_spec. intros Hl. pose proof (range_sorted Unbounded Unbounded t) as Hs.
  change (tbl_range Unbounded Unbounded t) with (tbl_iter t) in Hs.
  apply last_Some in Hl as [l Hl]. split.
  - apply elem_of_iter. rewrite Hl. set_solver.
  - intros k' [v' Hv']. apply elem_of_iter in Hv'. rewrite Hl in Hv', Hs.
    rewrite fmap_app in Hs. apply StronglySorted_app in Hs as [Hs _].
    apply elem_of_app in Hv' as [Hv'|Hv'%list_elem_of_singleton]; [|by simplify_eq].
    assert (key_lt k' k) as Hlt; [|by apply key_lt_le in Hlt as [? _]].
    apply Hs; [|by left]. apply list_elem_of_fmap. by exists (k', v').
Qed.

Lemma tbl_last_None t : tbl_last t = None → ∀ k, tbl_get k t = None.
Proof.
  rewrite last_spec, last_None. intros Hn k. destruct (tbl_get k t) as [v|] eqn:E; [|done].
  apply elem_of_iter in E. rewrite Hn in E. by apply not_elem_of_nil in E.
Qed.

(** Sorted association lists with the same entries are equal. *)
Lemma sorted_entries_eq (l k : list (K * V)) :
  StronglySorted key_lt l.*1 → StronglySorted key_lt k.*1 →
  (∀ x v, (x, v) ∈ l ↔ (x, v) ∈ k) → l = k.
Proof.
  revert k. induction l as [|[x v] l IH]; intros [|[y u] k] Hl Hk Heq; [done|..].
  - exfalso. apply (not_elem_of_nil (y, u)). apply Heq. by left.
  - exfalso. apply (not_elem_of_nil (x, v)). apply Heq. by left.
  - simpl in *. apply StronglySorted_inv in Hl as [Hl Hx], Hk as [Hk Hy].
    rewrite Forall_forall in Hx, Hy.
    assert (∀ z w (m : list (K * V)), (z, w) ∈ m → z ∈ m.*1) as Hkey
      by (intros z w m Hm; apply list_elem_of_fmap; by exists (z, w)).
    assert ((x, v) = (y, u)) as E; [|injection E as <- <-].
    { destruct (proj1 (elem_of_cons _ _ _) (proj1 (Heq x v) ltac:(by left))) as [->|H1]; [done|].
      destruct (proj1 (elem_of_cons _ _ _) (proj2 (Heq y u) ltac:(by left))) as [->|H2]; [done|].
      apply Hkey in H1, H2. apply Hy in H1. apply Hx in H2.
      exfalso. apply (key_lt_irrefl x). by eapply key_lt_trans. }
    f_equal. apply IH; [done|done|]. intros z w. split; intros Hz.
    + destruct (proj1 (elem_of_cons _ _ _) (proj1 (Heq z w) ltac:(by right))) as [E|?]; [|done]. injection E as -> ->.
      apply Hkey, Hx in Hz. by apply key_lt_irrefl in Hz.
    + destruct (proj1 (elem_of_cons _ _ _) (proj2 (Heq z w) ltac:(by right))) as [E|?]; [|done]. injection E as -> ->.
      apply Hkey, Hy in Hz. by apply key_lt_irrefl in Hz.
Qed.

(** Inserting above every key appends to a scan. *)
Lemma range_insert_last lo hi k v t :
  in_range lo hi k → (∀ k', is_Some (tbl_get k' t) → key_lt k' k) →
  tbl_range lo hi (tbl_insert k v t) = tbl_range lo hi t ++ [(k, v)].
Proof.
  intros Hin Hlt. apply sorted_entries_eq; [apply range_sorted| |].
  - rewrite fmap_app. apply StronglySorted_app. split_and!; [|apply range_sorted|repeat constructor].
    intros x1 x2 Hx1 ->%list_elem_of_singleton. apply Hlt.
    apply list_elem_of_fmap in Hx1 as ([x v'] & -> & [Hx _]%elem_of_range). by eexists.
  - intros x u. rewrite elem_of_app, !elem_of_range, list_elem_of_singleton, get_insert.
    destruct (decide (x = k)) as [->|Hne].
    + split; [by intros [[= ->] _]; right|]. intros [[Hk _]|[= ->]]; [|done].
      exfalso. apply (key_lt_irrefl k), Hlt. by eexists.
    + split; [by left|]. by intros [?|[= -> ->]].
Qed.

Lemma iter_insert_last k v t :
  (∀ k', is_Some (tbl_get k' t) → key_lt k' k) →
  tbl_iter (tbl_insert k v t) = tbl_iter t ++ [(k, v)].
Proof. by apply range_insert_last. Qed.

Lemma sorted_fst_filter (P : K * V → Prop) `{∀ x, Decision (P x)} (l : list (K * V)) :
  StronglySorted key_lt l.*1 → StronglySorted key_lt (filter P l).*1.
Proof.
  induction l as [|[k v] l IH]; [done|]. simpl. intros [Hl Hk]%StronglySorted_inv.
  rewrite filter_cons. case_decide; [|auto]. simpl. constructor; [auto|].
  rewrite Forall_forall in Hk |- *. intros x Hx. apply Hk.
  apply list_elem_of_fmap in Hx as (y & -> & [_ Hy]%list_elem_of_filter).
  apply list_elem_of_fmap. by exists y.
Qed.

(** Scanning a range that holds all the keys of interest misses nothing. *)
Lemma filter_range (f : K → bool) lo hi t :
  (∀ k, f k = true → in_range lo hi k) →
  filter (λ kv, f kv.1 = true) (tbl_range lo hi t) =
  filter (λ kv, f kv.1 = true) (tbl_iter t).
Proof.
  intros Hf. apply sorted_entries_eq; [apply sorted_fst_filter, range_sorted..|].
  intros k v. rewrite !list_elem_of_filter, elem_of_range, elem_of_iter. simpl.
  split; [tauto|]. intros [Hk Hv]. auto.
Qed.

(** The entries of a table as a finite map. *)
Definition tbl_view t : gmap K V := list_to_map (tbl_iter t).

Lemma lookup_view t k : tbl_view t !! k = tbl_get k t.
Proof.
  unfold tbl_view. apply option_eq. intros v.
  rewrite <- elem_of_list_to_map by apply range_NoDup. apply elem_of_iter.
Qed.
End table_lemmas.

(** ** An instance *)

Lemma NoDup_fst_filter {A B} (P : A * B → Prop) `{∀ x, Decision (P x)} (l : list (A * B)) :
  NoDup l.*1 → NoDup (filter P l).*1.
Proof.
  induction l as [|p l IH]; simpl; [done|]. intros [Hp Hl]%NoDup_cons. rewrite filter_cons.
  case_decide; simpl; [constructor|]; auto.
  intros Hin. apply Hp. apply list_elem_of_fmap in Hin as (q & -> & Hq%list_elem_of_filter).
  apply list_elem_of_fmap. exists q. tauto.
Qed.

Section gmap_tables.
Context {K : Type} `{KeyOrder K} {V : Type}.
Implicit Types m : gmap K V.

Definition pair_le : relation (K * V) := λ p q, key_le p.1 q.1.
#[local] Instance pair_le_dec : RelDecision pair_le.
Proof. unfold pair_le. intros p q. apply _. Defined.

#[local] Instance pair_le_trans : Transitive pair_le.
Proof. intros [] [] []; unfold pair_le; simpl. by apply transitivity. Qed.
#[local] Instance pair_le_total : Total pair_le.
Proof. intros [a ?] [b ?]; unfold pair_le; simpl. apply total, _. Qed.

Definition gmap_range (lo hi : bound K) m : list (K * V) :=
  merge_sort pair_le (filter (λ kv, in_range lo hi kv.1) (map_to_list m)).

Definition gmap_retain_in (lo hi : bound K) (f : K → V → bool) m : gmap K V :=
  filter (λ kv, (in_range lo hi kv.1 ∧ f kv.1 kv.2 = true) ∨ ¬ in_range lo hi kv.1) m.

Definition gmap_extract (lo hi : bound K) (f : K → V → bool) m :=
  (filter (λ kv, f kv.1 kv.2 = true) (gmap_range lo hi m),
   gmap_retain_in lo hi (λ k v, negb (f k v)) m).

Definition gmap_pop_first m : option (K * V) * gmap K V :=
  match head (gmap_range Unbounded Unbounded m) with
  | None => (None, m)
  | Some (k, v) => (Some (k, v), delete k m)
  end.

Lemma gmap_elem_of_range lo hi m k v :
  (k, v) ∈ gmap_range lo hi m ↔ m !! k = Some v ∧ in_range lo hi k.
Proof.
  unfold gmap_range. rewrite merge_sort_Permutation, list_elem_of_filter, elem_of_map_to_list.
  simpl. tauto.
Qed.

Lemma gmap_range_sorted lo hi m : StronglySorted key_lt (gmap_range lo hi m).*1.
Proof.
  assert (NoDup (gmap_range lo hi m).*1) as Hnd.
  { unfold gmap_range. rewrite merge_sort_Permutation.
    apply NoDup_fst_filter, NoDup_fst_map_to_list. }
  assert (StronglySorted pair_le (gmap_range lo hi m)) as Hs.
  { apply (StronglySorted_merge_sort pair_le). }
  induction Hs as [|[k v] l Hs IH Hk]; simpl in *; [constructor|].
  apply NoDup_cons in Hnd as [Hnin Hnd]. constructor; [by apply IH|].
  apply Forall_forall. intros k' Hin. apply key_lt_le. split; [|by intros ->].
  apply list_elem_of_fmap in Hin as ([k2 v2] & -> & Hin).
  rewrite Forall_forall in Hk. by apply Hk in Hin.
Qed.

Lemma gmap_get_retain_in lo hi f m k :
  gmap_retain_in lo hi f m !! k =
  v ← m !! k; if bool_decide (in_range lo hi k) && negb (f k v) then None else Some v.
Proof.
  unfold gmap_retain_in. rewrite map_lookup_filter. destruct (m !! k) as [v|]; simpl; [|done].
  destruct (bool_decide_reflect (in_range lo hi k)) as [Hr|Hr]; simpl.
  - destruct (f k v) eqn:E; simpl; [rewrite option_guard_True|rewrite option_guard_False]; auto.
    intros [[? ?]|?]; [congruence|done].
  - rewrite option_guard_True; auto.
Qed.
End gmap_tables.

#[global] Instance gmap_redb : Redb := {|
  table := λ K _ V, gmap K V;
  tbl_empty := λ K _ V, ∅;
  tbl_get := λ K _ V k m, m !! k;
  tbl_insert := λ K _ V k v m, <[k := v]> m;
  tbl_remove := λ K _ V k m, delete k m;
  tbl_range := λ K _ V, gmap_range;
  tbl_last := λ K _ V m, last (gmap_range Unbounded Unbounded m);
  tbl_pop_first := λ K _ V, gmap_pop_first;
  tbl_retain_in := λ K _ V, gmap_retain_in;
  tbl_extract_from_if := λ K _ V, gmap_extract;
|}.

#[global] Instance gmap_redb_laws : RedbLaws gmap_redb.
Proof.
  split; simpl; intros.
  - apply lookup_empty.
  - rewrite lookup_insert. repeat case_decide; simplify_eq; done.
  - rewrite lookup_delete. repeat case_decide; simplify_eq; done.
  - apply gmap_elem_of_range.
  - apply gmap_range_sorted.
  - done.
  - done.
  - apply gmap_get_retain_in.
  - split; [done|]. intros k. rewrite gmap_get_retain_in.
    destruct (t !! k); simpl; [|done]. by rewrite negb_involutive.
Qed.
