(* ===== verification/Path.v ===== *)
(** * Arena paths

    [crate/realize-types/src/path.rs]: the relative, slash-separated paths of an
    arena, and the [PathPrefix] of [crate/realize-storage/src/arena/index.rs]
    that scans a table of path keys for one path and everything below it.

    A path is specified by the list of its components; [parse], [name],
    [parent] and [starts_with] are proved against that list, and [PathPrefix]
    against [starts_with] in the order of table keys. *)
From S2P Require Import Prelude Redb.

(** ** Strings

    A [str] is the string of its UTF-8 bytes; the separators are ASCII, so
    splitting bytes is splitting characters. *)
Module Str.
(** [s.split(c)] *)
Fixpoint split (c : ascii) (s : string) : list string :=
  match s with
  | EmptyString => [""]
  | String a s' =>
      if decide (a = c) then "" :: split c s'
      else match split c s' with
           | w :: ws => String a w :: ws
           | [] => [String a ""]
           end
  end.

(** [s.rsplit(c)] *)
Definition rsplit (c : ascii) (s : string) : list string := reverse (split c s).

(** [s.find(c).is_some()] *)
Fixpoint contains (c : ascii) (s : string) : bool :=
  match s with
  | EmptyString => false
  | String a s' => bool_decide (a = c) || contains c s'
  end.

(** [s.rfind(c)] *)
Fixpoint rfind (c : ascii) (s : string) : option nat :=
  match s with
  | EmptyString => None
  | String a s' =>
      match rfind c s' with
      | Some pos => Some (S pos)
      | None => if decide (a = c) then Some 0 else None
      end
  end.

(** [&s[0..pos]] and [&s[pos..]] *)
Fixpoint take (pos : nat) (s : string) : string :=
  match pos, s with
  | S pos, String a s' => String a (take pos s')
  | _, _ => ""
  end.
Fixpoint drop (pos : nat) (s : string) : string :=
  match pos, s with
  | S pos, String _ s' => drop pos s'
  | _, _ => s
  end.

(** [s.strip_prefix(p)] *)
Fixpoint strip_prefix (p s : string) : option string :=
  match p, s with
  | EmptyString, _ => Some s
  | String a p', String b s' => if decide (a = b) then strip_prefix p' s' else None
  | _, EmptyString => None
  end.

(** [s.starts_with(c)] *)
Definition starts_with (s : string) (c : ascii) : bool :=
  match s with String a _ => bool_decide (a = c) | EmptyString => false end.

Fixpoint join (c : ascii) (ws : list string) : string :=
  match ws with
  | [] => ""
  | [w] => w
  | w :: ws => w +:+ String c (join c ws)
  end.
End Str.

(** ** Data *)

Record Path : Type := mkPath { as_str : string }.

#[global] Instance Path_eq_dec : EqDecision Path.
Proof. solve_decision. Defined.
#[global] Program Instance Path_countable : Countable Path :=
  inj_countable' as_str mkPath _.
Next Obligation. by intros []. Qed.

Inductive PathError : Type := InvalidPath.

(** ** Operations *)
Module Path.
Definition bad_component (s : string) : bool :=
  bool_decide (s = "") || bool_decide (s = ".") || bool_decide (s = "..").

Definition parse (str : string) : result PathError Path :=
  if bool_decide (str = "") || Str.contains ":" str
     || existsb bad_component (Str.split "/" str)
  then Err InvalidPath
  else Ok (mkPath str).

Definition name (p : Path) : string := default (as_str p) (head (Str.rsplit "/" (as_str p))).

Definition ext (p : Path) : string :=
  let n := name p in
  match Str.rfind "." n with
  | Some pos => Str.drop pos n
  | None => ""
  end.

Definition parent (p : Path) : option Path :=
  (λ slash, mkPath (Str.take slash (as_str p))) <$> Str.rfind "/" (as_str p).

Definition components (path : option Path) : list string :=
  match path with
  | Some p => Str.split "/" (as_str p)
  | None => []
  end.

Definition starts_with (p other : Path) : bool :=
  match Str.strip_prefix (as_str other) (as_str p) with
  | Some rest => bool_decide (rest = "") || Str.starts_with rest "/"
  | None => false
  end.
End Path.

(** [struct PathPrefix] of the index. *)
Record PathPrefix : Type := { range_end : string }.

Module PathPrefix.
Definition new (prefix : Path) : PathPrefix := {| range_end := as_str prefix +:+ "0" |}.

Definition prefix (p : PathPrefix) : string :=
  Str.take (String.length (range_end p) - 1) (range_end p).

(** [prefix()..range_end] *)
Definition range (p : PathPrefix) : bound string * bound string :=
  (Included (prefix p), Excluded (range_end p)).

Definition accept (p : PathPrefix) (path : string) : bool :=
  default false ((λ rest, bool_decide (rest = "") || Str.starts_with rest "/")
                 <$> Str.strip_prefix (prefix p) path).
End PathPrefix.

(** ** Lemmas on strings *)

Lemma app_cons_str a s t : String a s +:+ t = String a (s +:+ t).
Proof. done. Qed.

Lemma app_nil_r_str s : s +:+ "" = s.
Proof. induction s as [|a s IH]; [done|]. by rewrite ?app_cons_str, IH. Qed.

Lemma app_assoc_str s t u : s +:+ (t +:+ u) = (s +:+ t) +:+ u.
Proof. induction s as [|a s IH]; [done|]. rewrite ?app_cons_str. by rewrite IH. Qed.

Lemma split_not_nil c s : Str.split c s ≠ [].
Proof. destruct s; simpl; [done|]. repeat case_match; done. Qed.

Lemma split_app c s t :
  Str.split c (s +:+ String c t) = Str.split c s ++ Str.split c t.
Proof.
  induction s as [|a s IH]; simpl.
  - by rewrite decide_True.
  - rewrite ?app_cons_str. simpl. rewrite IH. case_decide; [done|].
    destruct (Str.split c s) as [|w ws] eqn:E; [by apply split_not_nil in E|done].
Qed.

Lemma contains_app c s t : Str.contains c (s +:+ t) = Str.contains c s || Str.contains c t.
Proof.
  induction s as [|a s IH]; simpl; [done|]. rewrite ?app_cons_str. simpl.
  by rewrite IH, orb_assoc.
Qed.

Lemma split_single c s : Str.contains c s = false → Str.split c s = [s].
Proof.
  induction s as [|a s IH]; simpl; [done|]. intros [Ha Hs]%orb_false_iff.
  apply bool_decide_eq_false in Ha. rewrite decide_False by done. by rewrite IH.
Qed.

Lemma split_join_cons c w ws : ws ≠ [] → Str.join c (w :: ws) = w +:+ String c (Str.join c ws).
Proof. by destruct ws. Qed.

(** [split] and [join] are inverse of each other. *)
Lemma split_join c ws :
  ws ≠ [] → Forall (λ w, Str.contains c w = false) ws → Str.split c (Str.join c ws) = ws.
Proof.
  intros Hne Hws. induction Hws as [|w ws Hw Hws IH]; [done|].
  destruct (decide (ws = [])) as [->|Hne']; [by apply split_single|].
  rewrite split_join_cons, split_app, (split_single c w), IH by done. done.
Qed.

Lemma join_split c s : Str.join c (Str.split c s) = s.
Proof.
  induction s as [|a s IH]; simpl; [done|].
  pose proof (split_not_nil c s) as Hne.
  case_decide as Ha; [subst|].
  - by rewrite split_join_cons, IH by done.
  - destruct (Str.split c s) as [|w ws]; [done|].
    destruct (decide (ws = [])) as [->|Hws]; [by simpl in *; subst|].
    rewrite split_join_cons in * by done. rewrite ?app_cons_str. by f_equal.
Qed.

Lemma split_no_sep c s : Forall (λ w, Str.contains c w = false) (Str.split c s).
Proof.
  induction s as [|a s IH]; simpl; [by repeat constructor|].
  case_decide as Ha; [by constructor|].
  destruct (Str.split c s) as [|w ws]; [by repeat constructor; simpl; rewrite bool_decide_eq_false_2|].
  apply Forall_cons in IH as [Hw Hws]. constructor; [|done]. simpl.
  by rewrite bool_decide_eq_false_2.
Qed.

Lemma contains_split d c s :
  c ≠ d → Str.contains d s = existsb (Str.contains d) (Str.split c s).
Proof.
  intros Hcd. induction s as [|a s IH]; [done|]. simpl. rewrite IH. case_decide as Ha.
  - subst. by rewrite bool_decide_eq_false_2.
  - destruct (Str.split c s) as [|w ws] eqn:E; [by apply split_not_nil in E|]. simpl.
    by rewrite orb_assoc.
Qed.

(** [rfind] cuts a string at the last separator. *)
Lemma rfind_Some c s pos :
  Str.rfind c s = Some pos →
  ∃ t, s = Str.take pos s +:+ String c t ∧ Str.drop pos s = String c t ∧
       Str.contains c t = false.
Proof.
  revert pos. induction s as [|a s IH]; intros pos; simpl; [done|].
  destruct (Str.rfind c s) as [p|] eqn:E.
  - intros [= <-]. destruct (IH p eq_refl) as (t & Hs & Hd & Ht). exists t.
    split_and!; [|done|done]. simpl. rewrite ?app_cons_str. by f_equal.
  - case_decide; [|done]. intros [= <-]. subst. exists s. split_and!; [done|done|].
    clear IH. induction s as [|b s IH]; [done|]. simpl in *.
    destruct (Str.rfind c s); [done|]. case_decide; [done|].
    rewrite bool_decide_eq_false_2 by done. by apply IH.
Qed.

Lemma rfind_None c s : Str.rfind c s = None ↔ Str.contains c s = false.
Proof.
  induction s as [|a s IH]; simpl; [done|].
  destruct (Str.rfind c s), (Str.contains c s), (decide (a = c)) as [Ha|Ha];
    rewrite ?orb_true_r, ?orb_false_r, ?bool_decide_eq_false; naive_solver.
Qed.

Lemma strip_prefix_Some p s rest : Str.strip_prefix p s = Some rest ↔ s = p +:+ rest.
Proof.
  revert s. induction p as [|a p IH]; intros s; simpl.
  - split; [by intros [= ->]|by intros ->].
  - destruct s as [|b s]; [split; done|]. rewrite ?app_cons_str. case_decide as Hab.
    + rewrite IH. subst. split; [by intros ->|by intros [= ->]].
    + split; [done|]. intros [= -> _]. done.
Qed.

Lemma starts_with_cons s c : Str.starts_with s c = true ↔ ∃ t, s = String c t.
Proof.
  destruct s as [|a s]; simpl; [naive_solver|]. rewrite bool_decide_eq_true. naive_solver.
Qed.

Lemma take_length_app s t : Str.take (String.length s) (s +:+ t) = s.
Proof. induction s as [|a s IH]; [done|]. rewrite ?app_cons_str. simpl. by rewrite IH. Qed.

Lemma length_app_str s t : String.length (s +:+ t) = String.length s + String.length t.
Proof. induction s as [|a s IH]; [done|]. rewrite ?app_cons_str. simpl. by rewrite IH. Qed.

Lemma compare_refl_ascii a : Ascii.compare a a = Eq.
Proof. unfold Ascii.compare. apply N.compare_refl. Qed.

Lemma compare_app p a b : String.compare (p +:+ a) (p +:+ b) = String.compare a b.
Proof.
  induction p as [|c p IH]; [done|]. rewrite ?app_cons_str. simpl.
  by rewrite compare_refl_ascii, IH.
Qed.

Lemma key_le_compare (a b : string) : key_le a b ↔ String.compare a b ≠ Gt.
Proof. simpl. unfold String.le, String.leb. destruct (String.compare a b); simpl; naive_solver. Qed.

Lemma compare_refl_str s : String.compare s s = Eq.
Proof. induction s as [|a s IH]; simpl; [done|]. by rewrite compare_refl_ascii. Qed.

Lemma key_lt_compare (a b : string) : key_lt a b ↔ String.compare a b = Lt.
Proof.
  rewrite key_lt_le, key_le_compare. split.
  - intros [H Hne]. destruct (String.compare a b) eqn:E; [|done|done].
    by apply String.compare_eq_iff in E.
  - intros E. rewrite E. split; [done|]. intros ->. by rewrite compare_refl_str in E.
Qed.

(** ** Paths and their components *)

(** The components of a path, which determine it. *)
Definition comps (p : Path) : list string := Path.components (Some p).

Lemma as_str_join p : as_str p = Str.join "/" (comps p).
Proof. symmetry. apply join_split. Qed.

Lemma comps_inj p q : comps p = comps q → p = q.
Proof.
  intros H. destruct p as [s], q as [t]. f_equal.
  pose proof (as_str_join (mkPath s)) as H1. pose proof (as_str_join (mkPath t)) as H2.
  simpl in *. by rewrite H1, H2, H.
Qed.

(** A component that [parse] accepts. *)
Definition good_component (w : string) : Prop :=
  w ≠ "" ∧ w ≠ "." ∧ w ≠ ".." ∧ Str.contains ":" w = false ∧ Str.contains "/" w = false.

(** A path as [parse] builds them. *)
Definition valid (p : Path) : Prop := Path.parse (as_str p) = Ok p.

#[global] Instance valid_dec p : Decision (valid p).
Proof. unfold valid. destruct (Path.parse (as_str p)) as [q|[]]; [|by right].
  destruct (decide (q = p)) as [->|]; [by left|right; congruence]. Defined.

Lemma bad_component_false w :
  Path.bad_component w = false ↔ w ≠ "" ∧ w ≠ "." ∧ w ≠ "..".
Proof.
  unfold Path.bad_component. rewrite !orb_false_iff, !bool_decide_eq_false. tauto.
Qed.

Lemma existsb_false {A} (f : A → bool) l : existsb f l = false ↔ Forall (λ x, f x = false) l.
Proof.
  induction l as [|x l IH]; simpl; [done|]. by rewrite orb_false_iff, Forall_cons, IH.
Qed.

Lemma parse_spec s p :
  Path.parse s = Ok p ↔ p = mkPath s ∧ Forall good_component (Str.split "/" s).
Proof.
  unfold Path.parse, good_component. pose proof (split_no_sep "/" s) as Hsl.
  rewrite (contains_split ":" "/") by done.
  destruct (bool_decide_reflect (s = "")) as [->|Hne]; simpl.
  { split; [done|]. intros [_ H]. apply Forall_cons in H. naive_solver. }
  destruct (existsb (Str.contains ":") _) eqn:Ec; simpl.
  { split; [done|]. intros [_ H]. apply not_false_iff_true in Ec. destruct Ec.
    apply existsb_false. eapply Forall_impl; [exact H|]. intros w Hw. apply Hw. }
  destruct (existsb Path.bad_component _) eqn:Eb.
  { split; [done|]. intros [_ H]. apply not_false_iff_true in Eb. destruct Eb.
    apply existsb_false. eapply Forall_impl; [exact H|]. intros w Hw.
    apply bad_component_false. split_and!; apply Hw. }
  apply existsb_false in Ec, Eb. split; [|by intros [-> _]].
  intros [= <-]. split; [done|].
  rewrite Forall_forall in Hsl, Ec, Eb |- *. intros w Hw.
  specialize (Eb w Hw). apply bad_component_false in Eb. destruct Eb as (?&?&?).
  split_and!; auto.
Qed.

Lemma valid_comps p : valid p ↔ Forall good_component (comps p).
Proof.
  unfold valid. rewrite parse_spec. destruct p as [s]; simpl. unfold comps; simpl. tauto.
Qed.

Lemma comps_not_nil p : comps p ≠ [].
Proof. apply split_not_nil. Qed.

Lemma name_spec p : last (comps p) = Some (Path.name p).
Proof.
  unfold Path.name, Str.rsplit, comps; simpl. rewrite head_reverse.
  destruct (last (Str.split "/" (as_str p))) as [w|] eqn:E; [done|].
  apply last_None in E. by apply split_not_nil in E.
Qed.

Lemma parent_Some p q : Path.parent p = Some q → comps p = comps q ++ [Path.name p].
Proof.
  unfold Path.parent. intros (pos & Hpos & ->)%fmap_Some.
  apply rfind_Some in Hpos as (t & Hs & _ & Ht).
  assert (comps p = comps (mkPath (Str.take pos (as_str p))) ++ [t]) as Hc.
  { unfold comps; simpl. rewrite Hs at 1. by rewrite split_app, (split_single "/" t). }
  rewrite Hc. do 2 f_equal. pose proof (name_spec p) as Hn.
  rewrite Hc, last_snoc in Hn. congruence.
Qed.

Lemma parent_None p : Path.parent p = None ↔ comps p = [Path.name p].
Proof.
  unfold Path.parent. rewrite fmap_None, rfind_None. split.
  - intros H. pose proof (name_spec p) as Hn. unfold comps in *; simpl in *.
    rewrite (split_single "/") in * by done. simpl in Hn. congruence.
  - intros H. pose proof (split_no_sep "/" (as_str p)) as Hs.
    change (Str.split "/" (as_str p)) with (comps p) in Hs. rewrite H in Hs.
    apply Forall_cons in Hs as [Hs _]. rewrite as_str_join, H. done.
Qed.

Lemma starts_with_iff p q :
  Path.starts_with p q = true ↔
  as_str p = as_str q ∨ ∃ t, as_str p = as_str q +:+ String "/" t.
Proof.
  unfold Path.starts_with. destruct (Str.strip_prefix (as_str q) (as_str p)) as [rest|] eqn:E.
  - apply strip_prefix_Some in E. rewrite orb_true_iff, bool_decide_eq_true, starts_with_cons, E.
    split; intros [H|H].
    + left. by rewrite H, app_nil_r_str.
    + right. destruct H as [t ->]. by exists t.
    + left. rewrite <- (app_nil_r_str (as_str q)) in H at 2. by apply (inj (String.app _)) in H.
    + right. destruct H as [t Ht]. apply (inj (String.app _)) in Ht. by exists t.
  - split; [done|]. intros H.
    assert (∃ rest, Str.strip_prefix (as_str q) (as_str p) = Some rest) as [rest Hr]; [|congruence].
    destruct H as [H|[t Ht]]; eexists; apply strip_prefix_Some; [|exact Ht].
    by rewrite app_nil_r_str.
Qed.

Lemma join_app c us ws :
  us ≠ [] → ws ≠ [] → Str.join c (us ++ ws) = Str.join c us +:+ String c (Str.join c ws).
Proof.
  intros Hus Hws. induction us as [|u us IH]; [done|]. simpl app.
  rewrite (split_join_cons _ u (us ++ ws)) by (by destruct us).
  destruct (decide (us = [])) as [->|Hne]; [done|].
  rewrite IH, (split_join_cons _ u us), <- app_assoc_str by done. done.
Qed.

Lemma starts_with_comps p q :
  Path.starts_with p q = true ↔ ∃ ws, comps p = comps q ++ ws.
Proof.
  rewrite starts_with_iff. split.
  - intros [H|[t H]].
    + exists []. unfold comps; simpl. by rewrite H, app_nil_r.
    + exists (Str.split "/" t). unfold comps; simpl. by rewrite H, split_app.
  - intros [ws H]. rewrite !(as_str_join), H.
    destruct ws as [|w ws]; [left; by rewrite app_nil_r|].
    right. exists (Str.join "/" (w :: ws)). by apply join_app; [apply comps_not_nil|].
Qed.

Lemma prefix_new p : PathPrefix.prefix (PathPrefix.new p) = as_str p.
Proof.
  unfold PathPrefix.prefix; simpl. rewrite length_app_str. simpl.
  replace (String.length (as_str p) + 1 - 1) with (String.length (as_str p)) by lia.
  apply take_length_app.
Qed.

Lemma accept_starts_with p k :
  PathPrefix.accept (PathPrefix.new p) k = Path.starts_with (mkPath k) p.
Proof.
  unfold PathPrefix.accept, Path.starts_with. rewrite prefix_new. simpl.
  by destruct (Str.strip_prefix (as_str p) k).
Qed.

Lemma comps_parent p : comps p = Path.components (Path.parent p) ++ [Path.name p].
Proof.
  destruct (Path.parent p) as [q|] eqn:E; [by apply parent_Some|by apply parent_None].
Qed.

(** A key that [accept] keeps lies in the scanned range. *)
Lemma accept_in_range p k :
  PathPrefix.accept (PathPrefix.new p) k = true →
  in_range (fst (PathPrefix.range (PathPrefix.new p)))
           (snd (PathPrefix.range (PathPrefix.new p))) k.
Proof.
  rewrite accept_starts_with. intros H. apply starts_with_iff in H. simpl in H.
  unfold PathPrefix.range, in_range, above, below; simpl fst; simpl snd.
  rewrite key_le_compare, key_lt_compare, prefix_new. simpl.
  assert (∃ rest, k = as_str p +:+ rest ∧ (rest = "" ∨ ∃ t, rest = String "/" t))
    as (rest & -> & Hrest).
  { destruct H as [->|[t ->]]; [exists ""|exists (String "/" t)]; [|by eauto].
    by rewrite app_nil_r_str; auto. }
  rewrite <- (app_nil_r_str (as_str p)) at 1. rewrite !compare_app.
  by destruct Hrest as [->|[t ->]].
Qed.

(** ** Properties *)

(** [parse] accepts exactly the strings whose slash-separated components are
    non-empty, not [.] or [..], and without a colon; it keeps the string, and
    joining good components with slashes parses back to them. *)
Theorem parse_correct (s : string) (ws : list string)
  (Hws : ws ≠ []) (Hgood : Forall good_component ws) :
  (∀ p, Path.parse s = Ok p ↔ p = mkPath s ∧ Forall good_component (comps (mkPath s))) ∧
  (Path.parse s = Err InvalidPath ↔ ¬ Forall good_component (comps (mkPath s))) ∧
  ∃ p, Path.parse (Str.join "/" ws) = Ok p ∧ comps p = ws ∧ as_str p = Str.join "/" ws.
Proof.
  split_and!.
  - intros p. apply parse_spec.
  - pose proof (parse_spec s (mkPath s)) as H.
    destruct (Path.parse s) as [p|[]] eqn:E.
    + apply parse_spec in E as [-> E]. split; [done|]. by intros ?.
    + split; [|done]. intros _ Hg. by pose proof (proj2 H (conj eq_refl Hg)).
  - assert (Str.split "/" (Str.join "/" ws) = ws) as Hs.
    { apply split_join; [done|]. eapply Forall_impl; [exact Hgood|]. intros w Hw; apply Hw. }
    exists (mkPath (Str.join "/" ws)). split_and!; [|done|done].
    apply parse_spec. by rewrite Hs.
Qed.

Example parse_correct_witness :
  Path.parse "foo/../bar" = Err InvalidPath ∧
  (∀ p, Path.parse "a/b.c" = Ok p ↔
        p = mkPath "a/b.c" ∧ Forall good_component (comps (mkPath "a/b.c"))) ∧
  (Path.parse "a/b.c" = Err InvalidPath ↔ ¬ Forall good_component (comps (mkPath "a/b.c"))) ∧
  ∃ p, Path.parse (Str.join "/" ["a"; "b"; "c.txt"]) = Ok p ∧
       comps p = ["a"; "b"; "c.txt"] ∧ as_str p = Str.join "/" ["a"; "b"; "c.txt"].
Proof.
  split; [reflexivity|].
  apply (parse_correct "a/b.c" ["a"; "b"; "c.txt"]); [done|].
  repeat constructor; done.
Defined.

(** A valid path is its components: [parent] drops the last one and is valid
    again, [name] is the last one, [starts_with] is the prefix order on
    components, and going up through [parent] ends. *)
Theorem path_components (p q : Path) (Hp : valid p) (Hq : valid q) :
  (∀ r, Path.parent p = Some r →
        valid r ∧ comps p = comps r ++ [Path.name p] ∧
        Path.starts_with p r = true ∧ length (comps r) < length (comps p)) ∧
  (Path.parent p = None ↔ comps p = [Path.name p]) ∧
  (Path.starts_with p q = true ↔ ∃ ws, comps p = comps q ++ ws) ∧
  good_component (Path.name p).
Proof.
  rewrite valid_comps in Hp. split_and!.
  - intros r Hr%parent_Some. split_and!.
    + apply valid_comps. rewrite Hr in Hp. by apply Forall_app in Hp as [? _].
    + done.
    + apply starts_with_comps. eauto.
    + rewrite Hr, length_app. simpl. lia.
  - apply parent_None.
  - apply starts_with_comps.
  - rewrite Forall_forall in Hp. apply Hp, last_Some_elem_of, name_spec.
Qed.

Example path_components_witness :
  Path.starts_with (mkPath "foobar") (mkPath "foo") = false ∧
  Path.parent (mkPath "foo/bar.txt") = Some (mkPath "foo") ∧
  (∀ r, Path.parent (mkPath "foo/bar.txt") = Some r →
        valid r ∧ comps (mkPath "foo/bar.txt") = comps r ++ [Path.name (mkPath "foo/bar.txt")] ∧
        Path.starts_with (mkPath "foo/bar.txt") r = true ∧
        length (comps r) < length (comps (mkPath "foo/bar.txt"))) ∧
  (Path.parent (mkPath "foo/bar.txt") = None ↔
     comps (mkPath "foo/bar.txt") = [Path.name (mkPath "foo/bar.txt")]) ∧
  (Path.starts_with (mkPath "foo/bar.txt") (mkPath "foo") = true ↔
     ∃ ws, comps (mkPath "foo/bar.txt") = comps (mkPath "foo") ++ ws) ∧
  good_component (Path.name (mkPath "foo/bar.txt")).
Proof.
  do 2 (split; [reflexivity|]). apply path_components; reflexivity.
Defined.

(** The keys that a [PathPrefix] scan of a table visits and accepts are
    exactly the path itself and everything below it: no such key lies outside
    the scanned range, and a sibling that merely shares the prefix is refused. *)
Theorem path_prefix_exact (p : Path) (k : string) :
  (in_range (fst (PathPrefix.range (PathPrefix.new p)))
            (snd (PathPrefix.range (PathPrefix.new p))) k ∧
   PathPrefix.accept (PathPrefix.new p) k = true) ↔
  Path.starts_with (mkPath k) p = true.
Proof.
  rewrite accept_starts_with. split; [tauto|]. intros H. split; [|done].
  apply accept_in_range. by rewrite accept_starts_with.
Qed.
