(* ===== verification/Types.v ===== *)
(** * Shared data

    The data that crosses component boundaries: identifiers
    ([realize-types/src/{arena,peer}.rs], [realize-storage/src/types.rs]), hashes
    and times ([realize-types/src/{data,time}.rs]), table entries
    ([realize-storage/src/arena/types.rs], [.../global/types.rs]), errors
    ([.../error.rs]) and the notifications peers exchange
    ([.../arena/notifier.rs]).

    The fixed-width identifiers are numbers; [Module Id] models their table
    encoding and shows that the key order of a table is the numeric one. *)
From S2P Require Import Prelude RangeSet Redb Path.
From Stdlib Require Import Strings.Byte.
Local Open Scope N_scope.

(** ** Identifiers *)

Record Arena : Type := mkArena { arena_name : string }.
Record Peer : Type := mkPeer { peer_name : string }.

#[global] Instance Arena_eq_dec : EqDecision Arena.
Proof. solve_decision. Defined.
#[global] Program Instance Arena_countable : Countable Arena :=
  inj_countable' arena_name mkArena _.
Next Obligation. by intros []. Qed.
#[global] Instance Peer_eq_dec : EqDecision Peer.
Proof. solve_decision. Defined.
#[global] Program Instance Peer_countable : Countable Peer :=
  inj_countable' peer_name mkPeer _.
Next Obligation. by intros []. Qed.

(** [Inode], [BlobId] and [JobId] are newtypes of [u64]. *)
Abbreviation Inode := N (only parsing).
Abbreviation BlobId := N (only parsing).
Abbreviation JobId := N (only parsing).
(** A UUID (of the [uuid] crate) is a 128-bit value that is only compared. *)
Abbreviation Uuid := N (only parsing).

#[global] Instance byte_eq_dec : EqDecision byte := Byte.byte_eq_dec.

Module Id.
Definition ZERO : N := 0.
Definition MAX : N := u64_max.

Definition plus (id val : N) : N := u64_add id val.
Definition minus (id val : N) : N := u64_sub id val.

Definition is_invalid (id : N) : bool := id =? 0.
Definition as_optional (id : N) : option N := if id =? 0 then None else Some id.
Definition from_optional (id : option N) : N := default 0 id.

(** [u64::to_le_bytes], [u64::from_le_bytes] *)
Fixpoint to_le (len : nat) (n : N) : list byte :=
  match len with
  | O => []
  | S len => default x00 (Byte.of_N (n mod 256)) :: to_le len (n / 256)
  end.
Fixpoint from_le (bs : list byte) : N :=
  match bs with
  | [] => 0
  | b :: bs => Byte.to_N b + 256 * from_le bs
  end.

(** [Value::as_bytes], [Value::from_bytes] *)
Definition as_bytes (id : N) : list byte := to_le 8 id.
Definition from_bytes (data : list byte) : N :=
  if decide (length data = 8%nat) then from_le data else from_le (replicate 8 x00).

(** [Key::compare] *)
Definition compare (data1 data2 : list byte) : comparison :=
  from_bytes data1 ?= from_bytes data2.
End Id.

(** ** Hashes and times *)

Record Hash : Type := mkHash { hash_bytes : list byte }.

#[global] Instance Hash_eq_dec : EqDecision Hash.
Proof. solve_decision. Defined.

Module Hash.
Definition zero : Hash := mkHash (replicate 32 x00).
Definition is_zero (h : Hash) : bool := forallb (λ v, bool_decide (v = x00)) (hash_bytes h).
End Hash.

(** A [Duration] counts nanoseconds, a [UnixTime] those since the epoch. *)
Abbreviation Duration := N (only parsing).
Record UnixTime : Type := mkUnixTime { as_duration : Duration }.

#[global] Instance UnixTime_eq_dec : EqDecision UnixTime.
Proof. solve_decision. Defined.

Module UnixTime.
Definition nanos_per_sec : N := 1000000000.
Definition ZERO : UnixTime := mkUnixTime 0.
Definition MAX : UnixTime := mkUnixTime (u64_max * nanos_per_sec + (nanos_per_sec - 1)).

Definition new (secs nsecs : N) : UnixTime := mkUnixTime (secs * nanos_per_sec + nsecs).
Definition from_secs (secs : N) : UnixTime := new secs 0.
Definition as_secs (t : UnixTime) : N := as_duration t / nanos_per_sec.
Definition subsec_nanos (t : UnixTime) : N := as_duration t mod nanos_per_sec.

Definition duration_since (t other : UnixTime) : Duration :=
  if as_duration other <? as_duration t then as_duration t - as_duration other else 0.
Definition plus (t : UnixTime) (d : Duration) : UnixTime := mkUnixTime (as_duration t + d).

Definition ltb (t other : UnixTime) : bool := as_duration t <? as_duration other.
Definition leb (t other : UnixTime) : bool := as_duration t <=? as_duration other.

(** Dropping the nanoseconds moves a time back by less than a second. *)
Lemma as_secs_bound t :
  as_duration (from_secs (as_secs t)) ≤ as_duration t ∧
  as_duration t < as_duration (from_secs (as_secs t)) + nanos_per_sec.
Proof.
  unfold from_secs, as_secs, new; cbn [as_duration].
  pose proof (N.div_mod (as_duration t) nanos_per_sec ltac:(done)).
  pose proof (N.mod_upper_bound (as_duration t) nanos_per_sec ltac:(done)).
  set (q := as_duration t / nanos_per_sec) in *. set (r := as_duration t mod nanos_per_sec) in *.
  clearbody q r. nia.
Qed.
End UnixTime.

(** ** Errors *)

Inductive ByteConversionError : Type :=
| Capnp
| CapnpNotInSchema
| ConvPath (e : PathError)
| Utf8
| Invalid (what : string).

Inductive StorageError : Type :=
| Database
| Io
| ByteConversion (e : ByteConversionError)
| Unavailable
| NotFound
| NotADirectory
| IsADirectory
| JoinError
| InvalidRsyncSignature
| UnknownArena (arena : Arena)
| NoLocalStorage (arena : Arena).

Abbreviation sresult := (result StorageError).

(** [impl From<PathError> for StorageError] *)
Definition StorageError_from_path (_ : PathError) : StorageError :=
  ByteConversion (Invalid "path").

(** ** Table entries of an arena *)

Inductive LocalAvailability : Type :=
| Missing
| Partial (size : N) (ranges : ByteRanges)
| Complete
| Verified.

#[global] Instance LocalAvailability_eq_dec : EqDecision LocalAvailability.
Proof. solve_decision. Defined.

Record BlobTableEntry : Type := {
  written_areas : ByteRanges;
  content_hash : option Hash;
}.

Record IndexedFileTableEntry : Type := {
  ix_hash : Hash;
  ix_mtime : UnixTime;
  ix_size : N;
  outdated_by : option Hash;
}.

Inductive HistoryTableEntry : Type :=
| HAdd (path : Path)
| HReplace (path : Path) (old_hash : Hash)
| HRemove (path : Path) (old_hash : Hash)
| HDrop (path : Path) (old_hash : Hash).

Record FailedJobTableEntry : Type := {
  backoff_until : UnixTime;
  failure_count : N;
}.

Inductive Mark : Type := Watch | Keep | Own.
(** [#[default] Watch] *)
Definition Mark_default : Mark := Watch.

#[global] Instance Mark_eq_dec : EqDecision Mark.
Proof. solve_decision. Defined.

Record MarkTableEntry : Type := { mark : Mark }.

#[global] Instance IndexedFileTableEntry_eq_dec : EqDecision IndexedFileTableEntry.
Proof. solve_decision. Defined.
#[global] Instance HistoryTableEntry_eq_dec : EqDecision HistoryTableEntry.
Proof. solve_decision. Defined.

(** ** Table entries of the cache *)

Inductive InodeAssignment : Type := AFile | ADirectory.

#[global] Instance InodeAssignment_eq_dec : EqDecision InodeAssignment.
Proof. solve_decision. Defined.

Record ReadDirEntry : Type := { rd_inode : Inode; assignment : InodeAssignment }.

Record FileMetadata : Type := { size : N; mtime : UnixTime }.

Record FileContent : Type := { fc_path : Path; fc_hash : Hash; blob : option BlobId }.

Record FileTableEntry : Type := {
  metadata : FileMetadata;
  content : FileContent;
  parent_inode : Inode;
}.

Record FileAvailability : Type := {
  av_arena : Arena;
  av_path : Path;
  av_metadata : FileMetadata;
  av_hash : Hash;
  av_peers : list Peer;
}.

Definition FileTableEntry_new (path : Path) (sz : N) (mt : UnixTime) (h : Hash)
  (parent : Inode) : FileTableEntry :=
  {| metadata := {| size := sz; mtime := mt |};
     content := {| fc_path := path; fc_hash := h; blob := None |};
     parent_inode := parent |}.

(** [entry.content.blob = blob] *)
Definition set_blob (e : FileTableEntry) (b : option BlobId) : FileTableEntry :=
  {| metadata := metadata e;
     content := {| fc_path := fc_path (content e); fc_hash := fc_hash (content e); blob := b |};
     parent_inode := parent_inode e |}.

Inductive DirTableEntry : Type :=
| Regular (e : ReadDirEntry)
| Dot (mtime : UnixTime).

Definition into_readdir_entry (d : DirTableEntry) (inode : Inode) : ReadDirEntry :=
  match d with
  | Regular e => e
  | Dot _ => {| rd_inode := inode; assignment := ADirectory |}
  end.

Record PeerTableEntry : Type := { uuid : Uuid }.

(** ** Notifications *)

Inductive Notification : Type :=
| NAdd (arena : Arena) (index : N) (path : Path) (mtime : UnixTime) (size : N) (hash : Hash)
| NReplace (arena : Arena) (index : N) (path : Path) (mtime : UnixTime) (size : N)
    (hash old_hash : Hash)
| NRemove (arena : Arena) (index : N) (path : Path) (old_hash : Hash)
| NDrop (arena : Arena) (index : N) (path : Path) (old_hash : Hash)
| NCatchupStart (arena : Arena)
| NCatchup (arena : Arena) (path : Path) (mtime : UnixTime) (size : N) (hash : Hash)
| NCatchupComplete (arena : Arena) (index : N)
| NConnected (arena : Arena) (uuid : Uuid).

Definition notification_arena (n : Notification) : Arena :=
  match n with
  | NAdd arena _ _ _ _ _ | NReplace arena _ _ _ _ _ _ | NRemove arena _ _ _
  | NDrop arena _ _ _ | NCatchupStart arena | NCatchup arena _ _ _ _
  | NCatchupComplete arena _ | NConnected arena _ => arena
  end.

Definition notification_path (n : Notification) : option Path :=
  match n with
  | NAdd _ _ path _ _ _ | NReplace _ _ path _ _ _ _ | NRemove _ _ path _
  | NDrop _ _ path _ | NCatchup _ path _ _ _ => Some path
  | NCatchupStart _ | NCatchupComplete _ _ | NConnected _ _ => None
  end.

Definition notification_index (n : Notification) : option N :=
  match n with
  | NAdd _ index _ _ _ _ | NReplace _ index _ _ _ _ _ | NRemove _ index _ _
  | NDrop _ index _ _ | NCatchupComplete _ index => Some index
  | NCatchupStart _ | NCatchup _ _ _ _ _ | NConnected _ _ => None
  end.

Record Progress : Type := { pr_uuid : Uuid; last_seen : N }.

(** ** Jobs *)

Inductive Job : Type :=
| JDownload (path : Path) (hash : Hash)
| JRealize (path : Path) (hash : Hash) (index_hash : option Hash)
| JUnrealize (path : Path) (hash : Hash).

#[global] Instance Job_eq_dec : EqDecision Job.
Proof. solve_decision. Defined.

Definition job_path (j : Job) : Path :=
  match j with JDownload path _ | JRealize path _ _ | JUnrealize path _ => path end.
Definition job_hash (j : Job) : Hash :=
  match j with JDownload _ h | JRealize _ h _ | JUnrealize _ h => h end.

Inductive JobStatus : Type := Done | Abandoned.

#[global] Instance JobStatus_eq_dec : EqDecision JobStatus.
Proof. solve_decision. Defined.

(** ** Lemmas *)

Lemma to_N_of_N n : Byte.to_N (default x00 (Byte.of_N (n mod 256))) = n mod 256.
Proof.
  destruct (Byte.of_N (n mod 256)) as [b|] eqn:E; simpl.
  - by apply Byte.to_of_N in E.
  - apply Byte.of_N_None_iff in E. pose proof (N.mod_upper_bound n 256). lia.
Qed.

Lemma from_to_le len n : n < 256 ^ N.of_nat len → Id.from_le (Id.to_le len n) = n.
Proof.
  revert n. induction len as [|len IH]; intros n Hn; simpl.
  { change (256 ^ N.of_nat 0) with 1 in Hn. lia. }
  rewrite to_N_of_N, IH.
  - pose proof (N.div_mod n 256). lia.
  - rewrite Nat2N.inj_succ, N.pow_succ_r' in Hn. apply N.Div0.div_lt_upper_bound. lia.
Qed.

Lemma length_to_le len n : length (Id.to_le len n) = len.
Proof. revert n. induction len as [|len IH]; intros n; simpl; [done|]. by rewrite IH. Qed.

Lemma from_as_bytes id : id < u64_modulus → Id.from_bytes (Id.as_bytes id) = id.
Proof.
  intros H. unfold Id.from_bytes, Id.as_bytes. rewrite length_to_le. simpl decide.
  rewrite decide_True by done. by apply from_to_le.
Qed.

(** ** Properties *)

(** An identifier survives its encoding as a table key, the byte comparison
    that orders the keys of a table is the numeric order, malformed keys decode
    to 0 instead of failing, and 0 stands for no identifier. *)
Theorem id_encoding (a b : N) (Ha : is_u64 a) (Hb : is_u64 b) :
  Id.from_bytes (Id.as_bytes a) = a ∧
  Id.compare (Id.as_bytes a) (Id.as_bytes b) = (a ?= b) ∧
  (key_lt a b ↔ Id.compare (Id.as_bytes a) (Id.as_bytes b) = Lt) ∧
  (∀ data, length data ≠ 8%nat → Id.from_bytes data = 0) ∧
  Id.from_optional (Id.as_optional a) = a.
Proof.
  split_and!.
  - by apply from_as_bytes.
  - unfold Id.compare. by rewrite !from_as_bytes.
  - unfold Id.compare. rewrite !from_as_bytes by done. rewrite N.compare_lt_iff, key_lt_le.
    simpl. lia.
  - intros data Hd. unfold Id.from_bytes. by rewrite decide_False.
  - unfold Id.from_optional, Id.as_optional. by destruct (N.eqb_spec a 0) as [->|].
Qed.

Example id_encoding_witness :
  Id.as_bytes 55555 = [x03; xd9; x00; x00; x00; x00; x00; x00] ∧
  Id.from_bytes (Id.as_bytes 100) = 100 ∧
  Id.compare (Id.as_bytes 100) (Id.as_bytes 256) = (100 ?= 256) ∧
  (key_lt (100 : N) 256 ↔ Id.compare (Id.as_bytes 100) (Id.as_bytes 256) = Lt) ∧
  (∀ data, length data ≠ 8%nat → Id.from_bytes data = 0) ∧
  Id.from_optional (Id.as_optional 100) = 100.
Proof. split; [reflexivity|]. apply id_encoding; reflexivity. Defined.
