(* ===== verification/Db.v ===== *)
(** * Databases and transactions

    [crate/realize-storage/src/arena/db.rs] and [.../global/db.rs]: the tables of
    the two databases, write transactions that commit or roll back, callbacks
    registered to run after a commit, and the parts of the outside world that a
    transaction touches without being able to roll them back (the filesystem,
    and the global database while an arena transaction is open).

    Values are kept parsed: [Holder::with_content] followed by [parse] gives the
    value back, except for a failed job, whose time loses its nanoseconds
    ([holder_failed_job]). *)
From S2P Require Import Prelude Redb Path Types.
From Stdlib Require Import Strings.Byte.
Local Open Scope N_scope.

(** ** Files *)

(** A regular file, as far as the program looks at one. *)
Record File : Type := { f_data : list byte; f_mtime : UnixTime }.

(** The regular files of the filesystem, by absolute path. *)
Abbreviation Fs := (gmap string File).

Definition f_len (f : File) : N := N.of_nat (length (f_data f)).

(** [std::path::Path::join] of a relative path *)
Definition join_path (dir rel : string) : string :=
  if bool_decide (dir = "") then rel else dir +:+ "/" +:+ rel.

Lemma join_path_inj dir a c : join_path dir a = join_path dir c → a = c.
Proof. unfold join_path. case_bool_decide; [done|]. intros H1. by apply (inj (String.append dir)), (inj (String.append "/")) in H1. Qed.

(** [Path::within] *)
Definition within (p : Path) (root : string) : string := join_path root (as_str p).

(** ** Tables *)

Section tables.
Context {R : Redb}.

(** [engine.*]: the dirty paths, their log by counter, the last counter, and the
    failed jobs by counter. *)
Record DirtyTables : Type := {
  dirty_table : table string N;
  dirty_log_table : table N string;
  dirty_counter_table : table () N;
  failed_job_table : table N FailedJobTableEntry;
}.

Definition dirty_empty : DirtyTables := {|
  dirty_table := tbl_empty;
  dirty_log_table := tbl_empty;
  dirty_counter_table := tbl_empty;
  failed_job_table := tbl_empty;
|}.

Definition set_dirty_table (x : table string N) (s : DirtyTables) : DirtyTables := {|
  dirty_table := x;
  dirty_log_table := dirty_log_table s;
  dirty_counter_table := dirty_counter_table s;
  failed_job_table := failed_job_table s;
|}.

Definition set_dirty_log_table (x : table N string) (s : DirtyTables) : DirtyTables := {|
  dirty_table := dirty_table s;
  dirty_log_table := x;
  dirty_counter_table := dirty_counter_table s;
  failed_job_table := failed_job_table s;
|}.

Definition set_dirty_counter_table (x : table () N) (s : DirtyTables) : DirtyTables := {|
  dirty_table := dirty_table s;
  dirty_log_table := dirty_log_table s;
  dirty_counter_table := x;
  failed_job_table := failed_job_table s;
|}.

Definition set_failed_job_table (x : table N FailedJobTableEntry) (s : DirtyTables) : DirtyTables := {|
  dirty_table := dirty_table s;
  dirty_log_table := dirty_log_table s;
  dirty_counter_table := dirty_counter_table s;
  failed_job_table := x;
|}.

(** [index.*]: the local files and their history. *)
Record IndexTables : Type := {
  index_file_table : table string IndexedFileTableEntry;
  index_history_table : table N HistoryTableEntry;
}.

Definition index_empty : IndexTables := {|
  index_file_table := tbl_empty;
  index_history_table := tbl_empty;
|}.

Definition set_index_file_table (x : table string IndexedFileTableEntry) (s : IndexTables) : IndexTables := {|
  index_file_table := x;
  index_history_table := index_history_table s;
|}.

Definition set_index_history_table (x : table N HistoryTableEntry) (s : IndexTables) : IndexTables := {|
  index_file_table := index_file_table s;
  index_history_table := x;
|}.

(** [acache.*]: what the peers have, and the directories that present it. *)
Record CacheTables : Type := {
  cache_directory_table : table (N * string) DirTableEntry;
  cache_file_table : table (N * string) FileTableEntry;
  cache_pending_catchup_table : table (string * N) N;
  cache_peer_table : table string PeerTableEntry;
  cache_notification_table : table string N;
  cache_current_inode_range_table : table () (N * N);
}.

Definition cache_empty : CacheTables := {|
  cache_directory_table := tbl_empty;
  cache_file_table := tbl_empty;
  cache_pending_catchup_table := tbl_empty;
  cache_peer_table := tbl_empty;
  cache_notification_table := tbl_empty;
  cache_current_inode_range_table := tbl_empty;
|}.

Definition set_cache_directory_table (x : table (N * string) DirTableEntry) (s : CacheTables) : CacheTables := {|
  cache_directory_table := x;
  cache_file_table := cache_file_table s;
  cache_pending_catchup_table := cache_pending_catchup_table s;
  cache_peer_table := cache_peer_table s;
  cache_notification_table := cache_notification_table s;
  cache_current_inode_range_table := cache_current_inode_range_table s;
|}.

Definition set_cache_file_table (x : table (N * string) FileTableEntry) (s : CacheTables) : CacheTables := {|
  cache_directory_table := cache_directory_table s;
  cache_file_table := x;
  cache_pending_catchup_table := cache_pending_catchup_table s;
  cache_peer_table := cache_peer_table s;
  cache_notification_table := cache_notification_table s;
  cache_current_inode_range_table := cache_current_inode_range_table s;
|}.

Definition set_cache_pending_catchup_table (x : table (string * N) N) (s : CacheTables) : CacheTables := {|
  cache_directory_table := cache_directory_table s;
  cache_file_table := cache_file_table s;
  cache_pending_catchup_table := x;
  cache_peer_table := cache_peer_table s;
  cache_notification_table := cache_notification_table s;
  cache_current_inode_range_table := cache_current_inode_range_table s;
|}.

Definition set_cache_peer_table (x : table string PeerTableEntry) (s : CacheTables) : CacheTables := {|
  cache_directory_table := cache_directory_table s;
  cache_file_table := cache_file_table s;
  cache_pending_catchup_table := cache_pending_catchup_table s;
  cache_peer_table := x;
  cache_notification_table := cache_notification_table s;
  cache_current_inode_range_table := cache_current_inode_range_table s;
|}.

Definition set_cache_notification_table (x : table string N) (s : CacheTables) : CacheTables := {|
  cache_directory_table := cache_directory_table s;
  cache_file_table := cache_file_table s;
  cache_pending_catchup_table := cache_pending_catchup_table s;
  cache_peer_table := cache_peer_table s;
  cache_notification_table := x;
  cache_current_inode_range_table := cache_current_inode_range_table s;
|}.

Definition set_cache_current_inode_range_table (x : table () (N * N)) (s : CacheTables) : CacheTables := {|
  cache_directory_table := cache_directory_table s;
  cache_file_table := cache_file_table s;
  cache_pending_catchup_table := cache_pending_catchup_table s;
  cache_peer_table := cache_peer_table s;
  cache_notification_table := cache_notification_table s;
  cache_current_inode_range_table := x;
|}.

(** The tables of an arena database. *)
Record Tables : Type := {
  dirty : DirtyTables;
  index : IndexTables;
  cache : CacheTables;
  blob_table : table N BlobTableEntry;
  mark_table : table string MarkTableEntry;
}.

Definition arena_empty : Tables := {|
  dirty := dirty_empty;
  index := index_empty;
  cache := cache_empty;
  blob_table := tbl_empty;
  mark_table := tbl_empty;
|}.

Definition set_dirty (x : DirtyTables) (s : Tables) : Tables := {|
  dirty := x;
  index := index s;
  cache := cache s;
  blob_table := blob_table s;
  mark_table := mark_table s;
|}.

Definition set_index (x : IndexTables) (s : Tables) : Tables := {|
  dirty := dirty s;
  index := x;
  cache := cache s;
  blob_table := blob_table s;
  mark_table := mark_table s;
|}.

Definition set_cache (x : CacheTables) (s : Tables) : Tables := {|
  dirty := dirty s;
  index := index s;
  cache := x;
  blob_table := blob_table s;
  mark_table := mark_table s;
|}.

Definition set_blob_table (x : table N BlobTableEntry) (s : Tables) : Tables := {|
  dirty := dirty s;
  index := index s;
  cache := cache s;
  blob_table := x;
  mark_table := mark_table s;
|}.

Definition set_mark_table (x : table string MarkTableEntry) (s : Tables) : Tables := {|
  dirty := dirty s;
  index := index s;
  cache := cache s;
  blob_table := blob_table s;
  mark_table := x;
|}.

(** The tables of the global database ([global/db.rs]). *)
Record GlobalTables : Type := {
  arena_table : table string N;
  inode_range_allocation_table : table N N;
  directory_table : table (N * string) DirTableEntry;
  current_inode_range_table : table () (N * N);
}.

Definition global_empty : GlobalTables := {|
  arena_table := tbl_empty;
  inode_range_allocation_table := tbl_empty;
  directory_table := tbl_empty;
  current_inode_range_table := tbl_empty;
|}.

Definition set_arena_table (x : table string N) (s : GlobalTables) : GlobalTables := {|
  arena_table := x;
  inode_range_allocation_table := inode_range_allocation_table s;
  directory_table := directory_table s;
  current_inode_range_table := current_inode_range_table s;
|}.

Definition set_inode_range_allocation_table (x : table N N) (s : GlobalTables) : GlobalTables := {|
  arena_table := arena_table s;
  inode_range_allocation_table := x;
  directory_table := directory_table s;
  current_inode_range_table := current_inode_range_table s;
|}.

Definition set_directory_table (x : table (N * string) DirTableEntry) (s : GlobalTables) : GlobalTables := {|
  arena_table := arena_table s;
  inode_range_allocation_table := inode_range_allocation_table s;
  directory_table := x;
  current_inode_range_table := current_inode_range_table s;
|}.

Definition set_current_inode_range_table (x : table () (N * N)) (s : GlobalTables) : GlobalTables := {|
  arena_table := arena_table s;
  inode_range_allocation_table := inode_range_allocation_table s;
  directory_table := directory_table s;
  current_inode_range_table := x;
|}.

(** ** Transactions *)

(** What the program registers with [after_commit]: the value sent to the
    watch channel of the dirty counter or of the history index. *)
Inductive AfterCommit : Type :=
| SendDirty (counter : N)
| SendHistory (index : N).

(** Effects that a rollback does not undo. *)
Record Ext : Type := { fs : Fs; global : GlobalTables }.

(** An open write transaction. *)
Record Txn : Type := {
  tables : Tables;
  after_commit : list AfterCommit;
  ext : Ext;
}.

(** The state between transactions: the committed tables, the outside, and the
    values of the two watch channels. *)
Record World : Type := {
  db : Tables;
  w_ext : Ext;
  watch_tx : N;
  history_tx : N;
}.

Definition set_tables (x : Tables) (t : Txn) : Txn :=
  {| tables := x; after_commit := after_commit t; ext := ext t |}.
Definition set_ext (x : Ext) (t : Txn) : Txn :=
  {| tables := tables t; after_commit := after_commit t; ext := x |}.
Definition set_fs (x : Fs) (t : Txn) : Txn :=
  set_ext {| fs := x; global := global (ext t) |} t.
Definition set_global (x : GlobalTables) (t : Txn) : Txn :=
  set_ext {| fs := fs (ext t); global := x |} t.

(** [txn.after_commit(cb)] *)
Definition push_after_commit (cb : AfterCommit) (t : Txn) : Txn :=
  {| tables := tables t; after_commit := after_commit t ++ [cb]; ext := ext t |}.

Definition TxnM (A : Type) : Type := StateM Txn StorageError A.
Definition WorldM (A : Type) : Type := StateM World StorageError A.

Definition begin_write (w : World) : Txn :=
  {| tables := db w; after_commit := []; ext := w_ext w |}.

(** [cb()] *)
Definition run_callback (w : World) (cb : AfterCommit) : World :=
  match cb with
  | SendDirty c => {| db := db w; w_ext := w_ext w; watch_tx := c; history_tx := history_tx w |}
  | SendHistory i => {| db := db w; w_ext := w_ext w; watch_tx := watch_tx w; history_tx := i |}
  end.

(** [ArenaWriteTransaction::commit] *)
Definition commit (t : Txn) (w : World) : World :=
  foldl run_callback
    {| db := tables t; w_ext := ext t; watch_tx := watch_tx w; history_tx := history_tx w |}
    (after_commit t).

(** Dropping the transaction: the tables and callbacks are forgotten. *)
Definition rollback (t : Txn) (w : World) : World :=
  {| db := db w; w_ext := ext t; watch_tx := watch_tx w; history_tx := history_tx w |}.

(** How the body of a transaction that does not fail ends. *)
Inductive Outcome (A : Type) : Type :=
| Commit (a : A)
| Rollback (a : A).

(** [let txn = db.begin_write()?; body; txn.commit()?] *)
Definition write_txn {A} (body : TxnM (Outcome A)) : WorldM A := λ w,
  match body (begin_write w) with
  | (Ok (Commit _ a), t) => (Ok a, commit t w)
  | (Ok (Rollback _ a), t) => (Ok a, rollback t w)
  | (Err e, t) => (Err e, rollback t w)
  end.

(** ** Lemmas *)

Lemma commit_db t w : db (commit t w) = tables t.
Proof.
  unfold commit. set (w0 := {| db := tables t |}). change (tables t) with (db w0).
  generalize w0. clear w0. induction (after_commit t) as [|cb l IH]; intros w0; simpl; [done|].
  rewrite IH. by destruct cb.
Qed.

Lemma commit_ext t w : w_ext (commit t w) = ext t.
Proof.
  unfold commit. set (w0 := {| db := tables t |}). change (ext t) with (w_ext w0).
  generalize w0. clear w0. induction (after_commit t) as [|cb l IH]; intros w0; simpl; [done|].
  rewrite IH. by destruct cb.
Qed.

(** What a commit announces, by the last callback of each kind. *)
Lemma commit_push t w cb :
  commit (push_after_commit cb t) w = run_callback (commit t w) cb.
Proof. unfold commit; simpl. by rewrite foldl_app. Qed.

Lemma watch_push_dirty t w c : watch_tx (commit (push_after_commit (SendDirty c) t) w) = c.
Proof. by rewrite commit_push. Qed.
Lemma history_push_dirty t w c :
  history_tx (commit (push_after_commit (SendDirty c) t) w) = history_tx (commit t w).
Proof. by rewrite commit_push. Qed.
Lemma watch_push_history t w i :
  watch_tx (commit (push_after_commit (SendHistory i) t) w) = watch_tx (commit t w).
Proof. by rewrite commit_push. Qed.
Lemma history_push_history t w i :
  history_tx (commit (push_after_commit (SendHistory i) t) w) = i.
Proof. by rewrite commit_push. Qed.

Lemma commit_watch_ext t t' w :
  after_commit t = after_commit t' →
  watch_tx (commit t w) = watch_tx (commit t' w) ∧
  history_tx (commit t w) = history_tx (commit t' w).
Proof.
  unfold commit. intros ->.
  set (w1 := {| db := tables t |}). set (w2 := {| db := tables t' |}).
  assert (watch_tx w1 = watch_tx w2 ∧ history_tx w1 = history_tx w2) as Heq by done.
  revert Heq. generalize w1 w2. clear w1 w2.
  induction (after_commit t') as [|cb l IH]; intros w1 w2 Heq; simpl; [done|].
  apply IH. by destruct cb, Heq.
Qed.

Lemma watch_set_tables x t w : watch_tx (commit (set_tables x t) w) = watch_tx (commit t w).
Proof. by apply commit_watch_ext. Qed.
Lemma history_set_tables x t w :
  history_tx (commit (set_tables x t) w) = history_tx (commit t w).
Proof. by apply commit_watch_ext. Qed.
Lemma watch_set_ext x t w : watch_tx (commit (set_ext x t) w) = watch_tx (commit t w).
Proof. by apply commit_watch_ext. Qed.
Lemma history_set_ext x t w :
  history_tx (commit (set_ext x t) w) = history_tx (commit t w).
Proof. by apply commit_watch_ext. Qed.

(** A transaction that fails leaves the committed tables as they were. *)
Lemma write_txn_error {A} (body : TxnM (Outcome A)) w e w' :
  write_txn body w = (Err e, w') →
  db w' = db w ∧ watch_tx w' = watch_tx w ∧ history_tx w' = history_tx w.
Proof.
  unfold write_txn. destruct (body (begin_write w)) as [[[a|a]|e'] t]; by intros [= <- <-].
Qed.
End tables.

#[export] Hint Rewrite @watch_push_dirty @history_push_dirty @watch_push_history
  @history_push_history @watch_set_tables @history_set_tables @watch_set_ext
  @history_set_ext @commit_db : watch.

Arguments Commit {A} a.
Arguments Rollback {A} a.

(** [Holder::with_content(FailedJobTableEntry {..})], read back: the table keeps
    whole seconds. *)
Definition holder_failed_job (e : FailedJobTableEntry) : FailedJobTableEntry :=
  {| backoff_until := UnixTime.from_secs (UnixTime.as_secs (backoff_until e));
     failure_count := failure_count e |}.
