(* ===== verification/Dirty.v ===== *)
(** * Dirty paths and the job log

    [crate/realize-storage/src/arena/engine.rs], the part that lives in the
    database: paths are marked dirty under an increasing counter, the counter
    identifies the job of the path, and jobs are reported done or failed.

    [dirty_inv] ties the tables together (paths and counters are in bijection,
    counters never exceed the last one, failures belong to live counters).  The
    operations are the steps of [dirty_step]; every reachable state satisfies
    the invariant. *)
From S2P Require Import Prelude Redb Path Types Db.
Local Open Scope N_scope.

(** [for counter in beg..end] *)
Definition n_range (b e : N) : list N := (λ i, b + N.of_nat i) <$> seq 0 (N.to_nat (e - b)).

Lemma elem_of_n_range b e c : c ∈ n_range b e ↔ b ≤ c ∧ c < e.
Proof.
  unfold n_range. rewrite list_elem_of_fmap. setoid_rewrite elem_of_seq. split.
  - intros (i & -> & ?). lia.
  - intros ?. exists (N.to_nat (c - b)). lia.
Qed.

Section dirty.
Context {R : Redb}.
Implicit Types (d : DirtyTables) (p : Path) (c : N).

(** ** Operations *)

Definition last_counter d : N := default 0 (tbl_get () (dirty_counter_table d)).

(** The table changes of [DirtyPaths::mark_dirty]. *)
Definition mark_dirty_tables p d : DirtyTables :=
  let counter := u64_add (last_counter d) 1 in
  let d := set_dirty_counter_table (tbl_insert () counter (dirty_counter_table d)) d in
  let d := set_dirty_log_table (tbl_insert counter (as_str p) (dirty_log_table d)) d in
  let prev := tbl_get (as_str p) (dirty_table d) in
  let d := set_dirty_table (tbl_insert (as_str p) counter (dirty_table d)) d in
  match prev with
  | Some counter =>
      let d := set_dirty_log_table (tbl_remove counter (dirty_log_table d)) d in
      set_failed_job_table (tbl_remove counter (failed_job_table d)) d
  | None => d
  end.

(** [DirtyPaths::mark_dirty] *)
Definition mark_dirty p (t : Txn) : Txn :=
  let counter := u64_add (last_counter (dirty (tables t))) 1 in
  push_after_commit (SendDirty counter)
    (set_tables (set_dirty (mark_dirty_tables p (dirty (tables t))) (tables t)) t).

(** [Engine::job_done] *)
Definition job_done (job_id : N) d : DirtyTables :=
  match tbl_get job_id (dirty_log_table d) with
  | Some removed =>
      let d := set_dirty_log_table (tbl_remove job_id (dirty_log_table d)) d in
      let d := set_failed_job_table (tbl_remove job_id (failed_job_table d)) d in
      set_dirty_table (tbl_remove removed (dirty_table d)) d
  | None => d
  end.

Definition u32_add1 (n : N) : N := (n + 1) mod 4294967296.

(** [Engine::job_failed], with the time it reads. *)
Definition job_failed (strategy : N → option Duration) (now : UnixTime) (job_id : N) d
  : option UnixTime * DirtyTables :=
  match tbl_get job_id (dirty_log_table d) with
  | None => (None, d)
  | Some path =>
      let count := match tbl_get job_id (failed_job_table d) with
                   | Some existing => u32_add1 (failure_count existing)
                   | None => 1
                   end in
      match strategy count with
      | None =>
          let d := set_dirty_log_table (tbl_remove job_id (dirty_log_table d)) d in
          let d := set_failed_job_table (tbl_remove job_id (failed_job_table d)) d in
          (None, set_dirty_table (tbl_remove path (dirty_table d)) d)
      | Some delay =>
          let until := UnixTime.plus now delay in
          (Some until,
           set_failed_job_table
             (tbl_insert job_id
                (holder_failed_job {| failure_count := count; backoff_until := until |})
                (failed_job_table d)) d)
      end
  end.

(** [Engine::job_finished]; [None] stands for a failure of the job. *)
Definition job_finished strategy now (job_id : N) (status : option JobStatus) d : DirtyTables :=
  match status with
  | Some Done => job_done job_id d
  | Some Abandoned => job_done job_id d
  | None => (job_failed strategy now job_id d).2
  end.

Definition delete_one d (counter : N) : DirtyTables :=
  let prev := tbl_get counter (dirty_log_table d) in
  let d := set_dirty_log_table (tbl_remove counter (dirty_log_table d)) d in
  let d := match prev with
           | Some prev => set_dirty_table (tbl_remove prev (dirty_table d)) d
           | None => d
           end in
  set_failed_job_table (tbl_remove counter (failed_job_table d)) d.

(** [Engine::delete_range] *)
Definition delete_range (b e : N) d : DirtyTables :=
  if negb (b <? e) then d else foldl delete_one d (n_range b e).

Definition is_dirty d p : bool :=
  match tbl_get (as_str p) (dirty_table d) with Some _ => true | None => false end.
Definition get_dirty d p : option N := tbl_get (as_str p) (dirty_table d).
Definition is_failed d (job_id : N) : bool :=
  match tbl_get job_id (failed_job_table d) with Some _ => true | None => false end.

Definition clear_dirty p d : DirtyTables :=
  let prev := tbl_get (as_str p) (dirty_table d) in
  let d := set_dirty_table (tbl_remove (as_str p) (dirty_table d)) d in
  match prev with
  | Some counter =>
      let d := set_dirty_log_table (tbl_remove counter (dirty_log_table d)) d in
      set_failed_job_table (tbl_remove counter (failed_job_table d)) d
  | None => d
  end.

(** [take_dirty]: the loop skips paths that do not parse. *)
Fixpoint take_dirty_loop (fuel : nat) d : option (option (Path * N) * DirtyTables) :=
  match fuel with
  | O => None
  | S fuel =>
      match tbl_pop_first (dirty_log_table d) with
      | (None, log) => Some (None, set_dirty_log_table log d)
      | (Some (counter, path), log) =>
          let d := set_dirty_log_table log d in
          let d := set_dirty_table (tbl_remove path (dirty_table d)) d in
          match Path.parse path with
          | Ok p => Some (Some (p, counter), d)
          | Err _ => take_dirty_loop fuel d
          end
      end
  end.
Definition take_dirty d : option (option (Path * N) * DirtyTables) :=
  take_dirty_loop (S (length (tbl_iter (dirty_log_table d)))) d.

(** [next_retry]: the failed job with the earliest time. *)
Definition next_retry d : option (UnixTime * N) :=
  foldl (λ ret e,
    match ret with
    | Some (t, _) => if UnixTime.leb t (backoff_until e.2) then ret
                     else Some (backoff_until e.2, e.1)
    | None => Some (backoff_until e.2, e.1)
    end) None (tbl_iter (failed_job_table d)).

(** The scan of [wait_until_next_backoff]. *)
Definition backoff_step (lower_bound : option UnixTime) (acc : UnixTime * list N)
  (e : N * FailedJobTableEntry) : UnixTime * list N :=
  let '(earliest, counters) := acc in
  let backoff := backoff_until e.2 in
  if match lower_bound with Some lb => UnixTime.leb backoff lb | None => false end then acc
  else if UnixTime.ltb earliest backoff then acc
  else if UnixTime.ltb backoff earliest then (backoff, [e.1])
  else (earliest, counters ++ [e.1]).
Definition next_backoff (lower_bound : option UnixTime) d : option (UnixTime * list N) :=
  let '(earliest, counters) :=
    foldl (backoff_step lower_bound) (UnixTime.MAX, []) (tbl_iter (failed_job_table d)) in
  if UnixTime.ltb earliest UnixTime.MAX then Some (earliest, counters) else None.

(** ** Invariant *)

Record dirty_inv d : Prop := {
  inv_log : ∀ (p : string) c, tbl_get p (dirty_table d) = Some c → tbl_get c (dirty_log_table d) = Some p;
  inv_dirty : ∀ (p : string) c, tbl_get c (dirty_log_table d) = Some p → tbl_get p (dirty_table d) = Some c;
  inv_counter : ∀ (p : string) c, tbl_get c (dirty_log_table d) = Some p → 1 ≤ c ∧ c ≤ last_counter d;
  inv_failed : ∀ c f, tbl_get c (failed_job_table d) = Some f →
                      is_Some (tbl_get c (dirty_log_table d));
  inv_u64 : last_counter d < u64_modulus;
}.

Inductive dirty_step (strategy : N → option Duration) : relation DirtyTables :=
| step_mark d p : last_counter d + 1 < u64_modulus →
    dirty_step strategy d (mark_dirty_tables p d)
| step_finished d now id status :
    dirty_step strategy d (job_finished strategy now id status d)
| step_delete d b e : dirty_step strategy d (delete_range b e d)
| step_clear d p : dirty_step strategy d (clear_dirty p d).

(** ** Lemmas *)

Context `{!RedbLaws R}.

Lemma dirty_inv_empty : dirty_inv dirty_empty.
Proof.
  split; simpl; try (intros *; rewrite get_empty; done).
  unfold last_counter; simpl. by rewrite get_empty.
Qed.

(** Removing a live counter and its path. *)
Lemma remove_inv d c (p : string) :
  dirty_inv d → tbl_get c (dirty_log_table d) = Some p →
  dirty_inv (set_dirty_table (tbl_remove p (dirty_table d))
               (set_failed_job_table (tbl_remove c (failed_job_table d))
                  (set_dirty_log_table (tbl_remove c (dirty_log_table d)) d))).
Proof.
  intros [H1 H2 H3 H4 H5] Hc. split; simpl; [..|exact H5].
  - intros p' c'. rewrite !get_remove. case_decide; [done|]. intros Hp'.
    rewrite decide_False; [auto|]. intros ->. apply H1 in Hp'. congruence.
  - intros p' c'. rewrite !get_remove. case_decide; [done|]. intros Hp'.
    rewrite decide_False; [auto|]. intros ->. apply H2 in Hp', Hc. congruence.
  - intros p' c'. rewrite get_remove. case_decide; [done|]. apply H3.
  - intros c' f. rewrite !get_remove. case_decide; [done|]. apply H4.
Qed.

Lemma mark_dirty_get d p :
  dirty_inv d → last_counter d + 1 < u64_modulus →
  let d' := mark_dirty_tables p d in
  last_counter d' = last_counter d + 1 ∧
  (∀ q, tbl_get q (dirty_table d') =
        if decide (q = as_str p) then Some (last_counter d + 1) else tbl_get q (dirty_table d)) ∧
  (∀ c, tbl_get c (dirty_log_table d') =
        if decide (c = last_counter d + 1) then Some (as_str p)
        else if decide (tbl_get c (dirty_log_table d) = Some (as_str p)) then None
        else tbl_get c (dirty_log_table d)) ∧
  (∀ c, tbl_get c (failed_job_table d') =
        if decide (tbl_get c (dirty_log_table d) = Some (as_str p)) then None
        else tbl_get c (failed_job_table d)).
Proof.
  intros [H1 H2 H3 H4 H5] Hlt. unfold mark_dirty_tables. rewrite u64_add_small by done.
  simpl. destruct (tbl_get (as_str p) (dirty_table d)) as [c0|] eqn:E; simpl;
    unfold last_counter at 1; simpl; rewrite get_insert_eq; (split; [done|]).
  - pose proof (H1 _ _ E) as Hlog. pose proof (H3 _ _ Hlog) as Hc0.
    assert (∀ c, tbl_get c (dirty_log_table d) = Some (as_str p) → c = c0) as Huniq
      by (intros c Hc%H2; congruence).
    split_and!; intros k; key_cases; by exfalso; eauto.
  - assert (∀ c, tbl_get c (dirty_log_table d) ≠ Some (as_str p)) as Hnone
      by (intros c Hc%H2; congruence).
    split_and!; intros k; key_cases; by exfalso; eapply Hnone.
Qed.

Lemma mark_dirty_inv d p :
  dirty_inv d → last_counter d + 1 < u64_modulus → dirty_inv (mark_dirty_tables p d).
Proof.
  intros Hinv Hlt. destruct (mark_dirty_get d p Hinv Hlt) as (Hl & Hd & Hlog & Hf).
  destruct Hinv as [H1 H2 H3 H4 H5]. split; rewrite ?Hl; [..|done].
  - intros q c. rewrite Hd, Hlog. case_decide as Hq.
    + intros [= <-]. subst. by rewrite decide_True.
    + intros Hc%H1. pose proof (H3 _ _ Hc). rewrite decide_False by lia.
      rewrite decide_False; [done|]. congruence.
  - intros q c. rewrite Hd, Hlog. case_decide as Hc.
    + intros [= <-]. subst. by rewrite decide_True.
    + case_decide as Hold; [done|]. intros Hq. rewrite decide_False; [auto|]. congruence.
  - intros q c. rewrite Hlog. repeat case_decide; try done.
    + intros _. lia.
    + intros Hq%H3. lia.
  - intros c f. rewrite Hf, Hlog. case_decide as Hc; [done|]. intros Hfc%H4.
    case_decide; done.
Qed.

Lemma job_done_inv d c : dirty_inv d → dirty_inv (job_done c d).
Proof.
  intros Hinv. unfold job_done. destruct (tbl_get c (dirty_log_table d)) as [p|] eqn:E; [|done].
  exact (remove_inv d c p Hinv E).
Qed.

Lemma job_failed_inv strategy now d c :
  dirty_inv d → dirty_inv (job_failed strategy now c d).2.
Proof.
  intros Hinv. unfold job_failed. destruct (tbl_get c (dirty_log_table d)) as [p|] eqn:E; [|done].
  destruct (strategy _) as [delay|]; simpl; [|exact (remove_inv d c p Hinv E)].
  destruct Hinv as [H1 H2 H3 H4 H5]. split; simpl; auto.
  intros c' f. rewrite get_insert. case_decide; [|by apply H4]. subst. by rewrite E.
Qed.

Lemma clear_dirty_inv d p : dirty_inv d → dirty_inv (clear_dirty p d).
Proof.
  intros Hinv. unfold clear_dirty.
  destruct (tbl_get (as_str p) (dirty_table d)) as [c|] eqn:E; simpl.
  - exact (remove_inv d c (as_str p) Hinv (inv_log d Hinv _ _ E)).
  - destruct Hinv as [H1 H2 H3 H4 H5]. split; simpl; auto.
    + intros q c. rewrite get_remove. case_decide; [done|]. auto.
    + intros q c Hc. rewrite get_remove. apply H2 in Hc. rewrite decide_False; [done|]. congruence.
Qed.

Lemma delete_one_get d c :
  dirty_inv d →
  dirty_inv (delete_one d c) ∧
  last_counter (delete_one d c) = last_counter d ∧
  (∀ c', tbl_get c' (dirty_log_table (delete_one d c)) =
         if decide (c' = c) then None else tbl_get c' (dirty_log_table d)) ∧
  (∀ c', tbl_get c' (failed_job_table (delete_one d c)) =
         if decide (c' = c) then None else tbl_get c' (failed_job_table d)).
Proof.
  intros Hinv. unfold delete_one.
  destruct (tbl_get c (dirty_log_table d)) as [p|] eqn:E; simpl.
  - split; [exact (remove_inv d c p Hinv E)|]. split; [done|].
    split; intros c'; by rewrite get_remove.
  - destruct Hinv as [H1 H2 H3 H4 H5]. split.
    + split; simpl; auto; intros *; rewrite ?get_remove; repeat case_decide; subst; try done;
        eauto.
      intros Hc%H1. congruence.
    + split; [done|]. split; intros c'; by rewrite get_remove.
Qed.

Lemma delete_range_get d b e :
  dirty_inv d →
  dirty_inv (delete_range b e d) ∧
  last_counter (delete_range b e d) = last_counter d ∧
  (∀ c, tbl_get c (dirty_log_table (delete_range b e d)) =
        if decide (b ≤ c ∧ c < e) then None else tbl_get c (dirty_log_table d)) ∧
  (∀ c, tbl_get c (failed_job_table (delete_range b e d)) =
        if decide (b ≤ c ∧ c < e) then None else tbl_get c (failed_job_table d)).
Proof.
  intros Hinv. unfold delete_range. destruct (N.ltb_spec b e) as [Hlt|Hge]; simpl.
  2:{ split_and!; [done|done|..]; intros c; rewrite decide_False by lia; done. }
  assert (∀ l, dirty_inv (foldl delete_one d l) ∧
               last_counter (foldl delete_one d l) = last_counter d ∧
               (∀ c, tbl_get c (dirty_log_table (foldl delete_one d l)) =
                     if decide (c ∈ l) then None else tbl_get c (dirty_log_table d)) ∧
               (∀ c, tbl_get c (failed_job_table (foldl delete_one d l)) =
                     if decide (c ∈ l) then None else tbl_get c (failed_job_table d))) as H.
  { intros l. clear Hlt; revert d Hinv. induction l as [|x l IH]; intros d Hinv; cbn [foldl].
    { split_and!; [done|done|..]; intros c; rewrite decide_False by set_solver; done. }
    destruct (delete_one_get d x Hinv) as (Hi & Hl & Hlog & Hf).
    destruct (IH _ Hi) as (Hi' & Hl' & Hlog' & Hf').
    split_and!; [done|congruence|..]; intros c; rewrite ?Hlog', ?Hf', ?Hlog, ?Hf;
      repeat case_decide; set_solver. }
  destruct (H (n_range b e)) as (Hi & Hl & Hlog & Hf).
  split_and!; [done|done|..]; intros c; rewrite ?Hlog, ?Hf; apply decide_ext, elem_of_n_range.
Qed.

(** From [d] to [d'], exactly the paths of [l] were marked dirty. *)
Record marked_dirty (l : list string) d d' : Prop := {
  md_in : ∀ k, k ∈ l → ∃ c, tbl_get k (dirty_table d') = Some c ∧ last_counter d < c;
  md_out : ∀ k, k ∉ l → tbl_get k (dirty_table d') = tbl_get k (dirty_table d);
  md_counter : last_counter d' = last_counter d + N.of_nat (length l);
}.

Lemma marked_dirty_nil d : marked_dirty [] d d.
Proof. split; [|done|simpl; lia]. intros k Hk. by apply not_elem_of_nil in Hk. Qed.

Lemma marked_dirty_one d p :
  dirty_inv d → last_counter d + 1 < u64_modulus →
  marked_dirty [as_str p] d (mark_dirty_tables p d).
Proof.
  intros Hinv Hlt. destruct (mark_dirty_get d p Hinv Hlt) as (Hl & Hd & _).
  split; [intros k ->%list_elem_of_singleton|intros k Hk|done].
  - rewrite Hd, decide_True by done. eexists. split; [done|lia].
  - rewrite Hd, decide_False; [done|]. intros ->. apply Hk. by left.
Qed.

Lemma marked_dirty_app l1 l2 d1 d2 d3 :
  marked_dirty l1 d1 d2 → marked_dirty l2 d2 d3 → marked_dirty (l1 ++ l2) d1 d3.
Proof.
  intros [I1 O1 C1] [I2 O2 C2]. split.
  - intros k Hk. destruct (decide (k ∈ l2)) as [H2|H2].
    + destruct (I2 k H2) as (c & Hc & ?). exists c. split; [done|lia].
    + apply elem_of_app in Hk as [Hk|]; [|done]. rewrite O2 by done. auto.
  - intros k Hk. rewrite O2, O1; [done|set_solver..].
  - rewrite C2, C1, length_app. lia.
Qed.

Lemma dirty_step_inv strategy d d' : dirty_step strategy d d' → dirty_inv d → dirty_inv d'.
Proof.
  destruct 1 as [d p Hlt|d now id [[]|]|d b e|d p]; intros Hinv; simpl.
  - by apply mark_dirty_inv.
  - by apply job_done_inv.
  - by apply job_done_inv.
  - by apply job_failed_inv.
  - by apply delete_range_get.
  - by apply clear_dirty_inv.
Qed.

(** ** Properties *)

(** C34: in every state reachable from the empty database by marking paths
    dirty, finishing jobs in any way, deleting counter ranges and clearing
    marks, dirty paths and logged counters are in bijection, no counter exceeds
    the last one allocated, and every recorded failure belongs to a logged
    counter. *)
Theorem dirty_reachable_inv strategy d
  (Hreach : rtc (dirty_step strategy) dirty_empty d) : dirty_inv d.
Proof.
  revert Hreach. generalize dirty_inv_empty. generalize (dirty_empty (R := R)).
  intros d0 H0 Hreach. induction Hreach as [|d0 d1 d2 Hstep _ IH]; [done|].
  by eapply IH, dirty_step_inv.
Qed.

(** Marking a path dirty gives it a counter above every other, drops its
    previous counter and failure, leaves every other path alone, and announces
    the new counter when the transaction commits. *)
Theorem mark_dirty_spec (p : Path) (t : Txn) (w : World)
  (Hinv : dirty_inv (dirty (tables t)))
  (Hlt : last_counter (dirty (tables t)) + 1 < u64_modulus) :
  let d := dirty (tables t) in
  let t' := mark_dirty p t in
  let d' := dirty (tables t') in
  dirty_inv d' ∧
  get_dirty d' p = Some (last_counter d + 1) ∧
  (∀ q, q ≠ p → get_dirty d' q = get_dirty d q) ∧
  (∀ c q, tbl_get c (dirty_log_table d) = Some q → c < last_counter d + 1) ∧
  (∀ c, get_dirty d p = Some c →
        tbl_get c (dirty_log_table d') = None ∧ is_failed d' c = false) ∧
  watch_tx (commit t' w) = last_counter d + 1 ∧
  db (commit t' w) = tables t'.
Proof.
  simpl. set (d := dirty (tables t)) in *.
  destruct (mark_dirty_get d p Hinv Hlt) as (Hl & Hd & Hlog & Hf).
  split_and!.
  - by apply mark_dirty_inv.
  - unfold get_dirty. rewrite Hd. by rewrite decide_True.
  - intros [q] Hq. unfold get_dirty. simpl. rewrite Hd. rewrite decide_False; [done|].
    intros ->. by destruct p, Hq.
  - intros c q Hc%(inv_counter d Hinv). lia.
  - intros c Hc%(inv_log d Hinv). unfold is_failed. rewrite Hlog, Hf.
    pose proof (inv_counter d Hinv _ _ Hc). rewrite decide_False by lia.
    by rewrite !decide_True.
  - unfold commit; simpl. rewrite foldl_app. simpl. fold d. by rewrite u64_add_small.
  - apply commit_db.
Qed.

(** Finishing a job clears the dirty mark of its path, and of nothing
    else, unless the path was marked dirty again after the job was created: a
    job that is no longer in the log changes nothing, however it ends. *)
Theorem job_finished_spec strategy (now : UnixTime) (id : N) (p : Path) d
  (Hinv : dirty_inv d) (Hlt : last_counter d + 1 < u64_modulus)
  (Hjob : get_dirty d p = Some id) :
  (∀ st, is_dirty (job_done id d) p = false ∧
         (∀ q, q ≠ p → get_dirty (job_done id d) q = get_dirty d q) ∧
         job_finished strategy now id (Some st) d = job_done id d) ∧
  (∀ st, job_finished strategy now id st (mark_dirty_tables p d) = mark_dirty_tables p d) ∧
  (∀ until d', job_failed strategy now id d = (Some until, d') →
     get_dirty d' p = Some id ∧
     ∃ f, tbl_get id (failed_job_table d') = Some f ∧
          as_duration (backoff_until f) ≤ as_duration until ∧
          as_duration until < as_duration (backoff_until f) + UnixTime.nanos_per_sec).
Proof.
  pose proof (inv_log d Hinv _ _ Hjob) as Hlog.
  assert (tbl_get id (dirty_log_table (mark_dirty_tables p d)) = None) as Hstale.
  { destruct (mark_dirty_get d p Hinv Hlt) as (_ & _ & Hl & _). rewrite Hl.
    pose proof (inv_counter d Hinv _ _ Hlog). rewrite decide_False by lia. by rewrite decide_True. }
  split_and!.
  - intros st. unfold is_dirty, get_dirty, job_done. rewrite Hlog. simpl.
    split_and!; [by rewrite get_remove_eq| |by destruct st; simpl; unfold job_done; rewrite Hlog].
    intros [q] Hq. apply get_remove_ne. intros E. apply Hq. destruct p; simpl in *. by subst.
  - intros [[]|]; simpl; unfold job_done, job_failed; by rewrite Hstale.
  - intros until d'. unfold job_failed. rewrite Hlog.
    destruct (strategy _) as [delay|]; [|done]. intros [= <- <-]. split; [done|]. simpl.
    rewrite get_insert_eq. eexists; split; [done|]. simpl.
    apply UnixTime.as_secs_bound.
Qed.

(** Deleting a range of counters removes exactly the paths and failures
    logged under it; paths marked dirty at or above its end are kept. *)
Theorem delete_range_spec (b e : N) d (Hinv : dirty_inv d) :
  dirty_inv (delete_range b e d) ∧
  (∀ p c, get_dirty (delete_range b e d) p = Some c ↔
          get_dirty d p = Some c ∧ ¬ (b ≤ c ∧ c < e)) ∧
  (∀ c, is_failed (delete_range b e d) c = true ↔
        is_failed d c = true ∧ ¬ (b ≤ c ∧ c < e)).
Proof.
  destruct (delete_range_get d b e Hinv) as (Hi & _ & Hlog & Hf). split_and!; [done|..].
  - intros p c. unfold get_dirty. split.
    + intros Hc%(inv_log _ Hi). rewrite Hlog in Hc. case_decide; [done|].
      split; [by apply (inv_dirty d Hinv)|done].
    + intros [Hc%(inv_log d Hinv) Hn]. apply (inv_dirty _ Hi). rewrite Hlog.
      by rewrite decide_False.
  - intros c. unfold is_failed. rewrite Hf. case_decide; split; [done|tauto|tauto|tauto].
Qed.
End dirty.

(** ** Witnesses *)
Section witnesses.
#[local] Existing Instance gmap_redb.

Definition foo : Path := mkPath "foo".
Definition bar : Path := mkPath "bar/x".
Definition marked : DirtyTables := mark_dirty_tables bar (mark_dirty_tables foo dirty_empty).
Definition retry (n : N) : option Duration := if n <? 3 then Some 60000000000 else None.
Definition w0 : World :=
  {| db := arena_empty; w_ext := {| fs := ∅; global := global_empty |};
     watch_tx := 0; history_tx := 0 |}.
Definition t_marked : Txn := set_tables (set_dirty marked arena_empty) (begin_write w0).

Lemma marked_reachable : rtc (dirty_step retry) dirty_empty marked.
Proof.
  apply (rtc_l _ _ (mark_dirty_tables foo dirty_empty)); [by apply step_mark|].
  apply rtc_once. by apply step_mark.
Qed.

Lemma marked_inv : dirty_inv marked.
Proof. apply mark_dirty_inv; [apply mark_dirty_inv; [apply dirty_inv_empty|]|]; done. Qed.

Example dirty_reachable_inv_witness :
  get_dirty marked bar = Some 2 ∧ dirty_inv (job_done 1 marked).
Proof.
  split; [reflexivity|]. apply (dirty_reachable_inv retry).
  eapply rtc_r; [apply marked_reachable|].
  apply (step_finished retry marked UnixTime.ZERO 1 (Some Done)).
Defined.

Example mark_dirty_spec_witness :
  let d' := dirty (tables (mark_dirty foo t_marked)) in
  get_dirty d' foo = Some 3 ∧ tbl_get 1 (dirty_log_table d') = None ∧
  watch_tx (commit (mark_dirty foo t_marked) w0) = 3.
Proof.
  destruct (mark_dirty_spec foo t_marked w0 marked_inv eq_refl) as (_ & H1 & _ & _ & H2 & H3 & _).
  split; [exact H1|]. split; [exact (proj1 (H2 1 eq_refl))|exact H3].
Defined.

Example job_finished_spec_witness :
  is_dirty (job_done 1 marked) foo = false ∧
  get_dirty (job_done 1 marked) bar = Some 2 ∧
  job_finished retry UnixTime.ZERO 1 (Some Done) (mark_dirty_tables foo marked) =
    mark_dirty_tables foo marked.
Proof.
  destruct (job_finished_spec retry UnixTime.ZERO 1 foo marked marked_inv eq_refl eq_refl)
    as (H1 & H2 & _).
  destruct (H1 Done) as (H3 & H4 & _).
  split; [exact H3|]. split; [exact (H4 bar ltac:(done))|exact (H2 (Some Done))].
Defined.

Example delete_range_spec_witness :
  dirty_inv (delete_range 1 2 marked) ∧
  (get_dirty (delete_range 1 2 marked) bar = Some 2 ↔
   get_dirty marked bar = Some 2 ∧ ¬ (1 ≤ 2 ∧ 2 < 2)).
Proof.
  destruct (delete_range_spec 1 2 marked marked_inv) as (H1 & H2 & _).
  split; [exact H1|exact (H2 bar 2)].
Defined.
End witnesses.
