(* ===== verification/InodeAllocator.v ===== *)
(** * Inode allocation

    [crate/realize-storage/src/global/inode_allocator.rs]: the global database
    hands out consecutive ranges of inodes to arenas; an arena takes its inodes
    one by one from its current range, which it keeps in its own database.

    A range is recorded by its last inode, so the owner of an inode is the first
    range that ends at or after it ([owner]).  [alloc_inv] says that every
    arena's current range is one of its own; an allocation gives an inode that
    the arena owns and that is above all those it had. *)
From stdpp Require Import functions.
From S2P Require Import Prelude Redb Path Types Db.
Local Open Scope N_scope.
Local Open Scope realize_scope.

(** ** The two-way map of the crate bimap *)

Class Bimap : Type := {
  bimap : Type;
  bimap_new : bimap;
  get_by_left : bimap → Arena → option N;
  get_by_right : bimap → N → option Arena;
  bimap_insert : Arena → N → bimap → bimap;
}.

(** A pair is found from both sides, and inserting one drops the pairs that share
    a side with it. *)
Class BimapLaws (B : Bimap) : Prop := {
  left_new : ∀ a, get_by_left bimap_new a = None;
  left_right : ∀ m a n, get_by_left m a = Some n ↔ get_by_right m n = Some a;
  left_insert : ∀ m a n a',
    get_by_left (bimap_insert a n m) a' =
      if decide (a' = a) then Some n
      else if decide (get_by_left m a' = Some n) then None else get_by_left m a';
}.

(** ** Operations *)

Module InodeAllocator.
Section allocator.
Context {R : Redb} {B : Bimap}.

Definition ROOT_INODE : N := 1.

Abbreviation GlobalM := (StateM GlobalTables StorageError).

Definition arena_root (arena_roots : bimap) (arena : Arena) : option N :=
  get_by_left arena_roots arena.

(** [do_alloc_inode_range] *)
Definition do_alloc_inode_range (assigned_root range_size : N) : GlobalM (N * N) :=
  let* range_table := sget inode_range_allocation_table in
  let last_end := default 1 (fst <$> tbl_last range_table) in
  let new_range_start := Id.plus last_end 1 in
  let new_range_end := Id.plus new_range_start range_size in
  do* smodify (set_inode_range_allocation_table
                 (tbl_insert (Id.minus new_range_end 1) assigned_root range_table)) in
  sret (new_range_start, new_range_end).

(** [allocate_inode], on a state that holds the table of the current range *)
Definition allocate_inode {S} (get : S → table () (N * N)) (put : table () (N * N) → S → S)
  (alloc_inode_range : StateM S StorageError (N * N)) : StateM S StorageError N :=
  let* current_range := sget (λ s, tbl_get () (get s)) in
  let new_range :=
    let* '(start, end_) := alloc_inode_range in
    do* smodify (λ s, put (tbl_insert () (start, end_) (get s)) s) in
    sret start in
  match current_range with
  | Some (current, end_) =>
      if Id.plus current 1 <? end_ then
        let inode := Id.plus current 1 in
        do* smodify (λ s, put (tbl_insert () (inode, end_) (get s)) s) in
        sret inode
      else new_range
  | None => new_range
  end.

Definition allocate_global_inode : GlobalM N :=
  allocate_inode current_inode_range_table set_current_inode_range_table
    (do_alloc_inode_range ROOT_INODE 100).

(** The range is committed to the global database at once, whatever becomes of
    the arena's own transaction. *)
Definition allocate_inode_range (arena_roots : bimap) (arena : Arena) (range_size : N)
  : TxnM (N * N) :=
  let* arena_root := slift (ok_or (UnknownArena arena) (arena_root arena_roots arena)) in
  λ t, match do_alloc_inode_range arena_root range_size (global (ext t)) with
       | (Ok ret, g) => (Ok ret, set_global g t)
       | (Err e, _) => (Err e, t)
       end.

Definition range_table_of (t : Txn) : table () (N * N) :=
  cache_current_inode_range_table (cache (tables t)).
Definition put_range_table (x : table () (N * N)) (t : Txn) : Txn :=
  set_tables (set_cache (set_cache_current_inode_range_table x (cache (tables t))) (tables t)) t.

Definition allocate_arena_inode (arena_roots : bimap) (arena : Arena) : TxnM N :=
  allocate_inode range_table_of put_range_table (allocate_inode_range arena_roots arena 10000).

(** [arena_for_inode] *)
Fixpoint scan_ranges (arena_roots : bimap) (entries : list (N * N)) : sresult (option Arena) :=
  match entries with
  | [] => Err NotFound
  | (_, root) :: entries =>
      if root =? ROOT_INODE then Ok None
      else match get_by_right arena_roots root with
           | Some arena => Ok (Some arena)
           | None => scan_ranges arena_roots entries
           end
  end.
Definition arena_for_inode (arena_roots : bimap) (g : GlobalTables) (inode : N)
  : sresult (option Arena) :=
  if inode =? ROOT_INODE then Ok None
  else match get_by_right arena_roots inode with
       | Some arena => Ok (Some arena)
       | None => scan_ranges arena_roots
                   (tbl_range (Included inode) Unbounded (inode_range_allocation_table g))
       end.

(** [add_arena]: the transaction on the global database, and the map *)
Definition add_arena (arena : Arena) : StateM (GlobalTables * bimap) StorageError () :=
  λ '(g, arena_roots),
    let body : GlobalM N :=
      let* arena_table := sget arena_table in
      match tbl_get (arena_name arena) arena_table with
      | Some v => sret v
      | None =>
          let* inode := allocate_global_inode in
          do* smodify (λ g, set_arena_table (tbl_insert (arena_name arena) inode (Db.arena_table g)) g) in
          sret inode
      end in
    match body g with
    | (Ok inode, g') => (Ok (), (g', bimap_insert arena inode arena_roots))
    | (Err e, _) => (Err e, (g, arena_roots))
    end.

Definition new (arenas : list Arena) (g : GlobalTables)
  : result StorageError () * (GlobalTables * bimap) :=
  sfor arenas add_arena (g, bimap_new).
End allocator.
End InodeAllocator.
Import InodeAllocator.

Section lemmas.
Context {R : Redb} {B : Bimap} `{!RedbLaws R, !BimapLaws B}.
Implicit Types (g : GlobalTables) (roots : bimap).

(** ** Ranges *)

Definition last_end g : N := default 1 (fst <$> tbl_last (inode_range_allocation_table g)).

(** The range an inode falls in, by the root it was given to. *)
Definition owner g (inode : N) : option N :=
  snd <$> head (tbl_range (Included inode) Unbounded (inode_range_allocation_table g)).

Lemma last_end_spec g k :
  is_Some (tbl_get k (inode_range_allocation_table g)) → k ≤ last_end g.
Proof.
  intros Hk. unfold last_end. destruct (tbl_last _) as [[k' v]|] eqn:E; simpl.
  - by apply tbl_last_greatest in E as [_ E]; apply E.
  - rewrite (tbl_last_None _ E) in Hk. by destruct Hk.
Qed.

Lemma owner_last_end g i r : owner g i = Some r → i ≤ last_end g.
Proof.
  unfold owner. destruct (tbl_range _ _ _) as [|[k v] l] eqn:E; [done|]. intros _.
  assert ((k, v) ∈ tbl_range (Included i) Unbounded (inode_range_allocation_table g)) as Hin
    by (rewrite E; left).
  apply elem_of_range in Hin as [Hk [Hi _]]. simpl in Hi.
  assert (k ≤ last_end g) by (apply last_end_spec; by eexists). lia.
Qed.

(** The global tables after an arena took ranges of inodes. *)
Record global_grows g g' : Prop := {
  gg_owner : ∀ i r, owner g i = Some r → owner g' i = Some r;
  gg_end : last_end g ≤ last_end g';
  gg_arenas : arena_table g' = arena_table g;
  gg_dirs : directory_table g' = directory_table g;
  gg_current : current_inode_range_table g' = current_inode_range_table g;
}.

#[export] Instance global_grows_preorder : PreOrder global_grows.
Proof.
  split; [intros g; by split|]. intros g1 g2 g3 [A1 A2 A3 A4 A5] [B1 B2 B3 B4 B5].
  split; [auto|lia|congruence..].
Qed.

(** What adding a range of [size] inodes for [root] does. *)
Record range_added g g' (root size : N) : Prop := {
  ra_end : last_end g' = last_end g + size;
  ra_old : ∀ i r, owner g i = Some r → owner g' i = Some r;
  ra_new : ∀ i, last_end g < i → i ≤ last_end g + size → owner g' i = Some root;
  ra_arenas : arena_table g' = arena_table g;
  ra_dirs : directory_table g' = directory_table g;
  ra_current : current_inode_range_table g' = current_inode_range_table g;
}.

Lemma range_grows g g' root size : range_added g g' root size → global_grows g g'.
Proof. intros [R1 R2 R3 R4 R5 R6]. split; [done|lia|done..]. Qed.

Lemma do_alloc_inode_range_spec g root size :
  1 ≤ size → last_end g + size + 1 < u64_modulus →
  ∃ g', do_alloc_inode_range root size g = (Ok (last_end g + 1, last_end g + 1 + size), g') ∧
        range_added g g' root size.
Proof.
  intros Hs Hlt. unfold do_alloc_inode_range, sbind, sget, smodify, sret.
  fold (last_end g). unfold Id.plus, Id.minus. rewrite (u64_add_small _ 1) by lia.
  rewrite (u64_add_small _ size) by lia. rewrite u64_sub_small by lia.
  eexists. split; [done|].
  replace (last_end g + 1 + size - 1) with (last_end g + size) by lia.
  set (k := last_end g + size).
  assert (∀ lo, in_range lo Unbounded k →
    tbl_range lo Unbounded (tbl_insert k root (inode_range_allocation_table g)) =
    tbl_range lo Unbounded (inode_range_allocation_table g) ++ [(k, root)]) as Hr.
  { intros lo Hlo. apply range_insert_last; [done|].
    intros k' Hk'%last_end_spec. apply key_lt_le. simpl. lia. }
  split; simpl; [| | |done|done|done].
  - unfold last_end at 1; simpl. rewrite last_spec. unfold tbl_iter. rewrite Hr by done.
    by rewrite last_snoc.
  - intros i r Hi. pose proof (owner_last_end _ _ _ Hi). revert Hi. unfold owner; simpl.
    rewrite Hr by (split; simpl; lia). by destruct (tbl_range _ _ _).
  - intros i Hi Hi'. unfold owner; simpl. rewrite Hr by (split; simpl; lia).
    destruct (tbl_range _ _ _) as [|[k' v] l] eqn:E; [done|].
    assert ((k', v) ∈ tbl_range (Included i) Unbounded (inode_range_allocation_table g)) as Hin
      by (rewrite E; left).
    apply elem_of_range in Hin as [Hk [Hik _]]. simpl in Hik.
    assert (k' ≤ last_end g) by (apply last_end_spec; by eexists). lia.
Qed.

(** ** Allocation *)

(** The current range of an arena whose root is [root]. *)
Definition cur_ok g (root : N) (rt : table () (N * N)) : Prop :=
  ∀ cur end_, tbl_get () rt = Some (cur, end_) →
    1 < cur ∧ cur < end_ ∧ end_ < u64_modulus ∧ ∀ i, cur ≤ i → i < end_ → owner g i = Some root.

(** What an allocation that gives [n] does to the global tables and to the table
    of the current range. *)
Record allocated (root n : N) g g' (rt rt' : table () (N * N)) : Prop := {
  al_owner : owner g' n = Some root;
  al_cur : ∃ end_, tbl_get () rt' = Some (n, end_);
  al_ok : cur_ok g' root rt';
  al_fresh : ∀ cur end_, tbl_get () rt = Some (cur, end_) → cur < n;
  al_old : ∀ i r, owner g i = Some r → owner g' i = Some r;
  al_arenas : arena_table g' = arena_table g;
  al_new : tbl_get () rt = None → last_end g < n;
}.

Lemma allocate_inode_spec {S} (get : S → table () (N * N)) put (glob : S → GlobalTables)
  (alloc : StateM S StorageError (N * N)) (root size : N) (s : S) :
  (∀ rt s, get (put rt s) = rt) → (∀ rt s, glob (put rt s) = glob s) →
  1 ≤ size → last_end (glob s) + size + 1 < u64_modulus → 1 ≤ last_end (glob s) →
  cur_ok (glob s) root (get s) →
  (∃ s', alloc s = (Ok (last_end (glob s) + 1, last_end (glob s) + 1 + size), s') ∧
         range_added (glob s) (glob s') root size ∧ get s' = get s) →
  ∃ n rt' s', allocate_inode get put alloc s = (Ok n, put rt' s') ∧
    allocated root n (glob s) (glob s') (get s) rt' ∧
    (s' = s ∨ alloc s = (Ok (last_end (glob s) + 1, last_end (glob s) + 1 + size), s')).
Proof.
  intros Hgp Hglob Hs Hlt H1 Hcur (s1 & Ha & [R1 R2 R3 R4 R5 R6] & Hget).
  assert (∀ cur end_, tbl_get () (get s) = Some (cur, end_) → cur ≤ last_end (glob s)) as Hle.
  { intros cur end_ E. destruct (Hcur _ _ E) as (_ & ? & _ & Ho).
    apply (owner_last_end _ _ root), Ho; lia. }
  assert (∃ n rt' s', (let* '(start, end_) := alloc in
      do* smodify (λ s, put (tbl_insert () (start, end_) (get s)) s) in sret start) s
      = (Ok n, put rt' s') ∧ allocated root n (glob s) (glob s') (get s) rt' ∧
      alloc s = (Ok (last_end (glob s) + 1, last_end (glob s) + 1 + size), s')) as Hnew.
  { unfold sbind, smodify, sret. rewrite Ha. exists (last_end (glob s) + 1), (tbl_insert ()
      (last_end (glob s) + 1, last_end (glob s) + 1 + size) (get s1)), s1.
    split; [done|]. split; [|done]. split; [apply R3; lia| | | |done|done|lia].
    - eexists. apply get_insert_eq.
    - intros cur end_. rewrite get_insert_eq. intros [= <- <-]. split_and!; [lia..|].
      intros i Hi Hi'. apply R3; lia.
    - intros cur end_ E. apply Hle in E. lia. }
  unfold allocate_inode. unfold sbind at 1, sget.
  destruct (tbl_get () (get s)) as [[cur end_]|] eqn:E.
  2:{ destruct Hnew as (n & rt' & s' & ? & ? & ?). exists n, rt', s'. auto. }
  destruct (Hcur _ _ E) as (Hc1 & Hc & He & Ho). unfold Id.plus. rewrite u64_add_small by lia.
  destruct (N.ltb_spec (cur + 1) end_) as [Hl|Hl].
  2:{ destruct Hnew as (n & rt' & s' & ? & ? & ?). exists n, rt', s'. auto. }
  unfold sbind, smodify, sret. exists (cur + 1), (tbl_insert () (cur + 1, end_) (get s)), s.
  split; [done|]. split; [|by left]. split; [apply Ho; lia| | | |done|done|congruence].
  - eexists. apply get_insert_eq.
  - intros c e. rewrite get_insert_eq. intros [= <- <-]. split_and!; [lia..|].
    intros i Hi Hi'. apply Ho; lia.
  - intros c e. rewrite E. intros [= <- <-]. lia.
Qed.

Lemma allocate_arena_inode_spec roots arena root t :
  arena_root roots arena = Some root →
  cur_ok (global (ext t)) root (range_table_of t) →
  1 ≤ last_end (global (ext t)) → last_end (global (ext t)) + 10001 < u64_modulus →
  ∃ n g' rt', allocate_arena_inode roots arena t = (Ok n, put_range_table rt' (set_global g' t)) ∧
    allocated root n (global (ext t)) g' (range_table_of t) rt' ∧
    1 ≤ last_end g' ∧ last_end g' ≤ last_end (global (ext t)) + 10000 ∧
    global_grows (global (ext t)) g'.
Proof.
  intros Hroot Hcur H1 Hlt.
  destruct (do_alloc_inode_range_spec (global (ext t)) root 10000) as (g1 & Hg & Hr); [lia..|].
  assert (allocate_inode_range roots arena 10000 t =
    (Ok (last_end (global (ext t)) + 1, last_end (global (ext t)) + 1 + 10000), set_global g1 t))
    as Hrun.
  { unfold allocate_inode_range, sbind, slift. rewrite Hroot. cbn [ok_or]. by rewrite Hg. }
  destruct (allocate_inode_spec range_table_of put_range_table (λ t, global (ext t))
    (allocate_inode_range roots arena 10000) root 10000 t) as (n & rt' & s' & Hn & Hal & Hs);
    [done|done|lia|lia|done|done|by exists (set_global g1 t)|].
  destruct Hs as [->|Hs].
  - exists n, (global (ext t)), rt'. split_and!; [|done|done|lia|done].
    unfold allocate_arena_inode. rewrite Hn. do 2 f_equal. by destruct t as [? ? []].
  - rewrite Hrun in Hs. injection Hs as <-. exists n, g1, rt'.
    pose proof (ra_end _ _ _ _ Hr). split_and!; [done|done|simpl in *; lia..|by eapply range_grows].
Qed.

(** The global tables without their own current range, which [owner] does not
    look at. *)
Definition ranges_of g : GlobalTables := set_current_inode_range_table tbl_empty g.

Lemma allocate_global_inode_spec g :
  cur_ok g ROOT_INODE (current_inode_range_table g) →
  1 ≤ last_end g → last_end g + 101 < u64_modulus →
  ∃ n g', allocate_global_inode g = (Ok n, g') ∧
    allocated ROOT_INODE n g g' (current_inode_range_table g) (current_inode_range_table g') ∧
    1 ≤ last_end g' ∧ last_end g' ≤ last_end g + 100 ∧ last_end g ≤ last_end g' ∧
    directory_table g' = directory_table g.
Proof.
  intros Hcur H1 Hlt.
  destruct (do_alloc_inode_range_spec g ROOT_INODE 100) as (g1 & Hg & Hr); [lia..|].
  destruct (allocate_inode_spec current_inode_range_table set_current_inode_range_table ranges_of
    (do_alloc_inode_range ROOT_INODE 100) ROOT_INODE 100 g) as (n & rt' & s' & Hn & Hal & Hs);
    [done|done|lia|change (last_end (ranges_of g)) with (last_end g); lia|done|exact Hcur| |].
  { exists g1. split; [done|]. destruct Hr as [R1 R2 R3 R4 R5 R6]. by split; [split|]. }
  exists n, (set_current_inode_range_table rt' s'). split; [done|].
  assert (allocated ROOT_INODE n g (set_current_inode_range_table rt' s')
    (current_inode_range_table g) rt') as Hal' by (destruct Hal; by split).
  split; [done|].
  assert (last_end (set_current_inode_range_table rt' s') = last_end s') as -> by done.
  destruct Hs as [->|Hs]; [split_and!; [lia..|done]|]. rewrite Hg in Hs. injection Hs as <-.
  rewrite (ra_end _ _ _ _ Hr). split_and!; [lia..|apply Hr].
Qed.

(** ** Arena roots *)

(** The global database: its own range, and the roots recorded for arenas. *)
Record global_ok g : Prop := {
  go_end : 1 ≤ last_end g;
  go_cur : cur_ok g ROOT_INODE (current_inode_range_table g);
  go_arenas : ∀ a r, tbl_get a (arena_table g) = Some r →
    owner g r = Some ROOT_INODE ∧ 1 < r ∧
    ∃ cur end_, tbl_get () (current_inode_range_table g) = Some (cur, end_) ∧ r ≤ cur;
  go_inj : ∀ a b r, tbl_get a (arena_table g) = Some r → tbl_get b (arena_table g) = Some r → a = b;
}.

(** The map of the allocator reflects the recorded roots. *)
Definition roots_ok g roots : Prop :=
  ∀ a r, get_by_left roots a = Some r → tbl_get (arena_name a) (arena_table g) = Some r.

Lemma arena_name_inj a b : arena_name a = arena_name b → a = b.
Proof. destruct a, b; simpl. by intros ->. Qed.

Lemma bimap_insert_ok g roots a r a' :
  global_ok g → roots_ok g roots → tbl_get (arena_name a) (arena_table g) = Some r →
  get_by_left (bimap_insert a r roots) a' = if decide (a' = a) then Some r else get_by_left roots a'.
Proof.
  intros Hg Hr Ha. rewrite left_insert. case_decide; [done|]. case_decide as E; [|done].
  exfalso. apply Hr in E. apply H, arena_name_inj. by apply (go_inj g Hg _ _ r).
Qed.

Lemma add_arena_run a g roots :
  global_ok g → roots_ok g roots → last_end g + 101 < u64_modulus →
  ∃ r g', add_arena a (g, roots) = (Ok (), (g', bimap_insert a r roots)) ∧
    global_ok g' ∧ tbl_get (arena_name a) (arena_table g') = Some r ∧
    (∀ b v, tbl_get b (arena_table g) = Some v → tbl_get b (arena_table g') = Some v) ∧
    (∀ i o, owner g i = Some o → owner g' i = Some o) ∧ last_end g' ≤ last_end g + 100 ∧
    directory_table g' = directory_table g ∧
    (∀ cur end_, tbl_get () (current_inode_range_table g) = Some (cur, end_) →
       ∃ cur' end', tbl_get () (current_inode_range_table g') = Some (cur', end') ∧ cur ≤ cur') ∧
    (∀ b v, tbl_get b (arena_table g') = Some v → tbl_get b (arena_table g) = Some v ∨
       v = r ∧ ∀ cur end_, tbl_get () (current_inode_range_table g) = Some (cur, end_) → cur < r).
Proof.
  intros Hg Hr Hlt. unfold add_arena. unfold sbind at 1, sget.
  destruct (tbl_get (arena_name a) (arena_table g)) as [v|] eqn:E.
  { exists v, g. simpl. split_and!; try done; [lia| |by left].
    intros cur end_ H. exists cur, end_. split; [done|lia]. }
  destruct Hg as [G1 G2 G3 G4].
  destruct (allocate_global_inode_spec g G2 G1 Hlt) as (n & g1 & Hn & [A1 A2 A3 A4 A5 A6 A7] & He & He' & _ & Hd).
  unfold sbind, smodify, sret. rewrite Hn. rewrite A6.
  set (g' := set_arena_table (tbl_insert (arena_name a) n (arena_table g)) g1).
  exists n, g'. split; [done|].
  assert (∀ b v, tbl_get b (arena_table g) = Some v → v < n) as Hfresh.
  { intros b v (_ & _ & cur & end_ & Hc & Hle)%G3. apply A4 in Hc. lia. }
  assert (1 < n) as Hn1 by (destruct A2 as [end_ Hc]; by apply A3 in Hc as (? & _)).
  split_and!; [split| | |exact A5|exact He'|exact Hd| |].
  - exact He.
  - exact A3.
  - intros b r. simpl. rewrite get_insert. case_decide as Hb.
    + intros [= <-]. split_and!; [exact A1|lia|]. destruct A2 as [end_ Hc].
      exists n, end_. by split.
    + intros Hv. destruct (G3 b r Hv) as (Ho & ? & cur & end_ & Hc & Hle). split_and!; [|lia|].
      * by apply A5.
      * destruct A2 as [end' Hc']. exists n, end'. split; [done|]. apply A4 in Hc. lia.
  - intros b c r. simpl. rewrite !get_insert. repeat case_decide; subst; try done.
    + intros [= <-] Hc%Hfresh. lia.
    + intros Hb%Hfresh [= ->]. lia.
    + apply G4.
  - simpl. by rewrite get_insert_eq.
  - intros b v Hb. simpl. rewrite get_insert_ne; [done|]. congruence.
  - intros cur end_ Hc%A4. destruct A2 as [end' ?]. exists n, end'. split; [done|lia].
  - intros b v. simpl. rewrite get_insert. case_decide; [intros [= <-]; by right|by left].
Qed.

Lemma roots_ok_insert g roots a r :
  global_ok g → roots_ok g roots → tbl_get (arena_name a) (arena_table g) = Some r →
  roots_ok g (bimap_insert a r roots).
Proof.
  intros Hg Hr Ha b v. rewrite (bimap_insert_ok g) by done.
  case_decide as Hb; [intros [= <-]; by subst|apply Hr].
Qed.

Lemma new_run arenas g roots :
  global_ok g → roots_ok g roots → last_end g + 101 * N.of_nat (length arenas) < u64_modulus →
  ∃ g' roots', sfor arenas add_arena (g, roots) = (Ok (), (g', roots')) ∧
    global_ok g' ∧ roots_ok g' roots'.
Proof.
  revert g roots. induction arenas as [|a arenas IH]; intros g roots Hg Hr Hlt.
  { by exists g, roots. }
  cbn [length] in Hlt. destruct (add_arena_run a g roots Hg Hr) as
    (r & g1 & Hrun & Hg1 & Ha & Hold & _ & He & _); [lia|].
  assert (roots_ok g1 roots) as Hr1 by (intros b v Hb; by apply Hold, Hr).
  destruct (IH g1 (bimap_insert a r roots)) as (g' & roots' & Hrest & Hok);
    [done|by apply roots_ok_insert|lia|].
  exists g', roots'. split; [|done]. simpl. unfold sbind. by rewrite Hrun.
Qed.

Lemma global_ok_empty : global_ok global_empty.
Proof.
  assert (last_end global_empty = 1) as He.
  { unfold last_end. destruct (tbl_last _) as [[k v]|] eqn:E; [|done].
    apply tbl_last_greatest in E as [E _]. simpl in E. by rewrite get_empty in E. }
  split; [lia|..].
  - intros cur end_. simpl. by rewrite get_empty.
  - intros a r. simpl. by rewrite get_empty.
  - intros a b r. simpl. by rewrite get_empty.
Qed.

(** ** Runs *)

(** The global tables, and the current range of every arena. *)
Record Sys : Type := { s_global : GlobalTables; s_current : Arena → table () (N * N) }.

(** An arena allocates within a transaction, which is committed or given up after
    the global database changed; or an inode is allocated from the global range,
    for a directory above the arenas.  The label is what was handed out. *)
Inductive alloc_step roots : Sys → list (option Arena * N) → Sys → Prop :=
| step_commit s a r t n t' :
    arena_root roots a = Some r →
    last_end (s_global s) + 10001 < u64_modulus →
    global (ext t) = s_global s → range_table_of t = s_current s a →
    allocate_arena_inode roots a t = (Ok n, t') →
    alloc_step roots s [(Some a, n)]
      {| s_global := global (ext t'); s_current := <[a := range_table_of t']> (s_current s) |}
| step_rollback s a r t n t' :
    arena_root roots a = Some r →
    last_end (s_global s) + 10001 < u64_modulus →
    global (ext t) = s_global s → range_table_of t = s_current s a →
    allocate_arena_inode roots a t = (Ok n, t') →
    alloc_step roots s [] {| s_global := global (ext t'); s_current := s_current s |}
| step_global s n g' :
    last_end (s_global s) + 101 < u64_modulus →
    allocate_global_inode (s_global s) = (Ok n, g') →
    alloc_step roots s [(None, n)] {| s_global := g'; s_current := s_current s |}.

Inductive alloc_run roots : list (option Arena * N) → Sys → Sys → Prop :=
| run_nil s : alloc_run roots [] s s
| run_step given l s1 s2 s3 :
    alloc_run roots given s1 s2 → alloc_step roots s2 l s3 → alloc_run roots (l ++ given) s1 s3.

Definition root_of roots (o : option Arena) : option N :=
  match o with Some a => arena_root roots a | None => Some ROOT_INODE end.
Definition table_of s (o : option Arena) : table () (N * N) :=
  match o with Some a => s_current s a | None => current_inode_range_table (s_global s) end.

Record sys_ok roots s : Prop := {
  so_global : global_ok (s_global s);
  so_roots : roots_ok (s_global s) roots;
  so_current : ∀ a r, arena_root roots a = Some r → cur_ok (s_global s) r (s_current s a);
}.

(** What was handed out so far belongs to whom it was given to, and is not above
    the last inode they got; no global inode is the root of an arena. *)
Record given_ok roots s (given : list (option Arena * N)) : Prop := {
  gv_owner : ∀ o n, (o, n) ∈ given →
    1 < n ∧ ∃ r, root_of roots o = Some r ∧ owner (s_global s) n = Some r;
  gv_cur : ∀ o n, (o, n) ∈ given →
    ∃ cur end_, tbl_get () (table_of s o) = Some (cur, end_) ∧ n ≤ cur;
  gv_root : ∀ n a, (None, n) ∈ given → arena_root roots a ≠ Some n;
  gv_nodup : NoDup given.*2;
}.

Lemma root_of_inj g roots o o' r :
  global_ok g → roots_ok g roots → root_of roots o = Some r → root_of roots o' = Some r → o = o'.
Proof.
  intros Hg Hr. unfold root_of, arena_root.
  destruct o as [a|], o' as [b|]; [| | |done].
  - intros Ha Hb. f_equal. by apply arena_name_inj, (go_inj g Hg _ _ r); apply Hr.
  - intros E [= <-]. apply Hr in E. apply (go_arenas g Hg) in E as (_ & ? & _). by unfold ROOT_INODE in *.
  - intros [= <-] E. apply Hr in E. apply (go_arenas g Hg) in E as (_ & ? & _). by unfold ROOT_INODE in *.
Qed.

Lemma range_table_put rt g t : range_table_of (put_range_table rt (set_global g t)) = rt.
Proof. done. Qed.

(** Growing the global tables keeps what is known of them. *)
Lemma sys_grow roots s g' (cur' : Arena → table () (N * N)) :
  sys_ok roots s → (∀ i r, owner (s_global s) i = Some r → owner g' i = Some r) →
  global_ok g' → arena_table g' = arena_table (s_global s) →
  (∀ a r, arena_root roots a = Some r → cur' a = s_current s a ∨ cur_ok g' r (cur' a)) →
  sys_ok roots {| s_global := g'; s_current := cur' |}.
Proof.
  intros [S1 S2 S3] Ho Hg Ha Hc. split; simpl; [done|unfold roots_ok; by rewrite Ha|].
  intros a r Hr. destruct (Hc a r Hr) as [->|]; [|done].
  intros cur end_ E. destruct (S3 a r Hr cur end_ E) as (? & ? & ? & H).
  split_and!; [done..|]. intros i ??. by apply Ho, H.
Qed.

(** A new inode on top of what was given. *)
Lemma given_add roots s s' given o n r :
  given_ok roots s given → sys_ok roots s' →
  root_of roots o = Some r → allocated r n (s_global s) (s_global s') (table_of s o) (table_of s' o) →
  (∀ o', o' ≠ o → table_of s' o' = table_of s o') →
  (∀ a, o = None → arena_root roots a ≠ Some n) →
  given_ok roots s' ((o, n) :: given).
Proof.
  intros [G1 G2 G3 G4] [S1 S2 S3] Hr [A1 A2 A3 A4 A5 A6 A7] Ht Hroot. split.
  - intros o' n' [[= -> ->]|Hin]%elem_of_cons.
    + destruct A2 as [end_ Hc]. split; [by apply A3 in Hc as [? _]|by exists r].
    + destruct (G1 _ _ Hin) as (? & r' & ? & ?). split; [done|]. exists r'. auto.
  - intros o' n' [[= -> ->]|Hin]%elem_of_cons; [destruct A2 as [end_ ?]; by exists n, end_|].
    destruct (G2 _ _ Hin) as (cur & end_ & Hc & Hle).
    destruct (decide (o' = o)) as [->|Hne]; [|rewrite Ht by done; eauto].
    destruct A2 as [end' ?]. exists n, end'. split; [done|]. apply A4 in Hc. lia.
  - intros n' a [[= <- ->]|Hin]%elem_of_cons; [by apply Hroot|by apply G3].
  - simpl. constructor; [|done].
    intros ([o' n'] & -> & Hin)%list_elem_of_fmap. simpl in *.
    destruct (decide (o' = o)) as [->|Hne].
    + destruct (G2 _ _ Hin) as (cur & end_ & Hc & Hle). apply A4 in Hc. lia.
    + destruct (G1 _ _ Hin) as (_ & r' & Hr' & Ho). apply A5 in Ho. rewrite A1 in Ho.
      injection Ho as ->. apply Hne. by eapply root_of_inj.
Qed.

Lemma global_ok_grow g g' root n rt rt' :
  global_ok g → allocated root n g g' rt rt' → 1 ≤ last_end g' →
  current_inode_range_table g' = current_inode_range_table g → global_ok g'.
Proof.
  intros [G1 G2 G3 G4] [A1 A2 A3 A4 A5 A6 A7] He Hc. split; rewrite ?A6, ?Hc; [done| |..|done].
  - intros cur end_ E. destruct (G2 cur end_ E) as (? & ? & ? & H).
    split_and!; [done..|]. intros i ??. by apply A5, H.
  - intros a r (Ho & ? & Hx)%G3. auto.
Qed.

Lemma global_ok_alloc g g' n :
  global_ok g → 1 ≤ last_end g' →
  allocated ROOT_INODE n g g' (current_inode_range_table g) (current_inode_range_table g') →
  global_ok g' ∧ ∀ a r, tbl_get a (arena_table g) = Some r → r < n.
Proof.
  intros [G1 G2 G3 G4] He [A1 A2 A3 A4 A5 A6 A7]. split; [split; rewrite ?A6; [done|done| |done]|].
  - intros a r (Ho & ? & cur & end_ & Hc & Hle)%G3. split_and!; [auto|done|].
    destruct A2 as [end' ?]. exists n, end'. split; [done|]. apply A4 in Hc. lia.
  - intros a r (_ & _ & cur & end_ & Hc & Hle)%G3. apply A4 in Hc. lia.
Qed.

(** An arena's allocation, seen from the system. *)
Lemma arena_step_ok roots s a r t n t' :
  sys_ok roots s → arena_root roots a = Some r → last_end (s_global s) + 10001 < u64_modulus →
  global (ext t) = s_global s → range_table_of t = s_current s a →
  allocate_arena_inode roots a t = (Ok n, t') →
  allocated r n (s_global s) (global (ext t')) (s_current s a) (range_table_of t') ∧
  global_ok (global (ext t')) ∧
  current_inode_range_table (global (ext t')) = current_inode_range_table (s_global s).
Proof.
  intros [S1 S2 S3] Hr Hlt Hg Hc Hrun.
  destruct (allocate_arena_inode_spec roots a r t) as (n' & g' & rt' & Hrun' & Hal & He & _ & Hcg);
    rewrite ?Hg, ?Hc; [done|by apply S3|apply S1|done|].
  rewrite Hrun in Hrun'. injection Hrun' as <- ->. rewrite Hg, ?Hc in *.
  change (global (ext (put_range_table rt' (set_global g' t)))) with g'.
  rewrite range_table_put. destruct Hcg as [_ _ _ _ Hcg]. split_and!; [done| |done]. by eapply global_ok_grow.
Qed.

Lemma alloc_step_ok roots given l s s' :
  sys_ok roots s → given_ok roots s given → alloc_step roots s l s' →
  sys_ok roots s' ∧ given_ok roots s' (l ++ given).
Proof.
  intros Hs Hgv Hstep. destruct Hstep as [s a r t n t' Hr Hlt Hg Hc Hrun|s a r t n t' Hr Hlt Hg Hc Hrun|
    s n g' Hlt Hrun].
  - destruct (arena_step_ok roots s a r t n t' Hs Hr Hlt Hg Hc Hrun) as (Hal & Hgo & Hcg).
    assert (sys_ok roots {| s_global := global (ext t');
                            s_current := <[a := range_table_of t']> (s_current s) |}) as Hs'.
    { apply (sys_grow _ s); [done|apply Hal|done|apply Hal|].
      intros b r' Hr'. destruct (decide (b = a)) as [->|Hne]; [|left; by rewrite fn_lookup_insert_ne].
      rewrite fn_lookup_insert. right. assert (r' = r) as -> by congruence. apply Hal. }
    split; [done|]. apply (given_add roots s _ given (Some a) n r); [done..| | |done].
    + simpl. by rewrite fn_lookup_insert.
    + intros [b|] Hb; simpl; [|done]. rewrite fn_lookup_insert_ne; [done|congruence].
  - destruct (arena_step_ok roots s a r t n t' Hs Hr Hlt Hg Hc Hrun) as (Hal & Hgo & Hcg).
    split; [apply (sys_grow _ s); [done|apply Hal|done|apply Hal|by left]|].
    destruct Hgv as [G1 G2 G3 G4]. split; [| |done|done]; intros o n' Hin.
    + destruct (G1 o n' Hin) as (? & r' & ? & ?). split; [done|].
      exists r'. split; [done|]. by apply Hal.
    + destruct (G2 o n' Hin) as (cur & end_ & Hcur & Hle). exists cur, end_. split; [|done].
      destruct o; simpl in *; [done|by rewrite Hcg].
  - destruct (allocate_global_inode_spec (s_global s)) as (n' & g1 & Hrun' & Hal & He & _);
      [apply Hs|apply Hs|done|]. rewrite Hrun in Hrun'. injection Hrun' as <- <-.
    destruct (global_ok_alloc _ _ _ (so_global _ _ Hs) He Hal) as [Hgo Hfresh].
    assert (sys_ok roots {| s_global := g'; s_current := s_current s |}) as Hs'
      by (apply (sys_grow _ s); [done|apply Hal|done|apply Hal|by left]).
    split; [done|]. apply (given_add roots s _ given None n ROOT_INODE); [done..| |].
    + intros [b|] Hb; [done|]. by destruct Hb.
    + intros b _ Hb%Hs%Hfresh. lia.
Qed.

Lemma alloc_run_ok roots given s s' :
  alloc_run roots given s s' → sys_ok roots s → sys_ok roots s' ∧ given_ok roots s' given.
Proof.
  induction 1 as [s|given l s1 s2 s3 _ IH Hstep]; intros Hs.
  - split; [done|]. split; [set_solver|set_solver|set_solver|constructor].
  - destruct (IH Hs) as [H1 H2]. by eapply alloc_step_ok.
Qed.

(** The owner of an inode that is not itself a root tells its arena. *)
Lemma arena_for_owner roots g n r :
  n ≠ ROOT_INODE → get_by_right roots n = None → owner g n = Some r →
  arena_for_inode roots g n =
    if r =? ROOT_INODE then Ok None
    else match get_by_right roots r with
         | Some a => Ok (Some a)
         | None => arena_for_inode roots g n
         end.
Proof.
  intros Hn Hr Ho. unfold arena_for_inode. rewrite (proj2 (N.eqb_neq _ _) Hn), Hr.
  unfold owner in Ho. destruct (tbl_range _ _ _) as [|[k r'] l]; [done|].
  injection Ho as ->. simpl. destruct (r =? ROOT_INODE); [done|].
  by destruct (get_by_right roots r).
Qed.

(** ** Properties *)

(** C19: however arenas allocate inodes, in transactions that commit or are given
    up after a range was taken from the global database, and with global
    allocations in between, no inode is ever handed out twice, to the same arena
    or to two of them, and every inode handed out to an arena is mapped back to
    that arena, global ones to none. *)
Theorem inodes_unique roots (given : list (option Arena * N)) (s0 s : Sys)
  (Hs0 : sys_ok roots s0) (Hrun : alloc_run roots given s0 s) :
  NoDup given.*2 ∧
  (∀ o n, (o, n) ∈ given → arena_for_inode roots (s_global s) n = Ok o) ∧
  (∀ a r, arena_root roots a = Some r →
     r ∉ given.*2 ∧ arena_for_inode roots (s_global s) r = Ok (Some a)).
Proof.
  destruct (alloc_run_ok roots given s0 s Hrun Hs0) as [[S1 S2 S3] [G1 G2 G3 G4]].
  assert (∀ a r, arena_root roots a = Some r →
    1 < r ∧ owner (s_global s) r = Some ROOT_INODE) as Hroots.
  { intros a r Hr%S2. by apply (go_arenas _ S1) in Hr as (? & ? & _). }
  assert (∀ o n a, (o, n) ∈ given → arena_root roots a ≠ Some n) as Hnot.
  { intros [b|] n a Hin Ha; [|by eapply G3]. destruct (G1 _ _ Hin) as (_ & r & Hb & Ho).
    destruct (Hroots _ _ Ha) as [_ Ho']. destruct (Hroots b r Hb) as [Hr _].
    rewrite Ho in Ho'. injection Ho' as ->. unfold ROOT_INODE in Hr. lia. }
  split_and!; [done| |].
  - intros o n Hin. destruct (G1 _ _ Hin) as (Hn & r & Hr & Ho).
    rewrite (arena_for_owner _ _ _ r); [|unfold ROOT_INODE; lia| |done].
    + destruct o as [a|]; simpl in Hr.
      * destruct (Hroots _ _ Hr) as [Hr1 _]. rewrite (proj2 (N.eqb_neq _ _)) by (unfold ROOT_INODE; lia).
        by apply left_right in Hr as ->.
      * injection Hr as <-. done.
    + destruct (get_by_right roots n) as [a|] eqn:E; [|done]. apply left_right in E.
      by apply (Hnot o n a) in Hin.
  - intros a r Hr. destruct (Hroots _ _ Hr) as [Hr1 _]. split.
    + intros ([o n] & -> & Hin)%list_elem_of_fmap. by apply (Hnot o n a) in Hin.
    + unfold arena_for_inode. rewrite (proj2 (N.eqb_neq _ _)) by (unfold ROOT_INODE; lia).
      by apply left_right in Hr as ->.
Qed.

(** Adding arenas to the allocator gives each its root: the one recorded in
    the database when there is one, which never changes, or a new inode; two
    arenas never share a root, and arenas added before keep theirs. *)
Theorem add_arena_spec (a : Arena) g roots
  (Hg : global_ok g) (Hroots : roots_ok g roots) (Hlt : last_end g + 101 < u64_modulus) :
  ∃ r g' roots', add_arena a (g, roots) = (Ok (), (g', roots')) ∧
    global_ok g' ∧ roots_ok g' roots' ∧
    arena_root roots' a = Some r ∧ tbl_get (arena_name a) (arena_table g') = Some r ∧
    (∀ b v, tbl_get b (arena_table g) = Some v → tbl_get b (arena_table g') = Some v) ∧
    (∀ b, b ≠ a → arena_root roots' b = arena_root roots b) ∧
    (∀ b, arena_root roots' b = Some r → b = a).
Proof.
  destruct (add_arena_run a g roots Hg Hroots Hlt) as (r & g' & Hrun & Hg' & Ha & Hold & _).
  assert (roots_ok g' roots) as Hr' by (intros b v Hb; by apply Hold, Hroots).
  pose proof (bimap_insert_ok g' roots a r) as Hins.
  exists r, g', (bimap_insert a r roots). unfold arena_root.
  split_and!; [done|done|by apply roots_ok_insert|by rewrite Hins, decide_True|done|done| |].
  - intros b Hb. rewrite Hins by done. by rewrite decide_False.
  - intros b. rewrite Hins by done. case_decide as Hb; [done|]. intros Hbr%Hr'.
    by apply arena_name_inj, (go_inj g' Hg' _ _ r).
Qed.
End lemmas.

(** ** Witnesses *)

(** A two-way map as a list of pairs without duplicates on either side. *)
Lemma find_fst {A C} `{EqDecision A} (m : list (A * C)) a c :
  NoDup m.*1 → snd <$> head (filter (λ p, p.1 = a) m) = Some c ↔ (a, c) ∈ m.
Proof.
  induction m as [|[a' c'] m IH]; simpl; [set_solver|]. intros [Hn Hm]%NoDup_cons.
  rewrite filter_cons, elem_of_cons. simpl. case_decide as E; simpl.
  - subst. split; [by intros [= ->]; left|]. intros [[= ->]|Hin]; [done|].
    exfalso. apply Hn, list_elem_of_fmap. by exists (a, c).
  - rewrite IH by done. split; [by right|]. by intros [[= -> ->]|?].
Qed.

Definition swap {A C} (p : A * C) : C * A := (p.2, p.1).

Lemma find_snd {A C} `{EqDecision C} (m : list (A * C)) a c :
  NoDup m.*2 → fst <$> head (filter (λ p, p.2 = c) m) = Some a ↔ (a, c) ∈ m.
Proof.
  induction m as [|[a' c'] m IH]; simpl; [set_solver|]. intros [Hn Hm]%NoDup_cons.
  rewrite filter_cons, elem_of_cons. simpl. case_decide as E; simpl.
  - subst. split; [by intros [= ->]; left|]. intros [[= ->]|Hin]; [done|].
    exfalso. apply Hn, list_elem_of_fmap. by exists (a, c).
  - rewrite IH by done. split; [by right|]. by intros [[= -> ->]|?].
Qed.

Lemma NoDup_fmap_filter {A C} (f : A → C) (P : A → Prop) `{∀ x, Decision (P x)} (l : list A) :
  NoDup (f <$> l) → NoDup (f <$> filter P l).
Proof.
  induction l as [|x l IH]; simpl; [done|]. intros [Hx Hl]%NoDup_cons. rewrite filter_cons.
  case_decide; simpl; [constructor|]; auto.
  intros (y & Hy & [_ Hin]%list_elem_of_filter)%list_elem_of_fmap. apply Hx.
  rewrite Hy. by apply list_elem_of_fmap_2.
Qed.

Definition bimap_list : Type := {m : list (Arena * N) | NoDup m.*1 ∧ NoDup m.*2}.

Definition bimap_add (a : Arena) (n : N) (m : bimap_list) : list (Arena * N) :=
  (a, n) :: filter (λ p, p.1 ≠ a ∧ p.2 ≠ n) (proj1_sig m).

Lemma bimap_add_ok a n m : NoDup (bimap_add a n m).*1 ∧ NoDup (bimap_add a n m).*2.
Proof.
  destruct m as [m [H1 H2]]. unfold bimap_add. simpl. split; constructor;
    try (by apply NoDup_fmap_filter);
    intros ([a' n'] & ? & [[??] ?]%list_elem_of_filter)%list_elem_of_fmap; simpl in *; congruence.
Qed.

Definition list_bimap : Bimap := {|
  bimap := bimap_list;
  bimap_new := [] ↾ conj NoDup_nil_2 NoDup_nil_2;
  get_by_left m a := snd <$> head (filter (λ p, p.1 = a) (proj1_sig m));
  get_by_right m n := fst <$> head (filter (λ p, p.2 = n) (proj1_sig m));
  bimap_insert a n m := bimap_add a n m ↾ bimap_add_ok a n m;
|}.

Lemma list_bimap_laws : BimapLaws list_bimap.
Proof.
  split.
  - done.
  - intros [m [H1 H2]] a n. simpl. by rewrite find_fst, find_snd.
  - intros m a n a'. apply option_eq. intros v.
    change (get_by_left (bimap_insert a n m) a') with
      (snd <$> head (filter (λ p, p.1 = a') (bimap_add a n m))).
    rewrite find_fst by apply bimap_add_ok. unfold bimap_add. rewrite elem_of_cons, list_elem_of_filter.
    assert (∀ w, get_by_left m a' = Some w ↔ (a', w) ∈ proj1_sig m) as Hm
      by (intros w; destruct m as [m [H1 H2]]; by apply find_fst).
    rewrite <- Hm. simpl. repeat case_decide; naive_solver.
Qed.

Section witnesses.
#[local] Existing Instance gmap_redb.
#[local] Existing Instance list_bimap.
#[local] Existing Instance list_bimap_laws.

Definition arena_a : Arena := mkArena "a".
Definition arena_b : Arena := mkArena "b".
Definition roots0 : GlobalTables * bimap := (InodeAllocator.new [arena_a; arena_b] global_empty).2.
Definition sys0 : Sys := {| s_global := roots0.1; s_current := λ _, tbl_empty |}.

Lemma roots0_ok : global_ok roots0.1 ∧ roots_ok roots0.1 roots0.2.
Proof.
  destruct (new_run [arena_a; arena_b] global_empty bimap_new) as (g & r & Hrun & Hg & Hr).
  - apply global_ok_empty.
  - intros a v. by rewrite left_new.
  - by vm_compute.
  - unfold roots0, new. rewrite Hrun. done.
Qed.

Lemma sys0_ok : sys_ok roots0.2 sys0.
Proof.
  destruct roots0_ok as [Hg Hr]. split; [exact Hg|exact Hr|].
  intros a r _ cur end_ E. by rewrite (get_empty () : tbl_get () (s_current sys0 a) = None) in E.
Qed.

Definition open_txn (s : Sys) (a : Arena) : Txn := put_range_table (s_current s a)
  {| tables := arena_empty; after_commit := []; ext := {| fs := ∅; global := s_global s |} |}.

(** The state after [a] takes an inode. *)
Definition after (s : Sys) (a : Arena) : Sys :=
  let t' := (allocate_arena_inode roots0.2 a (open_txn s a)).2 in
  {| s_global := global (ext t'); s_current := <[a := range_table_of t']> (s_current s) |}.

Lemma pair_of {A C} (x : A * C) a : x.1 = a → x = (a, x.2).
Proof. destruct x. by intros <-. Qed.

Lemma two_inodes :
  alloc_run roots0.2 [(Some arena_b, 10102); (Some arena_a, 102)] sys0
    (after (after sys0 arena_a) arena_b).
Proof.
  apply (run_step _ [(Some arena_a, 102)] [(Some arena_b, 10102)] _ (after sys0 arena_a)).
  - apply (run_step _ [] [(Some arena_a, 102)] _ sys0); [constructor|].
    apply (step_commit _ sys0 arena_a 2 (open_txn sys0 arena_a)); [by vm_compute..|].
    apply pair_of. by vm_compute.
  - apply (step_commit _ _ arena_b 3 (open_txn (after sys0 arena_a) arena_b));
      [by vm_compute..|]. apply pair_of. by vm_compute.
Qed.

Example inodes_unique_witness :
  NoDup [10102; 102] ∧
  arena_for_inode roots0.2 (s_global (after (after sys0 arena_a) arena_b)) 102 = Ok (Some arena_a).
Proof.
  destruct (inodes_unique _ _ _ _ sys0_ok two_inodes) as (H1 & H2 & _).
  split; [exact H1|]. apply H2. right. left.
Defined.

Example add_arena_spec_witness :
  ∃ r g' roots', add_arena (mkArena "c") roots0 = (Ok (), (g', roots')) ∧
    arena_root roots' (mkArena "c") = Some r ∧ arena_root roots' arena_a = Some 2.
Proof.
  destruct roots0_ok as [Hg Hr].
  destruct (add_arena_spec (mkArena "c") roots0.1 roots0.2 Hg Hr) as
    (r & g' & roots' & H1 & _ & _ & H2 & _ & _ & H3 & _); [by vm_compute|].
  exists r, g', roots'. split; [exact H1|]. split; [exact H2|].
  rewrite H3 by done. by vm_compute.
Defined.

(** [arena_for_inode] skips the ranges of roots it does not know: once an
    arena is taken out of the configuration, its inodes are reported as those of
    whichever arena owns the next range. *)
Example removed_arena_inodes :
  let after_removal := (InodeAllocator.new [arena_b] (s_global (after (after sys0 arena_a) arena_b))).2 in
  owner after_removal.1 102 = Some 2 ∧ get_by_right roots0.2 2 = Some arena_a ∧
  arena_for_inode after_removal.2 after_removal.1 102 = Ok (Some arena_b).
Proof. by vm_compute. Qed.
End witnesses.
