(* ===== verification/Blob.v ===== *)
(** * Blobs

    [crate/realize-storage/src/arena/blob.rs]: the store of partly downloaded
    files.  A blob has an entry in the database, with the areas written so far and
    the hash its content was verified to have, and a file named after its id.

    [Blobstore] operations run in a transaction and act on the blob files at
    once; a [Blob] is an open handle, which keeps written areas in memory until
    [update_db] reports them.  Bytes are only served from areas that were written:
    that is what the properties of [readable_length] and [local_availability]
    say. *)
From S2P Require Import Prelude Range RangeSet Redb Path Types Db.
From Stdlib Require Import Strings.Byte.
Local Open Scope N_scope.
Local Open Scope realize_scope.

(** ** Names of blob files *)

Definition hex_digit (n : N) : ascii :=
  ascii_of_N (if n <? 10 then 48 + n else 87 + n).

(** [{:016x}] *)
Fixpoint hex (len : nat) (n : N) : string :=
  match len with
  | O => ""
  | S len => hex len (n / 16) +:+ String (hex_digit (n mod 16)) ""
  end.
Definition blob_id_string (id : N) : string := hex 16 id.

(** ** Blob store *)

(** [std::task::Poll] *)
Inductive Poll (A : Type) : Type := Pending | Ready (a : A).
Arguments Pending {A}.
Arguments Ready {A} a.

(** An open blob.  The file is the one of [blob_id]. *)
Record Blob : Type := {
  blob_id : BlobId;
  b_size : N;
  b_hash : Hash;
  available_ranges : ByteRanges;
  pending_ranges : ByteRanges;
  offset : N;
}.

Definition Blob_new (id : BlobId) (file_entry : FileTableEntry) (blob_entry : BlobTableEntry) : Blob :=
  {| blob_id := id;
     b_size := size (metadata file_entry);
     b_hash := fc_hash (content file_entry);
     available_ranges := written_areas blob_entry;
     pending_ranges := ByteRanges.new;
     offset := 0 |}.

Section blobstore.
Context {R : Redb} (blob_dir : string).

Definition blob_path (id : BlobId) : string := join_path blob_dir (blob_id_string id).

Definition get_blob_entry (blob_table : table N BlobTableEntry) (id : BlobId) : sresult BlobTableEntry :=
  ok_or NotFound (tbl_get id blob_table).

Definition put_blob_table (b : table N BlobTableEntry) : TxnM () :=
  smodify (λ t, set_tables (set_blob_table b (tables t)) t).

Definition do_create_blob_entry (blob_table : table N BlobTableEntry)
  : (BlobId * BlobTableEntry) * table N BlobTableEntry :=
  let id := default 1 ((λ kv, Id.plus kv.1 1) <$> tbl_last blob_table) in
  let blob_entry := {| written_areas := ByteRanges.new; content_hash := None |} in
  ((id, blob_entry), tbl_insert id blob_entry blob_table).

(** [open_blob_file]: what it leaves on disk, at time [now]. *)
Definition open_blob_file (now : UnixTime) (id : BlobId) (file_size : N) (new_file : bool) (files : Fs)
  : Fs :=
  let path := blob_path id in
  let file := match files !! path with
              | Some f => if new_file then {| f_data := []; f_mtime := now |} else f
              | None => {| f_data := []; f_mtime := now |}
              end in
  let file := if negb (file_size =? f_len file)
              then {| f_data := resize (N.to_nat file_size) x00 (f_data file); f_mtime := now |}
              else file in
  <[path := file]> files.

(** [Blobstore::open_blob], on a read transaction *)
Definition open_blob (now : UnixTime) (file_entry : FileTableEntry) (id : BlobId) : WorldM Blob := λ w,
  match get_blob_entry (blob_table (db w)) id with
  | Err e => (Err e, w)
  | Ok blob_entry =>
      let files := open_blob_file now id (size (metadata file_entry)) false (fs (w_ext w)) in
      (Ok (Blob_new id file_entry blob_entry),
       {| db := db w; w_ext := {| fs := files; global := global (w_ext w) |};
          watch_tx := watch_tx w; history_tx := history_tx w |})
  end.

(** [Blobstore::create_blob] *)
Definition create_blob (now : UnixTime) (file_entry : FileTableEntry) : TxnM Blob :=
  let* table := sget (λ t, blob_table (tables t)) in
  let* '(id, blob_entry) :=
    match blob (content file_entry) with
    | Some id => let* blob_entry := slift (get_blob_entry table id) in sret (id, blob_entry)
    | None =>
        let '(created, table) := do_create_blob_entry table in
        do* put_blob_table table in sret created
    end in
  do* smodify (λ t, set_fs (open_blob_file now id (size (metadata file_entry)) true (fs (ext t))) t) in
  sret (Blob_new id file_entry blob_entry).

(** [Blobstore::delete_blob] *)
Definition delete_blob (id : BlobId) : TxnM () :=
  let* table := sget (λ t, blob_table (tables t)) in
  do* put_blob_table (tbl_remove id table) in
  smodify (λ t, set_fs (base.delete (blob_path id) (fs (ext t))) t).

(** [Blobstore::extend_local_availability], [Blobstore::set_content_hash] *)
Definition extend_local_availability (id : BlobId) (new_range : ByteRanges) : WorldM () :=
  write_txn (
    let* table := sget (λ t, blob_table (tables t)) in
    let* e := slift (get_blob_entry table id) in
    do* put_blob_table
          (tbl_insert id {| written_areas := ByteRanges.union (written_areas e) new_range;
                            content_hash := content_hash e |} table) in
    sret (Commit ())).
Definition set_content_hash (id : BlobId) (hash : Hash) : WorldM () :=
  write_txn (
    let* table := sget (λ t, blob_table (tables t)) in
    let* e := slift (get_blob_entry table id) in
    do* put_blob_table
          (tbl_insert id {| written_areas := written_areas e; content_hash := Some hash |} table) in
    sret (Commit ())).

(** [std::fs::rename] *)
Definition rename (from to : string) : TxnM () := λ t,
  match fs (ext t) !! from with
  | Some f => (Ok (), set_fs (<[to := f]> (base.delete from (fs (ext t)))) t)
  | None => (Err Io, t)
  end.

(** [Blobstore::move_blob_if_matches] *)
Definition blob_move_if_matches (id : BlobId) (hash : Hash) (dest : string) : TxnM bool :=
  let* table := sget (λ t, blob_table (tables t)) in
  let* e := slift (get_blob_entry table id) in
  if negb (default false ((λ h, bool_decide (h = hash)) <$> content_hash e)) then sret false
  else
    do* put_blob_table (tbl_remove id table) in
    do* rename (blob_path id) dest in
    sret true.

(** [Blobstore::move_into_blob] *)
Definition move_into_blob (id : option BlobId) (size : N) : TxnM (BlobId * string) :=
  let* table := sget (λ t, blob_table (tables t)) in
  let* '(id, entry) :=
    match id with
    | Some id => let* entry := slift (get_blob_entry table id) in sret (id, entry)
    | None =>
        let '(created, table) := do_create_blob_entry table in
        do* put_blob_table table in sret created
    end in
  let* table := sget (λ t, blob_table (tables t)) in
  do* put_blob_table
        (tbl_insert id {| written_areas := ByteRanges.single 0 size;
                          content_hash := content_hash entry |} table) in
  sret (id, blob_path id).

(** [local_availability] *)
Definition local_availability (blob_table : table N BlobTableEntry) (file_entry : FileTableEntry)
  : sresult LocalAvailability :=
  match blob (content file_entry) with
  | None => Ok Missing
  | Some id =>
      result_bind (get_blob_entry blob_table id) (λ blob_entry,
        let file_range := ByteRanges.single 0 (size (metadata file_entry)) in
        if bool_decide (file_range = ByteRanges.intersection file_range (written_areas blob_entry)) then
          if default false ((λ h, bool_decide (fc_hash (content file_entry) = h))
                            <$> content_hash blob_entry)
          then Ok Verified else Ok Complete
        else if ByteRanges.is_empty (written_areas blob_entry) then Ok Missing
        else Ok (Partial (size (metadata file_entry)) (written_areas blob_entry)))
  end.

(** ** Handles *)

(** [Blob::readable_length] *)
Definition readable_length (b : Blob) (off requested_len : N) : option N :=
  if (requested_len =? 0) || (b_size b <=? off) then Some 0
  else (λ r, N.min requested_len (u64_sub (end_ r) off))
         <$> ByteRanges.containing_range (available_ranges b) off.

(** Errors of the operating system, and [BlobIncomplete]. *)
Inductive IoError : Type := OsError | BlobIncomplete.

Definition set_offset (o : N) (b : Blob) : Blob :=
  {| blob_id := blob_id b; b_size := b_size b; b_hash := b_hash b;
     available_ranges := available_ranges b; pending_ranges := pending_ranges b; offset := o |}.
Definition set_pending (p : ByteRanges) (b : Blob) : Blob :=
  {| blob_id := blob_id b; b_size := b_size b; b_hash := b_hash b;
     available_ranges := available_ranges b; pending_ranges := p; offset := offset b |}.

(** [AsyncRead::poll_read] into a buffer with room for [remaining] bytes;
    [file_read n] is what the file answers to a read of at most [n] bytes. *)
Definition poll_read (file_read : N → Poll (result IoError (list byte))) (remaining : N) (b : Blob)
  : Poll (result IoError (list byte)) * Blob :=
  match readable_length b (offset b) remaining with
  | None => (Ready (Err BlobIncomplete), b)
  | Some adjusted_len =>
      if adjusted_len =? 0 then (Ready (Ok []), b)
      else match file_read adjusted_len with
           | Ready (Ok filled) =>
               (Ready (Ok filled), set_offset (u64_add (offset b) (N.of_nat (length filled))) b)
           | Ready (Err e) => (Ready (Err e), b)
           | Pending => (Pending, b)
           end
  end.

(** [AsyncSeek::poll_complete], with the file's answer *)
Definition poll_complete (file_seek : Poll (result IoError N)) (b : Blob)
  : Poll (result IoError N) * Blob :=
  match file_seek with
  | Ready (Ok pos) => (Ready (Ok pos), set_offset pos b)
  | Ready (Err e) => (Ready (Err e), b)
  | Pending => (Pending, b)
  end.

(** [AsyncWrite::poll_write], with the number of bytes that the file accepted *)
Definition poll_write (file_write : Poll (result IoError N)) (b : Blob)
  : Poll (result IoError N) * Blob :=
  match file_write with
  | Ready (Ok len) =>
      if 0 <? len then
        let start := offset b in
        let end_ := u64_add start len in
        let range := ByteRange.new start end_ in
        (file_write,
         {| blob_id := blob_id b; b_size := b_size b; b_hash := b_hash b;
            available_ranges := ByteRanges.add (available_ranges b) range;
            pending_ranges := ByteRanges.add (pending_ranges b) range;
            offset := end_ |})
      else (file_write, b)
  | _ => (file_write, b)
  end.

(** [Blob::update_db]; [sync] is the result of flushing the file. *)
Definition update_db (sync : result IoError ()) (b : Blob) (w : World)
  : sresult () * Blob * World :=
  if ByteRanges.is_empty (pending_ranges b) then (Ok (), b, w)
  else match sync with
       | Err _ => (Err Io, b, w)
       | Ok _ =>
           let ranges := pending_ranges b in
           let b := set_pending ByteRanges.new b in
           match extend_local_availability (blob_id b) ranges w with
           | (Ok tt, w) => (Ok (), b, w)
           | (Err e, w) =>
               (Err e, set_pending (ByteRanges.extend (pending_ranges b) ranges) b, w)
           end
       end.

(** [Blob::mark_verified] *)
Definition mark_verified (sync : result IoError ()) (b : Blob) (w : World)
  : sresult () * Blob * World :=
  match update_db sync b w with
  | (Ok tt, b, w) => let '(r, w) := set_content_hash (blob_id b) (b_hash b) w in (r, b, w)
  | (Err e, b, w) => (Err e, b, w)
  end.
End blobstore.

(** ** Lemmas *)

Lemma hex_digit_inj a b : a < 16 → b < 16 → hex_digit a = hex_digit b → a = b.
Proof.
  intros Ha Hb. unfold hex_digit. intros H%(f_equal N_of_ascii).
  revert H. rewrite !N_ascii_embedding by (cmp_cases; lia). cmp_cases; lia.
Qed.

Lemma snoc_inj_str s t a b : s +:+ String a "" = t +:+ String b "" → s = t ∧ a = b.
Proof.
  revert t. induction s as [|c s IH]; intros [|d t] H.
  - by injection H as ->.
  - injection H as -> H. by destruct t.
  - injection H as -> H. by destruct s.
  - injection H as -> H. by apply IH in H as [-> ->].
Qed.

Lemma hex_inj len m n : m < 16 ^ N.of_nat len → n < 16 ^ N.of_nat len → hex len m = hex len n → m = n.
Proof.
  revert m n. induction len as [|len IH]; intros m n Hm Hn.
  { rewrite N.pow_0_r in *. lia. }
  rewrite Nat2N.inj_succ, N.pow_succ_r' in Hm, Hn. simpl. intros [H1 H2]%snoc_inj_str.
  apply hex_digit_inj in H2; [|by apply N.mod_upper_bound..].
  apply IH in H1; [|by apply N.Div0.div_lt_upper_bound..].
  rewrite (N.div_mod m 16), (N.div_mod n 16) by done. congruence.
Qed.

Section blob_lemmas.
Context {R : Redb} `{!RedbLaws R} (blob_dir : string).
Implicit Types (b : Blob) (t : Txn) (w : World).

(** Different blobs have different files. *)
Lemma blob_path_inj i j :
  i < u64_modulus → j < u64_modulus → blob_path blob_dir i = blob_path blob_dir j → i = j.
Proof. intros Hi Hj H%join_path_inj. by apply (hex_inj 16). Qed.

(** Every byte of the file has been written. *)
Definition full (r : ByteRanges) (size : N) : Prop := ∀ x, x < size → mem r x = true.

Lemma single_mem size x : mem (ByteRanges.single 0 size) x = (x <? size).
Proof.
  rewrite (proj2 (single_spec 0 size)). unfold ByteRange.contains, ByteRange.new; simpl.
  cmp_cases; simpl; (done || lia).
Qed.

Lemma full_intersection r size :
  wf r → ByteRanges.single 0 size = ByteRanges.intersection (ByteRanges.single 0 size) r ↔ full r size.
Proof.
  intros Hr. pose proof (proj1 (single_spec 0 size)) as Hs.
  destruct (intersection_spec _ _ Hs Hr) as [Hi Hm]. split.
  - intros E x Hx. assert (mem (ByteRanges.single 0 size) x = true) as H
      by (rewrite single_mem; by apply N.ltb_lt).
    rewrite E, Hm in H. by apply andb_true_iff in H as [_ H].
  - intros Hf. apply wf_unique; [done|done|]. intros x. rewrite Hm, single_mem.
    destruct (N.ltb_spec x size) as [Hx|]; [|done]. by rewrite Hf.
Qed.

Lemma wf_is_empty r : wf r → ByteRanges.is_empty r = true ↔ ∀ x, mem r x = false.
Proof.
  intros Hr. split; [intros H x; by apply wf_empty_mem|].
  intros H. assert (r = ByteRanges.new) as ->; [|done].
  apply wf_unique; [done|apply wf_new|]. intros x. by rewrite H.
Qed.

Lemma wf_nonempty r : wf r → ¬ (∀ x, mem r x = false) → ∃ x, mem r x = true.
Proof.
  intros Hr Hn. destruct (iter_spec r Hr) as [Hsep Hm].
  destruct (ByteRanges.iter r) as [|c rs].
  - exfalso. apply Hn. intros x. by rewrite Hm.
  - exists (start c). rewrite Hm. simpl in Hsep |- *. unfold ByteRange.contains.
    cmp_cases; simpl; (done || lia).
Qed.

(** Every blob's areas are canonical. *)
Definition blobs_ok (bt : table N BlobTableEntry) : Prop :=
  ∀ id e, tbl_get id bt = Some e → wf (written_areas e).

Definition last_blob (bt : table N BlobTableEntry) : N := default 0 (fst <$> tbl_last bt).

Lemma last_blob_spec bt id : is_Some (tbl_get id bt) → id ≤ last_blob bt.
Proof.
  intros Hid. unfold last_blob. destruct (tbl_last bt) as [[k v]|] eqn:E; simpl.
  - apply tbl_last_greatest in E as [_ E]. by apply E.
  - rewrite (tbl_last_None _ E) in Hid. by destruct Hid.
Qed.

Definition new_blob_entry : BlobTableEntry :=
  {| written_areas := ByteRanges.new; content_hash := None |}.

Lemma do_create_blob_entry_spec bt :
  last_blob bt + 1 < u64_modulus →
  do_create_blob_entry bt =
    ((last_blob bt + 1, new_blob_entry), tbl_insert (last_blob bt + 1) new_blob_entry bt).
Proof.
  intros Hlt. unfold do_create_blob_entry, last_blob in *.
  destruct (tbl_last bt) as [[k v]|]; simpl in *; [|done].
  unfold Id.plus. by rewrite u64_add_small.
Qed.

Lemma open_blob_file_new now id size files :
  open_blob_file blob_dir now id size true files =
  <[blob_path blob_dir id := {| f_data := replicate (N.to_nat size) x00; f_mtime := now |}]> files.
Proof.
  unfold open_blob_file.
  assert (match files !! blob_path blob_dir id with
          | Some _ => {| f_data := []; f_mtime := now |}
          | None => {| f_data := []; f_mtime := now |}
          end = {| f_data := []; f_mtime := now |}) as -> by (by destruct (files !! _)).
  unfold f_len. simpl length. destruct (N.eqb_spec size (N.of_nat 0)) as [->|]; [done|].
  simpl. by rewrite resize_nil.
Qed.

(** What creating a blob of [n] bytes for a file without one leaves: a new id,
    above all others, with nothing written, and a file of zeros. *)
Record blob_created (now : UnixTime) (n : N) (b : Blob) t t' : Prop := {
  bc_id : blob_id b = last_blob (blob_table (tables t)) + 1;
  bc_new : tbl_get (blob_id b) (blob_table (tables t)) = None;
  bc_table : ∀ id, tbl_get id (blob_table (tables t')) =
    if decide (id = blob_id b) then Some new_blob_entry else tbl_get id (blob_table (tables t));
  bc_handle : b_size b = n ∧ offset b = 0 ∧
    available_ranges b = ByteRanges.new ∧ pending_ranges b = ByteRanges.new;
  bc_file : fs (ext t') = <[blob_path blob_dir (blob_id b) :=
    {| f_data := replicate (N.to_nat n) x00; f_mtime := now |}]> (fs (ext t));
  bc_rest : tables t' = set_blob_table (blob_table (tables t')) (tables t) ∧
    after_commit t' = after_commit t ∧ global (ext t') = global (ext t);
}.

Lemma create_blob_run now fe t :
  blob (content fe) = None → last_blob (blob_table (tables t)) + 1 < u64_modulus →
  ∃ b t', create_blob blob_dir now fe t = (Ok b, t') ∧
    blob_created now (size (metadata fe)) b t t'.
Proof.
  intros Hb Hlt. unfold create_blob. rewrite Hb. unfold sbind at 1, sget.
  rewrite do_create_blob_entry_spec by done.
  unfold sbind, put_blob_table, smodify, sret. eexists _, _. split; [done|].
  split; simpl; try done.
  - destruct (tbl_get _ _) as [e|] eqn:E; [|done].
    assert (is_Some (tbl_get (last_blob (blob_table (tables t)) + 1) (blob_table (tables t)))) as H
      by (by eexists). apply last_blob_spec in H. lia.
  - intros id. by rewrite get_insert.
  - apply open_blob_file_new.
Qed.

(** Changing the entry of a blob. *)
Lemma write_blob_entry id (f : BlobTableEntry → BlobTableEntry) w :
  write_txn (
    let* table := sget (λ t, blob_table (tables t)) in
    let* e := slift (get_blob_entry table id) in
    do* put_blob_table (tbl_insert id (f e) table) in
    sret (Commit ())) w =
  match tbl_get id (blob_table (db w)) with
  | Some e => (Ok (), commit (set_tables (set_blob_table (tbl_insert id (f e) (blob_table (db w))) (db w))
                                (begin_write w)) w)
  | None => (Err NotFound, rollback (begin_write w) w)
  end.
Proof.
  unfold write_txn, sbind, sget, slift, get_blob_entry, put_blob_table, smodify, sret. simpl.
  by destruct (tbl_get id (blob_table (db w))).
Qed.

(** ** Lemmas on handles *)

(** Offsets that fit a [u64]. *)
Definition ranges_u64 (r : ByteRanges) : Prop := Forall (λ kv, kv.1 < u64_modulus) (points r).

Lemma contains_iff c x : ByteRange.contains c x = true ↔ start c ≤ x ∧ x < end_ c.
Proof. unfold ByteRange.contains. cmp_cases; simpl; split; (done || lia). Qed.

Lemma separated_end lo rs c :
  separated lo rs → c ∈ rs → existsb (λ d, ByteRange.contains d (end_ c)) rs = false.
Proof.
  revert lo. induction rs as [|d rs IH]; intros lo; [by intros _ ?%not_elem_of_nil|].
  simpl. intros (H1 & H2 & H3) Hc.
  assert (∀ lo e, separated lo rs → e < lo → existsb (λ d, ByteRange.contains d e) rs = false) as Hlow.
  { clear. induction rs as [|d rs IH]; [done|]. simpl. intros lo e (H1 & H2 & H3) He.
    rewrite (IH (end_ d + 1)) by (done || lia). rewrite orb_false_r.
    apply not_true_iff_false. rewrite contains_iff. lia. }
  assert (∀ lo e, separated lo rs → e ∈ rs → lo ≤ start e ∧ start e < end_ e) as Hin.
  { clear. induction rs as [|d rs IH]; intros lo e; [by intros _ ?%not_elem_of_nil|].
    simpl. intros (H1 & H2 & H3) [->|He]%elem_of_cons; [done|].
    destruct (IH _ e H3 He). split; [lia|done]. }
  apply elem_of_cons in Hc as [->|Hc].
  - rewrite (Hlow (end_ d + 1)) by (done || lia). rewrite orb_false_r.
    apply not_true_iff_false. rewrite contains_iff. lia.
  - rewrite (IH _ H3 Hc), orb_false_r. apply not_true_iff_false. rewrite contains_iff.
    destruct (Hin _ _ H3 Hc). lia.
Qed.

(** What happens to the areas of a blob: the handle wrote a range, or another handle
    of the same blob had areas that it wrote listed by the database. *)
Inductive area_event : Type := Wrote (r : ByteRange) | Reported (r : ByteRanges).

(** What can be done with a handle, while others of the same blob report what they
    wrote; the label is what the file accepted, and what was reported. *)
Inductive handle_step : Blob * World → list area_event → Blob * World → Prop :=
| hs_write b w res :
    (∀ n, res = Ready (Ok n) → offset b + n < u64_modulus) →
    handle_step (b, w)
      (match res with Ready (Ok n) => [Wrote (ByteRange.new (offset b) (offset b + n))] | _ => [] end)
      ((poll_write res b).2, w)
| hs_read b w file n : handle_step (b, w) [] ((poll_read file n b).2, w)
| hs_seek b w res : handle_step (b, w) [] ((poll_complete res b).2, w)
| hs_update b w sync r b' w' : update_db sync b w = (r, b', w') → handle_step (b, w) [] (b', w')
| hs_verify b w sync r b' w' : mark_verified sync b w = (r, b', w') → handle_step (b, w) [] (b', w')
| hs_other b w o sync r o' w' :
    blob_id o = blob_id b → wf (pending_ranges o) → update_db sync o w = (r, o', w') →
    handle_step (b, w) (match r with Ok _ => [Reported (pending_ranges o)] | Err _ => [] end) (b, w').

Inductive handle_run : Blob * World → list area_event → Blob * World → Prop :=
| hr_nil s : handle_run s [] s
| hr_step s1 l s2 l' s3 : handle_run s1 l s2 → handle_step s2 l' s3 → handle_run s1 (l' ++ l) s3.

Definition covered (l : list ByteRange) (x : N) : bool := existsb (λ c, ByteRange.contains c x) l.

(** The offsets that the handle wrote, and those that others reported. *)
Definition wrote_at (l : list area_event) (x : N) : bool :=
  existsb (λ e, match e with Wrote r => ByteRange.contains r x | Reported _ => false end) l.
Definition reported (l : list area_event) (x : N) : bool :=
  existsb (λ e, match e with Wrote _ => false | Reported r => mem r x end) l.

(** The handle of a blob opened with the areas [init] and the size [n], after [l]:
    between what the database lists and what the handle adds to it are only the areas
    of other handles. *)
Record handle_inv (id : BlobId) (n : N) (init : ByteRanges) (l : list area_event) (s : Blob * World) : Prop := {
  hi_id : blob_id s.1 = id;
  hi_size : b_size s.1 = n;
  hi_avail : wf (available_ranges s.1) ∧
    ∀ x, mem (available_ranges s.1) x = mem init x || wrote_at l x;
  hi_entry : ∃ e, tbl_get id (blob_table (db s.2)) = Some e ∧ wf (written_areas e) ∧
    ∀ x, mem (available_ranges s.1) x || reported l x = mem (written_areas e) x || mem (pending_ranges s.1) x;
  hi_pending : wf (pending_ranges s.1);
  hi_ends : ∀ x, wrote_at l x = true → x + 1 < u64_modulus;
}.

Lemma wrote_at_app l l' x : wrote_at (l ++ l') x = wrote_at l x || wrote_at l' x.
Proof. apply existsb_app. Qed.

Lemma reported_app l l' x : reported (l ++ l') x = reported l x || reported l' x.
Proof. apply existsb_app. Qed.

(** What [update_db] does, by what is pending and whether the blob still exists. *)
Lemma update_db_run sync b w :
  update_db sync b w =
    if ByteRanges.is_empty (pending_ranges b) then (Ok (), b, w)
    else match sync with
         | Err _ => (Err Io, b, w)
         | Ok _ =>
             match tbl_get (blob_id b) (blob_table (db w)) with
             | Some e =>
                 (Ok (), set_pending ByteRanges.new b,
                  commit (set_tables (set_blob_table
                    (tbl_insert (blob_id b)
                       {| written_areas := ByteRanges.union (written_areas e) (pending_ranges b);
                          content_hash := content_hash e |} (blob_table (db w))) (db w))
                    (begin_write w)) w)
             | None => (Err NotFound, b, rollback (begin_write w) w)
             end
         end.
Proof.
  unfold update_db. destruct (ByteRanges.is_empty _); [done|]. destruct sync as [|e]; [|done].
  unfold extend_local_availability. rewrite (write_blob_entry _ (λ e,
    {| written_areas := ByteRanges.union (written_areas e) (pending_ranges b);
       content_hash := content_hash e |})).
  simpl blob_id. destruct (tbl_get (blob_id b) (blob_table (db w))); [done|].
  do 2 f_equal. by destruct b.
Qed.

Lemma update_db_inv id n init l sync b w r b' w' :
  handle_inv id n init l (b, w) → update_db sync b w = (r, b', w') → handle_inv id n init l (b', w').
Proof.
  intros [H1 Hz [H2 H3] (e & He & Hwe & Hme) H4 H5]. simpl in *. subst id n. rewrite update_db_run.
  destruct (ByteRanges.is_empty _); [intros [= <- <- <-]; split; simpl; eauto|].
  destruct sync as [|?]; [|intros [= <- <- <-]; split; simpl; eauto].
  rewrite He. intros [= <- <- <-]. split; simpl; [done..| |apply wf_new|done].
  destruct (union_spec _ _ Hwe H4) as [Hwu Hmu].
  eexists. split; [by rewrite ?commit_db; simpl; rewrite get_insert_eq|]. split; [done|].
  intros x. simpl. rewrite Hme, Hmu. by rewrite orb_false_r.
Qed.

(** Another handle reports what it wrote. *)
Lemma update_other_inv id n init l sync b w o r o' w' :
  handle_inv id n init l (b, w) → blob_id o = id → wf (pending_ranges o) →
  update_db sync o w = (r, o', w') →
  handle_inv id n init (match r with Ok _ => [Reported (pending_ranges o)] | Err _ => [] end ++ l) (b, w').
Proof.
  intros [H1 Hz [H2 H3] (e & He & Hwe & Hme) H4 H5] Ho Hp. simpl in *. rewrite update_db_run, Ho.
  destruct (ByteRanges.is_empty _) eqn:Ep.
  - intros [= <- <- <-]. split; simpl; try done. exists e. split_and!; [done..|]. intros x. simpl.
    by rewrite (proj1 (wf_is_empty _ Hp) Ep), <- Hme.
  - destruct sync as [|?]; [|intros [= <- <- <-]; split; simpl; eauto].
    rewrite He. intros [= <- <- <-]. split; simpl; try done.
    destruct (union_spec _ _ Hwe Hp) as [Hwu Hmu].
    eexists. split; [by rewrite ?commit_db; simpl; rewrite get_insert_eq|]. split; [done|].
    intros x. simpl. rewrite Hmu. rewrite (orb_comm (mem (pending_ranges o) x)), orb_assoc, Hme.
    rewrite <- !orb_assoc. f_equal. apply orb_comm.
Qed.

Lemma write_inv id n init l res b w :
  handle_inv id n init l (b, w) → (∀ k, res = Ready (Ok k) → offset b + k < u64_modulus) →
  handle_inv id n init
    (match res with Ready (Ok k) => [Wrote (ByteRange.new (offset b) (offset b + k))] | _ => [] end ++ l)
    ((poll_write res b).2, w).
Proof.
  intros [H1 Hz [H2 H3] (e & He & Hwe & Hme) H4 H5] Hn. simpl in *.
  destruct res as [|[k|]]; simpl; [by split; eauto| |by split; eauto].
  pose proof (Hn k eq_refl) as Hlt.
  assert (∀ x, ByteRange.contains (ByteRange.new (offset b) (offset b + k)) x || wrote_at l x = true → x + 1 < u64_modulus) as Hends.
  { intros x [Hx%contains_iff|Hx]%orb_true_iff; [simpl in Hx; lia|by apply H5]. }
  destruct (N.ltb_spec 0 k) as [Hp|Hp]; simpl.
  - rewrite u64_add_small by done.
    destruct (add_spec _ (ByteRange.new (offset b) (offset b + k)) H2) as [Ha1 Ha2].
    destruct (add_spec _ (ByteRange.new (offset b) (offset b + k)) H4) as [Hp1 Hp2].
    split; simpl; [done|done| |exists e; split_and!; [done|done|]|done|done].
    + split; [done|]. intros x. rewrite Ha2, H3. rewrite <- orb_assoc. f_equal. apply orb_comm.
    + intros x. specialize (Hme x). rewrite Ha2, Hp2.
      destruct (ByteRange.contains _ x); rewrite ?orb_true_r, ?orb_false_r; simpl; [by rewrite ?orb_true_r|done].
  - split; simpl; [done|done| |by exists e|done|done]. split; [done|]. intros x. rewrite H3.
    destruct (ByteRange.contains _ x) eqn:Ec; [|done]. apply contains_iff in Ec. simpl in Ec. lia.
Qed.

Lemma handle_step_inv id n init l l' s s' :
  handle_inv id n init l s → handle_step s l' s' → handle_inv id n init (l' ++ l) s'.
Proof.
  intros Hi Hs.
  destruct Hs as [b w res Hn|b w file k|b w res|b w sync r b' w' H|b w sync r b' w' H|b w o sync r o' w' Ho Hp H].
  - by apply write_inv.
  - destruct Hi as [H1 Hz H2 H3 H4 H5]. unfold poll_read. destruct (readable_length _ _ _) as [j|]; [|done].
    destruct (j =? 0); [done|]. destruct (file j) as [|[]]; done.
  - destruct Hi as [H1 Hz H2 H3 H4 H5]. destruct res as [|[]]; done.
  - by eapply update_db_inv.
  - unfold mark_verified in H. destruct (update_db sync b w) as [[[[]|e] b1] w1] eqn:E;
      apply (update_db_inv id n init l) in E; try done.
    + destruct E as [H1 Hz H2 (e & He & Hwe & Hme) H4 H5]. simpl in *.
      unfold set_content_hash in H. rewrite (write_blob_entry _ (λ e,
        {| written_areas := written_areas e; content_hash := Some (b_hash b1) |})) in H.
      rewrite H1, He in H. injection H as <- <- <-. split; simpl; [done|done|done| |done|done].
      eexists. split; [by rewrite ?commit_db; simpl; rewrite get_insert_eq|]. done.
    + by injection H as <- <- <-.
  - apply (update_other_inv id n init l sync b w o r o' w' Hi); [|done..]. by rewrite Ho, <- (hi_id _ _ _ _ _ Hi).
Qed.

Lemma handle_run_inv id n init l l' s s' :
  handle_run s l' s' → handle_inv id n init l s → handle_inv id n init (l' ++ l) s'.
Proof.
  induction 1 as [s|s1 l1 s2 l2 s3 _ IH Hs]; intros Hi; [done|].
  rewrite <- app_assoc. eapply handle_step_inv; [by apply IH|done].
Qed.

(** ** Properties *)

(** What the database says of a file's content is exact: nothing without a
    blob, an error for a blob it does not know; otherwise verified or complete
    exactly when every byte of the file is in the written areas, the difference
    being whether the verified hash is that of the file, missing when no byte is
    written, and partial, with the written areas, in between. *)
Theorem local_availability_spec (bt : table N BlobTableEntry) (fe : FileTableEntry) (Hbt : blobs_ok bt) :
  match blob (content fe) with
  | None => local_availability bt fe = Ok Missing
  | Some id =>
      match tbl_get id bt with
      | None => local_availability bt fe = Err NotFound
      | Some e =>
          (local_availability bt fe = Ok Verified ↔
             full (written_areas e) (size (metadata fe)) ∧
             content_hash e = Some (fc_hash (content fe))) ∧
          (local_availability bt fe = Ok Complete ↔
             full (written_areas e) (size (metadata fe)) ∧
             content_hash e ≠ Some (fc_hash (content fe))) ∧
          (local_availability bt fe = Ok Missing ↔
             ¬ full (written_areas e) (size (metadata fe)) ∧ ∀ x, mem (written_areas e) x = false) ∧
          (∀ n r, local_availability bt fe = Ok (Partial n r) ↔
             ¬ full (written_areas e) (size (metadata fe)) ∧
             (∃ x, mem (written_areas e) x = true) ∧ n = size (metadata fe) ∧ r = written_areas e)
      end
  end.
Proof.
  unfold local_availability. destruct (blob (content fe)) as [id|]; [|done].
  unfold get_blob_entry. destruct (tbl_get id bt) as [e|] eqn:E; simpl; [|done].
  pose proof (Hbt id e E) as Hw. pose proof (full_intersection _ (size (metadata fe)) Hw) as Hf.
  pose proof (wf_is_empty _ Hw) as He.
  assert (default false ((λ h, bool_decide (fc_hash (content fe) = h)) <$> content_hash e) = true ↔
    content_hash e = Some (fc_hash (content fe))) as Hh.
  { destruct (content_hash e) as [h|]; simpl; [|done]. rewrite bool_decide_eq_true. naive_solver. }
  case_bool_decide as Hi; [apply Hf in Hi|].
  - assert (default false ((λ h, bool_decide (fc_hash (content fe) = h)) <$> content_hash e) = false →
      content_hash e ≠ Some (fc_hash (content fe))) as Hh' by (intros Hd Hc; apply Hh in Hc; congruence).
    destruct (default _ _); [pose proof (proj1 Hh eq_refl)|pose proof (Hh' eq_refl)];
      split_and!; try intros n r; (split; [done || tauto|done || tauto]).
  - assert (¬ full (written_areas e) (size (metadata fe))) as Hnf by (by rewrite <- Hf).
    destruct (ByteRanges.is_empty (written_areas e)) eqn:Ee.
    + pose proof (proj1 He eq_refl) as Hm.
      split_and!; try intros n r; (split; [done || tauto|]); [tauto..|done|].
      intros (_ & [x Hx] & _). by rewrite Hm in Hx.
    + destruct (wf_nonempty _ Hw) as [x Hx]; [intros Hm%He; done|].
      split_and!; [split; [done|tauto]..|split; [done|]|intros n r; split].
      * intros [_ Hm]. by rewrite Hm in Hx.
      * intros [= <- <-]. split_and!; [done|by exists x|done|done].
      * intros (_ & _ & -> & ->). done.
Qed.

(** Where the ranges of a set end, by the offsets in it. *)
Lemma bounded_ends r c :
  wf r → (∀ x, mem r x = true → x + 1 < u64_modulus) → c ∈ ByteRanges.iter r → end_ c < u64_modulus.
Proof.
  intros Hw Hb Hc. destruct (iter_spec _ Hw) as [Hsep Hm]. assert (start c < end_ c) as Hlt.
  { clear Hm. revert Hsep Hc. generalize 0. induction (ByteRanges.iter r) as [|d rs IH]; intros lo; [by intros _ ?%not_elem_of_nil|].
    simpl. intros (H1 & H2 & H3) [->|Hc]%elem_of_cons; [done|]. by eapply IH. }
  assert (mem r (end_ c - 1) = true) as H; [|apply Hb in H; lia].
  rewrite Hm. apply existsb_exists. exists c. rewrite <- list_elem_of_In, contains_iff. split; [done|lia].
Qed.

Lemma readable_length_run b (off n : N)
  (Hw : wf (available_ranges b)) (Hends : ∀ c, c ∈ ByteRanges.iter (available_ranges b) → end_ c < u64_modulus) (Hs : b_size b < u64_modulus) :
  (∀ k, readable_length b off n = Some k →
     k ≤ n ∧ (∀ x, off ≤ x → x < off + k → mem (available_ranges b) x = true) ∧
     (k = 0 ↔ n = 0 ∨ b_size b ≤ off) ∧
     (0 < k → k < n → mem (available_ranges b) (off + k) = false)) ∧
  (readable_length b off n = None ↔
     n ≠ 0 ∧ off < b_size b ∧ mem (available_ranges b) off = false).
Proof.
  unfold readable_length. destruct (N.eqb_spec n 0) as [->|Hn]; simpl.
  { split; [|split; [done|tauto]]. intros k [= <-]. split_and!; try lia. }
  destruct (N.leb_spec (b_size b) off) as [Ho|Ho]; simpl.
  { split; [|split; [done|lia]]. intros k [= <-]. split_and!; lia. }
  destruct (available_ranges b) as [t] eqn:Et. rewrite containing_points by (apply Hw || lia).
  destruct (iter_spec _ Hw) as [Hsep Hm]. unfold ByteRanges.iter in *. simpl in *.
  destruct (List.find _ _) as [c|] eqn:Ef; simpl.
  - apply List.find_some in Ef as [Hin Hc]. apply contains_iff in Hc.
    apply list_elem_of_In in Hin. specialize (Hends c Hin).
    rewrite u64_sub_small by lia.
    split; [|split; [done|]].
    + intros k [= <-]. split_and!; [lia| |lia|].
      * intros x ??. rewrite Hm. apply existsb_exists. exists c. rewrite <- list_elem_of_In, contains_iff.
        split; [done|lia].
      * intros _ Hk. replace (off + N.min n (end_ c - off)) with (end_ c) by lia.
        rewrite Hm. by apply (separated_end 0).
    + intros (_ & _ & Hf). rewrite Hm in Hf.
      assert (existsb (λ d, ByteRange.contains d off) (ByteRanges.iter_points t) = true); [|congruence].
      apply existsb_exists. exists c. by rewrite <- list_elem_of_In, contains_iff.
  - split; [done|]. split; [intros _|done]. split_and!; [done|done|].
    rewrite Hm. apply not_true_iff_false. intros (c & Hin & Hc)%existsb_exists.
    by rewrite (List.find_none _ _ Ef c Hin) in Hc.
Qed.

(** A read at an offset may return what it is told to, and no more: the
    length is at most the one requested, every byte of it is available, and it
    stops short only at a byte that is not; it is zero only for an empty request
    or past the end of the file, and refused exactly when the byte at the offset
    is in the file but not available. *)
Theorem readable_length_spec b (off n : N)
  (Hw : wf (available_ranges b)) (Hu : ranges_u64 (available_ranges b)) (Hs : b_size b < u64_modulus) :
  (∀ k, readable_length b off n = Some k →
     k ≤ n ∧ (∀ x, off ≤ x → x < off + k → mem (available_ranges b) x = true) ∧
     (k = 0 ↔ n = 0 ∨ b_size b ≤ off) ∧
     (0 < k → k < n → mem (available_ranges b) (off + k) = false)) ∧
  (readable_length b off n = None ↔
     n ≠ 0 ∧ off < b_size b ∧ mem (available_ranges b) off = false).
Proof.
  apply readable_length_run; [done| |done]. destruct (available_ranges b) as [t].
  pose proof (iter_points_ends t Hu) as Hends. rewrite Forall_forall in Hends. intros c Hc.
  specialize (Hends c Hc). unfold u64_max, u64_modulus in *. lia.
Qed.

(** What a read at the position of the handle may ask of the file: the bytes [mem]
    has from there on, at most [n] of them and at least one. *)
Definition serves (avail : N → bool) (off n k : N) : Prop :=
  0 < k ∧ k ≤ n ∧ (∀ x, off ≤ x → x < off + k → avail x = true) ∧ (k < n → avail (off + k) = false).

(** A read asks the file for what it has of the bytes asked for, gives what the
    file answered and moves on by as much; it is refused, without asking, where the
    next byte is not there, and gives nothing past the end. *)
Lemma poll_read_run (file_read : N → Poll (result IoError (list byte))) (n : N) b
  (Hw : wf (available_ranges b)) (Hb : ∀ x, mem (available_ranges b) x = true → x + 1 < u64_modulus)
  (Hs : b_size b < u64_modulus) :
  if (n =? 0) || (b_size b <=? offset b) then poll_read file_read n b = (Ready (Ok []), b)
  else if mem (available_ranges b) (offset b) then
    ∃ k, serves (mem (available_ranges b)) (offset b) n k ∧
      poll_read file_read n b =
        (file_read k, match file_read k with
                      | Ready (Ok l) => set_offset (u64_add (offset b) (N.of_nat (length l))) b
                      | _ => b
                      end)
  else poll_read file_read n b = (Ready (Err BlobIncomplete), b).
Proof.
  destruct (readable_length_run b (offset b) n Hw) as [H1 H2]; [|done|].
  { intros c Hc. by eapply bounded_ends. }
  unfold poll_read. destruct (readable_length b (offset b) n) as [k|].
  - destruct (H1 k eq_refl) as (Hk & Hx & H0 & Hstop). destruct (N.eqb_spec k 0) as [->|Hk0].
    + destruct (proj1 H0 eq_refl) as [->|Hle]; [done|]. apply N.leb_le in Hle. by rewrite Hle, orb_true_r.
    + destruct (N.eqb_spec n 0); [naive_solver|]. destruct (N.leb_spec (b_size b) (offset b)); [naive_solver|]. simpl.
      rewrite Hx by lia. exists k. split; [split_and!; [lia|done|done|intros; apply Hstop; lia]|].
      by destruct (file_read k) as [|[]].
  - destruct (proj1 H2 eq_refl) as (Hn & Hlt & Hm). apply N.eqb_neq in Hn. apply N.leb_gt in Hlt.
    by rewrite Hn, Hlt, Hm.
Qed.

Lemma handle_opened id fe e0 w :
  tbl_get id (blob_table (db w)) = Some e0 → wf (written_areas e0) →
  handle_inv id (size (metadata fe)) (written_areas e0) [] (Blob_new id fe e0, w).
Proof.
  intros He0 Hwf. split; simpl; [done|done| | |apply wf_new|done].
  - split; [done|]. intros x. by rewrite orb_false_r.
  - exists e0. split_and!; [done|done|]. intros x. by rewrite !orb_false_r.
Qed.

(** When the file can be flushed [update_db] makes the database list what the handle
    has and what others reported. *)
Lemma update_db_lists id (has : N → bool) l b w e :
  blob_id b = id → wf (available_ranges b) → (∀ x, mem (available_ranges b) x = has x) →
  tbl_get id (blob_table (db w)) = Some e → wf (written_areas e) → wf (pending_ranges b) →
  (∀ x, mem (available_ranges b) x || reported l x = mem (written_areas e) x || mem (pending_ranges b) x) →
  ∃ b' w' e', update_db (Ok ()) b w = (Ok (), b', w') ∧
    tbl_get id (blob_table (db w')) = Some e' ∧ (∀ x, mem (written_areas e') x = has x || reported l x) ∧
    available_ranges b' = available_ranges b ∧ (∀ x, mem (pending_ranges b') x = false) ∧
    ((∀ x, reported l x = false) → written_areas e' = available_ranges b').
Proof.
  intros H1 H2 H3 He Hwe H4 Hme.
  assert (∀ e', wf (written_areas e') → (∀ x, mem (written_areas e') x = has x || reported l x) →
    (∀ x, reported l x = false) → written_areas e' = available_ranges b) as Heq.
  { intros e' Hw' Hm Hno. apply wf_unique; [done|done|]. intros x. by rewrite Hm, H3, Hno, orb_false_r. }
  rewrite update_db_run. destruct (ByteRanges.is_empty (pending_ranges b)) eqn:Ep.
  - assert (∀ x, mem (written_areas e) x = has x || reported l x) as Hm.
    { intros x. by rewrite <- H3, Hme, (proj1 (wf_is_empty _ H4) Ep), orb_false_r. }
    exists b, w, e. split_and!; [done|done|done|done|by apply wf_is_empty|by apply Heq].
  - rewrite H1, He. destruct (union_spec _ _ Hwe H4) as [Hwu Hmu].
    assert (∀ x, mem (ByteRanges.union (written_areas e) (pending_ranges b)) x = has x || reported l x) as Hm.
    { intros x. by rewrite Hmu, <- H3, Hme. }
    eexists _, _, _. split; [done|]. rewrite commit_db. simpl. rewrite get_insert_eq.
    split_and!; [done|done|done|done|]. by apply (Heq {| written_areas := _; content_hash := content_hash e |}).
Qed.

(** C15: however a handle is used, and whatever other handles of its blob report in
    the meantime, the bytes it has are those the database listed when it was opened
    and those written through it since.  A read asks the file for bytes that it has
    only, as many of those asked for as follow each other, gives what the file
    answers, moves on by as much, and is refused where the next byte is not there.
    The database lists no more than what the handle has and what others reported, and
    a successful [update_db] leaves nothing pending: the database then lists exactly
    these, and just what the handle has when there was no other.  When the blob is
    gone the call fails and forgets nothing. *)
Theorem handle_tracks_writes (id : BlobId) (fe : FileTableEntry) (e0 : BlobTableEntry) (w0 : World)
  (l : list area_event) b w
  (He0 : tbl_get id (blob_table (db w0)) = Some e0) (Hwf : wf (written_areas e0))
  (Hends : ∀ x, mem (written_areas e0) x = true → x + 1 < u64_modulus)
  (Hsize : size (metadata fe) < u64_modulus)
  (Hrun : handle_run (Blob_new id fe e0, w0) l (b, w)) :
  let has x := mem (written_areas e0) x || wrote_at l x in
  (∀ file_read n,
     if (n =? 0) || (size (metadata fe) <=? offset b) then poll_read file_read n b = (Ready (Ok []), b)
     else if has (offset b) then
       ∃ k, serves has (offset b) n k ∧
         poll_read file_read n b =
           (file_read k, match file_read k with
                         | Ready (Ok bs) => set_offset (u64_add (offset b) (N.of_nat (length bs))) b
                         | _ => b
                         end)
     else poll_read file_read n b = (Ready (Err BlobIncomplete), b)) ∧
  (∃ e, tbl_get id (blob_table (db w)) = Some e ∧
     (∀ x, mem (written_areas e) x = true → has x || reported l x = true) ∧
     ∃ b' w' e', update_db (Ok ()) b w = (Ok (), b', w') ∧
       tbl_get id (blob_table (db w')) = Some e' ∧ (∀ x, mem (written_areas e') x = has x || reported l x) ∧
       available_ranges b' = available_ranges b ∧ (∀ x, mem (pending_ranges b') x = false) ∧
       ((∀ x, reported l x = false) → written_areas e' = available_ranges b')) ∧
  (∀ w', tbl_get id (blob_table (db w')) = None → ByteRanges.is_empty (pending_ranges b) = false →
     ∃ w'', update_db (Ok ()) b w' = (Err NotFound, b, w'') ∧ db w'' = db w').
Proof.
  intros has. apply (handle_run_inv id (size (metadata fe)) (written_areas e0) []) in Hrun;
    [|by apply handle_opened]. rewrite app_nil_r in Hrun.
  destruct Hrun as [H1 Hz [H2 H3] (e & He & Hwe & Hme) H4 H5]. simpl in *. split_and!.
  - intros file_read n. pose proof (poll_read_run file_read n b H2) as H. rewrite Hz, H3 in H.
    assert (∀ k, serves (mem (available_ranges b)) (offset b) n k → serves has (offset b) n k) as Hsv.
    { intros k (?&?&Hx&Hy). split_and!; [done..| |]; [intros x ??; unfold has; rewrite <- H3; by apply Hx|].
      intros Hlt. unfold has. rewrite <- H3. by apply Hy. }
    specialize (H ltac:(intros x; rewrite H3; intros [Hx|Hx]%orb_true_iff; auto) Hsize).
    fold (has (offset b)) in H. destruct ((n =? 0) || _); [done|].
    destruct (has (offset b)); [|done]. destruct H as (k & Hk & E). exists k. auto.
  - exists e. split_and!; [done|by intros x Hx; unfold has; rewrite <- H3, Hme, Hx|].
    by apply (update_db_lists id has l b w e).
  - intros w' Hnone Hp. rewrite update_db_run, Hp, H1, Hnone. by eexists.
Qed.

(** A file without a blob gets a new one: an id that no blob of the database
    has, an entry and a handle with nothing written, and a file of zeros of the
    right size; the entries and the files of the other blobs stay as they are. *)
Theorem create_blob_spec (now : UnixTime) (fe : FileTableEntry) t
  (Hb : blob (content fe) = None) (Hlt : last_blob (blob_table (tables t)) + 1 < u64_modulus)
  (Hok : blobs_ok (blob_table (tables t))) :
  ∃ b t', create_blob blob_dir now fe t = (Ok b, t') ∧
    blob_created now (size (metadata fe)) b t t' ∧ blobs_ok (blob_table (tables t')) ∧
    (∀ id, is_Some (tbl_get id (blob_table (tables t))) →
       id < blob_id b ∧
       tbl_get id (blob_table (tables t')) = tbl_get id (blob_table (tables t)) ∧
       fs (ext t') !! blob_path blob_dir id = fs (ext t) !! blob_path blob_dir id).
Proof.
  destruct (create_blob_run now fe t Hb Hlt) as (b & t' & Hrun & Hc).
  exists b, t'. split_and!; [done|done| |].
  - intros id e. rewrite (bc_table _ _ _ _ _ Hc). case_decide; [|by apply Hok].
    intros [= <-]. apply wf_new.
  - intros id Hid. pose proof (last_blob_spec _ _ Hid) as Hle. pose proof (bc_id _ _ _ _ _ Hc) as Hnew.
    split_and!; [lia| |].
    + rewrite (bc_table _ _ _ _ _ Hc). rewrite decide_False; [done|lia].
    + rewrite (bc_file _ _ _ _ _ Hc), lookup_insert_ne; [done|].
      intros E. apply blob_path_inj in E; lia.
Qed.

(** Creating the blob of a file that already has one, which happens when
    another reader creates it between the two transactions of [open_file],
    erases its content: the file is truncated to zeros while the database and
    the new handle still list the areas written before. *)
Theorem create_blob_truncates (now : UnixTime) (fe : FileTableEntry) (id : BlobId) (e : BlobTableEntry) t
  (Hb : blob (content fe) = Some id) (He : tbl_get id (blob_table (tables t)) = Some e) :
  ∃ b t', create_blob blob_dir now fe t = (Ok b, t') ∧ blob_id b = id ∧
    tables t' = tables t ∧ available_ranges b = written_areas e ∧
    f_data <$> fs (ext t') !! blob_path blob_dir id =
      Some (replicate (N.to_nat (size (metadata fe))) x00).
Proof.
  unfold create_blob. rewrite Hb. unfold sbind, sget, slift, get_blob_entry, smodify, sret.
  rewrite He. simpl. eexists _, _. split; [done|].
  rewrite open_blob_file_new. simpl. by rewrite lookup_insert_eq.
Qed.

(** Blob ids are reused: when the last blob is deleted while a handle on it
    is open, the next blob gets its id, and what the old handle reports is taken
    for content of the new one, which then counts as complete although nothing
    of it was ever downloaded. *)
Theorem stale_handle_reports (now : UnixTime) (fe : FileTableEntry) (b : Blob) (w : World)
  (Hb : blob (content fe) = None) (Hid : blob_id b < u64_modulus)
  (Hlast : last_blob (tbl_remove (blob_id b) (blob_table (db w))) + 1 = blob_id b)
  (Hpend : wf (pending_ranges b)) (Hne : ByteRanges.is_empty (pending_ranges b) = false)
  (Hfull : full (pending_ranges b) (size (metadata fe))) :
  ∃ b' w1 b2 w2,
    write_txn (do* delete_blob blob_dir (blob_id b) in
               let* b' := create_blob blob_dir now fe in sret (Commit b')) w = (Ok b', w1) ∧
    blob_id b' = blob_id b ∧
    local_availability (blob_table (db w1)) (set_blob fe (Some (blob_id b'))) =
      (if size (metadata fe) =? 0 then Ok Complete else Ok Missing) ∧
    update_db (Ok ()) b w1 = (Ok (), b2, w2) ∧
    local_availability (blob_table (db w2)) (set_blob fe (Some (blob_id b'))) = Ok Complete ∧
    f_data <$> fs (w_ext w2) !! blob_path blob_dir (blob_id b') =
      Some (replicate (N.to_nat (size (metadata fe))) x00).
Proof.
  unfold write_txn, delete_blob, put_blob_table. unfold sbind at 1. unfold sbind, sget, smodify.
  set (t0 := set_fs _ _).
  destruct (create_blob_run now fe t0 Hb) as (b' & t1 & Hrun & [C1 C2 C3 C4 C5 C6]);
    [by simpl; rewrite Hlast|]. simpl in C1. rewrite Hlast in C1.
  rewrite Hrun. simpl.
  assert (tbl_get (blob_id b) (blob_table (tables t1)) = Some new_blob_entry) as Hnew
    by (rewrite C3, C1; by rewrite decide_True).
  exists b', (commit t1 w). rewrite update_db_run, Hne, !commit_db, Hnew. eexists _, _.
  split; [done|]. split; [done|]. rewrite C1. split_and!; [|done| |].
  - unfold local_availability, get_blob_entry. simpl. rewrite Hnew. simpl.
    pose proof (full_intersection ByteRanges.new (size (metadata fe)) wf_new) as Hf.
    destruct (N.eqb_spec (size (metadata fe)) 0) as [Hz|Hn].
    + rewrite bool_decide_true; [done|]. apply Hf. intros x Hx. lia.
    + rewrite bool_decide_false; [done|]. intros Hx%Hf. specialize (Hx 0). simpl in Hx.
      assert (false = true); [|done]. apply Hx. lia.
  - unfold local_availability, get_blob_entry. rewrite commit_db. simpl. rewrite get_insert_eq. simpl.
    destruct (union_spec ByteRanges.new _ wf_new Hpend) as [Hu Hm].
    rewrite bool_decide_true; [done|]. apply full_intersection; [done|].
    intros x Hx. rewrite Hm, (Hfull x Hx). by rewrite orb_true_r.
  - rewrite commit_ext. simpl. rewrite commit_ext, C5, C1, lookup_insert_eq. done.
Qed.
End blob_lemmas.

(** ** Witnesses *)
Section witnesses.
#[local] Existing Instance gmap_redb.

Definition a_hash : Hash := mkHash (replicate 32 x01).
Definition a_file : FileTableEntry := FileTableEntry_new (mkPath "a.txt") 10 UnixTime.ZERO a_hash 5.
Definition half : BlobTableEntry :=
  {| written_areas := ByteRanges.single 0 5; content_hash := None |}.
Definition with_blob : World :=
  {| db := set_blob_table (tbl_insert 1 half tbl_empty) arena_empty;
     w_ext := {| fs := ∅; global := global_empty |}; watch_tx := 0; history_tx := 0 |}.
Definition handle : Blob := Blob_new 1 a_file half.

Lemma with_blob_ok : blobs_ok (blob_table (db with_blob)).
Proof.
  intros id e. change (blob_table (db with_blob)) with (tbl_insert 1 half tbl_empty : table N BlobTableEntry).
  rewrite get_insert, get_empty. case_decide; [|done]. intros [= <-]. apply single_spec.
Qed.

Example local_availability_spec_witness :
  local_availability (blob_table (db with_blob)) (set_blob a_file (Some 1)) =
    Ok (Partial 10 (ByteRanges.single 0 5)).
Proof.
  apply (local_availability_spec (blob_table (db with_blob)) (set_blob a_file (Some 1)) with_blob_ok).
  split_and!; [|by exists 0|done|done]. intros H. by specialize (H 9 eq_refl).
Defined.

Example readable_length_spec_witness :
  readable_length handle 2 100 = Some 3 ∧
  (readable_length handle 7 2 = None ↔
     2 ≠ 0 ∧ 7 < b_size handle ∧ mem (available_ranges handle) 7 = false).
Proof.
  split; [by vm_compute|].
  apply (readable_length_spec handle 7 2); [apply single_spec|repeat constructor|by vm_compute].
Defined.

Definition written : Blob := (poll_write (Ready (Ok 3)) (poll_complete (Ready (Ok 5)) handle).2).2.

(** The handle seeks and writes three bytes, then another handle reports the byte
    after them. *)
Definition other : Blob := set_pending (ByteRanges.single 8 9) handle.
Definition w_other : World := (update_db (Ok ()) other with_blob).2.

Example handle_tracks_writes_witness :
  let l := [Reported (ByteRanges.single 8 9); Wrote (ByteRange.new 5 8)] in
  (∃ k, serves (λ x, mem (written_areas half) x || wrote_at l x) 2 20 k ∧
     (poll_read (λ n, Ready (Ok (replicate (N.to_nat n) x00))) 20 (set_offset 2 written)).1 =
       Ready (Ok (replicate (N.to_nat k) x00))) ∧
  (poll_read (λ n, Ready (Ok (replicate (N.to_nat n) x00))) 20 (set_offset 8 written)).1 = Ready (Err BlobIncomplete).
Proof.
  intros l.
  assert (∀ o, handle_run (handle, with_blob) l (set_offset o written, w_other)) as Hrun.
  { intros o. apply (hr_step _ l (written, w_other) []); [|apply (hs_seek written w_other (Ready (Ok o)))].
    apply (hr_step _ [Wrote (ByteRange.new 5 8)] (written, with_blob) [Reported (ByteRanges.single 8 9)]).
    2:{ apply (hs_other written with_blob other (Ok ()) (Ok ()) (update_db (Ok ()) other with_blob).1.2 w_other);
          [done|apply (single_spec 8 9)|by vm_compute]. }
    apply (hr_step _ [] ((poll_complete (Ready (Ok 5)) handle).2, with_blob) [Wrote (ByteRange.new 5 8)]).
    - apply (hr_step _ [] (handle, with_blob) []); [apply hr_nil|]. apply hs_seek.
    - apply (hs_write (poll_complete (Ready (Ok 5)) handle).2 with_blob (Ready (Ok 3))).
      by intros n [= <-]. }
  assert (∀ x, mem (written_areas half) x = true → x + 1 < u64_modulus) as Hends.
  { intros x. change (written_areas half) with (ByteRanges.single 0 5). rewrite single_mem, N.ltb_lt.
    unfold u64_modulus. lia. }
  split.
  - destruct (handle_tracks_writes 1 a_file half with_blob l _ w_other eq_refl (proj1 (single_spec 0 5)) Hends
      ltac:(by vm_compute) (Hrun 2)) as (H & _).
    destruct (H (λ n, Ready (Ok (replicate (N.to_nat n) x00))) 20) as (k & Hk & E).
    exists k. split; [exact Hk|]. by rewrite E.
  - destruct (handle_tracks_writes 1 a_file half with_blob l _ w_other eq_refl (proj1 (single_spec 0 5)) Hends
      ltac:(by vm_compute) (Hrun 8)) as (H & _).
    by rewrite (H (λ n, Ready (Ok (replicate (N.to_nat n) x00))) 20).
Defined.

Example create_blob_spec_witness :
  ∃ b t', create_blob "/blobs" UnixTime.ZERO a_file (begin_write with_blob) = (Ok b, t') ∧ blob_id b = 2.
Proof.
  destruct (create_blob_spec "/blobs" UnixTime.ZERO a_file (begin_write with_blob) eq_refl eq_refl
    with_blob_ok) as (b & t' & H & Hc & _).
  exists b, t'. split; [exact H|]. exact (bc_id _ _ _ _ _ _ Hc).
Defined.

Example create_blob_truncates_witness :
  ∃ b t', create_blob "/blobs" UnixTime.ZERO (set_blob a_file (Some 1)) (begin_write with_blob)
            = (Ok b, t') ∧ available_ranges b = ByteRanges.single 0 5.
Proof.
  destruct (create_blob_truncates "/blobs" UnixTime.ZERO (set_blob a_file (Some 1)) 1 half
    (begin_write with_blob) eq_refl eq_refl) as (b & t' & H & _ & _ & Ha & _).
  exists b, t'. split; [exact H|exact Ha].
Defined.

Example stale_handle_reports_witness :
  let fe := FileTableEntry_new (mkPath "other") 3 UnixTime.ZERO a_hash 5 in
  ∃ b' w1 b2 w2,
    write_txn (do* delete_blob "/blobs" 1 in
               let* b' := create_blob "/blobs" UnixTime.ZERO fe in sret (Commit b')) with_blob
      = (Ok b', w1) ∧
    update_db (Ok ()) (set_pending (ByteRanges.single 0 8) handle) w1 = (Ok (), b2, w2) ∧
    local_availability (blob_table (db w2)) (set_blob fe (Some (blob_id b'))) = Ok Complete.
Proof.
  intros fe.
  destruct (stale_handle_reports "/blobs" UnixTime.ZERO fe
    (set_pending (ByteRanges.single 0 8) handle) with_blob eq_refl eq_refl ltac:(by vm_compute)
    (proj1 (single_spec 0 8)) eq_refl) as (b' & w1 & b2 & w2 & H1 & _ & _ & H2 & H3 & _).
  - intros x Hx. change (pending_ranges _) with (ByteRanges.single 0 8). rewrite single_mem. apply N.ltb_lt.
    change (size (metadata fe)) with 3 in Hx. lia.
  - exists b', w1, b2, w2. split; [exact H1|]. split; [exact H2|exact H3].
Defined.
End witnesses.
