(* ===== verification/Index.v ===== *)
(** * The index of local files and its history

    [crate/realize-storage/src/arena/index.rs]: the files of the arena's
    directory with their hash, and the log of additions, replacements, removals
    and drops that other peers follow.

    The log is the specification of the file table: replaying it from the start
    gives the set of indexed files ([index_inv]), and the watch channels always
    carry the last history index and the last dirty counter ([world_ok]). *)
From S2P Require Import Prelude Redb Path Types Db Dirty.
From Stdlib Require Import Strings.Byte.
Local Open Scope N_scope.
Local Open Scope realize_scope.

Section index.
Context {R : Redb}.
Implicit Types (ix : IndexTables) (p : Path) (root realpath : string).

(** ** Operations *)

Definition last_history_index (history_table : table N HistoryTableEntry) : N :=
  default 0 (fst <$> tbl_last history_table).

(** The tables of the transaction that the index works on. *)
Definition file_table_of (t : Txn) : table string IndexedFileTableEntry :=
  index_file_table (index (tables t)).
Definition history_table_of (t : Txn) : table N HistoryTableEntry :=
  index_history_table (index (tables t)).
Definition put_file_table (f : table string IndexedFileTableEntry) : TxnM () :=
  smodify (λ t, set_tables (set_index (set_index_file_table f (index (tables t))) (tables t)) t).
Definition put_history_table (h : table N HistoryTableEntry) : TxnM () :=
  smodify (λ t, set_tables (set_index (set_index_history_table h (index (tables t))) (tables t)) t).

Definition allocate_history_index : TxnM N :=
  let* entry_index := sget (λ t, u64_add 1 (last_history_index (history_table_of t))) in
  do* smodify (push_after_commit (SendHistory entry_index)) in
  sret entry_index.

(** [history_table.insert(index, ev)] *)
Definition insert_history (index : N) (ev : HistoryTableEntry) : TxnM () :=
  let* history_table := sget history_table_of in
  put_history_table (tbl_insert index ev history_table).

Definition add_file p (size : N) (mtime : UnixTime) (hash : Hash) : WorldM () :=
  write_txn (
    let* file_table := sget file_table_of in
    let old_hash := ix_hash <$> tbl_get (as_str p) file_table in
    let same_hash := default false ((λ h, bool_decide (h = hash)) <$> old_hash) in
    do* put_file_table
          (tbl_insert (as_str p)
             {| ix_size := size; ix_mtime := mtime; ix_hash := hash; outdated_by := None |}
             file_table) in
    do* (if negb same_hash then
           do* smodify (mark_dirty p) in
           let* index := allocate_history_index in
           insert_history index
             match old_hash with
             | Some old_hash => HReplace p old_hash
             | None => HAdd p
             end
         else sret ()) in
    sret (Commit ())).

(** The body of the loop of [remove_file_or_dir]. *)
Definition remove_extracted (kv : string * IndexedFileTableEntry) : TxnM () :=
  let* index := allocate_history_index in
  let* path := slift match Path.parse kv.1 with
                     | Ok path => Ok path
                     | Err e => Err (StorageError_from_path e)
                     end in
  do* smodify (mark_dirty path) in
  insert_history index (HRemove path (ix_hash kv.2)).

Definition remove_file_or_dir p : WorldM () :=
  write_txn (
    let* file_table := sget file_table_of in
    let path_prefix := PathPrefix.new p in
    let '(removed, file_table) :=
      tbl_extract_from_if (PathPrefix.range path_prefix).1 (PathPrefix.range path_prefix).2
        (λ k _, PathPrefix.accept path_prefix k) file_table in
    do* put_file_table file_table in
    do* sfor removed remove_extracted in
    sret (Commit ())).

(** [file_matches_index]: the file exists, with the indexed time and size. *)
Definition file_matches_index (fs : Fs) (entry : IndexedFileTableEntry) realpath : bool :=
  match fs !! realpath with
  | Some m => bool_decide (f_mtime m = ix_mtime entry) && (f_len m =? ix_size entry)
  | None => false
  end.

Definition drop_file_if_matches p (hash : Hash) realpath : TxnM bool :=
  let* file_table := sget file_table_of in
  let* files := sget (λ t, fs (ext t)) in
  match tbl_get (as_str p) file_table with
  | Some entry =>
      if bool_decide (ix_hash entry = hash) && file_matches_index files entry realpath then
        do* put_file_table (tbl_remove (as_str p) file_table) in
        let* index := allocate_history_index in
        do* smodify (mark_dirty p) in
        do* insert_history index (HDrop p hash) in
        sret true
      else sret false
  | None => sret false
  end.

(** [replaces]: whether replacing [old_hash] replaces the entry. *)
Definition replaces (entry : IndexedFileTableEntry) (old_hash : Hash) : bool :=
  bool_decide (ix_hash entry = old_hash)
  || default false ((λ h, bool_decide (h = old_hash)) <$> outdated_by entry).

Definition set_outdated_by (h : option Hash) (e : IndexedFileTableEntry) : IndexedFileTableEntry :=
  {| ix_hash := ix_hash e; ix_mtime := ix_mtime e; ix_size := ix_size e; outdated_by := h |}.

(** [std::fs::remove_file], outside of any transaction *)
Definition remove_file realpath : WorldM () := λ w,
  match fs (w_ext w) !! realpath with
  | Some _ =>
      (Ok (), {| db := db w;
                 w_ext := {| fs := base.delete realpath (fs (w_ext w)); global := global (w_ext w) |};
                 watch_tx := watch_tx w; history_tx := history_tx w |})
  | None => (Err Io, w)
  end.

(** [RealIndexBlocking::update] *)
Definition index_update (arena : Arena) (n : Notification) root : WorldM () :=
  if negb (bool_decide (notification_arena n = arena)) then sret ()
  else match n with
  | NReplace _ _ path _ _ hash old_hash =>
      write_txn (
        let* file_table := sget file_table_of in
        do* match tbl_get (as_str path) file_table with
            | Some entry =>
                if replaces entry old_hash
                then put_file_table
                       (tbl_insert (as_str path) (set_outdated_by (Some hash) entry) file_table)
                else sret ()
            | None => sret ()
            end in
        sret (Commit ()))
  | NRemove _ _ path old_hash =>
      let* file_table := sget (λ w, index_file_table (index (db w))) in
      let* files := sget (λ w, fs (w_ext w)) in
      match tbl_get (as_str path) file_table with
      | Some entry =>
          if replaces entry old_hash then
            let realpath := within path root in
            if file_matches_index files entry realpath then remove_file realpath else sret ()
          else sret ()
      | None => sret ()
      end
  | _ => sret ()
  end.

(** [get_indexed_file] *)
Definition get_indexed_file ix (fs : Fs) root p (hash : option Hash) : option string :=
  let realpath := within p root in
  match hash with
  | Some hash =>
      match tbl_get (as_str p) (index_file_table ix) with
      | Some entry =>
          if bool_decide (ix_hash entry = hash) && file_matches_index fs entry realpath
          then Some realpath else None
      | None => None
      end
  | None =>
      if negb (bool_decide (is_Some (tbl_get (as_str p) (index_file_table ix))))
         && negb (bool_decide (is_Some (fs !! realpath)))
      then Some realpath else None
  end.

Definition get_file_entry ix p : option IndexedFileTableEntry :=
  tbl_get (as_str p) (index_file_table ix).
Definition has_file ix p : bool := bool_decide (is_Some (get_file_entry ix p)).
Definition has_matching_file ix p (size : N) (mtime : UnixTime) : bool :=
  default false ((λ e, (ix_size e =? size) && bool_decide (ix_mtime e = mtime))
                 <$> get_file_entry ix p).

(** What [all_files] and [history] send, read to the end. *)
Definition all_files ix : list (Path * IndexedFileTableEntry) :=
  omap (λ kv, match Path.parse kv.1 with Ok path => Some (path, kv.2) | Err _ => None end)
    (tbl_iter (index_file_table ix)).
Definition history ix (lo hi : bound N) : list (N * HistoryTableEntry) :=
  tbl_range lo hi (index_history_table ix).

(** [mark_dirty_recursive] and [make_all_dirty] *)
Definition mark_dirty_recursive p : TxnM () :=
  let* file_table := sget file_table_of in
  let path_prefix := PathPrefix.new p in
  sfor (tbl_range (PathPrefix.range path_prefix).1 (PathPrefix.range path_prefix).2 file_table)
    (λ kv, if negb (PathPrefix.accept path_prefix kv.1) then sret ()
           else match Path.parse kv.1 with
                | Ok path => smodify (mark_dirty path)
                | Err _ => sret ()
                end).
Definition make_all_dirty : TxnM () :=
  let* file_table := sget file_table_of in
  sfor (tbl_iter file_table)
    (λ kv, match Path.parse kv.1 with
           | Ok path => smodify (mark_dirty path)
           | Err _ => sret ()
           end).

(** ** The history as a log *)

(** What an entry of the history says about the set of indexed files: [None] when
    it could not have happened there. *)
Definition event_step (files : gset string) (ev : HistoryTableEntry) : option (gset string) :=
  match ev with
  | HAdd p => if decide (as_str p ∈ files) then None else Some ({[as_str p]} ∪ files)
  | HReplace p _ => if decide (as_str p ∈ files) then Some files else None
  | HRemove p _ | HDrop p _ =>
      if decide (as_str p ∈ files) then Some (files ∖ {[as_str p]}) else None
  end.

Definition replay (evs : list HistoryTableEntry) : option (gset string) :=
  foldl (λ files ev, files ≫= λ f, event_step f ev) (Some ∅) evs.

(** The log numbers its entries from 1 and can be replayed. *)
Record log_ok (h : table N HistoryTableEntry) (files : gset string) : Prop := {
  log_keys : (tbl_iter h).*1 = n_range 1 (last_history_index h + 1);
  log_replay : replay (tbl_iter h).*2 = Some files;
  log_u64 : last_history_index h < u64_modulus;
}.

Record index_inv ix (files : gset string) : Prop := {
  inv_history : log_ok (index_history_table ix) files;
  inv_files : ∀ k, k ∈ files ↔ is_Some (tbl_get k (index_file_table ix));
  inv_valid : ∀ k, k ∈ files → valid (mkPath k);
}.

(** How much room the two counters have left. *)
Definition room (n : nat) (tb : Tables) : Prop :=
  last_counter (dirty tb) + N.of_nat n < u64_modulus ∧
  last_history_index (index_history_table (index tb)) + N.of_nat n < u64_modulus.

(** A transaction opened on [w]: the log in its tables is the history of [files]
    and committing announces the last counters. *)
Record txn_log (w : World) (t : Txn) (files : gset string) : Prop := {
  tl_dirty : dirty_inv (dirty (tables t));
  tl_log : log_ok (history_table_of t) files;
  tl_watch : watch_tx (commit t w) = last_counter (dirty (tables t));
  tl_history : history_tx (commit t w) = last_history_index (history_table_of t);
}.

(** The state between transactions. *)
Record world_ok (w : World) : Prop := {
  wk_dirty : dirty_inv (dirty (db w));
  wk_index : ∃ files, index_inv (index (db w)) files;
  wk_watch : watch_tx w = last_counter (dirty (db w));
  wk_history : history_tx w = last_history_index (index_history_table (index (db w)));
}.

Context `{!RedbLaws R}.

Lemma n_range_snoc b e : b ≤ e → n_range b (e + 1) = n_range b e ++ [e].
Proof.
  intros Hle. unfold n_range. replace (N.to_nat (e + 1 - b)) with (N.to_nat (e - b) + 1)%nat by lia.
  rewrite seq_app, fmap_app. simpl. do 2 f_equal. lia.
Qed.

Lemma last_history_index_spec h k :
  is_Some (tbl_get k h) → k ≤ last_history_index h.
Proof.
  intros Hk. unfold last_history_index. destruct (tbl_last h) as [[k' v]|] eqn:E; simpl.
  - apply tbl_last_greatest in E as [_ E]. by apply E.
  - rewrite (tbl_last_None h E) in Hk. by destruct Hk.
Qed.

Lemma history_append h ev :
  let k := last_history_index h + 1 in
  tbl_iter (tbl_insert k ev h) = tbl_iter h ++ [(k, ev)] ∧
  last_history_index (tbl_insert k ev h) = k.
Proof.
  simpl. assert (tbl_iter (tbl_insert (last_history_index h + 1) ev h) =
    tbl_iter h ++ [(last_history_index h + 1, ev)]) as H.
  { apply iter_insert_last. intros k Hk%last_history_index_spec. apply key_lt_le. simpl. lia. }
  split; [done|]. unfold last_history_index at 1. by rewrite last_spec, H, last_snoc.
Qed.

Lemma log_ok_append h files ev files' :
  log_ok h files → event_step files ev = Some files' →
  last_history_index h + 1 < u64_modulus →
  log_ok (tbl_insert (last_history_index h + 1) ev h) files'.
Proof.
  intros [Hk Hr Hu] Hev Hlt. destruct (history_append h ev) as [Hi Hl].
  split; rewrite ?Hl; [..|done]; rewrite Hi, fmap_app; simpl.
  - rewrite Hk. rewrite <- n_range_snoc by lia. done.
  - unfold replay in *. by rewrite foldl_app, Hr.
Qed.

(** Logging an event of [p] and marking [p] dirty. *)
Lemma txn_log_event w t t' p ev files files' :
  txn_log w t files → event_step files ev = Some files' → room 1 (tables t) →
  dirty (tables t') = mark_dirty_tables p (dirty (tables t)) →
  history_table_of t' =
    tbl_insert (last_history_index (history_table_of t) + 1) ev (history_table_of t) →
  watch_tx (commit t' w) = last_counter (dirty (tables t)) + 1 →
  history_tx (commit t' w) = last_history_index (history_table_of t) + 1 →
  txn_log w t' files'.
Proof.
  intros [Hd Hl Hw Hh] Hev [R1 R2] Ed Eh Ew Eh'. simpl in R1, R2.
  destruct (mark_dirty_get _ p Hd R1) as (Hc & _).
  split; rewrite ?Ed, ?Eh, ?Ew, ?Eh'.
  - by apply mark_dirty_inv.
  - by apply (log_ok_append _ files).
  - done.
  - by rewrite (proj2 (history_append _ ev)).
Qed.

Lemma world_ok_begin w :
  world_ok w ↔ ∃ files, index_inv (index (db w)) files ∧ txn_log w (begin_write w) files.
Proof.
  split.
  - intros [Hd [files Hi] Hw Hh]. exists files. split; [done|].
    split; [done|apply Hi|done|done].
  - intros (files & Hi & [Hd Hl Hw Hh]). by split; [|exists files| |].
Qed.

Lemma world_ok_commit w t files :
  txn_log w t files → index_inv (index (tables t)) files → world_ok (commit t w).
Proof.
  intros [Hd Hl Hw Hh] Hi. split; rewrite ?commit_db; [done|by exists files|done|done].
Qed.

Lemma world_ok_rollback w t : world_ok w → world_ok (rollback t w).
Proof. intros [Hd Hi Hw Hh]. by split. Qed.

(** What logging the event [ev] of [p] leaves in the transaction. *)
Record event_result (w : World) (t t' : Txn) p ev (files' : gset string) : Prop := {
  er_tables : tables t' =
    set_index (set_index_history_table
        (tbl_insert (last_history_index (history_table_of t) + 1) ev (history_table_of t))
        (index (tables t)))
      (set_dirty (mark_dirty_tables p (dirty (tables t))) (tables t));
  er_ext : ext t' = ext t;
  er_log : txn_log w t' files';
}.

Lemma allocate_run t :
  room 1 (tables t) →
  allocate_history_index t =
    (Ok (last_history_index (history_table_of t) + 1),
     push_after_commit (SendHistory (last_history_index (history_table_of t) + 1)) t).
Proof.
  intros [_ Hr]. unfold allocate_history_index, sbind, sget, smodify, sret, u64_add.
  rewrite (N.add_comm 1), N.mod_small by done. done.
Qed.

Lemma add_event_run w t p ev files files' :
  txn_log w t files → event_step files ev = Some files' → room 1 (tables t) →
  ∃ t', (do* smodify (mark_dirty p) in
         let* index := allocate_history_index in
         insert_history index ev) t = (Ok (), t') ∧ event_result w t t' p ev files'.
Proof.
  intros Ht Hev Hr. pose proof Ht as [Hd _ _ _].
  destruct (mark_dirty_get _ p Hd (proj1 Hr)) as (Hc & _).
  assert (u64_add 1 (last_history_index (history_table_of (mark_dirty p t))) =
    last_history_index (history_table_of t) + 1) as Hn.
  { unfold u64_add. rewrite N.add_comm. apply N.mod_small, Hr. }
  unfold sbind at 1, smodify, sbind. unfold allocate_history_index, sbind, sget, smodify, sret.
  rewrite Hn. eexists. split; [done|].
  match goal with |- event_result _ _ ?t' _ _ _ => set (t1 := t') end.
  split; [done|done|]. apply (txn_log_event w t t1 p ev files); try done.
  - subst t1. unfold mark_dirty. autorewrite with watch. apply u64_add_small, Hr.
  - subst t1. by autorewrite with watch.
Qed.

Lemma remove_event_run w t p ev files files' :
  txn_log w t files → event_step files ev = Some files' → room 1 (tables t) →
  ∃ t', (let* index := allocate_history_index in
         do* smodify (mark_dirty p) in
         insert_history index ev) t = (Ok (), t') ∧ event_result w t t' p ev files'.
Proof.
  intros Ht Hev Hr. unfold sbind at 1. rewrite allocate_run by done.
  unfold sbind, smodify. eexists. split; [done|].
  match goal with |- event_result _ _ ?t' _ _ _ => set (t1 := t') end.
  split; [done|done|]. apply (txn_log_event w t t1 p ev files); try done.
  - subst t1. unfold mark_dirty. autorewrite with watch. apply u64_add_small, Hr.
  - subst t1. unfold mark_dirty. by autorewrite with watch.
Qed.

(** The result of an event, as seen from the tables. *)
Lemma event_result_tables w t t' p ev files files' :
  txn_log w t files → room 1 (tables t) → event_result w t t' p ev files' →
  index_file_table (index (tables t')) = index_file_table (index (tables t)) ∧
  tbl_iter (history_table_of t') =
    tbl_iter (history_table_of t) ++ [(last_history_index (history_table_of t) + 1, ev)] ∧
  marked_dirty [as_str p] (dirty (tables t)) (dirty (tables t')) ∧
  (∀ n, room (S n) (tables t) → room n (tables t')).
Proof.
  intros Ht Hr [E _ _]. destruct (history_append (history_table_of t) ev) as [Hit Hlast].
  assert (marked_dirty [as_str p] (dirty (tables t)) (dirty (tables t'))) as Hmd.
  { rewrite E. apply marked_dirty_one; [apply Ht|apply Hr]. }
  split_and!; [by rewrite E| |done|].
  - unfold history_table_of at 1. by rewrite E.
  - intros n [R1 R2]. split.
    + rewrite (md_counter _ _ _ Hmd). simpl. lia.
    + rewrite E. simpl. rewrite Hlast. unfold history_table_of. lia.
Qed.

(** Removing the files extracted from the table: one removal per file is logged,
    in order, and their paths are marked dirty. *)
Lemma remove_extracted_spec w l t files :
  txn_log w t files → room (length l) (tables t) →
  NoDup l.*1 → (∀ k, k ∈ l.*1 → k ∈ files) → (∀ k, k ∈ files → valid (mkPath k)) →
  ∃ t', sfor l remove_extracted t = (Ok (), t') ∧
    txn_log w t' (files ∖ list_to_set l.*1) ∧
    index_file_table (index (tables t')) = index_file_table (index (tables t)) ∧
    (tbl_iter (history_table_of t')).*2 =
      (tbl_iter (history_table_of t)).*2 ++ ((λ kv, HRemove (mkPath kv.1) (ix_hash kv.2)) <$> l) ∧
    marked_dirty l.*1 (dirty (tables t)) (dirty (tables t')) ∧ ext t' = ext t.
Proof.
  revert t files. induction l as [|[k e] l IH]; intros t files Ht Hroom Hnd Hin Hval.
  { exists t. split_and!; [done| |done|by rewrite app_nil_r|apply marked_dirty_nil|done].
    by replace (files ∖ list_to_set [].*1) with files by set_solver. }
  simpl in Hnd. apply NoDup_cons in Hnd as [Hk Hnd].
  assert (k ∈ files) as Hkf by (apply Hin; by left).
  pose proof (Hval k Hkf) as Hv. unfold valid in Hv; simpl in Hv.
  assert (room 1 (tables t)) as Hr1 by (destruct Hroom; split; simpl in *; lia).
  set (ev := HRemove (mkPath k) (ix_hash e)).
  assert (event_step files ev = Some (files ∖ {[k]})) as Hev by (simpl; by rewrite decide_True).
  destruct (remove_event_run w t (mkPath k) ev files _ Ht Hev Hr1) as (t1 & Hrun1 & Her).
  destruct (event_result_tables _ _ _ _ _ _ _ Ht Hr1 Her) as (Hf1 & Hh1 & Hd1 & Hr').
  destruct (IH t1 (files ∖ {[k]})) as (t' & Hrun & Hlog & Hf & Hh & Hd & He);
    [apply Her|auto|done| |set_solver|].
  { intros k' Hk'. apply elem_of_difference. split; [apply Hin; by right|]. set_solver. }
  exists t'. split_and!.
  - cbn [sfor]. unfold sbind at 1. unfold remove_extracted. cbn [fst snd]. rewrite Hv.
    unfold slift. fold ev. change (sbind allocate_history_index _ t) with
      ((let* index := allocate_history_index in
        do* smodify (mark_dirty (mkPath k)) in insert_history index ev) t).
    by rewrite Hrun1.
  - simpl. by rewrite <- difference_difference_l_L.
  - congruence.
  - rewrite Hh, Hh1, fmap_app. simpl. by rewrite <- app_assoc.
  - simpl. by apply (marked_dirty_app [k] l.*1 _ (dirty (tables t1))).
  - rewrite He. apply Her.
Qed.

(** The files that [remove_file_or_dir] takes out. *)
Definition under ix p : list (string * IndexedFileTableEntry) :=
  filter (λ kv, Path.starts_with (mkPath kv.1) p = true) (tbl_iter (index_file_table ix)).

Lemma extract_under ix p :
  let pp := PathPrefix.new p in
  let x := tbl_extract_from_if (PathPrefix.range pp).1 (PathPrefix.range pp).2
             (λ k _, PathPrefix.accept pp k) (index_file_table ix) in
  x.1 = under ix p ∧
  ∀ k, tbl_get k x.2 = if Path.starts_with (mkPath k) p then None
                       else tbl_get k (index_file_table ix).
Proof.
  cbv zeta. destruct (extract_from_if_spec (PathPrefix.range (PathPrefix.new p)).1
    (PathPrefix.range (PathPrefix.new p)).2 (λ k _, PathPrefix.accept (PathPrefix.new p) k)
    (index_file_table ix)) as [H1 H2].
  split.
  - rewrite H1. rewrite (filter_range (PathPrefix.accept (PathPrefix.new p)));
      [|by apply accept_in_range].
    apply filter_ext_in. intros [k v] _. simpl. by rewrite accept_starts_with.
  - intros k. rewrite H2. destruct (tbl_get k (index_file_table ix)) as [e|]; simpl.
    + destruct (Path.starts_with (mkPath k) p) eqn:E.
      * rewrite <- accept_starts_with in E. rewrite bool_decide_true by (by apply accept_in_range).
        by rewrite E.
      * rewrite <- accept_starts_with in E. by rewrite E, andb_false_r.
    + by destruct (Path.starts_with _ _).
Qed.

(** Nothing but one event of [p], which it is now dirty for. *)
Record logged (w w' : World) p (ev : HistoryTableEntry) : Prop := {
  lg_history : tbl_iter (index_history_table (index (db w'))) =
    tbl_iter (index_history_table (index (db w))) ++
      [(last_history_index (index_history_table (index (db w))) + 1, ev)];
  lg_dirty : marked_dirty [as_str p] (dirty (db w)) (dirty (db w'));
  lg_watch : history_tx w' = history_tx w + 1 ∧ watch_tx w' = watch_tx w + 1;
}.

Lemma index_inv_insert ix ix' p e files :
  index_inv ix files → valid p →
  log_ok (index_history_table ix') ({[as_str p]} ∪ files) →
  index_file_table ix' = tbl_insert (as_str p) e (index_file_table ix) →
  index_inv ix' ({[as_str p]} ∪ files).
Proof.
  intros [H1 H2 H3] Hp Hlog Hf. split; [done|..].
  - intros k. rewrite Hf, elem_of_union, elem_of_singleton, H2. key_cases; naive_solver.
  - intros k [->%elem_of_singleton|Hk]%elem_of_union; [by destruct p|auto].
Qed.

Lemma index_inv_remove ix ix' files gone :
  index_inv ix files → log_ok (index_history_table ix') (files ∖ gone) →
  (∀ k, tbl_get k (index_file_table ix') =
        if decide (k ∈ gone) then None else tbl_get k (index_file_table ix)) →
  index_inv ix' (files ∖ gone).
Proof.
  intros [H1 H2 H3] Hlog Hf. split; [done|..].
  - intros k. rewrite Hf, elem_of_difference, H2. case_decide; naive_solver.
  - intros k [Hk _]%elem_of_difference. auto.
Qed.

(** Changing the file table does not concern the log. *)
Lemma txn_log_files w t files f :
  txn_log w t files →
  txn_log w (set_tables (set_index (set_index_file_table f (index (tables t))) (tables t)) t) files.
Proof. intros [H1 H2 H3 H4]. split; autorewrite with watch; done. Qed.

Lemma txn_log_ext w t files x : txn_log w t files → txn_log w (set_ext x t) files.
Proof. intros [H1 H2 H3 H4]. split; autorewrite with watch; done. Qed.

(** An event that ends a transaction is the only change it commits to the log. *)
Lemma logged_commit w t0 t1 p ev files files' :
  txn_log w t0 files → room 1 (tables t0) → event_result w t0 t1 p ev files' →
  dirty (tables t0) = dirty (db w) →
  index_history_table (index (tables t0)) = index_history_table (index (db w)) →
  history_tx w = last_history_index (index_history_table (index (db w))) →
  watch_tx w = last_counter (dirty (db w)) →
  logged w (commit t1 w) p ev.
Proof.
  intros Ht Hr Her Hd Hh Hw Hc.
  destruct (event_result_tables _ _ _ _ _ _ _ Ht Hr Her) as (_ & Hit & Hmd & _).
  split; rewrite ?commit_db.
  - unfold history_table_of in Hit. by rewrite Hh in Hit.
  - by rewrite Hd in Hmd.
  - destruct (er_log _ _ _ _ _ _ Her) as [_ _ -> ->]. rewrite (md_counter _ _ _ Hmd), Hd.
    unfold history_table_of in *. rewrite (er_tables _ _ _ _ _ _ Her). unfold history_table_of; simpl. rewrite Hh.
    rewrite (proj2 (history_append _ ev)). by rewrite Hw, Hc.
Qed.

(** The transaction of [add_file] when the hash is new. *)
Lemma add_event_commit w p e files ev :
  world_ok w → index_inv (index (db w)) files → valid p → room 1 (db w) →
  event_step files ev = Some ({[as_str p]} ∪ files) →
  let t0 := set_tables (set_index (set_index_file_table (tbl_insert (as_str p) e
              (index_file_table (index (db w)))) (index (db w))) (db w)) (begin_write w) in
  txn_log w t0 files ∧
  ∃ t1, (do* smodify (mark_dirty p) in
         let* index := allocate_history_index in
         insert_history index ev) t0 = (Ok (), t1) ∧
    world_ok (commit t1 w) ∧ w_ext (commit t1 w) = w_ext w ∧
    (∀ q, get_file_entry (index (db (commit t1 w))) q =
          if decide (as_str q = as_str p) then Some e else get_file_entry (index (db w)) q) ∧
    logged w (commit t1 w) p ev.
Proof.
  intros [Hd _ Hwt Hht] Hi Hp Hroom Hev t0.
  assert (txn_log w (begin_write w) files) as Ht by (split; [done|apply Hi|done|done]).
  pose proof (txn_log_files w _ files (tbl_insert (as_str p) e (file_table_of (begin_write w))) Ht)
    as Ht0. change (txn_log w t0 files) in Ht0. split; [done|].
  destruct (add_event_run w t0 p ev files _ Ht0 Hev Hroom) as (t1 & Hrun & Her).
  destruct (event_result_tables _ _ _ _ _ _ _ Ht0 Hroom Her) as (Hf & _).
  exists t1. split_and!; [done|..].
  - eapply world_ok_commit; [apply Her|].
    by apply (index_inv_insert (index (db w)) _ p e); [| |apply Her|].
  - rewrite commit_ext. apply Her.
  - intros q. rewrite commit_db. unfold get_file_entry. rewrite Hf. simpl. key_cases.
  - by eapply logged_commit.
Qed.

(** What [add_file] promises. *)
Record add_file_post p (e : IndexedFileTableEntry) (w w' : World) : Prop := {
  af_ok : world_ok w';
  af_ext : w_ext w' = w_ext w;
  af_files : ∀ q, get_file_entry (index (db w')) q =
    if decide (as_str q = as_str p) then Some e else get_file_entry (index (db w)) q;
  af_log :
    match get_file_entry (index (db w)) p with
    | None => logged w w' p (HAdd p)
    | Some old =>
        if decide (ix_hash old = ix_hash e)
        then index_history_table (index (db w')) = index_history_table (index (db w)) ∧
             dirty (db w') = dirty (db w)
        else logged w w' p (HReplace p (ix_hash old))
    end;
}.

Lemma add_file_run p (size : N) (mtime : UnixTime) (hash : Hash) (w : World) :
  world_ok w → valid p → room 1 (db w) →
  ∃ w', add_file p size mtime hash w = (Ok (), w') ∧
    add_file_post p
      {| ix_hash := hash; ix_mtime := mtime; ix_size := size; outdated_by := None |} w w'.
Proof.
  intros Hw Hp Hroom. destruct (wk_index _ Hw) as [files Hi].
  set (e := {| ix_hash := hash; ix_mtime := mtime; ix_size := size; outdated_by := None |}).
  set (ev := match get_file_entry (index (db w)) p with
             | Some old => HReplace p (ix_hash old) | None => HAdd p end).
  assert (event_step files ev = Some ({[as_str p]} ∪ files)) as Hev.
  { unfold ev, get_file_entry. destruct (tbl_get _ _) as [old|] eqn:E; simpl.
    - assert (as_str p ∈ files) by (apply (inv_files _ _ Hi); by eexists).
      rewrite decide_True by done. f_equal. set_solver.
    - rewrite decide_False; [done|]. rewrite (inv_files _ _ Hi), E. by intros []. }
  destruct (add_event_commit w p e files ev) as (Ht0 & t1 & Hrun & H1 & H2 & H3 & H4); [done..|].
  set (t0 := set_tables _ (begin_write w)) in *.
  unfold add_file, write_txn. unfold sbind at 1, sget at 1. unfold sbind at 1.
  unfold put_file_table at 1, smodify at 1. unfold sbind at 1.
  change (file_table_of (begin_write w)) with (index_file_table (index (db w))).
  fold e. match goal with |- context [set_tables ?x (begin_write w)] => change (set_tables x (begin_write w)) with t0 end.
  unfold get_file_entry in *. subst ev.
  destruct (tbl_get (as_str p) (index_file_table (index (db w)))) as [old|] eqn:E; simpl default;
    simpl fmap; cbv iota beta.
  - change (default false _) with (bool_decide (ix_hash old = hash)).
    destruct (decide (ix_hash old = hash)) as [Hs|Hs].
    + rewrite bool_decide_true by done. exists (commit t0 w).
      assert ({[as_str p]} ∪ files = files) as Hfiles.
      { assert (as_str p ∈ files) by (apply (inv_files _ _ Hi); by eexists). set_solver. }
      split; [done|]. split; unfold get_file_entry; rewrite ?commit_db, ?E; [|done| |by rewrite decide_True].
      2:{ intros q. simpl. key_cases. }
      rewrite <- Hfiles in Ht0. eapply world_ok_commit; [done|].
      apply (index_inv_insert (index (db w)) _ p e); [done|done|apply Ht0|done].
    + rewrite bool_decide_false by done. exists (commit t1 w).
      split; [|split; unfold get_file_entry; rewrite ?E; [done..|by rewrite decide_False]].
      change (ix_hash <$> Some old) with (Some (ix_hash old)).
      change (negb false) with true. cbv iota. by rewrite Hrun.
  - exists (commit t1 w). split; [|split; unfold get_file_entry; by rewrite ?E].
    change (negb (default false _)) with true.
    change (ix_hash <$> None) with (@None Hash). cbv iota. by rewrite Hrun.
Qed.


Lemma under_spec ix p k :
  k ∈ (under ix p).*1 ↔ is_Some (tbl_get k (index_file_table ix)) ∧
                        Path.starts_with (mkPath k) p = true.
Proof.
  unfold under. rewrite list_elem_of_fmap. split.
  - intros ([k' v] & -> & [Hs Hk]%list_elem_of_filter). apply elem_of_iter in Hk.
    split; [by eexists|done].
  - intros [[v Hv] Hs]. exists (k, v). split; [done|]. apply list_elem_of_filter.
    by rewrite elem_of_iter.
Qed.

(** What [remove_file_or_dir] promises. *)
Record remove_post p (w w' : World) : Prop := {
  rm_ok : world_ok w';
  rm_ext : w_ext w' = w_ext w;
  rm_files : ∀ q, get_file_entry (index (db w')) q =
    if Path.starts_with q p then None else get_file_entry (index (db w)) q;
  rm_history : (tbl_iter (index_history_table (index (db w')))).*2 =
    (tbl_iter (index_history_table (index (db w)))).*2 ++
    ((λ kv, HRemove (mkPath kv.1) (ix_hash kv.2)) <$> under (index (db w)) p);
  rm_dirty : marked_dirty (under (index (db w)) p).*1 (dirty (db w)) (dirty (db w'));
}.

Lemma remove_run p (w : World) :
  world_ok w → room (length (under (index (db w)) p)) (db w) →
  ∃ w', remove_file_or_dir p w = (Ok (), w') ∧ remove_post p w w'.
Proof.
  intros Hw Hroom. apply world_ok_begin in Hw as (files & Hi & Ht).
  destruct (extract_under (index (db w)) p) as [Hx Hf].
  unfold remove_file_or_dir, write_txn. unfold sbind at 1, sget. cbv zeta in Hx, Hf |- *.
  change (file_table_of (begin_write w)) with (index_file_table (index (db w))).
  destruct (tbl_extract_from_if _ _ _ (index_file_table (index (db w)))) as [removed left].
  cbn [fst snd] in Hx, Hf. subst removed.
  unfold sbind at 1, put_file_table, smodify.
  pose proof (txn_log_files w _ files left Ht) as Ht0.
  match goal with |- context [set_tables ?x (begin_write w)] =>
    change (txn_log w (set_tables x (begin_write w)) files) in Ht0;
    set (t0 := set_tables x (begin_write w)) in * end.
  destruct (remove_extracted_spec w (under (index (db w)) p) t0 files)
    as (t1 & Hrun & Ht1 & Hft & Hh & Hd & He); [done|done| | |by apply Hi|].
  { unfold under. apply NoDup_fst_filter, range_NoDup. }
  { intros k [Hk _]%under_spec. by apply (inv_files _ _ Hi). }
  unfold sbind. rewrite Hrun. simpl. eexists. split; [done|].
  split; rewrite ?commit_db, ?commit_ext; [|done| |done|done].
  - eapply world_ok_commit; [exact Ht1|]. apply (index_inv_remove (index (db w))); [done|apply Ht1|].
    intros k. rewrite Hft. simpl. rewrite Hf. case_decide as Hk; rewrite elem_of_list_to_set in Hk.
    + apply under_spec in Hk as [_ ->]. done.
    + rewrite under_spec in Hk. destruct (Path.starts_with _ _); [|done].
      destruct (tbl_get k _); [|done]. exfalso. apply Hk. by split; [eexists|].
  - intros q. unfold get_file_entry. rewrite Hft. simpl. rewrite Hf. by destruct q.
Qed.

(** The file on disk is the indexed one, as far as time and size tell. *)
Definition unchanged (files : Fs) (e : IndexedFileTableEntry) realpath : Prop :=
  ∃ m, files !! realpath = Some m ∧ f_mtime m = ix_mtime e ∧ f_len m = ix_size e.

Lemma file_matches_spec files e realpath :
  file_matches_index files e realpath = true ↔ unchanged files e realpath.
Proof.
  unfold file_matches_index, unchanged. destruct (files !! realpath) as [m|].
  - rewrite andb_true_iff, bool_decide_eq_true, N.eqb_eq. split; [by exists m|].
    by intros (? & [= <-] & ?).
  - split; [done|]. by intros (? & ? & _).
Qed.

Lemma replaces_spec e h :
  replaces e h = true ↔ ix_hash e = h ∨ outdated_by e = Some h.
Proof.
  unfold replaces. rewrite orb_true_iff, bool_decide_eq_true.
  destruct (outdated_by e) as [h'|]; simpl; [|naive_solver].
  rewrite bool_decide_eq_true. naive_solver.
Qed.

(** What [drop_file_if_matches] promises of a transaction. *)
Record drop_post p (hash : Hash) (w : World) (t t' : Txn) (files : gset string) : Prop := {
  dr_log : txn_log w t' (files ∖ {[as_str p]});
  dr_index : index_inv (index (tables t')) (files ∖ {[as_str p]});
  dr_ext : ext t' = ext t;
  dr_file : get_file_entry (index (tables t')) p = None;
  dr_others : ∀ q, as_str q ≠ as_str p →
    get_file_entry (index (tables t')) q = get_file_entry (index (tables t)) q;
  dr_history : tbl_iter (history_table_of t') = tbl_iter (history_table_of t) ++
    [(last_history_index (history_table_of t) + 1, HDrop p hash)];
  dr_dirty : marked_dirty [as_str p] (dirty (tables t)) (dirty (tables t'));
  dr_rest : cache (tables t') = cache (tables t) ∧ blob_table (tables t') = blob_table (tables t) ∧
    mark_table (tables t') = mark_table (tables t);
}.

Lemma drop_run p (hash : Hash) realpath (w : World) (t : Txn) files :
  txn_log w t files → index_inv (index (tables t)) files → room 1 (tables t) →
  ∃ b t', drop_file_if_matches p hash realpath t = (Ok b, t') ∧
    (b = true ↔ ∃ e, get_file_entry (index (tables t)) p = Some e ∧ ix_hash e = hash ∧
                     unchanged (fs (ext t)) e realpath) ∧
    (b = false → t' = t) ∧ (b = true → drop_post p hash w t t' files).
Proof.
  intros Ht Hi Hroom. unfold drop_file_if_matches, get_file_entry, sbind, sget, file_table_of.
  destruct (tbl_get (as_str p) (index_file_table (index (tables t)))) as [e|] eqn:E.
  2:{ exists false, t. split_and!; try done. split; [done|]. by intros (? & ? & _). }
  destruct (bool_decide (ix_hash e = hash) && file_matches_index (fs (ext t)) e realpath) eqn:Hm.
  2:{ exists false, t. split_and!; try done. split; [done|]. intros (? & [= <-] & Hh & Hu).
      apply file_matches_spec in Hu. rewrite Hu, andb_true_r in Hm.
      by apply bool_decide_eq_false in Hm. }
  apply andb_true_iff in Hm as [<-%bool_decide_eq_true Hu%file_matches_spec].
  assert (as_str p ∈ files) as Hp by (apply (inv_files _ _ Hi); by eexists).
  pose proof (txn_log_files w t files (tbl_remove (as_str p) (index_file_table (index (tables t)))) Ht)
    as Ht0. unfold put_file_table, smodify. set (t0 := set_tables _ t) in *.
  destruct (remove_event_run w t0 p (HDrop p (ix_hash e)) files (files ∖ {[as_str p]}))
    as (t1 & Hrun & Her); [done|by simpl; rewrite decide_True|done|].
  destruct (event_result_tables _ _ _ _ _ _ _ Ht0 Hroom Her) as (Hf & Hh & Hmd & _).
  exists true, t1. split_and!.
  - unfold sbind, smodify in *.
    destruct (allocate_history_index t0) as [[n|] t2]; [|done].
    by rewrite Hrun.
  - split; [|done]. by intros _; exists e.
  - done.
  - intros _. split; [apply Her| |apply Her|unfold get_file_entry..|done|done|].
    + apply (index_inv_remove (index (tables t))); [done|apply Her|].
      intros k. rewrite Hf. simpl. rewrite get_remove.
      repeat case_decide; set_solver.
    + rewrite Hf. simpl. by rewrite get_remove_eq.
    + intros q Hq. rewrite Hf. simpl. by rewrite get_remove_ne.
    + by rewrite (er_tables _ _ _ _ _ _ Her).
Qed.

(** What [RealIndexBlocking::update] promises. *)
Record update_post (arena : Arena) (n : Notification) root (w w' : World) : Prop := {
  up_history : index_history_table (index (db w')) = index_history_table (index (db w));
  up_rest : dirty (db w') = dirty (db w) ∧ watch_tx w' = watch_tx w ∧
    history_tx w' = history_tx w ∧ global (w_ext w') = global (w_ext w);
  up_safe : ∀ q, get_file_entry (index (db w')) q = get_file_entry (index (db w)) q ∨
    ∃ e i mt sz h old, n = NReplace arena i q mt sz h old ∧
      get_file_entry (index (db w)) q = Some e ∧
      (ix_hash e = old ∨ outdated_by e = Some old) ∧
      get_file_entry (index (db w')) q = Some (set_outdated_by (Some h) e);
  up_replaced : ∀ q e i mt sz h old, n = NReplace arena i q mt sz h old →
    get_file_entry (index (db w)) q = Some e → ix_hash e = old ∨ outdated_by e = Some old →
    get_file_entry (index (db w')) q = Some (set_outdated_by (Some h) e);
  up_fs_safe : ∀ f, fs (w_ext w') !! f = fs (w_ext w) !! f ∨
    ∃ i p old e, n = NRemove arena i p old ∧ f = within p root ∧
      get_file_entry (index (db w)) p = Some e ∧
      (ix_hash e = old ∨ outdated_by e = Some old) ∧
      unchanged (fs (w_ext w)) e f ∧ fs (w_ext w') !! f = None;
  up_removed : ∀ i p old e, n = NRemove arena i p old →
    get_file_entry (index (db w)) p = Some e → ix_hash e = old ∨ outdated_by e = Some old →
    unchanged (fs (w_ext w)) e (within p root) → fs (w_ext w') !! within p root = None;
}.

Lemma update_run (arena : Arena) (n : Notification) root (w : World) :
  ∃ w', index_update arena n root w = (Ok (), w') ∧ update_post arena n root w w'.
Proof.
  unfold index_update. case_bool_decide as Ha; simpl; [|exists w; split; [done|split; naive_solver]].
  destruct n as [| a i p mt sz h old | a i p old | | | | |]; simpl in Ha; subst;
    try (exists w; split; [done|split; naive_solver]).
  - unfold write_txn, sbind, sget, file_table_of, put_file_table, smodify. simpl.
    destruct (tbl_get (as_str p) (index_file_table (index (db w)))) as [e|] eqn:E; simpl;
      [destruct (replaces e old) eqn:Hr; simpl|]; eexists; (split; [done|]);
      split; unfold get_file_entry; simpl; try done; try (by left).
    + intros q. destruct (decide (as_str q = as_str p)) as [Hq|Hq].
      * right. exists e, i, mt, sz, h, old. destruct p, q; simpl in *; subst.
        rewrite get_insert_eq. by rewrite replaces_spec in Hr.
      * left. by rewrite get_insert_ne.
    + intros q e' i' mt' sz' h' old' [= <- <- <- <- <- <-] He' _. rewrite get_insert_eq. congruence.
    + intros q e' i' mt' sz' h' old' [= <- <- <- <- <- <-] He' Hr'%replaces_spec. congruence.
    + intros q e' i' mt' sz' h' old' [= <- <- <- <- <- <-] He'. congruence.
  - unfold sbind, sget.
    destruct (tbl_get (as_str p) (index_file_table (index (db w)))) as [e|] eqn:E; simpl;
      [|exists w; split; [done|split; unfold get_file_entry; naive_solver]].
    destruct (replaces e old) eqn:Hr;
      [|exists w; split; [done|]; split; unfold get_file_entry; try done; eauto].
    + apply replaces_spec in Hr.
      destruct (file_matches_index _ e _) eqn:Hm.
      2:{ exists w. split; [done|]. split; unfold get_file_entry; try done; eauto. intros i' p' old' e' [= <- <- <-] He' _ Hu.
          apply file_matches_spec in Hu. congruence. }
      apply file_matches_spec in Hm as Hu. destruct Hu as (m & Hm' & _).
      unfold remove_file. rewrite Hm'. eexists. split; [done|].
      split; unfold get_file_entry; simpl; try done; eauto.
      * intros f. destruct (decide (f = within p root)) as [->|Hf].
        -- right. exists i, p, old, e. rewrite lookup_delete_eq. by apply file_matches_spec in Hm.
        -- left. by rewrite lookup_delete_ne.
      * intros i' p' old' e' [= <- <- <-] _ _ _. by rewrite lookup_delete_eq.
    + intros i' p' old' e' [= <- <- <-] He' Hr'%replaces_spec. congruence.
Qed.

(** ** Reachable states *)

(** The ways the index changes: its own operations, a drop within a transaction
    that may be given up, and any change of the files on disk. *)
Inductive index_step (arena : Arena) root : relation World :=
| is_add w p size mtime hash : valid p → room 1 (db w) →
    index_step arena root w (add_file p size mtime hash w).2
| is_remove w p : room (length (under (index (db w)) p)) (db w) →
    index_step arena root w (remove_file_or_dir p w).2
| is_drop w p hash realpath (keep : bool → bool) : room 1 (db w) →
    index_step arena root w
      (write_txn (let* b := drop_file_if_matches p hash realpath in
                  sret (if keep b then Commit b else Rollback b)) w).2
| is_update w n : index_step arena root w (index_update arena n root w).2
| is_files w x : index_step arena root w
    {| db := db w; w_ext := x; watch_tx := watch_tx w; history_tx := history_tx w |}.

(** The history only grows. *)
Definition extends (w w' : World) : Prop :=
  (tbl_iter (index_history_table (index (db w)))).*2 `prefix_of`
  (tbl_iter (index_history_table (index (db w')))).*2.

Lemma logged_extends w w' p ev : logged w w' p ev → extends w w'.
Proof. intros [H _ _]. unfold extends. rewrite H, fmap_app. by eexists. Qed.

Lemma world_ok_update arena n root w w' :
  world_ok w → update_post arena n root w w' → world_ok w' ∧ extends w w'.
Proof.
  intros [Hd [files Hi] Hw Hh] [U1 (U2 & U3 & U4 & _) U5 _ _ _]. split.
  2:{ unfold extends. by rewrite U1. }
  split; rewrite ?U1, ?U2, ?U3, ?U4; [done| |done|done]. exists files. split.
  - rewrite U1. apply Hi.
  - intros k. rewrite (inv_files _ _ Hi). specialize (U5 (mkPath k)). unfold get_file_entry in U5.
    simpl in U5. destruct U5 as [->|(? & ? & ? & ? & ? & ? & ? & -> & ? & ->)]; [done|].
    by split; intros _; eexists.
  - apply Hi.
Qed.

Lemma index_step_ok arena root w w' :
  index_step arena root w w' → world_ok w → world_ok w' ∧ extends w w'.
Proof.
  destruct 1 as [w p sz mt h Hp Hr|w p Hr|w p h rp keep Hr|w n|w x]; intros Hok.
  - destruct (add_file_run p sz mt h w Hok Hp Hr) as (w' & -> & [H1 _ _ H2]). split; [done|].
    destruct (get_file_entry _ p) as [old|]; [|by eapply logged_extends].
    case_decide; [|by eapply logged_extends]. unfold extends. simpl. by rewrite (proj1 H2).
  - destruct (remove_run p w Hok Hr) as (w' & -> & [H1 _ _ H2 _]). split; [done|].
    unfold extends. simpl. rewrite H2. by eexists.
  - pose proof Hok as (files & Hi & Ht)%world_ok_begin. unfold write_txn, sbind.
    destruct (drop_run p h rp w (begin_write w) files Ht Hi Hr) as (b & t' & -> & _ & H0 & H1).
    simpl. destruct (keep b); [|split; [by apply world_ok_rollback|by unfold extends]].
    simpl. destruct b.
    + destruct (H1 eq_refl) as [D1 D2 _ _ _ D3 _].
      split; [by eapply world_ok_commit|]. unfold extends. rewrite commit_db.
      unfold history_table_of in D3. rewrite D3, fmap_app. by eexists.
    + rewrite (H0 eq_refl). split; [by eapply world_ok_commit|]. by unfold extends.
  - destruct (update_run arena n root w) as (w' & -> & Hu). by eapply world_ok_update.
  - split; [|by unfold extends]. destruct Hok as [Hd Hi Hw Hh]. by split.
Qed.

Lemma index_steps_ok arena root w w' :
  rtc (index_step arena root) w w' → world_ok w → world_ok w' ∧ extends w w'.
Proof.
  induction 1 as [w|w0 w1 w2 Hstep _ IH]; intros H0; [split; [done|by unfold extends]|].
  destruct (index_step_ok _ _ _ _ Hstep H0) as [H1 E1]. destruct (IH H1) as [H2 E2].
  split; [done|]. unfold extends in *. by etrans.
Qed.

(** ** Properties *)

(** C2: whatever additions, removals, drops, notifications and outside changes to
    the files follow each other, the history is a faithful log: its entries are
    numbered from 1 without gaps, replaying them gives exactly the files of the
    index, earlier entries never change, and the watch channels carry the last
    history index and the last dirty counter. *)
Theorem index_history_replays arena root (w0 w : World)
  (H0 : world_ok w0) (Hreach : rtc (index_step arena root) w0 w) :
  let h := index_history_table (index (db w)) in
  (tbl_iter h).*1 = n_range 1 (last_history_index h + 1) ∧
  (∃ files, replay (tbl_iter h).*2 = Some files ∧
            ∀ q, as_str q ∈ files ↔ is_Some (get_file_entry (index (db w)) q)) ∧
  extends w0 w ∧ history_tx w = last_history_index h ∧
  watch_tx w = last_counter (dirty (db w)) ∧ dirty_inv (dirty (db w)).
Proof.
  destruct (index_steps_ok _ _ _ _ Hreach H0) as [[Hd [files [[K1 K2 _] Hf _]] Hw Hh] He].
  simpl. split_and!; [done| |done..]. exists files. split; [done|]. intros [q]. apply Hf.
Qed.

(** Adding a file records it and nothing else; when its hash is new the
    change is logged under the next index, as an addition or as the replacement
    of the previous hash, the path is marked dirty, and committing announces
    both; when the hash is the one already recorded, neither the history nor the
    dirty paths change. *)
Theorem add_file_spec p (size : N) (mtime : UnixTime) (hash : Hash) (w : World)
  (Hw : world_ok w) (Hp : valid p) (Hroom : room 1 (db w)) :
  ∃ w', add_file p size mtime hash w = (Ok (), w') ∧
    add_file_post p
      {| ix_hash := hash; ix_mtime := mtime; ix_size := size; outdated_by := None |} w w'.
Proof. by apply add_file_run. Qed.

(** Removing a path takes out exactly the files at or below it, logs one
    removal per file with the hash it had, in path order, after everything
    already in the history, and marks exactly those paths dirty. *)
Theorem remove_file_or_dir_spec p (w : World)
  (Hw : world_ok w) (Hroom : room (length (under (index (db w)) p)) (db w)) :
  ∃ w', remove_file_or_dir p w = (Ok (), w') ∧ remove_post p w w'.
Proof. by apply remove_run. Qed.

(** A file is dropped exactly when the index has it with the given hash and
    the file on disk still has the indexed time and size; then it leaves the
    index, the drop is the next event of the history and the path is dirty.
    Otherwise nothing changes. *)
Theorem drop_file_if_matches_spec p (hash : Hash) realpath (w : World) (t : Txn) files
  (Ht : txn_log w t files) (Hi : index_inv (index (tables t)) files) (Hroom : room 1 (tables t)) :
  ∃ b t', drop_file_if_matches p hash realpath t = (Ok b, t') ∧
    (b = true ↔ ∃ e, get_file_entry (index (tables t)) p = Some e ∧ ix_hash e = hash ∧
                     unchanged (fs (ext t)) e realpath) ∧
    (b = false → t' = t) ∧ (b = true → drop_post p hash w t t' files).
Proof. by apply drop_run. Qed.

(** Taking a peer's notification into account never touches the history, the
    dirty paths or another arena's files.  A replacement only notes the hash that
    outdates a file that is, or is already outdated by, the replaced version.  A
    removal only deletes the file on disk, and only when the index has the removed
    version (or one it outdates) and the file has not changed since. *)
Theorem index_update_spec (arena : Arena) (n : Notification) root (w : World) :
  ∃ w', index_update arena n root w = (Ok (), w') ∧ update_post arena n root w w'.
Proof. apply update_run. Qed.
End index.

(** ** Witnesses *)
Section witnesses.
#[local] Existing Instance gmap_redb.

Definition a_txt : Path := mkPath "d/a.txt".
Definition b_txt : Path := mkPath "d/b.txt".
Definition h1 : Hash := mkHash (replicate 32 x01).
Definition h2 : Hash := mkHash (replicate 32 x02).
Definition noon : UnixTime := UnixTime.from_secs 43200.
Definition the_arena : Arena := mkArena "arena".

Definition empty_world : World :=
  {| db := arena_empty; w_ext := {| fs := ∅; global := global_empty |};
     watch_tx := 0; history_tx := 0 |}.
Definition two_files : World :=
  (add_file b_txt 0 noon h2 (add_file a_txt 0 noon h1 empty_world).2).2.

Lemma empty_world_ok : world_ok empty_world.
Proof.
  split; [apply dirty_inv_empty| |done|done]. exists ∅. split; [by split|..].
  - intros k. change (index_file_table _) with (tbl_empty (K := string) (V := IndexedFileTableEntry)).
    rewrite get_empty. split; [set_solver|by intros []].
  - set_solver.
Qed.

Lemma two_files_reachable : rtc (index_step the_arena "/root") empty_world two_files.
Proof.
  eapply rtc_l; [apply (is_add _ _ empty_world a_txt 0 noon h1); [done|by split; vm_compute]|].
  apply rtc_once. apply (is_add _ _ _ b_txt 0 noon h2); [done|by split; vm_compute].
Qed.

Lemma two_files_ok : world_ok two_files.
Proof.
  eapply index_steps_ok; [apply two_files_reachable|apply empty_world_ok].
Qed.

Example index_history_replays_witness :
  let w := (remove_file_or_dir (mkPath "d") two_files).2 in
  (tbl_iter (index_history_table (index (db w)))).*2 =
    [HAdd a_txt; HAdd b_txt; HRemove a_txt h1; HRemove b_txt h2] ∧
  extends empty_world w ∧ history_tx w = 4.
Proof.
  split; [by vm_compute|].
  destruct (index_history_replays the_arena "/root" empty_world
    (remove_file_or_dir (mkPath "d") two_files).2) as (_ & _ & H1 & H2 & _).
  - apply empty_world_ok.
  - eapply rtc_r; [apply two_files_reachable|]. apply is_remove. by split; vm_compute.
  - split; [exact H1|]. rewrite H2. by vm_compute.
Defined.

Example add_file_spec_witness :
  ∃ w', add_file a_txt 5 noon h2 two_files = (Ok (), w') ∧
    logged two_files w' a_txt (HReplace a_txt h1).
Proof.
  destruct (add_file_spec a_txt 5 noon h2 two_files) as (w' & H & Hp);
    [apply two_files_ok|done|by split; vm_compute|].
  exists w'. split; [exact H|]. exact (af_log _ _ _ _ Hp).
Defined.

Example remove_file_or_dir_spec_witness :
  ∃ w', remove_file_or_dir (mkPath "d/a.txt") two_files = (Ok (), w') ∧
    get_file_entry (index (db w')) a_txt = None ∧
    get_file_entry (index (db w')) b_txt = get_file_entry (index (db two_files)) b_txt.
Proof.
  destruct (remove_file_or_dir_spec (mkPath "d/a.txt") two_files) as (w' & H & Hp);
    [apply two_files_ok|by split; vm_compute|].
  exists w'. split; [exact H|]. split; [exact (rm_files _ _ _ Hp a_txt)|].
  exact (rm_files _ _ _ Hp b_txt).
Defined.

Definition disk : Ext :=
  {| fs := {["/root/d/a.txt" := {| f_data := []; f_mtime := noon |}]}; global := global_empty |}.

Example drop_file_if_matches_spec_witness :
  ∃ t', drop_file_if_matches a_txt h1 "/root/d/a.txt" (set_ext disk (begin_write two_files)) = (Ok true, t') ∧
    get_file_entry (index (tables t')) a_txt = None.
Proof.
  destruct (proj1 (world_ok_begin two_files) two_files_ok) as (files & Hi & Ht).
  apply (txn_log_ext _ _ _ disk) in Ht.
  destruct (drop_file_if_matches_spec a_txt h1 "/root/d/a.txt" two_files _ files Ht Hi)
    as (b & t' & H & Hb & _ & Hp); [split; vm_compute; reflexivity|].
  destruct b.
  - exists t'. split; [exact H|]. exact (dr_file _ _ _ _ _ _ (Hp eq_refl)).
  - exfalso. assert (false = true); [|done]. apply Hb.
    eexists. split; [by vm_compute|]. split; [done|]. eexists. split; [by vm_compute|]. done.
Defined.

Example index_update_spec_witness :
  ∃ w', index_update the_arena (NReplace the_arena 7 a_txt noon 3 h2 h1) "/root" two_files
          = (Ok (), w') ∧
    outdated_by <$> get_file_entry (index (db w')) a_txt = Some (Some h2).
Proof.
  destruct (index_update_spec the_arena (NReplace the_arena 7 a_txt noon 3 h2 h1) "/root" two_files)
    as (w' & H & Hp).
  exists w'. split; [exact H|].
  rewrite (up_replaced _ _ _ _ _ Hp a_txt _ 7 noon 3 h2 h1 eq_refl ltac:(by vm_compute)
             (or_introl eq_refl)). done.
Defined.
End witnesses.
