(* ===== verification/Dirs.v ===== *)
(** * Directories of the cache

    The part of [crate/realize-storage/src/arena/arena_cache.rs] that keeps the
    directory tree: looking a path up, creating directories and file entries,
    listing.  The arena cache and the global cache both use it, each with its own
    transaction, so the operations that change the tree are written on any state
    that holds a directory table and an allocator.

    [dirs_ok] is the shape of the tree; [file_at] is what it says of a path, and
    the specification of the operations. *)
From S2P Require Import Prelude Redb Path Types.
Local Open Scope N_scope.
Local Open Scope realize_scope.

(** [Iterator::take_while] *)
Fixpoint take_while {A} (f : A → bool) (l : list A) : list A :=
  match l with
  | [] => []
  | x :: l => if f x then x :: take_while f l else []
  end.

Section dirs.
Context {R : Redb}.

Abbreviation DirTable := (table (N * string) DirTableEntry).

(** ** Reading *)

Definition get_dir_entry (dir_table : DirTable) (parent_inode : Inode) (name : string)
  : option ReadDirEntry :=
  (λ e, into_readdir_entry e parent_inode) <$> tbl_get (parent_inode, name) dir_table.

Definition do_lookup (dir_table : DirTable) (parent_inode : Inode) (name : string)
  : sresult ReadDirEntry :=
  ok_or NotFound (get_dir_entry dir_table parent_inode name).

(** The loop of [do_lookup_path]. *)
Fixpoint lookup_components (dir_table : DirTable) (current : Inode * InodeAssignment) (cs : list string)
  : sresult (Inode * InodeAssignment) :=
  match cs with
  | [] => Ok current
  | component :: cs =>
      if negb (bool_decide (current.2 = ADirectory)) then Err NotADirectory
      else match get_dir_entry dir_table current.1 component with
           | Some entry => lookup_components dir_table (rd_inode entry, assignment entry) cs
           | None => Err NotFound
           end
  end.

Definition do_lookup_path (dir_table : DirTable) (root_inode : Inode) (path : option Path)
  : sresult (Inode * InodeAssignment) :=
  lookup_components dir_table (root_inode, ADirectory) (Path.components path).

Definition do_readdir (dir_table : DirTable) (inode : Inode) : list (string * ReadDirEntry) :=
  omap (λ kv, match kv.2 with Regular entry => Some (kv.1.2, entry) | Dot _ => None end)
    (take_while (λ kv, kv.1.1 =? inode) (tbl_range (Included (inode, "")) Unbounded dir_table)).

Definition do_dir_mtime (dir_table : DirTable) (inode root : Inode) : sresult UnixTime :=
  match tbl_get (inode, ".") dir_table with
  | Some (Dot mtime) => Ok mtime
  | Some (Regular _) => Err NotFound
  | None => if inode =? root then Ok UnixTime.ZERO else Err NotFound
  end.

(** ** Writing *)

(** [add_dir_entry], at time [now] *)
Definition add_dir_entry (now : UnixTime) (parent_inode new_inode : Inode) (name : string)
  (a : InodeAssignment) (dir_table : DirTable) : DirTable :=
  let dir_table := tbl_insert (parent_inode, name)
                     (Regular {| rd_inode := new_inode; assignment := a |}) dir_table in
  let dir_table := tbl_insert (parent_inode, ".") (Dot now) dir_table in
  if bool_decide (a = ADirectory) then tbl_insert (new_inode, ".") (Dot now) dir_table
  else dir_table.

Section writing.
Context {S : Type} (get : S → DirTable) (put : DirTable → S → S)
  (alloc_inode : StateM S StorageError Inode) (now : UnixTime).

(** The loop of [do_mkdirs]. *)
Fixpoint mkdirs_components (current : Inode) (cs : list string) : StateM S StorageError Inode :=
  match cs with
  | [] => sret current
  | component :: cs =>
      let* dir_table := sget get in
      match get_dir_entry dir_table current component with
      | Some entry =>
          if negb (bool_decide (assignment entry = ADirectory)) then sthrow NotADirectory
          else mkdirs_components (rd_inode entry) cs
      | None =>
          let* new_inode := alloc_inode in
          do* smodify (λ s, put (add_dir_entry now current new_inode component ADirectory (get s)) s) in
          mkdirs_components new_inode cs
      end
  end.

Definition do_mkdirs (root_inode : Inode) (path : option Path) : StateM S StorageError Inode :=
  mkdirs_components root_inode (Path.components path).

Definition do_create_file (root : Inode) (path : Path) : StateM S StorageError (Inode * Inode) :=
  let filename := Path.name path in
  let* parent_inode := do_mkdirs root (Path.parent path) in
  let* dir_table := sget get in
  match get_dir_entry dir_table parent_inode filename with
  | None =>
      let* new_inode := alloc_inode in
      do* smodify (λ s, put (add_dir_entry now parent_inode new_inode filename AFile (get s)) s) in
      sret (parent_inode, new_inode)
  | Some dir_entry =>
      if negb (bool_decide (assignment dir_entry = AFile)) then sthrow IsADirectory
      else sret (parent_inode, rd_inode dir_entry)
  end.
End writing.
End dirs.

(** ** The shape of the tree *)

Section shape.
Context {R : Redb} (root : Inode).
Implicit Types (t : table (N * string) DirTableEntry) (i p : Inode) (cs : list string).

Definition is_dir t i : Prop :=
  i = root ∨ ∃ p n, tbl_get (p, n) t = Some (Regular {| rd_inode := i; assignment := ADirectory |}).

(** Entries have the names of path components and live in directories; an inode
    has a single entry, in a directory of smaller inode; [.] is no other. *)
Record dirs_ok t : Prop := {
  do_regular : ∀ p n e, tbl_get (p, n) t = Some (Regular e) →
    good_component n ∧ p < rd_inode e ∧ is_dir t p;
  do_unique : ∀ p n e p' n' e',
    tbl_get (p, n) t = Some (Regular e) → tbl_get (p', n') t = Some (Regular e') →
    rd_inode e = rd_inode e' → p = p' ∧ n = n';
  do_dot : ∀ p n m, tbl_get (p, n) t = Some (Dot m) → n = ".";
}.

(** Every inode of the tree is below [i]. *)
Definition above i t : Prop :=
  root < i ∧
  ∀ p n v, tbl_get (p, n) t = Some v →
           p < i ∧ ∀ e, v = Regular e → rd_inode e < i.

(** The tree only grew. *)
Definition grows t t' : Prop :=
  ∀ p n v, tbl_get (p, n) t = Some v →
    ∃ v', tbl_get (p, n) t' = Some v' ∧ ∀ e, v = Regular e → v' = Regular e.

Definition resolve t cs : sresult (Inode * InodeAssignment) :=
  lookup_components t (root, ADirectory) cs.

(** The inode of the file at a path. *)
Definition file_at t (q : Path) : option Inode :=
  match resolve t (comps q) with Ok (i, AFile) => Some i | _ => None end.

Context `{!RedbLaws R}.

Lemma get_dir_entry_good t p n e :
  dirs_ok t → good_component n →
  get_dir_entry t p n = Some e ↔ tbl_get (p, n) t = Some (Regular e).
Proof.
  intros Ht Hn. unfold get_dir_entry. destruct (tbl_get (p, n) t) as [[e'|m]|] eqn:E; simpl.
  - split; intros [= ->]; done.
  - apply (do_dot _ Ht) in E. subst. by destruct Hn as (_ & ? & _).
  - done.
Qed.

Lemma lookup_app t c cs cs' :
  lookup_components t c (cs ++ cs') = result_bind (lookup_components t c cs) (λ d, lookup_components t d cs').
Proof.
  revert c. induction cs as [|n cs IH]; intros c; [done|]. simpl.
  case_bool_decide; simpl; [|done]. destruct (get_dir_entry t c.1 n); [apply IH|done].
Qed.

Lemma resolve_snoc t cs n i a :
  dirs_ok t → good_component n →
  resolve t (cs ++ [n]) = Ok (i, a) ↔
  ∃ p, resolve t cs = Ok (p, ADirectory) ∧
       tbl_get (p, n) t = Some (Regular {| rd_inode := i; assignment := a |}).
Proof.
  intros Ht Hn. unfold resolve. rewrite lookup_app.
  destruct (lookup_components t (root, ADirectory) cs) as [[p b]|e]; simpl; [|naive_solver].
  case_bool_decide as Hb; simpl.
  - simpl in Hb. subst b. destruct (get_dir_entry t p n) as [e|] eqn:E.
    + apply get_dir_entry_good in E; [|done..]. destruct e as [i' a']. simpl. split.
      * intros [= -> ->]. by exists p.
      * intros (p' & [= <-] & Hp). by simplify_eq.
    + split; [done|]. intros (p' & [= <-] & Hp). apply get_dir_entry_good in Hp; [|done..]. congruence.
  - split; [done|]. by intros (p' & [= <- ->] & _).
Qed.

Lemma is_dir_root t p : dirs_ok t → is_dir t p → root ≤ p.
Proof.
  intros Ht. induction (N.lt_wf_0 p) as [p _ IH]. intros [->|(q & n & Hq)]; [lia|].
  apply (do_regular _ Ht) in Hq as (_ & Hlt & Hd). simpl in Hlt. apply IH in Hd; lia.
Qed.

Lemma resolve_inj t cs cs' i a a' :
  dirs_ok t → Forall good_component cs → Forall good_component cs' →
  resolve t cs = Ok (i, a) → resolve t cs' = Ok (i, a') → cs = cs'.
Proof.
  intros Ht. revert cs' i a a'. induction cs as [|n cs IH] using rev_ind; intros cs' i a a' Hg Hg' H H'.
  - injection H as <- <-. destruct cs' as [|m cs' _] using rev_ind; [done|].
    apply Forall_app in Hg' as [Hg' [Hm _]%Forall_cons]. apply resolve_snoc in H' as (p & _ & Hp); [|done..].
    apply (do_regular _ Ht) in Hp as (_ & Hlt & Hd). simpl in Hlt.
    apply is_dir_root in Hd; [lia|done].
  - apply Forall_app in Hg as [Hg [Hn _]%Forall_cons]. apply resolve_snoc in H as (p & Hp & Hpn); [|done..].
    destruct cs' as [|m cs' _] using rev_ind.
    + injection H' as <- <-. apply (do_regular _ Ht) in Hpn as (_ & Hlt & Hd). simpl in Hlt.
      apply is_dir_root in Hd; [lia|done].
    + apply Forall_app in Hg' as [Hg' [Hm _]%Forall_cons].
      apply resolve_snoc in H' as (p' & Hp' & Hpm); [|done..].
      destruct (do_unique _ Ht _ _ _ _ _ _ Hpn Hpm eq_refl) as [-> ->]. f_equal. by eapply IH.
Qed.

Lemma file_at_inj t (p q : Path) i :
  dirs_ok t → valid p → valid q → file_at t p = Some i → file_at t q = Some i → p = q.
Proof.
  intros Ht Hp%valid_comps Hq%valid_comps. unfold file_at.
  destruct (resolve t (comps p)) as [[i1 []]|] eqn:E1; [|done..].
  destruct (resolve t (comps q)) as [[i2 []]|] eqn:E2; [|done..].
  intros [= ->] [= ->]. apply comps_inj. by eapply resolve_inj.
Qed.

(** ** Adding an entry *)

Lemma add_dir_entry_get now p i n a t q m :
  m ≠ "." →
  tbl_get (q, m) (add_dir_entry now p i n a t) =
  if decide ((q, m) = (p, n)) then Some (Regular {| rd_inode := i; assignment := a |})
  else tbl_get (q, m) t.
Proof.
  intros Hm. unfold add_dir_entry.
  case_bool_decide; rewrite ?get_insert; repeat case_decide; simplify_eq; done.
Qed.

Lemma add_dir_entry_dot now p i n a t q :
  n ≠ "." →
  tbl_get (q, ".") (add_dir_entry now p i n a t) =
  if decide (q = p ∨ (a = ADirectory ∧ q = i)) then Some (Dot now) else tbl_get (q, ".") t.
Proof.
  intros Hn. unfold add_dir_entry.
  case_bool_decide; rewrite ?get_insert; repeat case_decide; simplify_eq; naive_solver.
Qed.

(** Adding the entry [n] to the directory [p], for the new inode [i]. *)
Section add_entry.
Context (now : UnixTime) (p i : Inode) (n : string) (a : InodeAssignment) (t : table (N * string) DirTableEntry).
Context (Ht : dirs_ok t) (Hp : is_dir t p) (Hn : good_component n)
  (Habove : above i t) (Hnone : get_dir_entry t p n = None).
Let t' := add_dir_entry now p i n a t.

Lemma good_not_dot m : good_component m → m ≠ ".".
Proof. intros (_ & H & _). done. Qed.

Lemma new_get q m :
  good_component m →
  tbl_get (q, m) t' = if decide ((q, m) = (p, n)) then Some (Regular {| rd_inode := i; assignment := a |})
                      else tbl_get (q, m) t.
Proof. intros Hm. by apply add_dir_entry_get, good_not_dot. Qed.

Lemma old_none : tbl_get (p, n) t = None.
Proof. unfold get_dir_entry in Hnone. by destruct (tbl_get (p, n) t). Qed.

Lemma parent_below : p < i.
Proof.
  destruct Habove as [H1 H2]. destruct Hp as [->|(q & m & Hq)]; [done|].
  destruct (H2 _ _ _ Hq) as [_ H]. by specialize (H _ eq_refl).
Qed.

Lemma add_dir_entry_regular q m e :
  tbl_get (q, m) t' = Some (Regular e) ↔
  (q = p ∧ m = n ∧ e = {| rd_inode := i; assignment := a |}) ∨ tbl_get (q, m) t = Some (Regular e).
Proof.
  pose proof old_none as Hold. pose proof (good_not_dot _ Hn) as Hnd.
  destruct (decide (m = ".")) as [->|Hm].
  - unfold t'. rewrite add_dir_entry_dot by done. split.
    + case_decide; [done|by right].
    + intros [(_ & <- & _)|He]; [done|]. by apply (do_regular _ Ht) in He as [Hg%good_not_dot _].
  - unfold t'. rewrite add_dir_entry_get by done. case_decide as E.
    + injection E as -> ->. split; [intros [= <-]; by left|]. intros [(_ & _ & ->)|?]; congruence.
    + split; [by right|]. intros [(-> & -> & _)|?]; [done|done].
Qed.

Lemma add_grows : grows t t'.
Proof.
  intros q m v Hv. destruct (decide (m = ".")) as [->|Hm].
  - unfold t'. rewrite add_dir_entry_dot by (by apply good_not_dot). case_decide; [|by exists v].
    eexists. split; [done|]. intros e ->. by apply (do_regular _ Ht) in Hv as [Hg%good_not_dot _].
  - exists v. split; [|done]. unfold t'. rewrite add_dir_entry_get by done.
    rewrite decide_False; [done|]. intros [= -> ->]. by rewrite old_none in Hv.
Qed.

Lemma add_is_dir q : is_dir t q → is_dir t' q.
Proof.
  intros [->|(q' & m & H)]; [by left|right]. exists q', m. apply add_dir_entry_regular. by right.
Qed.

Lemma add_dirs_ok : dirs_ok t'.
Proof.
  pose proof parent_below as Hlt. split.
  - intros q m e [(-> & -> & ->)|He]%add_dir_entry_regular.
    + split_and!; [done|done|by apply add_is_dir].
    + apply (do_regular _ Ht) in He as (? & ? & ?). split_and!; [done|done|by apply add_is_dir].
  - intros q m e q' m' e' He He' Hee.
    apply add_dir_entry_regular in He as [(-> & -> & ->)|He], He' as [(-> & -> & ->)|He'].
    + done.
    + apply Habove in He' as [_ H]. specialize (H _ eq_refl). simpl in Hee. lia.
    + apply Habove in He as [_ H]. specialize (H _ eq_refl). simpl in Hee. lia.
    + by eapply (do_unique _ Ht).
  - intros q m mt Hd. destruct (decide (m = ".")) as [|Hm]; [done|].
    unfold t' in Hd. rewrite add_dir_entry_get in Hd by done. case_decide; [done|].
    by eapply (do_dot _ Ht).
Qed.

Lemma add_above : above (i + 1) t'.
Proof.
  pose proof parent_below as Hlt. destruct Habove as [Hr Ha]. split; [lia|].
  intros q m v Hv. destruct (decide (m = ".")) as [->|Hm].
  - unfold t' in Hv. rewrite add_dir_entry_dot in Hv by (by apply good_not_dot).
    case_decide as Hq.
    + injection Hv as <-. split; [|done]. destruct Hq as [->|[_ ->]]; lia.
    + destruct (Ha _ _ _ Hv) as [? H]. split; [lia|]. intros e ->. specialize (H e eq_refl). lia.
  - unfold t' in Hv. rewrite add_dir_entry_get in Hv by done. case_decide as Hq.
    + injection Hq as -> ->. injection Hv as <-. split; [lia|]. intros e [= <-]. simpl. lia.
    + destruct (Ha _ _ _ Hv) as [? H]. split; [lia|]. intros e ->. specialize (H e eq_refl). lia.
Qed.

Context (cs0 : list string) (Hcs0 : Forall good_component cs0) (Hres : resolve t cs0 = Ok (p, ADirectory)).

Lemma resolve_add cs j b :
  Forall good_component cs →
  resolve t' cs = Ok (j, b) ↔
  (cs = cs0 ++ [n] ∧ j = i ∧ b = a) ∨ resolve t cs = Ok (j, b).
Proof.
  pose proof old_none as Hold. pose proof add_dirs_ok as Ht'.
  revert j b. induction cs as [|m cs IH] using rev_ind; intros j b Hg.
  { split; [by right|]. intros [(E & _)|?]; [|done]. by destruct cs0. }
  apply Forall_app in Hg as [Hg [Hm _]%Forall_cons]. rewrite !resolve_snoc by done. split.
  - intros (d & Hd & He). apply IH in Hd as [(-> & -> & _)|Hd]; [| |done].
    + apply add_dir_entry_regular in He as [(Ep & _)|He].
      * pose proof parent_below as Hlt. rewrite Ep in Hlt. lia.
      * apply Habove in He as [H _]. lia.
    + apply add_dir_entry_regular in He as [(-> & -> & [= -> ->])|He].
      * left. split_and!; [|done|done]. f_equal. by apply (resolve_inj t cs cs0 p ADirectory ADirectory).
      * right. by exists d.
  - intros [(E & -> & ->)|(d & Hd & He)].
    + apply app_inj_tail in E as [-> ->]. exists p. split; [apply IH; [done|by right]|].
      apply add_dir_entry_regular. by left.
    + exists d. split; [apply IH; [done|by right]|]. apply add_dir_entry_regular. by right.
Qed.
End add_entry.

Lemma grows_refl t : grows t t.
Proof. intros p n v Hv. by exists v. Qed.

Lemma grows_trans t1 t2 t3 : grows t1 t2 → grows t2 t3 → grows t1 t3.
Proof.
  intros H1 H2 p n v Hv. destruct (H1 _ _ _ Hv) as (v' & Hv' & E1).
  destruct (H2 _ _ _ Hv') as (v'' & Hv'' & E2). exists v''. split; [done|]. intros e He. auto.
Qed.

Lemma above_grows i t t' : grows t t' → above i t' → above i t.
Proof.
  intros Hg [H1 H2]. split; [done|]. intros p n v Hv. destruct (Hg _ _ _ Hv) as (v' & Hv' & E).
  destruct (H2 _ _ _ Hv') as [? H]. split; [done|]. intros e He. apply H. auto.
Qed.

Lemma resolve_is_dir t cs p :
  dirs_ok t → Forall good_component cs → resolve t cs = Ok (p, ADirectory) → is_dir t p.
Proof.
  intros Ht Hg. destruct cs as [|n cs _] using rev_ind; [intros [= <-]; by left|].
  apply Forall_app in Hg as [Hg [Hn _]%Forall_cons]. intros (q & _ & Hq)%resolve_snoc; [|done..].
  right. by exists q, n.
Qed.

(** How the lookups of a grown tree relate to the old ones: the only new ones are
    directories on the way to [full]. *)
Definition extends_to (full : list string) t t' : Prop :=
  grows t t' ∧
  (∀ cs j b, Forall good_component cs → resolve t cs = Ok (j, b) → resolve t' cs = Ok (j, b)) ∧
  (∀ cs j b, Forall good_component cs → resolve t' cs = Ok (j, b) →
     resolve t cs = Ok (j, b) ∨ (b = ADirectory ∧ cs `prefix_of` full)).

Lemma extends_to_refl full t : extends_to full t t.
Proof. split_and!; [apply grows_refl|done|by left]. Qed.

Lemma extends_to_trans full t1 t2 t3 :
  extends_to full t1 t2 → extends_to full t2 t3 → extends_to full t1 t3.
Proof.
  intros (G1 & R1 & F1) (G2 & R2 & F2). split_and!.
  - by eapply grows_trans.
  - auto.
  - intros cs j b Hg H. destruct (F2 _ _ _ Hg H) as [H'|?]; auto.
Qed.

(** ** Creating directories and files *)

Section creating.
Context {S : Type} (get : S → table (N * string) DirTableEntry)
  (put : table (N * string) DirTableEntry → S → S)
  (alloc_inode : StateM S StorageError Inode) (now : UnixTime).

(** [I n s]: [n] more inodes can be allocated in [s]; [Rel] relates a state to
    those that come after it. *)
Context (I : nat → S → Prop) (Rel : relation S) `{!PreOrder Rel}.
(** [fresh i s]: the inode [i] was never given in [s]. *)
Context (fresh : Inode → S → Prop) (fresh_before : ∀ i s s', Rel s s' → fresh i s' → fresh i s).
Context (I_weaken : ∀ n s, I (1 + n) s → I n s).
Context (alloc_ok : ∀ n s, I (1 + n) s →
  ∃ i s', alloc_inode s = (Ok i, s') ∧ get s' = get s ∧ above i (get s) ∧ fresh i s ∧
    ∀ p m a, is_dir (get s) p →
      let s'' := put (add_dir_entry now p i m a (get s)) s' in
      get s'' = add_dir_entry now p i m a (get s) ∧
      (above (i + 1) (get s'') → I n s'') ∧ Rel s s'').

Lemma I_weaken_add k n s : I (k + n) s → I n s.
Proof. induction k as [|k IH]; [done|]. intros H. by apply IH, I_weaken. Qed.

Lemma mkdirs_spec cs0 p cs n s :
  dirs_ok (get s) → Forall good_component cs0 → Forall good_component cs →
  resolve (get s) cs0 = Ok (p, ADirectory) → I (length cs + n) s →
  match mkdirs_components get put alloc_inode now p cs s with
  | (Ok d, s') => dirs_ok (get s') ∧ resolve (get s') (cs0 ++ cs) = Ok (d, ADirectory) ∧
                  I n s' ∧ Rel s s' ∧ extends_to (cs0 ++ cs) (get s) (get s')
  | (Err e, s') => I n s' ∧ Rel s s' ∧ e = NotADirectory ∧
      ∃ pre j, pre `prefix_of` cs0 ++ cs ∧ resolve (get s) pre = Ok (j, AFile)
  end.
Proof.
  revert cs0 p s. induction cs as [|m cs IH]; intros cs0 p s Ht Hg0 Hg Hres HI; simpl.
  { rewrite app_nil_r. split_and!; [done|done|done|done|apply extends_to_refl]. }
  apply Forall_cons in Hg as [Hm Hg]. unfold sbind at 1, sget.
  assert (Forall good_component (cs0 ++ [m])) as Hg1 by (apply Forall_app; auto).
  assert (cs0 ++ m :: cs = (cs0 ++ [m]) ++ cs) as Hcs by (by rewrite <- app_assoc).
  destruct (get_dir_entry (get s) p m) as [e|] eqn:E.
  - apply get_dir_entry_good in E; [|done..].
    assert (resolve (get s) (cs0 ++ [m]) = Ok (rd_inode e, assignment e)) as Hr.
    { apply resolve_snoc; [done|done|]. exists p. split; [done|]. by destruct e. }
    case_bool_decide as Ha; simpl.
    + rewrite Hcs. rewrite Ha in Hr. apply IH; [done|done|done|done|].
      simpl in HI. by apply I_weaken.
    + split; [by apply (I_weaken_add (length (m :: cs)))|]. split; [done|]. split; [done|].
      exists (cs0 ++ [m]), (rd_inode e). split; [rewrite Hcs; by exists cs|].
      rewrite Hr. by destruct (assignment e).
  - unfold sbind at 1. destruct (alloc_ok (length cs + n) s HI) as (i & s1 & -> & Hget & Hab & _ & Hput).
    unfold sbind at 1, smodify. rewrite Hget.
    pose proof (resolve_is_dir _ _ _ Ht Hg0 Hres) as Hdir.
    destruct (Hput p m ADirectory Hdir) as (Hget2 & HI2 & HR2).
    set (s2 := put _ s1) in *.
    assert (dirs_ok (get s2)) as Ht2 by (rewrite Hget2; by apply add_dirs_ok).
    assert (above (i + 1) (get s2)) as Hab2 by (rewrite Hget2; by apply add_above).
    assert (∀ cs j b, Forall good_component cs → resolve (get s2) cs = Ok (j, b) ↔
      (cs = cs0 ++ [m] ∧ j = i ∧ b = ADirectory) ∨ resolve (get s) cs = Ok (j, b)) as Hadd.
    { intros cs' j b Hg'. rewrite Hget2. by apply resolve_add. }
    assert (extends_to ((cs0 ++ [m]) ++ cs) (get s) (get s2)) as Hext.
    { split_and!.
      - rewrite Hget2. by apply add_grows.
      - intros cs' j b Hg' H. apply Hadd; [done|by right].
      - intros cs' j b Hg' [(-> & _ & ->)|H]%Hadd; [|by left|done].
        right. split; [done|by exists cs]. }
    specialize (IH (cs0 ++ [m]) i s2 Ht2 Hg1 Hg). rewrite Hcs.
    destruct (mkdirs_components _ _ _ _ i cs s2) as [[d|e] s3].
    + destruct IH as (H1 & H2 & H3 & H4 & H5); [apply Hadd; [done|by left]|auto|].
      split_and!; [done|done|done|by etrans|by eapply extends_to_trans].
    + destruct IH as (HI' & HR' & H1 & pre & j & [post H2] & H3); [apply Hadd; [done|by left]|auto|].
      split; [done|]. split; [by etrans|]. split; [done|]. exists pre, j. split; [by exists post|].
      assert (Forall good_component ((cs0 ++ [m]) ++ cs)) as Hall by (by apply Forall_app).
      rewrite H2 in Hall. apply Forall_app in Hall as [Hpre _].
      by destruct (proj2 (proj2 Hext) _ _ _ Hpre H3) as [|[? _]].
Qed.

(** Adding the file itself, once its directory is there. *)
Lemma create_leaf_spec (p : Path) cs d n s1 :
  dirs_ok (get s1) → Forall good_component (cs ++ [Path.name p]) → comps p = cs ++ [Path.name p] →
  resolve (get s1) cs = Ok (d, ADirectory) → I (1 + n) s1 →
  get_dir_entry (get s1) d (Path.name p) = None →
  ∃ i s3, (let* new_inode := alloc_inode in
           do* smodify (λ s, put (add_dir_entry now d new_inode (Path.name p) AFile (get s)) s) in
           sret (d, new_inode)) s1 = (Ok (d, i), s3) ∧
    dirs_ok (get s3) ∧ I n s3 ∧ Rel s1 s3 ∧ grows (get s1) (get s3) ∧
    get_dir_entry (get s3) d (Path.name p) = Some {| rd_inode := i; assignment := AFile |} ∧
    file_at (get s3) p = Some i ∧
    (∀ q, valid q → q ≠ p → file_at (get s3) q = file_at (get s1) q) ∧
    file_at (get s1) p = None ∧ above i (get s1) ∧ fresh i s1.
Proof.
  intros Ht1 Hgp Hc Hr1 HI1 E. pose proof Hgp as Hg. apply Forall_app in Hg as [Hg [Hn _]%Forall_cons].
  unfold sbind at 1. destruct (alloc_ok n s1 HI1) as (i & s2 & -> & Hget & Hab & Hfr & Hput).
  unfold sbind, smodify, sret. rewrite Hget.
  pose proof (resolve_is_dir _ _ _ Ht1 Hg Hr1) as Hdir.
  destruct (Hput d (Path.name p) AFile Hdir) as (Hget3 & HI3 & HR3).
  set (s3 := put _ s2) in *. exists i, s3. split; [done|].
  assert (dirs_ok (get s3)) as Ht3 by (rewrite Hget3; by apply add_dirs_ok).
  assert (above (i + 1) (get s3)) as Hab3 by (rewrite Hget3; by apply add_above).
  assert (∀ cs' j b, Forall good_component cs' → resolve (get s3) cs' = Ok (j, b) ↔
    (cs' = comps p ∧ j = i ∧ b = AFile) ∨ resolve (get s1) cs' = Ok (j, b)) as Hadd.
  { intros cs' j b Hg'. rewrite Hget3, Hc. by apply resolve_add. }
  rewrite <- Hc in Hgp. split_and!; [done|auto|done| | | | | |done|done].
  - rewrite Hget3. by apply add_grows.
  - apply get_dir_entry_good; [done|done|]. rewrite Hget3.
    apply add_dir_entry_regular; [done..|by left].
  - unfold file_at. by rewrite (proj2 (Hadd (comps p) i AFile Hgp)) by (by left).
  - intros q Hq%valid_comps Hne. unfold file_at.
    destruct (resolve (get s3) (comps q)) as [[j b]|] eqn:E3.
    + apply Hadd in E3 as [(Eq & _)|E1]; [by apply comps_inj in Eq|by rewrite E1|done].
    + destruct (resolve (get s1) (comps q)) as [[j []]|] eqn:E1; [|done..].
      rewrite (proj2 (Hadd (comps q) j AFile Hq) (or_intror E1)) in E3. done.
  - unfold file_at. destruct (resolve (get s1) (comps p)) as [[j []]|] eqn:E1; [|done..].
    rewrite Hc in E1. apply resolve_snoc in E1 as (d' & Hd' & He); [|done..].
    rewrite Hr1 in Hd'. injection Hd' as <-. apply get_dir_entry_good in He; [|done..]. congruence.
Qed.

Lemma do_create_file_spec (p : Path) n s :
  dirs_ok (get s) → valid p → I (length (comps p) + n) s →
  match do_create_file get put alloc_inode now root p s with
  | (Ok (d, i), s') =>
      dirs_ok (get s') ∧ I n s' ∧ Rel s s' ∧ grows (get s) (get s') ∧
      get_dir_entry (get s') d (Path.name p) = Some {| rd_inode := i; assignment := AFile |} ∧
      file_at (get s') p = Some i ∧
      (∀ q, valid q → q ≠ p → file_at (get s') q = file_at (get s) q) ∧
      (file_at (get s) p = Some i ∨ (file_at (get s) p = None ∧ above i (get s) ∧ fresh i s))
  | (Err e, s') => I n s' ∧ Rel s s' ∧
      ((e = NotADirectory ∧
        ∃ pre j, pre `prefix_of` comps p ∧ resolve (get s) pre = Ok (j, AFile)) ∨
       (e = IsADirectory ∧ ∃ j, resolve (get s) (comps p) = Ok (j, ADirectory)))
  end.
Proof.
  intros Ht Hp HI. pose proof (comps_parent p) as Hc. apply valid_comps in Hp as Hg. pose proof Hg as Hgp. rewrite Hc in Hg.
  apply Forall_app in Hg as [Hg [Hn _]%Forall_cons].
  set (cs := Path.components (Path.parent p)) in *. rewrite Hc, length_app in HI. simpl in HI.
  rewrite <- Nat.add_assoc in HI.
  unfold do_create_file, do_mkdirs. unfold sbind at 1. fold cs.
  pose proof (mkdirs_spec [] root cs (1 + n) s Ht (Forall_nil_2 _) Hg eq_refl HI) as Hmk.
  destruct (mkdirs_components _ _ _ _ root cs s) as [[d|e] s1].
  2:{ destruct Hmk as (HI' & HR' & -> & pre & j & Hpre & Hr). split; [by apply I_weaken|].
      split; [done|]. left. split; [done|]. exists pre, j.
      split; [|done]. simpl in Hpre. rewrite Hc. by apply prefix_app_r. }
  destruct Hmk as (Ht1 & Hr1 & HI1 & HR1 & (Hgr & Hres & Hfiles)). simpl in Hr1.
  unfold sbind at 1, sget.
  assert (∀ q, valid q → file_at (get s1) q = file_at (get s) q) as Hold.
  { intros q Hq%valid_comps. unfold file_at.
    destruct (resolve (get s) (comps q)) as [[j []]|] eqn:E.
    - by rewrite (Hres _ _ _ Hq E).
    - by rewrite (Hres _ _ _ Hq E).
    - destruct (resolve (get s1) (comps q)) as [[j []]|] eqn:E1; [|done..].
      destruct (Hfiles _ _ _ Hq E1) as [?|[? _]]; congruence. }
  destruct (get_dir_entry (get s1) d (Path.name p)) as [[j a]|] eqn:E.
  - assert (resolve (get s1) (comps p) = Ok (j, a)) as Hrp.
    { rewrite Hc. apply resolve_snoc; [done|done|]. exists d. split; [done|].
      by apply get_dir_entry_good in E. }
    simpl. case_bool_decide as Ha; simpl; subst.
    + unfold sret. assert (file_at (get s1) p = Some j) as Hf by (unfold file_at; by rewrite Hrp).
      split_and!; [done|by apply I_weaken|done|done|done|done|by auto|].
      left. by rewrite <- Hold.
    + split; [by apply I_weaken|]. split; [done|]. right. split; [done|]. destruct a; [done|]. exists j.
      destruct (Hfiles _ _ _ Hgp Hrp) as [?|[_ Hpre]]; [done|].
      apply prefix_length in Hpre. rewrite Hc, length_app in Hpre. simpl in Hpre. lia.
  - rewrite Hc in Hgp.
    destruct (create_leaf_spec p cs d n s1 Ht1 Hgp Hc Hr1 HI1 E)
      as (i & s3 & -> & H1 & H2 & H3 & H4 & H5 & H6 & H7 & H8 & H9 & H10).
    split_and!; [done|done|by etrans|by eapply grows_trans|done|done| |].
    + intros q Hq Hne. rewrite H7; auto.
    + right. rewrite <- Hold by done. split; [done|]. split; [by apply (above_grows i _ (get s1))|].
      by eapply fresh_before.
Qed.
End creating.
End shape.
