(* ===== verification/ArenaCache.v ===== *)
(** * The arena cache

    [crate/realize-storage/src/arena/arena_cache.rs]: what the peers of an arena
    have, as told by their notifications, presented as one tree of files.

    Every file has an inode, an entry per peer that has it and a default entry,
    the version that is presented.  [update] takes a notification into account in
    one transaction. *)
From S2P Require Import Prelude Range RangeSet Redb Path Types Db Dirty InodeAllocator Blob Dirs.
Local Open Scope N_scope.
Local Open Scope realize_scope.

Section cache.
Context {R : Redb} {B : Bimap}.

Abbreviation FileTable := (table (N * string) FileTableEntry).

(** ** The tables of the transaction *)

Definition dir_table_of (t : Txn) : table (N * string) DirTableEntry :=
  cache_directory_table (cache (tables t)).
Definition file_table_of (t : Txn) : FileTable := cache_file_table (cache (tables t)).
Definition pending_table_of (t : Txn) : table (string * N) N :=
  cache_pending_catchup_table (cache (tables t)).
Definition upd_cache (f : CacheTables → CacheTables) (t : Txn) : Txn :=
  set_tables (set_cache (f (cache (tables t))) (tables t)) t.
Definition put_dir_table (x : table (N * string) DirTableEntry) (t : Txn) : Txn :=
  upd_cache (set_cache_directory_table x) t.
Definition put_file_table (x : FileTable) (t : Txn) : Txn := upd_cache (set_cache_file_table x) t.
Definition put_pending_table (x : table (string * N) N) (t : Txn) : Txn :=
  upd_cache (set_cache_pending_catchup_table x) t.

(** ** Reading *)

Definition get_file_entry (file_table : FileTable) (inode : Inode) (peer : option Peer)
  : option FileTableEntry :=
  tbl_get (inode, default "" (peer_name <$> peer)) file_table.
Definition get_default_entry (file_table : FileTable) (inode : Inode) : sresult FileTableEntry :=
  ok_or NotFound (tbl_get (inode, "") file_table).

(** [get_file_entry_for_path] *)
Definition get_file_entry_for_path (c : CacheTables) (root : Inode) (path : Path)
  : sresult FileTableEntry :=
  result_bind (do_lookup_path (cache_directory_table c) root (Some path)) (λ '(inode, a),
    if negb (bool_decide (a = AFile)) then Err IsADirectory
    else ok_or NotFound (get_file_entry (cache_file_table c) inode None)).

Definition do_file_metadata (c : CacheTables) (inode : Inode) : sresult FileMetadata :=
  result_map metadata (get_default_entry (cache_file_table c) inode).

(** The entries of an inode: [range((inode, "")..(inode.plus(1), ""))] *)
Definition inode_entries (file_table : FileTable) (inode : Inode) : list ((N * string) * FileTableEntry) :=
  tbl_range (Included (inode, "")) (Excluded (Id.plus inode 1, "")) file_table.

Definition do_file_availability (c : CacheTables) (inode : Inode) (arena : Arena)
  : sresult FileAvailability :=
  match inode_entries (cache_file_table c) inode with
  | [] => Err NotFound
  | (default_key, default_entry) :: range =>
      if negb (bool_decide (default_key.2 = "")) then Err NotFound
      else
        let hash := fc_hash (content default_entry) in
        let peers := omap (λ kv, if bool_decide (fc_hash (content kv.2) = hash)
                                 then Some (mkPeer kv.1.2) else None) range in
        match peers with
        | [] => Err NotFound
        | _ => Ok {| av_arena := arena; av_path := fc_path (content default_entry);
                     av_metadata := metadata default_entry; av_hash := hash; av_peers := peers |}
        end
  end.

Definition do_peer_progress (c : CacheTables) (peer : Peer) : option Progress :=
  match tbl_get (peer_name peer) (cache_peer_table c) with
  | Some entry =>
      (λ last_seen, {| pr_uuid := uuid entry; last_seen := last_seen |})
        <$> tbl_get (peer_name peer) (cache_notification_table c)
  | None => None
  end.

(** [ArenaCache::local_availability] *)
Definition cache_local_availability (tb : Tables) (inode : Inode) : sresult LocalAvailability :=
  result_bind (get_default_entry (cache_file_table (cache tb)) inode)
    (local_availability (blob_table tb)).

(** ** Writing *)

Context (arena : Arena) (arena_root : Inode) (roots : bimap) (blob_dir : string) (now : UnixTime).

(** The iteration order of a [HashMap]. *)
Context (hash_order : list (string * FileTableEntry) → list (string * FileTableEntry)).

(** [ArenaCache::allocate_inode] *)
Definition allocate_inode : TxnM Inode := InodeAllocator.allocate_arena_inode roots arena.

Definition do_update_last_seen_notification (peer : Peer) (index : N) : TxnM () :=
  smodify (upd_cache (λ c, set_cache_notification_table
    (tbl_insert (peer_name peer) index (cache_notification_table c)) c)).

Definition do_write_file_entry (file_inode : Inode) (peer : Peer) (entry : FileTableEntry) : TxnM () :=
  smodify (λ t, put_file_table (tbl_insert (file_inode, peer_name peer) entry (file_table_of t)) t).

Definition do_write_default_file_entry (file_inode : Inode) (entry : FileTableEntry) : TxnM () :=
  let* file_table := sget file_table_of in
  do* match tbl_get (file_inode, "") file_table with
      | Some old_entry =>
          match blob (content old_entry) with
          | Some blob_id => delete_blob blob_dir blob_id
          | None => sret ()
          end
      | None => sret ()
      end in
  do* smodify (mark_dirty (fc_path (content entry))) in
  smodify (λ t, put_file_table (tbl_insert (file_inode, "") entry (file_table_of t)) t).

(** [reduce(|a, b| if b.mtime > a.mtime { b } else { a })] *)
Definition most_recent (entries : list (string * FileTableEntry)) : option (string * FileTableEntry) :=
  match entries with
  | [] => None
  | e :: es => Some (foldl (λ a b, if UnixTime.ltb (mtime (metadata a.2)) (mtime (metadata b.2))
                                   then b else a) e es)
  end.

(** Dropping the directory entries of [inode] and touching the directory. *)
Definition drop_dir_entry (parent_inode inode : Inode) (dir_table : table (N * string) DirTableEntry)
  : table (N * string) DirTableEntry :=
  tbl_insert (parent_inode, ".") (Dot now)
    (tbl_retain_in (Included (parent_inode, "")) (Excluded (Id.plus parent_inode 1, ""))
       (λ _ v, match v with Regular v => negb (rd_inode v =? inode) | Dot _ => true end) dir_table).

Definition do_rm_file_entry (parent_inode inode : Inode) (peer : Peer) (old_hash : option Hash)
  : TxnM () :=
  let* file_table := sget file_table_of in
  let elts := inode_entries file_table inode in
  let path := (λ kv, fc_path (content kv.2)) <$> head elts in
  let entries := (λ kv, (kv.1.2, kv.2)) <$> elts in
  match snd <$> head (filter (λ kv, kv.1 = peer_name peer) entries) with
  | None => sret ()
  | Some peer_entry =>
      if match old_hash with
         | Some old_hash => negb (bool_decide (fc_hash (content peer_entry) = old_hash))
         | None => false
         end
      then sret ()
      else
        let entries := filter (λ kv, kv.1 ≠ peer_name peer) entries in
        do* smodify (λ t, put_file_table (tbl_remove (inode, peer_name peer) (file_table_of t)) t) in
        let default_hash :=
          (λ kv, fc_hash (content kv.2)) <$> head (filter (λ kv, kv.1 = "") entries) in
        let entries := filter (λ kv, kv.1 ≠ "") entries in
        match entries with
        | [] =>
            do* match path with Some path => smodify (mark_dirty path) | None => sret () end in
            let* file_table := sget file_table_of in
            do* match tbl_get (inode, "") file_table with
                | Some default_entry =>
                    match blob (content default_entry) with
                    | Some blob_id => delete_blob blob_dir blob_id
                    | None => sret ()
                    end
                | None => sret ()
                end in
            do* smodify (λ t, put_file_table (tbl_remove (inode, "") (file_table_of t)) t) in
            smodify (λ t, put_dir_table (drop_dir_entry parent_inode inode (dir_table_of t)) t)
        | _ =>
            if default false ((λ h, existsb (λ kv, bool_decide (fc_hash (content kv.2) = h)) entries)
                              <$> default_hash)
            then sret ()
            else match most_recent (hash_order entries) with
                 | Some (_, entry) => do_write_default_file_entry inode entry
                 | None => sret ()
                 end
        end
  end.

Definition do_unlink (peer : Peer) (path : Path) (old_hash : Hash) : TxnM () :=
  let* dir_table := sget dir_table_of in
  let* '(parent_inode, parent_assignment) :=
    slift (do_lookup_path dir_table arena_root (Path.parent path)) in
  if negb (bool_decide (parent_assignment = ADirectory)) then sthrow NotADirectory
  else
    let* dir_entry := slift (ok_or NotFound (get_dir_entry dir_table parent_inode (Path.name path))) in
    if negb (bool_decide (assignment dir_entry = AFile)) then sthrow IsADirectory
    else do_rm_file_entry parent_inode (rd_inode dir_entry) peer (Some old_hash).

(** The marks of a catchup: the files of the peer that were not seen yet. *)
Definition do_mark_peer_files (peer : Peer) : TxnM () :=
  let* file_table := sget file_table_of in
  sfor (tbl_iter file_table) (λ kv,
    if negb (bool_decide (kv.1.2 = peer_name peer)) then sret ()
    else smodify (λ t, put_pending_table
           (tbl_insert (peer_name peer, kv.1.1) (parent_inode kv.2) (pending_table_of t)) t)).
Definition do_unmark_peer_file (peer : Peer) (inode : Inode) : TxnM () :=
  smodify (λ t, put_pending_table (tbl_remove (peer_name peer, inode) (pending_table_of t)) t).
Definition do_delete_marked_files (peer : Peer) : TxnM () :=
  let* pending := sget pending_table_of in
  let '(marked, pending) :=
    tbl_extract_from_if (Included (peer_name peer, Id.ZERO)) (Included (peer_name peer, Id.MAX))
      (λ _ _, true) pending in
  do* smodify (put_pending_table pending) in
  sfor marked (λ elt, do_rm_file_entry elt.2 elt.1.2 peer None).

Definition create_file (path : Path) : TxnM (Inode * Inode) :=
  do_create_file dir_table_of put_dir_table allocate_inode now arena_root path.

(** [ArenaCache::update], the transaction *)
Definition do_update (peer : Peer) (n : Notification) : TxnM (Outcome ()) :=
    match n with
    | NAdd _ index path mtime size hash =>
        do* do_update_last_seen_notification peer index in
        let* '(parent_inode, file_inode) := create_file path in
        let* file_table := sget file_table_of in
        do* match get_file_entry file_table file_inode (Some peer) with
            | Some _ => sret ()
            | None =>
                let entry := FileTableEntry_new path size mtime hash parent_inode in
                do* do_write_file_entry file_inode peer entry in
                let* file_table := sget file_table_of in
                match get_file_entry file_table file_inode None with
                | Some _ => sret ()
                | None => do_write_default_file_entry file_inode entry
                end
            end in
        sret (Commit ())
    | NReplace _ index path mtime size hash old_hash =>
        do* do_update_last_seen_notification peer index in
        let* '(parent_inode, file_inode) := create_file path in
        let* file_table := sget file_table_of in
        let entry := FileTableEntry_new path size mtime hash parent_inode in
        let is_old e := bool_decide (fc_hash (content e) = old_hash) in
        do* (if default false (is_old <$> get_file_entry file_table file_inode None) then
               do* do_write_file_entry file_inode peer entry in
               do_write_default_file_entry file_inode entry
             else if default false (is_old <$> get_file_entry file_table file_inode (Some peer)) then
               do_write_file_entry file_inode peer entry
             else sret ()) in
        sret (Commit ())
    | NRemove _ index path old_hash | NDrop _ index path old_hash =>
        do* do_update_last_seen_notification peer index in
        do* do_unlink peer path old_hash in
        sret (Commit ())
    | NCatchupStart _ =>
        do* do_mark_peer_files peer in
        sret (Commit ())
    | NCatchup _ path mtime size hash =>
        let* '(parent_inode, file_inode) := create_file path in
        do* do_unmark_peer_file peer file_inode in
        let entry := FileTableEntry_new path size mtime hash parent_inode in
        do* do_write_file_entry file_inode peer entry in
        let* file_table := sget file_table_of in
        do* match get_file_entry file_table file_inode None with
            | Some _ => sret ()
            | None => do_write_default_file_entry file_inode entry
            end in
        sret (Commit ())
    | NCatchupComplete _ index =>
        do* do_delete_marked_files peer in
        do* do_update_last_seen_notification peer index in
        sret (Commit ())
    | NConnected _ id =>
        let* c := sget (λ t, cache (tables t)) in
        let key := peer_name peer in
        if default false ((λ e, bool_decide (uuid e = id)) <$> tbl_get key (cache_peer_table c))
        then sret (Rollback ())
        else
          do* smodify (upd_cache (λ c, set_cache_peer_table
                (tbl_insert key {| uuid := id |} (cache_peer_table c)) c)) in
          do* smodify (upd_cache (λ c, set_cache_notification_table
                (tbl_remove key (cache_notification_table c)) c)) in
          sret (Commit ())
    end.

(** [ArenaCache::update] *)
Definition update (peer : Peer) (n : Notification) : WorldM () := write_txn (do_update peer n).

(** [ArenaCache::open_file] *)
Definition open_file (inode : Inode) : WorldM Blob := λ w,
  match get_default_entry (cache_file_table (cache (db w))) inode with
  | Err e => (Err e, w)
  | Ok file_entry =>
      match blob (content file_entry) with
      | Some blob_id => open_blob blob_dir now file_entry blob_id w
      | None =>
          write_txn (
            let* file_table := sget file_table_of in
            let* file_entry := slift (get_default_entry file_table inode) in
            let* b := create_blob blob_dir now file_entry in
            do* smodify (λ t, put_file_table
                  (tbl_insert (inode, "") (set_blob file_entry (Some (blob_id b))) (file_table_of t)) t) in
            sret (Commit b)) w
      end
  end.

(** [ArenaCache::move_blob_if_matches] *)
Definition move_blob_if_matches (path : Path) (hash : Hash) (dest : string) : TxnM bool :=
  let* dir_table := sget dir_table_of in
  let* '(inode, _) := slift (do_lookup_path dir_table arena_root (Some path)) in
  let* file_table := sget file_table_of in
  let* file_entry := slift (get_default_entry file_table inode) in
  if negb (bool_decide (fc_hash (content file_entry) = hash)) then sret false
  else
    let* blob_id := slift (ok_or NotFound (blob (content file_entry))) in
    let* moved := blob_move_if_matches blob_dir blob_id hash dest in
    if negb moved then sret false
    else
      do* smodify (λ t, put_file_table
            (tbl_insert (inode, "") (set_blob file_entry None) (file_table_of t)) t) in
      sret true.

(** [ArenaCache::move_into_blob_if_matches] *)
Definition move_into_blob_if_matches (path : Path) (hash : Hash) : TxnM (option string) :=
  let* dir_table := sget dir_table_of in
  match do_lookup_path dir_table arena_root (Some path) with
  | Err NotFound => sret None
  | Err e => sthrow e
  | Ok (inode, _) =>
      let* file_table := sget file_table_of in
      let* file_entry := slift (get_default_entry file_table inode) in
      if negb (bool_decide (fc_hash (content file_entry) = hash)) then sret None
      else
        let* '(blob_id, cachepath) :=
          move_into_blob blob_dir (blob (content file_entry)) (size (metadata file_entry)) in
        do* smodify (λ t, put_file_table
              (tbl_insert (inode, "") (set_blob file_entry (Some blob_id)) (file_table_of t)) t) in
        sret (Some cachepath)
  end.

(** [mark_file_dirty], [mark_dir_dirty] and [mark_dirty_recursive] *)
Definition mark_file_dirty (file_table : FileTable) (inode : Inode) : TxnM () :=
  match tbl_get (inode, "") file_table with
  | Some entry => smodify (mark_dirty (fc_path (content entry)))
  | None => sret ()
  end.

(** The entries of the range of a directory, up to the first of another inode. *)
Definition dir_entries (dir_table : table (N * string) DirTableEntry) (inode : Inode)
  : list ((N * string) * DirTableEntry) :=
  take_while (λ kv, kv.1.1 =? inode)
    (tbl_range (Included (inode, "")) (Excluded (Id.plus inode 1, "")) dir_table).

(** The recursion goes down the tree; [fuel] bounds its depth, [None] means that it
    was not enough. *)
Fixpoint mark_dir_dirty (fuel : nat) (dir_table : table (N * string) DirTableEntry)
  (file_table : FileTable) (inode : Inode) (t : Txn) : option (sresult () * Txn) :=
  match fuel with
  | O => None
  | S fuel =>
      foldl (λ acc kv,
        match acc with
        | Some (Ok tt, t) =>
            match kv.2 with
            | Regular entry =>
                match assignment entry with
                | AFile => Some (mark_file_dirty file_table (rd_inode entry) t)
                | ADirectory => mark_dir_dirty fuel dir_table file_table (rd_inode entry) t
                end
            | Dot _ => Some (Ok tt, t)
            end
        | _ => acc
        end) (Some (Ok tt, t)) (dir_entries dir_table inode)
  end.

Definition mark_dirty_recursive (fuel : nat) (path : option Path) (t : Txn) : option (sresult () * Txn) :=
  match do_lookup_path (dir_table_of t) arena_root path with
  | Ok (inode, _) =>
      match mark_file_dirty (file_table_of t) inode t with
      | (Ok tt, t') => mark_dir_dirty fuel (dir_table_of t) (file_table_of t) inode t'
      | (Err e, t') => Some (Err e, t')
      end
  | Err NotFound => Some (Ok tt, t)
  | Err e => Some (Err e, t)
  end.
End cache.
