(* ===== verification/CacheInv.v ===== *)
(** * The invariant of the arena cache

    What [ArenaCache.update] maintains, and what it does to the view of the
    files: [cache_ok] ties the directory tree, the entries of the files and the
    marks of a catchup together; [entry_at] is the entry of a path for a peer, or
    the default one, and the operations are specified by what they do to it. *)
From stdpp Require Import functions.
From S2P Require Import Prelude Range RangeSet Redb Path Types Db Dirty InodeAllocator Blob Dirs ArenaCache.
Local Open Scope N_scope.
Local Open Scope realize_scope.

Section cache_inv.
Context {R : Redb} {B : Bimap} `{!RedbLaws R, !BimapLaws B}.
Context (arena : Arena) (arena_root : Inode) (roots : bimap) (blob_dir : string) (now : UnixTime).
Context (hash_order : list (string * FileTableEntry) → list (string * FileTableEntry)).
Context (hash_order_perm : ∀ l, hash_order l ≡ₚ l).
Implicit Types (t : Txn) (i : Inode) (k : string) (p q : Path) (e : FileTableEntry).

(** ** The entries of an inode *)

(** By key, as [do_rm_file_entry] collects them. *)
Definition entries_of (f : table (N * string) FileTableEntry) i : list (string * FileTableEntry) :=
  (λ kv, (kv.1.2, kv.2)) <$> inode_entries f i.

Lemma elem_of_inode_entries f i j k e :
  i + 1 < u64_modulus → ((j, k), e) ∈ inode_entries f i ↔ j = i ∧ tbl_get (i, k) f = Some e.
Proof.
  intros Hi. unfold inode_entries, Id.plus. rewrite u64_add_small by done.
  rewrite elem_of_range, in_range_fst. split; [by intros [? ->]|by intros [-> ?]].
Qed.

Lemma elem_of_entries f i k e :
  i + 1 < u64_modulus → (k, e) ∈ entries_of f i ↔ tbl_get (i, k) f = Some e.
Proof.
  intros Hi. unfold entries_of. rewrite list_elem_of_fmap. split.
  - intros ([[j k'] e'] & [= -> ->] & H). by apply elem_of_inode_entries in H as [-> ?].
  - intros H. exists ((i, k), e). split; [done|]. by apply elem_of_inode_entries.
Qed.

(** [entries.iter().find(|(p, _)| p == k)] *)
Lemma find_entry (l : list (string * FileTableEntry)) f i k :
  (∀ e, (k, e) ∈ l ↔ tbl_get (i, k) f = Some e) →
  snd <$> head (filter (λ kv, kv.1 = k) l) = tbl_get (i, k) f.
Proof.
  intros Hl. destruct (head (filter (λ kv, kv.1 = k) l)) as [[k' e]|] eqn:E; simpl.
  - apply head_filter_Some in E as [Hk Hin]. simpl in Hk. subst. by apply Hl in Hin.
  - destruct (tbl_get (i, k) f) as [e|] eqn:Eg; [|done]. exfalso.
    apply head_None in E. assert ((k, e) ∈ filter (λ kv, kv.1 = k) l) as Hin.
    { apply list_elem_of_filter. by rewrite Hl. }
    rewrite E in Hin. by apply not_elem_of_nil in Hin.
Qed.

(** What is left once the peer [k] and the default entry are taken out: the
    entries of the other peers. *)
Definition other_entries f i k : list (string * FileTableEntry) :=
  filter (λ kv, kv.1 ≠ "") (filter (λ kv, kv.1 ≠ k) (entries_of f i)).

Lemma elem_of_others f i k k' e :
  i + 1 < u64_modulus →
  (k', e) ∈ other_entries f i k ↔ k' ≠ "" ∧ k' ≠ k ∧ tbl_get (i, k') f = Some e.
Proof.
  intros Hi. unfold other_entries. rewrite !list_elem_of_filter, elem_of_entries by done. tauto.
Qed.

Lemma others_nil f i k :
  i + 1 < u64_modulus →
  other_entries f i k = [] ↔ ∀ k', k' ≠ "" → k' ≠ k → tbl_get (i, k') f = None.
Proof.
  intros Hi. split.
  - intros H k' H1 H2. destruct (tbl_get (i, k') f) as [e|] eqn:E; [|done].
    assert ((k', e) ∈ other_entries f i k) as Hin by (by apply elem_of_others).
    rewrite H in Hin. by apply not_elem_of_nil in Hin.
  - intros H. destruct (other_entries f i k) as [|[k' e] l] eqn:E; [done|].
    assert ((k', e) ∈ other_entries f i k) as Hin by (rewrite E; left).
    apply elem_of_others in Hin as (? & ? & Hin); [|done]. by rewrite H in Hin.
Qed.


(** ** Dropping a directory entry *)

Section drop.
Context (d i : Inode) (n : string) (dt : table (N * string) DirTableEntry).
Context (Hdt : dirs_ok arena_root dt) (Hd : d + 1 < u64_modulus)
  (Hi : tbl_get (d, n) dt = Some (Regular {| rd_inode := i; assignment := AFile |})).
Let dt' := drop_dir_entry now d i dt.

Lemma drop_regular (q : Inode) m (e : ReadDirEntry) :
  tbl_get (q, m) dt' = Some (Regular e) ↔ tbl_get (q, m) dt = Some (Regular e) ∧ rd_inode e ≠ i.
Proof.
  unfold dt', drop_dir_entry, Id.plus. rewrite u64_add_small, get_insert, get_retain_in by done.
  case_decide as E.
  - injection E as -> ->. split; [done|]. intros [H%(do_regular _ _ Hdt) _].
    by destruct H as [H%good_not_dot _].
  - destruct (tbl_get (q, m) dt) as [[e'|mt]|] eqn:Eq; simpl; [| |naive_solver].
    + assert (rd_inode e' = i → q = d) as Hq.
      { intros H. by destruct (do_unique _ _ Hdt _ _ _ _ _ _ Eq Hi H). }
      destruct (N.eqb_spec (rd_inode e') i) as [Hr|Hr]; simpl.
      * rewrite bool_decide_true by (apply in_range_fst; auto). simpl. naive_solver.
      * rewrite andb_false_r. naive_solver.
    + rewrite andb_false_r. naive_solver.
Qed.

Lemma drop_is_dir (q : Inode) : is_dir arena_root dt q → is_dir arena_root dt' q.
Proof.
  intros [->|(p & m & H)]; [by left|]. right. exists p, m. apply drop_regular. split; [done|].
  simpl. intros ->. by destruct (do_unique _ _ Hdt _ _ _ _ _ _ H Hi eq_refl) as [-> ->]; simplify_eq.
Qed.

Lemma drop_dirs_ok : dirs_ok arena_root dt'.
Proof.
  split.
  - intros q m e [(? & ? & ?)%(do_regular _ _ Hdt) _]%drop_regular.
    split_and!; [done..|by apply drop_is_dir].
  - intros q m e q' m' e' [H _]%drop_regular [H' _]%drop_regular. by apply (do_unique _ _ Hdt).
  - intros q m mt. unfold dt', drop_dir_entry. rewrite get_insert, get_retain_in.
    case_decide as E; [by injection E as -> ->|].
    destruct (tbl_get (q, m) dt) as [v|] eqn:Eq; simpl; [|done]. case_match; [done|].
    intros [= ->]. by eapply (do_dot _ _ Hdt).
Qed.

Lemma drop_above b : above arena_root b dt → above arena_root b dt'.
Proof.
  intros [H1 H2]. split; [done|]. intros q m v. unfold dt', drop_dir_entry.
  rewrite get_insert, get_retain_in. case_decide as E.
  - injection E as -> ->. intros [= <-]. split; [|done]. by apply H2 in Hi as [? _].
  - destruct (tbl_get (q, m) dt) as [v'|] eqn:Eq; simpl; [|done]. case_match; [done|].
    intros [= ->]. by eapply H2.
Qed.

Lemma drop_resolve cs j b :
  Forall good_component cs →
  resolve arena_root dt' cs = Ok (j, b) ↔ resolve arena_root dt cs = Ok (j, b) ∧ j ≠ i.
Proof.
  pose proof drop_dirs_ok as Hdt'. revert j b.
  induction cs as [|m cs IH] using rev_ind; intros j b Hg.
  - split; [|by intros [? _]]. intros [= <- <-]. split; [done|]. intros E.
    apply (do_regular _ _ Hdt) in Hi as (_ & Hlt & Hr). simpl in Hlt.
    apply is_dir_root in Hr; [lia|done].
  - apply Forall_app in Hg as [Hg [Hm _]%Forall_cons]. rewrite !resolve_snoc by done. split.
    + intros (p & [Hp _]%IH & [He Hne]%drop_regular); [|done]. split; [by exists p|done].
    + intros [(p & Hp & He) Hne]. exists p. rewrite IH, drop_regular by done.
      split_and!; [done| |done|done]. intros ->.
      pose proof (resolve_is_dir _ _ _ _ Hdt Hg Hp) as [E|(q & k & H)].
      * apply (do_regular _ _ Hdt) in Hi as (_ & Hlt & Hr). simpl in Hlt.
        apply is_dir_root in Hr; [lia|done].
      * destruct (do_unique _ _ Hdt _ _ _ _ _ _ H Hi eq_refl) as [-> ->]; simplify_eq.
Qed.

Lemma drop_file_at q :
  valid q →
  file_at arena_root dt' q = if decide (file_at arena_root dt q = Some i) then None
                             else file_at arena_root dt q.
Proof.
  intros Hq%valid_comps. unfold file_at.
  destruct (resolve arena_root dt (comps q)) as [[j []]|] eqn:E;
    destruct (resolve arena_root dt' (comps q)) as [[j' []]|] eqn:E';
    repeat case_decide; simplify_eq; try done;
    try (apply drop_resolve in E' as [? ?]; [congruence|done]).
  exfalso. assert (resolve arena_root dt' (comps q) = Ok (j, AFile)); [|congruence].
  apply drop_resolve; [done|]. split; [done|congruence].
Qed.
End drop.

(** ** The view of the files *)

(** What an entry says of the file; the inode and the blob are the cache's own. *)
Definition Version : Type := FileMetadata * Hash.
Definition version e : Version := (metadata e, fc_hash (content e)).

(** The versions of an inode: the default one, which is presented, under the
    empty key, the peers' under their names. *)
Definition iview (c : CacheTables) i k : option Version :=
  version <$> tbl_get (i, k) (cache_file_table c).
Definition file_of (c : CacheTables) p : option Inode :=
  file_at arena_root (cache_directory_table c) p.
Definition seen (c : CacheTables) p k : option Version := file_of c p ≫= λ i, iview c i k.

(** The file is to be forgotten at the end of the catchup of the peer. *)
Definition is_marked (c : CacheTables) p k : Prop :=
  ∃ i, file_of c p = Some i ∧ is_Some (tbl_get (k, i) (cache_pending_catchup_table c)).

(** ** The invariant *)

(** The last inode given in the arena. *)
Definition top (c : CacheTables) : N :=
  match tbl_get () (cache_current_inode_range_table c) with
  | Some (current, _) => current
  | None => arena_root
  end.

(** [n] inodes can still be allocated. *)
Record alloc_inv (n : nat) (c : CacheTables) (g : GlobalTables) : Prop := {
  ai_cur : cur_ok g arena_root (cache_current_inode_range_table c);
  ai_last : 1 ≤ last_end g;
  ai_root : arena_root ≤ last_end g;
  ai_top : arena_root ≤ top c;
  ai_room : last_end g + 1 + 10000 * N.of_nat n < u64_modulus;
}.

Record cache_ok (n : nat) (c : CacheTables) (g : GlobalTables) : Prop := {
  co_alloc : alloc_inv n c g;
  co_dirs : dirs_ok arena_root (cache_directory_table c);
  co_above : above arena_root (top c + 1) (cache_directory_table c);
  co_entry : ∀ i k e, tbl_get (i, k) (cache_file_table c) = Some e →
    valid (fc_path (content e)) ∧
    tbl_get (parent_inode e, Path.name (fc_path (content e))) (cache_directory_table c) =
      Some (Regular {| rd_inode := i; assignment := AFile |}) ∧
    file_of c (fc_path (content e)) = Some i;
  co_default : ∀ i, is_Some (tbl_get (i, "") (cache_file_table c)) ↔
    ∃ k, k ≠ "" ∧ is_Some (tbl_get (i, k) (cache_file_table c));
  co_pending : ∀ k i d, tbl_get (k, i) (cache_pending_catchup_table c) = Some d →
    k ≠ "" ∧ i ≤ top c ∧
    ∀ d' m a, tbl_get (d', m) (cache_directory_table c) =
              Some (Regular {| rd_inode := i; assignment := a |}) → d' = d;
  co_owned : ∀ d m (e : ReadDirEntry), tbl_get (d, m) (cache_directory_table c) = Some (Regular e) →
    owner g (rd_inode e) = Some arena_root;
}.

Definition cache_of t : CacheTables := cache (tables t).
Definition global_of t : GlobalTables := global (ext t).

Lemma alloc_inv_weaken n c g : alloc_inv (1 + n) c g → alloc_inv n c g.
Proof. intros []. split; try done. lia. Qed.

Lemma alloc_inv_ext n c c' g :
  cache_current_inode_range_table c' = cache_current_inode_range_table c →
  alloc_inv n c g → alloc_inv n c' g.
Proof. intros E [H1 H2 H3 H4 H5]. split; unfold top in *; by rewrite ?E. Qed.

Lemma top_last n c g : alloc_inv n c g → top c ≤ last_end g.
Proof.
  intros [Hc _ Hr _ _]. unfold top in *. destruct (tbl_get () _) as [[cur end_]|] eqn:E; [|done].
  destruct (Hc _ _ E) as (_ & ? & _ & Ho). apply (owner_last_end _ _ arena_root), Ho; lia.
Qed.

Lemma entry_top n c g i k e :
  cache_ok n c g → tbl_get (i, k) (cache_file_table c) = Some e →
  i + 1 < u64_modulus ∧ i ≤ top c ∧ parent_inode e < i.
Proof.
  intros Hc He. pose proof (co_alloc _ _ _ Hc) as Ha. pose proof (top_last _ _ _ Ha).
  destruct Ha. apply (co_entry _ _ _ Hc) in He as (_ & He & _).
  pose proof (do_regular _ _ (co_dirs _ _ _ Hc) _ _ _ He) as (_ & Hlt & _). simpl in Hlt.
  apply (co_above _ _ _ Hc) in He as [_ He]. specialize (He _ eq_refl). simpl in He. lia.
Qed.

(** Every entry of an inode has the same path. *)
Lemma entry_path n c g i k k' e e' :
  cache_ok n c g → tbl_get (i, k) (cache_file_table c) = Some e →
  tbl_get (i, k') (cache_file_table c) = Some e' → fc_path (content e) = fc_path (content e').
Proof.
  intros Hc (? & _ & H)%(co_entry _ _ _ Hc) (? & _ & H')%(co_entry _ _ _ Hc).
  by eapply file_at_inj; [apply Hc|..].
Qed.

(** ** Creating a file *)

(** The state without the directories and the allocation. *)
Definition strip t : Txn := put_dir_table tbl_empty (InodeAllocator.put_range_table tbl_empty (set_global global_empty t)).

(** What creating directories and a directory entry leaves alone. *)
Record created t t' : Prop := {
  cr_strip : strip t' = strip t;
  cr_top : top (cache_of t) ≤ top (cache_of t');
  cr_global : global_grows (global_of t) (global_of t');
  cr_new : ∀ (d : Inode) m (e : ReadDirEntry), tbl_get (d, m) (dir_table_of t') = Some (Regular e) →
    tbl_get (d, m) (dir_table_of t) = Some (Regular e) ∨
    (top (cache_of t) < rd_inode e ∧ owner (global_of t') (rd_inode e) = Some arena_root);
}.

#[export] Instance created_preorder : PreOrder created.
Proof.
  split; [intros t; by split; auto|]. intros t1 t2 t3 [E1 T1 O1 N1] [E2 T2 O2 N2].
  split; [by rewrite E2|lia|by etrans|]. intros d m e [H|[H Ho]]%N2; [|right; split; [lia|done]].
  apply N1 in H as [H|[H Ho]]; [by left|right]. split; [done|by apply O2].
Qed.

Lemma created_files t t' : created t t' → file_table_of t' = file_table_of t.
Proof. intros [H%(f_equal file_table_of) _ _ _]. exact H. Qed.
Lemma created_pending t t' : created t t' → pending_table_of t' = pending_table_of t.
Proof. intros [H%(f_equal pending_table_of) _ _ _]. exact H. Qed.
Lemma created_dirty t t' : created t t' → dirty (tables t') = dirty (tables t).
Proof. intros [H%(f_equal (λ t, dirty (tables t))) _ _ _]. exact H. Qed.

Lemma alloc_spec n t :
  InodeAllocator.arena_root roots arena = Some arena_root →
  alloc_inv (1 + n) (cache_of t) (global_of t) →
  above arena_root (top (cache_of t) + 1) (dir_table_of t) →
  ∃ i t', allocate_inode arena roots t = (Ok i, t') ∧ dir_table_of t' = dir_table_of t ∧
    above arena_root i (dir_table_of t) ∧ top (cache_of t) < i ∧
    ∀ dt, let t'' := put_dir_table dt t' in
      (∀ (d : Inode) m (e : ReadDirEntry), tbl_get (d, m) dt = Some (Regular e) →
         tbl_get (d, m) (dir_table_of t) = Some (Regular e) ∨ rd_inode e = i) →
      dir_table_of t'' = dt ∧ top (cache_of t'') = i ∧
      alloc_inv n (cache_of t'') (global_of t'') ∧ created t t''.
Proof.
  intros Hroot [Hcur H1 Hr Ht Hroom] [_ Hab].
  destruct (allocate_arena_inode_spec roots arena arena_root t) as (i & g & rt & Hrun & Hal & He & Hl & Hgg);
    [done|done|done|unfold global_of in *; lia|].
  destruct Hal as [A1 [end_ A2] A3 A4 A5 A6 A7].
  assert (top (cache_of t) < i) as Hlt.
  { unfold top in *. destruct (tbl_get () (cache_current_inode_range_table (cache_of t))) as [[cur e]|] eqn:E;
      [by eapply A4|]. specialize (A7 E). unfold global_of in *. lia. }
  exists i, (InodeAllocator.put_range_table rt (set_global g t)). split_and!; [done|done| |done|].
  - split; [lia|]. intros p n' v Hv. destruct (Hab p n' v Hv) as [? H]. split; [lia|].
    intros e ->. specialize (H e eq_refl). lia.
  - intros dt t'' Hnew. assert (top (cache_of t'') = i) as Htop by (unfold top; simpl; by rewrite A2).
    split_and!; [done|done| |].
    + change (global_of t'') with g. apply owner_last_end in A1. unfold global_of in *.
      split; rewrite ?Htop; [done|done|lia..].
    + split; [done|lia|done|]. intros d m e [H|H]%Hnew; [auto|]. right. rewrite H. done.
Qed.

Lemma add_dir_entry_new (q : Inode) i m a dt (d : Inode) m' (e : ReadDirEntry) :
  tbl_get (d, m') (add_dir_entry now q i m a dt) = Some (Regular e) →
  tbl_get (d, m') dt = Some (Regular e) ∨ rd_inode e = i.
Proof.
  unfold add_dir_entry. case_bool_decide; rewrite ?get_insert; repeat case_decide; intros H';
    simplify_eq; auto.
Qed.

(** What a successful [create_file] gives. *)
Record created_file p (d i : Inode) n t t' : Prop := {
  cf_created : created t t';
  cf_ok : cache_ok n (cache_of t') (global_of t');
  cf_entry : tbl_get (d, Path.name p) (dir_table_of t') =
    Some (Regular {| rd_inode := i; assignment := AFile |});
  cf_at : file_of (cache_of t') p = Some i;
  cf_others : ∀ q, valid q → q ≠ p → file_of (cache_of t') q = file_of (cache_of t) q;
  cf_old : file_of (cache_of t) p = Some i ∨
    (file_of (cache_of t) p = None ∧ (∀ k, tbl_get (i, k) (file_table_of t) = None) ∧
     ∀ k, tbl_get (k, i) (pending_table_of t) = None);
}.

Lemma created_cache_ok p d i n m t t' :
  cache_ok m (cache_of t) (global_of t) → created t t' → grows (dir_table_of t) (dir_table_of t') →
  dirs_ok arena_root (dir_table_of t') → alloc_inv n (cache_of t') (global_of t') →
  above arena_root (top (cache_of t') + 1) (dir_table_of t') →
  file_of (cache_of t') p = Some i →
  (∀ q, valid q → q ≠ p → file_of (cache_of t') q = file_of (cache_of t) q) →
  (file_of (cache_of t) p = Some i ∨ (file_of (cache_of t) p = None ∧ d)) →
  cache_ok n (cache_of t') (global_of t').
Proof.
  intros [C1 C2 C3 C4 C5 C6 C7] Hcr Hgr Hd Ha Hab Hp Hq Hold.
  pose proof (created_files _ _ Hcr) as Hf. pose proof (created_pending _ _ Hcr) as Hpe.
  unfold file_table_of, pending_table_of in Hf, Hpe. fold (cache_of t') (cache_of t) in Hf, Hpe.
  split; rewrite ?Hf, ?Hpe; [done|done|done| |done| |].
  - intros j k e He. apply C4 in He as (Hv & He & Hj). split_and!; [done| |].
    + apply Hgr in He as (v' & Hv' & E). by rewrite <- (E _ eq_refl).
    + destruct (decide (fc_path (content e) = p)) as [Ep|Ep]; [|by rewrite Hq].
      rewrite Ep in *. destruct Hold as [Hold|[Hold _]]; congruence.
  - intros k j d' (? & ? & H)%C6. pose proof (cr_top _ _ Hcr). split_and!; [done|lia|].
    intros d'' m' a [He|[He _]]%(cr_new _ _ Hcr); [by eapply H|]. simpl in He. lia.
  - intros q m0 e [He|[_ He]]%(cr_new _ _ Hcr); [|done]. by eapply (gg_owner _ _ (cr_global _ _ Hcr)), C7.
Qed.

Context (Hroot : InodeAllocator.arena_root roots arena = Some arena_root).

Lemma create_file_run p n t :
  valid p → cache_ok (length (comps p) + n) (cache_of t) (global_of t) →
  match create_file arena arena_root roots now p t with
  | (Ok (d, i), t') => created_file p d i n t t'
  | (Err e, t') => created t t' ∧ alloc_inv n (cache_of t') (global_of t') ∧
                   (e = NotADirectory ∨ e = IsADirectory)
  end.
Proof.
  intros Hp Hc. unfold create_file.
  pose proof (do_create_file_spec arena_root dir_table_of put_dir_table (allocate_inode arena roots) now
    (λ n t, alloc_inv n (cache_of t) (global_of t) ∧
            above arena_root (top (cache_of t) + 1) (dir_table_of t)) created
    (λ i t, top (cache_of t) < i)) as Hspec.
  ospecialize (Hspec _ _ _ p n t (co_dirs _ _ _ Hc) Hp (conj (co_alloc _ _ _ Hc) (co_above _ _ _ Hc))).
  { intros i s s' Hs Hi. pose proof (cr_top _ _ Hs). lia. }
  { intros k s [Ha Hab]. split; [by apply alloc_inv_weaken|done]. }
  { intros k s [Ha Hab]. destruct (alloc_spec k s Hroot Ha Hab) as (i & s' & H1 & H2 & H3 & H4 & H5).
    exists i, s'. split_and!; [done..|]. intros q m a _. simpl.
    destruct (H5 (add_dir_entry now q i m a (dir_table_of s))) as (E1 & E2 & E3 & E4);
      [apply add_dir_entry_new|].
    split_and!; [done| |done]. intros Hab'. split; [done|]. rewrite E1, E2. exact Hab'. }
  destruct (do_create_file _ _ _ _ _ _ t) as [[[d i]|e] t'].
  - destruct Hspec as (H1 & [H2 H2'] & H3 & H4 & H5 & H6 & H7 & H8).
    apply get_dir_entry_good with (root := arena_root) in H5; [|done|].
    2:{ apply valid_comps in Hp. rewrite comps_parent in Hp. by apply Forall_app in Hp as [_ [? _]%Forall_cons]. }
    split; [done| |done|done|exact H7|].
    + eapply created_cache_ok with (p := p) (i := i); [done..|exact H7|].
      destruct H8 as [H8|[H8 H9]]; [by left|right; split; [exact H8|exact H9]].
    + destruct H8 as [H8|(H8 & H9 & H10)]; [by left|right]. split; [exact H8|]. split.
      * intros k. destruct (tbl_get (i, k) (file_table_of t)) as [e|] eqn:E; [|done].
        destruct (entry_top _ _ _ _ _ _ Hc E) as (_ & H & _). lia.
      * intros k. destruct (tbl_get (k, i) (pending_table_of t)) as [e|] eqn:E; [|done].
        apply (co_pending _ _ _ Hc) in E as (_ & ? & _). lia.
  - destruct Hspec as ([H1 _] & H2 & H3). split_and!; [done|done|]. naive_solver.
Qed.

(** ** Removing the entry of a peer *)

(** [most_recent] picks an entry that no other is more recent than. *)
Definition entry_mtime e : N := as_duration (mtime (metadata e)).

Lemma most_recent_spec (l : list (string * FileTableEntry)) :
  l ≠ [] →
  ∃ x : string * FileTableEntry, most_recent l = Some x ∧ x ∈ l ∧
    ∀ y, y ∈ l → entry_mtime y.2 ≤ entry_mtime x.2.
Proof.
  destruct l as [|a l]; [done|]. intros _. unfold most_recent. eexists. split; [done|].
  revert a. induction l as [|b l IH]; intros a.
  - simpl. split; [by left|]. by intros y ->%list_elem_of_singleton.
  - cbn [foldl].
    set (m := if UnixTime.ltb (mtime (metadata a.2)) (mtime (metadata b.2)) then b else a).
    assert ((m = a ∨ m = b) ∧ entry_mtime a.2 ≤ entry_mtime m.2 ∧ entry_mtime b.2 ≤ entry_mtime m.2)
      as (Hm & Ha & Hb).
    { unfold m, UnixTime.ltb, entry_mtime. destruct (N.ltb_spec (as_duration (mtime (metadata a.2)))
        (as_duration (mtime (metadata b.2)))); split_and!; auto; lia. }
    destruct (IH m) as [Hin Hmax]. pose proof (Hmax m ltac:(by left)). split.
    + apply elem_of_cons in Hin as [->|?]; [|by do 2 right].
      destruct Hm as [->| ->]; [left|right; left].
    + intros y [->|[->|Hy]%elem_of_cons]%elem_of_cons; [lia..|]. apply Hmax. by right.
Qed.

(** The paths marked dirty, one after the other. *)
Definition marks (l : list Path) (d : DirtyTables) : DirtyTables := foldl (λ d p, mark_dirty_tables p d) d l.

Lemma marks_spec (l : list Path) (d : DirtyTables) :
  dirty_inv d → last_counter d + N.of_nat (length l) < u64_modulus →
  dirty_inv (marks l d) ∧ marked_dirty (as_str <$> l) d (marks l d).
Proof.
  revert d. induction l as [|p l IH]; intros d Hd Hlt; [split; [done|apply marked_dirty_nil]|].
  simpl in Hlt. assert (last_counter d + 1 < u64_modulus) as H1 by lia.
  pose proof (mark_dirty_inv _ p Hd H1) as Hd1. pose proof (marked_dirty_one _ p Hd H1) as Hm1.
  destruct (IH (mark_dirty_tables p d) Hd1) as [H2 H3].
  { rewrite (md_counter _ _ _ Hm1). simpl. lia. }
  split; [exact H2|]. exact (marked_dirty_app [as_str p] _ _ _ _ Hm1 H3).
Qed.

(** What an operation did to the parts the cache is concerned with: the tables of
    the cache are now [c], the paths [l] were marked dirty. *)
Record wrote (c : CacheTables) (l : list Path) t t' : Prop := {
  wr_cache : cache_of t' = c;
  wr_global : global_of t' = global_of t;
  wr_dirty : dirty (tables t') = marks l (dirty (tables t));
}.

Definition put_files (f : table (N * string) FileTableEntry) (c : CacheTables) : CacheTables := set_cache_file_table f c.

Lemma write_default_run i e t :
  ∃ t', do_write_default_file_entry blob_dir i e t = (Ok (), t') ∧
    wrote (put_files (tbl_insert (i, "") e (file_table_of t)) (cache_of t))
      [fc_path (content e)] t t'.
Proof.
  unfold do_write_default_file_entry. unfold sbind at 1, sget.
  destruct (tbl_get (i, "") (file_table_of t)) as [old|]; [destruct (blob (content old))|];
    (eexists; split; [reflexivity|by split]).
Qed.

(** The outcomes of removing the entry of the peer [k]; [old] is the hash the
    entry must have, if any. *)
Inductive removed (d i : Inode) (k : string) (old : option Hash) (c : CacheTables)
  : CacheTables → list Path → Prop :=
| removed_nothing :
    (∀ e, tbl_get (i, k) (cache_file_table c) = Some e → ∃ h, old = Some h ∧ fc_hash (content e) ≠ h) →
    removed d i k old c c []
| removed_last e :
    tbl_get (i, k) (cache_file_table c) = Some e →
    (∀ h, old = Some h → fc_hash (content e) = h) →
    (∀ k', k' ≠ "" → k' ≠ k → tbl_get (i, k') (cache_file_table c) = None) →
    removed d i k old c
      (set_cache_directory_table (drop_dir_entry now d i (cache_directory_table c))
         (put_files (tbl_remove (i, "") (tbl_remove (i, k) (cache_file_table c))) c))
      [fc_path (content e)]
| removed_kept e de k' e' :
    tbl_get (i, k) (cache_file_table c) = Some e →
    (∀ h, old = Some h → fc_hash (content e) = h) →
    tbl_get (i, "") (cache_file_table c) = Some de →
    k' ≠ "" → k' ≠ k → tbl_get (i, k') (cache_file_table c) = Some e' →
    fc_hash (content e') = fc_hash (content de) →
    removed d i k old c (put_files (tbl_remove (i, k) (cache_file_table c)) c) []
| removed_elected e k' e' :
    tbl_get (i, k) (cache_file_table c) = Some e →
    (∀ h, old = Some h → fc_hash (content e) = h) →
    k' ≠ "" → k' ≠ k → tbl_get (i, k') (cache_file_table c) = Some e' →
    (∀ k'' e'' de, k'' ≠ "" → k'' ≠ k → tbl_get (i, k'') (cache_file_table c) = Some e'' →
       tbl_get (i, "") (cache_file_table c) = Some de →
       fc_hash (content e'') ≠ fc_hash (content de)) →
    (∀ k'' e'', k'' ≠ "" → k'' ≠ k → tbl_get (i, k'') (cache_file_table c) = Some e'' →
       entry_mtime e'' ≤ entry_mtime e') →
    removed d i k old c
      (put_files (tbl_insert (i, "") e' (tbl_remove (i, k) (cache_file_table c))) c)
      [fc_path (content e')].

Lemma elem_of_fst_ne (l : list (string * FileTableEntry)) k k' e :
  (k', e) ∈ filter (λ kv, kv.1 ≠ k) l ↔ k' ≠ k ∧ (k', e) ∈ l.
Proof. by rewrite list_elem_of_filter. Qed.

Lemma elected f i k h :
  i + 1 < u64_modulus →
  default false ((λ h : Hash, existsb (λ kv, bool_decide (fc_hash (content kv.2) = h))
    (other_entries f i k)) <$> h) = true ↔
  ∃ h' k' e, h = Some h' ∧ k' ≠ "" ∧ k' ≠ k ∧ tbl_get (i, k') f = Some e ∧ fc_hash (content e) = h'.
Proof.
  intros Hi. destruct h as [h|]; simpl; [|naive_solver]. rewrite existsb_exists. split.
  - intros ([k' e] & Hin%list_elem_of_In & Hh%bool_decide_eq_true).
    apply elem_of_others in Hin as (? & ? & ?); [|done]. by exists h, k', e.
  - intros (h' & k' & e & [= <-] & ? & ? & ? & Hh). exists (k', e).
    rewrite bool_decide_eq_true, <- list_elem_of_In, elem_of_others by done. auto.
Qed.

(** The path that is read from the first entry. *)
Lemma head_path n c g i k e :
  cache_ok n c g → i + 1 < u64_modulus → tbl_get (i, k) (cache_file_table c) = Some e →
  (λ kv, fc_path (content kv.2)) <$> head (inode_entries (cache_file_table c) i) =
  Some (fc_path (content e)).
Proof.
  intros Hc Hi He.
  pose proof (proj2 (elem_of_inode_entries _ _ _ _ _ Hi) (conj eq_refl He)) as Hin.
  destruct (inode_entries (cache_file_table c) i) as [|[[j k'] e'] l'] eqn:El.
  { by apply not_elem_of_nil in Hin. }
  assert (((j, k'), e') ∈ inode_entries (cache_file_table c) i) as Hin' by (rewrite El; left).
  apply elem_of_inode_entries in Hin' as [-> He']; [|done]. simpl. f_equal.
  by eapply (entry_path n c g i k' k).
Qed.

Lemma rm_run n d i peer old t :
  cache_ok n (cache_of t) (global_of t) → peer_name peer ≠ "" → i + 1 < u64_modulus →
  ∃ t' c' l, do_rm_file_entry blob_dir now hash_order d i peer old t = (Ok (), t') ∧
    wrote c' l t t' ∧ removed d i (peer_name peer) old (cache_of t) c' l.
Proof.
  intros Hc Hk Hi. set (k := peer_name peer) in *.
  assert (∀ e, (k, e) ∈ entries_of (file_table_of t) i ↔ tbl_get (i, k) (file_table_of t) = Some e)
    as Hent by (intros; by apply elem_of_entries).
  unfold do_rm_file_entry. unfold sbind at 1, sget. fold (entries_of (file_table_of t) i). fold k.
  rewrite (find_entry _ _ i) by done. destruct (tbl_get (i, k) (file_table_of t)) as [e|] eqn:Ee.
  2:{ exists t, (cache_of t), []. split_and!; [done|by split|]. apply removed_nothing.
      intros e He. unfold cache_of, file_table_of in *. congruence. }
  case_match eqn:Eold.
  { destruct old as [h|]; [|done]. apply negb_true_iff, bool_decide_eq_false in Eold.
    exists t, (cache_of t), []. split_and!; [done|by split|]. apply removed_nothing.
    intros e' He'. exists h. unfold cache_of, file_table_of in *. split; congruence. }
  assert (∀ h, old = Some h → fc_hash (content e) = h) as Hold.
  { intros h ->. by apply negb_false_iff, bool_decide_eq_true in Eold. }
  unfold sbind at 1, smodify at 1. fold (other_entries (file_table_of t) i k).
  set (t1 := put_file_table _ t).
  assert (snd <$> head (filter (λ kv, kv.1 = "") (filter (λ kv, kv.1 ≠ k) (entries_of (file_table_of t) i)))
    = tbl_get (i, "") (file_table_of t)) as Hdef.
  { apply find_entry. intros e'. rewrite elem_of_fst_ne, elem_of_entries by done. split; [tauto|auto]. }
  assert ((λ kv, fc_hash (content kv.2)) <$> head (filter (λ kv, kv.1 = "")
    (filter (λ kv, kv.1 ≠ k) (entries_of (file_table_of t) i))) =
    (λ e, fc_hash (content e)) <$> tbl_get (i, "") (file_table_of t)) as ->.
  { rewrite <- Hdef. by destruct (head _). }
  destruct (other_entries (file_table_of t) i k) as [|x l] eqn:Eo.
  - pose proof (proj1 (others_nil _ _ _ Hi) Eo) as Hnone.
    assert ((λ kv : (N * string) * FileTableEntry, fc_path (content kv.2)) <$> head (inode_entries (file_table_of t) i)
      = Some (fc_path (content e))) as ->.
    { by apply (head_path n _ (global_of t) _ k). }
    unfold sbind, smodify, sget, sret.
    match goal with |- context [tbl_get (i, "") ?x] =>
      destruct (tbl_get (i, "") x) as [de|]; [destruct (blob (content de))|] end;
    (eexists _, _, [_]; split; [reflexivity|]; split;
      [by split|by apply (removed_last _ _ _ _ (cache_of t) e)]).
  - assert (other_entries (file_table_of t) i k ≠ []) as Hne by (by rewrite Eo).
    rewrite <- Eo. pose proof (elected (file_table_of t) i k
      ((λ e, fc_hash (content e)) <$> tbl_get (i, "") (file_table_of t)) Hi) as Hel.
    match goal with |- context [if ?b then _ else _] => destruct b eqn:Eb end.
    + destruct (proj1 Hel eq_refl) as (h' & k' & e' & Hh & H1 & H2 & H3 & H4).
      destruct (tbl_get (i, "") (file_table_of t)) as [de|] eqn:Ede; [|done]. injection Hh as <-.
      exists t1, (cache_of t1), []. split; [done|]. split; [by split|].
      by apply (removed_kept _ _ _ _ (cache_of t) e de k' e').
    + destruct (most_recent_spec (hash_order (other_entries (file_table_of t) i k)))
        as ([k' e'] & -> & Hin & Hmax).
      { intros H. apply Hne. apply Permutation_nil_r. by rewrite <- H, hash_order_perm. }
      rewrite hash_order_perm in Hin. apply elem_of_others in Hin as (H1 & H2 & H3); [|done].
      destruct (write_default_run i e' t1) as (t' & Hrun & [W1 W2 W3]).
      exists t', (put_files (tbl_insert (i, "") e' (file_table_of t1)) (cache_of t1)), [fc_path (content e')].
      split; [exact Hrun|]. split; [by split|].
      apply (removed_elected _ _ _ _ (cache_of t) e k' e'); [done..| |].
      * intros k'' e'' de Hk1 Hk2 He'' Hde Hh. enough (false = true) by done. apply Hel.
        exists (fc_hash (content de)), k'', e''. unfold file_table_of. unfold cache_of in Hde. by rewrite Hde.
      * intros k'' e'' Hk1 Hk2 He''. apply (Hmax (k'', e'')).
        rewrite hash_order_perm. by apply elem_of_others.
Qed.

(** Changing the entries of one file. *)
Lemma put_files_ok n c g f p d i :
  cache_ok n c g → valid p → file_of c p = Some i →
  tbl_get (d, Path.name p) (cache_directory_table c) =
    Some (Regular {| rd_inode := i; assignment := AFile |}) →
  (∀ j k, j ≠ i → tbl_get (j, k) f = tbl_get (j, k) (cache_file_table c)) →
  (∀ k e, tbl_get (i, k) f = Some e → fc_path (content e) = p ∧ parent_inode e = d) →
  (is_Some (tbl_get (i, "") f) ↔ ∃ k, k ≠ "" ∧ is_Some (tbl_get (i, k) f)) →
  cache_ok n (put_files f c) g.
Proof.
  intros [C1 C2 C3 C4 C5 C6 C7] Hp Hi Hd Hf He Hdef.
  split; [by apply (alloc_inv_ext _ c)|done|done| | |done|done]; simpl.
  - intros j k e Hj. destruct (decide (j = i)) as [->|Hne].
    + destruct (He k e Hj) as [-> ->]. done.
    + rewrite Hf in Hj by done. by apply C4 in Hj.
  - intros j. destruct (decide (j = i)) as [->|Hne]; [done|]. rewrite Hf by done. rewrite C5.
    split; intros (k & Hk & H); exists k; (split; [done|]); [by rewrite Hf|by rewrite Hf in H].
Qed.

Lemma entry_of n c g i k e :
  cache_ok n c g → tbl_get (i, k) (cache_file_table c) = Some e →
  ∃ p d, valid p ∧ file_of c p = Some i ∧
    tbl_get (d, Path.name p) (cache_directory_table c) =
      Some (Regular {| rd_inode := i; assignment := AFile |}) ∧
    fc_path (content e) = p ∧ parent_inode e = d ∧
    ∀ k' e', tbl_get (i, k') (cache_file_table c) = Some e' →
             fc_path (content e') = p ∧ parent_inode e' = d.
Proof.
  intros Hc He. pose proof (co_entry _ _ _ Hc _ _ _ He) as (Hv & Hd & Hi).
  exists (fc_path (content e)), (parent_inode e). split_and!; [done..|]. intros k' e' He'.
  split; [by eapply entry_path|]. pose proof (co_entry _ _ _ Hc _ _ _ He') as (_ & Hd' & _).
  by destruct (do_unique _ _ (co_dirs _ _ _ Hc) _ _ _ _ _ _ Hd Hd' eq_refl).
Qed.

Lemma removed_ok n g d i k old c c' l :
  cache_ok n c g → k ≠ "" → removed d i k old c c' l →
  (∀ e, tbl_get (i, k) (cache_file_table c) = Some e → parent_inode e = d) →
  cache_ok n c' g.
Proof.
  intros Hc Hk Hr Hpar. destruct Hr as [H|e He Hold Hnone|e de k' e' He Hold Hde Hk1 Hk2 He' Hh|
    e k' e' He Hold Hk1 Hk2 He' Hh Hmax]; [done|..];
    destruct (entry_of _ _ _ _ _ _ Hc He) as (p & d' & Hp & Hi & Hd & Hep & Hed & Hall);
    specialize (Hpar _ He); rewrite Hed in Hpar; subst d'.
  - assert (∀ k', tbl_get (i, k') (tbl_remove (i, "") (tbl_remove (i, k) (cache_file_table c))) = None) as Hgone.
    { intros k'. rewrite !get_remove. repeat case_decide; try done. apply Hnone; congruence. }
    assert (∀ j k', j ≠ i → tbl_get (j, k') (tbl_remove (i, "") (tbl_remove (i, k) (cache_file_table c)))
      = tbl_get (j, k') (cache_file_table c)) as Hother.
    { intros j k' Hj. rewrite !get_remove, !decide_False by congruence. done. }
    pose proof (entry_top _ _ _ _ _ _ Hc He) as (Hi64 & _ & Hlt).
    destruct Hc as [C1 C2 C3 C4 C5 C6 C7]. assert (d + 1 < u64_modulus) as Hd64 by lia.
    split; [by apply (alloc_inv_ext _ c)|by eapply drop_dirs_ok|by eapply drop_above|..]; simpl.
    + intros j k' e' H. destruct (decide (j = i)) as [->|Hne]; [by rewrite Hgone in H|].
      rewrite Hother in H by done. destruct (C4 _ _ _ H) as (H1 & H2 & H3). split_and!; [done| |].
      * eapply drop_regular; [done..|]. by split.
      * unfold file_of in *. simpl. rewrite (drop_file_at _ _ _ _ C2 Hd64 Hd) by done.
        rewrite decide_False; [done|congruence].
    + intros j. destruct (decide (j = i)) as [->|Hne].
      { rewrite Hgone. split; [by intros [??]|]. intros (k' & _ & [x Hx]). by rewrite Hgone in Hx. }
      rewrite Hother, C5 by done. split; intros (k' & ? & H); exists k'; (split; [done|]);
        [by rewrite Hother|by rewrite Hother in H].
    + intros k' j d' (H1 & H2 & H3)%C6. split_and!; [done..|]. intros d'' m a H.
      apply (drop_regular _ _ _ _ C2 Hd64 Hd) in H as [H _]. by eapply H3.
    + intros q m e' H. apply (drop_regular _ _ _ _ C2 Hd64 Hd) in H as [H _]. by eapply C7.
  - apply (put_files_ok _ _ _ _ p d i); [done..| | |].
    + intros j k'' Hj. apply get_remove_ne. congruence.
    + intros k'' e''. rewrite get_remove. case_decide; [done|]. apply Hall.
    + rewrite get_remove_ne, Hde by congruence. split; [|by eexists]. intros _.
      exists k'. split; [done|]. rewrite get_remove_ne by congruence. by eexists.
  - apply (put_files_ok _ _ _ _ p d i); [done..| | |].
    + intros j k'' Hj. rewrite get_insert_ne by congruence. apply get_remove_ne. congruence.
    + intros k'' e''. rewrite get_insert. case_decide; [intros [= <-]; by eapply Hall|].
      rewrite get_remove. case_decide; [done|]. apply Hall.
    + rewrite get_insert_eq. split; [|by eexists]. intros _.
      exists k'. split; [done|]. rewrite get_insert_ne, get_remove_ne by congruence. by eexists.
Qed.

(** ** The specification of a removal, on the versions of a file

    [f] are the versions of a file by peer, with the one that is presented under
    the empty name. *)
Inductive dropped (k : string) (old : option Hash) (f f' : string → option Version) : Prop :=
| dropped_nothing :
    (∀ v, f k = Some v → ∃ h, old = Some h ∧ v.2 ≠ h) → (∀ k', f' k' = f k') → dropped k old f f'
| dropped_last v :
    f k = Some v → (∀ h, old = Some h → v.2 = h) → (∀ k', k' ≠ "" → k' ≠ k → f k' = None) →
    (∀ k', f' k' = None) → dropped k old f f'
| dropped_kept v dv k' v' :
    f k = Some v → (∀ h, old = Some h → v.2 = h) → f "" = Some dv →
    k' ≠ "" → k' ≠ k → f k' = Some v' → v'.2 = dv.2 →
    (∀ k'', f' k'' = (<[k := None]> f) k'') → dropped k old f f'
| dropped_elected v k' v' :
    f k = Some v → (∀ h, old = Some h → v.2 = h) → k' ≠ "" → k' ≠ k → f k' = Some v' →
    (∀ k'' w dv, k'' ≠ "" → k'' ≠ k → f k'' = Some w → f "" = Some dv → w.2 ≠ dv.2) →
    (∀ k'' w, k'' ≠ "" → k'' ≠ k → f k'' = Some w →
       as_duration (mtime w.1) ≤ as_duration (mtime v'.1)) →
    (∀ k'', f' k'' = (<["" := Some v']> (<[k := None]> f)) k'') → dropped k old f f'.

Lemma iview_Some c i k v :
  iview c i k = Some v ↔ ∃ e, tbl_get (i, k) (cache_file_table c) = Some e ∧ v = version e.
Proof. unfold iview. by rewrite fmap_Some. Qed.

Lemma iview_get c i k e : tbl_get (i, k) (cache_file_table c) = Some e → iview c i k = Some (version e).
Proof. unfold iview. by intros ->. Qed.

(** What a removal does to the view: to the file, and to its path. *)
Record removed_view (i : Inode) (k : string) (old : option Hash) (c c' : CacheTables) l : Prop := {
  rv_dropped : dropped k old (iview c i) (iview c' i);
  rv_files : ∀ j k', j ≠ i →
    tbl_get (j, k') (cache_file_table c') = tbl_get (j, k') (cache_file_table c);
  rv_paths : ∀ q, valid q → file_of c' q = file_of c q ∨
    (file_of c q = Some i ∧ file_of c' q = None ∧ ∀ k', iview c' i k' = None);
  rv_same : cache_pending_catchup_table c' = cache_pending_catchup_table c ∧
    cache_peer_table c' = cache_peer_table c ∧
    cache_notification_table c' = cache_notification_table c ∧
    cache_current_inode_range_table c' = cache_current_inode_range_table c;
  rv_marks : (length l ≤ 1)%nat ∧ (∀ q, q ∈ l → file_of c q = Some i) ∧
    (iview c' i "" = iview c i "" ∨ ∀ q, valid q → file_of c q = Some i → q ∈ l);
}.

Lemma removed_view_of n g d i k old c c' l :
  cache_ok n c g → k ≠ "" → removed d i k old c c' l →
  (∀ e, tbl_get (i, k) (cache_file_table c) = Some e → parent_inode e = d) →
  removed_view i k old c c' l.
Proof.
  intros Hc Hk Hr Hpar. destruct Hr as [H|e He Hold Hnone|e de k' e' He Hold Hde Hk1 Hk2 He' Hh|
    e k' e' He Hold Hk1 Hk2 He' Hh Hmax].
  { split; [|done|by left|done|split_and!; [simpl; lia|by intros q ?%not_elem_of_nil|by left]].
    apply dropped_nothing; [|done]. intros v (e & He & ->)%iview_Some. by apply H. }
  all: destruct (entry_of _ _ _ _ _ _ Hc He) as (p & d' & Hp & Hi & Hd & Hep & Hed & Hall);
    specialize (Hpar _ He); rewrite Hed in Hpar; subst d'.
  all: assert (∀ q, q ∈ [p] → file_of c q = Some i) as Hin by (by intros q ->%list_elem_of_singleton).
  all: assert (∀ q, valid q → file_of c q = Some i → q ∈ [p]) as Hall'
    by (intros q Hq Hqi; apply list_elem_of_singleton; by eapply file_at_inj; [apply Hc|..]).
  - split; simpl; [|intros j k' Hj|intros q Hq|done|rewrite Hep; split_and!; [simpl; lia|done|by right]].
    + eapply dropped_last; [by apply iview_get|done| |].
      * intros k' H1 H2. unfold iview. by rewrite Hnone.
      * intros k'. unfold iview. simpl. rewrite !get_remove.
        repeat case_decide; try done. rewrite Hnone; [done|congruence..].
    + rewrite !get_remove, !decide_False by congruence. done.
    + pose proof (entry_top _ _ _ _ _ _ Hc He) as (Hi64 & _ & Hlt). unfold file_of. simpl.
      rewrite (drop_file_at d i (Path.name p)); [|apply Hc|lia|done..]. case_decide; [right|by left].
      split_and!; [done..|]. intros k'. unfold iview. simpl. rewrite !get_remove.
      repeat case_decide; try done. rewrite Hnone; [done|congruence..].
  - split; [|intros j k'' Hj|by left|done|split_and!; [simpl; lia|by intros q ?%not_elem_of_nil|left]].
    + eapply (dropped_kept _ _ _ _ _ _ k'); [by apply iview_get|done|by apply iview_get|done|done|
        by apply iview_get|done|].
      intros k''. unfold iview. simpl. rewrite get_remove.
      destruct (decide (k'' = k)) as [->|Hne]; [by rewrite decide_True, fn_lookup_insert|].
      rewrite decide_False by congruence. by rewrite fn_lookup_insert_ne.
    + simpl. by rewrite get_remove_ne by congruence.
    + unfold iview. simpl. by rewrite get_remove_ne by congruence.
  - destruct (Hall _ _ He') as [Hep' _].
    split; [|intros j k'' Hj|by left|done|rewrite Hep'; split_and!; [simpl; lia|done|by right]].
    + eapply (dropped_elected _ _ _ _ _ k'); [by apply iview_get|done|done|done|by apply iview_get|..].
      * intros k'' w dv H1 H2 (e1 & H3 & ->)%iview_Some (e2 & H4 & ->)%iview_Some. by eapply Hh.
      * intros k'' w H1 H2 (e1 & H3 & ->)%iview_Some. by eapply Hmax.
      * intros k''. unfold iview. simpl. rewrite get_insert.
        destruct (decide (k'' = "")) as [->|Hn0]; [by rewrite decide_True, fn_lookup_insert|].
        rewrite decide_False, fn_lookup_insert_ne by congruence. rewrite get_remove.
        destruct (decide (k'' = k)) as [->|Hne]; [by rewrite decide_True, fn_lookup_insert|].
        rewrite decide_False by congruence. by rewrite fn_lookup_insert_ne.
    + simpl. by rewrite get_insert_ne, get_remove_ne by congruence.
Qed.

(** ** A removal, on the view *)

(** Nothing but the file at [p] changed. *)
Definition same_but p c c' : Prop := ∀ q k, valid q → q ≠ p → seen c' q k = seen c q k.
Definition same_marks_but p c c' : Prop :=
  ∀ q k, valid q → q ≠ p → is_marked c' q k ↔ is_marked c q k.

Lemma dropped_ext k old (f1 f1' f2 f2' : string → option Version) :
  (∀ k', f2 k' = f1 k') → (∀ k', f2' k' = f1' k') → dropped k old f1 f1' → dropped k old f2 f2'.
Proof.
  intros E E' H. destruct H as [H1 H2|v H1 H2 H3 H4|v dv k' v' H1 H2 H3 H4 H5 H6 H7 H8|
    v k' v' H1 H2 H3 H4 H5 H6 H7 H8].
  - apply dropped_nothing; [by rewrite E|]. intros. by rewrite E', E.
  - apply (dropped_last _ _ _ _ v); [by rewrite E|done|intros ???; rewrite E; auto|intros; by rewrite E'].
  - apply (dropped_kept _ _ _ _ v dv k' v'); rewrite ?E; try done.
    intros k''. rewrite E', H8. unfold insert, fn_insert. by rewrite ?E.
  - apply (dropped_elected _ _ _ _ v k' v'); rewrite ?E; try done.
    + intros k'' w dv. rewrite E. eauto.
    + intros k'' w. rewrite E. eauto.
    + intros k''. rewrite E', H8. unfold insert, fn_insert. by rewrite ?E.
Qed.

(** What the view looks like, by what it was for the inode. *)
Lemma removed_seen_at i k old c c' l q k' :
  removed_view i k old c c' l → valid q →
  seen c' q k' = (if decide (file_of c q = Some i) then iview c' i k' else seen c q k') ∧
  (is_marked c' q k' → is_marked c q k') ∧
  (file_of c q ≠ Some i → is_marked c' q k' ↔ is_marked c q k').
Proof.
  intros [V1 V2 V3 (V4 & _) _] Hq. unfold is_marked, seen. rewrite V4.
  destruct (V3 q Hq) as [->|(E & E' & Hn)]; [|rewrite E, E'].
  - split; [|done]. case_decide as Ei; [by rewrite Ei|].
    destruct (file_of c q) as [j|]; [|done]. simpl. unfold iview. by rewrite V2 by congruence.
  - split_and!; [by rewrite decide_True, Hn| |done]. by intros (j & ? & _).
Qed.

Lemma removed_seen n g i k old c c' l p :
  cache_ok n c g → removed_view i k old c c' l → valid p → file_of c p = Some i →
  dropped k old (seen c p) (seen c' p) ∧ same_but p c c' ∧
  (∀ q k', valid q → is_marked c' q k' → is_marked c q k') ∧ same_marks_but p c c'.
Proof.
  intros Hc Hv Hp Hi. assert (∀ q, valid q → q ≠ p → file_of c q ≠ Some i) as Hne.
  { intros q Hq Hqp E. apply Hqp. eapply file_at_inj; [apply Hc|done..]. }
  split_and!.
  - eapply dropped_ext; [..|exact (rv_dropped _ _ _ _ _ _ Hv)].
    + intros k'. unfold seen. by rewrite Hi.
    + intros k'. destruct (removed_seen_at _ _ _ _ _ _ p k' Hv Hp) as [-> _]. by rewrite decide_True.
  - intros q k' Hq Hqp. destruct (removed_seen_at _ _ _ _ _ _ q k' Hv Hq) as [-> _].
    by rewrite decide_False by auto.
  - intros q k' Hq. by destruct (removed_seen_at _ _ _ _ _ _ q k' Hv Hq) as (_ & H & _).
  - intros q k' Hq Hqp. destruct (removed_seen_at _ _ _ _ _ _ q k' Hv Hq) as (_ & _ & H). auto.
Qed.

Lemma removed_marks n g i k old c c' l q :
  cache_ok n c g → removed_view i k old c c' l → valid q → seen c' q "" ≠ seen c q "" →
  q ∈ l.
Proof.
  intros Hc Hv Hq. destruct (removed_seen_at _ _ _ _ _ _ q "" Hv Hq) as [-> _].
  destruct (rv_marks _ _ _ _ _ _ Hv) as (_ & _ & Hm). case_decide as E; [|done]. unfold seen.
  rewrite E. simpl. intros Hne. destruct Hm as [Hm|Hm]; [done|]. by apply Hm.
Qed.

Lemma lookup_errors dt cur cs (e : StorageError) :
  lookup_components dt cur cs = Err e → e = NotADirectory ∨ e = NotFound.
Proof.
  revert cur. induction cs as [|c cs IH]; intros cur; [done|]. simpl.
  case_bool_decide; simpl; [|intros [= <-]; by left].
  destruct (get_dir_entry dt cur.1 c); [apply IH|intros [= <-]; by right].
Qed.

(** ** Writing entries of the file at a path *)

Lemma cache_ok_ext n c c' g :
  cache_directory_table c' = cache_directory_table c → cache_file_table c' = cache_file_table c →
  cache_pending_catchup_table c' = cache_pending_catchup_table c →
  cache_current_inode_range_table c' = cache_current_inode_range_table c →
  cache_ok n c g → cache_ok n c' g.
Proof.
  intros E1 E2 E3 E4 [C1 C2 C3 C4 C5 C6 C7].
  split; unfold top, file_of in *; rewrite ?E1, ?E2, ?E3, ?E4; try done. by apply (alloc_inv_ext _ c).
Qed.

Lemma cache_ok_weaken n c g : cache_ok (1 + n) c g → cache_ok n c g.
Proof. intros []. split; try done. by apply alloc_inv_weaken. Qed.

Lemma entries_at n c g p d i k e :
  cache_ok n c g → valid p → file_of c p = Some i →
  tbl_get (d, Path.name p) (cache_directory_table c) =
    Some (Regular {| rd_inode := i; assignment := AFile |}) →
  tbl_get (i, k) (cache_file_table c) = Some e → fc_path (content e) = p ∧ parent_inode e = d.
Proof.
  intros Hc Hp Hi Hd He. destruct (entry_of _ _ _ _ _ _ Hc He) as (p' & d' & H1 & H2 & H3 & H4 & H5 & _).
  rewrite H4, H5. split; [by eapply file_at_inj; [apply Hc|..]|].
  by destruct (do_unique _ _ (co_dirs _ _ _ Hc) _ _ _ _ _ _ Hd H3 eq_refl).
Qed.

Lemma created_iview t t' i k : created t t' → iview (cache_of t') i k = iview (cache_of t) i k.
Proof.
  intros H. pose proof (created_files _ _ H) as E. unfold iview.
  by change (cache_file_table (cache_of t')) with (file_table_of t'); rewrite E.
Qed.

Lemma created_seen p d i n t t' k :
  created_file p d i n t t' → seen (cache_of t) p k = iview (cache_of t') i k.
Proof.
  intros H. rewrite (created_iview _ _ _ _ (cf_created _ _ _ _ _ _ H)).
  unfold seen. destruct (cf_old _ _ _ _ _ _ H) as [->|(-> & Hn & _)]; [done|].
  unfold iview. simpl. change (cache_file_table (cache_of t)) with (file_table_of t). by rewrite Hn.
Qed.

(** Changing the entries of the inode given by [create_file]. *)
Record file_written p (i : Inode) t c' : Prop := {
  fw_path : ∀ k, seen c' p k = iview c' i k;
  fw_others : same_but p (cache_of t) c';
  fw_marks : same_marks_but p (cache_of t) c';
}.

Lemma write_view p d i n t t' c' :
  created_file p d i n t t' → valid p →
  cache_directory_table c' = dir_table_of t' →
  (∀ j k, j ≠ i → tbl_get (j, k) (cache_file_table c') = tbl_get (j, k) (file_table_of t')) →
  (∀ k j, j ≠ i → tbl_get (k, j) (cache_pending_catchup_table c') = tbl_get (k, j) (pending_table_of t')) →
  file_written p i t c'.
Proof.
  intros Hcf Hp Hd Hf Hpe. pose proof (cf_created _ _ _ _ _ _ Hcf) as Hcr.
  assert (∀ q, file_of c' q = file_of (cache_of t') q) as Hq by (intros q; unfold file_of; by rewrite Hd).
  assert (∀ q, valid q → q ≠ p → file_of c' q = file_of (cache_of t) q ∧ file_of c' q ≠ Some i) as Hother.
  { intros q Hv Hne. rewrite Hq. split; [by apply (cf_others _ _ _ _ _ _ Hcf)|]. intros E. apply Hne.
    eapply file_at_inj; [apply (cf_ok _ _ _ _ _ _ Hcf)|done|done|exact E|apply (cf_at _ _ _ _ _ _ Hcf)]. }
  split.
  - intros k. unfold seen. by rewrite Hq, (cf_at _ _ _ _ _ _ Hcf).
  - intros q k Hv Hne. destruct (Hother q Hv Hne) as [E Hi]. unfold seen. rewrite E in *.
    destruct (file_of (cache_of t) q) as [j|]; [|done]. simpl.
    rewrite <- (created_iview _ _ _ _ Hcr). unfold iview. rewrite Hf by congruence. done.
  - intros q k Hv Hne. destruct (Hother q Hv Hne) as [E Hi]. unfold is_marked. rewrite E in *.
    assert (∀ j, file_of (cache_of t) q = Some j → tbl_get (k, j) (cache_pending_catchup_table c') =
      tbl_get (k, j) (cache_pending_catchup_table (cache_of t))) as Hj.
    { intros j Ej. rewrite Hpe by congruence. by rewrite (created_pending _ _ Hcr). }
    split; intros (j & Ej & H); exists j; (split; [done|]); [by rewrite <- Hj|by rewrite Hj].
Qed.

Lemma created_marks p d i n t t' q k :
  created_file p d i n t t' → valid q → is_marked (cache_of t') q k ↔ is_marked (cache_of t) q k.
Proof.
  intros Hcf Hq. pose proof (created_pending _ _ (cf_created _ _ _ _ _ _ Hcf)) as Hpe.
  change (cache_pending_catchup_table (cache_of t') = cache_pending_catchup_table (cache_of t)) in Hpe.
  unfold is_marked. rewrite Hpe. destruct (decide (q = p)) as [->|Hne].
  - rewrite (cf_at _ _ _ _ _ _ Hcf). destruct (cf_old _ _ _ _ _ _ Hcf) as [->|(-> & _ & Hn)]; [done|].
    change (pending_table_of t) with (cache_pending_catchup_table (cache_of t)) in Hn.
    split; intros (j & E & [x Hx]); [|done]. injection E as <-. by rewrite Hn in Hx.
  - by rewrite (cf_others _ _ _ _ _ _ Hcf).
Qed.

(** The default entry is only written if there is none, or if [b]. *)
Lemma peer_written_ok n c g p d i k e b :
  cache_ok n c g → valid p → file_of c p = Some i →
  tbl_get (d, Path.name p) (cache_directory_table c) =
    Some (Regular {| rd_inode := i; assignment := AFile |}) →
  k ≠ "" → fc_path (content e) = p → parent_inode e = d →
  b = true ∨ is_Some (tbl_get (i, "") (cache_file_table c)) →
  let f := tbl_insert (i, k) e (cache_file_table c) in
  cache_ok n (put_files (if b : bool then tbl_insert (i, "") e f else f) c) g.
Proof.
  intros Hc Hp Hi Hd Hk He1 He2 Hb f.
  assert (∀ k' e', tbl_get (i, k') f = Some e' → fc_path (content e') = p ∧ parent_inode e' = d) as Hf.
  { intros k' e'. unfold f. rewrite get_insert. case_decide; [by intros [= <-]|]. by eapply entries_at. }
  apply (put_files_ok _ _ _ _ p d i); [done..| | |].
  - intros j k' Hj. unfold f. destruct b; rewrite !get_insert_ne by congruence; done.
  - intros k' e'. destruct b; [|by apply Hf]. rewrite get_insert. case_decide; [by intros [= <-]|apply Hf].
  - assert (∃ k', k' ≠ "" ∧ is_Some (tbl_get (i, k') (if b then tbl_insert (i, "") e f else f))) as Hex.
    { exists k. split; [done|]. exists e. unfold f. destruct b; [rewrite get_insert_ne by congruence|];
        apply get_insert_eq. }
    split; [by intros _|intros _]. destruct b.
    + rewrite get_insert_eq. by eexists.
    + unfold f. rewrite get_insert_ne by congruence. by destruct Hb.
Qed.

Lemma peer_written_view c i k e b k' :
  k ≠ "" →
  let f := tbl_insert (i, k) e (cache_file_table c) in
  let v := Some (version e) in
  iview (put_files (if b : bool then tbl_insert (i, "") e f else f) c) i k' =
  (if b then <["" := v]> (<[k := v]> (iview c i)) else <[k := v]> (iview c i)) k'.
Proof.
  intros Hk. assert (iview (put_files (tbl_insert (i, k) e (cache_file_table c)) c) i k' =
    (<[k := Some (version e)]> (iview c i)) k') as H.
  { unfold iview. simpl. rewrite get_insert. destruct (decide (k' = k)) as [->|Hne].
    - by rewrite decide_True, fn_lookup_insert.
    - by rewrite decide_False, fn_lookup_insert_ne by congruence. }
  destruct b; [|done]. simpl. destruct (decide (k' = "")) as [->|Hne].
  - unfold iview. simpl. by rewrite get_insert_eq, fn_lookup_insert.
  - rewrite fn_lookup_insert_ne by done. rewrite <- H. unfold iview. simpl.
    by rewrite get_insert_ne by congruence.
Qed.

(** ** The specification of [update] *)

Definition hash_is (h : Hash) (v : option Version) : bool :=
  match v with Some v => bool_decide (v.2 = h) | None => false end.

(** A version is presented if there is no other. *)
Definition presented (v : Version) (f : string → option Version) : string → option Version :=
  match f "" with Some _ => f | None => <["" := Some v]> f end.
Definition added k v (f : string → option Version) : string → option Version :=
  match f k with Some _ => f | None => presented v (<[k := Some v]> f) end.
Definition replaced k v (old : Hash) (f : string → option Version) : string → option Version :=
  if hash_is old (f "") then <["" := Some v]> (<[k := Some v]> f)
  else if hash_is old (f k) then <[k := Some v]> f
  else f.

(** What a notification does to what is seen of the files, and to the marks. *)
Definition view_step k (n : Notification) c c' : Prop :=
  match n with
  | NAdd _ _ p mtime size hash =>
      same_but p c c' ∧
      (∀ k', seen c' p k' = added k ({| size := size; mtime := mtime |}, hash) (seen c p) k') ∧
      (∀ q k', valid q → is_marked c' q k' ↔ is_marked c q k')
  | NReplace _ _ p mtime size hash old =>
      same_but p c c' ∧
      (∀ k', seen c' p k' = replaced k ({| size := size; mtime := mtime |}, hash) old (seen c p) k') ∧
      (∀ q k', valid q → is_marked c' q k' ↔ is_marked c q k')
  | NRemove _ _ p old | NDrop _ _ p old =>
      same_but p c c' ∧ dropped k (Some old) (seen c p) (seen c' p) ∧
      (∀ q k', valid q → is_marked c' q k' → is_marked c q k') ∧ same_marks_but p c c'
  | NCatchupStart _ =>
      (∀ q k', valid q → seen c' q k' = seen c q k') ∧
      (∀ q k', valid q → is_marked c' q k' ↔ is_marked c q k' ∨ (k' = k ∧ is_Some (seen c q k)))
  | NCatchup _ p mtime size hash =>
      let v := ({| size := size; mtime := mtime |}, hash) in
      same_but p c c' ∧ (∀ k', seen c' p k' = presented v (<[k := Some v]> (seen c p)) k') ∧
      (∀ q k', valid q → is_marked c' q k' ↔ is_marked c q k' ∧ ¬ (q = p ∧ k' = k))
  | NCatchupComplete _ _ =>
      (∀ q, valid q →
         (is_marked c q k → dropped k None (seen c q) (seen c' q)) ∧
         (¬ is_marked c q k → ∀ k', seen c' q k' = seen c q k')) ∧
      (∀ q k', valid q → is_marked c' q k' → is_marked c q k' ∧ k' ≠ k)
  | NConnected _ _ =>
      (∀ q k', valid q → seen c' q k' = seen c q k') ∧
      (∀ q k', valid q → is_marked c' q k' ↔ is_marked c q k')
  end.

(** What it does to the progress that is reported to the peer. *)
Definition progress_step k (n : Notification) c c' : Prop :=
  (∀ k', k' ≠ k →
     tbl_get k' (cache_peer_table c') = tbl_get k' (cache_peer_table c) ∧
     tbl_get k' (cache_notification_table c') = tbl_get k' (cache_notification_table c)) ∧
  match n with
  | NConnected _ id =>
      uuid <$> tbl_get k (cache_peer_table c') = Some id ∧
      tbl_get k (cache_notification_table c') =
        (if bool_decide (uuid <$> tbl_get k (cache_peer_table c) = Some id)
         then tbl_get k (cache_notification_table c) else None)
  | _ =>
      tbl_get k (cache_peer_table c') = tbl_get k (cache_peer_table c) ∧
      tbl_get k (cache_notification_table c') =
        match notification_index n with
        | Some index => Some index
        | None => tbl_get k (cache_notification_table c)
        end
  end.

(** How many paths it may mark dirty. *)
Definition dirty_bound (n : Notification) c : nat :=
  match n with
  | NCatchupComplete _ _ => length (tbl_iter (cache_pending_catchup_table c))
  | _ => 1
  end.

Record updated (m : nat) (peer : Peer) (n : Notification) t t' : Prop := {
  up_ok : cache_ok m (cache_of t') (global_of t');
  up_view : view_step (peer_name peer) n (cache_of t) (cache_of t');
  up_progress : progress_step (peer_name peer) n (cache_of t) (cache_of t');
  up_dirty : ∃ l, dirty (tables t') = marks l (dirty (tables t)) ∧
    (length l ≤ dirty_bound n (cache_of t))%nat ∧
    ∀ q, valid q → seen (cache_of t') q "" ≠ seen (cache_of t) q "" → q ∈ l;
  up_global : global_grows (global_of t) (global_of t');
}.

(** A transaction that fails can have reserved a range of inodes. *)
Record failed (m : nat) t t' : Prop := {
  fa_alloc : alloc_inv m (cache_of t') (global_of t');
  fa_global : global_grows (global_of t) (global_of t');
}.

Definition cache_update_post (m : nat) (peer : Peer) (n : Notification) t (r : sresult (Outcome ()) * Txn) : Prop :=
  match r with
  | (Ok (Commit _), t') => updated m peer n t t'
  | (Ok (Rollback _), t') => t' = t ∧ updated m peer n t t'
  | (Err e, t') => failed m t t' ∧ (e = NotADirectory ∨ e = IsADirectory ∨ e = NotFound)
  end.

(** ** Each notification *)

Lemma created_progress t t' :
  created t t' →
  cache_peer_table (cache_of t') = cache_peer_table (cache_of t) ∧
  cache_notification_table (cache_of t') = cache_notification_table (cache_of t).
Proof.
  intros H. split.
  - exact (f_equal (λ t, cache_peer_table (cache_of t)) (cr_strip _ _ H)).
  - exact (f_equal (λ t, cache_notification_table (cache_of t)) (cr_strip _ _ H)).
Qed.

Lemma created_failed m t t' : created t t' → alloc_inv m (cache_of t') (global_of t') → failed m t t'.
Proof. intros H Ha. split; [done|apply H]. Qed.

(** The transaction after the index of the notification is noted. *)
Definition noted (peer : Peer) (index : N) t : Txn :=
  upd_cache (λ c, set_cache_notification_table
    (tbl_insert (peer_name peer) index (cache_notification_table c)) c) t.

Lemma noted_ok n peer index t :
  cache_ok n (cache_of t) (global_of t) → cache_ok n (cache_of (noted peer index t)) (global_of (noted peer index t)).
Proof. by apply cache_ok_ext. Qed.

Lemma noted_progress peer n index t c' :
  notification_index n = Some index →
  cache_peer_table c' = cache_peer_table (cache_of (noted peer index t)) →
  cache_notification_table c' = cache_notification_table (cache_of (noted peer index t)) →
  progress_step (peer_name peer) n (cache_of t) c'.
Proof.
  intros Hn E1 E2. unfold progress_step. rewrite E1, E2, Hn. simpl. split.
  - intros k' Hk'. by rewrite get_insert_ne.
  - destruct n; try done; (split; [done|apply get_insert_eq]).
Qed.

Lemma get_peer_entry f i peer : get_file_entry f i (Some peer) = tbl_get (i, peer_name peer) f.
Proof. done. Qed.
Lemma get_no_peer_entry f i : get_file_entry f i None = tbl_get (i, "") f.
Proof. done. Qed.

Lemma presented_some v f : is_Some (f "") → presented v f = f.
Proof. unfold presented. by intros [? ->]. Qed.

Lemma insert_ne_default k (v : option Version) (f : string → option Version) : k ≠ "" → (<[k := v]> f) "" = f "".
Proof. intros. by apply fn_lookup_insert_ne. Qed.

(** Writing the entry of the peer, and the default one if [b]. *)
Lemma peer_written_step m peer p d i t t2 t' e (b : bool) l :
  created_file p d i m t t2 → valid p → peer_name peer ≠ "" →
  fc_path (content e) = p → parent_inode e = d →
  b = true ∨ is_Some (tbl_get (i, "") (file_table_of t2)) →
  wrote (put_files (let f := tbl_insert (i, peer_name peer) e (file_table_of t2) in
                    if b then tbl_insert (i, "") e f else f) (cache_of t2)) l t2 t' →
  (b = true → p ∈ l) →
  cache_ok m (cache_of t') (global_of t') ∧
  same_but p (cache_of t) (cache_of t') ∧
  (∀ k', seen (cache_of t') p k' =
     (if b then <["" := Some (version e)]> (<[peer_name peer := Some (version e)]> (seen (cache_of t) p))
      else <[peer_name peer := Some (version e)]> (seen (cache_of t) p)) k') ∧
  (∀ q k', valid q → is_marked (cache_of t') q k' ↔ is_marked (cache_of t) q k') ∧
  dirty (tables t') = marks l (dirty (tables t)) ∧
  (∀ q, valid q → seen (cache_of t') q "" ≠ seen (cache_of t) q "" → q ∈ l).
Proof.
  intros Hcf Hp Hk He1 He2 Hb [W1 W2 W3] Hl. set (k := peer_name peer) in *.
  assert (file_written p i t (cache_of t')) as [F1 F2 F3].
  { apply (write_view _ d _ m _ t2); [done|done|by rewrite W1| |by rewrite W1].
    intros j k' Hj. rewrite W1. simpl. destruct b; rewrite !get_insert_ne by congruence; done. }
  assert (∀ k', seen (cache_of t') p k' =
     (if b then <["" := Some (version e)]> (<[k := Some (version e)]> (seen (cache_of t) p))
      else <[k := Some (version e)]> (seen (cache_of t) p)) k') as Hseen.
  { intros k'. rewrite F1, W1. unfold k. etrans; [by apply peer_written_view|].
    assert (∀ k', iview (cache_of t2) i k' = seen (cache_of t) p k') as E
      by (intros; symmetry; by eapply created_seen).
    destruct b; unfold insert, fn_insert; repeat case_decide; done. }
  rewrite W2, W3, (created_dirty _ _ (cf_created _ _ _ _ _ _ Hcf)). split_and!.
  - rewrite W1. eapply peer_written_ok; try done; apply Hcf.
  - done.
  - done.
  - intros q k' Hq. rewrite <- (created_marks _ _ _ _ _ _ _ _ Hcf) by done. unfold is_marked. by rewrite W1.
  - done.
  - intros q Hq Hne. destruct (decide (q = p)) as [->|Hqp]; [|by rewrite F2 in Hne].
    rewrite Hseen in Hne. destruct b; [by apply Hl|]. by rewrite insert_ne_default in Hne.
Qed.

(** Nothing was written. *)
Lemma created_step m p d i t t2 :
  created_file p d i m t t2 → valid p →
  cache_ok m (cache_of t2) (global_of t2) ∧
  (∀ q k', valid q → seen (cache_of t2) q k' = seen (cache_of t) q k') ∧
  (∀ q k', valid q → is_marked (cache_of t2) q k' ↔ is_marked (cache_of t) q k') ∧
  dirty (tables t2) = dirty (tables t).
Proof.
  intros Hcf Hp. split_and!; [apply Hcf| | |apply created_dirty, Hcf].
  - intros q k' Hq.
    assert (file_written p i t (cache_of t2)) as [F1 F2 F3] by (by eapply write_view).
    destruct (decide (q = p)) as [->|Hne]; [|by apply F2]. rewrite F1. symmetry. by eapply created_seen.
  - intros q k' Hq. by eapply created_marks.
Qed.

Section notifications.
Context (m : nat) (peer : Peer) (Hk : peer_name peer ≠ "").
Let k := peer_name peer.
Let do_update := do_update arena arena_root roots blob_dir now hash_order.

Lemma add_run a index p mt sz h t :
  valid p → cache_ok (length (comps p) + m) (cache_of t) (global_of t) →
  cache_update_post m peer (NAdd a index p mt sz h) t (do_update peer (NAdd a index p mt sz h) t).
Proof.
  intros Hp Hc. set (n := NAdd a index p mt sz h).
  unfold do_update, ArenaCache.do_update. cbn [n]. unfold sbind at 1, do_update_last_seen_notification, smodify.
  fold (noted peer index t). set (t1 := noted peer index t). unfold sbind at 1.
  pose proof (create_file_run p m t1 Hp (noted_ok _ _ _ _ Hc)) as Hrun.
  destruct (create_file _ _ _ _ _ t1) as [[[d i]|e] t2]; cbn [cache_update_post].
  2:{ destruct Hrun as (H1 & H2 & H3). split; [by destruct (created_failed m t1 t2 H1 H2); split|naive_solver]. }
  pose proof (created_progress _ _ (cf_created _ _ _ _ _ _ Hrun)) as [P1 P2].
  pose proof (cr_global _ _ (cf_created _ _ _ _ _ _ Hrun)) as Hgl.
  assert (∀ k', seen (cache_of t) p k' = iview (cache_of t2) i k') as Hold
    by (intros k'; exact (created_seen p d i m t1 t2 k' Hrun)).
  unfold sbind at 1, sget. unfold sbind at 1. rewrite get_peer_entry.
  fold k. destruct (tbl_get (i, k) (file_table_of t2)) as [e0|] eqn:E; [|unfold sbind, sget, do_write_file_entry, smodify].
  - destruct (created_step m p d i t1 t2 Hrun Hp) as (H1 & H2 & H3 & H4). split; [done| |by apply (noted_progress peer n index)| |exact Hgl].
    + split_and!; [by intros q k' Hq _; apply H2| |done]. intros k'. unfold added.
      fold k. rewrite (Hold k), (iview_get (cache_of t2) i k e0 E). by apply H2.
    + exists []. split_and!; [done|simpl; lia|]. intros q Hq Hne. by rewrite H2 in Hne.
  - set (en := FileTableEntry_new p sz mt h d). set (t3 := put_file_table _ t2).
    rewrite get_no_peer_entry.
    assert (tbl_get (i, "") (file_table_of t3) = tbl_get (i, "") (file_table_of t2)) as E3
      by (apply get_insert_ne; congruence).
    assert (seen (cache_of t) p k = None) as Hpk by (rewrite Hold; unfold iview; change (cache_file_table (cache_of t2)) with (file_table_of t2);
        by rewrite E).
    assert (∃ t4 (b : bool) l,
      match tbl_get (i, "") (file_table_of t3) with
      | Some _ => sret ()
      | None => do_write_default_file_entry blob_dir i en
      end t3 = (Ok (), t4) ∧ l = (if b then [p] else []) ∧
      wrote (put_files (let f := tbl_insert (i, k) en (file_table_of t2) in
                        if b then tbl_insert (i, "") en f else f) (cache_of t2)) l t2 t4 ∧
      b = bool_decide (tbl_get (i, "") (file_table_of t2) = None)) as (t4 & b & l & -> & El & Hw & Hb).
    { rewrite E3. destruct (tbl_get (i, "") (file_table_of t2)) as [de|].
      - exists t3, false, []. split; [done|]. split; [done|]. split; [by split|done].
      - destruct (write_default_run i en t3) as (t4 & ? & ?). exists t4, true, [p].
        split; [done|]. split; [done|]. split; [|done]. destruct H0. by split. }
    destruct (peer_written_step m peer p d i t1 t2 t4 en b l Hrun Hp Hk eq_refl eq_refl) as
      (H1 & H2 & H3 & H4 & H5 & H6); [..|exact Hw| |].
    { rewrite Hb. case_bool_decide as Hd; [by left|right]. by apply not_eq_None_Some. }
    { intros ->. rewrite El. by left. }
    split; [done| | | |by rewrite (wr_global _ _ _ _ Hw)].
    + split_and!; [done| |done]. intros k'. rewrite H3. unfold added. fold k. rewrite Hpk.
      unfold presented. rewrite insert_ne_default by done. rewrite (Hold ""). unfold iview.
      change (cache_file_table (cache_of t2)) with (file_table_of t2).
      rewrite Hb. by destruct (tbl_get (i, "") (file_table_of t2)).
    + apply (noted_progress peer n index); [done|..]; by rewrite (wr_cache _ _ _ _ Hw).
    + exists l. split_and!; [done|rewrite El; destruct b; simpl; lia|done].
Qed.

Lemma hash_is_entry old f i k' :
  default false ((λ e, bool_decide (fc_hash (content e) = old)) <$> tbl_get (i, k') f) =
  hash_is old (version <$> tbl_get (i, k') f).
Proof. by destruct (tbl_get (i, k') f). Qed.

Lemma replace_run a index p mt sz h old t :
  valid p → cache_ok (length (comps p) + m) (cache_of t) (global_of t) →
  cache_update_post m peer (NReplace a index p mt sz h old) t (do_update peer (NReplace a index p mt sz h old) t).
Proof.
  intros Hp Hc. set (n := NReplace a index p mt sz h old).
  unfold do_update, ArenaCache.do_update. cbn [n]. unfold sbind at 1, do_update_last_seen_notification, smodify.
  fold (noted peer index t). set (t1 := noted peer index t). unfold sbind at 1.
  pose proof (create_file_run p m t1 Hp (noted_ok _ _ _ _ Hc)) as Hrun.
  destruct (create_file _ _ _ _ _ t1) as [[[d i]|e] t2]; cbn [cache_update_post].
  2:{ destruct Hrun as (H1 & H2 & H3). split; [by destruct (created_failed m t1 t2 H1 H2); split|naive_solver]. }
  pose proof (created_progress _ _ (cf_created _ _ _ _ _ _ Hrun)) as [P1 P2].
  pose proof (cr_global _ _ (cf_created _ _ _ _ _ _ Hrun)) as Hgl.
  assert (∀ k', seen (cache_of t) p k' = version <$> tbl_get (i, k') (file_table_of t2)) as Hold
    by (intros k'; exact (created_seen p d i m t1 t2 k' Hrun)).
  unfold sbind at 1, sget. unfold sbind at 1. rewrite get_peer_entry, get_no_peer_entry. fold k.
  rewrite !hash_is_entry, <- !Hold. set (en := FileTableEntry_new p sz mt h d).
  assert (∀ t4 (b : bool) l,
    b = true ∨ is_Some (tbl_get (i, "") (file_table_of t2)) → l = (if b then [p] else []) →
    wrote (put_files (let f := tbl_insert (i, k) en (file_table_of t2) in
                      if b then tbl_insert (i, "") en f else f) (cache_of t2)) l t2 t4 →
    (∀ k', replaced k (version en) old (seen (cache_of t) p) k' =
       (if b then <["" := Some (version en)]> (<[k := Some (version en)]> (seen (cache_of t) p))
        else <[k := Some (version en)]> (seen (cache_of t) p)) k') →
    updated m peer n t t4) as Hwr.
  { intros t4 b l Hb El Hw Hv.
    destruct (peer_written_step m peer p d i t1 t2 t4 en b l Hrun Hp Hk eq_refl eq_refl Hb Hw) as
      (H1 & H2 & H3 & H4 & H5 & H6); [intros ->; rewrite El; by left|].
    split; [done| | | |by rewrite (wr_global _ _ _ _ Hw)].
    - split_and!; [done| |done]. intros k'. rewrite H3. symmetry. apply Hv.
    - apply (noted_progress peer n index); [done|..]; by rewrite (wr_cache _ _ _ _ Hw).
    - exists l. split_and!; [done|rewrite El; destruct b; simpl; lia|done]. }
  destruct (hash_is old (seen (cache_of t) p "")) eqn:E1; [|destruct (hash_is old (seen (cache_of t) p k)) eqn:E2].
  - unfold sbind, do_write_file_entry, smodify. set (t3 := put_file_table _ t2).
    destruct (write_default_run i en t3) as (t4 & -> & Hw).
    apply (Hwr t4 true [p]); [by left|done|by destruct Hw; split|]. intros k'. unfold replaced. by rewrite E1.
  - unfold do_write_file_entry, smodify. apply (Hwr _ false []); [right|done|by split|].
    + rewrite Hold in E2. destruct (tbl_get (i, k) (file_table_of t2)) as [e|] eqn:E; [|done].
      apply (co_default _ _ _ (cf_ok _ _ _ _ _ _ Hrun)). exists k. split; [done|]. by exists e.
    + intros k'. unfold replaced. by rewrite E1, E2.
  - destruct (created_step m p d i t1 t2 Hrun Hp) as (H1 & H2 & H3 & H4).
    split; [done| |by apply (noted_progress peer n index)| |exact Hgl].
    + split_and!; [by intros q k' Hq _; apply H2| |done]. intros k'. unfold replaced.
      fold k. rewrite E1, E2. by apply H2.
    + exists []. split_and!; [done|simpl; lia|]. intros q Hq Hne. by rewrite H2 in Hne.
Qed.

Lemma unlink_run n index p old t :
  notification_index n = Some index → valid p → cache_ok m (cache_of t) (global_of t) →
  (∀ c c', same_but p c c' → dropped k (Some old) (seen c p) (seen c' p) →
    (∀ q k', valid q → is_marked c' q k' → is_marked c q k') → same_marks_but p c c' → view_step k n c c') →
  dirty_bound n (cache_of t) = 1%nat →
  cache_update_post m peer n t
    ((do* do_update_last_seen_notification peer index in
      do* do_unlink arena_root blob_dir now hash_order peer p old in sret (Commit ())) t).
Proof.
  intros Hn Hp Hc Hview Hb. unfold sbind at 1, do_update_last_seen_notification, smodify.
  fold (noted peer index t). set (t1 := noted peer index t).
  assert (cache_ok m (cache_of t1) (global_of t1)) as Hc1 by by apply noted_ok.
  assert (∀ e : StorageError, e = NotADirectory ∨ e = IsADirectory ∨ e = NotFound →
    cache_update_post m peer n t (Err e, t1)) as Herr.
  { intros e He. split; [|done]. split; [apply Hc1|done]. }
  unfold sbind at 1, do_unlink. unfold sbind at 1, sget. unfold sbind at 1, slift at 1.
  destruct (do_lookup_path (dir_table_of t1) arena_root (Path.parent p)) as [[d a]|e] eqn:El.
  2:{ apply Herr. apply lookup_errors in El. naive_solver. }
  case_bool_decide as Ha; cbn [negb]; [|by apply Herr; auto]. simpl in Ha. subst a.
  unfold sbind at 1, slift at 1. pose proof Hp as Hg. apply valid_comps in Hg.
  pose proof (comps_parent p) as Hcp. rewrite Hcp in Hg. apply Forall_app in Hg as [Hg [Hgn _]%Forall_cons].
  destruct (get_dir_entry (dir_table_of t1) d (Path.name p)) as [[i a]|] eqn:Ed; [|by apply Herr; auto].
  apply (get_dir_entry_good arena_root) in Ed; [|apply Hc1|done].
  cbn [ok_or rd_inode assignment]. case_bool_decide as Ha; cbn [negb]; [|by apply Herr; auto]. subst a.
  assert (file_of (cache_of t1) p = Some i) as Hi.
  { unfold file_of, file_at. rewrite Hcp. rewrite (proj2 (resolve_snoc arena_root _ _ _ i AFile
      (co_dirs _ _ _ Hc1) Hgn)); [done|]. by exists d. }
  assert (i + 1 < u64_modulus) as Hi64.
  { pose proof (co_alloc _ _ _ Hc1) as Ha. pose proof (top_last _ _ _ Ha). destruct Ha.
    apply (co_above _ _ _ Hc1) in Ed as [_ H']. specialize (H' _ eq_refl). simpl in H'. lia. }
  destruct (rm_run m d i peer (Some old) t1 Hc1 Hk Hi64) as (t2 & c' & l & -> & [W1 W2 W3] & Hrm).
  assert (∀ e, tbl_get (i, peer_name peer) (cache_file_table (cache_of t1)) = Some e → parent_inode e = d)
    as Hpar by (intros e He; by eapply (entries_at m)).
  pose proof (removed_view_of _ _ _ _ _ _ _ _ _ Hc1 Hk Hrm Hpar) as Hv.
  pose proof (removed_ok _ _ _ _ _ _ _ _ _ Hc1 Hk Hrm Hpar) as Hok.
  destruct (removed_seen _ _ _ _ _ _ _ _ p Hc1 Hv Hp Hi) as (V1 & V2 & V3 & V4).
  cbn [cache_update_post sret]. split.
  - by rewrite W1, W2.
  - rewrite W1. by apply Hview.
  - destruct (rv_same _ _ _ _ _ _ Hv) as (_ & E1 & E2 & _). rewrite W1. by apply (noted_progress peer n index).
  - exists l. split_and!; [done| |].
    + rewrite Hb. apply (rv_marks _ _ _ _ _ _ Hv).
    + rewrite W1. intros q Hq. by apply (removed_marks m (global_of t1) i k (Some old) (cache_of t1)).
  - by rewrite W2.
Qed.

(** ** The marks of a catchup *)

Lemma mark_files_run (l : list ((N * string) * FileTableEntry)) t :
  NoDup l.*1 →
  ∃ t' pe, (sfor l (λ kv, if negb (bool_decide (kv.1.2 = k)) then sret ()
      else smodify (λ t, put_pending_table
             (tbl_insert (k, kv.1.1) (parent_inode kv.2) (pending_table_of t)) t)) : TxnM ()) t
      = (Ok (), t') ∧
    wrote (set_cache_pending_catchup_table pe (cache_of t)) [] t t' ∧
    (∀ j e, ((j, k), e) ∈ l → tbl_get (k, j) pe = Some (parent_inode e)) ∧
    (∀ k' j, (k' ≠ k ∨ ∀ e, ((j, k), e) ∉ l) → tbl_get (k', j) pe = tbl_get (k', j) (pending_table_of t)).
Proof.
  revert t. induction l as [|[[j0 k0] e0] l IH]; intros t Hnd.
  { exists t, (pending_table_of t). split; [done|]. split_and!.
    - split; [|done|done]. unfold pending_table_of, cache_of. by destruct (cache (tables t)).
    - by intros j e ?%not_elem_of_nil.
    - done. }
  simpl in Hnd. apply NoDup_cons in Hnd as [Hnin Hnd]. cbn [sfor]. unfold sbind.
  match goal with |- context [sfor l ?g] => set (rest := sfor l g) end. simpl.
  assert (∀ e, ((j0, k0), e) ∉ l) as Hno.
  { intros e He. apply Hnin. apply list_elem_of_fmap. by exists ((j0, k0), e). }
  case_bool_decide as E0; cbn [negb]; unfold sret, smodify.
  - subst k0. set (t1 := put_pending_table _ t). unfold rest.
    destruct (IH t1 Hnd) as (t' & pe & -> & [W1 W2 W3] & H1 & H2). exists t', pe. split; [done|].
    split; [by split|]. split.
    + intros j e [[= -> ->]|Hin]%elem_of_cons; [|by apply H1].
      rewrite H2 by (by right). apply get_insert_eq.
    + intros k' j Hkj. rewrite H2; [apply get_insert_ne|].
      * intros [= -> ->]. destruct Hkj as [?|Hkj]; [done|]. apply (Hkj e0). by left.
      * destruct Hkj as [?|Hkj]; [by left|right]. intros e He. apply (Hkj e). by right.
  - unfold rest. destruct (IH t Hnd) as (t' & pe & -> & W & H1 & H2). exists t', pe. split; [done|].
    split; [done|]. split.
    + intros j e [[= -> -> ->]|Hin]%elem_of_cons; [done|by apply H1].
    + intros k' j Hkj. apply H2. destruct Hkj as [?|Hkj]; [by left|right].
      intros e He. apply (Hkj e). by right.
Qed.

Lemma start_run a t :
  cache_ok m (cache_of t) (global_of t) →
  cache_update_post m peer (NCatchupStart a) t (do_update peer (NCatchupStart a) t).
Proof.
  intros Hc. unfold do_update, ArenaCache.do_update, do_mark_peer_files. unfold sbind at 1.
  unfold sbind at 1, sget. fold k.
  destruct (mark_files_run (tbl_iter (file_table_of t)) t (range_NoDup _ _ _))
    as (t' & pe & -> & [W1 W2 W3] & H1 & H2).
  assert (∀ k' j d, tbl_get (k', j) pe = Some d →
    tbl_get (k', j) (pending_table_of t) = Some d ∨
    (k' = k ∧ ∃ e, tbl_get (j, k) (file_table_of t) = Some e ∧ d = parent_inode e)) as Hpe.
  { intros k' j d Hd. destruct (decide (k' = k)) as [->|Hne]; [|left; by rewrite <- H2 by (by left)].
    destruct (tbl_get (j, k) (file_table_of t)) as [e|] eqn:E.
    - right. split; [done|]. exists e. split; [done|]. rewrite (H1 j e) in Hd by (by apply elem_of_iter). congruence.
    - left. rewrite <- H2; [done|]. right. intros e He%elem_of_iter. congruence. }
  cbn [cache_update_post sret]. split.
  - rewrite W1, W2. destruct Hc as [C1 C2 C3 C4 C5 C6 C7]. split; try done; [by apply (alloc_inv_ext _ (cache_of t))|].
    intros k' j d [Hd|(-> & e & He & ->)]%Hpe; [by apply C6|]. split; [done|].
    assert (cache_ok m (cache_of t) (global_of t)) as Hc by by split.
    pose proof (entry_top _ _ _ _ _ _ Hc He) as (_ & ? & _). split; [done|].
    intros d' n' a' Hd'. apply C4 in He as (_ & He & _).
    by destruct (do_unique _ _ C2 _ _ _ _ _ _ Hd' He eq_refl).
  - rewrite W1. split; [done|]. intros q k' Hq. unfold is_marked. split.
    + intros (i & Hi & [d Hd]). destruct (Hpe _ _ _ Hd) as [H|(-> & e & He & ->)].
      * left. exists i. by split; [|exists d].
      * right. split; [done|]. unfold seen. change (file_of (cache_of t) q = Some i) in Hi. rewrite Hi. simpl.
        unfold iview. change (cache_file_table (cache_of t)) with (file_table_of t). fold k. rewrite He. by eexists.
    + intros [(i & Hi & [d Hd])|[-> [v Hv]]].
      * exists i. split; [done|]. simpl. destruct (tbl_get (i, k) (file_table_of t)) as [e|] eqn:E.
        -- destruct (decide (k' = k)) as [->|Hne].
           ++ rewrite (H1 i e) by (by apply elem_of_iter). by eexists.
           ++ rewrite H2 by (by left). by exists d.
        -- rewrite H2; [by exists d|]. right. intros e He%elem_of_iter. congruence.
      * unfold seen in Hv. destruct (file_of (cache_of t) q) as [i|] eqn:Hi; [|done]. simpl in Hv.
        apply iview_Some in Hv as (e & He & _). exists i. split; [done|].
        simpl. fold k. rewrite (H1 i e) by (by apply elem_of_iter). by eexists.
  - rewrite W1. done.
  - exists []. split_and!; [done|simpl; lia|]. intros q Hq. by rewrite W1.
  - by rewrite W2.
Qed.

Lemma unmark_ok n c g k' i :
  cache_ok n c g →
  cache_ok n (set_cache_pending_catchup_table (tbl_remove (k', i) (cache_pending_catchup_table c)) c) g.
Proof.
  intros [C1 C2 C3 C4 C5 C6 C7]. split; [by apply (alloc_inv_ext _ c)|done..| |done].
  intros k'' j d. simpl. rewrite get_remove. case_decide; [done|]. apply C6.
Qed.

Lemma catchup_run a p mt sz h t :
  valid p → cache_ok (length (comps p) + m) (cache_of t) (global_of t) →
  cache_update_post m peer (NCatchup a p mt sz h) t (do_update peer (NCatchup a p mt sz h) t).
Proof.
  intros Hp Hc. set (n := NCatchup a p mt sz h).
  unfold do_update, ArenaCache.do_update. cbn [n]. unfold sbind at 1.
  pose proof (create_file_run p m t Hp Hc) as Hrun.
  destruct (create_file _ _ _ _ _ t) as [[[d i]|e] t2]; cbn [cache_update_post].
  2:{ destruct Hrun as (H1 & H2 & H3). split; [by apply created_failed|naive_solver]. }
  pose proof (created_progress _ _ (cf_created _ _ _ _ _ _ Hrun)) as [P1 P2].
  pose proof (cr_global _ _ (cf_created _ _ _ _ _ _ Hrun)) as Hgl.
  assert (∀ k', seen (cache_of t) p k' = iview (cache_of t2) i k') as Hold
    by (intros k'; exact (created_seen p d i m t t2 k' Hrun)).
  unfold sbind, sget, do_unmark_peer_file, do_write_file_entry, smodify. fold k.
  set (en := FileTableEntry_new p sz mt h d). set (t3 := put_file_table _ _). rewrite get_no_peer_entry.
  assert (tbl_get (i, "") (file_table_of t3) = tbl_get (i, "") (file_table_of t2)) as E3
    by (apply get_insert_ne; intros [= E0]; by apply Hk).
  set (b := bool_decide (tbl_get (i, "") (file_table_of t2) = None)).
  set (pe := tbl_remove (k, i) (pending_table_of t2)).
  assert (∃ t4 l, match tbl_get (i, "") (file_table_of t3) with
      | Some _ => sret ()
      | None => do_write_default_file_entry blob_dir i en
      end t3 = (Ok (), t4) ∧ l = (if b then [p] else []) ∧
      wrote (set_cache_pending_catchup_table pe (put_files (let f := tbl_insert (i, k) en (file_table_of t2) in
        if b then tbl_insert (i, "") en f else f) (cache_of t2))) l t2 t4) as (t4 & l & -> & El & [W1 W2 W3]).
  { rewrite E3. unfold b. destruct (tbl_get (i, "") (file_table_of t2)) as [de|].
    - exists t3, []. split; [done|]. split; [done|]. by split.
    - destruct (write_default_run i en t3) as (t4 & ? & [W1 W2 W3]). exists t4, [p].
      split; [done|]. split; [done|]. by split. }
  set (t5 := put_pending_table (pending_table_of t2) t4).
  assert (wrote (put_files (let f := tbl_insert (i, k) en (file_table_of t2) in
    if b then tbl_insert (i, "") en f else f) (cache_of t2)) l t2 t5) as Hw.
  { split; [|done|done]. change (cache_of t5) with
      (set_cache_pending_catchup_table (pending_table_of t2) (cache_of t4)). by rewrite W1. }
  destruct (peer_written_step m peer p d i t t2 t5 en b l Hrun Hp Hk eq_refl eq_refl) as
    (H1 & H2 & H3 & H4 & H5 & H6); [..|exact Hw| |].
  { unfold b. case_bool_decide as Hd; [by left|right]. by apply not_eq_None_Some. }
  { intros ->. rewrite El. by left. }
  assert (cache_of t4 = set_cache_pending_catchup_table
    (tbl_remove (k, i) (cache_pending_catchup_table (cache_of t5))) (cache_of t5)) as E4.
  { rewrite W1, (wr_cache _ _ _ _ Hw). done. }
  split.
  - rewrite E4. by apply unmark_ok.
  - split; [exact H2|]. split.
    + intros k'. change (seen (cache_of t4) p k') with (seen (cache_of t5) p k'). rewrite H3.
      unfold presented. fold k. rewrite insert_ne_default by done. rewrite (Hold ""). unfold iview, b.
      change (cache_file_table (cache_of t2)) with (file_table_of t2).
      by destruct (tbl_get (i, "") (file_table_of t2)).
    + intros q k' Hq. rewrite <- H4 by done. unfold is_marked. rewrite E4. simpl.
      assert (file_of (cache_of t5) p = Some i) as Hi.
      { unfold file_of. rewrite (wr_cache _ _ _ _ Hw). apply (cf_at _ _ _ _ _ _ Hrun). }
      assert (∀ j, file_of (cache_of t5) q = Some j → (k', j) = (k, i) ↔ q = p ∧ k' = k) as Hj.
      { intros j Ej. split; [|intros [-> ->]; congruence]. intros [= -> ->]. split; [|done].
        eapply file_at_inj; [apply H1|done|done|exact Ej|exact Hi]. }
      split.
      * intros (j & Ej & [x Hx]). rewrite get_remove in Hx. case_decide as Hd; [done|].
        split; [exists j; split; [done|by exists x]|]. intros Hqp. by apply Hd, (Hj j).
      * intros [(j & Ej & Hx) Hqp]. exists j. split; [done|]. rewrite get_remove_ne; [done|].
        intros E. apply Hqp. by apply (Hj j).
  - rewrite E4, (wr_cache _ _ _ _ Hw). unfold progress_step. simpl. rewrite P1, P2. done.
  - exists l. split_and!; [done|rewrite El; destruct b; simpl; lia|done].
  - by rewrite W2.
Qed.

Lemma connected_run a id t :
  cache_ok m (cache_of t) (global_of t) →
  cache_update_post m peer (NConnected a id) t (do_update peer (NConnected a id) t).
Proof.
  intros Hc. unfold do_update, ArenaCache.do_update. unfold sbind at 1, sget. fold k.
  assert (∀ c', cache_directory_table c' = cache_directory_table (cache_of t) →
    cache_file_table c' = cache_file_table (cache_of t) →
    cache_pending_catchup_table c' = cache_pending_catchup_table (cache_of t) →
    view_step k (NConnected a id) (cache_of t) c') as Hview.
  { intros c' E1 E2 E3. split; intros q k' _; unfold seen, is_marked, iview, file_of; by rewrite ?E1, ?E2, ?E3. }
  assert (default false ((λ e : PeerTableEntry, bool_decide (uuid e = id)) <$>
    tbl_get k (cache_peer_table (cache (tables t)))) =
    bool_decide (uuid <$> tbl_get k (cache_peer_table (cache_of t)) = Some id)) as ->.
  { unfold cache_of. destruct (tbl_get k (cache_peer_table (cache (tables t)))) as [e|]; simpl; [|done].
    apply bool_decide_ext. split; congruence. }
  case_bool_decide as E; cbn [cache_update_post]; unfold sret, sbind, smodify.
  - split; [done|]. split; [done|by apply Hview| | |done].
    + split; [done|]. by rewrite bool_decide_true.
    + exists []. split_and!; [done|simpl; lia|done].
  - split; [by apply (cache_ok_ext _ (cache_of t))|by apply Hview| | |done].
    + split; simpl.
      * intros k' Hk'. by rewrite get_insert_ne, get_remove_ne.
      * rewrite get_insert_eq, get_remove_eq, bool_decide_false by done. done.
    + exists []. split_and!; [done|simpl; lia|done].
Qed.

(** ** The end of a catchup *)

(** What removing the entry of the peer from the files of [l] does. *)
Record all_removed (l : list ((string * N) * N)) c c' (ms : list Path) : Prop := {
  ar_removed : ∀ q i, valid q → file_of c q = Some i → i ∈ ((λ x, x.1.2) <$> l) →
    dropped k None (seen c q) (seen c' q);
  ar_others : ∀ q, valid q → (∀ i, file_of c q = Some i → i ∉ ((λ x, x.1.2) <$> l)) →
    ∀ k', seen c' q k' = seen c q k';
  ar_marked : ∀ q k', valid q → is_marked c' q k' → is_marked c q k';
  ar_same : cache_pending_catchup_table c' = cache_pending_catchup_table c ∧
    cache_peer_table c' = cache_peer_table c ∧ cache_notification_table c' = cache_notification_table c;
  ar_length : (length ms ≤ length l)%nat;
  ar_marks : ∀ q, valid q → seen c' q "" ≠ seen c q "" → q ∈ ms;
}.

Lemma all_removed_cons n g x l c c1 c2 l1 ms :
  cache_ok n c g → x.1.2 ∉ ((λ x, x.1.2) <$> l) → removed_view x.1.2 k None c c1 l1 →
  all_removed l c1 c2 ms → all_removed (x :: l) c c2 (l1 ++ ms).
Proof.
  intros Hc Hx Hv [R1 R2 R3 R4 R5 R6].
  assert (∀ q i, valid q → file_of c q = Some i → i ≠ x.1.2 →
    file_of c1 q = Some i ∧ ∀ k', seen c1 q k' = seen c q k') as Hkept.
  { intros q i Hq Hi Hne. split.
    - destruct (rv_paths _ _ _ _ _ _ Hv q Hq) as [->|(E & _)]; [done|congruence].
    - intros k'. destruct (removed_seen_at _ _ _ _ _ _ q k' Hv Hq) as [-> _]. by rewrite decide_False by congruence. }
  assert (∀ q, valid q → file_of c q = Some x.1.2 → ∀ k', seen c2 q k' = seen c1 q k') as Hhit.
  { intros q Hq Hi. apply R2; [done|]. intros i Hi'.
    destruct (rv_paths _ _ _ _ _ _ Hv q Hq) as [E|(_ & E & _)]; congruence. }
  split.
  - intros q i Hq Hi. simpl. intros [->|Hin]%elem_of_cons.
    + eapply dropped_ext; [| |apply (proj1 (removed_seen _ _ _ _ _ _ _ _ q Hc Hv Hq Hi))]; [done|by apply Hhit].
    + assert (i ≠ x.1.2) as Hne by (by intros ->). destruct (Hkept q i Hq Hi Hne) as [Hi1 E].
      eapply dropped_ext; [| |apply (R1 q i Hq Hi1 Hin)]; [|done]. by intros k'; rewrite E.
  - intros q Hq Hno k'. destruct (file_of c q) as [i|] eqn:Hi.
    + specialize (Hno i eq_refl). apply not_elem_of_cons in Hno as [Hne Hnin].
      destruct (Hkept q i Hq Hi Hne) as [Hi1 E]. rewrite R2, E; [done|done|]. intros j. rewrite Hi1. by intros [= <-].
    + destruct (rv_paths _ _ _ _ _ _ Hv q Hq) as [Ep|(E & _)]; [|congruence].
      rewrite R2; [|done|rewrite Ep, Hi; done]. unfold seen. by rewrite Ep, Hi.
  - intros q k' Hq Hm. apply R3 in Hm; [|done]. by destruct (removed_seen_at _ _ _ _ _ _ q k' Hv Hq) as (_ & H & _); apply H.
  - destruct R4 as (-> & -> & ->). destruct (rv_same _ _ _ _ _ _ Hv) as (? & ? & ? & _). done.
  - rewrite length_app. destruct (rv_marks _ _ _ _ _ _ Hv) as (? & _). simpl. lia.
  - intros q Hq Hne. apply elem_of_app. destruct (decide (q ∈ ms)) as [?|Hn]; [by right|left].
    eapply (removed_marks n g); [done|exact Hv|done|]. intros E. apply Hn, R6; [done|]. by rewrite E.
Qed.

Lemma rm_all_run (l : list ((string * N) * N)) t :
  cache_ok m (cache_of t) (global_of t) → NoDup ((λ x, x.1.2) <$> l) →
  (∀ x, x ∈ l → x.1.2 + 1 < u64_modulus ∧
     ∀ e, tbl_get (x.1.2, k) (file_table_of t) = Some e → parent_inode e = x.2) →
  ∃ t' ms, (sfor l (λ elt, do_rm_file_entry blob_dir now hash_order elt.2 elt.1.2 peer None) : TxnM ()) t
             = (Ok (), t') ∧
    cache_ok m (cache_of t') (global_of t') ∧ wrote (cache_of t') ms t t' ∧
    all_removed l (cache_of t) (cache_of t') ms.
Proof.
  revert t. induction l as [|x l IH]; intros t Hc Hnd Hl.
  { exists t, []. split; [done|]. split; [done|]. split; [by split|].
    split; try done. by intros q i _ _ ?%not_elem_of_nil. }
  simpl in Hnd. apply NoDup_cons in Hnd as [Hx Hnd].
  destruct (Hl x ltac:(by left)) as [Hx64 Hpar].
  destruct (rm_run m x.2 x.1.2 peer None t Hc Hk Hx64) as (t1 & c1 & l1 & Hrun & [W1 W2 W3] & Hrm).
  pose proof (removed_view_of _ _ _ _ _ _ _ _ _ Hc Hk Hrm Hpar) as Hv.
  pose proof (removed_ok _ _ _ _ _ _ _ _ _ Hc Hk Hrm Hpar) as Hok. rewrite <- W1, <- W2 in Hok. subst c1.
  destruct (IH t1 Hok Hnd) as (t2 & ms & Hrun2 & Hok2 & [_ W5 W6] & Har).
  { intros y Hy. destruct (Hl y ltac:(by right)) as [Hy64 Hy2]. split; [done|]. intros e He. apply Hy2.
    unfold file_table_of. fold (cache_of t). rewrite <- (rv_files _ _ _ _ _ _ Hv); [done|].
    intros E. apply Hx. apply list_elem_of_fmap. by exists y. }
  exists t2, (l1 ++ ms). cbn [sfor]. unfold sbind. rewrite Hrun. split; [exact Hrun2|]. split; [done|]. split.
  - split; [done|by rewrite W5|]. rewrite W6, W3. unfold marks. by rewrite foldl_app.
  - by eapply all_removed_cons.
Qed.

(** The pending entries of the peer, taken out of the table. *)
Lemma extract_marked c (n0 : nat) g :
  cache_ok n0 c g →
  let r := tbl_extract_from_if (Included (k, Id.ZERO)) (Included (k, Id.MAX)) (λ _ _, true)
             (cache_pending_catchup_table c) in
  (∀ k' i d, ((k', i), d) ∈ r.1 ↔ k' = k ∧ tbl_get (k, i) (cache_pending_catchup_table c) = Some d) ∧
  NoDup ((λ x, x.1.2) <$> r.1) ∧ (length r.1 ≤ length (tbl_iter (cache_pending_catchup_table c)))%nat ∧
  (∀ k' i, tbl_get (k', i) r.2 = if decide (k' = k) then None else tbl_get (k', i) (cache_pending_catchup_table c)).
Proof.
  intros Hc r. destruct (extract_from_if_spec (Included (k, Id.ZERO)) (Included (k, Id.MAX)) (λ _ _, true)
    (cache_pending_catchup_table c)) as [H1 H2]. fold r in H1, H2.
  assert (∀ i d, tbl_get (k, i) (cache_pending_catchup_table c) = Some d → i ≤ Id.MAX) as Hmax.
  { intros i d (_ & Hi & _)%(co_pending _ _ _ Hc). pose proof (top_last _ _ _ (co_alloc _ _ _ Hc)).
    pose proof (ai_room _ _ _ (co_alloc _ _ _ Hc)). unfold Id.MAX, u64_max, u64_modulus in *. lia. }
  assert (∀ k' i d, ((k', i), d) ∈ r.1 ↔ k' = k ∧ tbl_get (k, i) (cache_pending_catchup_table c) = Some d) as Hin.
  { intros k' i d. rewrite H1, list_elem_of_filter, elem_of_range, in_range_snd. split.
    - by intros (_ & H & -> & _).
    - intros [-> H]. pose proof (Hmax _ _ H). split_and!; try done. unfold Id.ZERO. lia. }
  assert (NoDup r.1.*1) as Hnd by (rewrite H1; by apply NoDup_fst_filter, range_NoDup).
  split_and!; [done| | |].
  - assert (((λ x : (string * N) * N, x.1.2) <$> r.1) = snd <$> r.1.*1) as -> by (by rewrite <- list_fmap_compose).
    apply NoDup_fmap_2_strong; [|done]. intros [a i] [b j] Ha Hb E. simpl in E. subst j.
    apply list_elem_of_fmap in Ha as ([[??] d] & [= -> ->] & Ha), Hb as ([[??] d'] & [= -> ->] & Hb).
    apply Hin in Ha as [-> _], Hb as [-> _]. done.
  - apply submseteq_length, NoDup_submseteq; [by apply (NoDup_fmap_1 fst)|].
    intros [[k' i] d] [-> H]%Hin. by apply elem_of_iter.
  - intros k' i. rewrite H2. destruct (tbl_get (k', i) (cache_pending_catchup_table c)) as [d|] eqn:E;
      cbn [mbind option_bind]; [|by destruct (decide (k' = k))]. rewrite andb_true_r.
    destruct (decide (k' = k)) as [Ek|Ek].
    + rewrite bool_decide_true; [done|]. rewrite Ek in *. apply in_range_snd.
      pose proof (Hmax _ _ E). unfold Id.ZERO. split_and!; [done|lia|done].
    + rewrite bool_decide_false; [done|]. by rewrite in_range_snd; intros [? _].
Qed.

Lemma complete_run a index t :
  cache_ok m (cache_of t) (global_of t) →
  cache_update_post m peer (NCatchupComplete a index) t (do_update peer (NCatchupComplete a index) t).
Proof.
  intros Hc. set (n := NCatchupComplete a index).
  unfold do_update, ArenaCache.do_update, do_delete_marked_files. cbn [n]. unfold sbind at 1.
  unfold sbind at 1, sget. fold k.
  destruct (extract_marked _ _ _ Hc) as (Hin & Hnd & Hlen & Hpe). unfold cache_of in Hin, Hnd, Hlen, Hpe.
  unfold pending_table_of. destruct (tbl_extract_from_if _ _ _ _) as [marked pe] in *. cbn [fst snd] in *.
  unfold sbind at 1, smodify. set (t1 := put_pending_table pe t).
  assert (cache_ok m (cache_of t1) (global_of t1)) as Hc1.
  { destruct Hc as [C1 C2 C3 C4 C5 C6 C7]. split; try done; [by apply (alloc_inv_ext _ (cache_of t))|].
    intros k' i d. simpl. rewrite Hpe. case_decide; [done|]. apply C6. }
  destruct (rm_all_run marked t1 Hc1 Hnd) as (t2 & ms & -> & Hok & [_ W2 W3] & [R1 R2 R3 R4 R5 R6]).
  { intros [[k' i] d] [-> Hd]%Hin. simpl.
    pose proof (co_pending _ _ _ Hc _ _ _ Hd) as (_ & Hi & Hdir). split.
    - pose proof (top_last _ _ _ (co_alloc _ _ _ Hc)). pose proof (ai_room _ _ _ (co_alloc _ _ _ Hc)). lia.
    - intros e He. apply (co_entry _ _ _ Hc) in He as (_ & He & _). by eapply Hdir. }
  fold (noted peer index t2). cbn [cache_update_post sret].
  assert (∀ q k', is_marked (cache_of t1) q k' ↔ is_marked (cache_of t) q k' ∧ k' ≠ k) as Hm1.
  { intros q k'. unfold is_marked. simpl. split.
    - intros (i & Hi & Hx). rewrite Hpe in Hx. case_decide; [by destruct Hx|]. split; [by exists i|done].
    - intros [(i & Hi & Hx) Hne]. exists i. split; [done|]. by rewrite Hpe, decide_False. }
  assert (∀ q i, file_of (cache_of t) q = Some i →
    i ∈ ((λ x : (string * N) * N, x.1.2) <$> marked) ↔ is_marked (cache_of t) q k) as Hm.
  { intros q i Hi. rewrite list_elem_of_fmap. split.
    - intros ([[k' j] d] & -> & [-> Hd]%Hin). exists j. split; [done|by exists d].
    - intros (j & Hj & [d Hd]). exists ((k, j), d). split; [simpl; congruence|]. by apply Hin. }
  split.
  - by apply noted_ok.
  - split.
    + intros q Hq. split.
      * intros Hmk. pose proof Hmk as (i & Hi & _). apply (R1 q i Hq Hi). by apply (Hm q).
      * intros Hno k'. apply R2; [done|]. intros i Hi Hx. apply Hno. by apply (Hm q i).
    + intros q k' Hq H. by apply Hm1, R3.
  - destruct R4 as (_ & E1 & E2). unfold progress_step. split.
    + intros k' Hk'. simpl. fold (cache_of t2). rewrite E1, E2. split; [done|by apply get_insert_ne].
    + simpl. fold (cache_of t2). rewrite E1. split; [done|apply get_insert_eq].
  - exists ms. split_and!; [done| |done]. etrans; [exact R5|exact Hlen].
  - assert (global_grows (global_of t1) (global_of t2)) as Hg by (by rewrite W2). exact Hg.
Qed.

(** ** [update] *)

Definition inodes_needed (n : Notification) : nat :=
  match n with
  | NAdd _ _ p _ _ _ | NReplace _ _ p _ _ _ _ | NCatchup _ p _ _ _ => length (comps p)
  | _ => 0
  end.

Lemma do_update_run n t :
  (∀ p, notification_path n = Some p → valid p) →
  cache_ok (inodes_needed n + m) (cache_of t) (global_of t) →
  cache_update_post m peer n t (do_update peer n t).
Proof.
  intros Hp Hc. destruct n; cbn [inodes_needed notification_path Nat.add] in *.
  - apply add_run; auto.
  - apply replace_run; auto.
  - apply (unlink_run _ index path old_hash); auto. by intros c c' *; simpl; auto.
  - apply (unlink_run _ index path old_hash); auto. by intros c c' *; simpl; auto.
  - by apply start_run.
  - apply catchup_run; auto.
  - by apply complete_run.
  - by apply connected_run.
Qed.
End notifications.
End cache_inv.
