(* ===== verification/CacheSpec.v ===== *)
(** * Properties of the arena cache

    [ArenaCache.update] refines [view_step] and maintains [cache_ok], whatever
    notifications the peers send; every change of a version that is presented
    marks its path dirty; a complete catchup leaves exactly the files it listed.

    The last section shows what a catchup does not do: the version that is
    presented stays the one that was there before. *)
From Stdlib Require Import Strings.Byte.
From stdpp Require Import functions.
From S2P Require Import Prelude Range RangeSet Redb Path Types Db Dirty InodeAllocator Blob Dirs ArenaCache CacheInv.
Local Open Scope N_scope.
Local Open Scope realize_scope.

Section cache_spec.
Context {R : Redb} {B : Bimap} `{!RedbLaws R, !BimapLaws B}.
Context (arena : Arena) (arena_root : Inode) (roots : bimap) (blob_dir : string) (now : UnixTime).
Context (hash_order : list (string * FileTableEntry) → list (string * FileTableEntry)).
Context (hash_order_perm : ∀ l, hash_order l ≡ₚ l).
Context (Hroot : InodeAllocator.arena_root roots arena = Some arena_root).
Implicit Types (w : World) (i : Inode) (k : string) (p q : Path) (m : nat).

Let update := update arena arena_root roots blob_dir now hash_order.
Let cache_ok := cache_ok arena_root.
Let seen := seen arena_root.
Let is_marked := is_marked arena_root.

Definition cache_at w : CacheTables := cache (db w).
Definition global_at w : GlobalTables := global (w_ext w).

(** Names and paths that can come in a notification. *)
Definition well_formed (peer : Peer) (n : Notification) : Prop :=
  peer_name peer ≠ "" ∧ ∀ p, notification_path n = Some p → valid p.

(** What [update] does to the world. *)
Record update_ok m peer n w w' : Prop := {
  uo_ok : cache_ok m (cache_at w') (global_at w');
  uo_view : view_step arena_root (peer_name peer) n (cache_at w) (cache_at w');
  uo_progress : progress_step (peer_name peer) n (cache_at w) (cache_at w');
  uo_dirty : ∃ l, dirty (db w') = marks l (dirty (db w)) ∧
    (length l ≤ dirty_bound n (cache_at w))%nat ∧
    ∀ q, valid q → seen (cache_at w') q "" ≠ seen (cache_at w) q "" → q ∈ l;
  uo_global : global_grows (global_at w) (global_at w');
}.

Lemma cache_ok_global m m' c c' g g' :
  cache_ok m c g → alloc_inv arena_root m' c' g' →
  (∀ i r, owner g i = Some r → owner g' i = Some r) → cache_ok m' c g'.
Proof.
  intros [C1 C2 C3 C4 C5 C6 C7] [A1 A2 A3 A4 A5] Ho. split; try done.
  - destruct C1 as [B1 B2 B3 B4 B5]. split; try done. intros cur end_ E. destruct (B1 _ _ E) as (? & ? & ? & ?). split_and!; auto.
  - intros d n e He. by eapply Ho, C7.
Qed.

Lemma cache_update_run m peer n w :
  well_formed peer n → cache_ok (inodes_needed n + m) (cache_at w) (global_at w) →
  match update peer n w with
  | (Ok _, w') => update_ok m peer n w w'
  | (Err e, w') => db w' = db w ∧ cache_ok m (cache_at w') (global_at w') ∧
                   (e = NotADirectory ∨ e = IsADirectory ∨ e = NotFound) ∧
                   global_grows (global_at w) (global_at w')
  end.
Proof.
  intros [Hk Hp] Hc. unfold update, ArenaCache.update, write_txn.
  pose proof (do_update_run arena arena_root roots blob_dir now hash_order hash_order_perm Hroot m
    peer Hk n (begin_write w) Hp Hc) as H.
  destruct (do_update _ _ _ _ _ _ peer n (begin_write w)) as [[[[]|[]]|e] t]; cbn [cache_update_post] in H.
  - destruct H as [H1 H2 H3 (l & H4 & H5) H6]. unfold cache_of, global_of in *.
    split; unfold cache_at, global_at; rewrite ?commit_db, ?commit_ext; [done..|by exists l|done].
  - destruct H as [-> [H1 H2 H3 H4 H5]]. by split.
  - destruct H as [[H1 H2] H3]. split; [done|]. split; [|done].
    exact (cache_ok_global _ _ _ _ _ _ Hc H1 (gg_owner _ _ H2)).
Qed.

(** ** Reachable states *)

(** The states of the cache of an arena after any sequence of notifications from
    its peers, some of which fail, while the other arenas allocate inodes too.
    The number bounds the directories and files that can still be created. *)
Inductive cache_reachable w0 : nat → World → Prop :=
| reach_init m : cache_ok m (cache_at w0) (global_at w0) → cache_reachable w0 m w0
| reach_update m peer n w r w' :
    cache_reachable w0 (inodes_needed n + m) w → well_formed peer n →
    update peer n w = (r, w') → cache_reachable w0 m w'
| reach_other m m' w g :
    cache_reachable w0 m w → (∀ i r, owner (global_at w) i = Some r → owner g i = Some r) →
    last_end (global_at w) ≤ last_end g → last_end g + 1 + 10000 * N.of_nat m' < u64_modulus →
    cache_reachable w0 m'
      {| db := db w; w_ext := {| fs := fs (w_ext w); global := g |};
         watch_tx := watch_tx w; history_tx := history_tx w |}.

Lemma reachable_ok w0 m w : cache_reachable w0 m w → cache_ok m (cache_at w) (global_at w).
Proof.
  induction 1 as [m H|m peer n w r w' _ IH Hwf Hu|m m' w g _ IH Ho Hl Hroom]; [done|..].
  - pose proof (cache_update_run _ _ _ _ Hwf IH) as H. rewrite Hu in H. destruct r; [apply H|apply H].
  - eapply (cache_ok_global _ _ _ (cache_at w)); [exact IH| |exact Ho].
    destruct (co_alloc _ _ _ _ IH) as [A1 A2 A3 A4 A5]. unfold global_at in *. simpl.
    split; [|lia..]. intros cur end_ E. destruct (A1 _ _ E) as (? & ? & ? & ?). split_and!; auto.
Qed.

Lemma seen_default m c g q :
  cache_ok m c g → is_Some (seen c q "") ↔ ∃ k, k ≠ "" ∧ is_Some (seen c q k).
Proof.
  intros Hc. unfold seen, CacheInv.seen. destruct (file_of arena_root c q) as [i|]; simpl.
  - unfold iview. setoid_rewrite fmap_is_Some. apply Hc.
  - split; [by intros [??]|]. by intros (k & _ & [??]).
Qed.

(** C20: in every reachable state the cache is consistent: a version of a file is
    presented exactly when a peer has the file; every entry belongs to the file
    of its own path, is in the directory it names and its path is valid; no two
    valid paths share an inode. *)
Theorem cache_reachable_inv w0 m w (Hw : cache_reachable w0 m w) :
  let c := cache_at w in
  (∀ q, valid q → is_Some (seen c q "") ↔ ∃ k, k ≠ "" ∧ is_Some (seen c q k)) ∧
  (∀ i k e, tbl_get (i, k) (cache_file_table c) = Some e →
     valid (fc_path (content e)) ∧
     seen c (fc_path (content e)) k = Some (version e) ∧
     do_lookup_path (cache_directory_table c) arena_root (Some (fc_path (content e))) = Ok (i, AFile) ∧
     get_dir_entry (cache_directory_table c) (parent_inode e) (Path.name (fc_path (content e))) =
       Some {| rd_inode := i; assignment := AFile |}) ∧
  (∀ p q i a b, valid p → valid q →
     do_lookup_path (cache_directory_table c) arena_root (Some p) = Ok (i, a) →
     do_lookup_path (cache_directory_table c) arena_root (Some q) = Ok (i, b) → p = q).
Proof.
  pose proof (reachable_ok _ _ _ Hw) as Hc. intros c. subst c. split_and!.
  - intros q _. by eapply seen_default.
  - intros i k e He. destruct (co_entry _ _ _ _ Hc _ _ _ He) as (H1 & H2 & H3). split_and!; [done| | |].
    + unfold seen, CacheInv.seen. rewrite H3. simpl. by apply iview_get.
    + revert H3. unfold file_of, file_at, resolve, do_lookup_path. fold (comps (fc_path (content e))).
      unfold comps. destruct (lookup_components _ _ _) as [[j []]|]; congruence.
    + unfold get_dir_entry. by rewrite H2.
  - intros p q i a b Hp%valid_comps Hq%valid_comps H1 H2. apply comps_inj.
    eapply (resolve_inj arena_root); [apply Hc|done|done|exact H1|exact H2].
Qed.

(** ** One notification *)

(** C1: [ArenaCache::update] does to what is seen of the files, to the marks of a
    catchup and to the progress of the peer exactly what the specification says
    ([view_step], [progress_step]), and keeps the cache consistent; when it fails
    (a path component that is a file, a path that is a directory or is not
    there), the database is unchanged. *)
Theorem update_refines m peer n w
  (Hwf : well_formed peer n) (Hc : cache_ok (inodes_needed n + m) (cache_at w) (global_at w)) :
  match update peer n w with
  | (Ok _, w') =>
      cache_ok m (cache_at w') (global_at w') ∧
      view_step arena_root (peer_name peer) n (cache_at w) (cache_at w') ∧
      progress_step (peer_name peer) n (cache_at w) (cache_at w')
  | (Err e, w') => db w' = db w ∧ cache_ok m (cache_at w') (global_at w') ∧
                   (e = NotADirectory ∨ e = IsADirectory ∨ e = NotFound)
  end.
Proof.
  pose proof (cache_update_run m peer n w Hwf Hc) as H. destruct (update peer n w) as [[[]|e] w'].
  - by destruct H as [H1 H2 H3 _ _].
  - by destruct H as (H1 & H2 & H3 & _).
Qed.

(** C35: a path whose presented version changes, appears or disappears is marked
    dirty in the same transaction, under a new counter, so that the engine looks
    at it again; no other mark is lost. *)
Theorem update_marks_dirty m peer n w w'
  (Hwf : well_formed peer n) (Hc : cache_ok (inodes_needed n + m) (cache_at w) (global_at w))
  (Hd : dirty_inv (dirty (db w)))
  (Hroom : last_counter (dirty (db w)) + N.of_nat (dirty_bound n (cache_at w)) < u64_modulus)
  (Hu : update peer n w = (Ok tt, w')) :
  dirty_inv (dirty (db w')) ∧
  (∀ q, valid q → seen (cache_at w') q "" ≠ seen (cache_at w) q "" →
     ∃ c, get_dirty (dirty (db w')) q = Some c ∧ last_counter (dirty (db w)) < c) ∧
  (∀ q, is_Some (get_dirty (dirty (db w)) q) → is_Some (get_dirty (dirty (db w')) q)).
Proof.
  pose proof (cache_update_run m peer n w Hwf Hc) as H. rewrite Hu in H.
  destruct H as [_ _ _ (l & -> & Hlen & Hl) _].
  destruct (marks_spec l (dirty (db w)) Hd ltac:(lia)) as [Hd' [M1 M2 _]]. split_and!; [done| |].
  - intros q Hq Hne. apply M1, list_elem_of_fmap_2, (Hl q Hq Hne).
  - intros q Hq. unfold get_dirty in *. destruct (decide (as_str q ∈ as_str <$> l)) as [Hin|Hn].
    + destruct (M1 _ Hin) as (c & -> & _). by eexists.
    + by rewrite M2.
Qed.

(** ** A catchup *)

Definition catchup_notifications (files : list (Path * Version)) (index : N) : list Notification :=
  NCatchupStart arena ::
  ((λ '(p, v), NCatchup arena p (mtime v.1) (size v.1) v.2) <$> files) ++
  [NCatchupComplete arena index].

Lemma dropped_key k old f f' : k ≠ "" → dropped k old f f' →
  (old = None → f' k = None) ∧ ∀ k', k' ≠ "" → k' ≠ k → f' k' = f k'.
Proof.
  intros Hk H. destruct H as [H1 H2|v H1 H2 H3 H4|v dv k' v' H1 H2 H3 H4 H5 H6 H7 H8|
    v k' v' H1 H2 H3 H4 H5 H6 H7 H8]; (split; [intros ->|intros k1 N1 N2]).
  - rewrite H2. destruct (f k) as [v|] eqn:E; [|done]. by destruct (H1 v eq_refl) as (h & ? & _).
  - apply H2.
  - apply H4.
  - by rewrite H4, H3.
  - by rewrite H8, fn_lookup_insert.
  - by rewrite H8, fn_lookup_insert_ne.
  - by rewrite H8, fn_lookup_insert_ne, fn_lookup_insert by done.
  - by rewrite H8, !fn_lookup_insert_ne by done.
Qed.

Lemma presented_key v f k : k ≠ "" → presented v f k = f k.
Proof. unfold presented. intros. destruct (f ""); [done|]. by rewrite fn_lookup_insert_ne. Qed.

(** During the catchup: the files listed so far are as they were listed; the
    others of the peer are marked. *)
Record listed k (done : list (Path * Version)) c0 c : Prop := {
  li_done : ∀ q v, valid q → (q, v) ∈ done → seen c q k = Some v ∧ ¬ is_marked c q k;
  li_marked : ∀ q, valid q → (∀ v, (q, v) ∉ done) → is_Some (seen c q k) → is_marked c q k;
  li_others : ∀ q k', valid q → k' ≠ "" → k' ≠ k → seen c q k' = seen c0 q k';
}.

Lemma listed_step k p v done a c0 c c' :
  k ≠ "" → valid p → (∀ v, (p, v) ∉ done) → listed k done c0 c →
  view_step arena_root k (NCatchup a p (mtime v.1) (size v.1) v.2) c c' →
  listed k ((p, v) :: done) c0 c'.
Proof.
  intros Hk Hp Hnew [L1 L2 L3] (V1 & V2 & V3). assert (({| size := size v.1; mtime := mtime v.1 |}, v.2) = v)
    as Ev by (by destruct v as [[] ?]). rewrite Ev in V2. split.
  - intros q v' Hq [[= -> ->]|Hin]%elem_of_cons.
    + split; [|by intros [_ H]%V3; [apply H|]]. unfold seen.
      rewrite V2, presented_key by done. apply fn_lookup_insert.
    + assert (q ≠ p) as Hne by (intros ->; by eapply Hnew). destruct (L1 q v' Hq Hin) as [E Hm]. split.
      * rewrite <- E. by apply V1.
      * intros [H _]%V3; [done|done].
  - intros q Hq Hno Hs. assert (q ≠ p) as Hne by (intros ->; apply (Hno v); left).
    apply V3; [done|]. split; [|by intros [? _]]. apply L2; [done| |].
    + intros v' H. apply (Hno v'). by right.
    + unfold seen in Hs. by rewrite V1 in Hs.
  - intros q k' Hq H1 H2. rewrite <- L3 by done. destruct (decide (q = p)) as [->|Hne]; [|by apply V1].
    unfold seen. rewrite V2, presented_key by done. by apply fn_lookup_insert_ne.
Qed.

Definition catchup_of (x : Path * Version) : Notification :=
  NCatchup arena x.1 (mtime x.2.1) (size x.2.1) x.2.2.

Definition depths (files : list (Path * Version)) : nat :=
  sum_list ((λ x, length (comps x.1)) <$> files).

Lemma catchups_run m peer files done c0 index w w' :
  peer_name peer ≠ "" → NoDup files.*1 → (∀ x, x ∈ files → valid x.1 ∧ ∀ v, (x.1, v) ∉ done) →
  cache_ok (depths files + m) (cache_at w) (global_at w) →
  listed (peer_name peer) done c0 (cache_at w) →
  sfor ((catchup_of <$> files) ++ [NCatchupComplete arena index]) (update peer) w = (Ok tt, w') →
  ∃ w1 done', (∀ x, x ∈ done' ↔ x ∈ files ∨ x ∈ done) ∧
    listed (peer_name peer) done' c0 (cache_at w1) ∧
    cache_ok m (cache_at w1) (global_at w1) ∧
    update peer (NCatchupComplete arena index) w1 = (Ok tt, w').
Proof.
  intros Hk. revert done w. induction files as [|x files IH]; intros done w Hnd Hf Hc Hl Hrun.
  - exists w, done. split_and!; [set_solver|done|done|]. simpl in Hrun. unfold sbind in Hrun.
    by destruct (update peer (NCatchupComplete arena index) w) as [[[]|e] w2].
  - simpl in Hnd, Hrun. apply NoDup_cons in Hnd as [Hx Hnd]. destruct (Hf x ltac:(by left)) as [Hv Hnew].
    assert (well_formed peer (catchup_of x)) as Hwf by (split; [done|by intros p [= <-]]).
    unfold depths in Hc. simpl in Hc. rewrite <- Nat.add_assoc in Hc.
    pose proof (cache_update_run (depths files + m) peer (catchup_of x) w Hwf Hc) as H.
    unfold sbind in Hrun. destruct (update peer (catchup_of x) w) as [[[]|e] w1]; [|done].
    destruct H as [H1 H2 _ _ _].
    destruct (IH (x :: done) w1 Hnd) as (w2 & done' & E & ?); [|done| |done|].
    + intros y Hy. destruct (Hf y ltac:(by right)) as [Hv' Hnew']. split; [done|].
      intros v [E|H]%elem_of_cons; [|by apply (Hnew' v)]. apply Hx. apply list_elem_of_fmap.
      exists y. split; [|done]. by rewrite <- E.
    + destruct x as [p v]. by eapply (listed_step _ p v done arena c0 (cache_at w)).
    + exists w2, done'. split; [|done]. intros y. rewrite E. set_solver.
Qed.

Lemma marked_dec c q k : is_marked c q k ∨ ¬ is_marked c q k.
Proof.
  unfold is_marked, CacheInv.is_marked. destruct (file_of arena_root c q) as [i|].
  - destruct (tbl_get (k, i) (cache_pending_catchup_table c)) as [d|] eqn:E.
    + left. exists i. by rewrite E.
    + right. intros (j & [= <-] & [d Hd]). by rewrite E in Hd.
  - right. by intros (j & ? & _).
Qed.

Lemma catchup_run_all m peer (files : list (Path * Version)) index w w'
  (Hk : peer_name peer ≠ "") (Hnd : NoDup files.*1) (Hv : Forall (λ x, valid x.1) files)
  (Hc : cache_ok (depths files + m) (cache_at w) (global_at w))
  (Hrun : sfor (catchup_notifications files index) (update peer) w = (Ok tt, w')) :
  cache_ok m (cache_at w') (global_at w') ∧
  (∀ q v, valid q → seen (cache_at w') q (peer_name peer) = Some v ↔ (q, v) ∈ files) ∧
  (∀ q k, valid q → k ≠ "" → k ≠ peer_name peer →
     seen (cache_at w') q k = seen (cache_at w) q k) ∧
  (∀ q, is_Some (seen (cache_at w') q "") ↔ ∃ k, k ≠ "" ∧ is_Some (seen (cache_at w') q k)) ∧
  tbl_get (peer_name peer) (cache_notification_table (cache_at w')) = Some index.
Proof.
  assert (catchup_notifications files index = NCatchupStart arena :: (catchup_of <$> files) ++
    [NCatchupComplete arena index]) as En.
  { unfold catchup_notifications. do 2 f_equal. apply list_fmap_ext. by intros _ [p v] _. }
  rewrite En in Hrun. cbn [sfor] in Hrun. unfold sbind in Hrun.
  pose proof (cache_update_run (depths files + m) peer (NCatchupStart arena) w) as H.
  destruct (update peer (NCatchupStart arena) w) as [[[]|e] w0]; [|done].
  destruct H as [H1 [H2 H3] _ _ _]; [by split|done|].
  destruct (catchups_run m peer files [] (cache_at w) index w0 w' Hk Hnd) as
    (w1 & ds & Ed & [L1 L2 L3] & Hc1 & Hlast); [|done| |done|].
  { intros x Hx. rewrite Forall_forall in Hv. split; [by apply Hv|]. by intros v ?%not_elem_of_nil. }
  { split; [by intros ??? ?%not_elem_of_nil| |by intros q k' Hq _ _; apply H2].
    intros q Hq _ Hs. apply H3; [done|]. right. split; [done|]. unfold seen in *.
    rewrite H2 in Hs by done. done. }
  assert (well_formed peer (NCatchupComplete arena index)) as Hwf by (by split).
  pose proof (cache_update_run m peer _ w1 Hwf Hc1) as H. rewrite Hlast in H.
  destruct H as [U1 [U2 _] [_ [_ U3]] _ _]. split_and!; [done| | |by intros q; eapply seen_default|done].
  - intros q v Hq. destruct (U2 q Hq) as [D1 D2]. split.
    + intros Hs. destruct (marked_dec (cache_at w1) q (peer_name peer)) as [Hm|Hm].
      * pose proof (proj1 (dropped_key _ _ _ _ Hk (D1 Hm)) eq_refl) as E. unfold seen in Hs. congruence.
      * assert (seen (cache_at w1) q (peer_name peer) = Some v) as Hs1 by (rewrite <- Hs; symmetry; by apply D2).
        destruct (decide (q ∈ files.*1)) as [Hin|Hno].
        -- apply list_elem_of_fmap in Hin as ([q' v'] & -> & Hin).
           destruct (L1 q' v' Hq) as [E _]; [apply Ed; by left|]. simpl in *. congruence.
        -- destruct Hm. apply L2; [done| |by eexists]. intros v' [H|H]%Ed; [|by apply not_elem_of_nil in H].
           apply Hno, list_elem_of_fmap. by exists (q, v').
    + intros Hin. destruct (L1 q v Hq) as [E Hm]; [apply Ed; by left|]. rewrite <- E. by apply D2.
  - intros q k Hq H1' H2'. rewrite <- (L3 q k) by done. destruct (U2 q Hq) as [D1 D2].
    destruct (marked_dec (cache_at w1) q (peer_name peer)) as [Hm|Hm]; [|by apply D2].
    by apply (dropped_key _ _ _ _ Hk (D1 Hm)).
Qed.

(** C12: a complete catchup synchronises the cache with the peer: whatever was known
    of the peer before, what is seen of it afterwards is exactly the list of
    files it sent, the other peers' versions are untouched, a file is presented
    if and only if a peer has it, and the progress is the index of the list. *)
Theorem catchup_synchronises m peer (files : list (Path * Version)) index w w'
  (Hk : peer_name peer ≠ "") (Hnd : NoDup files.*1) (Hv : Forall (λ x, valid x.1) files)
  (Hc : cache_ok (depths files + m) (cache_at w) (global_at w))
  (Hrun : sfor (catchup_notifications files index) (update peer) w = (Ok tt, w')) :
  cache_ok m (cache_at w') (global_at w') ∧
  (∀ q v, valid q → seen (cache_at w') q (peer_name peer) = Some v ↔ (q, v) ∈ files) ∧
  (∀ q k, valid q → k ≠ "" → k ≠ peer_name peer →
     seen (cache_at w') q k = seen (cache_at w) q k) ∧
  (∀ q, is_Some (seen (cache_at w') q "") ↔ ∃ k, k ≠ "" ∧ is_Some (seen (cache_at w') q k)) ∧
  tbl_get (peer_name peer) (cache_notification_table (cache_at w')) = Some index.
Proof. by eapply catchup_run_all. Qed.

(** ** Where a file is available *)

Lemma default_first f i de :
  i + 1 < u64_modulus → tbl_get (i, "") f = Some de →
  ∃ rest, inode_entries f i = ((i, ""), de) :: rest ∧
    ∀ j k e, ((j, k), e) ∈ rest ↔ j = i ∧ k ≠ "" ∧ tbl_get (i, k) f = Some e.
Proof.
  intros Hi Hde. assert (StronglySorted key_lt (inode_entries f i).*1) as Hs by apply range_sorted.
  pose proof (λ k e, elem_of_inode_entries f i i k e Hi) as Hin.
  assert (∀ y, y ∈ inode_entries f i → y.1.1 = i) as Hown.
  { intros [[j k] e] H. by apply elem_of_inode_entries in H as [-> _]. }
  destruct (inode_entries f i) as [|y l] eqn:El.
  { exfalso. apply (not_elem_of_nil ((i, ""), de)). by apply Hin. }
  assert (y = ((i, ""), de)) as ->.
  { pose proof (proj2 (Hin "" de) (conj eq_refl Hde)) as H. apply elem_of_cons in H as [->|H]; [done|].
    simpl in Hs. apply StronglySorted_inv in Hs as [_ Hy]. rewrite Forall_forall in Hy.
    assert (key_lt y.1 (i, "")) as Hlt by (apply Hy, list_elem_of_fmap; by exists ((i, ""), de)).
    exfalso. apply key_lt_le in Hlt as [Hle Hne]. specialize (Hown y ltac:(by left)).
    destruct y as [[j k] e]. simpl in Hown. subst j. apply Hne. simpl. f_equal.
    destruct Hle as [[H1 _]|[_ H1]]; [done|]. apply (anti_symm key_le); [exact H1|apply empty_le]. }
  exists l. split; [done|]. intros j k e. simpl in Hs. split.
  - intros H. specialize (Hown ((j, k), e) ltac:(by right)). simpl in Hown. subst j.
    destruct (proj1 (Hin k e) ltac:(by right)) as [_ ?]. split_and!; [done| |done]. intros ->.
    apply sorted_keys_NoDup, NoDup_cons in Hs as [Hn _]. apply Hn, list_elem_of_fmap. by exists ((i, ""), e).
  - intros (-> & Hk & H).
    pose proof (proj2 (Hin k e) (conj eq_refl H)) as [E|?]%elem_of_cons; [congruence|done].
Qed.

Lemma availability_run m c g i
  (Hc : cache_ok m c g) (Hi : i + 1 < u64_modulus) :
  match do_file_availability c i arena with
  | Ok av =>
      ∃ de, tbl_get (i, "") (cache_file_table c) = Some de ∧
        av_arena av = arena ∧ av_path av = fc_path (content de) ∧
        (av_metadata av, av_hash av) = version de ∧ av_peers av ≠ [] ∧
        ∀ peer, peer ∈ av_peers av ↔
          peer_name peer ≠ "" ∧ hash_is (av_hash av) (iview c i (peer_name peer)) = true
  | Err e => e = NotFound ∧
      ∀ de k e, tbl_get (i, "") (cache_file_table c) = Some de → k ≠ "" →
        tbl_get (i, k) (cache_file_table c) = Some e → fc_hash (content e) ≠ fc_hash (content de)
  end.
Proof.
  unfold do_file_availability. destruct (tbl_get (i, "") (cache_file_table c)) as [de|] eqn:Ede.
  2:{ destruct (inode_entries (cache_file_table c) i) as [|[[j k] e] l] eqn:El; [by split|].
      assert (((j, k), e) ∈ inode_entries (cache_file_table c) i) as Hin by (rewrite El; left).
      apply elem_of_inode_entries in Hin as [-> Hin]; [|done]. simpl.
      rewrite bool_decide_false; [by split|]. intros ->. congruence. }
  destruct (default_first _ _ _ Hi Ede) as (rest & -> & Hrest). cbn [fst snd].
  rewrite bool_decide_true by done. cbn [negb].
  set (f := λ kv : (N * string) * FileTableEntry, if bool_decide _ then _ else _).
  assert (∀ peer, peer ∈ omap f rest ↔ peer_name peer ≠ "" ∧
    hash_is (fc_hash (content de)) (iview c i (peer_name peer)) = true) as Hp.
  { intros peer. rewrite list_elem_of_omap. unfold hash_is, iview. split.
    - intros ([[j k] e] & (-> & Hk & He)%Hrest & Hf). unfold f in Hf. simpl in Hf. case_bool_decide as Hh; [|done].
      injection Hf as <-. simpl. rewrite He. split; [done|]. by apply bool_decide_true.
    - intros [Hk Hh]. destruct (tbl_get (i, peer_name peer) (cache_file_table c)) as [e|] eqn:E; [|done].
      apply bool_decide_eq_true in Hh. simpl in Hh. exists ((i, peer_name peer), e). split; [by apply Hrest|].
      unfold f. simpl. rewrite bool_decide_true by done. by destruct peer. }
  destruct (omap f rest) as [|x l] eqn:El.
  - split; [done|]. intros de' k e [= <-] Hk He Hh.
    apply (not_elem_of_nil (mkPeer k)). apply Hp. split; [done|]. unfold iview. simpl. rewrite He.
    by apply bool_decide_true.
  - exists de. split_and!; [done..|]. exact Hp.
Qed.

(** [file_availability] names the peers to download from: those whose version
    has the content of the one that is presented, and no other; if there is none
    the file is not found, although it is listed. *)
Theorem file_availability_spec m c g i
  (Hc : cache_ok m c g) (Hi : i + 1 < u64_modulus) :
  match do_file_availability c i arena with
  | Ok av =>
      ∃ de, tbl_get (i, "") (cache_file_table c) = Some de ∧
        av_arena av = arena ∧ av_path av = fc_path (content de) ∧
        (av_metadata av, av_hash av) = version de ∧ av_peers av ≠ [] ∧
        ∀ peer, peer ∈ av_peers av ↔
          peer_name peer ≠ "" ∧ hash_is (av_hash av) (iview c i (peer_name peer)) = true
  | Err e => e = NotFound ∧
      ∀ de k e, tbl_get (i, "") (cache_file_table c) = Some de → k ≠ "" →
        tbl_get (i, k) (cache_file_table c) = Some e → fc_hash (content e) ≠ fc_hash (content de)
  end.
Proof. by eapply availability_run. Qed.

(** A catchup does not refresh the version that is presented: when the only
    peer that has a file announces other content during a catchup, the file is
    still presented with the old content, which no peer has any more, and it is
    available nowhere. *)
Theorem catchup_keeps_stale_version m peer w w' p v mt sz h
  (Hk : peer_name peer ≠ "") (Hp : valid p)
  (Hc : cache_ok (length (comps p) + m) (cache_at w) (global_at w))
  (Hdef : seen (cache_at w) p "" = Some v)
  (Honly : ∀ k, k ≠ "" → k ≠ peer_name peer → seen (cache_at w) p k = None)
  (Hh : h ≠ v.2)
  (Hu : update peer (NCatchup arena p mt sz h) w = (Ok tt, w')) :
  seen (cache_at w') p (peer_name peer) = Some ({| size := sz; mtime := mt |}, h) ∧
  seen (cache_at w') p "" = Some v ∧
  ∃ i, do_lookup_path (cache_directory_table (cache_at w')) arena_root (Some p) = Ok (i, AFile) ∧
       do_file_availability (cache_at w') i arena = Err NotFound.
Proof.
  assert (well_formed peer (NCatchup arena p mt sz h)) as Hwf by (split; [done|by intros q [= <-]]).
  pose proof (cache_update_run m peer _ w Hwf Hc) as H. rewrite Hu in H. destruct H as [U1 (_ & U2 & _) _ _ _].
  assert (∀ k, seen (cache_at w') p k =
    (<[peer_name peer := Some ({| size := sz; mtime := mt |}, h)]> (seen (cache_at w) p)) k) as Hs.
  { intros k. unfold seen in *. rewrite U2. unfold presented. rewrite insert_ne_default by done. by rewrite Hdef. }
  assert (seen (cache_at w') p "" = Some v) as Hd by (by rewrite Hs, insert_ne_default).
  split_and!; [by rewrite Hs, fn_lookup_insert|done|].
  unfold seen, CacheInv.seen in Hd, Hs.
  destruct (file_of arena_root (cache_at w') p) as [i|] eqn:Hi; [|done]. simpl in Hd, Hs. exists i. split.
  - revert Hi. unfold file_of, file_at, resolve, do_lookup_path, comps.
    destruct (lookup_components _ _ _) as [[j []]|]; congruence.
  - apply iview_Some in Hd as (de & Hde & Ev).
    destruct (entry_top _ _ _ _ _ _ _ U1 Hde) as (Hi64 & _ & _).
    pose proof (availability_run m (cache_at w') (global_at w') i U1 Hi64) as Hav.
    destruct (do_file_availability _ i arena) as [av|e]; [|by destruct Hav as [-> _]]. exfalso.
    destruct Hav as (de' & Hde' & _ & _ & Hver & Hne & Hpeers). rewrite Hde in Hde'. injection Hde' as <-.
    destruct (av_peers av) as [|x l]; [done|]. destruct (proj1 (Hpeers x) ltac:(by left)) as [Hx Hhash].
    rewrite Hs in Hhash. rewrite Ev in Hh. assert (av_hash av = fc_hash (content de)) as Eh by (unfold version in Hver; congruence).
    destruct (decide (peer_name x = peer_name peer)) as [E|E].
    + rewrite E, fn_lookup_insert in Hhash. apply bool_decide_eq_true in Hhash. simpl in Hhash, Hh. congruence.
    + rewrite fn_lookup_insert_ne in Hhash by done. specialize (Honly _ Hx E). unfold seen, CacheInv.seen in Honly.
      by rewrite Honly in Hhash.
Qed.

(** An arena that just got its root. *)
Lemma cache_ok_init m g :
  1 ≤ last_end g → arena_root ≤ last_end g → last_end g + 1 + 10000 * N.of_nat m < u64_modulus →
  cache_ok m cache_empty g.
Proof.
  intros H1 H2 H3. assert (top arena_root cache_empty = arena_root) as Ht by (unfold top; simpl; by rewrite get_empty).
  split.
  - split; [|done|done|by rewrite Ht|done]. intros cur end_. simpl. by rewrite get_empty.
  - split; simpl; intros *; by rewrite get_empty.
  - split; [rewrite Ht; lia|]. intros d n v. simpl. by rewrite get_empty.
  - intros i k e. simpl. by rewrite get_empty.
  - intros i. simpl. setoid_rewrite get_empty. split; [by intros [??]|by intros (? & _ & [??])].
  - intros k i d. simpl. by rewrite get_empty.
  - intros d n e. simpl. by rewrite get_empty.
Qed.
End cache_spec.

(** ** Witnesses *)

Section witnesses.
#[local] Existing Instance gmap_redb.
#[local] Existing Instance list_bimap.
#[local] Existing Instance list_bimap_laws.

Definition hash1 : Hash := mkHash [x01].
Definition hash2 : Hash := mkHash [x02].
Definition peer1 : Peer := mkPeer "peer1".
Definition peer2 : Peer := mkPeer "peer2".
Definition foobar : Path := mkPath "foo/bar".
Definition version1 : Version := ({| size := 5; mtime := mkUnixTime 7 |}, hash1).
Definition w_init : World :=
  {| db := arena_empty; w_ext := {| fs := ∅; global := roots0.1 |}; watch_tx := 0; history_tx := 0 |}.
Definition run_updates (peer : Peer) (ns : list Notification) (w : World) : sresult () * World :=
  sfor ns (update arena_a 2 roots0.2 "/blobs" (mkUnixTime 9) id peer) w.

Lemma w_init_ok m : N.of_nat m ≤ 1000 → cache_ok 2 m (cache_at w_init) (global_at w_init).
Proof.
  intros Hm. change (cache_at w_init) with cache_empty.
  assert (last_end (global_at w_init) = 101) as E by by vm_compute.
  apply cache_ok_init; rewrite E; unfold u64_modulus; lia.
Qed.

Definition notification1 : Notification := NAdd arena_a 3 foobar (mkUnixTime 7) 5 hash1.
Definition w_added : World := (run_updates peer1 [notification1] w_init).2.

Lemma wf1 : well_formed peer1 notification1.
Proof. split; [done|]. intros p [= <-]. by vm_compute. Qed.

Lemma roots_a : InodeAllocator.arena_root roots0.2 arena_a = Some 2.
Proof. by vm_compute. Qed.

Lemma run1 peer n w : (run_updates peer [n] w).1 = Ok tt →
  update arena_a 2 roots0.2 "/blobs" (mkUnixTime 9) id peer n w = (Ok tt, (run_updates peer [n] w).2).
Proof.
  unfold run_updates. cbn [sfor]. unfold sbind.
  destruct (update _ _ _ _ _ _ _ _ _) as [[[]|e] w']; simpl; [done|done].
Qed.

Lemma added1 : update arena_a 2 roots0.2 "/blobs" (mkUnixTime 9) id peer1 notification1 w_init = (Ok tt, w_added).
Proof. apply run1. by vm_compute. Qed.

Lemma added_ok m : N.of_nat m ≤ 900 → cache_ok 2 m (cache_at w_added) (global_at w_added).
Proof.
  intros Hm. assert (inodes_needed notification1 = 2%nat) as E by by vm_compute.
  pose proof (cache_update_run arena_a 2 roots0.2 "/blobs" (mkUnixTime 9) id (λ _, reflexivity _)
    roots_a m peer1 notification1 w_init wf1 (w_init_ok (inodes_needed notification1 + m) ltac:(rewrite E; lia))) as H.
  rewrite added1 in H. apply H.
Qed.

Example cache_reachable_inv_witness :
  seen 2 (cache_at w_added) foobar "peer1" = Some version1 ∧
  (is_Some (seen 2 (cache_at w_added) foobar "") ↔
   ∃ k, k ≠ "" ∧ is_Some (seen 2 (cache_at w_added) foobar k)).
Proof.
  split; [by vm_compute|].
  apply (cache_reachable_inv arena_a 2 roots0.2 "/blobs" (mkUnixTime 9) id (λ _, reflexivity _)
    roots_a w_init 0 w_added); [|by vm_compute].
  eapply reach_update; [|exact wf1|exact added1]. apply reach_init. by apply w_init_ok.
Defined.

Example update_refines_witness :
  view_step 2 "peer1" notification1 (cache_at w_init) (cache_at w_added) ∧
  do_peer_progress (cache (db w_added)) peer1 = None ∧
  tbl_get "peer1" (cache_notification_table (cache (db w_added))) = Some 3.
Proof.
  pose proof (update_refines arena_a 2 roots0.2 "/blobs" (mkUnixTime 9) id (λ _, reflexivity _)
    roots_a 0 peer1 notification1 w_init wf1 (w_init_ok (inodes_needed notification1 + 0) ltac:(by vm_compute))) as H.
  rewrite added1 in H. destruct H as (_ & H1 & H2). split; [exact H1|]. split; [by vm_compute|].
  apply H2.
Defined.

Example update_marks_dirty_witness :
  ∃ c, get_dirty (dirty (db w_added)) foobar = Some c ∧ 0 < c.
Proof.
  apply (update_marks_dirty arena_a 2 roots0.2 "/blobs" (mkUnixTime 9) id (λ _, reflexivity _)
    roots_a 0 peer1 notification1 w_init w_added wf1 (w_init_ok (inodes_needed notification1 + 0) ltac:(by vm_compute))
    dirty_inv_empty ltac:(by vm_compute) added1); [by vm_compute|].
  by vm_compute.
Defined.

(** The peer had [foo/bar], and lists another file only. *)
Definition listed_files : list (Path * Version) := [(mkPath "foo/baz", version1)].
Definition w_listed : World := (run_updates peer1 (catchup_notifications arena_a listed_files 8) w_added).2.

Lemma listed1 : sfor (catchup_notifications arena_a listed_files 8)
  (update arena_a 2 roots0.2 "/blobs" (mkUnixTime 9) id peer1) w_added = (Ok tt, w_listed).
Proof. unfold w_listed, run_updates. apply pair_of. by vm_compute. Qed.

Example catchup_synchronises_witness :
  (∀ q v, valid q → seen 2 (cache_at w_listed) q "peer1" = Some v ↔ (q, v) ∈ listed_files) ∧
  seen 2 (cache_at w_added) foobar "peer1" = Some version1 ∧
  seen 2 (cache_at w_listed) foobar "" = None.
Proof.
  split; [|split; by vm_compute].
  apply (catchup_synchronises arena_a 2 roots0.2 "/blobs" (mkUnixTime 9) id (λ _, reflexivity _)
    roots_a 0 peer1 listed_files 8 w_added w_listed); [done| | |apply added_ok; by vm_compute|exact listed1].
  - apply NoDup_singleton.
  - apply Forall_singleton. by vm_compute.
Defined.

Example file_availability_spec_witness :
  ∃ av, do_file_availability (cache_at w_added) 103 arena_a = Ok av ∧
    (peer1 ∈ av_peers av ↔
     peer_name peer1 ≠ "" ∧ hash_is (av_hash av) (iview (cache_at w_added) 103 "peer1") = true).
Proof.
  pose proof (file_availability_spec arena_a 2 0 (cache_at w_added) (global_at w_added) 103
    (added_ok 0 ltac:(by vm_compute)) ltac:(by vm_compute)) as H.
  assert (is_ok (do_file_availability (cache_at w_added) 103 arena_a) = true) as E by by vm_compute.
  destruct (do_file_availability (cache_at w_added) 103 arena_a) as [av|e]; [|done].
  exists av. split; [done|]. destruct H as (de & _ & _ & _ & _ & _ & H). apply H.
Defined.

Definition w_stale : World := (run_updates peer1 [NCatchup arena_a foobar (mkUnixTime 8) 6 hash2] w_added).2.

Lemma stale1 : update arena_a 2 roots0.2 "/blobs" (mkUnixTime 9) id peer1
  (NCatchup arena_a foobar (mkUnixTime 8) 6 hash2) w_added = (Ok tt, w_stale).
Proof. apply run1. by vm_compute. Qed.

Lemma only_peer1 k : k ≠ "" → k ≠ "peer1" → seen 2 (cache_at w_added) foobar k = None.
Proof.
  intros H1 H2. assert (file_of 2 (cache_at w_added) foobar = Some 103) as E by by vm_compute.
  unfold seen. rewrite E. simpl. destruct (iview (cache_at w_added) 103 k) as [v|] eqn:Ev; [|done].
  apply iview_Some in Ev as (e & He & _). apply elem_of_iter in He.
  apply (list_elem_of_fmap_2 (λ kv : (N * string) * FileTableEntry, kv.1.2)) in He.
  assert (((λ kv : (N * string) * FileTableEntry, kv.1.2) <$> tbl_iter (cache_file_table (cache_at w_added)))
    = [""; "peer1"]) as El by by vm_compute.
  rewrite El in He. clear -H1 H2 He. cbn [fst snd] in He. set_solver.
Qed.

Example catchup_keeps_stale_version_witness :
  seen 2 (cache_at w_stale) foobar "" = Some version1 ∧
  seen 2 (cache_at w_stale) foobar "peer1" = Some ({| size := 6; mtime := mkUnixTime 8 |}, hash2) ∧
  ∃ i, do_lookup_path (cache_directory_table (cache_at w_stale)) 2 (Some foobar) = Ok (i, AFile) ∧
       do_file_availability (cache_at w_stale) i arena_a = Err NotFound.
Proof.
  destruct (catchup_keeps_stale_version arena_a 2 roots0.2 "/blobs" (mkUnixTime 9) id (λ _, reflexivity _)
    roots_a 0 peer1 w_added w_stale foobar version1 (mkUnixTime 8) 6 hash2) as (H1 & H2 & H3);
    [done|by vm_compute|apply added_ok; by vm_compute|by vm_compute|exact only_peer1|done|exact stale1|].
  split; [exact H2|]. split; [exact H1|exact H3].
Defined.

(** Replacing a file that is not known creates its directory entry all the same:
    the file can be looked up, but it has no content, and no later notification
    about it but an addition is of any effect. *)
Example replace_unknown_file :
  let w := (run_updates peer1 [NReplace arena_a 3 foobar (mkUnixTime 7) 5 hash1 hash2] w_init).2 in
  do_lookup_path (cache_directory_table (cache_at w)) 2 (Some foobar) = Ok (103, AFile) ∧
  do_file_metadata (cache_at w) 103 = Err NotFound ∧
  (run_updates peer1 [NRemove arena_a 4 foobar hash1] w).1 = Ok tt ∧
  is_ok (do_lookup_path (cache_directory_table
    (cache_at (run_updates peer1 [NRemove arena_a 4 foobar hash1] w).2)) 2 (Some foobar)) = true.
Proof. by vm_compute. Qed.
End witnesses.
