(* ===== verification/GlobalCache.v ===== *)
(** * The global cache

    [crate/realize-storage/src/global/cache.rs]: [UnrealCacheBlocking] presents
    the caches of the arenas as one tree.  The global database keeps the
    directories that lead to the arenas, and an entry for the root of each
    arena at the path that is the arena's name; below a root, the arena's own
    cache answers.  An inode tells which cache to ask, through the ranges of the
    inode allocator.

    [tree_at] is the shape of the global directories: the inode of each tells
    its path.  [unreal_ok] is the invariant of the whole: every registered
    arena hangs at its path, every cache is well formed, and no arena's path
    leads through another arena. *)
From stdpp Require Import gmap.
From S2P Require Import Prelude Range RangeSet Redb Path Types Db Dirty InodeAllocator Blob Dirs ArenaCache CacheInv CacheSpec.
Local Open Scope N_scope.
Local Open Scope realize_scope.

Section model.
Context {R : Redb} {B : Bimap}.

(** ** State *)

(** An [ArenaCache]: its identity, and the state it works on but for the global
    database and the disk, which all share. *)
Record CacheOf : Type := {
  ac_arena : Arena;
  ac_arena_root : Inode;
  ac_blob_dir : string;
  ac_db : Tables;
  ac_watch : N;
  ac_history : N;
}.

Definition in_world (c : CacheOf) (g : GlobalTables) (files : Fs) : World :=
  {| db := ac_db c; w_ext := {| fs := files; global := g |};
     watch_tx := ac_watch c; history_tx := ac_history c |}.
Definition from_world (c : CacheOf) (w : World) : CacheOf :=
  {| ac_arena := ac_arena c; ac_arena_root := ac_arena_root c; ac_blob_dir := ac_blob_dir c;
     ac_db := db w; ac_watch := watch_tx w; ac_history := history_tx w |}.

(** [ArenaCache::new] *)
Definition ArenaCache_new (arena : Arena) (allocator : bimap) (blob_dir : string) (w : World)
  : sresult CacheOf :=
  result_map (λ arena_root,
    {| ac_arena := arena; ac_arena_root := arena_root; ac_blob_dir := blob_dir;
       ac_db := db w; ac_watch := watch_tx w; ac_history := history_tx w |})
    (ok_or (UnknownArena arena) (InodeAllocator.arena_root allocator arena)).

(** [UnrealCacheBlocking], with the tables of its database and the disk *)
Record UnrealCacheBlocking : Type := {
  u_db : GlobalTables;
  u_fs : Fs;
  allocator : bimap;
  arena_caches : gmap Arena CacheOf;
}.

Definition ROOT_DIR : Inode := InodeAllocator.ROOT_INODE.

(** [UnrealCacheBlocking::new] *)
Definition unreal_new (g : GlobalTables) (files : Fs) (roots : bimap) : UnrealCacheBlocking :=
  {| u_db := g; u_fs := files; allocator := roots; arena_caches := ∅ |}.

(** The errors of [register], [anyhow::Error] in the code. *)
Inductive RegisterError : Type :=
| StorageErr (e : StorageError)
| PathErr (e : PathError)
| Incompatible (arena existing : Arena).

(** ** Reading *)

Definition arenas (u : UnrealCacheBlocking) : list Arena := (map_to_list (arena_caches u)).*1.

Definition arena_root_of (u : UnrealCacheBlocking) (arena : Arena) : sresult Inode :=
  ok_or (UnknownArena arena) (InodeAllocator.arena_root (allocator u) arena).

Definition arena_cache (u : UnrealCacheBlocking) (arena : Arena) : sresult CacheOf :=
  ok_or NotFound (arena_caches u !! arena).

(** The first half of [arena_cache_for_inode]: the arena an inode belongs to. *)
Definition arena_of_inode (u : UnrealCacheBlocking) (inode : Inode) : sresult Arena :=
  result_bind (InodeAllocator.arena_for_inode (allocator u) (u_db u) inode) (ok_or NotFound).

Definition arena_cache_for_inode (u : UnrealCacheBlocking) (inode : Inode) : sresult CacheOf :=
  result_bind (arena_of_inode u inode) (arena_cache u).

(** What both kinds of directories answer, by the owner of the inode. *)
Definition dispatch {A} (u : UnrealCacheBlocking) (inode : Inode)
  (here : table (N * string) DirTableEntry → sresult A) (there : CacheOf → sresult A) : sresult A :=
  result_bind (InodeAllocator.arena_for_inode (allocator u) (u_db u) inode) (λ a,
    match a with
    | Some arena => result_bind (arena_cache u arena) there
    | None => here (directory_table (u_db u))
    end).

Definition dir_table (c : CacheOf) : table (N * string) DirTableEntry :=
  cache_directory_table (cache (ac_db c)).

Definition lookup (u : UnrealCacheBlocking) (parent_inode : Inode) (name : string)
  : sresult ReadDirEntry :=
  dispatch u parent_inode (λ t, do_lookup t parent_inode name)
    (λ c, do_lookup (dir_table c) parent_inode name).

Definition lookup_path (u : UnrealCacheBlocking) (arena : Arena) (path : Path)
  : sresult (Inode * InodeAssignment) :=
  result_bind (arena_cache u arena) (λ c,
    do_lookup_path (dir_table c) (ac_arena_root c) (Some path)).

Definition dir_mtime (u : UnrealCacheBlocking) (inode : Inode) : sresult UnixTime :=
  dispatch u inode (λ t, do_dir_mtime t inode ROOT_DIR)
    (λ c, do_dir_mtime (dir_table c) inode (ac_arena_root c)).

Definition readdir (u : UnrealCacheBlocking) (inode : Inode) : sresult (list (string * ReadDirEntry)) :=
  dispatch u inode (λ t, Ok (do_readdir t inode)) (λ c, Ok (do_readdir (dir_table c) inode)).

Definition file_metadata (u : UnrealCacheBlocking) (inode : Inode) : sresult FileMetadata :=
  result_bind (arena_cache_for_inode u inode) (λ c, do_file_metadata (cache (ac_db c)) inode).

Definition file_availability (u : UnrealCacheBlocking) (inode : Inode) : sresult FileAvailability :=
  result_bind (arena_cache_for_inode u inode) (λ c,
    do_file_availability (cache (ac_db c)) inode (ac_arena c)).

Definition peer_progress (u : UnrealCacheBlocking) (peer : Peer) (arena : Arena)
  : sresult (option Progress) :=
  result_map (λ c, do_peer_progress (cache (ac_db c)) peer) (arena_cache u arena).

Definition unreal_local_availability (u : UnrealCacheBlocking) (inode : Inode)
  : sresult LocalAvailability :=
  result_bind (arena_cache_for_inode u inode) (λ c, cache_local_availability (ac_db c) inode).

(** ** Writing *)

Context (now : UnixTime).
Context (hash_order : list (string * FileTableEntry) → list (string * FileTableEntry)).

(** An operation of the cache of an arena, on the state they share. *)
Definition on_cache {A} (arena : Arena) (op : CacheOf → WorldM A)
  : StateM UnrealCacheBlocking StorageError A := λ u,
  match arena_cache u arena with
  | Err e => (Err e, u)
  | Ok c =>
      let '(r, w) := op c (in_world c (u_db u) (u_fs u)) in
      (r, {| u_db := global (w_ext w); u_fs := fs (w_ext w); allocator := allocator u;
             arena_caches := <[arena := from_world c w]> (arena_caches u) |})
  end.

Definition unreal_update (peer : Peer) (n : Notification) : StateM UnrealCacheBlocking StorageError () := λ u,
  on_cache (notification_arena n) (λ c,
    update (ac_arena c) (ac_arena_root c) (allocator u) (ac_blob_dir c) now hash_order peer n) u.

Definition unreal_open_file (inode : Inode) : StateM UnrealCacheBlocking StorageError Blob := λ u,
  match arena_of_inode u inode with
  | Err e => (Err e, u)
  | Ok arena => on_cache arena (λ c, open_file (ac_blob_dir c) now inode) u
  end.

(** [add_arena_root]: one transaction on the global database *)
Definition add_arena_root (arena : Arena) (arena_root : Inode)
  : StateM GlobalTables RegisterError () := λ g,
  match Path.parse (arena_name arena) with
  | Err e => (Err (PathErr e), g)
  | Ok arena_path =>
      match do_lookup_path (directory_table g) ROOT_DIR (Some arena_path) with
      | Ok _ => (Ok (), g)
      | Err _ =>
          let body :=
            let* parent_inode := do_mkdirs directory_table set_directory_table
                                   InodeAllocator.allocate_global_inode now
                                   ROOT_DIR (Path.parent arena_path) in
            smodify (λ g, set_directory_table (add_dir_entry now parent_inode arena_root
              (Path.name arena_path) ADirectory (directory_table g)) g) in
          match body g with
          | (Ok _, g') => (Ok (), g')
          | (Err e, _) => (Err (StorageErr e), g)
          end
      end
  end.

Definition is_path_prefix (prefix arena : string) : bool :=
  match Str.strip_prefix prefix arena with
  | Some rest => Str.starts_with rest "/"
  | None => false
  end.

Definition check_arena_compatibility (arena existing : Arena) : result RegisterError () :=
  if is_path_prefix (arena_name arena) (arena_name existing)
     || is_path_prefix (arena_name existing) (arena_name arena)
  then Err (Incompatible arena existing)
  else Ok ().

(** The loop of [register]. *)
Fixpoint check_all (arena : Arena) (l : list Arena) : result RegisterError () :=
  match l with
  | [] => Ok ()
  | existing :: l => result_bind (check_arena_compatibility arena existing) (λ _, check_all arena l)
  end.

Definition register (c : CacheOf) : StateM UnrealCacheBlocking RegisterError () := λ u,
  let arena := ac_arena c in
  match InodeAllocator.arena_root (allocator u) arena with
  | None => (Err (StorageErr (UnknownArena arena)), u)
  | Some arena_root =>
      match check_all arena (arenas u) with
      | Err e => (Err e, u)
      | Ok _ =>
          match add_arena_root arena arena_root (u_db u) with
          | (Err e, g) =>
              (Err e, {| u_db := g; u_fs := u_fs u; allocator := allocator u; arena_caches := arena_caches u |})
          | (Ok _, g) =>
              (Ok (), {| u_db := g; u_fs := u_fs u; allocator := allocator u;
                         arena_caches := <[arena := c]> (arena_caches u) |})
          end
      end
  end.

(** [UnrealCacheAsync::with_db] *)
Definition with_db (g : GlobalTables) (files : Fs) (roots : bimap) (caches : list CacheOf)
  : result RegisterError () * UnrealCacheBlocking :=
  sfor caches register (unreal_new g files roots).
End model.

(** ** Names of arenas as paths *)

Definition arena_path (a : Arena) : Path := mkPath (arena_name a).
Abbreviation acomps a := (comps (arena_path a)).

Lemma arena_path_inj a b : acomps a = acomps b → a = b.
Proof. intros [= E]%comps_inj. by apply arena_name_inj. Qed.

Lemma is_path_prefix_spec a b :
  is_path_prefix (arena_name a) (arena_name b) = true ↔ ∃ w ws, acomps b = acomps a ++ w :: ws.
Proof.
  unfold is_path_prefix. split.
  - destruct (Str.strip_prefix _ _) as [rest|] eqn:E; [|done]. intros [t ->]%starts_with_cons.
    apply strip_prefix_Some in E. unfold comps. simpl. rewrite E, split_app.
    destruct (Str.split "/" t) as [|w ws] eqn:Es; [by apply split_not_nil in Es|]. by exists w, ws.
  - intros (w & ws & E). pose proof (as_str_join (arena_path b)) as Hb. rewrite E in Hb.
    rewrite join_app in Hb by (apply comps_not_nil || done). rewrite <- as_str_join in Hb. simpl in Hb.
    rewrite Hb, (proj2 (strip_prefix_Some _ _ (String "/" (Str.join "/" (w :: ws))))) by done.
    apply starts_with_cons. by eexists.
Qed.

(** Neither path leads through the other. *)
Definition compatible (a b : Arena) : Prop :=
  ∀ w ws, acomps b ≠ acomps a ++ w :: ws ∧ acomps a ≠ acomps b ++ w :: ws.

Lemma compatible_sym a b : compatible a b → compatible b a.
Proof. intros H w ws. destruct (H w ws). done. Qed.

Lemma check_compatible a b :
  check_arena_compatibility a b = Ok () ∧ compatible a b ∨
  check_arena_compatibility a b = Err (Incompatible a b) ∧ ¬ compatible a b.
Proof.
  unfold check_arena_compatibility.
  destruct (is_path_prefix (arena_name a) (arena_name b)) eqn:E1; simpl.
  { right. split; [done|]. apply is_path_prefix_spec in E1 as (w & ws & E). intros H. by destruct (H w ws). }
  destruct (is_path_prefix (arena_name b) (arena_name a)) eqn:E2.
  { right. split; [done|]. apply is_path_prefix_spec in E2 as (w & ws & E). intros H. by destruct (H w ws). }
  left. split; [done|]. intros w ws. split; intros E.
  - apply not_true_iff_false in E1. apply E1, is_path_prefix_spec. by exists w, ws.
  - apply not_true_iff_false in E2. apply E2, is_path_prefix_spec. by exists w, ws.
Qed.

Lemma check_all_spec a l :
  (check_all a l = Ok () ∧ Forall (compatible a) l) ∨
  (∃ b, check_all a l = Err (Incompatible a b) ∧ b ∈ l ∧ ¬ compatible a b).
Proof.
  induction l as [|b l IH]; [by left|]. simpl.
  destruct (check_compatible a b) as [[-> Hb]|[-> Hb]]; simpl.
  - destruct IH as [[-> H]|(b' & -> & Hin & H)]; [left|right; exists b'].
    + split; [done|]. by constructor.
    + split; [done|]. split; [by right|done].
  - right. exists b. split; [done|]. split; [left|done].
Qed.

(** ** The global directories *)

Section tree.
Context {R : Redb} `{!RedbLaws R}.
Abbreviation DirTable := (table (N * string) DirTableEntry).
Implicit Types (t : DirTable) (label : gmap Inode (list string)) (i p : Inode) (cs : list string).

(** [label] tells the path of every directory of the tree; all entries are
    directories. *)
Record tree_at t label : Prop := {
  ta_root : label !! ROOT_DIR = Some [];
  ta_at : ∀ i cs, label !! i = Some cs →
    Forall good_component cs ∧ resolve ROOT_DIR t cs = Ok (i, ADirectory);
  ta_entry : ∀ p n e, tbl_get (p, n) t = Some (Regular e) →
    good_component n ∧ assignment e = ADirectory ∧
    ∃ cs, label !! p = Some cs ∧ label !! rd_inode e = Some (cs ++ [n]);
  ta_dot : ∀ p n m, tbl_get (p, n) t = Some (Dot m) → n = ".";
}.

Lemma entry_get t label p n e :
  tree_at t label → good_component n →
  get_dir_entry t p n = Some e ↔ tbl_get (p, n) t = Some (Regular e).
Proof.
  intros Ht Hn. unfold get_dir_entry. destruct (tbl_get (p, n) t) as [[e'|m]|] eqn:E; simpl.
  - split; intros [= ->]; done.
  - apply (ta_dot _ _ Ht) in E. subst. by destruct Hn as (_ & ? & _).
  - done.
Qed.

(** A path resolves to the directory it is the path of, if any. *)
Lemma resolve_tree t label cs :
  tree_at t label → Forall good_component cs →
  match resolve ROOT_DIR t cs with
  | Ok (i, a) => label !! i = Some cs ∧ a = ADirectory
  | Err e => e = NotFound ∧ ∀ i, label !! i ≠ Some cs
  end.
Proof.
  intros Ht Hg.
  assert (∀ e, resolve ROOT_DIR t cs = Err e → ∀ i, label !! i ≠ Some cs) as Hno.
  { intros e E i Hi. apply (ta_at _ _ Ht) in Hi as [_ Hi]. congruence. }
  revert Hg Hno. induction cs as [|n cs IH] using rev_ind; intros Hg Hno.
  { split; [by apply ta_root with t|done]. }
  apply Forall_app in Hg as [Hg [Hn _]%Forall_cons].
  unfold resolve in *. rewrite lookup_app in *.
  destruct (lookup_components t (ROOT_DIR, ADirectory) cs) as [[i a]|e] eqn:E; simpl in *.
  - destruct IH as [Hi ->]; [done|done|]. rewrite bool_decide_true by done. simpl.
    rewrite bool_decide_true in Hno by done. simpl in Hno.
    destruct (get_dir_entry t i n) as [e|] eqn:Ee; [|by eauto].
    apply (entry_get _ _ _ _ _ Ht Hn), (ta_entry _ _ Ht) in Ee as (_ & -> & cs' & Hi' & He).
    split; [|done]. congruence.
  - assert (e = NotFound) as -> by (apply IH; [done|]; intros e' _ i Hi;
      apply (ta_at _ _ Ht) in Hi as [_ Hi]; unfold resolve in Hi; congruence).
    split; [done|]. by eauto.
Qed.

Lemma lookup_mono t t' c cs r :
  (∀ p n e, good_component n → get_dir_entry t p n = Some e → get_dir_entry t' p n = Some e) →
  Forall good_component cs →
  lookup_components t c cs = Ok r → lookup_components t' c cs = Ok r.
Proof.
  intros Hm. revert c. induction cs as [|n cs IH]; intros c; [done|].
  intros [Hn Hg]%Forall_cons. simpl. case_bool_decide; simpl; [|done].
  destruct (get_dir_entry t c.1 n) as [e|] eqn:E; [|done]. rewrite (Hm _ _ _ Hn E). by apply IH.
Qed.

(** A new directory, or the root of an arena. *)
Lemma add_tree now t label p i n cs :
  tree_at t label → label !! p = Some cs → good_component n → get_dir_entry t p n = None →
  label !! i = None → tree_at (add_dir_entry now p i n ADirectory t) (<[i := cs ++ [n]]> label).
Proof.
  intros Ht Hp Hn Hno Hi. set (t' := add_dir_entry now p i n ADirectory t).
  assert (∀ q m, good_component m → get_dir_entry t' q m =
    if decide ((q, m) = (p, n)) then Some {| rd_inode := i; assignment := ADirectory |}
    else get_dir_entry t q m) as Hget.
  { intros q m Hm%good_not_dot. unfold get_dir_entry, t'. rewrite add_dir_entry_get by done.
    by case_decide. }
  assert (∀ c cs r, Forall good_component cs → lookup_components t c cs = Ok r →
    lookup_components t' c cs = Ok r) as Hmono.
  { intros c cs' r Hg. apply lookup_mono; [|done]. intros q m e Hm E. rewrite Hget by done.
    case_decide; [|done]. simplify_eq. }
  assert (∀ j cs', label !! j = Some cs' → <[i:=cs ++ [n]]> label !! j = Some cs') as Hold.
  { intros j cs' Hj. rewrite lookup_insert_ne; [done|]. congruence. }
  destruct (ta_at _ _ Ht _ _ Hp) as [Hg Hrp]. split.
  - apply Hold, Ht.
  - intros j cs'. rewrite lookup_insert. case_decide as E.
    + intros [= <-]. subst j. split; [apply Forall_app; by split; [|constructor]|].
      unfold resolve. rewrite lookup_app, (Hmono _ _ _ Hg Hrp). simpl.
      by rewrite Hget, decide_True.
    + intros [Hg' Hr]%(ta_at _ _ Ht). split; [done|]. by apply Hmono.
  - intros q m e He. destruct (decide (m = ".")) as [->|Hm].
    { unfold t' in He. rewrite add_dir_entry_dot in He by by apply good_not_dot.
      case_decide; [done|]. apply (ta_entry _ _ Ht) in He as ((_ & ? & _) & _). done. }
    unfold t' in He. rewrite add_dir_entry_get in He by done. case_decide as E.
    + simplify_eq. split; [done|]. split; [done|]. exists cs. rewrite lookup_insert_eq. auto.
    + apply (ta_entry _ _ Ht) in He as (? & ? & cs' & ? & ?). split; [done|]. split; [done|]. exists cs'. auto.
  - intros q m d Hd. destruct (decide (m = ".")) as [|Hm]; [done|].
    unfold t' in Hd. rewrite add_dir_entry_get in Hd by done. case_decide; [done|]. by eapply (ta_dot _ _ Ht).
Qed.
End tree.

(** ** The global database *)

Section database.
Context {R : Redb} {B : Bimap} `{!RedbLaws R, !BimapLaws B}.
Implicit Types (g : GlobalTables) (roots : bimap) (label : gmap Inode (list string)).
Implicit Types (i r p : Inode) (cs : list string) (a b : Arena).

(** An inode that was handed out for the global directories or an arena root. *)
Definition given g i : Prop :=
  1 < i ∧ owner g i = Some InodeAllocator.ROOT_INODE ∧
  ∃ cur end_, tbl_get () (current_inode_range_table g) = Some (cur, end_) ∧ i ≤ cur.

Record tree_ok g label : Prop := {
  tk_tree : tree_at (directory_table g) label;
  tk_given : ∀ i cs, label !! i = Some cs → i = ROOT_DIR ∨ given g i;
  tk_arena : ∀ a r cs, tbl_get (arena_name a) (arena_table g) = Some r →
    label !! r = Some cs → cs = acomps a;
}.

Lemma global_ok_grows g g' : global_ok g → global_grows g g' → global_ok g'.
Proof.
  intros [G1 G2 G3 G4] [O1 O2 O3 O4 O5]. split; rewrite ?O3, ?O5; [lia| | |done].
  - intros cur end_ E. destruct (G2 _ _ E) as (? & ? & ? & H). split_and!; auto.
  - intros a r (? & ? & ?)%G3. auto.
Qed.

Lemma tree_ok_grows g g' label : tree_ok g label → global_grows g g' → tree_ok g' label.
Proof.
  intros [T1 T2 T3] [O1 O2 O3 O4 O5]. split; rewrite ?O3, ?O4; [done| |done].
  intros i cs [->|(? & ? & ?)]%T2; [by left|right]. unfold given. rewrite O5. auto.
Qed.

Lemma given_allocated g g' i n :
  allocated InodeAllocator.ROOT_INODE n g g' (current_inode_range_table g) (current_inode_range_table g') →
  given g i → given g' i ∧ i < n.
Proof.
  intros [A1 [end_ A2] A3 A4 A5 A6 A7] (H1 & H2 & cur & end' & H3 & H4). pose proof (A4 _ _ H3).
  split; [|lia]. split_and!; [done|auto|]. exists n, end_. split; [done|lia].
Qed.

Lemma allocated_given g g' rt n :
  allocated InodeAllocator.ROOT_INODE n g g' rt (current_inode_range_table g') → given g' n.
Proof.
  intros [A1 [end_ A2] A3 A4 A5 A6 A7]. split; [by destruct (A3 _ _ A2)|]. split; [done|]. by exists n, end_.
Qed.

(** An arena's root is known to be given. *)
Lemma root_given g (x : string) r : global_ok g → tbl_get x (arena_table g) = Some r → given g r.
Proof. intros Hg (? & ? & ?)%(go_arenas _ Hg). by split. Qed.

(** Two states of the database between which directories were made, with new
    inodes, at the paths [P] tells. *)
Record dirs_made (P : list string → Prop) g label g' label' : Prop := {
  dm_global : global_ok g';
  dm_tree : tree_ok g' label';
  dm_label : label ⊆ label';
  dm_new : ∀ i cs, label' !! i = Some cs → label !! i = None → P cs;
  dm_roots : ∀ (x : string) r, tbl_get x (arena_table g) = Some r → label' !! r = label !! r;
  dm_arenas : arena_table g' = arena_table g;
  dm_owner : ∀ i r, owner g i = Some r → owner g' i = Some r;
  dm_end : last_end g ≤ last_end g';
}.

Lemma made_refl P g label : global_ok g → tree_ok g label → dirs_made P g label g label.
Proof. intros. split; try done. congruence. Qed.

Lemma made_trans P g1 l1 g2 l2 g3 l3 :
  dirs_made P g1 l1 g2 l2 → dirs_made P g2 l2 g3 l3 → dirs_made P g1 l1 g3 l3.
Proof.
  intros [A1 A2 A3 A4 A5 A6 A7 A8] [B1 B2 B3 B4 B5 B6 B7 B8]. split; [done|done|by etrans| | |congruence|auto|lia].
  - intros i cs H Hn. destruct (l2 !! i) as [cs'|] eqn:E; [|by eauto].
    pose proof (lookup_weaken _ _ _ _ E B3). simplify_eq. eauto.
  - intros a r H. rewrite (B5 a), (A5 a); [done|done|]. by rewrite A6.
Qed.

Lemma made_mono (P Q : list string → Prop) g1 l1 g2 l2 :
  (∀ cs, P cs → Q cs) → dirs_made P g1 l1 g2 l2 → dirs_made Q g1 l1 g2 l2.
Proof. intros H [A1 A2 A3 A4 A5 A6 A7 A8]. split; eauto. Qed.

Context (now : UnixTime).

(** One new directory. *)
Lemma mkdir_run g label p cs0 n :
  global_ok g → tree_ok g label → label !! p = Some cs0 → good_component n →
  get_dir_entry (directory_table g) p n = None → last_end g + 101 < u64_modulus →
  ∃ i g1, InodeAllocator.allocate_global_inode g = (Ok i, g1) ∧
    let g' := set_directory_table (add_dir_entry now p i n ADirectory (directory_table g1)) g1 in
    let label' := <[i := cs0 ++ [n]]> label in
    dirs_made (eq (cs0 ++ [n])) g label g' label' ∧ label' !! i = Some (cs0 ++ [n]) ∧
    last_end g' ≤ last_end g + 100.
Proof.
  intros Hg [T1 T2 T3] Hp Hn Hno Hlt.
  destruct (allocate_global_inode_spec g (go_cur _ Hg) (go_end _ Hg) Hlt)
    as (i & g1 & Hrun & Hal & He & He' & Hle & Hd).
  exists i, g1. split; [done|]. intros g' label'. destruct (global_ok_alloc _ _ _ Hg He Hal) as [Hg1 Hfresh].
  assert (i ≠ ROOT_DIR) as Hi1 by (pose proof (allocated_given _ _ _ _ Hal) as (? & _); unfold ROOT_DIR,
    InodeAllocator.ROOT_INODE in *; lia).
  assert (label !! i = None) as Hi.
  { destruct (label !! i) as [cs|] eqn:E; [|done]. apply T2 in E as [->|E]; [done|].
    destruct (given_allocated _ _ _ _ Hal E). lia. }
  assert (∀ (x : string) r, tbl_get x (arena_table g) = Some r → r ≠ i) as Hne by (intros x r ?%Hfresh; lia).
  assert (global_ok g') as Hg' by (by destruct Hg1).
  split_and!; [|by apply lookup_insert_eq|simpl; change (last_end g') with (last_end g1); lia].
  split; [done| | | | |apply Hal|apply Hal|exact Hle].
  - split.
    + simpl. rewrite Hd. by apply add_tree.
    + intros j cs. unfold label'. rewrite lookup_insert. case_decide as E.
      * subst j. right. exact (allocated_given _ _ _ _ Hal).
      * intros [->|Hj]%T2; [by left|right]. by destruct (given_allocated _ _ _ _ Hal Hj).
    + intros a r cs Ha. change (arena_table g') with (arena_table g1) in Ha. rewrite (al_arenas _ _ _ _ _ _ Hal) in Ha.
      unfold label'. rewrite lookup_insert_ne by (apply not_eq_sym; by eapply Hne). by apply T3.
  - by apply insert_subseteq.
  - intros j cs. unfold label'. rewrite lookup_insert. case_decide; [by intros [= <-]|congruence].
  - intros a r Ha. unfold label'. apply lookup_insert_ne, not_eq_sym. by eapply Hne.
Qed.

Lemma mkdirs_run g label p cs0 cs :
  global_ok g → tree_ok g label → label !! p = Some cs0 → Forall good_component cs →
  last_end g + 1 + 100 * N.of_nat (length cs) < u64_modulus →
  ∃ d g' label',
    mkdirs_components directory_table set_directory_table InodeAllocator.allocate_global_inode now p cs g
      = (Ok d, g') ∧
    dirs_made (λ cs', ∃ us, cs' = cs0 ++ us ∧ us `prefix_of` cs) g label g' label' ∧
    label' !! d = Some (cs0 ++ cs) ∧ last_end g' ≤ last_end g + 100 * N.of_nat (length cs).
Proof.
  revert g label p cs0. induction cs as [|n cs IH]; intros g label p cs0 Hg Ht Hp Hgood Hlt.
  { exists p, g, label. rewrite app_nil_r. split_and!; [done|by apply made_refl|done|simpl; lia]. }
  apply Forall_cons in Hgood as [Hn Hgood]. cbn [mkdirs_components length] in *. unfold sbind at 1, sget.
  assert (∀ us, us `prefix_of` cs → n :: us `prefix_of` n :: cs) as Hpre by (intros us [k ->]; by exists k).
  destruct (get_dir_entry (directory_table g) p n) as [e|] eqn:E.
  - apply (entry_get _ _ _ _ _ (tk_tree _ _ Ht) Hn), (ta_entry _ _ (tk_tree _ _ Ht)) in E
      as (_ & -> & cs1 & Hp1 & He). rewrite bool_decide_true by done. simpl negb. cbv iota.
    rewrite Hp in Hp1. injection Hp1 as <-.
    destruct (IH g label (rd_inode e) (cs0 ++ [n])) as (d & g' & label' & Hrun & Hm & Hd & Hl); [done..|lia|].
    rewrite <- app_assoc in Hd. exists d, g', label'. split_and!; [done| |done|lia].
    eapply made_mono; [|exact Hm]. intros cs' (us & -> & Hus). exists (n :: us). rewrite <- app_assoc. auto.
  - destruct (mkdir_run g label p cs0 n Hg Ht Hp Hn E) as (i & g1 & Hal & Hm1 & Hi & Hl1); [lia|].
    unfold sbind at 1. rewrite Hal. unfold sbind, smodify.
    set (g2 := set_directory_table _ g1) in *.
    destruct (IH g2 (<[i := cs0 ++ [n]]> label) i (cs0 ++ [n])) as (d & g' & label' & Hrun & Hm & Hd & Hl);
      [apply Hm1|apply Hm1|done|done|lia|].
    rewrite <- app_assoc in Hd. exists d, g', label'. split_and!; [done| |done|lia].
    eapply made_trans; (eapply made_mono; [|done]).
    + intros cs' <-. exists [n]. split; [done|]. exists cs. done.
    + intros cs' (us & -> & Hus). exists (n :: us). rewrite <- app_assoc. auto.
Qed.

(** The root of an arena is hung at the arena's path, unless a directory that is
    not its root is already there. *)
Lemma add_arena_root_run g label a r :
  global_ok g → tree_ok g label → valid (arena_path a) →
  tbl_get (arena_name a) (arena_table g) = Some r →
  (∀ i, label !! i = Some (acomps a) → i = r) →
  last_end g + 1 + 100 * N.of_nat (length (acomps a)) < u64_modulus →
  ∃ g' label', add_arena_root now a r g = (Ok (), g') ∧
    global_ok g' ∧ tree_ok g' label' ∧ label ⊆ label' ∧ label' !! r = Some (acomps a) ∧
    (∀ i cs, label' !! i = Some cs → label !! i = Some cs ∨ i = r ∨
       ∃ w ws, acomps a = cs ++ w :: ws) ∧
    arena_table g' = arena_table g ∧ (∀ i o, owner g i = Some o → owner g' i = Some o) ∧
    last_end g ≤ last_end g' ∧ last_end g' ≤ last_end g + 100 * N.of_nat (length (acomps a)).
Proof.
  intros Hg Ht Hv Ha Hvac Hlt. unfold add_arena_root.
  change (Path.parse (arena_name a)) with (Path.parse (as_str (arena_path a))). rewrite Hv.
  pose proof (proj1 (valid_comps _) Hv) as Hgood.
  pose proof (resolve_tree _ _ _ (tk_tree _ _ Ht) Hgood) as Hres.
  change (do_lookup_path (directory_table g) ROOT_DIR (Some (arena_path a))) with
    (resolve ROOT_DIR (directory_table g) (acomps a)).
  destruct (resolve ROOT_DIR (directory_table g) (acomps a)) as [[i x]|e].
  { destruct Hres as [Hi ->]. pose proof (Hvac _ Hi) as ->. exists g, label.
    split_and!; [done|done|done|done|done|by left|done|done|lia|lia]. }
  destruct Hres as [_ Hno].
  assert (label !! r = None) as Hr.
  { destruct (label !! r) as [cs|] eqn:E; [|done]. pose proof (tk_arena _ _ Ht _ _ _ Ha E) as ->. by apply Hno in E. }
  pose proof (comps_parent (arena_path a)) as Hcp. rewrite Hcp in Hgood, Hlt.
  apply Forall_app in Hgood as [Hgp [Hgn _]%Forall_cons]. rewrite length_app in Hlt. simpl in Hlt.
  unfold sbind, do_mkdirs.
  destruct (mkdirs_run g label ROOT_DIR [] (Path.components (Path.parent (arena_path a))) Hg Ht)
    as (d & g1 & label1 & -> & [M1 M2 M3 M4 M5 M6 M7 M8] & Hd & Hl); [by apply Ht|done|lia|].
  unfold smodify. simpl in Hd. set (g' := set_directory_table _ g1).
  assert (label1 !! r = None) as Hr1 by (rewrite (M5 _ _ Ha); done).
  assert (∀ i, label1 !! i ≠ Some (acomps a)) as Hno1.
  { intros i Hi. destruct (label !! i) as [cs|] eqn:E.
    - pose proof (lookup_weaken _ _ _ _ E M3). simplify_eq. by apply Hno in E.
    - destruct (M4 _ _ Hi E) as (us & Eu & Hus). simpl in Eu. rewrite <- Eu, Hcp in Hus.
      apply prefix_length in Hus. rewrite length_app in Hus. simpl in Hus. lia. }
  assert (get_dir_entry (directory_table g1) d (Path.name (arena_path a)) = None) as Hnone.
  { destruct (get_dir_entry _ _ _) as [en|] eqn:E; [|done].
    apply (entry_get _ _ _ _ _ (tk_tree _ _ M2) Hgn), (ta_entry _ _ (tk_tree _ _ M2)) in E
      as (_ & _ & cs & Hd' & He). exfalso. apply (Hno1 (rd_inode en)). rewrite He, Hcp. congruence. }
  exists g', (<[r := acomps a]> label1). split; [done|]. split; [by destruct M1|]. split.
  { split.
    - rewrite Hcp. apply add_tree; [apply M2|done..].
    - intros i cs. rewrite lookup_insert. case_decide as E.
      + intros _. subst i. right. apply (root_given g1 (arena_name a)); [done|]. by rewrite M6.
      + apply M2.
    - intros b r' cs Hb. rewrite lookup_insert. case_decide as E; [|by apply M2].
      intros [= <-]. subst r'. f_equal. f_equal. apply arena_name_inj. apply (go_inj g1 M1 _ _ r); [|done].
      by rewrite M6. }
  split_and!; [|by apply lookup_insert_eq| |done|done|exact M8|].
  - etrans; [exact M3|by apply insert_subseteq].
  - intros i cs. rewrite lookup_insert. case_decide as E; [by right; left|]. intros Hi.
    destruct (label !! i) as [cs'|] eqn:El; [left|do 2 right].
    + pose proof (lookup_weaken _ _ _ _ El M3). congruence.
    + destruct (M4 _ _ Hi El) as (us & -> & [k Hk]). simpl.
      rewrite Hcp, Hk, <- app_assoc.
      destruct k as [|w ws]; [by exists (Path.name (arena_path a)), []|].
      by exists w, (ws ++ [Path.name (arena_path a)]).
  - change (last_end g') with (last_end g1). rewrite Hcp, length_app. simpl. lia.
Qed.

(** An arena gets its root. *)
Lemma add_arena_tree g roots label a :
  global_ok g → roots_ok g roots → tree_ok g label → last_end g + 101 < u64_modulus →
  ∃ roots' g', InodeAllocator.add_arena a (g, roots) = (Ok (), (g', roots')) ∧
    global_ok g' ∧ roots_ok g' roots' ∧ tree_ok g' label ∧ last_end g' ≤ last_end g + 100 ∧
    ∀ b, is_Some (get_by_left roots' b) ↔ b = a ∨ is_Some (get_by_left roots b).
Proof.
  intros Hg Hr [T1 T2 T3] Hlt.
  destruct (add_arena_run a g roots Hg Hr Hlt) as (r & g' & Hrun & Hg' & Ha & Hold & Ho & He & Hd & Hcur & Hat).
  assert (roots_ok g' roots) as Hr' by (intros b v Hb; by apply Hold, Hr).
  exists (bimap_insert a r roots), g'. split_and!; [done|done|by apply roots_ok_insert| |done|].
  - split; [by rewrite Hd| |].
    + intros i cs [->|(H1 & H2 & cur & end_ & H3 & H4)]%T2; [by left|right]. split_and!; [done|by apply Ho|].
      destruct (Hcur _ _ H3) as (cur' & end' & ? & ?). exists cur', end'. split; [done|lia].
    + intros b v cs Hb Hl. destruct (Hat _ _ Hb) as [Hb'|(-> & Hfresh)]; [by eapply T3|].
      apply T2 in Hl as [->|(_ & _ & cur & end_ & H3 & H4)].
      * apply (root_given _ _ _ Hg') in Ha as (? & _). unfold ROOT_DIR, InodeAllocator.ROOT_INODE in *. lia.
      * apply Hfresh in H3. lia.
  - intros b. rewrite (bimap_insert_ok g') by done. case_decide; [|tauto]. split; [by left|by eexists].
Qed.
(** A global database as the code leaves it. *)
Definition database_ok g : Prop := global_ok g ∧ ∃ label, tree_ok g label.


Lemma database_empty : database_ok global_empty.
Proof.
  split; [apply global_ok_empty|]. exists {[ ROOT_DIR := [] ]}. split.
  - split; simpl.
    + by rewrite lookup_singleton_eq.
    + intros i cs. rewrite lookup_singleton_Some. intros [<- <-]. split; [constructor|done].
    + intros p n e. by rewrite get_empty.
    + intros p n e. by rewrite get_empty.
  - intros i cs. rewrite lookup_singleton_Some. intros [<- _]. by left.
  - intros a r cs. simpl. by rewrite get_empty.
Qed.

(** The allocator of a new process, on a database that the code left. *)
Lemma new_database (l : list Arena) g roots :
  database_ok g → roots_ok g roots → last_end g + 101 * N.of_nat (length l) < u64_modulus →
  ∃ g' roots', sfor l InodeAllocator.add_arena (g, roots) = (Ok (), (g', roots')) ∧
    database_ok g' ∧ roots_ok g' roots' ∧
    ∀ b, is_Some (get_by_left roots' b) ↔ b ∈ l ∨ is_Some (get_by_left roots b).
Proof.
  revert g roots. induction l as [|a l IH]; intros g roots [Hg [label Ht]] Hr Hlt.
  { exists g, roots. split_and!; [done|by split; [|exists label]|done|]. intros b. set_solver. }
  cbn [length] in Hlt.
  destruct (add_arena_tree g roots label a Hg Hr Ht) as (roots1 & g1 & Hrun & Hg1 & Hr1 & Ht1 & He & Hd); [lia|].
  destruct (IH g1 roots1) as (g' & roots' & Hrest & H1 & H2 & H3); [by split; [|exists label]|done|lia|].
  exists g', roots'. cbn [sfor]. unfold sbind. rewrite Hrun. split_and!; [done|done|done|].
  intros b. rewrite H3, Hd, elem_of_cons. tauto.
Qed.
End database.

(** ** The caches together *)

Section unreal.
Context {R : Redb} {B : Bimap} `{!RedbLaws R, !BimapLaws B}.
Context (now : UnixTime).
Context (hash_order : list (string * FileTableEntry) → list (string * FileTableEntry)).
Context (hash_order_perm : ∀ l, hash_order l ≡ₚ l).
Implicit Types (u : UnrealCacheBlocking) (c : CacheOf) (a b : Arena) (i : Inode) (g : GlobalTables).

Definition cache_tables c : CacheTables := cache (ac_db c).

(** No two of the allocator's arenas contain each other. *)
Definition arenas_compatible (roots : bimap) : Prop :=
  ∀ a b, is_Some (InodeAllocator.arena_root roots a) → is_Some (InodeAllocator.arena_root roots b) →
  compatible a b.

(** What a cache must be to be registered. *)
Record cache_fits (n : nat) g (roots : bimap) c : Prop := {
  fi_path : valid (arena_path (ac_arena c));
  fi_root : InodeAllocator.arena_root roots (ac_arena c) = Some (ac_arena_root c);
  fi_ok : cache_ok (ac_arena_root c) n (cache_tables c) g;
}.

(** The path of the arena is free, or its root is there. *)
Definition vacant g c : Prop :=
  ∀ i x, do_lookup_path (directory_table g) ROOT_DIR (Some (arena_path (ac_arena c))) = Ok (i, x) →
  i = ac_arena_root c.

(** [n] bounds the files and directories that each cache can still create. *)
Record unreal_ok (n : nat) u : Prop := {
  uk_global : global_ok (u_db u);
  uk_roots : roots_ok (u_db u) (allocator u);
  uk_compat : arenas_compatible (allocator u);
  uk_tree : ∃ label, tree_ok (u_db u) label ∧
    ∀ a c, arena_caches u !! a = Some c → label !! ac_arena_root c = Some (acomps a);
  uk_cache : ∀ a c, arena_caches u !! a = Some c →
    ac_arena c = a ∧ cache_fits n (u_db u) (allocator u) c;
}.

Lemma cache_ok_moved root n n' (c : CacheTables) g g' :
  cache_ok root n c g → (∀ i o, owner g i = Some o → owner g' i = Some o) →
  last_end g ≤ last_end g' → last_end g' + 1 + 10000 * N.of_nat n' < u64_modulus →
  cache_ok root n' c g'.
Proof.
  intros Hc Ho Hl Hroom. apply (cache_ok_global root n n' c c g g'); [done| |done].
  destruct (co_alloc _ _ _ _ Hc) as [A1 A2 A3 A4 A5]. split; [|lia..].
  intros cur end_ E. destruct (A1 _ _ E) as (? & ? & ? & ?). split_and!; auto.
Qed.

Lemma fits_moved n n' g g' roots c :
  cache_fits n g roots c → (∀ i o, owner g i = Some o → owner g' i = Some o) →
  last_end g ≤ last_end g' → last_end g' + 1 + 10000 * N.of_nat n' < u64_modulus →
  cache_fits n' g' roots c.
Proof. intros [F1 F2 F3] ???. split; [done|done|by eapply cache_ok_moved]. Qed.

Lemma label_resolves g label a i :
  tree_ok g label → valid (arena_path a) →
  label !! i = Some (acomps a) ↔
  do_lookup_path (directory_table g) ROOT_DIR (Some (arena_path a)) = Ok (i, ADirectory).
Proof.
  intros Ht Hv. pose proof (resolve_tree _ _ _ (tk_tree _ _ Ht) (proj1 (valid_comps _) Hv)) as H.
  split; [by intros [_ Hi]%(ta_at _ _ (tk_tree _ _ Ht))|].
  intros E. unfold resolve in H. unfold do_lookup_path in E. unfold comps in H. by rewrite E in H; destruct H.
Qed.

(** Registering a cache. *)
Lemma register_run n u c :
  unreal_ok n u → cache_fits n (u_db u) (allocator u) c → vacant (u_db u) c →
  last_end (u_db u) + 1 + 100 * N.of_nat (length (acomps (ac_arena c))) + 10000 * N.of_nat n < u64_modulus →
  ∃ g', let u' := {| u_db := g'; u_fs := u_fs u; allocator := allocator u;
                     arena_caches := <[ac_arena c := c]> (arena_caches u) |} in
    register now c u = (Ok (), u') ∧ unreal_ok n u' ∧
    (∀ c', cache_fits n (u_db u) (allocator u) c' → cache_fits n g' (allocator u) c' ∧
           (vacant (u_db u) c' → vacant g' c')) ∧
    last_end g' ≤ last_end (u_db u) + 100 * N.of_nat (length (acomps (ac_arena c))).
Proof.
  intros [K1 K2 K3 (label & Ht & Hl) K5] [F1 F2 F3] Hvac Hroom. unfold register. rewrite F2.
  assert (check_all (ac_arena c) (arenas u) = Ok ()) as ->.
  { destruct (check_all_spec (ac_arena c) (arenas u)) as [[H _]|(b & _ & Hin & H)]; [done|].
    destruct H. apply list_elem_of_fmap in Hin as ([b' c'] & -> & Hc'%elem_of_map_to_list).
    apply K5 in Hc' as [<- Hf]. apply (K3 _ (ac_arena c')); [rewrite F2|rewrite (fi_root _ _ _ _ Hf)]; by eexists. }
  pose proof (K2 _ _ F2) as Hr.
  destruct (add_arena_root_run now (u_db u) label (ac_arena c) (ac_arena_root c)) as
    (g' & label' & -> & G1 & G2 & G3 & G4 & G5 & G6 & G7 & G8 & G9); [done..| |lia|].
  { intros i Hi. apply (Hvac i ADirectory). by apply (label_resolves _ label). }
  exists g'. split; [done|].
  assert (∀ c', cache_fits n (u_db u) (allocator u) c' → cache_fits n g' (allocator u) c') as Hfits.
  { intros c' Hf. eapply fits_moved; [done..|lia]. }
  split_and!; [|intros c' Hf; split; [by apply Hfits|]|done].
  - split; simpl; [done|unfold roots_ok; by rewrite G6|done| |].
    + exists label'. split; [done|]. intros a c'. rewrite lookup_insert. case_decide as E.
      * intros [= <-]. by subst a.
      * intros H. eapply lookup_weaken; [by apply Hl|done].
    + intros a c'. rewrite lookup_insert. case_decide as E.
      * intros [= <-]. split; [done|]. by apply Hfits; split.
      * intros [<- H]%K5. split; [done|]. by apply Hfits.
  - intros Hvac' i x Hi. destruct Hf as [F1' F2' _].
    pose proof (resolve_tree _ _ _ (tk_tree _ _ G2) (proj1 (valid_comps _) F1')) as H.
    unfold resolve in H. unfold do_lookup_path in Hi. unfold comps in H. rewrite Hi in H.
    destruct H as [Hl' ->]. fold (comps (arena_path (ac_arena c'))) in Hl'.
    destruct (G5 _ _ Hl') as [Hold|[->|(w & ws & E)]].
    + apply (Hvac' i ADirectory). by apply (label_resolves _ label).
    + rewrite G4 in Hl'. injection Hl' as E. apply (f_equal (Str.join "/")) in E.
      change (Str.join "/" (acomps (ac_arena c)) = Str.join "/" (acomps (ac_arena c'))) in E.
      rewrite <- !as_str_join in E. simpl in E. apply arena_name_inj in E. rewrite E in *. congruence.
    + exfalso. destruct (K3 (ac_arena c') (ac_arena c)) with (w := w) (ws := ws) as [H _]; [by eexists..|]. done.
Qed.

(** The directories that an arena's root may need. *)
Definition arena_depth c : nat := length (acomps (ac_arena c)).

Lemma register_all n (cs : list CacheOf) u :
  unreal_ok n u → NoDup (ac_arena <$> cs) →
  Forall (λ c, cache_fits n (u_db u) (allocator u) c ∧ vacant (u_db u) c ∧
               arena_caches u !! ac_arena c = None) cs →
  last_end (u_db u) + 1 + 100 * N.of_nat (sum_list (arena_depth <$> cs)) +
    10000 * N.of_nat n < u64_modulus →
  ∃ u', sfor cs (register now) u = (Ok (), u') ∧ unreal_ok n u' ∧ allocator u' = allocator u ∧
    ∀ a, arena_caches u' !! a = match list_find (λ c, ac_arena c = a) cs with
                                | Some (_, c) => Some c
                                | None => arena_caches u !! a
                                end.
Proof.
  revert u. induction cs as [|c cs IH]; intros u Hu Hnd Hcs Hroom; [by exists u|].
  csimpl in Hnd. csimpl in Hroom. apply NoDup_cons in Hnd as [Hc Hnd]. unfold arena_depth in Hroom at 1. apply Forall_cons in Hcs as [(Hf & Hv & Hno) Hcs].
  destruct (register_run n u c Hu Hf Hv) as (g' & Hrun & Hu' & Hrest & Hl); [lia|]. simpl in Hrun.
  set (u1 := {| u_db := g'; u_fs := u_fs u; allocator := allocator u; arena_caches := _ |}) in *.
  destruct (IH u1 Hu' Hnd) as (u' & Hrun' & Hok & Hal & Hget).
  - rewrite Forall_forall in Hcs |- *. intros c' Hc'. destruct (Hcs c' Hc') as (Hf' & Hv' & Hno').
    destruct (Hrest c' Hf') as [H1 H2]. split_and!; [exact H1|by apply H2|]. simpl. rewrite lookup_insert_ne; [done|].
    intros E. apply Hc. rewrite E. by apply list_elem_of_fmap_2.
  - change (u_db u1) with g'. lia.
  - exists u'. cbn [sfor]. unfold sbind. rewrite Hrun. split_and!; [done|done|done|]. intros a. rewrite Hget. simpl.
    destruct (list_find (λ c, ac_arena c = a) cs) as [[j c']|] eqn:E.
    + apply list_find_Some in E as (Hj & <- & _). apply list_elem_of_lookup_2 in Hj.
      rewrite decide_False; [done|]. intros E. apply Hc. rewrite E. by apply list_elem_of_fmap_2.
    + simpl. rewrite lookup_insert. by repeat case_decide.
Qed.

(** C18: when the cache starts on a database that the code left, with the caches of
    arenas that do not contain each other, and no directory of the database is
    where the root of one of them goes, then every cache is registered and the
    result is well formed: every arena hangs at the path that is its name. *)
Theorem with_db_attaches n g (files : Fs) roots (caches : list CacheOf)
  (Hg : database_ok g) (Hr : roots_ok g roots) (Hcompat : arenas_compatible roots)
  (Hnd : NoDup (ac_arena <$> caches))
  (Hfits : Forall (λ c, cache_fits n g roots c ∧ vacant g c) caches)
  (Hroom : last_end g + 1 + 100 * N.of_nat (sum_list (arena_depth <$> caches)) +
    10000 * N.of_nat n < u64_modulus) :
  ∃ u, with_db now g files roots caches = (Ok (), u) ∧ unreal_ok n u ∧
    (∀ c, c ∈ caches → arena_cache u (ac_arena c) = Ok c ∧
       do_lookup_path (directory_table (u_db u)) ROOT_DIR (Some (arena_path (ac_arena c))) =
         Ok (ac_arena_root c, ADirectory)) ∧
    ∀ a, a ∉ ac_arena <$> caches → arena_cache u a = Err NotFound.
Proof.
  destruct Hg as [Hg [label Ht]].
  destruct (register_all n caches (unreal_new g files roots)) as (u & Hrun & Hok & Hal & Hget); [|done| |done|].
  { split; [done|done|done| |]; [exists label; split; [done|]|]; intros a c; simpl; by rewrite lookup_empty. }
  { eapply Forall_impl; [exact Hfits|]. intros c [? ?]. split_and!; [done|done|]. apply lookup_empty. }
  assert (∀ c, c ∈ caches → arena_caches u !! ac_arena c = Some c) as Hin.
  { intros c Hc. rewrite Hget. destruct (list_find _ _) as [[j c']|] eqn:E.
    - apply list_find_Some in E as (Hj & E & _). apply list_elem_of_lookup_1 in Hc as [k Hk].
      assert (j = k) as ->; [|congruence].
      by eapply (NoDup_lookup (ac_arena <$> caches)); rewrite ?list_lookup_fmap, ?Hj, ?Hk; simpl; rewrite ?E.
    - apply list_find_None in E. rewrite Forall_forall in E. by destruct (E c Hc). }
  exists u. split_and!; [done|done| |].
  - intros c Hc%Hin. split; [unfold arena_cache; by rewrite Hc|].
    destruct (uk_cache _ _ Hok _ _ Hc) as [_ [F1 _ _]], (uk_tree _ _ Hok) as (label' & Ht' & Hl).
    by apply (label_resolves _ label'), Hl.
  - intros a Ha. unfold arena_cache. rewrite Hget. destruct (list_find _ _) as [[j c']|] eqn:E;
      [|simpl; by rewrite lookup_empty].
    apply list_find_Some in E as (Hj & <- & _). destruct Ha. by eapply list_elem_of_fmap_2, list_elem_of_lookup_2.
Qed.

(** An arena that contains another or is contained in one is refused, and
    nothing is registered or written; any other is not refused for that. *)
Theorem register_refuses u c r
  (Hr : InodeAllocator.arena_root (allocator u) (ac_arena c) = Some r) :
  (∃ b, b ∈ arenas u ∧ ¬ compatible (ac_arena c) b ∧
     register now c u = (Err (Incompatible (ac_arena c) b), u)) ∨
  (Forall (compatible (ac_arena c)) (arenas u) ∧
   ∀ x y, (register now c u).1 ≠ Err (Incompatible x y)).
Proof.
  unfold register. rewrite Hr. destruct (check_all_spec (ac_arena c) (arenas u)) as [[-> H]|(b & -> & ? & ?)].
  - right. split; [done|]. intros x y. unfold add_arena_root.
    by repeat case_match; simplify_eq/=.
  - left. by exists b.
Qed.

(** ** Walking down the tree *)

(** Looking the names of a path up one after the other, the way a client of
    [lookup] goes down. *)
Fixpoint walk u (current : Inode * InodeAssignment) (names : list string)
  : sresult (Inode * InodeAssignment) :=
  match names with
  | [] => Ok current
  | name :: names =>
      result_bind (lookup u current.1 name) (λ e, walk u (rd_inode e, assignment e) names)
  end.

Lemma walk_app u cur l k : walk u cur (l ++ k) = result_bind (walk u cur l) (λ cur, walk u cur k).
Proof. revert cur. induction l as [|x l IH]; intros cur; [done|]. simpl. by destruct (lookup _ _ _); simpl. Qed.

(** A directory or a file of the tree of an arena. *)
Definition inside c (x : Inode * InodeAssignment) : Prop :=
  x = (ac_arena_root c, ADirectory) ∨
  ∃ p n, tbl_get (p, n) (dir_table c) = Some (Regular {| rd_inode := x.1; assignment := x.2 |}).

Lemma inside_arena n u a c x :
  unreal_ok n u → arena_caches u !! a = Some c → inside c x →
  InodeAllocator.arena_for_inode (allocator u) (u_db u) x.1 = Ok (Some a).
Proof.
  intros Hu Hc Hx. destruct (uk_cache _ _ Hu _ _ Hc) as [<- [F1 F2 F3]].
  pose proof (uk_roots _ _ Hu _ _ F2) as Hr. apply (root_given _ _ _ (uk_global _ _ Hu)) in Hr as (Hr1 & Hro & _).
  unfold InodeAllocator.ROOT_INODE in Hr1.
  destruct Hx as [->|(p & m & He)]; simpl.
  - unfold InodeAllocator.arena_for_inode. rewrite (proj2 (N.eqb_neq _ _)) by (unfold InodeAllocator.ROOT_INODE; lia).
    by apply left_right in F2 as ->.
  - pose proof (co_owned _ _ _ _ F3 _ _ _ He) as Ho. simpl in Ho.
    pose proof (do_regular _ _ (co_dirs _ _ _ _ F3) _ _ _ He) as (_ & Hlt & Hd).
    apply is_dir_root in Hd; [|apply F3]. simpl in Hlt.
    rewrite (arena_for_owner _ _ _ (ac_arena_root c)); [| | |done].
    + rewrite (proj2 (N.eqb_neq _ _)) by (unfold InodeAllocator.ROOT_INODE; lia). by apply left_right in F2 as ->.
    + unfold InodeAllocator.ROOT_INODE. lia.
    + destruct (get_by_right (allocator u) x.1) as [b|] eqn:E; [|done]. apply left_right in E.
      apply (uk_roots _ _ Hu) in E. apply (root_given _ _ _ (uk_global _ _ Hu)) in E as (_ & Ho' & _).
      rewrite Ho in Ho'. injection Ho' as Ho'. unfold InodeAllocator.ROOT_INODE in Ho'. lia.
Qed.

(** Inside an arena, going down by inode is looking the path up. *)
Lemma walk_inside n u a c names x y :
  unreal_ok n u → arena_caches u !! a = Some c → Forall good_component names → inside c x →
  walk u x names = Ok y ↔ lookup_components (dir_table c) x names = Ok y.
Proof.
  intros Hu Hc. revert x. induction names as [|m names IH]; intros x; [done|].
  intros [Hm Hg]%Forall_cons Hx. simpl. unfold lookup, dispatch.
  rewrite (inside_arena _ _ _ _ _ Hu Hc Hx). simpl. unfold arena_cache. rewrite Hc. simpl.
  destruct (uk_cache _ _ Hu _ _ Hc) as [_ [_ _ F3]]. pose proof (co_dirs _ _ _ _ F3) as Hdirs.
  unfold do_lookup. destruct (get_dir_entry (dir_table c) x.1 m) as [e|] eqn:E; simpl.
  - apply (get_dir_entry_good _ _ _ _ _ Hdirs Hm) in E.
    rewrite bool_decide_true.
    + simpl. apply IH; [done|]. right. exists x.1, m. by destruct e.
    + destruct Hx as [->|(p & m' & He)]; [done|].
      destruct (do_regular _ _ Hdirs _ _ _ E) as (_ & _ & Hd).
      destruct Hd as [Hd|(p' & m'' & Hd)].
      * pose proof (do_regular _ _ Hdirs _ _ _ He) as (_ & Hlt & Hp). apply is_dir_root in Hp; [|done].
        simpl in Hlt. lia.
      * destruct (do_unique _ _ Hdirs _ _ _ _ _ _ He Hd eq_refl) as [-> ->].
        pose proof (eq_trans (eq_sym He) Hd) as E'. by injection E'.
  - case_bool_decide; simpl; [|done]. by split.
Qed.

(** Going down to an arena stays in the global directories. *)
Lemma walk_global n u a c cs ws :
  unreal_ok n u → arena_caches u !! a = Some c → acomps a = cs ++ ws →
  walk u (ROOT_DIR, ADirectory) cs = resolve ROOT_DIR (directory_table (u_db u)) cs.
Proof.
  intros Hu Hc. destruct (uk_tree _ _ Hu) as (label & Ht & Hl), (uk_cache _ _ Hu _ _ Hc) as [<- [F1 F2 F3]].
  pose proof (ta_at _ _ (tk_tree _ _ Ht) _ _ (Hl _ _ Hc)) as [Hgood _].
  revert ws. induction cs as [|m cs IH] using rev_ind; intros ws E; [done|].
  rewrite <- app_assoc in E. simpl in E. rewrite walk_app, (IH _ E). unfold resolve. rewrite lookup_app.
  rewrite E in Hgood. apply Forall_app in Hgood as [Hgood _].
  pose proof (resolve_tree _ _ _ (tk_tree _ _ Ht) Hgood) as H. unfold resolve in H.
  destruct (lookup_components _ _ cs) as [[i x]|e]; [|done]. destruct H as [Hi ->]. simpl.
  unfold lookup, dispatch.
  assert (InodeAllocator.arena_for_inode (allocator u) (u_db u) i = Ok None) as ->.
  { destruct (tk_given _ _ Ht _ _ Hi) as [->|(Hi1 & Ho & _)]; [done|].
    rewrite (arena_for_owner _ _ _ InodeAllocator.ROOT_INODE); [done| | |done].
    - unfold InodeAllocator.ROOT_INODE in *. lia.
    - destruct (get_by_right (allocator u) i) as [b|] eqn:Eb; [|done]. apply left_right in Eb.
      pose proof (tk_arena _ _ Ht _ _ _ (uk_roots _ _ Hu _ _ Eb) Hi) as ->.
      destruct (uk_compat _ _ Hu b (ac_arena c)) with (w := m) (ws := ws) as [H _]; [by eexists..|]. done. }
  simpl. unfold do_lookup. by destruct (get_dir_entry _ _ _).
Qed.

Lemma walk_run n u a c p i x :
  unreal_ok n u → arena_cache u a = Ok c → valid p →
  walk u (ROOT_DIR, ADirectory) (acomps a) = Ok (ac_arena_root c, ADirectory) ∧
  (walk u (ROOT_DIR, ADirectory) (acomps a ++ comps p) = Ok (i, x) ↔ lookup_path u a p = Ok (i, x)) ∧
  (lookup_path u a p = Ok (i, x) → arena_cache_for_inode u i = Ok c).
Proof.
  intros Hu Hc Hp. unfold arena_cache in Hc. destruct (arena_caches u !! a) as [c'|] eqn:E; [|done]. injection Hc as ->.
  pose proof (walk_global _ _ _ _ (acomps a) [] Hu E) as Hw. rewrite app_nil_r in Hw. specialize (Hw eq_refl).
  destruct (uk_tree _ _ Hu) as (label & Ht & Hl).
  rewrite (proj2 (ta_at _ _ (tk_tree _ _ Ht) _ _ (Hl _ _ E))) in Hw.
  assert (lookup_path u a p = lookup_components (dir_table c) (ac_arena_root c, ADirectory) (comps p)) as ->
    by (unfold lookup_path, arena_cache; by rewrite E).
  split; [done|]. split.
  - rewrite walk_app, Hw. simpl. eapply walk_inside; [done..|by apply valid_comps|by left].
  - intros Hr. unfold arena_cache_for_inode, arena_of_inode.
    pose proof (inside_arena n u a c (i, x) Hu E) as Hin. simpl in Hin. rewrite Hin; simpl.
    { unfold arena_cache. by rewrite E. }
    destruct (uk_cache _ _ Hu _ _ E) as [_ [_ _ F3]]. apply valid_comps in Hp.
    rewrite comps_parent in Hr, Hp. apply Forall_app in Hp as [_ [Hn _]%Forall_cons].
    fold (resolve (ac_arena_root c) (dir_table c) (Path.components (Path.parent p) ++ [Path.name p])) in Hr.
    apply resolve_snoc in Hr as (d & _ & Hr); [|apply F3|done]. right. by exists d, (Path.name p).
Qed.

(** C17: going down from the root through the directories that lead to an arena ends
    at the arena's root, and further down finds exactly what looking the path up
    in the arena's cache finds; every inode found on the way is answered by that
    cache. *)
Theorem walk_finds_arena n u a c p i x
  (Hu : unreal_ok n u) (Hc : arena_cache u a = Ok c) (Hp : valid p) :
  walk u (ROOT_DIR, ADirectory) (acomps a) = Ok (ac_arena_root c, ADirectory) ∧
  (walk u (ROOT_DIR, ADirectory) (acomps a ++ comps p) = Ok (i, x) ↔ lookup_path u a p = Ok (i, x)) ∧
  (lookup_path u a p = Ok (i, x) → arena_cache_for_inode u i = Ok c).
Proof. by apply (walk_run n). Qed.

(** ** Notifications *)

Lemma fits_weaken n n' g roots c :
  (n' ≤ n)%nat → cache_fits n g roots c → cache_fits n' g roots c.
Proof.
  intros Hn Hf. pose proof (ai_room _ _ _ _ (co_alloc _ _ _ _ (fi_ok _ _ _ _ Hf))). eapply fits_moved; [done..|lia].
Qed.

Lemma unreal_weaken n n' u : (n' ≤ n)%nat → unreal_ok n u → unreal_ok n' u.
Proof.
  intros Hn [K1 K2 K3 K4 K5]. split; try done. intros a c [? Hf]%K5. split; [done|]. by eapply fits_weaken.
Qed.

(** An operation of one cache that took ranges of inodes at most. *)
Lemma on_cache_ok n m u a c w :
  unreal_ok n u → arena_caches u !! a = Some c →
  cache_ok (ac_arena_root c) m (cache (db w)) (global (w_ext w)) →
  global_grows (u_db u) (global (w_ext w)) →
  unreal_ok m {| u_db := global (w_ext w); u_fs := fs (w_ext w); allocator := allocator u;
                 arena_caches := <[a := from_world c w]> (arena_caches u) |}.
Proof.
  intros [K1 K2 K3 (label & Ht & Hl) K5] Hc Hok Hgg.
  pose proof (ai_room _ _ _ _ (co_alloc _ _ _ _ Hok)) as Hroom. split; simpl.
  - by eapply global_ok_grows.
  - unfold roots_ok. by rewrite (gg_arenas _ _ Hgg).
  - done.
  - exists label. split; [by eapply tree_ok_grows|]. intros b c'. rewrite lookup_insert. case_decide as E.
    + intros [= <-]. subst b. exact (Hl _ _ Hc).
    + apply Hl.
  - intros b c'. rewrite lookup_insert. case_decide as E.
    + intros [= <-]. subst b. destruct (K5 _ _ Hc) as [? [F1 F2 F3]]. split; [done|]. by split.
    + intros [? Hf]%K5. split; [done|]. eapply fits_moved; [done|apply Hgg|apply Hgg|done].
Qed.

Lemma unreal_update_ok m peer nt u :
  well_formed peer nt → unreal_ok (inodes_needed nt + m) u →
  unreal_ok m (unreal_update now hash_order peer nt u).2.
Proof.
  intros Hwf Hu. unfold unreal_update, on_cache, arena_cache.
  destruct (arena_caches u !! notification_arena nt) as [c|] eqn:E; simpl.
  2:{ apply (unreal_weaken (inodes_needed nt + m)); [lia|done]. }
  destruct (uk_cache _ _ Hu _ _ E) as [Ea [F1 F2 F3]].
  pose proof (cache_update_run (ac_arena c) (ac_arena_root c) (allocator u) (ac_blob_dir c) now hash_order
    hash_order_perm F2 m peer nt (in_world c (u_db u) (u_fs u)) Hwf F3) as H.
  destruct (update _ _ _ _ _ _ peer nt (in_world c (u_db u) (u_fs u))) as [[[]|e] w].
  - exact (on_cache_ok _ _ _ _ _ _ Hu E (uo_ok _ _ _ _ _ _ H) (uo_global _ _ _ _ _ _ H)).
  - destruct H as (_ & H2 & _ & H4). exact (on_cache_ok _ _ _ _ _ _ Hu E H2 H4).
Qed.

(** A notification goes to the cache of its arena, which takes it as its
    specification says; the caches of the other arenas and the directories that
    lead to them stay as they are, and the whole stays well formed.  When it
    fails no table of any arena has changed. *)
Theorem update_one_arena m peer nt u
  (Hwf : well_formed peer nt) (Hu : unreal_ok (inodes_needed nt + m) u) :
  let a := notification_arena nt in
  let '(r, u') := unreal_update now hash_order peer nt u in
  unreal_ok m u' ∧ directory_table (u_db u') = directory_table (u_db u) ∧
  (∀ b, b ≠ a → arena_cache u' b = arena_cache u b) ∧
  match r with
  | Ok _ => ∃ c c', arena_cache u a = Ok c ∧ arena_cache u' a = Ok c' ∧
      view_step (ac_arena_root c) (peer_name peer) nt (cache_tables c) (cache_tables c')
  | Err e => (∀ b, result_map ac_db (arena_cache u' b) = result_map ac_db (arena_cache u b)) ∧
      (e = NotADirectory ∨ e = IsADirectory ∨ e = NotFound)
  end.
Proof.
  intros a. pose proof (unreal_update_ok m peer nt u Hwf Hu) as Hok. revert Hok.
  unfold unreal_update, on_cache, arena_cache. fold a.
  destruct (arena_caches u !! a) as [c|] eqn:E; simpl; [|intros Hok; split_and!; auto].
  destruct (uk_cache _ _ Hu _ _ E) as [Ea [F1 F2 F3]].
  pose proof (cache_update_run (ac_arena c) (ac_arena_root c) (allocator u) (ac_blob_dir c) now hash_order
    hash_order_perm F2 m peer nt (in_world c (u_db u) (u_fs u)) Hwf F3) as H.
  destruct (update _ _ _ _ _ _ peer nt (in_world c (u_db u) (u_fs u))) as [r w]. intros Hok. split; [exact Hok|].
  split; [destruct r; [apply (uo_global _ _ _ _ _ _ H)|apply H]|].
  simpl. split; [intros b Hb; by rewrite lookup_insert_ne|]. destruct r as [[]|e].
  - exists c, (from_world c w). rewrite lookup_insert_eq. split_and!; [done|done|apply (uo_view _ _ _ _ _ _ H)].
  - destruct H as (H1 & _ & H3 & _). split; [|done]. intros b. rewrite lookup_insert. case_decide as Eb; [|done].
    subst b. rewrite E. simpl. by rewrite H1.
Qed.

(** ** A directory in the way *)

(** When a directory of the database, left from another configuration, is where
    the root of an arena goes, registering the arena succeeds without attaching
    its root: the path of the arena still leads to the old directory, and no
    path of the global tree leads to the arena's root. *)
Theorem old_directory_hides_arena n g (files : Fs) roots c i x
  (Hg : database_ok g) (Hr : roots_ok g roots) (Hf : cache_fits n g roots c)
  (Hold : do_lookup_path (directory_table g) ROOT_DIR (Some (arena_path (ac_arena c))) = Ok (i, x))
  (Hne : i ≠ ac_arena_root c) :
  ∃ u, register now c (unreal_new g files roots) = (Ok (), u) ∧ arena_cache u (ac_arena c) = Ok c ∧
    directory_table (u_db u) = directory_table g ∧
    ∀ p y, valid p → do_lookup_path (directory_table (u_db u)) ROOT_DIR (Some p) ≠ Ok (ac_arena_root c, y).
Proof.
  destruct Hg as [Hg [label Ht]], Hf as [F1 F2 F3]. unfold register, unreal_new. simpl. rewrite F2.
  unfold arenas. simpl. rewrite map_to_list_empty. simpl. unfold add_arena_root.
  change (Path.parse (arena_name (ac_arena c))) with (Path.parse (as_str (arena_path (ac_arena c)))).
  rewrite F1, Hold. eexists. split; [done|]. unfold arena_cache. simpl. rewrite lookup_insert_eq.
  split_and!; [done|done|]. intros p y Hp Hpath.
  pose proof (resolve_tree _ _ _ (tk_tree _ _ Ht) (proj1 (valid_comps _) Hp)) as H.
  pose proof (resolve_tree _ _ _ (tk_tree _ _ Ht) (proj1 (valid_comps _) F1)) as H'.
  unfold resolve, comps in H, H'. unfold do_lookup_path in Hpath, Hold. rewrite Hpath in H. rewrite Hold in H'.
  destruct H as [Hl ->], H' as [Hl' ->]. pose proof (tk_arena _ _ Ht _ _ _ (Hr _ _ F2) Hl) as E.
  unfold comps in E. rewrite E in Hpath. simpl in *. congruence.
Qed.

Lemma unreal_database n u : unreal_ok n u → database_ok (u_db u).
Proof. intros [K1 K2 K3 (label & Ht & _) K5]. split; [done|]. by exists label. Qed.
End unreal.

(** ** Witnesses *)

Section witnesses.
#[local] Existing Instance gmap_redb.
#[local] Existing Instance list_bimap.
#[local] Existing Instance list_bimap_laws.

Definition arena_ab : Arena := mkArena "a/b".
Definition arena_c : Arena := mkArena "c".
Definition now1 : UnixTime := mkUnixTime 9.

(** A process with the arenas "a/b" and "c" on a new database. *)
Definition start1 : GlobalTables * bimap := (InodeAllocator.new [arena_ab; arena_c] global_empty).2.
Definition cache_ab : CacheOf :=
  {| ac_arena := arena_ab; ac_arena_root := 2; ac_blob_dir := "/blobs"; ac_db := arena_empty;
     ac_watch := 0; ac_history := 0 |}.
Definition cache_c : CacheOf :=
  {| ac_arena := arena_c; ac_arena_root := 3; ac_blob_dir := "/blobs2"; ac_db := arena_empty;
     ac_watch := 0; ac_history := 0 |}.
Definition unreal1 : UnrealCacheBlocking := (with_db now1 start1.1 ∅ start1.2 [cache_ab; cache_c]).2.

Lemma check_ok a b : check_arena_compatibility a b = Ok () → compatible a b.
Proof. by destruct (check_compatible a b) as [[_ ?]|[-> _]]. Qed.

Lemma compatible_list (l : list Arena) (roots : bimap) :
  (∀ b, is_Some (get_by_left roots b) ↔ b ∈ l ∨ is_Some (get_by_left bimap_new b)) →
  forallb (λ a, forallb (λ b, 
    match check_arena_compatibility a b with Ok _ => true | Err _ => false end) l) l = true →
  arenas_compatible roots.
Proof.
  intros Hd Hl a b Ha Hb. rewrite forallb_forall in Hl.
  apply Hd in Ha as [Ha|[? Ha]], Hb as [Hb|[? Hb]]; try (by rewrite left_new in Ha || rewrite left_new in Hb).
  apply check_ok. apply list_elem_of_In in Ha, Hb. apply Hl in Ha. rewrite forallb_forall in Ha.
  apply Ha in Hb. by destruct (check_arena_compatibility a b) as [[]|e].
Qed.

Lemma start1_ok : database_ok start1.1 ∧ roots_ok start1.1 start1.2 ∧ arenas_compatible start1.2.
Proof.
  destruct (new_database [arena_ab; arena_c] global_empty bimap_new) as (g & r & Hrun & Hg & Hr & Hd);
    [apply database_empty|intros a v; by rewrite left_new|by vm_compute|].
  assert (start1 = (g, r)) as -> by (unfold start1, InodeAllocator.new; by rewrite Hrun).
  split_and!; [done|done|]. apply (compatible_list [arena_ab; arena_c]); [done|by vm_compute].
Qed.

Lemma fits1 n : N.of_nat n ≤ 1000 →
  Forall (λ c, cache_fits n start1.1 start1.2 c ∧ vacant start1.1 c) [cache_ab; cache_c].
Proof.
  intros Hn. assert (last_end start1.1 = 101) as E by by vm_compute.
  assert (∀ c, valid (arena_path (ac_arena c)) → InodeAllocator.arena_root start1.2 (ac_arena c) = Some (ac_arena_root c) →
    ac_db c = arena_empty → ac_arena_root c ≤ 101 →
    (match do_lookup_path (directory_table start1.1) ROOT_DIR (Some (arena_path (ac_arena c))) with
     | Ok _ => false | Err _ => true end) = true →
    cache_fits n start1.1 start1.2 c ∧ vacant start1.1 c) as H.
  { intros c H1 H2 H3 H4 H5. split.
    - split; [done|done|]. unfold cache_tables. rewrite H3. apply cache_ok_init; rewrite ?E; unfold u64_modulus; lia.
    - intros i x Hi. by rewrite Hi in H5. }
  constructor; [|constructor; [|done]]; apply H; by vm_compute.
Qed.

Lemma room1 n : N.of_nat n ≤ 1000 → last_end start1.1 + 1 + 100 * N.of_nat
  (sum_list (arena_depth <$> [cache_ab; cache_c])) + 10000 * N.of_nat n < u64_modulus.
Proof.
  assert (last_end start1.1 = 101) as -> by by vm_compute.
  assert (sum_list (arena_depth <$> [cache_ab; cache_c]) = 3%nat) as -> by by vm_compute.
  unfold u64_modulus. lia.
Qed.

Lemma nodup1 : NoDup (ac_arena <$> [cache_ab; cache_c]).
Proof. by apply (bool_decide_unpack _). Qed.

Lemma with_db_attaches_witness :
  unreal_ok 10 unreal1 ∧ arena_cache unreal1 arena_ab = Ok cache_ab ∧
  do_lookup_path (directory_table (u_db unreal1)) ROOT_DIR (Some (arena_path arena_ab)) = Ok (2, ADirectory) ∧
  arena_cache unreal1 (mkArena "d") = Err NotFound.
Proof.
  destruct start1_ok as (Hg & Hr & Hc).
  destruct (with_db_attaches now1 10 start1.1 ∅ start1.2 [cache_ab; cache_c] Hg Hr Hc nodup1
    (fits1 10 ltac:(done)) (room1 10 ltac:(done))) as (u & Hrun & Hu & Hin & Hout).
  assert (unreal1 = u) as -> by (unfold unreal1; by rewrite Hrun).
  destruct (Hin cache_ab) as [H1 H2]; [left|]. split; [exact Hu|]. split; [exact H1|]. split; [exact H2|].
  apply Hout. by apply (bool_decide_unpack _).
Defined.

Lemma unreal1_ok n : N.of_nat n ≤ 1000 → unreal_ok n unreal1.
Proof.
  intros Hn. destruct start1_ok as (Hg & Hr & Hc).
  destruct (register_all now1 n [cache_ab; cache_c] (unreal_new start1.1 ∅ start1.2)) as (u & Hrun & Hu & _).
  - destruct Hg as [Hg [label Ht]]. split; [done|done|done| |]; [exists label; split; [done|]|]; intros a c;
      simpl; by rewrite lookup_empty.
  - apply nodup1.
  - eapply Forall_impl; [by apply (fits1 n)|]. intros c [? ?]. split_and!; [done|done|]. apply lookup_empty.
  - by apply room1.
  - assert (unreal1 = u) as -> by (unfold unreal1, with_db; by rewrite Hrun). done.
Qed.

(** A peer tells of a file of "a/b". *)
Definition nt1 : Notification := NAdd arena_ab 3 foobar (mkUnixTime 7) 5 hash1.
Definition unreal2 : UnrealCacheBlocking := (unreal_update now1 id peer1 nt1 unreal1).2.

Lemma update_one_arena_witness :
  unreal_ok 8 unreal2 ∧ directory_table (u_db unreal2) = directory_table (u_db unreal1) ∧
  arena_cache unreal2 arena_c = arena_cache unreal1 arena_c ∧
  ∃ c c', arena_cache unreal1 arena_ab = Ok c ∧ arena_cache unreal2 arena_ab = Ok c' ∧
    view_step (ac_arena_root c) "peer1" nt1 (cache_tables c) (cache_tables c').
Proof.
  assert (well_formed peer1 nt1) as Hwf by (split; [done|]; intros p [= <-]; by vm_compute).
  pose proof (update_one_arena now1 id (λ l, reflexivity l) 8 peer1 nt1 unreal1 Hwf
    (unreal1_ok 10 ltac:(done))) as H.
  assert ((unreal_update now1 id peer1 nt1 unreal1).1 = Ok tt) as E by (vm_compute; reflexivity).
  unfold unreal2. destruct (unreal_update now1 id peer1 nt1 unreal1) as [r u']. simpl in E. subst r.
  destruct H as (H1 & H2 & H3 & H4). split; [exact H1|]. split; [exact H2|]. split; [|exact H4].
  apply H3. by apply (bool_decide_unpack _).
Defined.

Lemma unreal2_ok : unreal_ok 8 unreal2.
Proof.
  apply (unreal_update_ok now1 id (λ l, reflexivity l) 8 peer1 nt1); [|by apply (unreal1_ok 10)].
  split; [done|]. intros p [= <-]. by vm_compute.
Qed.

Definition cache2 : CacheOf := default cache_ab (arena_caches unreal2 !! arena_ab).

Lemma walk_finds_arena_witness :
  lookup_path unreal2 arena_ab foobar = Ok (103, AFile) ∧
  walk unreal2 (ROOT_DIR, ADirectory) ["a"; "b"; "foo"; "bar"] = Ok (103, AFile) ∧
  arena_cache_for_inode unreal2 103 = Ok cache2.
Proof.
  assert (lookup_path unreal2 arena_ab foobar = Ok (103, AFile)) as E by (vm_compute; reflexivity).
  assert (arena_cache unreal2 arena_ab = Ok cache2) as Hc.
  { assert (is_Some (arena_caches unreal2 !! arena_ab)) as [c Hc].
    { unfold lookup_path, arena_cache in E. destruct (arena_caches unreal2 !! arena_ab); [by eexists|discriminate E]. }
    unfold arena_cache, cache2. by rewrite Hc. }
  destruct (walk_finds_arena 8 unreal2 arena_ab cache2 foobar 103 AFile unreal2_ok Hc) as (_ & H2 & H3);
    [by vm_compute|].
  split; [exact E|]. split; [apply H2, E|apply H3, E].
Defined.

Definition cache_inner : CacheOf :=
  {| ac_arena := mkArena "a"; ac_arena_root := 9; ac_blob_dir := "/blobs"; ac_db := arena_empty;
     ac_watch := 0; ac_history := 0 |}.

Lemma register_refuses_witness :
  let u := {| u_db := u_db unreal1; u_fs := ∅; allocator := bimap_insert (mkArena "a") 9 (allocator unreal1);
              arena_caches := arena_caches unreal1 |} in
  ∃ b, b ∈ arenas u ∧ ¬ compatible (mkArena "a") b ∧
    register now1 cache_inner u = (Err (Incompatible (mkArena "a") b), u).
Proof.
  intros u. destruct (register_refuses now1 u cache_inner 9) as [H|[H _]]; [by vm_compute|exact H|].
  exfalso. rewrite Forall_forall in H.
  assert (existsb (λ b, bool_decide (b = arena_ab)) (arenas u) = true) as Hin by (vm_compute; reflexivity).
  apply existsb_exists in Hin as (b & Hb & Eb). apply bool_decide_eq_true_1 in Eb. subst b.
  apply list_elem_of_In, H in Hb. by destruct (Hb "b" []) as [Hb1 _].
Defined.

(** Later the configuration has the arena "a" alone; the directory "a" is still
    in the database. *)
Definition start3 : GlobalTables * bimap := (InodeAllocator.new [mkArena "a"] (u_db unreal1)).2.
Definition cache_a : CacheOf :=
  {| ac_arena := mkArena "a"; ac_arena_root := 5; ac_blob_dir := "/blobs"; ac_db := arena_empty;
     ac_watch := 0; ac_history := 0 |}.

Lemma start3_ok : database_ok start3.1 ∧ roots_ok start3.1 start3.2.
Proof.
  destruct (new_database [mkArena "a"] (u_db unreal1) bimap_new) as (g & r & Hrun & Hg & Hr & Hd);
    [by apply (unreal_database 10), unreal1_ok|intros a v; by rewrite left_new|by vm_compute|].
  assert (start3 = (g, r)) as -> by (unfold start3, InodeAllocator.new; by rewrite Hrun).
  split; [exact Hg|exact Hr].
Qed.

Lemma old_directory_hides_arena_witness :
  do_lookup_path (directory_table start3.1) ROOT_DIR (Some (arena_path (mkArena "a"))) = Ok (4, ADirectory) ∧
  ∃ u, register now1 cache_a (unreal_new start3.1 ∅ start3.2) = (Ok (), u) ∧
    arena_cache u (mkArena "a") = Ok cache_a ∧
    do_lookup_path (directory_table (u_db u)) ROOT_DIR (Some foobar) ≠ Ok (5, ADirectory).
Proof.
  assert (do_lookup_path (directory_table start3.1) ROOT_DIR (Some (arena_path (mkArena "a"))) = Ok (4, ADirectory))
    as E by (vm_compute; reflexivity).
  destruct start3_ok as [Hg Hr]. assert (last_end start3.1 = 101) as El by by vm_compute.
  assert (cache_fits 10 start3.1 start3.2 cache_a) as Hf.
  { split; [by vm_compute|by vm_compute|].
    apply cache_ok_init; rewrite ?El; unfold u64_modulus; simpl; lia. }
  destruct (old_directory_hides_arena now1 10 start3.1 ∅ start3.2 cache_a 4 ADirectory Hg Hr Hf E)
    as (u & H1 & H2 & _ & H3); [done|].
  split; [exact E|]. exists u. split; [exact H1|]. split; [exact H2|]. apply H3. by vm_compute.
Defined.
End witnesses.
