(* ===== verification/Mark.v ===== *)
(** * Marks

    [crate/realize-storage/src/arena/mark.rs]: a mark says what to do with the
    files of a path.  It is set on files, directories or the whole arena, and is
    inherited from the nearest parent that has one.  Changing a mark marks the
    files it applies to dirty, both in the index and in the cache. *)
From S2P Require Import Prelude Redb Path Types Db Dirty InodeAllocator Blob Dirs Index ArenaCache CacheInv CacheSpec.
Local Open Scope N_scope.
Local Open Scope realize_scope.

Section mark.
Context {R : Redb}.
Context (arena_root : Inode).

Abbreviation MarkTable := (table string MarkTableEntry).

Definition mark_table_of (t : Txn) : MarkTable := mark_table (tables t).
Definition put_mark_table (x : MarkTable) (t : Txn) : Txn :=
  set_tables (set_mark_table x (tables t)) t.

(** [path.map(|p| p.as_str()).unwrap_or("")] *)
Definition mark_key (path : option Path) : string := default "" (as_str <$> path).

(** The loop of [do_get_mark]; [None] when [fuel] is not enough. *)
Fixpoint get_mark_loop (fuel : nat) (mark_table : MarkTable) (current : option Path) : option Mark :=
  match fuel with
  | O => None
  | S fuel =>
      match tbl_get (mark_key current) mark_table with
      | Some entry => Some (mark entry)
      | None =>
          match current with
          | None => Some Mark_default
          | Some p => get_mark_loop fuel mark_table (Path.parent p)
          end
      end
  end.

(** The loop runs once per component and once for the root ([get_mark_enough]). *)
Definition do_get_mark (mark_table : MarkTable) (path : option Path) : Mark :=
  default Mark_default (get_mark_loop (S (length (Path.components path))) mark_table path).

(** [PathMarks::get_mark] and [get_mark] *)
Definition get_mark (tb : Tables) (path : Path) : Mark := do_get_mark (mark_table tb) (Some path).

(** A bound on the recursion over the directories of the cache: inodes only grow
    along the way ([mark_dir_run]). *)
Definition dir_depth (dir_table : table (N * string) DirTableEntry) : nat :=
  S (S (N.to_nat (foldr (λ kv acc, N.max (match kv.2 with Regular e => rd_inode e | Dot _ => 0 end) acc)
                    0 (tbl_iter dir_table)))).

Definition cache_mark_dirty (path : option Path) : TxnM () := λ t,
  default (Ok tt, t) (ArenaCache.mark_dirty_recursive arena_root (dir_depth (dir_table_of t)) path t).

Definition index_mark_dirty (path_or_root : option Path) : TxnM () :=
  match path_or_root with
  | Some path => Index.mark_dirty_recursive path
  | None => make_all_dirty
  end.

(** [PathMarks::mark_dirty] *)
Definition marks_mark_dirty (path_or_root : option Path) : TxnM () :=
  do* index_mark_dirty path_or_root in
  cache_mark_dirty path_or_root.

Definition set_mark_or_root (path_or_root : option Path) (m : Mark) : WorldM () :=
  write_txn (
    let* mark_table := sget mark_table_of in
    let before := do_get_mark mark_table path_or_root in
    do* smodify (put_mark_table (tbl_insert (mark_key path_or_root) {| mark := m |} mark_table)) in
    do* (if negb (bool_decide (before = m)) then marks_mark_dirty path_or_root else sret tt) in
    sret (Commit tt)).

Definition set_arena_mark (m : Mark) : WorldM () := set_mark_or_root None m.
Definition set_mark (path : Path) (m : Mark) : WorldM () := set_mark_or_root (Some path) m.

Definition clear_mark (path : Path) : WorldM () :=
  write_txn (
    let* mark_table := sget mark_table_of in
    match tbl_get (as_str path) mark_table with
    | None => sret (Rollback tt)
    | Some e =>
        let before := mark e in
        do* smodify (put_mark_table (tbl_remove (as_str path) mark_table)) in
        let after := do_get_mark (tbl_remove (as_str path) mark_table) (Some path) in
        do* (if negb (bool_decide (before = after)) then marks_mark_dirty (Some path) else sret tt) in
        sret (Commit tt)
    end).

Context `{!RedbLaws R}.
Implicit Types (mt : MarkTable) (cs qs : list string) (p q : Path).

(** ** Inheritance *)

(** The mark set on the path with the given components; none for the root. *)
Definition mark_at mt cs : option Mark := mark <$> tbl_get (Str.join "/" cs) mt.

(** The nearest mark, given the components from the last one to the first. *)
Fixpoint nearest mt (rcs : list string) : option Mark :=
  match mark_at mt (reverse rcs) with
  | Some m => Some m
  | None => match rcs with [] => None | _ :: rcs => nearest mt rcs end
  end.

Definition effective mt cs : Mark := default Mark_default (nearest mt (reverse cs)).

Lemma mark_key_join path : mark_key path = Str.join "/" (Path.components path).
Proof. destruct path as [p|]; [apply (as_str_join p)|done]. Qed.

Lemma get_mark_enough mt path fuel :
  (length (Path.components path) < fuel)%nat →
  get_mark_loop fuel mt path = Some (effective mt (Path.components path)).
Proof.
  revert path. induction fuel as [|fuel IH]; intros path Hf; [lia|]. cbn [get_mark_loop].
  rewrite mark_key_join. unfold effective. destruct path as [p|].
  - change (Path.components (Some p)) with (comps p) in *. rewrite (comps_parent p) in *.
    rewrite length_app in Hf. simpl in Hf. rewrite reverse_snoc. cbn [nearest].
    rewrite reverse_cons, reverse_involutive. unfold mark_at.
    destruct (tbl_get (Str.join "/" _) mt) as [e|]; [done|]. simpl. by rewrite IH by lia.
  - simpl. unfold mark_at. simpl. by destruct (tbl_get "" mt).
Qed.

Lemma do_get_mark_effective mt path : do_get_mark mt path = effective mt (Path.components path).
Proof. unfold do_get_mark. by rewrite get_mark_enough by lia. Qed.

Lemma nearest_snoc mt cs c :
  nearest mt (reverse (cs ++ [c])) =
  match mark_at mt (cs ++ [c]) with Some m => Some m | None => nearest mt (reverse cs) end.
Proof. rewrite reverse_snoc. cbn [nearest]. by rewrite reverse_cons, reverse_involutive. Qed.

Lemma nearest_nil mt : nearest mt (reverse []) = mark_at mt [].
Proof. simpl. by destruct (mark_at mt _). Qed.

(** The mark at [cs] decides for [qs]: it is on the way, and no mark set below it
    is nearer. *)
Definition governs mt cs qs : Prop :=
  cs `prefix_of` qs ∧
  ∀ rs, cs `prefix_of` rs → rs ≠ cs → rs `prefix_of` qs → mark_at mt rs = None.

Lemma governs_refl mt cs : governs mt cs cs.
Proof.
  split; [done|]. intros rs H1 H2 H3. destruct H2. by apply (anti_symm prefix).
Qed.

Lemma governs_snoc mt cs qs (q : string) :
  cs ≠ qs ++ [q] →
  governs mt cs (qs ++ [q]) ↔ governs mt cs qs ∧ mark_at mt (qs ++ [q]) = None.
Proof.
  intros Hne. split.
  - intros [H1 H2]. assert (cs `prefix_of` qs) as Hp.
    { apply prefix_snoc_inv in H1 as [?|?]; [done|by subst]. }
    split; [split; [done|]|].
    + intros rs ???. apply H2; [done|done|]. by apply prefix_app_r.
    + apply H2; [done|congruence|done].
  - intros [[H1 H2] H3]. split; [by apply prefix_app_r|]. intros rs Hr1 Hr2 Hr3.
    apply prefix_snoc_inv in Hr3 as [?| ->]; [by apply H2|done].
Qed.

Lemma governs_nearest mt cs qs : governs mt cs qs → effective mt qs = effective mt cs.
Proof.
  induction qs as [|q qs IH] using rev_ind; intros Hg.
  - destruct Hg as [H _]. by apply prefix_nil_inv in H as ->.
  - destruct (decide (cs = qs ++ [q])) as [->|Hne]; [done|].
    apply governs_snoc in Hg as [Hg Hn]; [|done]. rewrite <- IH by done.
    unfold effective. by rewrite nearest_snoc, Hn.
Qed.

(** Two tables that differ at [cs] only. *)
Definition differ_at mt mt' cs : Prop := ∀ rs, rs ≠ cs → Forall good_component rs → mark_at mt' rs = mark_at mt rs.

Lemma governs_differ mt mt' cs qs :
  differ_at mt mt' cs → Forall good_component qs → governs mt cs qs → governs mt' cs qs.
Proof.
  intros Hd Hg [H1 H2]. split; [done|]. intros rs Hr1 Hr2 [k Hr3]. rewrite Hd; [apply H2; [done..|by exists k]|done|].
  rewrite Hr3 in Hg. by apply Forall_app in Hg as [? _].
Qed.

Lemma not_governs_nearest mt mt' cs qs :
  differ_at mt mt' cs → Forall good_component qs → ¬ governs mt cs qs →
  effective mt' qs = effective mt qs.
Proof.
  intros Hd. unfold effective. induction qs as [|q qs IH] using rev_ind; intros Hg Hn.
  - rewrite !nearest_nil. rewrite Hd; [done| |done]. intros <-. apply Hn, governs_refl.
  - pose proof Hg as Hg'. apply Forall_app in Hg' as [Hgq _]. rewrite !nearest_snoc.
    assert (cs ≠ qs ++ [q]) as Hne by (intros ->; apply Hn, governs_refl). rewrite (Hd (qs ++ [q])) by done.
    destruct (mark_at mt (qs ++ [q])) as [m|] eqn:E; [done|]. apply IH; [done|].
    intros H. by apply Hn, governs_snoc.
Qed.

(** A change at [cs] changes the mark of another path only by changing that of
    [cs] itself. *)
Lemma effective_change mt mt' cs qs :
  differ_at mt mt' cs → Forall good_component qs → effective mt' qs ≠ effective mt qs →
  cs `prefix_of` qs ∧ effective mt' cs ≠ effective mt cs.
Proof.
  intros Hd Hg Hne. assert (¬ ¬ governs mt cs qs) as Hgov.
  { intros H. by apply Hne, (not_governs_nearest _ _ cs). }
  assert (cs `prefix_of` qs) as Hp by (destruct (decide (cs `prefix_of` qs)) as [|H]; [done|by destruct Hgov; intros [? _]]).
  split; [done|]. intros E. apply Hgov. intros H. apply Hne.
  rewrite (governs_nearest _ _ _ H), <- E. apply governs_nearest. by eapply governs_differ.
Qed.

(** ** Marking files dirty *)

Definition mark_all (l : list Path) (t : Txn) : Txn := foldl (λ t p, mark_dirty p t) t l.

Lemma mark_all_app l1 l2 t : mark_all (l1 ++ l2) t = mark_all l2 (mark_all l1 t).
Proof. apply foldl_app. Qed.

Lemma mark_all_tables l t : tables (mark_all l t) = set_dirty (marks l (dirty (tables t))) (tables t).
Proof.
  revert t. induction l as [|p l IH]; intros t; [by destruct t as [[] ? ?]|].
  change (mark_all (p :: l) t) with (mark_all l (mark_dirty p t)). by rewrite IH.
Qed.

Lemma mark_all_ext l t : ext (mark_all l t) = ext t.
Proof.
  revert t. induction l as [|p l IH]; intros t; [done|].
  change (mark_all (p :: l) t) with (mark_all l (mark_dirty p t)). by rewrite IH.
Qed.

(** A loop that marks some paths. *)
Lemma sfor_marks {A} (g : A → option Path) (f : A → TxnM ()) (l : list A) t :
  (∀ x, f x = match g x with Some p => smodify (mark_dirty p) | None => sret tt end) →
  sfor l f t = (Ok tt, mark_all (omap g l) t).
Proof.
  intros Hf. revert t. induction l as [|x l IH]; intros t; [done|]. simpl. unfold sbind.
  rewrite Hf. destruct (g x) as [p|]; simpl; by rewrite IH.
Qed.

(** *** In the index *)

Definition indexed (t : Txn) p : Prop :=
  valid p ∧ is_Some (tbl_get (as_str p) (index_file_table (index (tables t)))).

Lemma parse_as_str k p : Path.parse k = Ok p → k = as_str p ∧ valid p.
Proof. intros H. pose proof H as [-> _]%parse_spec. done. Qed.

Lemma index_mark_run p t :
  ∃ l, Index.mark_dirty_recursive p t = (Ok tt, mark_all l t) ∧
    ∀ q, q ∈ l ↔ indexed t q ∧ Path.starts_with q p = true.
Proof.
  unfold Index.mark_dirty_recursive, sbind, sget.
  set (g := λ kv : string * IndexedFileTableEntry,
    if negb (PathPrefix.accept (PathPrefix.new p) kv.1) then None else result_ok (Path.parse kv.1)).
  rewrite (sfor_marks g).
  2:{ intros kv. unfold g. destruct (negb _); [done|]. by destruct (Path.parse kv.1). }
  eexists. split; [done|]. intros q. rewrite list_elem_of_omap. unfold indexed, file_table_of. split.
  - intros ([k v] & [Hk _]%elem_of_range & Hg). unfold g in Hg. simpl in Hg.
    rewrite accept_starts_with in Hg. destruct (Path.starts_with (mkPath k) p) eqn:E; [|done]. simpl in Hg.
    destruct (Path.parse k) as [q'|e] eqn:Ep; [|done]. injection Hg as ->.
    apply parse_as_str in Ep as [-> Hv]. split; [split; [done|by exists v]|]. by destruct q.
  - intros ([Hv [v Hk]] & Hs). exists (as_str q, v). split.
    + apply elem_of_range. split; [done|]. apply accept_in_range. rewrite accept_starts_with. by destruct q.
    + unfold g. simpl. rewrite accept_starts_with. destruct q as [s]. unfold valid in Hv. simpl in *.
      rewrite Hs. simpl. by rewrite Hv.
Qed.

Lemma index_all_run t :
  ∃ l, make_all_dirty t = (Ok tt, mark_all l t) ∧ ∀ q, q ∈ l ↔ indexed t q.
Proof.
  unfold make_all_dirty, sbind, sget.
  rewrite (sfor_marks (λ kv, result_ok (Path.parse kv.1))) by (intros kv; by destruct (Path.parse kv.1)).
  eexists. split; [done|]. intros q. rewrite list_elem_of_omap. unfold indexed, file_table_of. split.
  - intros ([k v] & Hk%elem_of_iter & Hg). simpl in Hg.
    destruct (Path.parse k) as [q'|e] eqn:Ep; [|done]. injection Hg as ->.
    apply parse_as_str in Ep as [-> Hv]. split; [done|by exists v].
  - intros (Hv & [v Hk]). exists (as_str q, v). split; [by apply elem_of_iter|]. simpl. by rewrite Hv.
Qed.

(** *** In the cache *)

Section cached.
Context (dt : table (N * string) DirTableEntry) (ft : table (N * string) FileTableEntry) (b : N).
Context (Hdt : dirs_ok arena_root dt) (Hb : b < u64_modulus)
  (Hbelow : ∀ (d : Inode) n (e : ReadDirEntry), tbl_get (d, n) dt = Some (Regular e) → rd_inode e < b).

Lemma take_while_all {A} (f : A → bool) (l : list A) : (∀ x, x ∈ l → f x = true) → take_while f l = l.
Proof.
  induction l as [|x l IH]; intros H; [done|]. simpl. rewrite (H x) by (by left).
  f_equal. apply IH. intros y Hy. apply H. by right.
Qed.

Lemma elem_of_dir_entries (i : Inode) d n v :
  i < b → ((d, n), v) ∈ dir_entries dt i ↔ d = i ∧ tbl_get (i, n) dt = Some v.
Proof.
  intros Hi. unfold dir_entries, Id.plus. rewrite u64_add_small by lia.
  rewrite take_while_all.
  - rewrite elem_of_range, in_range_fst. split; [by intros [? ->]|by intros [-> ?]].
  - intros [[d' n'] v'] [_ H]%elem_of_range. apply in_range_fst in H as ->. apply N.eqb_refl.
Qed.

(** The path of the version that is presented of a file. *)
Definition shown (j : Inode) p : Prop :=
  ∃ e, tbl_get (j, "") ft = Some e ∧ fc_path (content e) = p.

(** The presented files below a directory. *)
Definition file_below (i : Inode) p : Prop :=
  ∃ cs j, cs ≠ [] ∧ Forall good_component cs ∧
    lookup_components dt (i, ADirectory) cs = Ok (j, AFile) ∧ shown j p.

Lemma mark_file_run j t :
  ∃ l, mark_file_dirty ft j t = (Ok tt, mark_all l t) ∧ ∀ p, p ∈ l ↔ shown j p.
Proof.
  unfold mark_file_dirty, shown. destruct (tbl_get (j, "") ft) as [e|].
  - exists [fc_path (content e)]. split; [done|]. intros p. rewrite list_elem_of_singleton. naive_solver.
  - exists []. split; [done|]. intros p. split; [by intros ?%not_elem_of_nil|]. by intros (e & ? & _).
Qed.

(** What an entry of a directory contributes. *)
Definition entry_files (v : DirTableEntry) p : Prop :=
  match v with
  | Regular e => match assignment e with
                 | AFile => shown (rd_inode e) p
                 | ADirectory => file_below (rd_inode e) p
                 end
  | Dot _ => False
  end.

Lemma file_below_entries (i : Inode) p :
  i < b → file_below i p ↔ ∃ n v, tbl_get (i, n) dt = Some v ∧ entry_files v p.
Proof.
  intros Hi. split.
  - intros (cs & j & Hne & Hg & Hl & Hs). destruct cs as [|n cs]; [done|]. simpl in Hl.
    apply Forall_cons in Hg as [Hn Hg].
    destruct (get_dir_entry dt i n) as [e|] eqn:E; [|done].
    apply (get_dir_entry_good arena_root) in E; [|done..]. exists n, (Regular e). split; [done|]. simpl.
    destruct (assignment e).
    + destruct cs; simpl in Hl; [|done]. injection Hl as ->. done.
    + destruct cs as [|n' cs]; [done|]. exists (n' :: cs), j. done.
  - intros (n & [e|m] & Hv & He); [|done]. simpl in He.
    pose proof (do_regular _ _ Hdt _ _ _ Hv) as (Hn & _ & _).
    assert (get_dir_entry dt i n = Some e) as Hd by (unfold get_dir_entry; by rewrite Hv).
    destruct (assignment e) eqn:Ea.
    + exists [n], (rd_inode e). split_and!; [done|by apply Forall_singleton| |done]. simpl. by rewrite Hd, Ea.
    + destruct He as (cs & j & H1 & H2 & H3 & H4). exists (n :: cs), j.
      split_and!; [done|by constructor| |done]. simpl. by rewrite Hd, Ea.
Qed.

Lemma mark_dir_run fuel (i : Inode) t :
  i < b → (N.to_nat (b - i) < fuel)%nat →
  ∃ l, mark_dir_dirty fuel dt ft i t = Some (Ok tt, mark_all l t) ∧ ∀ p, p ∈ l ↔ file_below i p.
Proof.
  revert i t. induction fuel as [|fuel IH]; intros i t Hi Hf; [lia|]. cbn [mark_dir_dirty].
  assert (∀ kvs t, (∀ kv, kv ∈ kvs → tbl_get (i, kv.1.2) dt = Some kv.2) →
    ∃ l, foldl (λ acc kv, match acc with
        | Some (Ok tt, t) => match kv.2 with
            | Regular entry => match assignment entry with
                | AFile => Some (mark_file_dirty ft (rd_inode entry) t)
                | ADirectory => mark_dir_dirty fuel dt ft (rd_inode entry) t
                end
            | Dot _ => Some (Ok tt, t)
            end
        | _ => acc
        end) (Some (Ok tt, t)) kvs = Some (Ok tt, mark_all l t) ∧
      ∀ p, p ∈ l ↔ ∃ kv : (N * string) * DirTableEntry, kv ∈ kvs ∧ entry_files kv.2 p) as Hloop.
  { clear t. induction kvs as [|[[d n] v] kvs IHk]; intros t Hkvs.
    - exists []. split; [done|]. intros p. split; [by intros ?%not_elem_of_nil|].
      by intros (kv & ?%not_elem_of_nil & _).
    - assert (∃ l1, match v with
            | Regular entry => match assignment entry with
                | AFile => Some (mark_file_dirty ft (rd_inode entry) t)
                | ADirectory => mark_dir_dirty fuel dt ft (rd_inode entry) t
                end
            | Dot _ => Some (Ok tt, t)
            end = Some (Ok tt, mark_all l1 t) ∧ ∀ p, p ∈ l1 ↔ entry_files v p) as (l1 & E1 & H1).
      { pose proof (Hkvs _ (list_elem_of_here _ _)) as Hv. simpl in Hv. destruct v as [e|m]; simpl.
        - pose proof (do_regular _ _ Hdt _ _ _ Hv) as (_ & Hlt & _). specialize (Hbelow _ _ _ Hv).
          destruct (assignment e).
          + destruct (mark_file_run (rd_inode e) t) as (l1 & -> & H1). by exists l1.
          + apply IH; [done|lia].
        - exists []. split; [done|]. intros p. split; [by intros ?%not_elem_of_nil|done]. }
      destruct (IHk (mark_all l1 t)) as (l2 & E2 & H2).
      { intros kv Hkv. apply Hkvs. by right. }
      exists (l1 ++ l2). simpl. rewrite E1, E2, mark_all_app. split; [done|]. intros p.
      rewrite elem_of_app, H1, H2. setoid_rewrite elem_of_cons. split.
      + intros [H|(kv & ? & ?)]; [eexists; split; [by left|done]|by exists kv; auto].
      + intros (kv & [->|?] & ?); [by left|right; by exists kv]. }
  destruct (Hloop (dir_entries dt i) t) as (l & E & Hl).
  { intros [[d n] v] [-> H]%elem_of_dir_entries; [done|done]. }
  exists l. split; [exact E|]. intros p. rewrite Hl, file_below_entries by done. split.
  - intros ([[d n] v] & [-> H]%elem_of_dir_entries & He); [by exists n, v|done].
  - intros (n & v & H & He). exists ((i, n), v). split; [by apply elem_of_dir_entries|done].
Qed.
End cached.

Lemma dir_depth_spec dt (d : Inode) n (e : ReadDirEntry) :
  tbl_get (d, n) dt = Some (Regular e) → (N.to_nat (rd_inode e) + 2 ≤ dir_depth dt)%nat.
Proof.
  intros H%elem_of_iter. unfold dir_depth. set (f := λ kv acc, _).
  enough (∀ l : list ((N * string) * DirTableEntry), ((d, n), Regular e) ∈ l → rd_inode e ≤ foldr f 0 l) as Hl
    by (specialize (Hl _ H); lia).
  induction l as [|kv l IH]; [by intros ?%not_elem_of_nil|].
  intros [<-|Hin]%elem_of_cons; simpl; unfold f at 1; simpl; [lia|]. specialize (IH Hin). lia.
Qed.

Lemma dir_depth_le dt m :
  (∀ (d : Inode) n (e : ReadDirEntry), tbl_get (d, n) dt = Some (Regular e) → rd_inode e ≤ m) →
  (2 ≤ dir_depth dt ≤ N.to_nat m + 2)%nat.
Proof.
  intros Hm. unfold dir_depth. set (f := λ kv acc, _). split; [lia|].
  enough (∀ l : list ((N * string) * DirTableEntry),
    (∀ kv, kv ∈ l → tbl_get kv.1 dt = Some kv.2) → foldr f 0 l ≤ m) as Hl.
  { specialize (Hl (tbl_iter dt)). ospecialize (Hl _); [|lia]. intros [k v]. apply elem_of_iter. }
  induction l as [|[[d n] v] l IH]; intros Hl; simpl; [lia|]. unfold f at 1. simpl.
  assert (foldr f 0 l ≤ m) by (apply IH; intros kv Hkv; apply Hl; by right).
  pose proof (Hl _ (list_elem_of_here _ _)) as Hv. simpl in Hv.
  destruct v as [e|mt]; [|lia]. specialize (Hm _ _ _ Hv). lia.
Qed.

(** [a] is [q], a parent of it, or the root. *)
Definition covers (a : option Path) q : Prop := Path.components a `prefix_of` comps q.

Definition presented_in (c : CacheTables) q : Prop := is_Some (seen arena_root c q "").

Context (n0 : nat).

Lemma presented_shown c g q :
  cache_ok arena_root n0 c g → valid q →
  presented_in c q ↔ ∃ i, file_of arena_root c q = Some i ∧ shown (cache_file_table c) i q.
Proof.
  intros Hc Hq. unfold presented_in, seen. split.
  - destruct (file_of arena_root c q) as [i|] eqn:E; [|by intros [??]]. simpl.
    intros [v (e & He & _)%iview_Some]. exists i. split; [done|]. exists e. split; [done|].
    apply (co_entry _ _ _ _ Hc) in He as (Hv & _ & Hi). eapply file_at_inj; [apply Hc|done..].
  - intros (i & -> & e & He & _). simpl. eexists. by apply iview_get.
Qed.

(** A file has no entries below it. *)
Lemma file_no_children dt cs (i : Inode) n (e : ReadDirEntry) :
  dirs_ok arena_root dt → Forall good_component cs →
  resolve arena_root dt cs = Ok (i, AFile) → tbl_get (i, n) dt = Some (Regular e) → False.
Proof.
  intros Hdt Hg Hr He. destruct cs as [|c cs _] using rev_ind; [done|].
  apply Forall_app in Hg as [Hg [Hc _]%Forall_cons]. apply resolve_snoc in Hr as (d & Hd & Hi); [|done..].
  apply (do_regular _ _ Hdt) in He as (_ & _ & [->|(p & m & Hp)]).
  - pose proof (resolve_is_dir _ _ _ _ Hdt Hg Hd) as Hdir%is_dir_root; [|done].
    apply (do_regular _ _ Hdt) in Hi as (_ & Hlt & _). simpl in Hlt. lia.
  - destruct (do_unique _ _ Hdt _ _ _ _ _ _ Hi Hp eq_refl) as [-> ->]. simplify_eq.
Qed.

Lemma cache_mark_run path t :
  cache_ok arena_root n0 (cache_of t) (global_of t) → (∀ p, path = Some p → valid p) →
  match do_lookup_path (dir_table_of t) arena_root path with
  | Err NotADirectory => cache_mark_dirty path t = (Err NotADirectory, t)
  | _ => ∃ l, cache_mark_dirty path t = (Ok tt, mark_all l t) ∧
      ∀ q, valid q → q ∈ l ↔ covers path q ∧ presented_in (cache_of t) q
  end.
Proof.
  intros Hc Hp. unfold cache_mark_dirty, ArenaCache.mark_dirty_recursive, do_lookup_path.
  assert (Forall good_component (Path.components path)) as Hg.
  { destruct path as [p|]; [|done]. by apply valid_comps, Hp. }
  assert (∀ q, valid q → covers path q → presented_in (cache_of t) q →
    ∃ ws j, comps q = Path.components path ++ ws ∧ shown (file_table_of t) j q ∧
      result_bind (lookup_components (dir_table_of t) (arena_root, ADirectory) (Path.components path))
        (λ d, lookup_components (dir_table_of t) d ws) = Ok (j, AFile)) as Hcov.
  { intros q Hq [ws Hws] Hs. apply (presented_shown _ _ _ Hc Hq) in Hs as (j & Hj & Hsh). exists ws, j.
    split; [done|]. split; [done|]. rewrite <- lookup_app, <- Hws. revert Hj. unfold file_of, file_at, resolve.
    change (cache_directory_table (cache_of t)) with (dir_table_of t).
    destruct (lookup_components (dir_table_of t) _ (comps q)) as [[? []]|]; congruence. }
  destruct (lookup_components (dir_table_of t) (arena_root, ADirectory) (Path.components path)) as [[i a]|e] eqn:El.
  2:{ destruct (lookup_errors _ _ _ _ El) as [-> | ->]; [done|]. exists []. split; [done|].
      intros q Hq. split; [by intros ?%not_elem_of_nil|]. intros [H1 H2].
      by destruct (Hcov q Hq H1 H2) as (ws & j & _ & _ & Hj). }
  destruct (mark_file_run (file_table_of t) i t) as (l1 & -> & H1).
  pose proof (top_last _ _ _ _ (co_alloc _ _ _ _ Hc)) as Htop. pose proof (ai_room _ _ _ _ (co_alloc _ _ _ _ Hc)).
  assert (i ≤ top arena_root (cache_of t)) as Hi.
  { destruct (Path.components path) as [|x cs _] using rev_ind.
    - injection El as <- <-. apply (co_alloc _ _ _ _ Hc).
    - apply Forall_app in Hg as [_ [Hx _]%Forall_cons].
      apply (resolve_snoc arena_root) in El as (d & _ & He); [|apply Hc|done].
      apply (co_above _ _ _ _ Hc) in He as [_ He]. specialize (He _ eq_refl). simpl in He. lia. }
  assert (∀ (d : Inode) n (e : ReadDirEntry), tbl_get (d, n) (dir_table_of t) = Some (Regular e) →
    rd_inode e ≤ top arena_root (cache_of t)) as Hmax.
  { intros d n e He. apply (co_above _ _ _ _ Hc) in He as [_ He]. specialize (He e eq_refl). lia. }
  pose proof (dir_depth_le _ _ Hmax) as [Hd1 Hd2].
  destruct (mark_dir_run (dir_table_of t) (file_table_of t)
    (N.max (N.of_nat (dir_depth (dir_table_of t)) - 1) (i + 1)) (co_dirs _ _ _ _ Hc)
    ltac:(lia)) with (fuel := dir_depth (dir_table_of t)) (i := i) (t := mark_all l1 t) as (l2 & E2 & H2);
    [|lia|lia|].
  { intros d n e He. apply dir_depth_spec in He. lia. }
  rewrite E2. exists (l1 ++ l2). rewrite mark_all_app. split; [done|]. intros q Hq.
  rewrite elem_of_app, H1, H2. split.
  - intros Hs. assert (∃ cs j, Forall good_component cs ∧ shown (file_table_of t) j q ∧
      lookup_components (dir_table_of t) (i, a) cs = Ok (j, if decide (cs = []) then a else AFile)) as
      (cs & j & Hgc & Hsh & Hl).
    { destruct Hs as [Hs|(cs & j & Hne & Hgc & Hl & Hs)]; [by exists [], i|].
      exists cs, j. rewrite decide_False by done. split_and!; [done..|].
      destruct cs as [|c cs]; [done|]. destruct a; [|done]. exfalso. simpl in Hl.
      destruct (get_dir_entry (dir_table_of t) i c) as [e|] eqn:Ee; [|done].
      apply Forall_cons in Hgc as [Hgc _]. apply (get_dir_entry_good arena_root) in Ee; [|apply Hc|done].
      eapply (file_no_children (dir_table_of t) (Path.components path) i); [apply Hc|done|exact El|exact Ee]. }
    pose proof Hsh as (e & He & Hpe). destruct (co_entry _ _ _ _ Hc _ _ _ He) as (_ & _ & Hj). rewrite Hpe in Hj.
    split; [|apply (presented_shown _ _ _ Hc Hq); by exists j].
    exists cs. symmetry. eapply (resolve_inj arena_root); [apply (co_dirs _ _ _ _ Hc)|by apply Forall_app| by apply valid_comps| |].
    + unfold resolve. rewrite lookup_app. change (cache_directory_table (cache_of t)) with (dir_table_of t).
      rewrite El. exact Hl.
    + revert Hj. unfold file_of, file_at. destruct (resolve _ _ (comps q)) as [[? []]|]; [intros [= ->]|done..].
      reflexivity.
  - intros [Hcv Hs]. destruct (Hcov q Hq Hcv Hs) as (ws & j & Hws & Hsh & Hj). simpl in Hj.
    destruct ws as [|w ws]; [injection Hj as -> ->; by left|right]. exists (w :: ws), j.
    split_and!; [done| | |done].
    + apply valid_comps in Hq. rewrite Hws in Hq. by apply Forall_app in Hq as [_ ?].
    + destruct a; [by simpl in Hj|done].
Qed.

Lemma covers_spec p q : covers (Some p) q ↔ Path.starts_with q p = true.
Proof. unfold covers. rewrite starts_with_comps. done. Qed.

Lemma marks_run path t :
  cache_ok arena_root n0 (cache_of t) (global_of t) → (∀ p, path = Some p → valid p) →
  match do_lookup_path (dir_table_of t) arena_root path with
  | Err NotADirectory => ∃ t', marks_mark_dirty path t = (Err NotADirectory, t') ∧ ext t' = ext t
  | _ => ∃ l, marks_mark_dirty path t = (Ok tt, mark_all l t) ∧
      ∀ q, valid q → q ∈ l ↔ covers path q ∧ (indexed t q ∨ presented_in (cache_of t) q)
  end.
Proof.
  intros Hc Hp. unfold marks_mark_dirty, sbind.
  assert (∃ l, index_mark_dirty path t = (Ok tt, mark_all l t) ∧ ∀ q, valid q → q ∈ l ↔ covers path q ∧ indexed t q) as (l1 & -> & H1).
  { destruct path as [p|].
    - destruct (index_mark_run p t) as (l1 & E1 & H1). exists l1. split; [exact E1|]. intros q _.
      rewrite covers_spec, H1. tauto.
    - destruct (index_all_run t) as (l1 & E1 & H1). exists l1. split; [exact E1|]. intros q _.
      rewrite H1. split; [|by intros [_ ?]]. split; [apply prefix_nil|done]. }
  assert (cache_of (mark_all l1 t) = cache_of t) as Ec by (unfold cache_of; by rewrite mark_all_tables).
  assert (dir_table_of (mark_all l1 t) = dir_table_of t) as Ed by (unfold dir_table_of; by rewrite mark_all_tables).
  pose proof (cache_mark_run path (mark_all l1 t)) as Hrun. rewrite Ec, Ed in Hrun. unfold global_of in Hrun.
  rewrite mark_all_ext in Hrun. specialize (Hrun Hc Hp).
  assert ((∃ l2, cache_mark_dirty path (mark_all l1 t) = (Ok tt, mark_all l2 (mark_all l1 t)) ∧
      ∀ q, valid q → q ∈ l2 ↔ covers path q ∧ presented_in (cache_of t) q) →
    ∃ l, cache_mark_dirty path (mark_all l1 t) = (Ok tt, mark_all l t) ∧
      ∀ q, valid q → q ∈ l ↔ covers path q ∧ (indexed t q ∨ presented_in (cache_of t) q)) as Hjoin.
  { intros (l2 & -> & H2). exists (l1 ++ l2). rewrite mark_all_app. split; [done|].
    intros q Hq. rewrite elem_of_app, H1, H2 by done. tauto. }
  destruct (do_lookup_path _ _ _) as [[i a]|[]]; try (by apply Hjoin).
  rewrite Hrun. eexists. split; [done|apply mark_all_ext].
Qed.

(** Keys are those of different components only. *)
Lemma join_inj cs rs :
  Forall good_component cs → Forall good_component rs →
  Str.join "/" cs = Str.join "/" rs → cs = rs.
Proof.
  assert (∀ cs, Forall good_component cs → cs ≠ [] → Str.split "/" (Str.join "/" cs) = cs) as Hs.
  { intros ls Hg Hne. apply split_join; [done|]. eapply Forall_impl; [exact Hg|].
    by intros w (_ & _ & _ & _ & ?). }
  assert (∀ cs, Forall good_component cs → Str.join "/" cs = "" → cs = []) as Hn.
  { intros ls Hg E. destruct (decide (ls = [])) as [|Hne]; [done|]. specialize (Hs ls Hg Hne).
    rewrite E in Hs. simpl in Hs. subst ls. apply Forall_cons in Hg as [(H & _) _]. done. }
  intros Hc Hr E. destruct (decide (cs = [])) as [->|Hcs].
  { symmetry. by apply Hn. }
  destruct (decide (rs = [])) as [->|Hrs]; [by apply Hn|]. rewrite <- (Hs cs), <- (Hs rs) by done. by rewrite E.
Qed.

Lemma components_good path : (∀ p, path = Some p → valid p) → Forall good_component (Path.components path).
Proof. intros Hp. destruct path as [p|]; [|done]. by apply valid_comps, Hp. Qed.

Lemma insert_differs mt path m :
  (∀ p, path = Some p → valid p) →
  differ_at mt (tbl_insert (mark_key path) {| mark := m |} mt) (Path.components path).
Proof.
  intros Hp%components_good rs Hne Hg. unfold mark_at. rewrite mark_key_join, get_insert_ne; [done|].
  intros E. by apply Hne, join_inj.
Qed.

Lemma remove_differs mt p : valid p → differ_at mt (tbl_remove (as_str p) mt) (comps p).
Proof.
  intros Hp%valid_comps rs Hne Hg. unfold mark_at. rewrite as_str_join, get_remove_ne; [done|].
  intros E. by apply Hne, join_inj.
Qed.

Lemma effective_insert mt path m :
  effective (tbl_insert (mark_key path) {| mark := m |} mt) (Path.components path) = m.
Proof.
  unfold effective. assert (mark_at (tbl_insert (mark_key path) {| mark := m |} mt) (Path.components path) = Some m) as H.
  { unfold mark_at. by rewrite mark_key_join, get_insert_eq. }
  destruct (Path.components path) as [|c cs _] using rev_ind; [by rewrite nearest_nil, H|].
  by rewrite nearest_snoc, H.
Qed.

(** ** What a change of mark does *)

(** Files that the engine can have something to do with. *)
Definition known (tb : Tables) q : Prop :=
  is_Some (tbl_get (as_str q) (index_file_table (index tb))) ∨ presented_in (cache tb) q.

(** Every known file whose mark changed is dirty again, under a new counter as long
    as there are some left, and only files under [path] are. *)
Definition redirtied path (tb tb' : Tables) : Prop :=
  ∃ l, dirty tb' = marks l (dirty tb) ∧
    (∀ q, valid q → q ∈ l → covers path q ∧ known tb q) ∧
    (∀ q, valid q → known tb q → get_mark tb' q ≠ get_mark tb q → q ∈ l) ∧
    (dirty_inv (dirty tb) → last_counter (dirty tb) + N.of_nat (length l) < u64_modulus →
     dirty_inv (dirty tb') ∧
     ∀ q, q ∈ l → ∃ c, get_dirty (dirty tb') q = Some c ∧ last_counter (dirty tb) < c).

Definition remark path mt mt' : TxnM (Outcome ()) :=
  do* (if negb (bool_decide (effective mt (Path.components path) = effective mt' (Path.components path)))
       then marks_mark_dirty path else sret tt) in
  sret (Commit tt).

Lemma remark_run path mt' w :
  let mt := mark_table (db w) in
  let t := put_mark_table mt' (begin_write w) in
  cache_ok arena_root n0 (cache (db w)) (global (w_ext w)) → (∀ p, path = Some p → valid p) →
  differ_at mt mt' (Path.components path) →
  match remark path mt mt' t with
  | (Ok (Commit _), t') => redirtied path (db w) (tables t') ∧ mark_table (tables t') = mt' ∧
                           index (tables t') = index (db w) ∧ cache (tables t') = cache (db w) ∧
                           blob_table (tables t') = blob_table (db w)
  | (Ok (Rollback _), _) => False
  | (Err e, t') => e = NotADirectory ∧ ext t' = w_ext w
  end.
Proof.
  intros mt t Hc Hp Hd. unfold remark, sbind.
  assert (∀ l t', tables t' = set_dirty (marks l (dirty (db w))) (set_mark_table mt' (db w)) →
    (∀ q, valid q → q ∈ l → covers path q ∧ known (db w) q) →
    (∀ q, valid q → known (db w) q → get_mark (tables t') q ≠ get_mark (db w) q → q ∈ l) →
    redirtied path (db w) (tables t') ∧ mark_table (tables t') = mt' ∧
    index (tables t') = index (db w) ∧ cache (tables t') = cache (db w) ∧
                           blob_table (tables t') = blob_table (db w)) as Hok.
  { intros l t' -> H1 H2. split; [|done]. exists l. split; [done|]. split; [done|]. split; [done|].
    intros Hinv Hroom. destruct (marks_spec l (dirty (db w)) Hinv Hroom) as [H3 [H4 _ _]].
    split; [done|]. intros q Hq. by apply H4, list_elem_of_fmap_2. }
  assert (∀ q tb', mark_table tb' = mt' → valid q → get_mark tb' q ≠ get_mark (db w) q →
    covers path q ∧ effective mt (Path.components path) ≠ effective mt' (Path.components path)) as Hch.
  { intros q tb' E Hq%valid_comps Hne. unfold get_mark in Hne. rewrite E, !do_get_mark_effective in Hne.
    destruct (effective_change mt mt' (Path.components path) (comps q)) as [H1 H2]; [done|done|done|].
    split; [done|]. intros E'. by apply H2. }
  case_bool_decide as E; cbn [negb].
  - apply (Hok []); [done|by intros q _ ?%not_elem_of_nil|].
    intros q Hq _ Hne. by destruct (Hch q (tables t) eq_refl Hq Hne) as [_ H].
  - pose proof (marks_run path t Hc Hp) as Hrun.
    assert ((∃ l, marks_mark_dirty path t = (Ok tt, mark_all l t) ∧
        ∀ q, valid q → q ∈ l ↔ covers path q ∧ (indexed t q ∨ presented_in (cache_of t) q)) →
      ∃ t', marks_mark_dirty path t = (Ok tt, t') ∧
        redirtied path (db w) (tables t') ∧ mark_table (tables t') = mt' ∧
        index (tables t') = index (db w) ∧ cache (tables t') = cache (db w) ∧
                           blob_table (tables t') = blob_table (db w)) as Hjoin.
    { intros (l & -> & Hl). exists (mark_all l t). split; [done|]. apply (Hok l).
      - by rewrite mark_all_tables.
      - intros q Hq Hin. apply Hl in Hin as [H1 H2]; [|done]. split; [done|].
        destruct H2 as [[_ H2]|H2]; [by left|by right].
      - intros q Hq Hkn Hne. rewrite mark_all_tables in Hne.
        destruct (Hch q (set_dirty (marks l (dirty (tables t))) (tables t)) eq_refl Hq Hne) as [Hcv _].
        apply Hl; [done|]. split; [done|]. destruct Hkn as [H|H]; [left|by right]. by split. }
    assert ((∃ t', marks_mark_dirty path t = (Ok tt, t') ∧
        redirtied path (db w) (tables t') ∧ mark_table (tables t') = mt' ∧
        index (tables t') = index (db w) ∧ cache (tables t') = cache (db w) ∧
                           blob_table (tables t') = blob_table (db w)) ∨
      ∃ t', marks_mark_dirty path t = (Err NotADirectory, t') ∧ ext t' = w_ext w) as Hcases.
    { destruct (do_lookup_path _ _ _) as [[i a]|[]]; (left; by apply Hjoin) || by right. }
    destruct Hcases as [(t' & -> & H)|(t' & -> & H)]; [exact H|done].
Qed.

Lemma unchanged_redirtied path tb : redirtied path tb tb.
Proof.
  exists []. split; [by destruct (dirty tb)|]. split; [by intros q _ ?%not_elem_of_nil|]. split; [done|].
  intros Hinv _. split; [done|]. by intros q ?%not_elem_of_nil.
Qed.

Lemma effective_entry mt cs e : tbl_get (Str.join "/" cs) mt = Some e → effective mt cs = mark e.
Proof.
  intros He. unfold effective. assert (mark_at mt cs = Some (mark e)) as H by (unfold mark_at; by rewrite He).
  destruct cs as [|c cs _] using rev_ind; [by rewrite nearest_nil, H|by rewrite nearest_snoc, H].
Qed.

(** The mark of a path is that of the nearest path that has one: the path
    itself, its parents from the last to the first, the arena, or else the default
    mark; the loop that looks for it ends after one turn per component. *)
Theorem get_mark_inherits mt p (fuel : nat) (Hp : valid p) (Hf : (length (comps p) < fuel)%nat) :
  get_mark_loop fuel mt (Some p) = Some (do_get_mark mt (Some p)) ∧
  (∀ a e, a `prefix_of` comps p → tbl_get (Str.join "/" a) mt = Some e →
     (∀ b, a `prefix_of` b → b ≠ a → b `prefix_of` comps p → tbl_get (Str.join "/" b) mt = None) →
     do_get_mark mt (Some p) = mark e) ∧
  ((∀ a, a `prefix_of` comps p → tbl_get (Str.join "/" a) mt = None) → do_get_mark mt (Some p) = Watch).
Proof.
  rewrite do_get_mark_effective. split; [by apply get_mark_enough|]. split.
  - intros a e Ha He Hb. rewrite (governs_nearest _ a); [by apply effective_entry|].
    split; [done|]. intros b ???. unfold mark_at. by rewrite Hb.
  - intros Hn. unfold effective. change (Path.components (Some p)) with (comps p).
    assert (∀ cs, cs `prefix_of` comps p → nearest mt (reverse cs) = None) as H; [|by rewrite H].
    induction cs as [|c cs IH] using rev_ind; intros Hcs.
    + rewrite nearest_nil. unfold mark_at. by rewrite Hn.
    + rewrite nearest_snoc. unfold mark_at. rewrite Hn by done. apply IH. etrans; [|done]. by apply prefix_app_r.
Qed.

Lemma set_mark_run path (m : Mark) w
  (Hc : cache_ok arena_root n0 (cache (db w)) (global (w_ext w))) (Hp : ∀ p, path = Some p → valid p) :
  match set_mark_or_root path m w with
  | (Ok _, w') =>
      (∀ q, valid q → governs (mark_table (db w)) (Path.components path) (comps q) → get_mark (db w') q = m) ∧
      (∀ q, valid q → ¬ governs (mark_table (db w)) (Path.components path) (comps q) →
         get_mark (db w') q = get_mark (db w) q) ∧
      redirtied path (db w) (db w') ∧ index (db w') = index (db w) ∧ cache (db w') = cache (db w) ∧
      blob_table (db w') = blob_table (db w)
  | (Err e, w') => e = NotADirectory ∧ db w' = db w
  end.
Proof.
  set (mt' := tbl_insert (mark_key path) {| mark := m |} (mark_table (db w))).
  pose proof (insert_differs (mark_table (db w)) path m Hp) as Hd.
  assert (effective mt' (Path.components path) = m) as Em by apply effective_insert.
  pose proof (remark_run path mt' w Hc Hp Hd) as H. unfold remark in H.
  rewrite Em, <- do_get_mark_effective in H.
  unfold set_mark_or_root, write_txn. unfold sbind at 1, sget. unfold sbind at 1, smodify.
  change (mark_table_of (begin_write w)) with (mark_table (db w)). fold mt'.
  destruct (sbind _ _ (put_mark_table mt' (begin_write w))) as [[[[]|[]]|e] t']; [|done|by destruct H as [-> _]].
  destruct H as (H1 & H2 & H3 & H4 & H5). rewrite !commit_db. unfold get_mark. rewrite H2.
  split_and!; [| |done..]; intros q Hq%valid_comps Hg; rewrite !do_get_mark_effective.
  - rewrite (governs_nearest _ (Path.components path)); [apply effective_insert|by eapply governs_differ].
  - by apply (not_governs_nearest _ _ (Path.components path)).
Qed.

(** Setting a mark, on a path or on the arena, gives it to the path and to
    everything that inherits it from there and to nothing else, and marks dirty
    the indexed and cached files whose mark changed, and only files under the
    path; if it fails, because a component of the path is a cached file, nothing
    changes. *)
Theorem set_mark_spec path (m : Mark) w
  (Hc : cache_ok arena_root n0 (cache (db w)) (global (w_ext w))) (Hp : ∀ p, path = Some p → valid p) :
  match set_mark_or_root path m w with
  | (Ok _, w') =>
      (∀ q, valid q → governs (mark_table (db w)) (Path.components path) (comps q) → get_mark (db w') q = m) ∧
      (∀ q, valid q → ¬ governs (mark_table (db w)) (Path.components path) (comps q) →
         get_mark (db w') q = get_mark (db w) q) ∧
      redirtied path (db w) (db w') ∧ index (db w') = index (db w) ∧ cache (db w') = cache (db w) ∧
      blob_table (db w') = blob_table (db w)
  | (Err e, w') => e = NotADirectory ∧ db w' = db w
  end.
Proof. by apply set_mark_run. Qed.

(** The mark that is left on [p] is that of its parent. *)
Lemma effective_remove mt p :
  valid p → effective (tbl_remove (as_str p) mt) (comps p) = do_get_mark mt (Path.parent p).
Proof.
  intros Hv. pose proof (proj1 (valid_comps p) Hv) as Hp.
  rewrite do_get_mark_effective. pose proof (comps_parent p) as Hcp.
  transitivity (effective (tbl_remove (as_str p) mt) (Path.components (Path.parent p))).
  - unfold effective. rewrite Hcp, nearest_snoc.
    assert (mark_at (tbl_remove (as_str p) mt) (Path.components (Path.parent p) ++ [Path.name p]) = None) as ->; [|done].
    unfold mark_at. by rewrite <- Hcp, <- as_str_join, get_remove_eq.
  - rewrite Hcp in Hp. apply Forall_app in Hp as [Hp _].
    apply (not_governs_nearest _ _ (comps p)); [by apply remove_differs|done|].
    intros [H%prefix_length _]. rewrite Hcp, length_app in H. simpl in H. lia.
Qed.

Lemma clear_mark_run p w
  (Hc : cache_ok arena_root n0 (cache (db w)) (global (w_ext w))) (Hp : valid p) :
  match clear_mark p w with
  | (Ok _, w') =>
      (∀ q, valid q → is_Some (tbl_get (as_str p) (mark_table (db w))) →
         governs (mark_table (db w)) (comps p) (comps q) →
         get_mark (db w') q = do_get_mark (mark_table (db w)) (Path.parent p)) ∧
      (∀ q, valid q → ¬ governs (mark_table (db w)) (comps p) (comps q) →
         get_mark (db w') q = get_mark (db w) q) ∧
      (tbl_get (as_str p) (mark_table (db w)) = None → db w' = db w) ∧
      redirtied (Some p) (db w) (db w') ∧ index (db w') = index (db w) ∧ cache (db w') = cache (db w) ∧
      blob_table (db w') = blob_table (db w)
  | (Err e, w') => e = NotADirectory ∧ db w' = db w
  end.
Proof.
  unfold clear_mark, write_txn. unfold sbind at 1, sget.
  change (mark_table_of (begin_write w)) with (mark_table (db w)).
  destruct (tbl_get (as_str p) (mark_table (db w))) as [[before]|] eqn:E.
  2:{ simpl. split_and!; [by intros ? _ [? ?]|done..| |done|done|done].
      apply (unchanged_redirtied (Some p)). }
  set (mt' := tbl_remove (as_str p) (mark_table (db w))).
  pose proof (remove_differs (mark_table (db w)) p Hp) as Hd. fold mt' in Hd.
  assert (∀ q, Some p = Some q → valid q) as Hp' by (by intros q [= <-]).
  pose proof (remark_run (Some p) mt' w Hc Hp' Hd) as H. unfold remark in H.
  assert (effective (mark_table (db w)) (Path.components (Some p)) = before) as Eb.
  { apply (effective_entry _ (comps p) {| mark := before |}). by rewrite <- as_str_join, E. }
  rewrite Eb, <- do_get_mark_effective in H. unfold sbind at 1, smodify. cbn [mark].
  destruct (sbind _ _ (put_mark_table mt' (begin_write w))) as [[[[]|[]]|e] t']; [|done|by destruct H as [-> _]].
  destruct H as (H1 & H2 & H3 & H4 & H5). rewrite !commit_db. unfold get_mark. rewrite H2.
  split_and!; [| |done..]; intros q Hq%valid_comps; rewrite !do_get_mark_effective.
  - intros _ Hg. rewrite (governs_nearest _ (comps p)); [|by eapply governs_differ].
    rewrite <- do_get_mark_effective. by apply effective_remove.
  - intros Hg. by apply (not_governs_nearest _ _ (comps p)).
Qed.

(** Clearing the mark of a path gives the path, and everything that inherited
    the mark from it, the mark of its parent, changes no other mark, and marks dirty
    the files whose mark changed; without a mark to clear it changes nothing. *)
Theorem clear_mark_spec p w
  (Hc : cache_ok arena_root n0 (cache (db w)) (global (w_ext w))) (Hp : valid p) :
  match clear_mark p w with
  | (Ok _, w') =>
      (∀ q, valid q → is_Some (tbl_get (as_str p) (mark_table (db w))) →
         governs (mark_table (db w)) (comps p) (comps q) →
         get_mark (db w') q = do_get_mark (mark_table (db w)) (Path.parent p)) ∧
      (∀ q, valid q → ¬ governs (mark_table (db w)) (comps p) (comps q) →
         get_mark (db w') q = get_mark (db w) q) ∧
      (tbl_get (as_str p) (mark_table (db w)) = None → db w' = db w) ∧
      redirtied (Some p) (db w) (db w') ∧ index (db w') = index (db w) ∧ cache (db w') = cache (db w) ∧
      blob_table (db w') = blob_table (db w)
  | (Err e, w') => e = NotADirectory ∧ db w' = db w
  end.
Proof. by apply clear_mark_run. Qed.
End mark.

Section mark_witnesses.
#[local] Existing Instance gmap_redb.
#[local] Existing Instance list_bimap.
#[local] Existing Instance list_bimap_laws.

Definition foo_dir : Path := mkPath "foo".
Definition w_marked : World := (set_mark 2 foo_dir Keep w_added).2.
Definition w_cleared : World := (clear_mark 2 foo_dir w_marked).2.

(** The mark of a directory is inherited by the file in it. *)
Example get_mark_inherits_witness :
  get_mark_loop 3 (mark_table (db w_marked)) (Some foobar) = Some Keep ∧
  do_get_mark (mark_table (db w_marked)) (Some foobar) = Keep.
Proof.
  destruct (get_mark_inherits (mark_table (db w_marked)) foobar 3 ltac:(by vm_compute) ltac:(vm_compute; lia))
    as (H1 & _ & _).
  assert (do_get_mark (mark_table (db w_marked)) (Some foobar) = Keep) as E by by vm_compute.
  rewrite E in H1. split; [exact H1|exact E].
Defined.

Lemma set1 : set_mark_or_root 2 (Some foo_dir) Keep w_added = (Ok tt, w_marked).
Proof. unfold w_marked. apply pair_of. by vm_compute. Qed.

Lemma cleared1 : clear_mark 2 foo_dir w_marked = (Ok tt, w_cleared).
Proof. unfold w_cleared. apply pair_of. by vm_compute. Qed.

Lemma foo_dir_valid : valid foo_dir.
Proof. by vm_compute. Qed.

Lemma foo_governs : governs (mark_table (db w_added)) (comps foo_dir) (comps foobar).
Proof.
  assert (comps foobar = comps foo_dir ++ ["bar"]) as -> by by vm_compute.
  apply governs_snoc; [by vm_compute|]. split; [apply governs_refl|by vm_compute].
Qed.

Example set_mark_spec_witness :
  get_mark (db w_marked) foobar = Keep ∧ redirtied 2 (Some foo_dir) (db w_added) (db w_marked).
Proof.
  pose proof (set_mark_spec 2 0 (Some foo_dir) Keep w_added (added_ok 0 ltac:(by vm_compute))
    ltac:(intros p [= <-]; exact foo_dir_valid)) as H.
  rewrite set1 in H. destruct H as (H1 & _ & H2 & _). split; [|exact H2].
  apply H1; [by vm_compute|exact foo_governs].
Defined.

Lemma marked1 : is_Some (tbl_get (as_str foo_dir) (mark_table (db w_marked))).
Proof. exists {| mark := Keep |}. by vm_compute. Qed.

Lemma parent1 : do_get_mark (mark_table (db w_marked)) (Path.parent foo_dir) = Watch.
Proof. by vm_compute. Qed.

Example clear_mark_spec_witness :
  get_mark (db w_cleared) foo_dir = Watch ∧ redirtied 2 (Some foo_dir) (db w_marked) (db w_cleared).
Proof.
  assert (cache (db w_marked) = cache (db w_added) ∧ global (w_ext w_marked) = global (w_ext w_added)) as [E1 E2].
  { split; by vm_compute. }
  pose proof (added_ok 0 ltac:(by vm_compute)) as Hc. unfold cache_at, global_at in Hc. rewrite <- E1, <- E2 in Hc.
  pose proof (clear_mark_spec 2 0 foo_dir w_marked Hc foo_dir_valid) as H.
  rewrite cleared1 in H. destruct H as (H1 & _ & _ & H2 & _). split; [|exact H2].
  rewrite <- parent1. exact (H1 foo_dir foo_dir_valid marked1 (governs_refl _ _)).
Defined.
End mark_witnesses.
