(* ===== verification/Engine.v ===== *)
(** * Jobs

    [crate/realize-storage/src/arena/engine.rs], the part that chooses jobs: what
    is to be done with a dirty path, and the stream that reports it.  The loop of
    the stream ([build_jobs]) is cut at its awaits and at its transactions:
    [poll] runs it from one to the next, and anything else may change the database
    in between ([sys_step]).  [job_retry_strategy] of
    [crate/realize-storage/src/arena.rs] closes the file. *)
From S2P Require Import Prelude Redb Path Types Db Dirty InodeAllocator Blob Dirs Index ArenaCache CacheInv CacheSpec Mark.
Local Open Scope N_scope.

Section engine.
Context {R : Redb}.
Context (arena_root : Inode).
Implicit Types (tb : Tables) (p q : Path) (c : N) (j : Job).

(** ** The choice of a job *)

(** [Engine::build_job] *)
Definition build_job tb (path : Path) (counter : N) : sresult (option (N * Job)) :=
  let cached := get_file_entry_for_path (cache tb) arena_root path in
  let indexed := Index.get_file_entry (index tb) path in
  match get_mark tb path with
  | Watch =>
      match cached, indexed with
      | Ok cached, Some indexed =>
          if bool_decide (fc_hash (content cached) = ix_hash indexed)
          then Ok (Some (counter, JUnrealize path (fc_hash (content cached))))
          else Ok None
      | _, _ => Ok None
      end
  | Keep =>
      match cached with
      | Ok cached =>
          if default false ((λ i, bool_decide (fc_hash (content cached) = ix_hash i)) <$> indexed)
          then Ok (Some (counter, JUnrealize path (fc_hash (content cached))))
          else
            result_bind (local_availability (blob_table tb) cached) (λ availability,
              if negb (bool_decide (availability = Verified))
              then Ok (Some (counter, JDownload path (fc_hash (content cached))))
              else Ok None)
      | Err _ => Ok None
      end
  | Own =>
      match cached with
      | Ok cached =>
          match indexed with
          | None => Ok (Some (counter, JRealize path (fc_hash (content cached)) None))
          | Some indexed =>
              if default false ((λ h, bool_decide (h = fc_hash (content cached))) <$> outdated_by indexed)
              then Ok (Some (counter, JRealize path (fc_hash (content cached)) (Some (ix_hash indexed))))
              else Ok None
          end
      | Err _ => Ok None
      end
  end.

(** The loop of [next_job] over the entries of the log. *)
Fixpoint next_job_loop tb (entries : list (N * string)) (last_counter : option N)
  : sresult (option (N * Job) * option N) :=
  match entries with
  | [] => Ok (None, last_counter)
  | (counter, value) :: entries =>
      match Path.parse value with
      | Err _ => next_job_loop tb entries (Some counter)
      | Ok path =>
          match build_job tb path counter with
          | Err e => Err e
          | Ok (Some job) => Ok (Some job, Some counter)
          | Ok None => next_job_loop tb entries (Some counter)
          end
      end
  end.

(** [Engine::next_job] *)
Definition next_job tb (start_counter : N) : sresult (option (N * Job) * option N) :=
  next_job_loop tb (tbl_range (Included start_counter) Unbounded (dirty_log_table (dirty tb))) None.

(** [Engine::build_job_with_counter] *)
Definition build_job_with_counter tb (counter : N) : sresult (option (N * Job)) :=
  match tbl_get counter (dirty_log_table (dirty tb)) with
  | Some v =>
      match Path.parse v with
      | Ok path => build_job tb path counter
      | Err e => Err (StorageError_from_path e)
      end
  | None => Ok None
  end.

(** [Engine::job_for_path] *)
Definition job_for_path tb (path : Path) : sresult (option (N * Job)) :=
  match tbl_get (as_str path) (dirty_table (dirty tb)) with
  | Some counter => build_job tb path counter
  | None => Ok None
  end.

(** ** The stream *)

(** Where [build_jobs] is: about to look for a job, between that and deleting what
    came before it, checking whether the job has failed before, sending it, waiting
    for something to do, going through the jobs to retry, sending one of them; or
    ended, because nobody listens anymore or because of an error. *)
Inductive Phase : Type :=
| Collecting
| Deleting (job : option (N * Job)) (last_counter : option N)
| Checking (job : N * Job)
| Sending (job : N * Job)
| Waiting
| Retrying (jobs_to_retry : list N)
| RetrySending (job : N * Job) (jobs_to_retry : list N)
| Closed
| Failed (e : StorageError).

(** The local variables of [build_jobs], and what went through [tx]. *)
Record Stream : Type := mkStream {
  start_counter : N;
  retry_lower_bound : option UnixTime;
  phase : Phase;
  sent : list (N * Job);
}.

Definition stream_init : Stream := mkStream 1 None Collecting [].

Definition goto (ph : Phase) (s : Stream) : Stream :=
  mkStream (start_counter s) (retry_lower_bound s) ph (sent s).
Definition send (job : N * Job) (s : Stream) : Stream :=
  mkStream (start_counter s) (retry_lower_bound s) (phase s) (sent s ++ [job]).

(** One turn of [build_jobs] up to its next await; [watch] is the value of the
    watch channel of the dirty paths.  [None] when it cannot go on by itself. *)
Definition poll (s : Stream) tb (watch : N) : option (Stream * Tables) :=
  match phase s with
  | Collecting =>
      match next_job tb (start_counter s) with
      | Ok (job, last_counter) => Some (goto (Deleting job last_counter) s, tb)
      | Err e => Some (goto (Failed e) s, tb)
      end
  | Deleting job last_counter =>
      let tb' := match last_counter with
                 | Some l => if start_counter s <? l
                             then set_dirty (delete_range (start_counter s) l (dirty tb)) tb
                             else tb
                 | None => tb
                 end in
      let start := match last_counter with Some l => u64_add l 1 | None => start_counter s end in
      let next := match job with Some job => Checking job | None => Waiting end in
      Some (mkStream start (retry_lower_bound s) next (sent s), tb')
  | Checking job =>
      if is_failed (dirty tb) job.1 then Some (goto Collecting s, tb) else Some (goto (Sending job) s, tb)
  | Sending job => Some (goto Collecting (send job s), tb)
  | Waiting => if start_counter s <=? watch then Some (goto Collecting s, tb) else None
  | Retrying [] => Some (goto Collecting s, tb)
  | Retrying (counter :: counters) =>
      match build_job_with_counter tb counter with
      | Ok (Some job) => Some (goto (RetrySending job counters) s, tb)
      | _ => Some (goto (Retrying counters) s, tb)
      end
  | RetrySending job counters => Some (goto (Retrying counters) (send job s), tb)
  | Closed | Failed _ => None
  end.

(** The second branch of the [select!]: [wait_until_next_backoff] returns. *)
Definition poll_backoff (s : Stream) tb (now : UnixTime) : option Stream :=
  match phase s, next_backoff (retry_lower_bound s) (dirty tb) with
  | Waiting, Some (backoff_until, jobs) =>
      if UnixTime.leb backoff_until now
      then Some (mkStream (start_counter s) (Some backoff_until) (Retrying jobs) (sent s))
      else None
  | _, _ => None
  end.

(** Several turns, until the stream waits or [n] is reached. *)
Fixpoint polls (n : nat) (s : Stream) tb (watch : N) : Stream * Tables :=
  match n with
  | O => (s, tb)
  | S n => match poll s tb watch with
           | Some (s', tb') => polls n s' tb' watch
           | None => (s, tb)
           end
  end.

Record Sys : Type := mkSys { sys_stream : Stream; sys_db : Tables; sys_watch : N }.

Definition logged tb c (k : string) : Prop := tbl_get c (dirty_log_table (dirty tb)) = Some k.

(** The job there is for a path. *)
Definition job_of tb p : sresult (option Job) := result_map (fmap snd) (build_job tb p 0).

(** What the stream relies on, whatever else happens to the database: marks are put
    and taken away as [Dirty] does, counters and failures are not reassigned, and a
    path that comes to need a job, or another job, is marked dirty. *)
Record dirty_env (d d' : DirtyTables) : Prop := {
  de_inv : dirty_inv d';
  de_counter : last_counter d ≤ last_counter d';
  de_log : ∀ c k, tbl_get c (dirty_log_table d') = Some k → c ≤ last_counter d →
             tbl_get c (dirty_log_table d) = Some k;
  de_failed : ∀ c k, tbl_get c (dirty_log_table d') = Some k → is_failed d c = true → is_failed d' c = true;
}.

Record env_ok tb tb' : Prop := {
  env_dirty : dirty_inv (dirty tb) → dirty_env (dirty tb) (dirty tb');
  env_jobs : ∀ p j, valid p → job_of tb' p = Ok (Some j) → job_of tb p ≠ Ok (Some j) →
               ∃ c, get_dirty (dirty tb') p = Some c ∧ last_counter (dirty tb) < c;
}.

(** Where [build_jobs] looks whether the receiver is gone. *)
Definition uses_channel (ph : Phase) : bool :=
  match ph with Waiting | Sending _ | RetrySending _ _ => true | _ => false end.

Inductive sys_step : relation Sys :=
| sys_poll s tb w s' tb' :
    poll s tb w = Some (s', tb') → sys_step (mkSys s tb w) (mkSys s' tb' w)
| sys_backoff s tb w now s' :
    poll_backoff s tb now = Some s' → sys_step (mkSys s tb w) (mkSys s' tb w)
| sys_closed s tb w :
    uses_channel (phase s) = true →
    sys_step (mkSys s tb w) (mkSys (goto Closed s) tb w)
| sys_env s tb w tb' :
    env_ok tb tb' → sys_step (mkSys s tb w) (mkSys s tb' (last_counter (dirty tb'))).

Context `{!RedbLaws R}.

(** ** Looking for a job *)

Lemma build_job_counter tb p c : build_job tb p c = result_map (fmap (pair c)) (job_of tb p).
Proof.
  unfold job_of, build_job.
  destruct (get_mark tb p), (get_file_entry_for_path (cache tb) arena_root p) as [e|],
    (Index.get_file_entry (index tb) p) as [i|]; try done; cbn [fmap option_fmap option_map default from_option];
    repeat case_goal; try done; destruct (local_availability (blob_table tb) e); simpl in *; repeat case_goal; simplify_eq/=; done.
Qed.

Lemma job_of_set_dirty d tb p : job_of (set_dirty d tb) p = job_of tb p.
Proof. done. Qed.

(** The path is dirty and there is a job for it. *)
Definition wanted tb p c j : Prop :=
  valid p ∧ logged tb c (as_str p) ∧ job_of tb p = Ok (Some j).

Lemma next_job_loop_spec tb entries l0 :
  StronglySorted key_lt entries.*1 →
  match next_job_loop tb entries l0 with
  | Ok (Some (id, j), l) =>
      l = Some id ∧ (∃ p, (id, as_str p) ∈ entries ∧ valid p ∧ job_of tb p = Ok (Some j)) ∧
      ∀ c p, (c, as_str p) ∈ entries → valid p → c < id → job_of tb p = Ok None
  | Ok (None, l) =>
      (∀ c p, (c, as_str p) ∈ entries → valid p → job_of tb p = Ok None) ∧
      (∀ c, c ∈ entries.*1 → ∃ m, l = Some m ∧ c ≤ m) ∧
      (∀ m, l = Some m → l0 = Some m ∨ m ∈ entries.*1) ∧ (is_Some l0 → is_Some l)
  | Err e => ∃ c p, (c, as_str p) ∈ entries ∧ valid p ∧ job_of tb p = Err e
  end.
Proof.
  revert l0. induction entries as [|[c k] entries IH]; intros l0 Hs.
  { simpl. split_and!; [by intros c p ?%not_elem_of_nil|by intros c ?%not_elem_of_nil|by left|done]. }
  simpl in Hs. apply StronglySorted_inv in Hs as [Hs Hlt]. rewrite Forall_forall in Hlt.
  specialize (IH (Some c) Hs). simpl.
  assert (∀ p, Path.parse k = Ok p → job_of tb p = Ok None → ∀ c' p', (c', as_str p') ∈ (c, k) :: entries → valid p' →
    (c' , as_str p') ∈ entries ∨ job_of tb p' = Ok None) as Hhead.
  { intros p Hp Hj c' p' [[= -> E]|Hin]%elem_of_cons Hv; [right|by left]. unfold valid in Hv. rewrite E in Hv. congruence. }
  assert ((∀ p, Path.parse k = Ok p → job_of tb p = Ok None) →
    match next_job_loop tb entries (Some c) with
    | Ok (Some (id, j), l) =>
        l = Some id ∧ (∃ p, (id, as_str p) ∈ (c, k) :: entries ∧ valid p ∧ job_of tb p = Ok (Some j)) ∧
        ∀ c0 p, (c0, as_str p) ∈ (c, k) :: entries → valid p → c0 < id → job_of tb p = Ok None
    | Ok (None, l) =>
        (∀ c0 p, (c0, as_str p) ∈ (c, k) :: entries → valid p → job_of tb p = Ok None) ∧
        (∀ c0, c0 ∈ c :: entries.*1 → ∃ m, l = Some m ∧ c0 ≤ m) ∧
        (∀ m, l = Some m → l0 = Some m ∨ m ∈ c :: entries.*1) ∧ (is_Some l0 → is_Some l)
    | Err e => ∃ c0 p, (c0, as_str p) ∈ (c, k) :: entries ∧ valid p ∧ job_of tb p = Err e
    end) as Hskip.
  { intros Hnone.
    assert (∀ c' p', (c', as_str p') ∈ (c, k) :: entries → valid p' → (c', as_str p') ∈ entries ∨ job_of tb p' = Ok None) as Hc.
    { intros c' p' [[= -> E]|Hin]%elem_of_cons Hv; [right|by left]. apply Hnone. by rewrite <- E. }
    destruct (next_job_loop tb entries (Some c)) as [[[[id j]|] l]|e].
    - destruct IH as (-> & (p & Hin & Hv & Hj) & Hbefore). split; [done|]. split.
      + exists p. split; [by right|done].
      + intros c' p' Hin' Hv' Hlt'. destruct (Hc c' p' Hin' Hv'); [by eapply Hbefore|done].
    - destruct IH as (H1 & H2 & H3 & H4). specialize (H4 ltac:(done)). split_and!.
      + intros c' p' Hin' Hv'. destruct (Hc c' p' Hin' Hv'); [by eapply H1|done].
      + intros c' [->|Hin]%elem_of_cons; [|by apply H2]. destruct entries as [|[c2 k2] entries].
        * destruct H4 as [m ->]. destruct (H3 m eq_refl) as [[= ->]|?%not_elem_of_nil]; [|done].
          exists m. split; [done|lia].
        * destruct (H2 c2) as (m & -> & ?); [by left|]. exists m. split; [done|].
          specialize (Hlt c2 ltac:(by left)). apply key_lt_le in Hlt as [Hle _]. simpl in Hle. lia.
      + intros m Hm. right. destruct (H3 m Hm) as [[= ->]|?]; [by left|by right].
      + done.
    - destruct IH as (c' & p & Hin & Hv & Hj). exists c', p. split; [by right|done]. }
  destruct (Path.parse k) as [p|] eqn:Ep; [|by apply Hskip].
  rewrite build_job_counter. destruct (job_of tb p) as [[j|]|e] eqn:Ej; simpl.
  - apply parse_as_str in Ep as [-> Hv]. split; [done|]. split.
    + exists p. split; [by left|done].
    + intros c' p' [[= -> _]|Hin]%elem_of_cons Hv' Hlt'; [lia|].
      assert (c' ∈ entries.*1) as Hin' by (apply list_elem_of_fmap; by exists (c', as_str p')).
      apply Hlt in Hin'. apply key_lt_le in Hin' as [Hle _]. simpl in Hle. lia.
  - apply Hskip. congruence.
  - apply parse_as_str in Ep as [-> Hv]. exists c, p. split; [by left|done].
Qed.

Lemma next_job_spec tb start :
  match next_job tb start with
  | Ok (Some (id, j), l) =>
      l = Some id ∧ start ≤ id ∧ (∃ p, wanted tb p id j) ∧
      ∀ p c j', wanted tb p c j' → start ≤ c → id ≤ c
  | Ok (None, l) =>
      (∀ p c j, wanted tb p c j → c < start) ∧
      (∀ c k, logged tb c k → start ≤ c → ∃ m, l = Some m ∧ c ≤ m) ∧
      (∀ m, l = Some m → start ≤ m ∧ ∃ k, logged tb m k)
  | Err e => ∃ p c, valid p ∧ logged tb c (as_str p) ∧ job_of tb p = Err e
  end.
Proof.
  assert (∀ c k, (c, k) ∈ tbl_range (Included start) Unbounded (dirty_log_table (dirty tb)) ↔ logged tb c k ∧ start ≤ c) as Hin.
  { intros c k. rewrite elem_of_range. unfold in_range, above, below, logged. simpl. tauto. }
  pose proof (next_job_loop_spec tb _ None (range_sorted (Included start) Unbounded (dirty_log_table (dirty tb)))) as H.
  unfold next_job. destruct (next_job_loop _ _ _) as [[[[id j]|] l]|e].
  - destruct H as (-> & (p & [Hl Hge]%Hin & Hv & Hj) & Hb). split_and!; [done|done|by exists p|].
    intros p' c j' (Hv' & Hl' & Hj') Hge'. destruct (N.le_gt_cases id c) as [|Hlt]; [done|].
    assert (job_of tb p' = Ok None); [|congruence]. apply (Hb c); [by apply Hin|done|done].
  - destruct H as (H1 & H2 & H3 & _). split_and!.
    + intros p c j (Hv & Hl & Hj). destruct (N.le_gt_cases start c) as [Hge|]; [|done].
      assert (job_of tb p = Ok None); [|congruence]. apply (H1 c); [by apply Hin|done].
    + intros c k Hl Hge. apply H2. apply list_elem_of_fmap. exists (c, k). split; [done|by apply Hin].
    + intros m Hm. destruct (H3 m Hm) as [?|([c k] & -> & [? ?]%Hin)%list_elem_of_fmap]; [done|].
      split; [done|by exists k].
  - destruct H as (c & p & [Hl _]%Hin & Hv & Hj). by exists p, c.
Qed.

(** ** The invariant of the stream *)

Definition pending (ph : Phase) (x : N * Job) : Prop :=
  match ph with
  | Checking y | Sending y => y = x
  | Closed => True
  | _ => False
  end.

(** What lies before [start_counter] was reported, or is about to be, or has failed
    and waits to be tried again, as long as somebody listens. *)
Record stream_inv (x : Sys) : Prop := {
  si_dirty : dirty_inv (dirty (sys_db x));
  si_watch : sys_watch x = last_counter (dirty (sys_db x));
  si_start : start_counter (sys_stream x) ≤ last_counter (dirty (sys_db x)) + 1;
  si_seen : ∀ p c j, wanted (sys_db x) p c j → c < start_counter (sys_stream x) →
    (c, j) ∈ sent (sys_stream x) ∨ is_failed (dirty (sys_db x)) c = true ∨ pending (phase (sys_stream x)) (c, j);
  si_deleting : ∀ job l, phase (sys_stream x) = Deleting job l →
    (∀ y, job = Some y → l = Some y.1) ∧
    (∀ m, l = Some m → m ≤ last_counter (dirty (sys_db x)) ∧ start_counter (sys_stream x) ≤ m ∧
       ∀ p c j, wanted (sys_db x) p c j → start_counter (sys_stream x) ≤ c → c ≤ m → job = Some (c, j)) ∧
    (∀ y, job = Some y → start_counter (sys_stream x) ≤ y.1);
}.

Definition sys_init tb : Sys := mkSys stream_init tb (last_counter (dirty tb)).

Lemma stream_inv_init tb : dirty_inv (dirty tb) → stream_inv (sys_init tb).
Proof.
  intros Hd. split; simpl; [done|done|lia| |done]. intros p c j (_ & Hl & _) Hlt.
  apply (inv_counter _ Hd) in Hl. lia.
Qed.

Lemma wanted_dirty tb p c j : dirty_inv (dirty tb) → wanted tb p c j → get_dirty (dirty tb) p = Some c.
Proof. intros Hd (_ & Hl & _). by apply (inv_dirty _ Hd). Qed.

(** A path that needed no job when its mark was looked at needs none now: it would
    have another mark. *)
Lemma env_wanted tb tb' p c j :
  dirty_inv (dirty tb) → env_ok tb tb' → wanted tb' p c j → c ≤ last_counter (dirty tb) → wanted tb p c j.
Proof.
  intros Hd He Hw Hc. destruct (env_dirty _ _ He Hd) as [Hd' _ Hlog _]. pose proof Hw as (Hv & Hl & Hj).
  split; [done|]. split; [by apply Hlog|].
  assert (job_of tb p = Ok (Some j) ∨ job_of tb p ≠ Ok (Some j)) as [|Hne]; [|done|].
  { destruct (job_of tb p) as [[j'|]|]; [destruct (decide (j' = j)) as [->|]; [by left|right; congruence]|by right..]. }
  destruct (env_jobs _ _ He p j Hv Hj Hne) as (c' & Hc' & Hlt).
  rewrite (wanted_dirty _ _ _ _ Hd' Hw) in Hc'. injection Hc' as <-. lia.
Qed.

Lemma env_step_inv s tb w tb' :
  stream_inv (mkSys s tb w) → env_ok tb tb' → stream_inv (mkSys s tb' (last_counter (dirty tb'))).
Proof.
  intros [H1 H2 H3 H4 H5] He. simpl in *. destruct (env_dirty _ _ He H1) as [Hd' Hcnt _ Hfail].
  split; simpl; [done|done|lia| |].
  - intros p c j Hw Hc. pose proof (env_wanted _ _ _ _ _ H1 He Hw ltac:(lia)) as Hw0.
    destruct (H4 p c j Hw0 Hc) as [|[|]]; [by left| |by right; right].
    right. left. destruct Hw as (_ & Hl & _). by apply (Hfail c (as_str p)).
  - intros job l Hph. destruct (H5 job l Hph) as (H6 & H7 & H8). split; [done|]. split; [|done].
    intros m Hm. destruct (H7 m Hm) as (Hle & Hge & Hall). split; [lia|]. split; [done|].
    intros p c j Hw Hc1 Hc2. apply (Hall p c j); [|done|done]. apply (env_wanted tb tb'); [done..|lia].
Qed.

Lemma delete_wanted tb b e p c j :
  dirty_inv (dirty tb) → b < e →
  wanted (set_dirty (delete_range b e (dirty tb)) tb) p c j ↔ wanted tb p c j ∧ ¬ (b ≤ c ∧ c < e).
Proof.
  intros Hd Hlt. destruct (delete_range_get _ b e Hd) as (_ & _ & Hlog & _).
  unfold wanted, logged. rewrite job_of_set_dirty. cbn [dirty set_dirty]. rewrite Hlog. case_decide; naive_solver.
Qed.

Lemma poll_inv s tb w s' tb' :
  stream_inv (mkSys s tb w) → poll s tb w = Some (s', tb') →
  stream_inv (mkSys s' tb' w) ∧ ∀ p c j, wanted tb p c j → wanted tb' p c j.
Proof.
  intros Hinv Hp. pose proof Hinv as [H1 H2 H3 H4 H5]. simpl in *. destruct s as [st lb ph snt]. simpl in *.
  unfold poll in Hp. simpl in Hp.
  assert (∀ ph' snt', (∀ p c j, (c, j) ∈ snt ∨ is_failed (dirty tb) c = true ∨ pending ph (c, j) →
      wanted tb p c j → c < st → (c, j) ∈ snt' ∨ is_failed (dirty tb) c = true ∨ pending ph' (c, j)) →
    (∀ job l, ph' ≠ Deleting job l) →
    stream_inv (mkSys (mkStream st lb ph' snt') tb w) ∧ ∀ p c j, wanted tb p c j → wanted tb p c j) as Hkeep.
  { intros ph' snt' Hs Hnd. split; [|done]. split; simpl; [done..| |].
    - intros p c j Hw Hc. by apply (Hs p c j), Hc; [apply (H4 p c j)|].
    - intros job l Hph. by destruct (Hnd job l). }
  destruct ph as [|job l|[id j]|[id j]| |[|c cs]|x cs| |e]; cbn [goto send start_counter retry_lower_bound sent] in Hp.
  - pose proof (next_job_spec tb st) as Hn. destruct (next_job tb st) as [[job l]|e]; injection Hp as <- <-.
    2:{ apply Hkeep; [tauto|done]. }
    split; [|done]. split; simpl; [done..| |].
    + intros p c j Hw Hc. destruct (H4 p c j Hw Hc) as [|[|[]]]; tauto.
    + intros job' l' [= <- <-]. destruct job as [[id j]|].
      * destruct Hn as (-> & Hge & (p & Hw) & Hall). split_and!.
        -- by intros y [= <-].
        -- intros m [= <-]. pose proof Hw as (_ & Hl & _). apply (inv_counter _ H1) in Hl as [_ Hl].
           split; [done|]. split; [done|]. intros p' c j' Hw' Hc1 Hc2.
           assert (c = id) as -> by (pose proof (Hall _ _ _ Hw' Hc1); lia).
           destruct Hw as (Hv & Hl1 & Hj), Hw' as (Hv' & Hl2 & Hj').
           assert (as_str p = as_str p') as E by (unfold logged in *; congruence).
           destruct p as [k], p' as [k']. simpl in E. subst k'. congruence.
        -- by intros y [= <-].
      * destruct Hn as (Hno & _ & Hm). split_and!; [done| |done].
        intros m Hlm. destruct (Hm m Hlm) as (Hge & k & Hk). apply (inv_counter _ H1) in Hk as [_ Hk].
        split; [done|]. split; [done|]. intros p c j Hw Hc1. pose proof (Hno _ _ _ Hw). lia.
  - destruct (H5 job l eq_refl) as (H6 & H7 & H8).
    assert (∀ tb', dirty_inv (dirty tb') → last_counter (dirty tb') = last_counter (dirty tb) →
      (∀ c, is_failed (dirty tb) c = true → (∃ p j, wanted tb' p c j) → is_failed (dirty tb') c = true) →
      (∀ p c j, wanted tb p c j ↔ wanted tb' p c j) →
      ∀ start, (∀ m, l = Some m → start = u64_add m 1) → (l = None → start = st) →
      stream_inv (mkSys (mkStream start lb (match job with Some job => Checking job | None => Waiting end) snt) tb' w)
      ∧ ∀ p c j, wanted tb p c j → wanted tb' p c j) as Hgo.
    { intros tb2 G1 G2 G3 G4 start Hs1 Hs2. split; [|by intros p c j ?%G4].
      split; cbn [sys_db sys_stream sys_watch start_counter sent phase]; [done|by rewrite G2| | |by destruct job].
      - rewrite G2. destruct l as [m|]; [|by rewrite Hs2].
        destruct (H7 m eq_refl) as (Hle & _). rewrite (Hs1 m eq_refl). unfold u64_add.
        etrans; [apply N.Div0.mod_le|]. lia.
      - intros p c j Hw%G4 Hc. destruct (N.lt_ge_cases c st) as [Hlt|Hge].
        + destruct (H4 p c j Hw Hlt) as [|[Hf|[]]]; [by left|]. right. left. apply G3; [done|].
          exists p, j. by apply G4.
        + destruct l as [m|]; [|rewrite Hs2 in Hc by done; lia].
          destruct (H7 m eq_refl) as (Hle & _ & Hall). rewrite (Hs1 m eq_refl) in Hc.
          assert (c ≤ m) as Hcm.
          { unfold u64_add in Hc. pose proof (N.Div0.mod_le (m + 1) u64_modulus). lia. }
          rewrite (Hall p c j Hw Hge Hcm). right. by right. }
    injection Hp as <- <-. destruct l as [m|]; [|by apply Hgo].
    destruct (H7 m eq_refl) as (Hle & Hge & Hall).
    destruct (N.ltb_spec st m) as [Hlt|Hnlt]; [|apply Hgo; [done..|by intros ? [= <-]|done]].
    destruct (delete_range_get _ st m H1) as (G1 & G2 & _ & G4).
    assert (∀ p c j, wanted tb p c j ↔ wanted (set_dirty (delete_range st m (dirty tb)) tb) p c j) as Hw.
    { intros p c j. rewrite delete_wanted by done. split; [|by intros [? _]]. intros Hw. split; [done|].
      intros [Hc1 Hc2]. pose proof (Hall p c j Hw Hc1 ltac:(lia)) as ->. pose proof (H6 _ eq_refl) as [= ->]. simpl in Hc2. lia. }
    apply Hgo; [done|done| |done|by intros ? [= <-]|done].
    intros c Hf (p & j & Hwc%delete_wanted); [|done|done]. unfold is_failed. cbn [dirty set_dirty]. rewrite G4.
    destruct Hwc as [_ Hn]. by rewrite decide_False.
  - destruct (is_failed (dirty tb) (id, j).1) eqn:Ef; injection Hp as <- <-; apply Hkeep; try done.
    intros p c j' [|[|[= -> ->]]] _ _; [tauto|tauto|]. right. by left.
  - injection Hp as <- <-. apply Hkeep; [|done].
    intros p c j' [|[|[= -> ->]]] _ _; [left|tauto|left]; apply elem_of_app; [by left|right; by left].
  - destruct (st <=? w); [|done]. injection Hp as <- <-. apply Hkeep; [tauto|done].
  - injection Hp as <- <-. apply Hkeep; [tauto|done].
  - destruct (build_job_with_counter tb c) as [[x|]|e]; injection Hp as <- <-; apply Hkeep; tauto || done.
  - injection Hp as <- <-. apply Hkeep; [|done].
    intros p c j' [|[|[]]] _ _; [left; apply elem_of_app; by left|tauto].
  - done.
  - done.
Qed.

Lemma sys_step_inv x y : sys_step x y → stream_inv x → stream_inv y.
Proof.
  intros [s tb w s' tb' Hp|s tb w now s' Hp|s tb w Hch|s tb w tb' He] Hinv.
  - by eapply poll_inv.
  - unfold poll_backoff in Hp. destruct Hinv as [H1 H2 H3 H4 H5]. simpl in *.
    destruct (phase s) eqn:Ep; try done. destruct (next_backoff _ _) as [[until jobs]|]; [|done].
    destruct (UnixTime.leb _ _); [|done]. injection Hp as <-. by split.
  - destruct Hinv as [H1 H2 H3 H4 H5]. split; simpl in *; [done..| |done].
    intros p c j Hw Hc. right. by right.
  - by eapply env_step_inv.
Qed.

(** ** Progress *)

Lemma polls_app n m s tb w :
  polls (n + m) s tb w = let '(s', tb') := polls n s tb w in polls m s' tb' w.
Proof.
  revert s tb. induction n as [|n IH]; intros s tb; [done|]. simpl.
  destruct (poll s tb w) as [[s' tb']|] eqn:E; [apply IH|]. destruct m; simpl; [done|]. by rewrite E.
Qed.

Lemma polls_inv n s tb w s' tb' :
  stream_inv (mkSys s tb w) → polls n s tb w = (s', tb') →
  stream_inv (mkSys s' tb' w) ∧ ∀ p c j, wanted tb p c j → wanted tb' p c j.
Proof.
  revert s tb. induction n as [|n IH]; intros s tb Hinv Hp; simpl in Hp; [by simplify_eq|].
  destruct (poll s tb w) as [[s1 tb1]|] eqn:E; [|by simplify_eq].
  destruct (poll_inv _ _ _ _ _ Hinv E) as [Hinv1 H1]. destruct (IH _ _ Hinv1 Hp) as [H2 H3].
  split; [done|]. intros p c j Hw. by apply H3, H1.
Qed.

(** The blobs of the dirty files are where their entries say. *)
Definition no_errors tb : Prop :=
  ∀ p c e, valid p → logged tb c (as_str p) → job_of tb p ≠ Err e.

Definition live (ph : Phase) : bool := match ph with Closed | Failed _ => false | _ => true end.

Lemma poll_no_errors s tb w s' tb' :
  dirty_inv (dirty tb) → no_errors tb → live (phase s) = true → poll s tb w = Some (s', tb') →
  no_errors tb' ∧ live (phase s') = true ∧ last_counter (dirty tb') = last_counter (dirty tb).
Proof.
  intros Hd Hne Hl Hp. unfold poll in Hp.
  destruct (phase s) as [|job l|x|x| |[|c cs]|x cs| |e] eqn:Eph; try done.
  - pose proof (next_job_spec tb (start_counter s)) as Hn.
    destruct (next_job tb _) as [[job l]|e]; [by simplify_eq|].
    destruct Hn as (p & c & Hv & Hlog & Hj). by destruct (Hne p c e).
  - simplify_eq. split; [|split; [by destruct job|]].
    + destruct l as [m|]; [|done]. destruct (_ <? _) eqn:E; [|done].
      intros p c e Hv Hlog. rewrite job_of_set_dirty. apply (Hne p c); [done|].
      unfold logged in *. cbn [dirty set_dirty] in Hlog.
      destruct (delete_range_get _ (start_counter s) m Hd) as (_ & _ & Hg & _). rewrite Hg in Hlog. by case_decide.
    + destruct l as [m|]; [|done]. destruct (_ <? _); [|done]. by apply delete_range_get.
  - destruct (is_failed _ _); by simplify_eq.
  - by simplify_eq.
  - destruct (_ <=? _); by simplify_eq.
  - by simplify_eq.
  - destruct (build_job_with_counter tb c) as [[y|]|e']; by simplify_eq.
  - by simplify_eq.
Qed.

(** The stream waits, having looked at everything. *)
Definition caught_up n s tb w : Prop :=
  let '(s', tb') := polls n s tb w in
  phase s' = Waiting ∧ ∀ c k, logged tb' c k → c < start_counter s'.

Lemma caught_up_poll n s tb w s' tb' :
  poll s tb w = Some (s', tb') → caught_up n s' tb' w → caught_up (S n) s tb w.
Proof. intros Hp H. unfold caught_up. simpl. by rewrite Hp. Qed.

Lemma collect_all k s tb w :
  stream_inv (mkSys s tb w) → no_errors tb → last_counter (dirty tb) + 1 < u64_modulus →
  phase s = Collecting → (N.to_nat (last_counter (dirty tb) + 1 - start_counter s) ≤ k)%nat →
  ∃ n, (n ≤ 4 * k + 2)%nat ∧ caught_up n s tb w.
Proof.
  revert s tb. induction k as [k IH] using lt_wf_ind. intros s tb Hinv Hne Hroom Hph Hk.
  destruct s as [st lb ph snt]. simpl in *. subst ph. pose proof (next_job_spec tb st) as Hn.
  pose proof (si_dirty _ Hinv) as Hd. simpl in Hd.
  assert (∀ s1 tb1, poll (mkStream st lb Collecting snt) tb w = Some (s1, tb1) →
    stream_inv (mkSys s1 tb1 w) ∧ no_errors tb1 ∧ last_counter (dirty tb1) = last_counter (dirty tb)) as H1.
  { intros s1 tb1 E. split; [by eapply poll_inv|]. destruct (poll_no_errors (mkStream st lb Collecting snt) _ _ _ _ Hd Hne eq_refl E) as (? & _ & ?). done. }
  unfold poll in H1. simpl in H1. destruct (next_job tb st) as [[job l]|e] eqn:En.
  2:{ destruct Hn as (p & c & Hv & Hlog & Hj). by destruct (Hne p c e). }
  assert (poll (mkStream st lb Collecting snt) tb w = Some (mkStream st lb (Deleting job l) snt, tb)) as P1
    by (unfold poll; simpl; by rewrite En).
  destruct (H1 _ _ eq_refl) as (I1 & N1 & _). clear H1.
  destruct (poll (mkStream st lb (Deleting job l) snt) tb w) as [[s2 tb2]|] eqn:P2; [|done].
  destruct (poll_inv _ _ _ _ _ I1 P2) as (I2 & _).
  destruct (poll_no_errors (mkStream st lb (Deleting job l) snt) _ _ _ _ Hd N1 eq_refl P2) as (N2 & _ & L2).
  unfold poll in P2. simpl in P2. injection P2 as E2 E2'.
  destruct job as [[id j]|].
  - destruct Hn as (-> & Hge & (p & Hwp) & Hall). pose proof Hwp as (_ & Hlog & _).
    apply (inv_counter _ Hd) in Hlog as [_ Hle].
    set (s3 := mkStream (id + 1) lb Collecting (if is_failed (dirty tb2) id then snt else snt ++ [(id, j)])).
    assert (∃ n, (n ≤ 2)%nat ∧ polls n s2 tb2 w = (s3, tb2)) as (n1 & Hn1 & Hp1).
    { rewrite u64_add_small in E2 by lia. subst s2. unfold s3.
      destruct (is_failed (dirty tb2) id) eqn:Ef; [exists 1%nat|exists 2%nat]; (split; [lia|]); simpl;
        unfold poll; simpl; by rewrite Ef. }
    pose proof (polls_inv _ _ _ _ _ _ I2 Hp1) as [I3 _].
    destruct (IH (N.to_nat (last_counter (dirty tb2) + 1 - (id + 1)))) with (s := s3) (tb := tb2) as (n & Hn & Hc);
      [lia|done|done|by rewrite L2|done|by simpl; lia|].
    exists (2 + (n1 + n))%nat. split; [lia|].
    eapply caught_up_poll; [exact P1|]. eapply caught_up_poll; [unfold poll; simpl; by rewrite E2, E2'|].
    unfold caught_up. rewrite polls_app, Hp1. exact Hc.
  - exists 2%nat. split; [lia|]. eapply caught_up_poll; [exact P1|]. eapply caught_up_poll; [unfold poll; simpl; by rewrite E2, E2'|].
    unfold caught_up. simpl. subst s2. simpl. split; [done|]. intros c k0 Hw.
    destruct Hn as (_ & Hm & Hl).
    assert (logged tb c k0) as Hw0.
    { subst tb2. destruct l as [m|]; [|done]. destruct (_ <? _); [|done].
      unfold logged in *. cbn [dirty set_dirty] in Hw.
      destruct (delete_range_get _ st m Hd) as (_ & _ & Hg & _). rewrite Hg in Hw. by case_decide. }
    destruct (N.lt_ge_cases c st) as [Hlt|Hge'].
    + destruct l as [m|]; [|done]. destruct (Hl m eq_refl) as (Hge & k' & Hk').
      apply (inv_counter _ Hd) in Hk' as [_ Hk']. rewrite u64_add_small by lia. lia.
    + destruct (Hm _ _ Hw0 Hge') as (m & -> & Hcm). destruct (Hl m eq_refl) as (Hge & k' & Hk').
      apply (inv_counter _ Hd) in Hk' as [_ Hk']. rewrite u64_add_small by lia. lia.
Qed.

(** How many turns are left at most before the next look at the log. *)
Definition turns_left (ph : Phase) : nat :=
  match ph with
  | Collecting | Closed | Failed _ => 0
  | Sending _ | Waiting => 1
  | Checking _ => 2
  | Deleting _ _ => 3
  | Retrying counters => 1 + 2 * length counters
  | RetrySending _ counters => 2 + 2 * length counters
  end.

Lemma turns_left_poll s tb w :
  live (phase s) = true →
  phase s = Collecting ∨ (phase s = Waiting ∧ w < start_counter s) ∨
  ∃ s' tb', poll s tb w = Some (s', tb') ∧ live (phase s') = true ∧
    (turns_left (phase s') < turns_left (phase s))%nat.
Proof.
  intros Hl. unfold poll.
  destruct (phase s) as [|job l|x|x| |[|c cs]|x cs| |e] eqn:Eph; try done; [by left|right..].
  - right. eexists _, _. split; [done|]. destruct job; simpl; split; done || lia.
  - right. destruct (is_failed _ _); eexists _, _; (split; [done|]); simpl; split; done || lia.
  - right. eexists _, _. split; [done|]. simpl. split; [done|lia].
  - destruct (N.leb_spec (start_counter s) w); [right|by left].
    eexists _, _. split; [done|]. simpl. split; [done|lia].
  - right. eexists _, _. split; [done|]. simpl. split; [done|lia].
  - right. destruct (build_job_with_counter tb c) as [[x|]|e]; eexists _, _; (split; [done|]); simpl; split; done || lia.
  - right. eexists _, _. split; [done|]. simpl. split; [done|lia].
Qed.

Lemma catch_up s tb w :
  stream_inv (mkSys s tb w) → no_errors tb → last_counter (dirty tb) + 1 < u64_modulus →
  live (phase s) = true → ∃ n, caught_up n s tb w.
Proof.
  revert s tb. cut (∀ k s tb, (turns_left (phase s) ≤ k)%nat → stream_inv (mkSys s tb w) → no_errors tb →
    last_counter (dirty tb) + 1 < u64_modulus → live (phase s) = true → ∃ n, caught_up n s tb w).
  { intros H s tb. by eapply H. }
  induction k as [|k IH]; intros s tb Hk Hinv Hne Hroom Hl; pose proof (si_dirty _ Hinv) as Hd; simpl in Hd;
    (destruct (turns_left_poll s tb w Hl) as [Hc|[[Hw Hlt]|(s' & tb' & Hp & Hl' & Ht)]];
     [destruct (collect_all _ s tb w Hinv Hne Hroom Hc (Nat.le_refl _)) as (n & _ & Hn); by exists n| |]).
  2: lia.
  1, 2: exists 0%nat; unfold caught_up; simpl; split; [done|]; intros c k0 Hlog;
    apply (inv_counter _ Hd) in Hlog; pose proof (si_watch _ Hinv); simpl in *; lia.
  destruct (poll_inv _ _ _ _ _ Hinv Hp) as [Hinv' _].
  destruct (poll_no_errors _ _ _ _ _ Hd Hne Hl Hp) as (Hne' & _ & El).
  destruct (IH s' tb') as [n Hn]; [lia|done|done|by rewrite El|done|].
  exists (S n). by eapply caught_up_poll.
Qed.

(** The path that was marked last, if it is still dirty. *)
Definition last_marked tb : option string := tbl_get (last_counter (dirty tb)) (dirty_log_table (dirty tb)).

Lemma poll_last_marked s tb w s' tb' :
  stream_inv (mkSys s tb w) → poll s tb w = Some (s', tb') →
  last_counter (dirty tb') = last_counter (dirty tb) ∧ last_marked tb' = last_marked tb.
Proof.
  intros [Hd _ _ _ H5] Hp. unfold poll in Hp. simpl in *.
  destruct (phase s) as [|job l|x|x| |[|c cs]|x cs| |e] eqn:Eph; try done; try (repeat case_match; by simplify_eq).
  injection Hp as <- <-. destruct (H5 job l eq_refl) as (_ & H6 & _). destruct l as [m|]; [|done].
  destruct (H6 m eq_refl) as (Hle & _). destruct (_ <? _); [|done].
  destruct (delete_range_get _ (start_counter s) m Hd) as (_ & E & Hg & _). unfold last_marked. cbn [dirty set_dirty].
  rewrite E, Hg. split; [done|]. rewrite decide_False by lia. done.
Qed.

Lemma polls_last_marked n s tb w s' tb' :
  stream_inv (mkSys s tb w) → polls n s tb w = (s', tb') →
  last_counter (dirty tb') = last_counter (dirty tb) ∧ last_marked tb' = last_marked tb.
Proof.
  revert s tb. induction n as [|n IH]; intros s tb Hinv Hp; simpl in Hp; [by simplify_eq|].
  destruct (poll s tb w) as [[s1 tb1]|] eqn:E; [|by simplify_eq].
  destruct (poll_inv _ _ _ _ _ Hinv E) as [Hinv1 _]. destruct (poll_last_marked _ _ _ _ _ Hinv E) as [E1 E2].
  destruct (IH _ _ Hinv1 Hp) as [E3 E4]. by rewrite E3, E4, E1, E2.
Qed.

(** Past everything that is logged, the stream reports nothing, though it may go
    round. *)
Lemma past_log_quiet n s tb w s' tb' :
  (∀ c k, logged tb c k → c < start_counter s) →
  phase s = Waiting ∨ phase s = Collecting ∨ phase s = Deleting None None →
  polls n s tb w = (s', tb') → sent s' = sent s ∧ tb' = tb.
Proof.
  intros Hlog. assert (next_job tb (start_counter s) = Ok (None, None)) as Hn.
  { unfold next_job. destruct (tbl_range _ _ _) as [|[c k] l] eqn:E; [done|]. exfalso.
    assert ((c, k) ∈ tbl_range (Included (start_counter s)) Unbounded (dirty_log_table (dirty tb))) as H
      by (rewrite E; by left).
    apply elem_of_range in H as (Hg & Hge & _). apply Hlog in Hg. unfold above in Hge. simpl in Hge. lia. }
  revert s Hlog Hn. induction n as [|n IH]; intros s Hlog Hn Hph; [by intros [= <- <-]|]. simpl.
  destruct (poll s tb w) as [[s1 tb1]|] eqn:E; [|by intros [= <- <-]]. intros Hp.
  assert (tb1 = tb ∧ sent s1 = sent s ∧ start_counter s1 = start_counter s ∧
    (phase s1 = Waiting ∨ phase s1 = Collecting ∨ phase s1 = Deleting None None)) as (-> & E1 & E2 & Hph1).
  { unfold poll in E. destruct Hph as [Hph|[Hph|Hph]]; rewrite Hph in E.
    - destruct (_ <=? _); [|done]. injection E as <- <-. split_and!; try done. right. by left.
    - rewrite Hn in E. injection E as <- <-. split_and!; try done. right. by right.
    - injection E as <- <-. split_and!; try done. by left. }
  rewrite <- E1. apply (IH s1); rewrite ?E2; done.
Qed.

Lemma sys_reach_inv tb0 x : dirty_inv (dirty tb0) → rtc sys_step (sys_init tb0) x → stream_inv x.
Proof.
  intros Hd. apply (rtc_ind_r (λ x, stream_inv x)); [by apply stream_inv_init|].
  intros y z _ Hyz Hy. by eapply sys_step_inv.
Qed.

(** ** Retries *)

(** Failures that the stream has not retried yet. *)
Definition after_bound (lower_bound : option UnixTime) (f : FailedJobTableEntry) : Prop :=
  match lower_bound with Some lb => as_duration lb < as_duration (backoff_until f) | None => True end.

(** The state of the scan after [seen]. *)
Record backoff_ok lb (seen : list (N * FailedJobTableEntry)) (acc : UnixTime * list N) : Prop := {
  bo_in : ∀ c, c ∈ acc.2 ↔ ∃ f, (c, f) ∈ seen ∧ after_bound lb f ∧ backoff_until f = acc.1;
  bo_first : ∀ c f, (c, f) ∈ seen → after_bound lb f → as_duration acc.1 ≤ as_duration (backoff_until f);
  bo_none : acc.2 = [] → acc.1 = UnixTime.MAX;
}.

Lemma backoff_step_ok lb seen acc c0 f0 :
  backoff_ok lb seen acc → backoff_ok lb (seen ++ [(c0, f0)]) (backoff_step lb acc (c0, f0)).
Proof.
  destruct acc as [e cs]. intros [H1 H2 H3]. simpl in *. unfold backoff_step. simpl.
  assert (∀ c f, (c, f) ∈ seen ++ [(c0, f0)] ↔ (c, f) ∈ seen ∨ (c, f) = (c0, f0)) as Hin
    by (intros c f; by rewrite elem_of_app, list_elem_of_singleton).
  destruct (match lb with Some _ => _ | None => _ end) eqn:Elb.
  { assert (¬ after_bound lb f0) as Hn.
    { unfold after_bound. destruct lb; [|done]. apply N.leb_le in Elb. lia. }
    split; simpl; [|intros c f [?|[= -> ->]]%Hin Ha; [by eapply H2|done]|done].
    intros c. rewrite H1. setoid_rewrite Hin. naive_solver. }
  assert (after_bound lb f0) as Ha0 by (unfold after_bound; destruct lb; [by apply N.leb_gt in Elb|done]).
  unfold UnixTime.ltb.
  destruct (N.ltb_spec (as_duration e) (as_duration (backoff_until f0)));
    [|destruct (N.ltb_spec (as_duration (backoff_until f0)) (as_duration e))]; split; simpl.
  - intros c. rewrite H1. setoid_rewrite Hin. split; [naive_solver|].
    intros (f & [?|[= -> ->]] & ? & Hb); [naive_solver|]. subst e. lia.
  - intros c f [?|[= -> ->]]%Hin Ha; [by eapply H2|lia].
  - done.
  - intros c. rewrite list_elem_of_singleton. setoid_rewrite Hin. split; [intros ->; eauto|].
    intros (f & [Hs|[= -> ->]] & Ha & Hb); [|done]. pose proof (H2 _ _ Hs Ha). rewrite Hb in *. lia.
  - intros c f [Hs|[= -> ->]]%Hin Ha; [pose proof (H2 _ _ Hs Ha)|]; lia.
  - done.
  - assert (backoff_until f0 = e) as <- by (destruct (backoff_until f0), e; simpl in *; f_equal; lia).
    intros c. rewrite elem_of_app, list_elem_of_singleton, H1. setoid_rewrite Hin. split; [naive_solver|].
    intros (f & [?|[= -> ->]] & Ha & Hb); [left; eauto|by right].
  - intros c f [?|[= -> ->]]%Hin Ha; [by eapply H2|lia].
  - by destruct cs.
Qed.

Lemma backoff_fold_ok lb l seen acc :
  backoff_ok lb seen acc → backoff_ok lb (seen ++ l) (foldl (backoff_step lb) acc l).
Proof.
  revert seen acc. induction l as [|[c f] l IH]; intros seen acc H; [by rewrite app_nil_r|].
  change ((c, f) :: l) with ([(c, f)] ++ l). rewrite app_assoc. by apply IH, backoff_step_ok.
Qed.

Lemma next_backoff_run lb d :
  match next_backoff lb d with
  | Some (t, counters) =>
      as_duration t < as_duration UnixTime.MAX ∧ counters ≠ [] ∧
      (∀ c, c ∈ counters ↔ ∃ f, tbl_get c (failed_job_table d) = Some f ∧ after_bound lb f ∧ backoff_until f = t) ∧
      (∀ c f, tbl_get c (failed_job_table d) = Some f → after_bound lb f →
         as_duration t ≤ as_duration (backoff_until f))
  | None => ∀ c f, tbl_get c (failed_job_table d) = Some f → after_bound lb f →
              as_duration UnixTime.MAX ≤ as_duration (backoff_until f)
  end.
Proof.
  unfold next_backoff. destruct (backoff_fold_ok lb (tbl_iter (failed_job_table d)) [] (UnixTime.MAX, [])) as [H1 H2 H3].
  { split; simpl; [|by intros c f ?%not_elem_of_nil|done].
    intros c. split; [by intros ?%not_elem_of_nil|]. by intros (f & ?%not_elem_of_nil & _). }
  simpl in H1, H2, H3. destruct (foldl _ _ _) as [e cs]. simpl in *.
  setoid_rewrite elem_of_iter in H1. setoid_rewrite elem_of_iter in H2.
  unfold UnixTime.ltb. destruct (N.ltb_spec (as_duration e) (as_duration UnixTime.MAX)).
  - split_and!; [done| |done|done]. intros E%H3. subst e. by apply N.lt_irrefl in H.
  - intros c f Hf Ha. eapply N.le_trans; [exact H|by eapply H2].
Qed.

Lemma retrying_run s tb w counters :
  phase s = Retrying counters →
  ∃ n, polls n s tb w =
    (mkStream (start_counter s) (retry_lower_bound s) Collecting
       (sent s ++ omap (λ c, default None (result_ok (build_job_with_counter tb c))) counters), tb).
Proof.
  revert s. induction counters as [|c cs IH]; intros s Hph.
  - exists 1%nat. simpl. unfold poll. rewrite Hph. by rewrite app_nil_r.
  - destruct (build_job_with_counter tb c) as [[x|]|e] eqn:E.
    + destruct (IH (goto (Retrying cs) (send x (goto (RetrySending x cs) s))) eq_refl) as [n Hn].
      exists (2 + n)%nat. simpl. unfold poll at 1. rewrite Hph, E. unfold poll at 1. simpl. rewrite Hn. simpl.
      rewrite ?E. simpl. by rewrite <- app_assoc.
    + destruct (IH (goto (Retrying cs) s) eq_refl) as [n Hn]. exists (S n). simpl. unfold poll at 1. rewrite Hph, E, Hn. simpl. by rewrite ?E.
    + destruct (IH (goto (Retrying cs) s) eq_refl) as [n Hn]. exists (S n). simpl. unfold poll at 1. rewrite Hph, E, Hn. simpl. by rewrite ?E.
Qed.

Lemma wanted_by_counter tb p c j : wanted tb p c j → build_job_with_counter tb c = Ok (Some (c, j)).
Proof.
  intros (Hv & Hl & Hj). unfold build_job_with_counter. unfold logged in Hl. rewrite Hl. unfold valid in Hv.
  by rewrite Hv, build_job_counter, Hj.
Qed.

(** ** The environment *)

Lemma dirty_env_refl d : dirty_inv d → dirty_env d d.
Proof. by split. Qed.

Lemma failed_logged d c : dirty_inv d → is_failed d c = true → is_Some (tbl_get c (dirty_log_table d)).
Proof.
  intros Hd Hf. unfold is_failed in Hf. destruct (tbl_get c (failed_job_table d)) as [f|] eqn:E; [|done].
  by apply (inv_failed _ Hd c f).
Qed.

Lemma dirty_env_trans d1 d2 d3 : dirty_inv d1 → dirty_env d1 d2 → dirty_env d2 d3 → dirty_env d1 d3.
Proof.
  intros Hd [I1 C1 L1 F1] [I2 C2 L2 F2]. split; [done|lia| |].
  - intros c k Hc Hle. apply L1; [apply L2; [done|lia]|done].
  - intros c k Hc Hf. apply (F2 c k Hc), (F1 c k); [|done]. apply L2; [done|].
    apply failed_logged in Hf as [k' Hk']; [|done]. apply (inv_counter _ Hd) in Hk'. lia.
Qed.

Lemma dirty_env_mark d p :
  dirty_inv d → last_counter d + 1 < u64_modulus → dirty_env d (mark_dirty_tables p d).
Proof.
  intros Hd Hlt. destruct (mark_dirty_get d p Hd Hlt) as (Hl & _ & Hlog & Hf).
  split; [by apply mark_dirty_inv|lia| |].
  - intros c k. rewrite Hlog. intros Hc Hle. rewrite decide_False in Hc by lia. by case_decide.
  - intros c k. rewrite Hlog. unfold is_failed at 2. rewrite Hf. intros Hc Hfc.
    pose proof (failed_logged _ _ Hd Hfc) as [k' Hk']. pose proof (inv_counter _ Hd _ _ Hk').
    rewrite decide_False in Hc by lia. case_decide; [done|]. exact Hfc.
Qed.

Lemma dirty_env_marks d l :
  dirty_inv d → last_counter d + N.of_nat (length l) < u64_modulus → dirty_env d (marks l d).
Proof.
  revert d. induction l as [|p l IH]; intros d Hd Hlt; [by apply dirty_env_refl|]. simpl in Hlt.
  pose proof (dirty_env_mark d p Hd ltac:(lia)) as H1. eapply dirty_env_trans; [done|exact H1|].
  apply IH; [apply H1|]. destruct (mark_dirty_get d p Hd ltac:(lia)) as (-> & _). lia.
Qed.

Lemma dirty_env_finished strategy now id status d :
  dirty_inv d → dirty_env d (job_finished strategy now id status d).
Proof.
  intros Hd. pose proof (dirty_step_inv strategy _ _ (step_finished strategy d now id status) Hd) as Hi.
  assert (last_counter (job_finished strategy now id status d) = last_counter d ∧
    (∀ c, tbl_get c (dirty_log_table (job_finished strategy now id status d)) = tbl_get c (dirty_log_table d) ∧
            (is_failed d c = true → is_failed (job_finished strategy now id status d) c = true)
          ∨ tbl_get c (dirty_log_table (job_finished strategy now id status d)) = None)) as [Hl Hc].
  { assert (∀ c, tbl_get c (tbl_remove id (dirty_log_table d)) = tbl_get c (dirty_log_table d) ∧
        tbl_get c (tbl_remove id (failed_job_table d)) = tbl_get c (failed_job_table d) ∨
      tbl_get c (tbl_remove id (dirty_log_table d)) = None) as Hrm.
    { intros c. destruct (decide (c = id)) as [->|Hne]; [right; by rewrite get_remove_eq|left]. by rewrite !get_remove_ne. }
    unfold job_finished. destruct status as [[]|]; unfold job_done, job_failed;
      (destruct (tbl_get id (dirty_log_table d)) as [k|] eqn:E; [|by split; [|left]]).
    1, 2: split; [done|]; intros c; destruct (Hrm c) as [[H1 H2]|]; [left|by right]; split; [done|];
      unfold is_failed; simpl; by rewrite H2.
    destruct (strategy _) as [delay|]; simpl; (split; [done|]); intros c.
    - left. split; [done|]. unfold is_failed. simpl. rewrite get_insert. by case_decide.
    - destruct (Hrm c) as [[H1 H2]|]; [left|by right]; split; [done|]. unfold is_failed; simpl; by rewrite H2. }
  split; [done|by rewrite Hl| |].
  - intros c k Hk _. destruct (Hc c) as [[E _]|E]; congruence.
  - intros c k Hk. destruct (Hc c) as [[_ E]|E]; [done|congruence].
Qed.

(** A change of the database that marks dirty the paths that come to need a job. *)
Lemma env_ok_marks tb tb' l :
  dirty (tb') = marks l (dirty tb) → last_counter (dirty tb) + N.of_nat (length l) < u64_modulus →
  dirty_inv (dirty tb) →
  (∀ p j, valid p → job_of tb' p = Ok (Some j) → job_of tb p ≠ Ok (Some j) → p ∈ l) →
  env_ok tb tb'.
Proof.
  intros E Hroom Hd Hj. split; [intros _; rewrite E; by apply dirty_env_marks|].
  intros p j Hv H1 H2. destruct (marks_spec l (dirty tb) Hd Hroom) as [_ [Hm _ _]].
  rewrite E. apply Hm, list_elem_of_fmap_2. by eapply Hj.
Qed.

Lemma job_known tb p j : valid p → job_of tb p = Ok (Some j) → known arena_root tb p.
Proof.
  intros Hv Hj. assert (∃ e, get_file_entry_for_path (cache tb) arena_root p = Ok e) as [e He].
  { unfold job_of, build_job in Hj. destruct (get_mark tb p), (get_file_entry_for_path (cache tb) arena_root p) as [e|];
      try done; by exists e. }
  right. unfold get_file_entry_for_path in He. unfold presented_in, seen, file_of, file_at.
  unfold do_lookup_path in He. unfold resolve. change (Path.components (Some p)) with (comps p) in He.
  destruct (lookup_components _ _ _) as [[i a]|]; [|done]. simpl in He. destruct a; [|done]. simpl in *.
  unfold ArenaCache.get_file_entry in He. simpl in He. unfold iview. by destruct (tbl_get _ _).
Qed.

Lemma redirtied_env path tb tb' :
  redirtied arena_root path tb tb' → index tb' = index tb → cache tb' = cache tb → blob_table tb' = blob_table tb →
  ∃ l, dirty tb' = marks l (dirty tb) ∧
    (dirty_inv (dirty tb) → last_counter (dirty tb) + N.of_nat (length l) < u64_modulus → env_ok tb tb').
Proof.
  intros (l & E & _ & Hl & _) Ei Ec Eb. exists l. split; [done|]. intros Hd Hroom.
  apply (env_ok_marks tb tb' l E Hroom Hd). intros p j Hv H1 H2.
  assert (known arena_root tb p) as Hk.
  { pose proof (job_known _ _ _ Hv H1) as H. unfold known in *. by rewrite Ei, Ec in H. }
  apply Hl; [done|done|]. intros Hm. apply H2. rewrite <- H1. unfold job_of, build_job. by rewrite Hm, Ei, Ec, Eb.
Qed.

Lemma rtc_polls n s tb w s' tb' : polls n s tb w = (s', tb') → rtc sys_step (mkSys s tb w) (mkSys s' tb' w).
Proof.
  revert s tb. induction n as [|n IH]; intros s tb Hp; simpl in Hp; [by simplify_eq|].
  destruct (poll s tb w) as [[s1 tb1]|] eqn:E; [|by simplify_eq].
  eapply rtc_l; [by apply sys_poll|by apply IH].
Qed.

(** C11: whatever happens to the database meanwhile, provided that the tables of dirty
    paths are changed as [Dirty] does and that a path that comes to need a job, or
    another one, is marked dirty anew, the stream loses no job: a dirty path that there
    is something to do for was reported, is about to be, or is left to be retried
    because it failed, once the stream is past its counter; no turn of the stream takes
    such a path out of the dirty paths; and a stream that waits is woken up by one that
    it has not come to. *)
Theorem job_stream_loses_nothing tb0 s tb w p c j
  (Hd : dirty_inv (dirty tb0)) (Hreach : rtc sys_step (sys_init tb0) (mkSys s tb w))
  (Hw : wanted tb p c j) :
  (c < start_counter s →
     (c, j) ∈ sent s ∨ is_failed (dirty tb) c = true ∨ pending (phase s) (c, j)) ∧
  (∀ s' tb', poll s tb w = Some (s', tb') → wanted tb' p c j) ∧
  (phase s = Waiting → start_counter s ≤ c → poll s tb w = Some (goto Collecting s, tb)).
Proof.
  pose proof (sys_reach_inv _ _ Hd Hreach) as Hinv. split_and!.
  - intros Hc. by eapply (si_seen _ Hinv).
  - intros s' tb' Hp. by apply (proj2 (poll_inv _ _ _ _ _ Hinv Hp)).
  - intros Hph Hc. unfold poll. rewrite Hph. destruct Hw as (_ & Hl & _).
    pose proof (si_watch _ Hinv) as Hwt. simpl in Hwt.
    apply (inv_counter _ (si_dirty _ Hinv)) in Hl as [_ Hl]. simpl in Hl.
    assert (start_counter s <=? w = true) as -> by (apply N.leb_le; lia). done.
Qed.

(** C37: left alone, and as long as the blobs of the dirty files can be found, the stream
    gets to where it waits in finitely many turns, and by then it has reported every
    dirty path there is a job for, but for those that failed and wait to be retried.
    From then on it reports nothing and leaves the database as it is; and it halts there
    when the path that was marked last is still dirty.  When that one is not dirty any
    more, the stream may go round without waiting. *)
Theorem job_stream_progress tb0 s tb w
  (Hd : dirty_inv (dirty tb0)) (Hreach : rtc sys_step (sys_init tb0) (mkSys s tb w))
  (Hne : no_errors tb) (Hroom : last_counter (dirty tb) + 1 < u64_modulus) (Hl : live (phase s) = true) :
  ∃ n s' tb', polls n s tb w = (s', tb') ∧ phase s' = Waiting ∧
    (∀ p c j, wanted tb p c j →
      wanted tb' p c j ∧ ((c, j) ∈ sent s' ∨ is_failed (dirty tb') c = true)) ∧
    (∀ m s2 tb2, polls m s' tb' w = (s2, tb2) → sent s2 = sent s' ∧ tb2 = tb') ∧
    (is_Some (last_marked tb) → poll s' tb' w = None).
Proof.
  pose proof (sys_reach_inv _ _ Hd Hreach) as Hinv.
  destruct (catch_up s tb w Hinv Hne Hroom Hl) as [n Hn]. unfold caught_up in Hn.
  destruct (polls n s tb w) as [s' tb'] eqn:Hp. destruct Hn as [Hph Hn].
  destruct (polls_inv _ _ _ _ _ _ Hinv Hp) as [Hinv' Hkeep].
  destruct (polls_last_marked _ _ _ _ _ _ Hinv Hp) as [El Em].
  exists n, s', tb'. split; [done|]. split; [done|]. split_and!.
  - intros p c j Hw%Hkeep. split; [done|]. pose proof Hw as (_ & Hlog & _).
    destruct (si_seen _ Hinv' p c j Hw (Hn _ _ Hlog)) as [|[|Hpend]]; [by left|by right|].
    simpl in Hpend. by rewrite Hph in Hpend.
  - intros m s2 tb2. apply past_log_quiet; [done|by left].
  - rewrite <- Em. intros [k Hk]. apply Hn in Hk. pose proof (si_watch _ Hinv') as Hw. simpl in Hw.
    unfold poll. rewrite Hph. assert (start_counter s' <=? w = false) as -> by (apply N.leb_gt; lia). done.
Qed.

(** A stream that is started when nothing is dirty, on a database in which
    something was before, does not wait: the counter it waits for was passed long
    ago, so it looks again, finds nothing, and is back where it was. *)
Theorem job_stream_spins tb n
  (Hempty : ∀ c k, ¬ logged tb c k) (Hlast : 1 ≤ last_counter (dirty tb)) :
  polls (3 * n) stream_init tb (last_counter (dirty tb)) = (stream_init, tb).
Proof.
  assert (next_job tb 1 = Ok (None, None)) as Hn.
  { unfold next_job. destruct (tbl_range _ _ _) as [|[c k] l] eqn:E; [done|].
    destruct (Hempty c k). assert ((c, k) ∈ tbl_range (Included 1) Unbounded (dirty_log_table (dirty tb))) as H
      by (rewrite E; by left). by apply elem_of_range in H as [? _]. }
  assert (polls 3 stream_init tb (last_counter (dirty tb)) = (stream_init, tb)) as H3.
  { simpl. unfold poll at 1. simpl. rewrite Hn. unfold poll at 1. simpl. unfold poll at 1. simpl.
    assert (1 <=? last_counter (dirty tb) = true) as -> by by apply N.leb_le. done. }
  induction n as [|n IH]; [done|]. replace (3 * S n)%nat with (3 + 3 * n)%nat by lia. by rewrite polls_app, H3.
Qed.

(** A waiting stream retries the failed jobs whose time comes first, all of
    them and no other, each as what there is to do for the path now. *)
Theorem failed_job_retried s tb w now p c j f
  (Hph : phase s = Waiting) (Hw : wanted tb p c j)
  (Hf : tbl_get c (failed_job_table (dirty tb)) = Some f) (Ha : after_bound (retry_lower_bound s) f)
  (Hmax : as_duration (backoff_until f) < as_duration UnixTime.MAX)
  (Hfirst : ∀ c' f', tbl_get c' (failed_job_table (dirty tb)) = Some f' → after_bound (retry_lower_bound s) f' →
     as_duration (backoff_until f) ≤ as_duration (backoff_until f'))
  (Hnow : as_duration (backoff_until f) ≤ as_duration now) :
  ∃ counters s1 n s2, poll_backoff s tb now = Some s1 ∧ polls n s1 tb w = (s2, tb) ∧
    phase s2 = Collecting ∧ retry_lower_bound s2 = Some (backoff_until f) ∧ (c, j) ∈ sent s2 ∧
    sent s2 = sent s ++ omap (λ c, default None (result_ok (build_job_with_counter tb c))) counters ∧
    ∀ c', c' ∈ counters ↔ ∃ f', tbl_get c' (failed_job_table (dirty tb)) = Some f' ∧
                                after_bound (retry_lower_bound s) f' ∧ backoff_until f' = backoff_until f.
Proof.
  pose proof (next_backoff_run (retry_lower_bound s) (dirty tb)) as H.
  destruct (next_backoff (retry_lower_bound s) (dirty tb)) as [[t counters]|] eqn:E.
  2:{ pose proof (H c f Hf Ha). lia. }
  destruct H as (_ & H1 & H2 & H3).
  assert (t = backoff_until f) as ->.
  { pose proof (H3 c f Hf Ha) as Hle. destruct counters as [|c' cs]; [done|].
    destruct (proj1 (H2 c') ltac:(by left)) as (f' & Hf' & Ha' & <-). pose proof (Hfirst c' f' Hf' Ha').
    destruct (backoff_until f'), (backoff_until f). simpl in *. f_equal. lia. }
  set (s1 := mkStream (start_counter s) (Some (backoff_until f)) (Retrying counters) (sent s)).
  destruct (retrying_run s1 tb w counters eq_refl) as [n Hn].
  exists counters, s1, n. eexists. split; [|split; [exact Hn|]].
  - unfold poll_backoff. rewrite Hph, E. by assert (UnixTime.leb (backoff_until f) now = true) as -> by by apply N.leb_le.
  - simpl. split_and!; [done..| |done|exact H2]. apply elem_of_app. right. apply list_elem_of_omap. exists c.
    split; [|by rewrite (wanted_by_counter _ _ _ _ Hw)]. apply H2. by exists f.
Qed.

(** Nothing is left to do for the file with the mark it has. *)
Definition settled tb p : Prop :=
  ∀ cached, get_file_entry_for_path (cache tb) arena_root p = Ok cached →
    match get_mark tb p with
    | Watch => ∀ i, Index.get_file_entry (index tb) p = Some i → fc_hash (content cached) ≠ ix_hash i
    | Keep => (∀ i, Index.get_file_entry (index tb) p = Some i → fc_hash (content cached) ≠ ix_hash i) ∧
              local_availability (blob_table tb) cached = Ok Verified
    | Own => ∃ i, Index.get_file_entry (index tb) p = Some i ∧ outdated_by i ≠ Some (fc_hash (content cached))
    end.

Lemma availability_error (bt : table N BlobTableEntry) e err :
  local_availability bt e = Err err → err = NotFound ∧ ∃ b, blob (content e) = Some b ∧ tbl_get b bt = None.
Proof.
  unfold local_availability, get_blob_entry. destruct (blob (content e)) as [b|]; [|done].
  destruct (tbl_get b bt) as [be|] eqn:E; simpl; [|intros [= <-]; eauto].
  repeat case_match; done.
Qed.

(** Nothing that is kept in the index is to be evicted: the file has to be here,
    verified. *)
Lemma keep_job tb p c e :
  get_file_entry_for_path (cache tb) arena_root p = Ok e → get_mark tb p = Keep →
  ix_hash <$> Index.get_file_entry (index tb) p ≠ Some (fc_hash (content e)) →
  match result_bind (local_availability (blob_table tb) e) (λ availability,
      if negb (bool_decide (availability = Verified))
      then Ok (Some (c, JDownload p (fc_hash (content e)))) else Ok None) with
  | Ok None => settled tb p
  | Ok (Some (id, j)) => id = c ∧ j = JDownload p (fc_hash (content e)) ∧ ¬ settled tb p
  | Err err => err = NotFound ∧ ∃ b, blob (content e) = Some b ∧ tbl_get b (blob_table tb) = None
  end.
Proof.
  intros Ec Em Hi. unfold settled. rewrite Em, Ec.
  destruct (local_availability (blob_table tb) e) as [av|err] eqn:Ea; simpl; [|by apply availability_error].
  case_bool_decide as Ev; simpl.
  - intros e' [= <-]. split; [|congruence]. intros i Ei E. apply Hi. by rewrite Ei, E.
  - split; [done|]. split; [done|]. intros H. destruct (H e eq_refl) as [_ Hv]. congruence.
Qed.

(** There is no job for a path exactly when it is settled; a job is about the
    version that is presented of the path, it evicts a local copy of it that the
    mark does not ask for, fetches what is to be kept and is not here verified, or
    brings an owned file in when it is missing or known to be outdated by this
    version; and the only failure is a blob that is not in its table. *)
Theorem build_job_spec tb p c :
  match build_job tb p c with
  | Ok None => settled tb p
  | Ok (Some (id, j)) =>
      id = c ∧ job_path j = p ∧ ¬ settled tb p ∧
      ∃ cached, get_file_entry_for_path (cache tb) arena_root p = Ok cached ∧ job_hash j = fc_hash (content cached) ∧
        match j with
        | JUnrealize _ h => get_mark tb p ≠ Own ∧ ix_hash <$> Index.get_file_entry (index tb) p = Some h
        | JDownload _ h => get_mark tb p = Keep ∧ ix_hash <$> Index.get_file_entry (index tb) p ≠ Some h
        | JRealize _ h old => get_mark tb p = Own ∧ old = ix_hash <$> Index.get_file_entry (index tb) p ∧
            ∀ i, Index.get_file_entry (index tb) p = Some i → outdated_by i = Some h
        end
  | Err e => e = NotFound ∧ ∃ cached b, get_file_entry_for_path (cache tb) arena_root p = Ok cached ∧
      blob (content cached) = Some b ∧ tbl_get b (blob_table tb) = None
  end.
Proof.
  unfold build_job.
  destruct (get_file_entry_for_path (cache tb) arena_root p) as [e|err] eqn:Ec.
  2:{ destruct (get_mark tb p) eqn:Em; intros e; congruence. }
  destruct (get_mark tb p) eqn:Em.
  - destruct (Index.get_file_entry (index tb) p) as [i|] eqn:Ei.
    2:{ intros e' _. rewrite Em. congruence. }
    case_bool_decide as Eh; [|intros e' Ee; rewrite Em; congruence].
    split_and!; [done|done|intros H; specialize (H e Ec); rewrite Em in H; by apply (H i)|].
    exists e. split_and!; [done..|simpl; by rewrite Eh].
  - destruct (default false _) eqn:Eu.
    + destruct (Index.get_file_entry (index tb) p) as [i|] eqn:Ei; [|done]. apply bool_decide_eq_true_1 in Eu.
      split_and!; [done|done|intros H; specialize (H e Ec); rewrite Em in H; by apply (proj1 H i)|].
      exists e. split_and!; [done..|simpl; by rewrite Eu].
    + assert (ix_hash <$> Index.get_file_entry (index tb) p ≠ Some (fc_hash (content e))) as Hi.
      { destruct (Index.get_file_entry (index tb) p) as [i|]; [|done]. apply bool_decide_eq_false_1 in Eu. simpl. congruence. }
      pose proof (keep_job tb p c e Ec Em Hi) as H. destruct (result_bind _ _) as [[[id j]|]|err]; [|done|].
      * destruct H as (-> & -> & Hn). split_and!; [done..|]. exists e. done.
      * destruct H as (-> & b & H1 & H2). split; [done|]. exists e, b. done.
  - destruct (Index.get_file_entry (index tb) p) as [i|] eqn:Ei.
    + destruct (default false _) eqn:Eo.
      * destruct (outdated_by i) as [h|] eqn:Eh; [|done]. apply bool_decide_eq_true_1 in Eo as ->.
        split_and!; [done|done| |].
        -- intros H. pose proof (H e Ec) as H'. rewrite Em in H'. destruct H' as (i' & Ei' & H'). congruence.
        -- exists e. split_and!; [done..|]. by intros i' [= <-].
      * intros e' Ee. assert (e' = e) as -> by congruence. rewrite Em. exists i. split; [done|]. intros Eh. rewrite Eh in Eo.
        simpl in Eo. by apply bool_decide_eq_false_1 in Eo.
    + split_and!; [done|done| |].
      * intros H. specialize (H e Ec). rewrite Em in H. destruct H as (i & H & _). congruence.
      * exists e. split_and!; [done..|]. done.
Qed.

(** Finishing jobs and changing marks leave the stream what it relies on: the
    paths that come to need a job, or another one, are dirty under a new counter, as
    long as there are counters left. *)
Theorem engine_environment n0 w (Hd : dirty_inv (dirty (db w)))
  (Hc : cache_ok arena_root n0 (cache (db w)) (global (w_ext w))) :
  (∀ strategy now id status,
     env_ok (db w) (set_dirty (job_finished strategy now id status (dirty (db w))) (db w))) ∧
  (∀ path m w', (∀ p, path = Some p → valid p) → set_mark_or_root arena_root path m w = (Ok tt, w') →
     ∃ l, dirty (db w') = marks l (dirty (db w)) ∧
       (last_counter (dirty (db w)) + N.of_nat (length l) < u64_modulus → env_ok (db w) (db w'))) ∧
  (∀ p w', valid p → clear_mark arena_root p w = (Ok tt, w') →
     ∃ l, dirty (db w') = marks l (dirty (db w)) ∧
       (last_counter (dirty (db w)) + N.of_nat (length l) < u64_modulus → env_ok (db w) (db w'))).
Proof.
  split_and!.
  - intros strategy now id status. split; [by apply dirty_env_finished|]. intros p j _ H1 H2. by destruct H2.
  - intros path m w' Hp E. pose proof (set_mark_run arena_root n0 path m w Hc Hp) as H. rewrite E in H.
    destruct H as (_ & _ & Hr & Hi & Hca & Hb). destruct (redirtied_env _ _ _ Hr Hi Hca Hb) as (l & El & Hl).
    exists l. split; [done|]. by apply Hl.
  - intros p w' Hp E. pose proof (clear_mark_run arena_root n0 p w Hc Hp) as H. rewrite E in H.
    destruct H as (_ & _ & _ & Hr & Hi & Hca & Hb). destruct (redirtied_env _ _ _ Hr Hi Hca Hb) as (l & El & Hl).
    exists l. split; [done|]. by apply Hl.
Qed.
End engine.

(** ** The retry strategy *)

Definition JOB_RETRY_TIME_BASE : Duration := 60 * UnixTime.nanos_per_sec.
Definition MAX_JOB_RETRY_DURATION : Duration := 18 * 23600 * UnixTime.nanos_per_sec.

(** [2u32.pow(attempt)], as a release build computes it. *)
Definition u32_pow2 (attempt : N) : N := 2 ^ attempt mod 4294967296.

(** [job_retry_strategy] *)
Definition job_retry_strategy (attempt : N) : option Duration :=
  let duration := u32_pow2 attempt * JOB_RETRY_TIME_BASE in
  Some (N.max duration MAX_JOB_RETRY_DURATION).

(** C39: a failed job is never given up; it waits at least the maximum of four
    days and twenty-two hours before every attempt, and from the thirteenth to the
    thirty-first one it waits longer and longer than that. *)
Theorem retry_delay_bounds (attempt : N) :
  ∃ d, job_retry_strategy attempt = Some d ∧ MAX_JOB_RETRY_DURATION ≤ d ∧
    (attempt < 13 → d = MAX_JOB_RETRY_DURATION) ∧
    (13 ≤ attempt → attempt < 32 → d = 2 ^ attempt * JOB_RETRY_TIME_BASE ∧ MAX_JOB_RETRY_DURATION < d) ∧
    (32 ≤ attempt → d = MAX_JOB_RETRY_DURATION).
Proof.
  eexists. split; [reflexivity|]. split; [lia|].
  assert (∀ b, b ≤ 7079 → N.max (b * JOB_RETRY_TIME_BASE) MAX_JOB_RETRY_DURATION = MAX_JOB_RETRY_DURATION) as Hsmall.
  { intros b Hb. unfold JOB_RETRY_TIME_BASE, MAX_JOB_RETRY_DURATION, UnixTime.nanos_per_sec. lia. }
  unfold u32_pow2. split_and!.
  - intros Ha. apply Hsmall. assert (2 ^ attempt ≤ 2 ^ 12) as Hp by (apply N.pow_le_mono_r; lia).
    change (2 ^ 12) with 4096 in Hp. rewrite N.mod_small; lia.
  - intros H1 H2. assert (2 ^ attempt ≤ 2 ^ 31) as Hp by (apply N.pow_le_mono_r; lia).
    assert (2 ^ 13 ≤ 2 ^ attempt) as Hq by (apply N.pow_le_mono_r; lia).
    change (2 ^ 31) with 2147483648 in Hp. change (2 ^ 13) with 8192 in Hq. rewrite N.mod_small by lia.
    unfold JOB_RETRY_TIME_BASE, MAX_JOB_RETRY_DURATION, UnixTime.nanos_per_sec. lia.
  - intros Ha. apply Hsmall. replace attempt with (32 + (attempt - 32)) by lia.
    rewrite N.pow_add_r. change (2 ^ 32) with 4294967296. rewrite N.mul_comm, N.Div0.mod_mul. lia.
Qed.

Section engine_witnesses.
#[local] Existing Instance gmap_redb.
#[local] Existing Instance list_bimap.
#[local] Existing Instance list_bimap_laws.

(** [foo/bar] is to be kept, and is not here. *)
Definition tb_kept : Tables := db w_marked.
Definition job_kept : Job := JDownload foobar hash1.
Definition s_sent : Stream := (polls 2 4 stream_init tb_kept 2).1.

Lemma sent1 : polls 2 4 stream_init tb_kept 2 = (s_sent, tb_kept).
Proof. by vm_compute. Qed.

Lemma marked_dirty1 : dirty_inv (dirty tb_kept).
Proof.
  assert (dirty tb_kept = mark_dirty_tables foobar (mark_dirty_tables foobar dirty_empty)) as -> by by vm_compute.
  apply mark_dirty_inv; [apply mark_dirty_inv|]; [apply dirty_inv_empty|by vm_compute..].
Qed.

Lemma wanted1 : wanted 2 tb_kept foobar 2 job_kept.
Proof. split; [by vm_compute|]. split; by vm_compute. Qed.

Lemma logged1 c k : logged tb_kept c k → c = 2 ∧ k = "foo/bar".
Proof.
  intros H. apply elem_of_iter in H.
  assert (tbl_iter (dirty_log_table (dirty tb_kept)) = [(2, "foo/bar")]) as E by by vm_compute.
  rewrite E in H. apply list_elem_of_singleton in H. clear E. injection H as -> ->. split; reflexivity.
Qed.

Lemma no_errors1 : no_errors 2 tb_kept.
Proof.
  intros p c e _ [_ E]%logged1 He. assert (p = foobar) as -> by (destruct p as [k]; simpl in E; by subst k).
  destruct wanted1 as (_ & _ & H). rewrite H in He. discriminate He.
Qed.

Example job_stream_loses_nothing_witness :
  (2, job_kept) ∈ sent s_sent ∨ is_failed (dirty tb_kept) 2 = true ∨ pending (phase s_sent) (2, job_kept).
Proof.
  refine (proj1 (job_stream_loses_nothing 2 tb_kept s_sent tb_kept 2 foobar 2 job_kept marked_dirty1 _ wanted1) _);
    [exact (rtc_polls 2 4 _ _ _ _ _ sent1)|by vm_compute].
Defined.

Example job_stream_progress_witness :
  ∃ n s' tb', polls 2 n stream_init tb_kept 2 = (s', tb') ∧
    ((2, job_kept) ∈ sent s' ∨ is_failed (dirty tb') 2 = true) ∧ poll 2 s' tb' 2 = None.
Proof.
  destruct (job_stream_progress 2 tb_kept stream_init tb_kept 2 marked_dirty1 (rtc_refl _ _) no_errors1
    ltac:(by vm_compute) eq_refl) as (n & s' & tb' & H1 & _ & H2 & _ & H3).
  exists n, s', tb'. split; [exact H1|]. split; [apply (H2 _ _ _ wanted1)|].
  apply H3. by eexists; vm_compute.
Defined.

(** The only job there ever was is done. *)
Definition tb_done : Tables := set_dirty (job_done 1 (mark_dirty_tables foobar dirty_empty)) arena_empty.

Example job_stream_spins_witness : polls 2 300 stream_init tb_done 1 = (stream_init, tb_done).
Proof.
  refine (job_stream_spins 2 tb_done 100 _ _); [|by vm_compute].
  intros c k H. apply elem_of_iter in H.
  assert (tbl_iter (dirty_log_table (dirty tb_done)) = []) as E by by vm_compute.
  rewrite E in H. by apply not_elem_of_nil in H.
Defined.

(** The download failed and is to be tried again at 100. *)
Definition d_failed : DirtyTables :=
  (job_failed (λ _, Some (60 * UnixTime.nanos_per_sec)) (UnixTime.from_secs 40) 2 (dirty tb_kept)).2.
Definition tb_failed : Tables := set_dirty d_failed tb_kept.
Definition failure1 : FailedJobTableEntry := {| backoff_until := UnixTime.from_secs 100; failure_count := 1 |}.
Definition s_waiting : Stream := mkStream 3 None Waiting [].

Lemma failures1 c f : tbl_get c (failed_job_table (dirty tb_failed)) = Some f → c = 2 ∧ f = failure1.
Proof.
  intros H. apply elem_of_iter in H.
  assert (tbl_iter (failed_job_table (dirty tb_failed)) = [(2, failure1)]) as E by by vm_compute.
  rewrite E in H. apply list_elem_of_singleton in H. clear E. injection H as -> ->. split; reflexivity.
Qed.

Example failed_job_retried_witness :
  ∃ s1 n s2, poll_backoff s_waiting tb_failed (UnixTime.from_secs 100) = Some s1 ∧
    polls 2 n s1 tb_failed 2 = (s2, tb_failed) ∧ (2, job_kept) ∈ sent s2.
Proof.
  destruct (failed_job_retried 2 s_waiting tb_failed 2 (UnixTime.from_secs 100) foobar 2 job_kept failure1)
    as (cs & s1 & n & s2 & H1 & H2 & _ & _ & H3 & _).
  - done.
  - split; [by vm_compute|]. split; by vm_compute.
  - by vm_compute.
  - done.
  - by vm_compute.
  - intros c' f' [_ ->]%failures1 _. apply N.le_refl.
  - apply N.le_refl.
  - exists s1, n, s2. split; [exact H1|]. split; [exact H2|exact H3].
Defined.

Example engine_environment_witness :
  (∃ l, dirty (db w_marked) = marks l (dirty (db w_added)) ∧
     (last_counter (dirty (db w_added)) + N.of_nat (length l) < u64_modulus → env_ok 2 (db w_added) (db w_marked))) ∧
  env_ok 2 (db w_added) (set_dirty (job_finished job_retry_strategy UnixTime.ZERO 1 (Some Done) (dirty (db w_added))) (db w_added)).
Proof.
  assert (dirty_inv (dirty (db w_added))) as Hd.
  { assert (dirty (db w_added) = mark_dirty_tables foobar dirty_empty) as -> by by vm_compute.
    apply mark_dirty_inv; [apply dirty_inv_empty|by vm_compute]. }
  destruct (engine_environment 2 0 w_added Hd (added_ok 0 ltac:(by vm_compute))) as (H1 & H2 & _).
  split; [|apply H1]. apply (H2 (Some foo_dir) Keep w_marked); [|exact set1].
  intros p [= <-]. exact foo_dir_valid.
Defined.
End engine_witnesses.
