(* ===== verification/Realize.v ===== *)
(** * Realizing and unrealizing files

    [ArenaStorage::realize] and [ArenaStorage::unrealize] of
    [crate/realize-storage/src/arena.rs]: moving the content of a file out of the
    blob store to the place where the index expects it, and back.  Both check, in one
    write transaction, that the index, the cache and the file on disk are at the
    versions they were asked to move, and give up otherwise.

    The filesystem has no directories here ([Fs]): a rename only fails when what it
    moves is missing. *)
From S2P Require Import Prelude Redb Path Types Db Dirty InodeAllocator RangeSet Blob Dirs Index ArenaCache CacheInv CacheSpec.
Local Open Scope N_scope.
Local Open Scope realize_scope.

Section realize.
Context {R : Redb}.
Context (arena : Arena) (arena_root : Inode) (blob_dir : string).

(** [ArenaStorage::realize]; [root] is that of the indexed storage, if there is one. *)
Definition realize (root : option string) (path : Path) (cache_hash : Hash) (index_hash : option Hash)
  : WorldM bool :=
  match root with
  | None => sthrow (NoLocalStorage arena)
  | Some root =>
      write_txn (
        let* ix := sget (λ t, index (tables t)) in
        let* files := sget (λ t, fs (ext t)) in
        match get_indexed_file ix files root path index_hash with
        | Some realpath =>
            let* moved := move_blob_if_matches arena_root blob_dir path cache_hash realpath in
            if moved then sret (Commit true) else sret (Rollback false)
        | None => sret (Rollback false)
        end)
  end.

(** [ArenaStorage::unrealize] *)
Definition unrealize (root : option string) (path : Path) (hash : Hash) : WorldM bool :=
  match root with
  | None => sthrow (NoLocalStorage arena)
  | Some root =>
      write_txn (
        let* ix := sget (λ t, index (tables t)) in
        let* files := sget (λ t, fs (ext t)) in
        match get_indexed_file ix files root path (Some hash) with
        | Some realpath =>
            let* cachepath := move_into_blob_if_matches arena_root blob_dir path hash in
            match cachepath with
            | Some cachepath =>
                let* dropped := drop_file_if_matches path hash realpath in
                if (dropped : bool) then do* rename realpath cachepath in sret (Commit true)
                else sret (Rollback false)
            | None => sret (Rollback false)
            end
        | None => sret (Rollback false)
        end)
  end.

(** The entry of the version that is presented of a path. *)
Definition cached_as (tb : Tables) (path : Path) (i : Inode) (e : FileTableEntry) : Prop :=
  (∃ a, do_lookup_path (cache_directory_table (cache tb)) arena_root (Some path) = Ok (i, a)) ∧
  tbl_get (i, "") (cache_file_table (cache tb)) = Some e.

Definition with_cached_blob (i : Inode) (e : FileTableEntry) (b : option BlobId) (tb : Tables) : Tables :=
  set_cache (set_cache_file_table (tbl_insert (i, "") (set_blob e b) (cache_file_table (cache tb))) (cache tb)) tb.

(** The place on disk is what the index says: the version [h], or nothing at all. *)
Definition placed (ix : IndexTables) (files : Fs) (root : string) (path : Path) (h : option Hash) : Prop :=
  match h with
  | Some h => ∃ ie, Index.get_file_entry ix path = Some ie ∧ ix_hash ie = h ∧ unchanged files ie (within path root)
  | None => Index.get_file_entry ix path = None ∧ files !! within path root = None
  end.

Lemma get_indexed_spec ix files root path h realpath :
  get_indexed_file ix files root path h = Some realpath ↔
  realpath = within path root ∧ placed ix files root path h.
Proof.
  unfold get_indexed_file, placed, Index.get_file_entry. destruct h as [h|].
  - destruct (tbl_get (as_str path) (index_file_table ix)) as [ie|].
    2:{ split; [done|]. by intros (_ & ? & ? & _). }
    destruct (bool_decide (ix_hash ie = h) && file_matches_index files ie (within path root)) eqn:E.
    + apply andb_true_iff in E as [E1%bool_decide_eq_true E2%file_matches_spec].
      split; [intros [= <-]; split; [done|by exists ie]|by intros [-> _]].
    + split; [done|]. intros [_ (ie' & [= <-] & E1 & E2%file_matches_spec)].
      by rewrite E2, bool_decide_true in E.
  - destruct (tbl_get (as_str path) (index_file_table ix)) as [ie|]; simpl.
    { split; [done|]. by intros [_ [? _]]. }
    destruct (files !! within path root) as [f|]; simpl; [|naive_solver].
    split; [done|]. by intros [_ [_ ?]].
Qed.

(** What a successful [realize] did. *)
Definition realized (root : string) (path : Path) (ch : Hash) (ih : option Hash) (w w' : World) : Prop :=
  ∃ i e b be f,
    cached_as (db w) path i e ∧ fc_hash (content e) = ch ∧ blob (content e) = Some b ∧
    tbl_get b (blob_table (db w)) = Some be ∧ content_hash be = Some ch ∧
    fs (w_ext w) !! blob_path blob_dir b = Some f ∧
    placed (index (db w)) (fs (w_ext w)) root path ih ∧
    fs (w_ext w') = <[within path root := f]> (base.delete (blob_path blob_dir b) (fs (w_ext w))) ∧
    db w' = with_cached_blob i e None (set_blob_table (tbl_remove b (blob_table (db w))) (db w)) ∧
    global (w_ext w') = global (w_ext w).

Lemma blob_move_run (b : BlobId) h dest (t : Txn) :
  match blob_move_if_matches blob_dir b h dest t with
  | (Ok true, t') => ∃ be f, tbl_get b (blob_table (tables t)) = Some be ∧ content_hash be = Some h ∧
      fs (ext t) !! blob_path blob_dir b = Some f ∧
      t' = set_fs (<[dest := f]> (base.delete (blob_path blob_dir b) (fs (ext t))))
             (set_tables (set_blob_table (tbl_remove b (blob_table (tables t))) (tables t)) t)
  | (_, t') => ext t' = ext t
  end.
Proof.
  unfold blob_move_if_matches, sbind, sget, slift, get_blob_entry, put_blob_table, smodify, rename.
  destruct (tbl_get b (blob_table (tables t))) as [be|]; simpl; [|done].
  destruct (content_hash be) as [h'|] eqn:Eh; simpl; [|done].
  case_bool_decide as E; simpl; [subst h'|done].
  destruct (fs (ext t) !! blob_path blob_dir b) as [f|] eqn:Ef; [|done]. exists be, f. done.
Qed.

Lemma move_blob_run path h dest (t : Txn) :
  match move_blob_if_matches arena_root blob_dir path h dest t with
  | (Ok true, t') => ∃ i e b be f,
      cached_as (tables t) path i e ∧ fc_hash (content e) = h ∧ blob (content e) = Some b ∧
      tbl_get b (blob_table (tables t)) = Some be ∧ content_hash be = Some h ∧
      fs (ext t) !! blob_path blob_dir b = Some f ∧
      t' = set_fs (<[dest := f]> (base.delete (blob_path blob_dir b) (fs (ext t))))
             (set_tables (with_cached_blob i e None
                (set_blob_table (tbl_remove b (blob_table (tables t))) (tables t))) t)
  | (_, t') => ext t' = ext t
  end.
Proof.
  unfold move_blob_if_matches, cached_as, get_default_entry. unfold sbind at 1, sget. unfold sbind at 1, slift at 1.
  change (dir_table_of t) with (cache_directory_table (cache (tables t))).
  destruct (do_lookup_path _ arena_root (Some path)) as [[i a]|e] eqn:El; [|done].
  unfold sbind at 1. unfold sbind at 1, slift at 1.
  change (file_table_of t) with (cache_file_table (cache (tables t))).
  destruct (tbl_get (i, "") (cache_file_table (cache (tables t)))) as [e|] eqn:Ee; cbn [ok_or]; [|done].
  case_bool_decide as Eh; cbn [negb]; [|done]. unfold sbind at 1, slift.
  destruct (blob (content e)) as [b|] eqn:Eb; cbn [ok_or]; [|done].
  unfold sbind at 1. pose proof (blob_move_run b h dest t) as H.
  destruct (blob_move_if_matches blob_dir b h dest t) as [[[]|err] t']; [|done|done].
  destruct H as (be & f & H1 & H2 & H3 & ->). cbn [negb]. unfold sbind, smodify, sret.
  exists i, e, b, be, f. split_and!; [by exists a|done..].
Qed.

Lemma move_blob_succeeds path h dest (t : Txn) i e b be f :
  cached_as (tables t) path i e → fc_hash (content e) = h → blob (content e) = Some b →
  tbl_get b (blob_table (tables t)) = Some be → content_hash be = Some h →
  fs (ext t) !! blob_path blob_dir b = Some f →
  ∃ t', move_blob_if_matches arena_root blob_dir path h dest t = (Ok true, t').
Proof.
  intros [[a Hl] He] Hh Hb Hbe Hc Hf. unfold move_blob_if_matches, get_default_entry, blob_move_if_matches, get_blob_entry.
  unfold sbind, sget, slift. change (dir_table_of t) with (cache_directory_table (cache (tables t))). rewrite Hl.
  change (file_table_of t) with (cache_file_table (cache (tables t))). rewrite He. cbn [ok_or].
  rewrite bool_decide_true by done. rewrite Hb. cbn [negb ok_or]. rewrite Hbe. cbn [ok_or]. rewrite Hc. simpl.
  rewrite bool_decide_true by done. unfold put_blob_table, smodify, rename. simpl. rewrite Hf. by eexists.
Qed.

Lemma realize_succeeds root path ch ih w i e b be f :
  cached_as (db w) path i e → fc_hash (content e) = ch → blob (content e) = Some b →
  tbl_get b (blob_table (db w)) = Some be → content_hash be = Some ch →
  fs (w_ext w) !! blob_path blob_dir b = Some f → placed (index (db w)) (fs (w_ext w)) root path ih →
  ∃ w', realize (Some root) path ch ih w = (Ok true, w').
Proof.
  intros H1 H2 H3 H4 H5 H6 H7. unfold realize, write_txn. unfold sbind at 1, sget. unfold sbind at 1.
  assert (get_indexed_file (index (tables (begin_write w))) (fs (ext (begin_write w))) root path ih = Some (within path root)) as ->
    by by apply get_indexed_spec.
  destruct (move_blob_succeeds path ch (within path root) (begin_write w) i e b be f) as [t' Ht]; [done..|].
  unfold sbind. rewrite Ht. by eexists.
Qed.

Lemma realize_run root path ch ih w :
  match realize (Some root) path ch ih w with
  | (Ok true, w') => realized root path ch ih w w'
  | (_, w') => w' = w
  end.
Proof.
  assert (∀ t, ext t = w_ext w → rollback t w = w) as Hrb by (intros t E; unfold rollback; rewrite E; by destruct w).
  unfold realize, write_txn. unfold sbind at 1, sget. unfold sbind at 1.
  change (index (tables (begin_write w))) with (index (db w)).
  change (fs (ext (begin_write w))) with (fs (w_ext w)).
  destruct (get_indexed_file _ _ root path ih) as [realpath|] eqn:Ei; [|by apply Hrb].
  apply get_indexed_spec in Ei as [-> Hplaced]. unfold sbind.
  pose proof (move_blob_run path ch (within path root) (begin_write w)) as H.
  destruct (move_blob_if_matches _ _ _ _ _ _) as [[[]|err] t']; [|by apply Hrb..].
  destruct H as (i & e & b & be & f & H1 & H2 & H3 & H4 & H5 & H6 & ->). simpl. exists i, e, b, be, f. done.
Qed.

(** The blob that a file is moved into: its own, or a new one. *)
Definition target_blob (e : FileTableEntry) (bt : table N BlobTableEntry) (b : BlobId) (be : BlobTableEntry) : Prop :=
  match blob (content e) with
  | Some b' => b' = b ∧ tbl_get b bt = Some be
  | None => b = last_blob bt + 1 ∧ be = new_blob_entry
  end.

(** All of the file is there. *)
Definition filled (e : FileTableEntry) (be : BlobTableEntry) : BlobTableEntry :=
  {| written_areas := ByteRanges.single 0 (size (metadata e)); content_hash := content_hash be |}.

Context `{!RedbLaws R}.

Lemma move_into_run path h (t : Txn) :
  last_blob (blob_table (tables t)) + 1 < u64_modulus →
  match move_into_blob_if_matches arena_root blob_dir path h t with
  | (Ok (Some cachepath), t') => ∃ i e b be bt,
      cached_as (tables t) path i e ∧ fc_hash (content e) = h ∧
      target_blob e (blob_table (tables t)) b be ∧ cachepath = blob_path blob_dir b ∧
      (∀ b', tbl_get b' bt = if decide (b' = b) then Some (filled e be) else tbl_get b' (blob_table (tables t))) ∧
      t' = set_tables (with_cached_blob i e (Some b) (set_blob_table bt (tables t))) t
  | (_, t') => ext t' = ext t
  end.
Proof.
  intros Hroom. unfold move_into_blob_if_matches, cached_as, get_default_entry. unfold sbind at 1, sget.
  change (dir_table_of t) with (cache_directory_table (cache (tables t))).
  destruct (do_lookup_path _ arena_root (Some path)) as [[i a]|[]] eqn:El; try done.
  unfold sbind at 1. unfold sbind at 1, slift at 1.
  change (file_table_of t) with (cache_file_table (cache (tables t))).
  destruct (tbl_get (i, "") (cache_file_table (cache (tables t)))) as [e|] eqn:Ee; cbn [ok_or]; [|done].
  case_bool_decide as Eh; cbn [negb]; [|done].
  unfold move_into_blob, sbind, sget, slift, get_blob_entry, put_blob_table, smodify, sret, target_blob.
  destruct (blob (content e)) as [b|] eqn:Eb.
  - destruct (tbl_get b (blob_table (tables t))) as [be|] eqn:Ebe; simpl; [|done].
    exists i, e, b, be, (tbl_insert b (filled e be) (blob_table (tables t))).
    rewrite Eb. split_and!; [by exists a|done..| |done]. intros b'. by rewrite get_insert.
  - rewrite do_create_blob_entry_spec by done. simpl.
    exists i, e, (last_blob (blob_table (tables t)) + 1), new_blob_entry.
    exists (tbl_insert (last_blob (blob_table (tables t)) + 1) (filled e new_blob_entry)
      (tbl_insert (last_blob (blob_table (tables t)) + 1) new_blob_entry (blob_table (tables t)))).
    rewrite Eb. split_and!; [by exists a|done..| |done]. intros b'. rewrite !get_insert. by repeat case_decide.
Qed.

(** What a successful [unrealize] did to the file [i], whose entry was [e], with the
    blob [b] and the file on disk [f]. *)
Record unrealized root path hash (i : Inode) (e : FileTableEntry) (b : BlobId) (be : BlobTableEntry) (f : File)
  (w w' : World) : Prop := {
  un_cached : cached_as (db w) path i e ∧ fc_hash (content e) = hash;
  un_placed : placed (index (db w)) (fs (w_ext w)) root path (Some hash);
  un_target : target_blob e (blob_table (db w)) b be;
  un_file : fs (w_ext w) !! within path root = Some f;
  un_fs : fs (w_ext w') = <[blob_path blob_dir b := f]> (base.delete (within path root) (fs (w_ext w)));
  un_cache : cache (db w') = cache (with_cached_blob i e (Some b) (db w));
  un_blobs : ∀ b', tbl_get b' (blob_table (db w')) =
    if decide (b' = b) then Some (filled e be) else tbl_get b' (blob_table (db w));
  un_index : ∀ q, Index.get_file_entry (index (db w')) q =
    if decide (as_str q = as_str path) then None else Index.get_file_entry (index (db w)) q;
  un_history : tbl_iter (index_history_table (index (db w'))) = tbl_iter (index_history_table (index (db w))) ++
    [(last_history_index (index_history_table (index (db w))) + 1, HDrop path hash)];
  un_dirty : marked_dirty [as_str path] (dirty (db w)) (dirty (db w'));
  un_ok : world_ok w';
  un_global : global (w_ext w') = global (w_ext w);
}.

Lemma unrealize_run root path hash w :
  world_ok w → room 1 (db w) → last_blob (blob_table (db w)) + 1 < u64_modulus →
  match unrealize (Some root) path hash w with
  | (Ok true, w') => ∃ i e b be f, unrealized root path hash i e b be f w w'
  | (_, w') => w' = w
  end.
Proof.
  intros Hw Hroom Hlast.
  assert (∀ t, ext t = w_ext w → rollback t w = w) as Hrb by (intros t E; unfold rollback; rewrite E; by destruct w).
  unfold unrealize, write_txn. unfold sbind at 1, sget. unfold sbind at 1.
  change (index (tables (begin_write w))) with (index (db w)).
  change (fs (ext (begin_write w))) with (fs (w_ext w)).
  destruct (get_indexed_file _ _ root path (Some hash)) as [realpath|] eqn:Ei; [|by apply Hrb].
  apply get_indexed_spec in Ei as [-> Hplaced]. unfold sbind at 1.
  pose proof (move_into_run path hash (begin_write w) Hlast) as H.
  destruct (move_into_blob_if_matches _ _ _ _ _) as [[[cachepath|]|err] t1]; [|by apply Hrb..].
  destruct H as (i & e & b & be & bt & H1 & H2 & H3 & -> & H4 & ->).
  set (t1 := set_tables _ (begin_write w)).
  destruct Hw as [Hd [files Hi] Hwt Hht].
  assert (txn_log w t1 files) as Ht by (split; [done|apply Hi|done|done]).
  destruct (drop_run path hash (within path root) w t1 files Ht Hi Hroom) as (dropped & t2 & Hrun & _ & Hf & Hp).
  unfold sbind. rewrite Hrun. destruct dropped; [|rewrite Hf by done; by apply Hrb].
  destruct (Hp eq_refl) as [D1 D2 D3 D4 D5 D6 D7 (D8 & D9 & D10)]. clear Hf Hp.
  unfold rename, sret. rewrite D3. change (ext t1) with (w_ext w).
  destruct (fs (w_ext w) !! within path root) as [f|] eqn:Ef; [|by apply Hrb].
  exists i, e, b, be, f. split; rewrite ?commit_db, ?commit_ext; try done.
  - cbn [tables set_fs set_ext set_tables]. by rewrite D9.
  - intros q. case_decide as Eq; [|by apply D5]. unfold Index.get_file_entry in *. by rewrite Eq.
  - apply (world_ok_commit w _ (files ∖ {[as_str path]})); [by apply txn_log_ext|done].
  - cbn [global ext set_fs set_ext]. by rewrite D3.
Qed.

Lemma filled_availability e b be (bt : table N BlobTableEntry) :
  blob (content e) = Some b → tbl_get b bt = Some (filled e be) →
  local_availability bt e = Ok Complete ∨ local_availability bt e = Ok Verified.
Proof.
  intros Hb Hbt. unfold local_availability, get_blob_entry. rewrite Hb, Hbt. simpl.
  rewrite bool_decide_true; [destruct (default _ _); auto|].
  apply full_intersection; [apply (single_spec 0)|]. intros x Hx. rewrite single_mem. by apply N.ltb_lt.
Qed.

(** Moving content leaves what is presented as it is: only the blob of an entry
    changes. *)
Lemma with_cached_blob_ok n i e b tb (g : GlobalTables) :
  cache_ok arena_root n (cache tb) g → tbl_get (i, "") (cache_file_table (cache tb)) = Some e →
  let c' := cache (with_cached_blob i e b tb) in
  cache_ok arena_root n c' g ∧ ∀ q k, seen arena_root c' q k = seen arena_root (cache tb) q k.
Proof.
  intros Hc He c'. assert (∀ j k e', tbl_get (j, k) (cache_file_table c') = Some e' →
    ∃ e0, tbl_get (j, k) (cache_file_table (cache tb)) = Some e0 ∧ version e' = version e0 ∧
      fc_path (content e') = fc_path (content e0) ∧ parent_inode e' = parent_inode e0) as Hback.
  { intros j k e'. unfold c'. simpl. rewrite get_insert. case_decide as E; [|by exists e'].
    intros [= <-]. injection E as -> ->. by exists e. }
  assert (∀ j k, is_Some (tbl_get (j, k) (cache_file_table c')) ↔ is_Some (tbl_get (j, k) (cache_file_table (cache tb)))) as Hdom.
  { intros j k. unfold c'. simpl. rewrite get_insert. case_decide as E; [|done]. injection E as -> ->. rewrite He.
    split; by eexists. }
  split.
  - destruct Hc as [H1 H2 H3 H4 H5 H6 H7]. split; [by apply (alloc_inv_ext _ _ (cache tb))|done|done| | |done|done].
    + intros j k e' (e0 & H0 & _ & -> & ->)%Hback. by apply (H4 j k e0).
    + intros j. rewrite Hdom, H5. split; intros (k & Hk & Hs); exists k; (split; [done|]); by apply Hdom.
  - intros q k. unfold seen. change (file_of arena_root c' q) with (file_of arena_root (cache tb) q).
    destruct (file_of arena_root (cache tb) q) as [j|]; [simpl|done]. unfold iview, c'. simpl. rewrite get_insert.
    case_decide as E; [|done]. injection E as -> ->. by rewrite He.
Qed.

(** Realizing moves the content of a verified blob of the presented version to
    the place of the file and forgets the blob, provided that this place is what it
    was told to find there: nothing, on disk and in the index, or the given version,
    unmodified on disk; whenever it does not succeed it changes nothing at all. *)
Theorem realize_spec root path ch ih w :
  match realize (Some root) path ch ih w with
  | (Ok true, w') => realized root path ch ih w w'
  | (_, w') => w' = w
  end.
Proof. apply realize_run. Qed.

(** Unrealizing moves the file on disk, at the indexed version and unmodified,
    into the blob of the same version in the cache, all of which is then available,
    takes the file out of the index, logs that it was dropped and marks it dirty;
    whenever it does not succeed it changes nothing at all. *)
Theorem unrealize_spec root path hash w
  (Hw : world_ok w) (Hroom : room 1 (db w)) (Hlast : last_blob (blob_table (db w)) + 1 < u64_modulus) :
  match unrealize (Some root) path hash w with
  | (Ok true, w') => ∃ i e b be f, unrealized root path hash i e b be f w w' ∧
      cached_as (db w') path i (set_blob e (Some b)) ∧
      (local_availability (blob_table (db w')) (set_blob e (Some b)) = Ok Complete ∨
       local_availability (blob_table (db w')) (set_blob e (Some b)) = Ok Verified)
  | (_, w') => w' = w
  end.
Proof.
  pose proof (unrealize_run root path hash w Hw Hroom Hlast) as H.
  destruct (unrealize (Some root) path hash w) as [[[]|err] w']; [|done..].
  destruct H as (i & e & b & be & f & H). exists i, e, b, be, f. split; [done|].
  destruct H as [[[Hl He] _] _ _ _ _ Hc Hb _ _ _ _ _]. split.
  - split; rewrite Hc; simpl; [exact Hl|]. by rewrite get_insert_eq.
  - apply (filled_availability _ b be); [done|]. by rewrite Hb, decide_True.
Qed.

(** What [unrealize] needs for a path whose presented entry is [e], of the inode [i]:
    the version is that of the file, it is in place and unmodified, and the blob of the
    entry exists if it has one. *)
Record unrealizable root path hash (i : Inode) (e : FileTableEntry) (w : World) : Prop := {
  ur_world : world_ok w ∧ room 1 (db w) ∧ last_blob (blob_table (db w)) + 1 < u64_modulus;
  ur_cached : cached_as (db w) path i e ∧ fc_hash (content e) = hash;
  ur_blob : ∀ b, blob (content e) = Some b → is_Some (tbl_get b (blob_table (db w)));
  ur_placed : placed (index (db w)) (fs (w_ext w)) root path (Some hash);
}.

Lemma move_into_succeeds path h (t : Txn) i e :
  cached_as (tables t) path i e → fc_hash (content e) = h →
  (∀ b, blob (content e) = Some b → is_Some (tbl_get b (blob_table (tables t)))) →
  last_blob (blob_table (tables t)) + 1 < u64_modulus →
  ∃ cachepath t', move_into_blob_if_matches arena_root blob_dir path h t = (Ok (Some cachepath), t').
Proof.
  intros [[a Hl] He] Hh Hb Hlast. unfold move_into_blob_if_matches, get_default_entry. unfold sbind at 1, sget.
  change (dir_table_of t) with (cache_directory_table (cache (tables t))). rewrite Hl.
  unfold sbind at 1. unfold sbind at 1, slift at 1.
  change (file_table_of t) with (cache_file_table (cache (tables t))). rewrite He. cbn [ok_or].
  rewrite bool_decide_true by done. cbn [negb].
  unfold move_into_blob, sbind, sget, slift, get_blob_entry, put_blob_table, smodify, sret.
  destruct (blob (content e)) as [b|]; [destruct (Hb b eq_refl) as [be ->]; by eexists _, _|].
  rewrite do_create_blob_entry_spec by done. by eexists _, _.
Qed.

Lemma unrealize_succeeds root path hash i e w :
  unrealizable root path hash i e w → ∃ w', unrealize (Some root) path hash w = (Ok true, w').
Proof.
  intros [(Hw & Hroom & Hlast) [Hc Hh] Hb Hpl]. unfold unrealize, write_txn. unfold sbind at 1, sget. unfold sbind at 1.
  change (index (tables (begin_write w))) with (index (db w)).
  change (fs (ext (begin_write w))) with (fs (w_ext w)).
  rewrite (proj2 (get_indexed_spec (index (db w)) (fs (w_ext w)) root path (Some hash) _)) by by split.
  unfold sbind at 1. destruct (move_into_succeeds path hash (begin_write w) i e Hc Hh Hb Hlast) as (cp & t1 & E).
  pose proof (move_into_run path hash (begin_write w) Hlast) as H. rewrite E in H |- *.
  destruct H as (i' & e' & b & be & bt & _ & _ & _ & -> & _ & ->).
  set (t1 := set_tables _ (begin_write w)). destruct Hw as [Hd [files Hi] Hwt Hht].
  assert (txn_log w t1 files) as Ht by (split; [done|apply Hi|done|done]).
  destruct (drop_run path hash (within path root) w t1 files Ht Hi Hroom) as (dropped & t2 & Hrun & Hiff & _ & Hp).
  assert (dropped = true) as -> by by apply Hiff.
  unfold sbind. rewrite Hrun. unfold rename, sret. rewrite (dr_ext _ _ _ _ _ _ (Hp eq_refl)).
  destruct Hpl as (ie & _ & _ & m & Hm & _). change (ext t1) with (w_ext w). rewrite Hm. by eexists.
Qed.

(** Once its blob has the hash, a file that was unrealized is realized again. *)
Lemma realize_back root path hash i e b be f w w2 :
  fs (w_ext w) !! within path root = Some f → blob_path blob_dir b ≠ within path root →
  fs (w_ext w2) = <[blob_path blob_dir b := f]> (base.delete (within path root) (fs (w_ext w))) →
  cached_as (db w2) path i (set_blob e (Some b)) → fc_hash (content e) = hash →
  Index.get_file_entry (index (db w2)) path = None →
  tbl_get b (blob_table (db w2)) = Some be → content_hash be = Some hash →
  ∃ w3, realize (Some root) path hash None w2 = (Ok true, w3) ∧
    fs (w_ext w3) = base.delete (blob_path blob_dir b) (fs (w_ext w)).
Proof.
  intros Hf Hne Hfs Hca Hh Hix Hbe Hch.
  assert (placed (index (db w2)) (fs (w_ext w2)) root path None) as Hpl.
  { split; [done|]. rewrite Hfs, lookup_insert_ne by done. apply lookup_delete_eq. }
  assert (fs (w_ext w2) !! blob_path blob_dir b = Some f) as Hfb by (by rewrite Hfs, lookup_insert_eq).
  destruct (realize_succeeds root path hash None w2 i _ b be f Hca Hh eq_refl Hbe Hch Hfb Hpl) as [w3 Hr].
  exists w3. split; [done|]. pose proof (realize_run root path hash None w2) as H. rewrite Hr in H.
  destruct H as (i' & e' & b' & be' & f' & [[a' H1] H1'] & _ & H3 & _ & _ & H6 & _ & -> & _).
  destruct Hca as [[a2 Hl2] He2]. rewrite Hl2 in H1. injection H1 as <- <-. rewrite He2 in H1'. injection H1' as <-.
  injection H3 as <-. rewrite Hfb in H6. injection H6 as <-. rewrite Hfs. apply map_eq. intros x.
  destruct (decide (x = within path root)) as [->|Hx]; [by rewrite lookup_insert_eq, lookup_delete_ne|].
  rewrite lookup_insert_ne by done. destruct (decide (x = blob_path blob_dir b)) as [->|Hb].
  - by rewrite !lookup_delete_eq.
  - by rewrite !lookup_delete_ne, lookup_insert_ne, lookup_delete_ne.
Qed.

(** [realize] gives up on a blob that was not verified with the hash. *)
Lemma realize_unverified root path hash i e b be w :
  cached_as (db w) path i e → fc_hash (content e) = hash → blob (content e) = Some b →
  tbl_get b (blob_table (db w)) = Some be → content_hash be ≠ Some hash →
  realize (Some root) path hash None w = (Ok false, w).
Proof.
  intros [[a Hl] He] Hh Hb Hbe Hc.
  assert (∀ t, ext t = w_ext w → rollback t w = w) as Hrb by (intros t E; unfold rollback; rewrite E; by destruct w).
  unfold realize, write_txn. unfold sbind at 1, sget. unfold sbind at 1.
  destruct (get_indexed_file _ _ root path None) as [realpath|]; [|unfold sret; by rewrite Hrb].
  unfold move_blob_if_matches, get_default_entry, blob_move_if_matches, get_blob_entry, sbind, sget, slift.
  change (dir_table_of (begin_write w)) with (cache_directory_table (cache (db w))). rewrite Hl.
  change (file_table_of (begin_write w)) with (cache_file_table (cache (db w))). rewrite He. cbn [ok_or].
  rewrite bool_decide_true by done. rewrite Hb. cbn [negb ok_or].
  change (blob_table (tables (begin_write w))) with (blob_table (db w)). rewrite Hbe. cbn [ok_or].
  destruct (content_hash be) as [h|]; simpl; [rewrite bool_decide_false by congruence|]; simpl; by rewrite Hrb.
Qed.

(** C14: a file that is in place, unmodified, and whose version is the one presented
    is unrealized: its content goes into the blob of the entry, or into a new one, and
    nothing else of the filesystem changes.  When the blob was verified with this hash
    before, realizing the path then puts the same file back, and the filesystem is as it
    was, without the file of the blob.  When it was not, realizing gives up and changes
    nothing, until the blob is verified: then the same file is put back. *)
Theorem realize_after_unrealize root path hash w i e
  (Hw : unrealizable root path hash i e w) (Hne : ∀ b, blob_path blob_dir b ≠ within path root) :
  ∃ b be f w1, unrealize (Some root) path hash w = (Ok true, w1) ∧
    target_blob e (blob_table (db w)) b be ∧ fs (w_ext w) !! within path root = Some f ∧
    fs (w_ext w1) = <[blob_path blob_dir b := f]> (base.delete (within path root) (fs (w_ext w))) ∧
    let back w2 := ∃ w3, realize (Some root) path hash None w2 = (Ok true, w3) ∧
      fs (w_ext w3) = base.delete (blob_path blob_dir b) (fs (w_ext w)) in
    (content_hash be = Some hash → back w1) ∧
    (content_hash be ≠ Some hash → realize (Some root) path hash None w1 = (Ok false, w1)) ∧
    ∃ w2, set_content_hash b hash w1 = (Ok tt, w2) ∧ back w2.
Proof.
  destruct (unrealize_succeeds root path hash i e w Hw) as [w1 Hrun].
  destruct Hw as [(Hw & Hroom & Hlast) [Hc0 Hh] _ _].
  pose proof (unrealize_run root path hash w Hw Hroom Hlast) as H. rewrite Hrun in H.
  destruct H as (i' & e' & b & be & f & [[Hc1 _] _ Ht Hf Hfs Hc Hb Hix _ _ _ _]).
  destruct Hc0 as [[a Hl] He], Hc1 as [[a1 Hl1] He1]. rewrite Hl in Hl1. injection Hl1 as <- <-.
  rewrite He in He1. injection He1 as <-.
  assert (∀ tb, cache tb = cache (db w1) → cached_as tb path i (set_blob e (Some b))) as Hca.
  { intros tb E. unfold cached_as. rewrite E, Hc. simpl. rewrite get_insert_eq. split; [by exists a|done]. }
  assert (Index.get_file_entry (index (db w1)) path = None) as Hnone by (by rewrite Hix, decide_True).
  assert (tbl_get b (blob_table (db w1)) = Some (filled e be)) as Hb1 by (by rewrite Hb, decide_True).
  exists b, be, f, w1. do 4 (split; [done|]). intros back. split_and!.
  - intros Hv. by apply (realize_back root path hash i e b (filled e be) f w w1); auto.
  - intros Hv. by apply (realize_unverified root path hash i (set_blob e (Some b)) b (filled e be)); auto.
  - unfold set_content_hash. rewrite (write_blob_entry b (λ e, {| written_areas := written_areas e; content_hash := Some hash |})).
    rewrite Hb1. eexists. split; [done|].
    eapply (realize_back root path hash i e b _ f w); rewrite ?commit_ext, ?commit_db; try done.
    + by apply Hca.
    + simpl. by rewrite get_insert_eq.
    + done.
Qed.

(** Moving content between the arena and the blob store does not change what
    any peer is known to have, nor what is presented, and the cache stays well
    formed. *)
Theorem moves_keep_presented n root path ch ih w w'
  (Hc : cache_ok arena_root n (cache (db w)) (global (w_ext w))) (Hw : world_ok w) (Hroom : room 1 (db w))
  (Hlast : last_blob (blob_table (db w)) + 1 < u64_modulus)
  (Hmove : realize (Some root) path ch ih w = (Ok true, w') ∨ unrealize (Some root) path ch w = (Ok true, w')) :
  cache_ok arena_root n (cache (db w')) (global (w_ext w')) ∧
  ∀ q k, seen arena_root (cache (db w')) q k = seen arena_root (cache (db w)) q k.
Proof.
  destruct Hmove as [E|E].
  - pose proof (realize_run root path ch ih w) as H. rewrite E in H.
    destruct H as (i & e & b & be & f & [_ H1] & _ & _ & _ & _ & _ & _ & _ & -> & ->).
    by apply (with_cached_blob_ok n i e None (set_blob_table (tbl_remove b (blob_table (db w))) (db w))).
  - pose proof (unrealize_run root path ch w Hw Hroom Hlast) as H. rewrite E in H.
    destruct H as (i & e & b & be & f & [[[_ H1] _] _ _ _ _ Hca _ _ _ _ _ Hg]). rewrite Hca, Hg.
    by apply (with_cached_blob_ok n i e (Some b) (db w)).
Qed.
End realize.

Section realize_witnesses.
#[local] Existing Instance gmap_redb.
#[local] Existing Instance list_bimap.
#[local] Existing Instance list_bimap_laws.

(** [foo/bar] is on disk and indexed, and a peer has the same version. *)
Definition local_file : File := {| f_data := replicate 5 Byte.x61; f_mtime := mkUnixTime 7 |}.
Definition w_disk : World :=
  {| db := db w_added; w_ext := {| fs := {["/root/foo/bar" := local_file]}; global := global_at w_added |};
     watch_tx := 1; history_tx := 0 |}.
Definition w_both : World := (add_file foobar 5 (mkUnixTime 7) hash1 w_disk).2.
Definition w_unrealized : World := (unrealize arena_a 2 "/blobs" (Some "/root") foobar hash1 w_both).2.

Lemma w_disk_ok : world_ok w_disk.
Proof.
  assert (dirty (db w_disk) = mark_dirty_tables foobar dirty_empty) as Ed by by vm_compute.
  assert (index (db w_disk) = index_empty) as Ei by by vm_compute.
  split; rewrite ?Ed, ?Ei; [apply mark_dirty_inv; [apply dirty_inv_empty|by vm_compute]| |by vm_compute..].
  pose proof empty_world_ok as [_ H _ _]. exact H.
Qed.

Lemma added_both : add_file foobar 5 (mkUnixTime 7) hash1 w_disk = (Ok tt, w_both).
Proof. unfold w_both. apply pair_of. by vm_compute. Qed.

Lemma w_both_ok : world_ok w_both.
Proof.
  destruct (add_file_run foobar 5 (mkUnixTime 7) hash1 w_disk w_disk_ok) as (w' & E & H);
    [by vm_compute|by split; vm_compute|]. rewrite added_both in E. injection E as <-. apply H.
Qed.

Lemma unrealized1 : unrealize arena_a 2 "/blobs" (Some "/root") foobar hash1 w_both = (Ok true, w_unrealized).
Proof. unfold w_unrealized. apply pair_of. by vm_compute. Qed.

Lemma cache_both m : N.of_nat m ≤ 900 → cache_ok 2 m (cache (db w_both)) (global (w_ext w_both)).
Proof.
  intros Hm%added_ok. assert (cache (db w_both) = cache_at w_added) as -> by by vm_compute.
  assert (global (w_ext w_both) = global_at w_added) as -> by by vm_compute. exact Hm.
Qed.

Example unrealize_spec_witness :
  fs (w_ext w_unrealized) !! "/blobs/0000000000000001" = Some local_file ∧
  ∃ i e b be f, unrealized 2 "/blobs" "/root" foobar hash1 i e b be f w_both w_unrealized.
Proof.
  pose proof (unrealize_spec arena_a 2 "/blobs" "/root" foobar hash1 w_both w_both_ok
    ltac:(by split; vm_compute) ltac:(by vm_compute)) as H.
  rewrite unrealized1 in H. destruct H as (i & e & b & be & f & H & _). split; [by vm_compute|].
  exists i, e, b, be, f. exact H.
Defined.

(** The entry of [foo/bar] in the cache of [w_both], and its inode. *)
Definition foobar_at : Inode * FileTableEntry :=
  match do_lookup_path (cache_directory_table (cache (db w_both))) 2 (Some foobar) with
  | Ok (i, _) => (i, default (FileTableEntry_new foobar 0 UnixTime.ZERO hash1 2)
                       (tbl_get (i, "") (cache_file_table (cache (db w_both)))))
  | Err _ => (0, FileTableEntry_new foobar 0 UnixTime.ZERO hash1 2)
  end.

Lemma w_both_unrealizable : unrealizable 2 "/root" foobar hash1 foobar_at.1 foobar_at.2 w_both.
Proof.
  split.
  - split_and!; [apply w_both_ok|by split; vm_compute|by vm_compute].
  - split; [split|]; [eexists|..]; by vm_compute.
  - assert (blob (content foobar_at.2) = None) as -> by by vm_compute. done.
  - eexists. split; [by vm_compute|]. split; [by vm_compute|]. exists local_file. split_and!; by vm_compute.
Qed.

Example realize_after_unrealize_witness :
  ∃ b w1, unrealize arena_a 2 "/blobs" (Some "/root") foobar hash1 w_both = (Ok true, w1) ∧
    ∃ w2, set_content_hash b hash1 w1 = (Ok tt, w2) ∧
    ∃ w3, realize arena_a 2 "/blobs" (Some "/root") foobar hash1 None w2 = (Ok true, w3) ∧
      fs (w_ext w3) = base.delete (blob_path "/blobs" b) (fs (w_ext w_both)).
Proof.
  destruct (realize_after_unrealize arena_a 2 "/blobs" "/root" foobar hash1 w_both _ _ w_both_unrealizable
    ltac:(by intros b; unfold blob_path, join_path)) as (b & be & f & w1 & H1 & _ & _ & _ & _ & _ & w2 & H2 & H3).
  exists b, w1. split; [exact H1|]. exists w2. split; [exact H2|exact H3].
Defined.

Example moves_keep_presented_witness :
  cache_ok 2 0 (cache (db w_unrealized)) (global (w_ext w_unrealized)) ∧
  ∀ q k, seen 2 (cache (db w_unrealized)) q k = seen 2 (cache (db w_both)) q k.
Proof.
  apply (moves_keep_presented arena_a 2 "/blobs" 0 "/root" foobar hash1 None w_both w_unrealized
    (cache_both 0 ltac:(by vm_compute)) w_both_ok ltac:(by split; vm_compute) ltac:(by vm_compute)).
  right. exact unrealized1.
Defined.
End realize_witnesses.
