(* ===== verification/Notifier.v ===== *)
(** * Notifications of local changes

    [crate/realize-storage/src/arena/notifier.rs]: what is sent to a peer that
    subscribes to the files of an arena: the whole index the first time, then what
    the history says happened since.  [notify] is what the peer does with it
    ([notify] of [crate/realize-core/src/rpc/household.rs], which calls
    [Storage::update] of [crate/realize-storage/src/lib.rs]).

    The index is read again for every entry of the history, after the history was
    read, so it is given for every index of the history ([at_]). *)
From Stdlib Require Import Strings.Byte.
From stdpp Require Import functions.
From S2P Require Import Prelude Redb Path Types Db Dirty InodeAllocator Blob Dirs Index ArenaCache CacheInv CacheSpec.
Local Open Scope N_scope.
Local Open Scope realize_scope.

Section notifier.
Context {R : Redb}.
Context (arena : Arena).
Implicit Types (ix : IndexTables) (p q : Path).

(** ** Sending *)

(** [catchup] *)
Definition catchup ix (catchup_index : N) : list Notification :=
  NCatchupStart arena ::
  ((λ '(path, e), NCatchup arena path (ix_mtime e) (ix_size e) (ix_hash e)) <$> all_files ix) ++
  [NCatchupComplete arena catchup_index].

(** What [send_notifications] makes of an entry of the history. *)
Definition notification_for ix (hist_index : N) (entry : HistoryTableEntry) : option Notification :=
  match entry with
  | HAdd path =>
      match Index.get_file_entry ix path with
      | Some e => Some (NAdd arena hist_index path (ix_mtime e) (ix_size e) (ix_hash e))
      | None => None
      end
  | HReplace path old_hash | HRemove path old_hash =>
      match Index.get_file_entry ix path with
      | Some e => Some (NReplace arena hist_index path (ix_mtime e) (ix_size e) (ix_hash e) old_hash)
      | None => Some (NRemove arena hist_index path old_hash)
      end
  | HDrop path old_hash =>
      if has_file ix path then None else Some (NDrop arena hist_index path old_hash)
  end.

(** [send_notifications]; [ix] is the index the history is read from. *)
Definition send_notifications ix (at_ : N → IndexTables) (last_seen current : N) : list Notification :=
  omap (λ '(hist_index, entry), notification_for (at_ hist_index) hist_index entry)
    (history ix (Included (u64_add last_seen 1)) (Excluded (u64_add current 1))).

(** The index that a subscriber got to. *)
Definition subscribed_from (uuid : Uuid) (progress : option Progress) : N :=
  match progress with
  | Some progress => if bool_decide (pr_uuid progress = uuid) then last_seen progress else 0
  | None => 0
  end.

(** What [subscribe] sends before it waits for changes; [current] is the index the
    watch channel holds. *)
Definition subscribe (uuid : Uuid) (progress : option Progress) ix (at_ : N → IndexTables) (current : N)
  : list Notification :=
  let last_seen := subscribed_from uuid progress in
  NConnected arena uuid ::
  (if (last_seen =? 0) && (last_seen <? current) then catchup ix current
   else send_notifications ix at_ last_seen current).

(** A turn of its loop, when the channel holds [current]. *)
Definition changed ix (at_ : N → IndexTables) (last_seen current : N) : list Notification * N :=
  (send_notifications ix at_ last_seen current, current).

(** ** Hashes *)

Definition file_hash ix p : option Hash := ix_hash <$> Index.get_file_entry ix p.

Definition event_path (ev : HistoryTableEntry) : Path :=
  match ev with HAdd p | HReplace p _ | HRemove p _ | HDrop p _ => p end.

(** What an entry of the history says of the hashes before and after. *)
Definition event_hashes (ev : HistoryTableEntry) (f f' : Path → option Hash) : Prop :=
  valid (event_path ev) ∧ (∀ q, q ≠ event_path ev → f' q = f q) ∧
  match ev with
  | HAdd p => f p = None ∧ is_Some (f' p)
  | HReplace p old => f p = Some old ∧ is_Some (f' p)
  | HRemove p old | HDrop p old => f p = Some old ∧ f' p = None
  end.

Fixpoint evolves (evs : list HistoryTableEntry) (f f' : Path → option Hash) : Prop :=
  match evs with
  | [] => ∀ q, f q = f' q
  | ev :: evs => ∃ f1, event_hashes ev f f1 ∧ evolves evs f1 f'
  end.

Lemma event_hashes_ext ev f1 f1' f2 f2' :
  (∀ q, f1 q = f2 q) → (∀ q, f1' q = f2' q) → event_hashes ev f1 f1' → event_hashes ev f2 f2'.
Proof.
  intros E E' (H1 & H2 & H3). split; [done|]. split; [intros q Hq; rewrite <- E, <- E'; auto|].
  destruct ev; by rewrite <- E, <- E'.
Qed.

Lemma evolves_ext evs f1 f1' f2 f2' :
  (∀ q, f1 q = f2 q) → (∀ q, f1' q = f2' q) → evolves evs f1 f1' → evolves evs f2 f2'.
Proof.
  revert f1 f2. induction evs as [|ev evs IH]; intros f1 f2 E E'; simpl.
  - intros H q. by rewrite <- E, <- E'.
  - intros (f & H1 & H2). exists f. split; [by apply (event_hashes_ext ev f1 f)|]. by apply (IH f).
Qed.

Lemma evolves_app evs1 evs2 f f1 f' : evolves evs1 f f1 → evolves evs2 f1 f' → evolves (evs1 ++ evs2) f f'.
Proof.
  revert f. induction evs1 as [|ev evs1 IH]; intros f; simpl.
  - intros E. apply evolves_ext; [intros q; symmetry; apply E|done].
  - intros (f2 & H1 & H2) H3. exists f2. split; [done|]. by apply IH.
Qed.

Context `{!RedbLaws R}.

(** ** The history of a changing index *)

Definition events (w : World) : list HistoryTableEntry := (tbl_iter (index_history_table (index (db w)))).*2.
Definition hashes (w : World) : Path → option Hash := file_hash (index (db w)).

Lemma path_eq p q : as_str p = as_str q → p = q.
Proof. destruct p, q. simpl. by intros ->. Qed.

Lemma removals_evolve (l : list (string * IndexedFileTableEntry)) (f : Path → option Hash) :
  NoDup l.*1 → (∀ k e, (k, e) ∈ l → valid (mkPath k) ∧ f (mkPath k) = Some (ix_hash e)) →
  evolves ((λ kv, HRemove (mkPath kv.1) (ix_hash kv.2)) <$> l) f
    (λ q, if decide (as_str q ∈ l.*1) then None else f q).
Proof.
  revert f. induction l as [|[k e] l IH]; intros f Hnd Hl; simpl.
  { done. }
  apply NoDup_cons in Hnd as [Hk Hnd]. destruct (Hl k e ltac:(by left)) as [Hv Hf].
  exists (λ q, if decide (as_str q = k) then None else f q). split.
  - split; [done|]. split; [|by rewrite decide_True].
    intros q Hq. rewrite decide_False; [done|]. intros E. apply Hq, path_eq. exact E.
  - eapply evolves_ext; [done| |apply IH; [done|]].
    + intros q. simpl. repeat case_decide; set_solver.
    + intros k' e' Hin. simpl. rewrite decide_False; [by apply Hl; right|].
      intros ->. apply Hk, list_elem_of_fmap. by exists (k, e').
Qed.

Lemma step_evolves root w w' :
  index_step arena root w w' → world_ok w →
  ∃ evs, events w' = events w ++ evs ∧ evolves evs (hashes w) (hashes w').
Proof.
  unfold events, hashes, file_hash.
  destruct 1 as [w p sz mt h Hp Hr|w p Hr|w p h rp keep Hr|w n|w x]; intros Hok.
  - destruct (add_file_run p sz mt h w Hok Hp Hr) as (w' & -> & [_ _ H1 H2]). simpl.
    destruct (Index.get_file_entry (index (db w)) p) as [old|] eqn:Eo.
    + case_decide as Eh; simpl in Eh.
      * exists []. rewrite (proj1 H2), app_nil_r. split; [done|]. intros q. rewrite H1.
        case_decide as Eq; [|done]. apply path_eq in Eq as ->. rewrite Eo. simpl. by rewrite Eh.
      * exists [HReplace p (ix_hash old)]. rewrite (lg_history _ _ _ _ H2), fmap_app. split; [done|].
        eexists. split; [|intros q; reflexivity]. split; [done|]. split.
        -- intros q Hq. simpl in Hq. rewrite H1, decide_False; [done|]. by intros ?%path_eq.
        -- simpl. rewrite Eo, H1, decide_True by done. split; [done|by eexists].
    + exists [HAdd p]. rewrite (lg_history _ _ _ _ H2), fmap_app. split; [done|].
      eexists. split; [|intros q; reflexivity]. split; [done|]. split.
      -- intros q Hq. simpl in Hq. rewrite H1, decide_False; [done|]. by intros ?%path_eq.
      -- simpl. rewrite Eo, H1, decide_True by done. split; [done|by eexists].
  - destruct (remove_run p w Hok Hr) as (w' & -> & [_ _ H1 H2 _]). simpl. eexists. split; [exact H2|].
    eapply evolves_ext; [intros q; reflexivity| |apply removals_evolve].
    + intros q. simpl. rewrite H1. pose proof (under_spec (index (db w)) p (as_str q)) as Hu.
      assert (mkPath (as_str q) = q) as Eq by by destruct q. rewrite Eq in Hu.
      destruct (Path.starts_with q p); case_decide as Hin; try done.
      * destruct (Index.get_file_entry (index (db w)) q) as [e|] eqn:E; [|done]. destruct Hin. apply Hu.
        split; [by exists e|done].
      * by apply Hu in Hin as [_ ?].
    + apply NoDup_fst_filter, (range_NoDup Unbounded Unbounded (index_file_table (index (db w)))).
    + destruct Hok as [_ [files Hi] _ _]. intros k e [_ Hk%elem_of_iter]%list_elem_of_filter.
      split; [|by unfold Index.get_file_entry; simpl; rewrite Hk].
      apply (inv_valid _ _ Hi), (inv_files _ _ Hi). by exists e.
  - pose proof Hok as (files & Hi & Ht)%world_ok_begin. unfold write_txn, sbind.
    destruct (drop_run p h rp w (begin_write w) files Ht Hi Hr) as (b & t' & -> & Hb & H0 & H1).
    simpl. destruct (keep b); [|exists []; rewrite app_nil_r; split; [done|by intros q]].
    simpl. rewrite !commit_db. destruct b.
    + destruct (H1 eq_refl) as [_ _ _ D3 D4 D5 _ _]. unfold history_table_of in D5. rewrite D5, fmap_app.
      exists [HDrop p h]. split; [done|]. destruct (proj1 Hb eq_refl) as (e & He & Hh & _).
      eexists. split; [|intros q; reflexivity]. split.
      { destruct p as [k]. apply (inv_valid _ _ Hi k), (inv_files _ _ Hi). by eexists. }
      split.
      * intros q Hq. simpl in Hq. rewrite D4; [done|]. by intros ?%path_eq.
      * simpl. rewrite D3. unfold Index.get_file_entry in *. simpl in He. rewrite He. simpl. by rewrite Hh.
    + rewrite (H0 eq_refl). exists []. rewrite app_nil_r. split; [done|by intros q].
  - destruct (update_run arena n root w) as (w' & -> & [U1 _ U3 _ _ _]). simpl. exists [].
    rewrite U1, app_nil_r. split; [done|]. intros q. simpl.
    destruct (U3 q) as [-> | (e & ? & ? & ? & ? & ? & _ & E & _ & ->)]; [done|]. by rewrite E.
  - exists []. rewrite app_nil_r. split; [done|by intros q].
Qed.

Lemma steps_evolve root w w' :
  rtc (index_step arena root) w w' → world_ok w →
  ∃ evs, events w' = events w ++ evs ∧ evolves evs (hashes w) (hashes w').
Proof.
  induction 1 as [w|w0 w1 w2 Hstep _ IH]; intros H0; [exists []; by rewrite app_nil_r|].
  destruct (step_evolves root w0 w1 Hstep H0) as (evs1 & E1 & V1).
  destruct (index_step_ok _ _ _ _ Hstep H0) as [H1 _]. destruct (IH H1) as (evs2 & E2 & V2).
  exists (evs1 ++ evs2). split; [by rewrite E2, E1, app_assoc|]. by eapply evolves_app.
Qed.

Lemma n_range_cons a m : a < m → n_range a m = a :: n_range (a + 1) m.
Proof.
  intros Hlt. unfold n_range. replace (N.to_nat (m - a)) with (S (N.to_nat (m - (a + 1)))) by lia.
  cbn [seq]. rewrite fmap_cons. f_equal; [lia|]. rewrite <- fmap_S_seq, <- list_fmap_compose.
  apply list_fmap_ext. intros ? x _. simpl. lia.
Qed.

(** Keys numbered without gaps: a range of them is a slice of the list. *)
Lemma numbered_slice {V} (l : list (N * V)) (a n m : N) :
  l.*1 = n_range a m → a ≤ n + 1 →
  filter (λ kv, n + 1 ≤ kv.1) l = drop (N.to_nat (n + 1 - a)) l.
Proof.
  revert a. induction l as [|[k v] l IH]; intros a Hl Ha; [by rewrite drop_nil|].
  assert (a < m ∧ k = a ∧ l.*1 = n_range (a + 1) m) as (Hlt & -> & Hl').
  { destruct (N.lt_ge_cases a m) as [Hlt|Hge].
    - rewrite n_range_cons in Hl by done. by injection Hl.
    - exfalso. revert Hl. unfold n_range. by replace (N.to_nat (m - a)) with 0%nat by lia. }
  rewrite filter_cons. simpl. case_decide as Hd.
  - assert (a = n + 1) as -> by lia. replace (N.to_nat (n + 1 - (n + 1))) with 0%nat by lia. simpl.
    f_equal. apply filter_all, Forall_forall. intros [k' v'] Hin. simpl.
    assert (k' ∈ l.*1) as Hk by (apply list_elem_of_fmap; by exists (k', v')).
    rewrite Hl' in Hk. apply elem_of_n_range in Hk. lia.
  - rewrite (IH (a + 1) Hl') by lia. by replace (N.to_nat (n + 1 - a)) with (S (N.to_nat (n + 1 - (a + 1)))) by lia.
Qed.

Lemma events_length w : world_ok w → length (events w) = N.to_nat (history_tx w).
Proof.
  intros [_ [files [Hi _ _]] _ Hh]. pose proof (log_u64 _ _ Hi) as Hu.
  unfold events. rewrite length_fmap, <- (length_fmap fst), (log_keys _ _ Hi). unfold n_range.
  rewrite length_fmap, length_seq, Hh. lia.
Qed.

Lemma events_grow w w' evs :
  world_ok w → world_ok w' → events w' = events w ++ evs → history_tx w ≤ history_tx w'.
Proof.
  intros H H' He. apply (f_equal length) in He. rewrite length_app, !events_length in He by done. lia.
Qed.

(** What [history] returns of the changes since [w]. *)
Lemma history_since w w' evs :
  world_ok w → world_ok w' → history_tx w' + 1 < u64_modulus → events w' = events w ++ evs →
  (history (index (db w')) (Included (u64_add (history_tx w) 1)) (Excluded (u64_add (history_tx w') 1))).*2 = evs.
Proof.
  intros H H' Hne He. pose proof (events_grow w w' evs H H' He) as Hle. pose proof (events_length w H) as Hlen.
  destruct H' as [_ [files' [Hi' _ _]] _ Hh'].
  unfold history. rewrite !u64_add_small by lia.
  set (h := index_history_table (index (db w'))).
  assert (tbl_range (Included (history_tx w + 1)) (Excluded (history_tx w' + 1)) h =
    filter (λ kv, history_tx w + 1 ≤ kv.1) (tbl_iter h)) as ->.
  { apply sorted_entries_eq; [apply range_sorted|apply sorted_fst_filter, range_sorted|].
    intros k v. rewrite elem_of_range, list_elem_of_filter, elem_of_iter. unfold in_range, above, below.
    rewrite key_lt_le. simpl. split; [tauto|]. intros [H1 H2]. split; [done|]. split; [done|].
    assert (k ∈ (tbl_iter h).*1) as Hk by (apply list_elem_of_fmap; exists (k, v); by rewrite elem_of_iter).
    unfold h in Hk. rewrite (log_keys _ _ Hi') in Hk. apply elem_of_n_range in Hk. split; lia. }
  rewrite (numbered_slice _ 1 _ _ (log_keys _ _ Hi')) by lia. rewrite fmap_drop.
  fold (events w'). rewrite He.
  replace (N.to_nat (history_tx w + 1 - 1)) with (length (events w)) by lia. by rewrite drop_app_length.
Qed.
End notifier.

(** ** Receiving *)

Section sync.
Context {R : Redb} {B : Bimap} `{!RedbLaws R, !BimapLaws B}.
Context (arena : Arena) (arena_root : Inode) (roots : bimap) (blob_dir : string) (now : UnixTime).
Context (hash_order : list (string * FileTableEntry) → list (string * FileTableEntry)).
Context (hash_order_perm : ∀ l, hash_order l ≡ₚ l).
Context (Hroot : InodeAllocator.arena_root roots arena = Some arena_root).
Implicit Types (w : World) (p q : Path) (peer : Peer) (ns : list Notification).

Let update := ArenaCache.update arena arena_root roots blob_dir now hash_order.
Let cache_ok := cache_ok arena_root.
Let seen := seen arena_root.

(** [Storage::update]: the index, whose failures are only logged, then the cache.
    [root] is that of the indexed storage, if the arena has one. *)
Definition storage_update (root : option string) peer (n : Notification) : WorldM () := λ w,
  let w := match root with Some root => (index_update arena n root w).2 | None => w end in
  update peer n w.

(** [notify] of the subscriber: a batch of notifications, up to the first failure. *)
Definition notify (root : option string) peer ns : WorldM () := sfor ns (storage_update root peer).

(** The hash that is seen of a file of a peer. *)
Definition seen_hash w peer q : option Hash := snd <$> seen (cache_at w) q (peer_name peer).

Lemma storage_update_cache root n w :
  let w1 := match root with Some root => (index_update arena n root w).2 | None => w end in
  cache_at w1 = cache_at w ∧ global_at w1 = global_at w.
Proof.
  destruct root as [root|]; [|done]. simpl. unfold cache_at, global_at, index_update, write_txn, remove_file.
  destruct (negb _); [done|]. destruct n; try done.
  - unfold sbind, sget, Index.put_file_table, smodify, sret.
    destruct (tbl_get _ _) as [e|]; [destruct (replaces _ _)|]; simpl; rewrite ?commit_db, ?commit_ext; done.
  - unfold sbind, sget, sret. destruct (tbl_get _ _) as [e|]; [|done]. destruct (replaces _ _); [|done].
    destruct (file_matches_index _ _ _); [|done]. by destruct (fs (w_ext w) !! _).
Qed.

Lemma seen_replaced k v old (f : string → option Version) :
  k ≠ "" → replaced k v old f k = if hash_is old (f "") || hash_is old (f k) then Some v else f k.
Proof.
  intros Hk. unfold replaced. destruct (hash_is old (f "")); simpl.
  - unfold insert, fn_insert. rewrite decide_False by done. by rewrite decide_True.
  - destruct (hash_is old (f k)); [|done]. unfold insert, fn_insert. by rewrite decide_True.
Qed.

Lemma seen_added k v (f : string → option Version) :
  k ≠ "" → added k v f k = match f k with Some v' => Some v' | None => Some v end.
Proof.
  intros Hk. unfold added. destruct (f k) eqn:E; [done|]. unfold presented.
  assert ((<[k := Some v]> f : string → option Version) k = Some v) as Ek by (unfold insert, fn_insert; by rewrite decide_True).
  destruct ((<[k := Some v]> f : string → option Version) ""); [exact Ek|].
  unfold insert at 1, fn_insert at 1. by rewrite decide_False by done.
Qed.

Lemma seen_dropped k old (f f' : string → option Version) :
  k ≠ "" → dropped k (Some old) f f' → f' k = if hash_is old (f k) then None else f k.
Proof.
  intros Hk H.
  assert (∀ v, f k = Some v → (∀ h, Some old = Some h → v.2 = h) → hash_is old (f k) = true) as Hold.
  { intros v -> Hh. simpl. apply bool_decide_eq_true. by apply Hh. }
  destruct H as [H1 H2|v H1 H2 H3 H4|v dv k' v' H1 H2 H3 H4 H5 H6 H7 H8|v k' v' H1 H2 H3 H4 H5 H6 H7 H8].
  - rewrite H2. destruct (f k) as [v|] eqn:E; [|done]. destruct (H1 v eq_refl) as (h & [= <-] & Hne).
    simpl. by rewrite bool_decide_false.
  - rewrite (Hold v) by done. apply H4.
  - rewrite (Hold v), H8 by done. unfold insert, fn_insert. by rewrite decide_True.
  - rewrite (Hold v), H8 by done. unfold insert, fn_insert. by rewrite decide_False, decide_True.
Qed.

(** What one notification does to the hashes of the peer. *)
Lemma storage_update_hash m root peer n w w' :
  well_formed peer n → cache_ok (inodes_needed n + m) (cache_at w) (global_at w) →
  storage_update root peer n w = (Ok tt, w') →
  cache_ok m (cache_at w') (global_at w') ∧
  ∀ q, valid q →
    match n with
    | NAdd _ _ p _ _ h =>
        seen_hash w' peer q =
          if decide (q = p) then match seen_hash w peer q with Some h' => Some h' | None => Some h end
          else seen_hash w peer q
    | NReplace _ _ p _ _ h old =>
        if decide (q = p)
        then seen_hash w' peer q = Some h ∨
             (seen_hash w' peer q = seen_hash w peer q ∧ seen_hash w peer q ≠ Some old)
        else seen_hash w' peer q = seen_hash w peer q
    | NRemove _ _ p old | NDrop _ _ p old =>
        seen_hash w' peer q =
          if decide (q = p ∧ seen_hash w peer q = Some old) then None else seen_hash w peer q
    | NConnected _ _ => seen_hash w' peer q = seen_hash w peer q
    | _ => True
    end.
Proof.
  intros Hwf Hc Hu. unfold storage_update in Hu. destruct (storage_update_cache root n w) as [E1 E2].
  set (w1 := match root with Some root => _ | None => w end) in *. simpl in E1, E2. rewrite <- E1, <- E2 in Hc.
  pose proof (cache_update_run arena arena_root roots blob_dir now hash_order hash_order_perm Hroot m peer n w1 Hwf Hc) as H.
  fold update in H. rewrite Hu in H. destruct H as [H1 H2 _ _]. split; [done|]. intros q Hq.
  assert (∀ old v, hash_is old v = true ↔ snd <$> v = Some old) as Hh.
  { intros old [v|]; simpl; [|done]. rewrite bool_decide_eq_true. naive_solver. }
  destruct Hwf as [Hk _]. unfold seen_hash. rewrite <- E1. unfold view_step in H2.
  destruct n as [a ix p mt sz h|a ix p mt sz h old|a ix p old|a ix p old|a|a p mt sz h|a ix|a id]; try done.
  - destruct H2 as (S1 & S2 & _). case_decide as E; [subst q|by rewrite (S1 q)].
    unfold seen. rewrite S2, seen_added by done. by destruct (CacheInv.seen _ _ p _).
  - destruct H2 as (S1 & S2 & _). case_decide as E; [subst q|by rewrite (S1 q)].
    unfold seen. rewrite S2, seen_replaced by done. destruct (hash_is old (CacheInv.seen _ _ p "")); [by left|]. simpl.
    destruct (hash_is old (CacheInv.seen arena_root (cache_at w1) p (peer_name peer))) eqn:Eo; [by left|right].
    split; [done|]. intros Ho. apply Hh in Ho. congruence.
  - destruct H2 as (S1 & S2 & _). destruct (decide (q = p)) as [->|E].
    2:{ rewrite decide_False by tauto. by rewrite (S1 q). }
    apply seen_dropped in S2; [|done]. unfold seen. rewrite S2.
    destruct (hash_is old (CacheInv.seen arena_root (cache_at w1) p (peer_name peer))) eqn:Eo.
    + rewrite decide_True; [done|]. split; [done|]. by apply Hh.
    + rewrite decide_False; [done|]. intros [_ Ho]. apply Hh in Ho. congruence.
  - destruct H2 as (S1 & S2 & _). destruct (decide (q = p)) as [->|E].
    2:{ rewrite decide_False by tauto. by rewrite (S1 q). }
    apply seen_dropped in S2; [|done]. unfold seen. rewrite S2.
    destruct (hash_is old (CacheInv.seen arena_root (cache_at w1) p (peer_name peer))) eqn:Eo.
    + rewrite decide_True; [done|]. split; [done|]. by apply Hh.
    + rewrite decide_False; [done|]. intros [_ Ho]. apply Hh in Ho. congruence.
  - destruct H2 as (S1 & _). unfold seen. by rewrite S1.
Qed.

(** The inodes that a batch can allocate. *)
Definition batch_inodes ns : nat := sum_list (inodes_needed <$> ns).

Lemma notify_cons root peer n ns w w' :
  notify root peer (n :: ns) w = (Ok tt, w') →
  ∃ w1, storage_update root peer n w = (Ok tt, w1) ∧ notify root peer ns w1 = (Ok tt, w').
Proof.
  unfold notify. cbn [sfor]. unfold sbind. destruct (storage_update root peer n w) as [[[]|e] w1]; [|done].
  intros H. by exists w1.
Qed.

(** Events that are told in order, against the final index: for a path that was told
    the peer is seen with the hash of the final index, for another with the one it had
    before the first event that is left.  A path that was dropped must not be back. *)
Lemma sync_run m root peer ix q evs (f : Path → option Hash) (told : list Path) w w' :
  peer_name peer ≠ "" → valid q → evolves evs.*2 f (file_hash ix) →
  (∀ i h, (i, HDrop q h) ∈ evs → file_hash ix q = None) →
  seen_hash w peer q = (if decide (q ∈ told) then file_hash ix q else f q) →
  let ns := omap (λ '(i, ev), notification_for arena ix i ev) evs in
  cache_ok (batch_inodes ns + m) (cache_at w) (global_at w) →
  notify root peer ns w = (Ok tt, w') →
  cache_ok m (cache_at w') (global_at w') ∧ seen_hash w' peer q = file_hash ix q.
Proof.
  intros Hk Hq. revert f told w. induction evs as [|[i ev] evs IH]; intros f told w Hev Hdrop Hs ns Hc Hrun.
  { injection Hrun as <-. split; [done|]. rewrite Hs. simpl in Hev. by case_decide. }
  simpl in Hev. destruct Hev as (f1 & (Hv & Hsame & Hp) & Hev).
  assert (∀ w1, seen_hash w1 peer q = (if decide (q = event_path ev) then file_hash ix q else seen_hash w peer q) →
    let ns' := omap (λ '(i, ev), notification_for arena ix i ev) evs in
    cache_ok (batch_inodes ns' + m) (cache_at w1) (global_at w1) → notify root peer ns' w1 = (Ok tt, w') →
    cache_ok m (cache_at w') (global_at w') ∧ seen_hash w' peer q = file_hash ix q) as Hnext.
  { intros w1 Hs1. apply (IH f1 (event_path ev :: told)); [done| |].
    - intros j h Hin. apply (Hdrop j h). by right.
    - rewrite Hs1. case_decide as E.
      + rewrite decide_True; [done|]. subst q. by left.
      + rewrite Hs. rewrite (decide_ext (q ∈ event_path ev :: told) (q ∈ told)) by set_solver.
        case_decide; [done|]. symmetry. by apply Hsame. }
  assert (q = event_path ev → ∀ old, f q = Some old →
    seen_hash w peer q = Some old ∨ seen_hash w peer q = file_hash ix q) as Hold.
  { intros _ old Ho. rewrite Hs. destruct (decide (q ∈ told)); [by right|by left]. }
  subst ns. simpl in *. destruct (notification_for arena ix i ev) as [n|] eqn:En.
  2:{ apply (Hnext w); [|done|done]. case_decide as E; [subst q|done].
      rewrite Hs. case_decide; [done|].
      unfold notification_for, file_hash, has_file in *. destruct ev as [p|p old|p old|p old]; simpl in *.
      - destruct (Index.get_file_entry ix p); [done|]. by destruct Hp as [-> _].
      - by destruct (Index.get_file_entry ix p).
      - by destruct (Index.get_file_entry ix p).
      - pose proof (Hdrop i old ltac:(by left)) as Hd.
        by destruct (Index.get_file_entry ix p). }
  apply notify_cons in Hrun as (w1 & H1 & H2). unfold batch_inodes in Hc. simpl in Hc. rewrite <- Nat.add_assoc in Hc.
  assert (well_formed peer n) as Hwf.
  { split; [done|]. intros p Hpn. assert (p = event_path ev) as ->; [|done].
    unfold notification_for in En. destruct ev; repeat case_match; simplify_eq; simpl in Hpn; by injection Hpn. }
  destruct (storage_update_hash _ root peer n w w1 Hwf Hc H1) as [Hc1 Hs1].
  apply (Hnext w1); [|exact Hc1|exact H2]. specialize (Hs1 q Hq).
  assert (∀ p old, (f p = Some old → q = p → seen_hash w peer q = Some old ∨ seen_hash w peer q = file_hash ix q) →
    f p = Some old → file_hash ix p = None →
    seen_hash w1 peer q = (if decide (q = p ∧ seen_hash w peer q = Some old) then None else seen_hash w peer q) →
    seen_hash w1 peer q = if decide (q = p) then file_hash ix q else seen_hash w peer q) as Hgone.
  { intros p old Ho Hf Hn ->. destruct (decide (q = p)) as [->|E]; [|by rewrite decide_False by tauto]. rewrite Hn in Ho |- *.
    destruct (decide (p = p ∧ _)) as [Ed|Ed]; [done|]. destruct (Ho Hf eq_refl) as [Ho'| ->]; [|done]. by destruct Ed. }
  assert (∀ p h old, (f p = Some old → q = p → seen_hash w peer q = Some old ∨ seen_hash w peer q = file_hash ix q) →
    f p = Some old → file_hash ix p = Some h →
    (if decide (q = p) then seen_hash w1 peer q = Some h ∨ (seen_hash w1 peer q = seen_hash w peer q ∧ seen_hash w peer q ≠ Some old)
     else seen_hash w1 peer q = seen_hash w peer q) →
    seen_hash w1 peer q = if decide (q = p) then file_hash ix q else seen_hash w peer q) as Hrepl.
  { intros p h old Ho Hf Hn. destruct (decide (q = p)) as [->|E]; [|done]. rewrite Hn in Ho |- *. intros [->|[-> Hne]]; [done|].
    by destruct (Ho Hf eq_refl) as [?| ->]. }
  unfold notification_for, has_file in En. unfold file_hash in *.
  destruct ev as [p|p old|p old|p old]; simpl in *.
  - destruct (Index.get_file_entry ix p) as [e|] eqn:Ee; [|done]. injection En as <-. rewrite Hs1.
    destruct (decide (q = p)) as [->|E]; [|done]. rewrite Ee, Hs, Ee. destruct (decide (p ∈ told)); [done|].
    by destruct Hp as [-> _].
  - destruct Hp as [Hp _]. destruct (Index.get_file_entry ix p) as [e|] eqn:Ee; injection En as <-.
    + apply (Hrepl p (ix_hash e) old); [by intros ? ->; apply Hold|done|by rewrite Ee|exact Hs1].
    + apply (Hgone p old); [by intros ? ->; apply Hold|done|by rewrite Ee|exact Hs1].
  - destruct Hp as [Hp _]. destruct (Index.get_file_entry ix p) as [e|] eqn:Ee; injection En as <-.
    + apply (Hrepl p (ix_hash e) old); [by intros ? ->; apply Hold|done|by rewrite Ee|exact Hs1].
    + apply (Hgone p old); [by intros ? ->; apply Hold|done|by rewrite Ee|exact Hs1].
  - destruct Hp as [Hp _]. destruct (bool_decide _) eqn:Eb; [done|]. injection En as <-.
    apply bool_decide_eq_false in Eb. destruct (Index.get_file_entry ix p) as [e|] eqn:Ee; [by destruct Eb|].
    apply (Hgone p old); [by intros ? ->; apply Hold|done|by rewrite Ee|exact Hs1].
Qed.

(** ** A subscription *)

Lemma storage_update_quiet root peer n w :
  match n with NCatchupStart _ | NCatchup _ _ _ _ _ | NCatchupComplete _ _ | NConnected _ _ => True | _ => False end →
  storage_update root peer n w = update peer n w.
Proof.
  unfold storage_update, index_update. destruct root as [root|]; [|done].
  destruct (negb _); [done|]. by destruct n.
Qed.

Lemma sfor_ext {S E A} (l : list A) (f g : A → StateM S E unit) s :
  (∀ x, x ∈ l → ∀ s, f x s = g x s) → sfor l f s = sfor l g s.
Proof.
  revert s. induction l as [|x l IH]; intros s H; [done|]. simpl. unfold sbind.
  rewrite H by by left. destruct (g x s) as [[[]|e] s']; [|done]. apply IH. intros y Hy. apply H. by right.
Qed.

(** The files that an index lists. *)
Definition indexed_files (ix : IndexTables) : list (Path * Version) :=
  (λ '(p, e), (p, ({| size := ix_size e; mtime := ix_mtime e |}, ix_hash e))) <$> all_files ix.

Lemma catchup_is ix index : catchup arena ix index = catchup_notifications arena (indexed_files ix) index.
Proof.
  unfold catchup, catchup_notifications, indexed_files. rewrite <- list_fmap_compose.
  do 2 f_equal. apply list_fmap_ext. by intros _ [p e] _.
Qed.

Lemma all_files_spec ix files :
  index_inv ix files →
  NoDup (all_files ix).*1 ∧
  ∀ p e, (p, e) ∈ all_files ix ↔ valid p ∧ Index.get_file_entry ix p = Some e.
Proof.
  intros Hi. assert (∀ k e, (k, e) ∈ tbl_iter (index_file_table ix) → Path.parse k = Ok (mkPath k)) as Hk.
  { intros k e Hin. apply (inv_valid _ _ Hi), (inv_files _ _ Hi). exists e. by apply elem_of_iter. }
  assert (all_files ix = (λ kv, (mkPath kv.1, kv.2)) <$> tbl_iter (index_file_table ix)) as ->.
  { unfold all_files. induction (tbl_iter (index_file_table ix)) as [|[k e] l IH]; [done|]. simpl.
    rewrite (Hk k e) by by left. f_equal. apply IH. intros k' e' Hin. apply (Hk k' e'). by right. }
  split.
  - assert (∀ l : list (string * IndexedFileTableEntry), ((λ kv, (mkPath kv.1, kv.2)) <$> l).*1 = mkPath <$> l.*1)
      as -> by (intros l; by rewrite <- !list_fmap_compose).
    apply NoDup_fmap_2; [by intros ?? [=]|]. apply (range_NoDup Unbounded Unbounded (index_file_table ix)).
  - intros p e. rewrite list_elem_of_fmap. split.
    + intros ([k e'] & [= -> ->] & Hin%elem_of_iter). split; [|done].
      apply (inv_valid _ _ Hi), (inv_files _ _ Hi). by exists e'.
    + intros [_ He]. exists (as_str p, e). split; [by destruct p|]. by apply elem_of_iter.
Qed.

Lemma subscription_run m root peer uuid ix files (at_ : N → IndexTables) (current : N) w w'
  (Hk : peer_name peer ≠ "") (Hi : index_inv ix files) (Hcur : 0 < current)
  (Hc : cache_ok (depths (indexed_files ix) + m) (cache_at w) (global_at w))
  (Hrun : notify root peer (subscribe arena uuid None ix at_ current) w = (Ok tt, w')) :
  (∀ q v, valid q → seen (cache_at w') q (peer_name peer) = Some v ↔
     ∃ e, Index.get_file_entry ix q = Some e ∧
          v = ({| size := ix_size e; mtime := ix_mtime e |}, ix_hash e)) ∧
  (∀ q, valid q → is_Some (Index.get_file_entry ix q) → is_Some (seen (cache_at w') q "")) ∧
  tbl_get (peer_name peer) (cache_notification_table (cache_at w')) = Some current ∧
  cache_ok m (cache_at w') (global_at w').
Proof.
  unfold subscribe in Hrun. simpl in Hrun. rewrite (proj2 (N.ltb_lt 0 current) Hcur), catchup_is in Hrun.
  apply notify_cons in Hrun as (w1 & H1 & H2). rewrite storage_update_quiet in H1 by done.
  pose proof (cache_update_run arena arena_root roots blob_dir now hash_order hash_order_perm Hroot
    (depths (indexed_files ix) + m) peer (NConnected arena uuid) w (ltac:(by split)) Hc) as H.
  fold update in H. rewrite H1 in H. destruct H as [Hc1 _ _ _].
  unfold notify in H2. rewrite (sfor_ext _ _ (update peer)) in H2.
  2:{ intros n Hn s. apply storage_update_quiet. unfold catchup_notifications in Hn.
      apply elem_of_cons in Hn as [->|Hn]; [done|]. apply elem_of_app in Hn as [Hn|Hn].
      - by apply list_elem_of_fmap in Hn as ([p v] & -> & _).
      - by apply list_elem_of_singleton in Hn as ->. }
  destruct (all_files_spec ix files Hi) as [Hnd Hin].
  assert (∀ q v, (q, v) ∈ indexed_files ix ↔ valid q ∧ ∃ e, Index.get_file_entry ix q = Some e ∧
    v = ({| size := ix_size e; mtime := ix_mtime e |}, ix_hash e)) as Hfiles.
  { intros q v. unfold indexed_files. rewrite list_elem_of_fmap. split.
    - intros ([p e] & [= -> ->] & [Hv He]%Hin). split; [done|]. by exists e.
    - intros (Hv & e & He & ->). exists (q, e). split; [done|]. by apply Hin. }
  destruct (catchup_run_all arena arena_root roots blob_dir now hash_order hash_order_perm Hroot
    m peer (indexed_files ix) current w1 w' Hk) as (R1 & R2 & _ & R3 & R4); [| |exact Hc1|exact H2|].
  { unfold indexed_files. rewrite <- list_fmap_compose.
    rewrite (list_fmap_ext _ fst) by (by intros _ [p e] _). exact Hnd. }
  { apply Forall_forall. intros [q v] [Hv _]%Hfiles. exact Hv. }
  assert (∀ q v, valid q → seen (cache_at w') q (peer_name peer) = Some v ↔
    ∃ e, Index.get_file_entry ix q = Some e ∧ v = ({| size := ix_size e; mtime := ix_mtime e |}, ix_hash e)) as Hseen.
  { intros q v Hv. unfold seen. rewrite (R2 q v Hv), Hfiles. naive_solver. }
  split_and!; [exact Hseen| |exact R4|exact R1].
  intros q Hv [e He]. apply R3. exists (peer_name peer). split; [done|].
  eexists. apply Hseen; [done|]. by exists e.
Qed.




(** The path was not dropped since the index [from] of the history of an index that
    now has it again. *)
Definition not_dropped_and_back ix (from : N) q : Prop :=
  ∀ i h, tbl_get i (index_history_table ix) = Some (HDrop q h) → from < i → Index.get_file_entry ix q = None.

(** What is sent of the changes since an index that the subscriber was in step with,
    for one path. *)
Lemma sync_since m root root_a peer q wa wb w w'
  (Hk : peer_name peer ≠ "") (Ha : world_ok wa)
  (Hsteps : rtc (index_step arena root_a) wa wb) (Hroom : history_tx wb + 1 < u64_modulus)
  (Hq : valid q) (Hsync : seen_hash w peer q = hashes wa q)
  (Hdrop : not_dropped_and_back (index (db wb)) (history_tx wa) q) :
  let ns := (changed arena (index (db wb)) (λ _, index (db wb)) (history_tx wa) (history_tx wb)).1 in
  cache_ok (batch_inodes ns + m) (cache_at w) (global_at w) →
  notify root peer ns w = (Ok tt, w') →
  cache_ok m (cache_at w') (global_at w') ∧ seen_hash w' peer q = hashes wb q.
Proof.
  intros ns Hc Hrun. destruct (steps_evolve arena root_a wa wb Hsteps Ha) as (evs & He & Hev).
  destruct (index_steps_ok arena root_a wa wb Hsteps Ha) as [Hb _].
  pose proof (history_since wa wb evs Ha Hb Hroom He) as Hh.
  subst ns. unfold changed, send_notifications in *. simpl in *.
  set (hist := history _ _ _) in *. rewrite <- Hh in Hev.
  apply (sync_run m root peer (index (db wb)) q hist (hashes wa) [] w w'); [done|done|exact Hev| | |exact Hc|exact Hrun].
  - intros i h Hin. unfold file_hash. apply elem_of_range in Hin as (Hget & Hlo & _).
    rewrite (Hdrop i h Hget); [done|].
    pose proof (events_grow wa wb evs Ha Hb He) as Hle.
    rewrite u64_add_small in Hlo by lia. unfold above in Hlo. simpl in Hlo. lia.
  - rewrite decide_False by set_solver. exact Hsync.
Qed.

(** A subscriber that was in step with the index at some point is in step with
    it again once it has taken in the notifications of what happened since, although
    they are made from the index as it is now: what it sees of a path has the
    hash of the index, and it sees no other file.  The one proviso is that the path
    was not dropped and is back. *)
Theorem incremental_sync m root root_a peer wa wb w w'
  (Hk : peer_name peer ≠ "") (Ha : world_ok wa)
  (Hsteps : rtc (index_step arena root_a) wa wb) (Hroom : history_tx wb + 1 < u64_modulus) :
  let ns := (changed arena (index (db wb)) (λ _, index (db wb)) (history_tx wa) (history_tx wb)).1 in
  cache_ok (batch_inodes ns + m) (cache_at w) (global_at w) →
  notify root peer ns w = (Ok tt, w') →
  ∀ q, valid q → seen_hash w peer q = hashes wa q →
    not_dropped_and_back (index (db wb)) (history_tx wa) q → seen_hash w' peer q = hashes wb q.
Proof. intros ns Hc Hrun q Hq Hsync Hdrop. by apply (sync_since m root root_a peer q wa wb w w'). Qed.

(** ** What a subscription misses *)

Lemma adds_keep m root peer (ix_at : N → IndexTables) (evs : list (N * HistoryTableEntry)) w w' :
  peer_name peer ≠ "" → (∀ i ev, (i, ev) ∈ evs → ∃ p, ev = HAdd p ∧ valid p) →
  let ns := omap (λ '(i, ev), notification_for arena (ix_at i) i ev) evs in
  cache_ok (batch_inodes ns + m) (cache_at w) (global_at w) → notify root peer ns w = (Ok tt, w') →
  ∀ q, valid q → is_Some (seen_hash w peer q) → seen_hash w' peer q = seen_hash w peer q.
Proof.
  intros Hk. revert w. induction evs as [|[i ev] evs IH]; intros w Hevs ns Hc Hrun q Hq Hs.
  { by injection Hrun as <-. }
  destruct (Hevs i ev ltac:(by left)) as (p & -> & Hp). subst ns. simpl in *.
  destruct (Index.get_file_entry (ix_at i) p) as [e|].
  2:{ apply IH; [|done..]. intros j ev Hin. apply (Hevs j). by right. }
  apply notify_cons in Hrun as (w1 & H1 & H2). unfold batch_inodes in Hc. cbn [fmap list_fmap sum_list] in Hc.
  simpl in Hc. rewrite <- Nat.add_assoc in Hc.
  destruct (storage_update_hash _ root peer (NAdd arena i p (ix_mtime e) (ix_size e) (ix_hash e)) w w1
    ltac:(split; [done|by intros ? [= <-]]) Hc H1) as [Hc1 Hs1].
  specialize (Hs1 q Hq). simpl in Hs1.
  assert (seen_hash w1 peer q = seen_hash w peer q) as E by (rewrite Hs1; case_decide; [|done]; by destruct Hs as [h ->]).
  rewrite <- E. apply IH; [|exact Hc1|exact H2|done|by rewrite E]. intros j ev Hin. apply (Hevs j). by right.
Qed.

(** A file that was dropped and then added again with other content is not
    updated: the drop is not sent because the file is back, and an addition of a
    file that is already known of the peer is ignored, so the subscriber keeps the
    hash it had. *)
Theorem dropped_and_added_is_stale m root peer ix (at_ : N → IndexTables) (from to i j : N) p old e w w'
  (Hk : peer_name peer ≠ "") (Hp : valid p)
  (Hhist : history ix (Included (u64_add from 1)) (Excluded (u64_add to 1)) = [(i, HDrop p old); (j, HAdd p)])
  (Hi : Index.get_file_entry (at_ i) p = Some e)
  (Hsync : seen_hash w peer p = Some old) :
  let ns := (changed arena ix at_ from to).1 in
  cache_ok (batch_inodes ns + m) (cache_at w) (global_at w) →
  notify root peer ns w = (Ok tt, w') → seen_hash w' peer p = Some old.
Proof.
  unfold changed, send_notifications. rewrite Hhist. simpl. unfold has_file. rewrite Hi. simpl.
  intros Hc Hrun. rewrite <- Hsync.
  apply (adds_keep m root peer at_ [(j, HAdd p)] w w'); [done| |exact Hc|exact Hrun|done|by rewrite Hsync].
  intros j' ev [= -> ->]%list_elem_of_singleton. by exists p.
Qed.

(** A peer whose database was created anew, with another uuid and an empty
    index, is not caught up with: nothing is sent that would remove the files that
    were known of it, and the additions that follow are ignored for those it has
    again, so everything known of it before stays as it was. *)
Theorem new_database_keeps_old_files m root peer uuid progress ix (at_ : N → IndexTables) (to : N) ix1
    (at1 : N → IndexTables) w w'
  (Hk : peer_name peer ≠ "") (Huuid : pr_uuid progress ≠ uuid)
  (Hempty : history ix (Included 1) (Excluded 1) = [])
  (Hadds : ∀ i ev, (i, ev) ∈ history ix1 (Included 1) (Excluded (u64_add to 1)) → ∃ p, ev = HAdd p ∧ valid p) :
  let ns := subscribe arena uuid (Some progress) ix at_ 0 ++ (changed arena ix1 at1 0 to).1 in
  cache_ok (batch_inodes ns + m) (cache_at w) (global_at w) →
  notify root peer ns w = (Ok tt, w') →
  ∀ q, valid q → is_Some (seen_hash w peer q) → seen_hash w' peer q = seen_hash w peer q.
Proof.
  assert (subscribe arena uuid (Some progress) ix at_ 0 = [NConnected arena uuid]) as ->.
  { unfold subscribe, subscribed_from. rewrite bool_decide_false by done. simpl.
    unfold send_notifications. change (u64_add 0 1) with 1. by rewrite Hempty. }
  intros ns Hc Hrun q Hq Hs. apply notify_cons in Hrun as (w1 & H1 & H2).
  change (cache_ok (0 + (batch_inodes (changed arena ix1 at1 0 to).1 + m)) (cache_at w) (global_at w)) in Hc.
  destruct (storage_update_hash _ root peer (NConnected arena uuid) w w1 ltac:(by split) Hc H1) as [Hc1 Hs1].
  specialize (Hs1 q Hq). simpl in Hs1. rewrite <- Hs1.
  apply (adds_keep m root peer at1 (history ix1 (Included 1) (Excluded (u64_add to 1))) w1 w');
    [done|exact Hadds|exact Hc1|exact H2|done|by rewrite Hs1].
Qed.
End sync.

(** ** Witnesses *)

Section witnesses.
#[local] Existing Instance gmap_redb.
#[local] Existing Instance list_bimap.
#[local] Existing Instance list_bimap_laws.

(** The sender: it has [foo/bar], then [foo/bar] changes and [qux] comes. *)
Definition qux : Path := mkPath "qux".
Definition sender1 : World := (add_file foobar 5 (mkUnixTime 7) hash1 empty_world).2.
Definition sender2 : World := (add_file qux 1 (mkUnixTime 8) hash2 (add_file foobar 6 (mkUnixTime 8) hash2 sender1).2).2.

Lemma sender1_ok : world_ok sender1.
Proof.
  eapply index_steps_ok; [apply rtc_once, (is_add arena_a "/root" empty_world foobar 5 (mkUnixTime 7) hash1)|
    apply empty_world_ok]; [done|by split; vm_compute].
Qed.

Lemma sender_steps : rtc (index_step arena_a "/root") sender1 sender2.
Proof.
  eapply rtc_l; [apply (is_add _ _ sender1 foobar 6 (mkUnixTime 8) hash2); [done|by split; vm_compute]|].
  apply rtc_once. apply (is_add _ _ _ qux 1 (mkUnixTime 8) hash2); [done|by split; vm_compute].
Qed.

Definition receive (ns : list Notification) (w : World) : sresult () * World :=
  notify arena_a 2 roots0.2 "/blobs" (mkUnixTime 9) id (Some "/root") peer1 ns w.
Definition first_batch : list Notification :=
  subscribe arena_a 77 None (index (db sender1)) (λ _, index (db sender1)) (history_tx sender1).
Definition received1 : World := (receive first_batch w_init).2.

Lemma receive1 : receive first_batch w_init = (Ok tt, received1).
Proof. unfold received1. apply pair_of. by vm_compute. Qed.


Lemma received1_ok m : N.of_nat m ≤ 900 → cache_ok 2 m (cache_at received1) (global_at received1).
Proof.
  intros Hm. destruct sender1_ok as [_ [files Hi] _ _].
  assert (depths (indexed_files (index (db sender1))) = 2%nat) as E by by vm_compute.
  eapply (subscription_run arena_a 2 roots0.2 "/blobs" (mkUnixTime 9) id (λ _, reflexivity _)
    roots_a m (Some "/root") peer1 77 _ files (λ _, index (db sender1)) (history_tx sender1)
    w_init received1 ltac:(done) Hi); [by vm_compute| |exact receive1].
  apply w_init_ok. rewrite E. lia.
Qed.

Lemma received1_in_step q : valid q → seen_hash 2 received1 peer1 q = hashes sender1 q.
Proof.
  intros Hq. destruct sender1_ok as [_ [files Hi] _ _].
  destruct (subscription_run arena_a 2 roots0.2 "/blobs" (mkUnixTime 9) id (λ _, reflexivity _)
    roots_a 0 (Some "/root") peer1 77 (index (db sender1)) files (λ _, index (db sender1)) (history_tx sender1)
    w_init received1 ltac:(done) Hi) as (H & _); [by vm_compute|apply w_init_ok; by vm_compute|exact receive1|].
  unfold seen_hash, hashes, file_hash. specialize (H q).
  destruct (seen 2 (cache_at received1) q (peer_name peer1)) as [v|] eqn:E.
  - destruct (proj1 (H v Hq) eq_refl) as (e & -> & ->). done.
  - destruct (Index.get_file_entry (index (db sender1)) q) as [e|] eqn:Ee; [|done]. exfalso.
    assert (None = Some ({| size := ix_size e; mtime := ix_mtime e |}, ix_hash e)) as Ex; [|done].
    apply H; [done|]. by exists e.
Qed.

Definition second_batch : list Notification :=
  (changed arena_a (index (db sender2)) (λ _, index (db sender2)) (history_tx sender1) (history_tx sender2)).1.
Definition received2 : World := (receive second_batch received1).2.

Lemma receive2 : receive second_batch received1 = (Ok tt, received2).
Proof. unfold received2. apply pair_of. by vm_compute. Qed.

Example incremental_sync_witness :
  seen_hash 2 received2 peer1 foobar = Some hash2 ∧ seen_hash 2 received2 peer1 qux = Some hash2 ∧
  seen_hash 2 received2 peer1 foobar = hashes sender2 foobar.
Proof.
  split; [by vm_compute|]. split; [by vm_compute|].
  apply (incremental_sync arena_a 2 roots0.2 "/blobs" (mkUnixTime 9) id (λ _, reflexivity _)
    roots_a 0 (Some "/root") "/root" peer1 sender1 sender2 received1 received2);
    [done|exact sender1_ok|exact sender_steps|by vm_compute| |exact receive2|done|by apply received1_in_step|].
  - apply received1_ok. by vm_compute.
  - intros i h Hg _. exfalso. apply elem_of_iter in Hg. apply (list_elem_of_fmap_2 snd) in Hg.
    assert ((tbl_iter (index_history_table (index (db sender2)))).*2 = [HAdd foobar; HReplace foobar hash1; HAdd qux])
      as E by by vm_compute.
    rewrite E in Hg. clear E. rewrite !elem_of_cons in Hg. cbn [snd] in Hg. by destruct Hg as [|[|[|?%not_elem_of_nil]]].
Defined.

(** [foo/bar] leaves the index of the sender, to be kept as a blob, and comes back
    with other content before the subscriber is told. *)
Definition on_disk : World :=
  {| db := db sender1;
     w_ext := {| fs := {["/root/foo/bar" := {| f_data := replicate 5 x00; f_mtime := mkUnixTime 7 |}]};
                 global := global (w_ext sender1) |};
     watch_tx := watch_tx sender1; history_tx := history_tx sender1 |}.
Definition dropped1 : World :=
  (write_txn (let* b := drop_file_if_matches foobar hash1 "/root/foo/bar" in sret (Commit b)) on_disk).2.
Definition dropped2 : World := (add_file foobar 6 (mkUnixTime 8) hash2 dropped1).2.
Definition received3 : World :=
  (receive (changed arena_a (index (db dropped2)) (λ _, index (db dropped2)) 1 3).1 received1).2.

Example dropped_and_added_is_stale_witness :
  hashes dropped2 foobar = Some hash2 ∧ seen_hash 2 received3 peer1 foobar = Some hash1.
Proof.
  split; [by vm_compute|].
  destruct (Index.get_file_entry (index (db dropped2)) foobar) as [e|] eqn:Ee; [|by vm_compute in Ee].
  apply (dropped_and_added_is_stale arena_a 2 roots0.2 "/blobs" (mkUnixTime 9) id (λ _, reflexivity _)
    roots_a 0 (Some "/root") peer1 (index (db dropped2)) (λ _, index (db dropped2)) 1 3 2 3 foobar hash1 e
    received1 received3); [done|done|by vm_compute|exact Ee|by vm_compute|apply received1_ok; by vm_compute|].
  clear Ee. unfold received3. apply pair_of. by vm_compute.
Defined.

(** The sender starts again with an empty database, then finds [foo/bar] again. *)
Definition again : World := (add_file foobar 6 (mkUnixTime 8) hash2 empty_world).2.
Definition news : list Notification :=
  subscribe arena_a 78 (Some {| pr_uuid := 77; last_seen := 1 |}) (index (db empty_world))
    (λ _, index (db empty_world)) 0 ++
  (changed arena_a (index (db again)) (λ _, index (db again)) 0 1).1.
Definition received4 : World := (receive news received1).2.

Example new_database_keeps_old_files_witness :
  hashes again foobar = Some hash2 ∧ seen_hash 2 received4 peer1 foobar = Some hash1.
Proof.
  split; [by vm_compute|].
  rewrite (new_database_keeps_old_files arena_a 2 roots0.2 "/blobs" (mkUnixTime 9) id (λ _, reflexivity _)
    roots_a 0 (Some "/root") peer1 78 {| pr_uuid := 77; last_seen := 1 |} (index (db empty_world))
    (λ _, index (db empty_world)) 1 (index (db again)) (λ _, index (db again)) received1 received4);
    [by vm_compute|done|done|by vm_compute| |apply received1_ok; by vm_compute| |done|].
  - intros i ev Hin. exists foobar.
    assert (history (index (db again)) (Included 1) (Excluded (u64_add 1 1)) = [(1, HAdd foobar)]) as E by by vm_compute.
    rewrite E in Hin. clear E. apply list_elem_of_singleton in Hin. by injection Hin as -> ->.
  - unfold received4. apply pair_of. by vm_compute.
  - eexists. by vm_compute.
Defined.

(** A file that is replaced and then removed is announced, when both are sent
    together, by two removals, of the old and of the new content.  The second one
    fails, because the subscriber does not know the file any more, and with it
    everything that was sent after it in the same batch: the subscriber never gets
    to see a file that was added, although its progress has not reached it and the
    sender goes on. *)
Example replaced_then_removed_fails :
  let wb := (add_file qux 1 (mkUnixTime 8) hash2
              (remove_file_or_dir foobar (add_file foobar 6 (mkUnixTime 8) hash2 sender1).2).2).2 in
  let ns := (changed arena_a (index (db wb)) (λ _, index (db wb)) (history_tx sender1) (history_tx wb)).1 in
  let w' := (receive ns received1).2 in
  ns = [NRemove arena_a 2 foobar hash1; NRemove arena_a 3 foobar hash2;
        NAdd arena_a 4 qux (mkUnixTime 8) 1 hash2] ∧
  (receive ns received1).1 = Err NotFound ∧
  hashes wb qux = Some hash2 ∧ seen_hash 2 w' peer1 qux = None ∧
  last_seen <$> do_peer_progress (cache (db w')) peer1 = Some 2.
Proof. by vm_compute. Qed.
End witnesses.
