(* ===== verification/Churten.v ===== *)
(** * Tracking the progress of jobs

    [crate/realize-core/src/consensus/types.rs], [tracker.rs], [progress.rs] and
    [churten.rs]: the notifications that report what happens to the jobs, the
    tracker that keeps the recent jobs from them, the reporter that limits how many
    byte counts are sent, and what is sent for one job.

    A [HashMap] is a [gmap] and a [VecDeque] a list, its front first.  An [f64] is
    computed with the binary64 operations of [SpecFloat].  The broadcast channel is
    the list of the notifications sent; its fill level is an argument. *)
From Stdlib Require Import Floats.SpecFloat.
From stdpp Require Import fin_maps.
From S2P Require Import Prelude Path Types.

(** ** Notifications *)

Inductive JobProgress : Type :=
| JobPending
| JobRunning
| JobDone
| JobAbandoned
| JobCancelled
| JobFailed (error : string).

Inductive JobAction : Type := ActionDownload | ActionVerify | ActionRepair | ActionMove.

Definition is_finished (p : JobProgress) : bool :=
  match p with JobPending | JobRunning => false | _ => true end.

Inductive ChurtenNotification : Type :=
| CNew (arena : Arena) (job_id : JobId) (job : Job)
| CStart (arena : Arena) (job_id : JobId)
| CFinish (arena : Arena) (job_id : JobId) (progress : JobProgress)
| CUpdateAction (arena : Arena) (job_id : JobId) (index : N) (action : JobAction)
| CUpdateByteCount (arena : Arena) (job_id : JobId) (index current_bytes total_bytes : N).

Definition c_arena (n : ChurtenNotification) : Arena :=
  match n with
  | CNew a _ _ | CStart a _ | CFinish a _ _ | CUpdateAction a _ _ _ | CUpdateByteCount a _ _ _ _ => a
  end.
Definition c_job_id (n : ChurtenNotification) : JobId :=
  match n with
  | CNew _ i _ | CStart _ i | CFinish _ i _ | CUpdateAction _ i _ _ | CUpdateByteCount _ i _ _ _ => i
  end.
Definition global_job_id (n : ChurtenNotification) : Arena * JobId := (c_arena n, c_job_id n).

#[global] Instance JobProgress_eq_dec : EqDecision JobProgress.
Proof. solve_decision. Defined.

(** ** The tracker *)

Record JobInfo : Type := {
  ji_arena : Arena;
  ji_id : JobId;
  ji_job : Job;
  ji_progress : JobProgress;
  ji_action : option JobAction;
  ji_byte_progress : option (N * N);
  ji_notification_index : N;
}.

Definition info_id (i : JobInfo) : Arena * JobId := (ji_arena i, ji_id i).

Record JobInfoTracker : Type := {
  limit : nat;
  jobs : gmap (Arena * JobId) JobInfo;
  finished : list (Arena * JobId);
}.

Definition set_progress p a (i : JobInfo) : JobInfo :=
  {| ji_arena := ji_arena i; ji_id := ji_id i; ji_job := ji_job i; ji_progress := p; ji_action := a;
     ji_byte_progress := ji_byte_progress i; ji_notification_index := ji_notification_index i |}.
Definition set_update index a b (i : JobInfo) : JobInfo :=
  {| ji_arena := ji_arena i; ji_id := ji_id i; ji_job := ji_job i; ji_progress := ji_progress i; ji_action := a;
     ji_byte_progress := b; ji_notification_index := index |}.

Definition tracker_new (limit : nat) : JobInfoTracker := {| limit := limit; jobs := ∅; finished := [] |}.

(** The loop of [trim], on the queue of the finished jobs. *)
Fixpoint trim_loop (limit : nat) (js : gmap (Arena * JobId) JobInfo) (fin : list (Arena * JobId)) :
    gmap (Arena * JobId) JobInfo * list (Arena * JobId) :=
  match fin with
  | key :: rest => if bool_decide (limit < base.size js)%nat then trim_loop limit (delete key js) rest else (js, fin)
  | [] => (js, [])
  end.

Definition trim (t : JobInfoTracker) : JobInfoTracker :=
  let '(js, fin) := trim_loop (limit t) (jobs t) (finished t) in
  {| limit := limit t; jobs := js; finished := fin |}.

(** The loop of [init]. *)
Definition init_step (t : JobInfoTracker) (job : JobInfo) : JobInfoTracker :=
  {| limit := limit t; jobs := <[info_id job := job]> (jobs t);
     finished := finished t ++ (if is_finished (ji_progress job) then [info_id job] else []) |}.
Definition tracker_init (js : list JobInfo) (t : JobInfoTracker) : JobInfoTracker :=
  trim (foldl init_step (tracker_new (limit t)) js).

Definition tracker_len (t : JobInfoTracker) : N := N.of_nat (base.size (jobs t)).
Definition active_len (t : JobInfoTracker) : N := u64_sub (tracker_len t) (N.of_nat (length (finished t))).
Definition tracker_get (t : JobInfoTracker) (id : Arena * JobId) : option JobInfo := jobs t !! id.
Definition tracker_iter (t : JobInfoTracker) : list JobInfo := (map_to_list (jobs t)).*2.
Definition active_jobs (t : JobInfoTracker) : list JobInfo :=
  filter (λ i, is_finished (ji_progress i) = false) (tracker_iter t).
Definition finished_jobs (t : JobInfoTracker) : list JobInfo :=
  filter (λ i, is_finished (ji_progress i) = true) (tracker_iter t).

Definition put_info id i (t : JobInfoTracker) : JobInfoTracker :=
  {| limit := limit t; jobs := <[id := i]> (jobs t); finished := finished t |}.
Definition push_finished id (t : JobInfoTracker) : JobInfoTracker :=
  {| limit := limit t; jobs := jobs t; finished := finished t ++ [id] |}.

(** [JobInfoTracker::update] *)
Definition tracker_update (n : ChurtenNotification) (t : JobInfoTracker) : bool * JobInfoTracker :=
  let global_id := global_job_id n in
  match n with
  | CNew arena job_id job =>
      match jobs t !! global_id with
      | None =>
          (true, trim (put_info global_id
             {| ji_arena := arena; ji_id := job_id; ji_job := job; ji_progress := JobPending; ji_action := None;
                ji_byte_progress := None; ji_notification_index := 0 |} t))
      | Some _ => (false, t)
      end
  | CStart _ _ =>
      match jobs t !! global_id with
      | Some info =>
          if bool_decide (ji_progress info = JobPending)
          then (true, put_info global_id (set_progress JobRunning (ji_action info) info) t)
          else (false, t)
      | None => (false, t)
      end
  | CFinish _ _ progress =>
      match jobs t !! global_id with
      | Some info =>
          if negb (is_finished (ji_progress info))
          then (true, trim (push_finished global_id (put_info global_id (set_progress progress None info) t)))
          else (false, t)
      | None => (false, t)
      end
  | CUpdateAction _ _ index action =>
      match jobs t !! global_id with
      | Some info =>
          if bool_decide (ji_progress info = JobRunning) && (ji_notification_index info <? index)%N
          then (true, put_info global_id (set_update index (Some action) None info) t)
          else (false, t)
      | None => (false, t)
      end
  | CUpdateByteCount _ _ index current_bytes total_bytes =>
      match jobs t !! global_id with
      | Some info =>
          if bool_decide (ji_progress info = JobRunning) && (ji_notification_index info <? index)%N
          then (true, put_info global_id (set_update index (ji_action info) (Some (current_bytes, total_bytes)) info) t)
          else (false, t)
      | None => (false, t)
      end
  end.

Definition tracker_updates (ns : list ChurtenNotification) (t : JobInfoTracker) : JobInfoTracker :=
  foldl (λ t n, (tracker_update n t).2) t ns.

(** ** The reporter of a job *)

Record TxByteCountProgress : Type := {
  tx_arena : Arena;
  tx_job_id : JobId;
  resolution_bytes : N;
  last_bytecount_update : option (N * N);
  channel_capacity : option N;
  tx_index : N;
}.

Definition progress_new arena job_id : TxByteCountProgress :=
  {| tx_arena := arena; tx_job_id := job_id; resolution_bytes := 1; last_bytecount_update := None;
     channel_capacity := None; tx_index := 2 |}.
Definition with_min_byte_delta b (p : TxByteCountProgress) : TxByteCountProgress :=
  {| tx_arena := tx_arena p; tx_job_id := tx_job_id p; resolution_bytes := b;
     last_bytecount_update := last_bytecount_update p; channel_capacity := channel_capacity p; tx_index := tx_index p |}.
Definition adaptive c (p : TxByteCountProgress) : TxByteCountProgress :=
  {| tx_arena := tx_arena p; tx_job_id := tx_job_id p; resolution_bytes := resolution_bytes p;
     last_bytecount_update := last_bytecount_update p; channel_capacity := Some c; tx_index := tx_index p |}.

Definition delta (a b : N) : N := if (b <? a)%N then (a - b)%N else (b - a)%N.

(** [x as f64], and [f as u64]: towards zero, saturating, 0 for a NaN. *)
Definition as_f64 (n : N) : spec_float := binary_normalize 53 1024 (Z.of_N n) 0 false.
Definition f64_as_u64 (f : spec_float) : N :=
  match f with
  | S754_infinity false => u64_max
  | S754_finite false m e => N.min (Z.to_N (Z.shiftl (Zpos m) e)) u64_max
  | _ => 0
  end.
Definition percent_f64 (current total : spec_float) : N :=
  f64_as_u64 (SFdiv 53 1024 (SFmul 53 1024 current (as_f64 100)) total).
Definition percent (current total : N) : N := percent_f64 (as_f64 current) (as_f64 total).

(** [resolution_p], with [len] notifications in the channel. *)
Definition resolution_p (len : N) (p : TxByteCountProgress) : N :=
  match channel_capacity p with
  | None => 1
  | Some capacity =>
      let capacity_p := percent (N.min len capacity) capacity in
      if (capacity_p <? 10)%N then 1
      else if (capacity_p <? 25)%N then 5
      else if (capacity_p <? 50)%N then 10
      else if (capacity_p <? 75)%N then 25
      else 100
  end.

Definition should_send (len current_bytes total_bytes : N) (p : TxByteCountProgress) : bool :=
  if (current_bytes =? total_bytes)%N then true
  else match last_bytecount_update p with
  | None => true
  | Some (prev_current_bytes, prev_total_bytes) =>
      if (prev_total_bytes =? total_bytes)%N then
        if (delta current_bytes prev_current_bytes <? resolution_bytes p)%N then false
        else
          let prev_p := percent prev_current_bytes prev_total_bytes in
          let p' := percent current_bytes total_bytes in
          if (delta p' prev_p <? resolution_p len p)%N then false else true
      else true
  end.

(** [next_index]: the index to send, and the reporter with the next one, a [u32]. *)
Definition u32_modulus : N := 4294967296.
Definition next_index (p : TxByteCountProgress) : N * TxByteCountProgress :=
  (tx_index p,
   {| tx_arena := tx_arena p; tx_job_id := tx_job_id p; resolution_bytes := resolution_bytes p;
      last_bytecount_update := last_bytecount_update p; channel_capacity := channel_capacity p;
      tx_index := (tx_index p + 1) mod u32_modulus |}).

Definition update_action (action : JobAction) (p : TxByteCountProgress) :
    list ChurtenNotification * TxByteCountProgress :=
  let '(index, p) := next_index p in
  ([CUpdateAction (tx_arena p) (tx_job_id p) index action], p).

Definition update_bytes (len current_bytes total_bytes : N) (p : TxByteCountProgress) :
    list ChurtenNotification * TxByteCountProgress :=
  if should_send len current_bytes total_bytes p then
    let p := {| tx_arena := tx_arena p; tx_job_id := tx_job_id p; resolution_bytes := resolution_bytes p;
                last_bytecount_update := Some (current_bytes, total_bytes);
                channel_capacity := channel_capacity p; tx_index := tx_index p |} in
    let '(index, p) := next_index p in
    ([CUpdateByteCount (tx_arena p) (tx_job_id p) index current_bytes total_bytes], p)
  else ([], p).

(** What a job reports, and the number of notifications in the channel then. *)
Inductive Report : Type :=
| ReportAction (action : JobAction)
| ReportBytes (len current_bytes total_bytes : N).

Definition report (r : Report) (p : TxByteCountProgress) : list ChurtenNotification * TxByteCountProgress :=
  match r with
  | ReportAction action => update_action action p
  | ReportBytes len current_bytes total_bytes => update_bytes len current_bytes total_bytes p
  end.

Fixpoint reports (rs : list Report) (p : TxByteCountProgress) : list ChurtenNotification * TxByteCountProgress :=
  match rs with
  | [] => ([], p)
  | r :: rs => let '(ns, p) := report r p in let '(ns', p) := reports rs p in (ns ++ ns', p)
  end.

(** ** One job *)

Definition BROADCAST_CHANNEL_CAPACITY : N := 128.
Definition BROADCAST_CHANNEL_RESOLUTION_BYTES : N := 64 * 1024.

(** [run_job], for a handler that makes these reports. *)
Definition run_job_notifications (arena : Arena) (job_id : JobId) (rs : list Report) : list ChurtenNotification :=
  CStart arena job_id ::
  (reports rs (with_min_byte_delta BROADCAST_CHANNEL_RESOLUTION_BYTES
     (adaptive BROADCAST_CHANNEL_CAPACITY (progress_new arena job_id)))).1.

(** The result that [background_job] reports. *)
Definition finish_progress (cancelled : bool) (status : result string JobStatus) : JobProgress :=
  match status with
  | Ok Done => JobDone
  | Ok Abandoned => JobAbandoned
  | Err err => if cancelled then JobCancelled else JobFailed err
  end.

(** What [background_job] sends about a job of the stream. *)
Definition job_notifications arena job_id job (rs : list Report) cancelled status : list ChurtenNotification :=
  CNew arena job_id job :: run_job_notifications arena job_id rs ++
  [CFinish arena job_id (finish_progress cancelled status)].

(** ** Trimming *)

Implicit Types (t : JobInfoTracker) (n : ChurtenNotification) (k : Arena * JobId) (i : JobInfo).

Definition done_job i : bool := is_finished (ji_progress i).

(** The queue holds exactly the jobs that are finished, and there are no more jobs
    than the limit, except for those that are active. *)
Record tracker_pre t : Prop := {
  tk_keys : ∀ k i, jobs t !! k = Some i → info_id i = k;
  tk_finished : ∀ k, k ∈ finished t ↔ ∃ i, jobs t !! k = Some i ∧ done_job i = true;
  tk_nodup : NoDup (finished t);
}.
Record tracker_ok t : Prop := {
  tk_pre :> tracker_pre t;
  tk_limit : (base.size (jobs t) ≤ limit t)%nat ∨ finished t = [];
}.

(** How many finished jobs are dropped from the queue [fin], with [sz] jobs. *)
Definition dropped_jobs (limit sz : nat) (fin : list (Arena * JobId)) : nat :=
  Nat.min (sz - limit) (length fin).

Lemma trim_loop_run limit js fin :
  NoDup fin → (∀ k, k ∈ fin → is_Some (js !! k)) →
  let d := dropped_jobs limit (base.size js) fin in
  let r := trim_loop limit js fin in
  r.2 = drop d fin ∧ (base.size r.1 = base.size js - d)%nat ∧
  ∀ k, r.1 !! k = if decide (k ∈ take d fin) then None else js !! k.
Proof.
  revert js. induction fin as [|key fin IH]; intros js Hnd Hin; simpl.
  { unfold dropped_jobs. rewrite Nat.min_0_r. simpl. split_and!; [done|lia|done]. }
  apply NoDup_cons in Hnd as [Hkey Hnd]. case_bool_decide as Hd.
  2:{ unfold dropped_jobs. replace (base.size js - limit)%nat with 0%nat by lia. simpl. split_and!; [done|lia|done]. }
  destruct (Hin key ltac:(by left)) as [i Hi].
  assert (base.size js = S (base.size (delete key js))) as Es.
  { rewrite (map_size_delete_Some key js) by by exists i.
    assert (base.size js ≠ 0%nat); [|lia]. intros E%map_size_empty_iff. by rewrite E in Hi. }
  destruct (IH (delete key js) Hnd) as (H1 & H2 & H3).
  { intros k Hk. rewrite lookup_delete_ne by set_solver. apply Hin. by right. }
  unfold dropped_jobs in *. simpl length.
  replace (Nat.min (base.size js - limit) (S (length fin))) with
    (S (Nat.min (base.size (delete key js) - limit) (length fin))) by lia.
  set (d := Nat.min (base.size (delete key js) - limit) (length fin)) in *. simpl.
  split; [exact H1|]. split; [rewrite H2; lia|]. intros k. rewrite H3.
  destruct (decide (k = key)) as [->|Hne].
  - rewrite lookup_delete_eq. rewrite (decide_True (P := key ∈ key :: take d fin)) by by left. by case_decide.
  - rewrite lookup_delete_ne by done.
    rewrite (decide_ext (k ∈ key :: take d fin) (k ∈ take d fin)); [done|]. set_solver.
Qed.

(** [trim] drops the oldest finished jobs, no more than it has to. *)
Lemma trim_run t :
  tracker_pre t →
  let d := dropped_jobs (limit t) (base.size (jobs t)) (finished t) in
  limit (trim t) = limit t ∧ finished (trim t) = drop d (finished t) ∧
  (∀ k, jobs (trim t) !! k = if decide (k ∈ take d (finished t)) then None else jobs t !! k) ∧
  tracker_ok (trim t).
Proof.
  intros [Hk Hf Hnd] d.
  destruct (trim_loop_run (limit t) (jobs t) (finished t) Hnd) as (H1 & H2 & H3).
  { intros k (i & -> & _)%Hf. by eexists. }
  fold d in H1, H2, H3. unfold trim.
  destruct (trim_loop (limit t) (jobs t) (finished t)) as [js fin]. cbn [fst snd] in *.
  cbn [limit jobs finished]. subst fin.
  split; [done|]. split; [done|]. split; [exact H3|]. split; [split|]; cbn [limit jobs finished].
  - intros k i Hi. rewrite H3 in Hi. case_decide; [done|]. by apply Hk.
  - intros k. rewrite H3. rewrite <- (take_drop d (finished t)) in Hf, Hnd.
    apply NoDup_app in Hnd as (_ & Hdisj & _). split.
    + intros Hin. rewrite decide_False; [|intros H; by apply (Hdisj k)]. apply Hf, elem_of_app. by right.
    + intros (i & Hi & Hd). case_decide as Hn; [done|].
      assert (k ∈ take d (finished t) ++ drop d (finished t)) as [?|?]%elem_of_app by (apply Hf; by exists i); done.
  - rewrite <- (take_drop d (finished t)) in Hnd. by apply NoDup_app in Hnd as (_ & _ & ?).
  - unfold d, dropped_jobs in *. destruct (Nat.le_gt_cases (base.size (jobs t) - limit t) (length (finished t))) as [Hle|Hgt].
    + left. rewrite H2. lia.
    + right. rewrite Nat.min_r by lia. apply drop_all.
Qed.

(** ** An update *)

(** What a notification does to its own job, and whether it is taken into account. *)
Definition own_step n (o : option JobInfo) : option JobInfo :=
  match n, o with
  | CNew arena job_id job, None =>
      Some {| ji_arena := arena; ji_id := job_id; ji_job := job; ji_progress := JobPending; ji_action := None;
              ji_byte_progress := None; ji_notification_index := 0 |}
  | CStart _ _, Some i =>
      if bool_decide (ji_progress i = JobPending) then Some (set_progress JobRunning (ji_action i) i) else None
  | CFinish _ _ p, Some i => if done_job i then None else Some (set_progress p None i)
  | CUpdateAction _ _ x a, Some i =>
      if bool_decide (ji_progress i = JobRunning) && (ji_notification_index i <? x)%N
      then Some (set_update x (Some a) None i) else None
  | CUpdateByteCount _ _ x c m, Some i =>
      if bool_decide (ji_progress i = JobRunning) && (ji_notification_index i <? x)%N
      then Some (set_update x (ji_action i) (Some (c, m)) i) else None
  | _, _ => None
  end.

(** The notifications that are sent finish a job with a final state. *)
Definition sane n : Prop := match n with CFinish _ _ p => is_finished p = true | _ => True end.

Definition new_job n : nat := match n with CNew _ _ _ => 1 | _ => 0 end.
Definition now_finished n : list (Arena * JobId) := match n with CFinish _ _ _ => [global_job_id n] | _ => [] end.

(** The jobs before the oldest are dropped. *)
Record updated n i t t' : Prop := {
  up_limit : limit t' = limit t;
  up_finished : finished t' = drop (dropped_jobs (limit t) (base.size (jobs t) + new_job n) (finished t ++ now_finished n))
                  (finished t ++ now_finished n);
  up_jobs : ∀ k, jobs t' !! k =
    if decide (k ∈ take (dropped_jobs (limit t) (base.size (jobs t) + new_job n) (finished t ++ now_finished n))
                  (finished t ++ now_finished n)) then None
    else if decide (k = global_job_id n) then Some i else jobs t !! k;
}.

Lemma put_pre k i t :
  tracker_pre t → info_id i = k → (jobs t !! k = None ∨ ∃ i', jobs t !! k = Some i' ∧ done_job i' = false) →
  done_job i = false → tracker_pre (put_info k i t).
Proof.
  intros [H1 H2 H3] Hi Hk Hd. split; cbn [jobs finished put_info]; [| |done].
  - intros k' i' [[-> ->]|[_ H]]%lookup_insert_Some; [done|]. by apply H1.
  - intros k'. rewrite H2. destruct (decide (k = k')) as [<-|Hne]; [|by setoid_rewrite (lookup_insert_ne _ _ _ _ Hne)].
    setoid_rewrite (lookup_insert_eq (jobs t)). split.
    + intros (i' & E & ?). exfalso. destruct Hk as [?|(j & ? & ?)]; congruence.
    + intros (? & [= <-] & ?). congruence.
Qed.

Lemma quiet_update n i t :
  tracker_ok t → now_finished n = [] → new_job n = 0%nat → is_Some (jobs t !! global_job_id n) →
  updated n i t (put_info (global_job_id n) i t).
Proof.
  intros [_ Hl] Hf Hn Hs.
  assert (dropped_jobs (limit t) (base.size (jobs t) + new_job n) (finished t ++ now_finished n) = 0%nat) as E.
  { rewrite Hn, Hf, Nat.add_0_r, app_nil_r. unfold dropped_jobs. destruct Hl as [Hl | ->]; simpl; lia. }
  split; rewrite ?E; cbn [limit jobs finished put_info]; [done|by rewrite Hf, app_nil_r|].
  intros k. rewrite take_0, decide_False by set_solver. case_decide as Hk; [subst k; apply lookup_insert_eq|].
  by rewrite lookup_insert_ne.
Qed.

Lemma trimmed_update n i t t1 :
  tracker_pre t1 → limit t1 = limit t → finished t1 = finished t ++ now_finished n →
  base.size (jobs t1) = (base.size (jobs t) + new_job n)%nat → jobs t1 = <[global_job_id n := i]> (jobs t) →
  updated n i t (trim t1) ∧ tracker_ok (trim t1).
Proof.
  intros Hp Hl Hf Hs Hj. destruct (trim_run t1 Hp) as (H1 & H2 & H3 & H4). rewrite Hl, Hf, Hs in H2, H3.
  split; [|done]. split; [by rewrite H1|done|]. intros k. rewrite H3, Hj. repeat case_decide; try done.
  - subst k. apply lookup_insert_eq.
  - by rewrite lookup_insert_ne.
Qed.

Lemma tracker_update_run n t :
  tracker_ok t → sane n →
  match own_step n (jobs t !! global_job_id n) with
  | Some i => ∃ t', tracker_update n t = (true, t') ∧ updated n i t t' ∧ tracker_ok t'
  | None => tracker_update n t = (false, t)
  end.
Proof.
  intros Ht Hn. pose proof (tk_keys _ Ht) as Hkeys.
  assert (∀ i i', now_finished n = [] → new_job n = 0%nat → jobs t !! global_job_id n = Some i →
    done_job i = false → done_job i' = false → info_id i' = info_id i →
    ∃ t', (true, put_info (global_job_id n) i' t) = (true, t') ∧ updated n i' t t' ∧ tracker_ok t') as Hquiet.
  { intros i i' Hf Hw Hi Hd Hd' Hid. eexists. split; [done|]. split; [apply quiet_update; by eauto|]. split.
    - apply put_pre; [apply Ht|by rewrite Hid; apply Hkeys|right; by exists i|done].
    - cbn [limit jobs finished put_info]. rewrite map_size_insert_Some by by exists i. apply Ht. }
  unfold tracker_update. destruct n as [a id job|a id|a id p|a id x act|a id x c m]; simpl own_step; cbv zeta;
    change (global_job_id _) with (a, id) in *;
    destruct (jobs t !! (a, id)) as [i|] eqn:Ei; try done.
  - eexists. split; [done|]. apply trimmed_update; cbn [limit jobs finished put_info now_finished new_job].
    + apply put_pre; [apply Ht|done|by left|done].
    + done.
    + by rewrite app_nil_r.
    + rewrite map_size_insert_None by done. lia.
    + done.
  - case_bool_decide as Hp; [|done]. apply (Hquiet i); try done. unfold done_job. by rewrite Hp.
  - change (is_finished (ji_progress i)) with (done_job i). destruct (done_job i) eqn:Hd; [done|]. simpl negb. cbv iota.
    eexists. split; [done|]. destruct Ht as [[H1 H2 H3] H4].
    apply trimmed_update; cbn [limit jobs finished put_info push_finished now_finished new_job]; [|done|done| |done].
    + split; cbn [limit jobs finished put_info push_finished].
      * intros k' i' [[<- <-]|[_ H]]%lookup_insert_Some; [apply (Hkeys (a, id) i Ei)|by apply H1].
      * intros k'. rewrite elem_of_app, H2, list_elem_of_singleton.
        destruct (decide ((a, id) = k')) as [<-|Hne].
        -- setoid_rewrite (lookup_insert_eq (jobs t)). split; [|by right]. intros _. eexists. split; [done|exact Hn].
        -- setoid_rewrite (lookup_insert_ne _ _ _ _ Hne). naive_solver.
      * apply NoDup_app. split_and!; [done| |apply NoDup_singleton].
        intros k' (i' & Hi' & Hd')%H2 ->%list_elem_of_singleton. congruence.
    + rewrite map_size_insert_Some by by exists i. lia.
  - destruct (bool_decide (ji_progress i = JobRunning)) eqn:Hr; [|done]. apply bool_decide_eq_true in Hr.
    destruct (ji_notification_index i <? x)%N; [|done]. simpl.
    apply (Hquiet i); try done; unfold done_job; simpl; by rewrite Hr.
  - destruct (bool_decide (ji_progress i = JobRunning)) eqn:Hr; [|done]. apply bool_decide_eq_true in Hr.
    destruct (ji_notification_index i <? x)%N; [|done]. simpl.
    apply (Hquiet i); try done; unfold done_job; simpl; by rewrite Hr.
Qed.

(** ** Sequences of notifications *)

Definition own_next n (o : option JobInfo) : option JobInfo :=
  match own_step n o with Some i => Some i | None => o end.

Definition after n k (o : option JobInfo) : option JobInfo :=
  if decide (global_job_id n = k) then own_next n o else o.

(** A job is as its own notifications make it, unless it is finished and was dropped. *)
Lemma update_at n t k :
  tracker_ok t → sane n →
  let t' := (tracker_update n t).2 in
  tracker_ok t' ∧ limit t' = limit t ∧
  (jobs t' !! k = after n k (jobs t !! k) ∨
   (jobs t' !! k = None ∧ ∃ i, after n k (jobs t !! k) = Some i ∧ done_job i = true)).
Proof.
  intros Ht Hn. pose proof (tracker_update_run n t Ht Hn) as H. unfold after, own_next.
  destruct (own_step n (jobs t !! global_job_id n)) as [i|] eqn:Ei.
  2:{ rewrite H. split; [done|]. split; [done|]. left. simpl. case_decide as E; [|done]. subst k. by rewrite Ei. }
  destruct H as (t' & -> & [Hl _ Hj] & Ht'). simpl. split; [done|]. split; [done|]. rewrite Hj.
  case_decide as Hin.
  2:{ left. case_decide as E; [subst k; by rewrite decide_True, Ei|]. by rewrite decide_False. }
  apply elem_of_take in Hin as (x & Hin & _). apply list_elem_of_lookup_2, elem_of_app in Hin as [Hin|Hin].
  - right. split; [done|]. apply (tk_finished _ Ht) in Hin as (j & Hj' & Hd). case_decide as E.
    + subst k. exfalso. rewrite Hj' in Ei. unfold done_job in Hd.
      destruct n; simpl in Ei; repeat case_match; simplify_eq; unfold done_job in *; try congruence;
        repeat match goal with H : _ && _ = true |- _ => apply andb_prop in H as [H _] end;
        match goal with H : bool_decide _ = true |- _ => apply bool_decide_eq_true in H; by rewrite H in Hd end.
    + by exists j.
  - right. split; [done|]. destruct n; simpl in Hin; try by apply not_elem_of_nil in Hin.
    apply list_elem_of_singleton in Hin as ->. rewrite decide_True, Ei by done. exists i. split; [done|].
    simpl in Ei. destruct (jobs t !! _) as [j|]; [|done]. destruct (done_job j); [done|]. injection Ei as <-. exact Hn.
Qed.

Definition own_notifications k (ns : list ChurtenNotification) : list ChurtenNotification :=
  filter (λ n, global_job_id n = k) ns.
Definition own_all (ns : list ChurtenNotification) (o : option JobInfo) : option JobInfo :=
  foldl (λ o n, own_next n o) o ns.

Definition finishes n : Prop := now_finished n ≠ [].
#[global] Instance finishes_dec n : Decision (finishes n).
Proof. unfold finishes. apply _. Defined.

Lemma own_next_active n o :
  ¬ finishes n → (∀ i, o = Some i → done_job i = false) → ∀ i, own_next n o = Some i → done_job i = false.
Proof.
  intros Hf Ho i. unfold own_next. destruct n, o as [j|]; simpl; intros H; simplify_eq/=; try done;
    try (by apply Ho); repeat case_match; simplify_eq/=; try (by apply Ho); try done;
    try (unfold done_job; simpl; by apply Ho); by destruct Hf.
Qed.

(** However the notifications of several jobs are mixed, an active job is what its
    own notifications make of it. *)
Lemma updates_own ns t k :
  tracker_ok t → Forall sane ns → (∀ i, jobs t !! k = Some i → done_job i = false) →
  Forall (λ n, ¬ finishes n) (own_notifications k ns) →
  tracker_ok (tracker_updates ns t) ∧
  jobs (tracker_updates ns t) !! k = own_all (own_notifications k ns) (jobs t !! k).
Proof.
  revert t. induction ns as [|n ns IH]; intros t Ht Hs Ho Hf; [done|].
  apply Forall_cons in Hs as [Hn Hs]. unfold own_notifications in Hf. rewrite filter_cons in Hf.
  destruct (update_at n t k Ht Hn) as (Ht' & _ & H).
  assert (∀ i, after n k (jobs t !! k) = Some i → done_job i = false) as Ho'.
  { unfold after. case_decide; [|done]. apply own_next_active; [|done]. by apply Forall_cons in Hf as [? _]. }
  assert (jobs (tracker_update n t).2 !! k = after n k (jobs t !! k)) as E.
  { destruct H as [?|(_ & i & Hi & Hd)]; [done|]. apply Ho' in Hi. congruence. }
  destruct (IH (tracker_update n t).2 Ht' Hs) as [H1 H2].
  { by rewrite E. }
  { case_decide; [by apply Forall_cons in Hf as [_ ?]|done]. }
  split; [done|]. change (tracker_updates (n :: ns) t) with (tracker_updates ns (tracker_update n t).2).
  rewrite H2, E. unfold own_notifications, after. rewrite filter_cons. by case_decide.
Qed.

(** ** What is shown of a job *)

(** The last action, and the last byte count since. *)
Definition shown_step (s : option JobAction * option (N * N)) n : option JobAction * option (N * N) :=
  match n with
  | CUpdateAction _ _ _ a => (Some a, None)
  | CUpdateByteCount _ _ _ c m => (s.1, Some (c, m))
  | _ => s
  end.
Definition shown (ns : list ChurtenNotification) : option JobAction * option (N * N) :=
  foldl shown_step (None, None) ns.

(** The notifications of a reporter are numbered in order. *)
Fixpoint numbered (arena : Arena) (id : JobId) (x : N) (ns : list ChurtenNotification) : Prop :=
  match ns with
  | [] => True
  | n :: ns =>
      global_job_id n = (arena, id) ∧
      match n with CUpdateAction _ _ y _ | CUpdateByteCount _ _ y _ _ => y = x | _ => False end ∧
      numbered arena id (x + 1) ns
  end.

Lemma reports_numbered rs p :
  (tx_index p + N.of_nat (length rs) < u32_modulus)%N →
  let r := reports rs p in
  numbered (tx_arena p) (tx_job_id p) (tx_index p) r.1 ∧ (length r.1 ≤ length rs)%nat.
Proof.
  revert p. induction rs as [|r rs IH]; intros p Hx; [done|]. simpl in Hx.
  assert ((tx_index p + 1) mod u32_modulus = tx_index p + 1)%N as Em by (apply N.mod_small; lia).
  destruct r as [a|len c m]; simpl.
  - set (p' := {| tx_arena := _ |}). destruct (IH p') as [H1 H2]; [simpl; rewrite Em; lia|].
    destruct (reports rs p') as [ns' p'']. simpl in *. rewrite Em in H1. split; [done|lia].
  - unfold update_bytes. destruct (should_send len c m p); simpl.
    + set (p' := {| tx_arena := _ |}). destruct (IH p') as [H1 H2]; [simpl; rewrite Em; lia|].
      destruct (reports rs p') as [ns' p'']. simpl in *. rewrite Em in H1. split; [done|lia].
    + destruct (IH p) as [H1 H2]; [lia|]. destruct (reports rs p) as [ns' p'']. simpl in *. split; [done|lia].
Qed.

Lemma numbered_run arena id x ns i :
  numbered arena id x ns → ji_progress i = JobRunning → (ji_notification_index i < x)%N →
  own_all ns (Some i) = Some {|
    ji_arena := ji_arena i; ji_id := ji_id i; ji_job := ji_job i; ji_progress := JobRunning;
    ji_action := (foldl shown_step (ji_action i, ji_byte_progress i) ns).1;
    ji_byte_progress := (foldl shown_step (ji_action i, ji_byte_progress i) ns).2;
    ji_notification_index := if decide (ns = []) then ji_notification_index i else x + N.of_nat (length ns) - 1 |}%N ∧
  Forall (λ n, ¬ finishes n ∧ global_job_id n = (arena, id)) ns.
Proof.
  revert x i. induction ns as [|n ns IH]; intros x i Hn Hr Hx.
  { simpl. split; [|done]. f_equal. destruct i. simpl in *. by subst. }
  destruct Hn as (Hid & Hx' & Hn).
  assert (∃ i', own_step n (Some i) = Some i' ∧ ji_progress i' = JobRunning ∧ ji_notification_index i' = x ∧
    ji_arena i' = ji_arena i ∧ ji_id i' = ji_id i ∧ ji_job i' = ji_job i ∧
    (ji_action i', ji_byte_progress i') = shown_step (ji_action i, ji_byte_progress i) n) as (i' & E & H1 & H2 & H3 & H4 & H5 & H6).
  { destruct n; try done; subst index; simpl; rewrite bool_decide_true, (proj2 (N.ltb_lt _ _) Hx) by done; by eexists. }
  destruct (IH (x + 1)%N i' Hn H1) as [I1 I2]; [lia|]. split.
  - change (own_all (n :: ns) (Some i)) with (own_all ns (own_next n (Some i))). unfold own_next. rewrite E, I1, H3, H4, H5, H2.
    simpl foldl. rewrite <- H6. f_equal. f_equal. rewrite (decide_False (P := n :: ns = [])) by done. simpl length.
    case_decide; [subst ns; simpl; lia|lia].
  - constructor; [|done]. split; [|done]. unfold finishes. destruct n; try done; intros H; by apply H.
Qed.

Lemma run_job_numbered arena id rs :
  (N.of_nat (length rs) + 2 < u32_modulus)%N →
  ∃ ns, run_job_notifications arena id rs = CStart arena id :: ns ∧ numbered arena id 2 ns.
Proof.
  intros Hl. unfold run_job_notifications. eexists. split; [done|].
  apply (reports_numbered rs (with_min_byte_delta _ (adaptive _ (progress_new arena id)))). simpl. lia.
Qed.

Lemma reports_app rs1 rs2 p :
  reports (rs1 ++ rs2) p =
    let '(ns1, p1) := reports rs1 p in let '(ns2, p2) := reports rs2 p1 in (ns1 ++ ns2, p2).
Proof.
  revert p. induction rs1 as [|r rs1 IH]; intros p; simpl.
  - by destruct (reports rs2 p).
  - destruct (report r p) as [ns p1]. rewrite IH. destruct (reports rs1 p1) as [ns1 p2].
    destruct (reports rs2 p2) as [ns2 p3]. by rewrite app_assoc.
Qed.

Lemma shown_complete rs len c p : (shown (reports (rs ++ [ReportBytes len c c]) p).1).2 = Some (c, c).
Proof.
  rewrite reports_app. destruct (reports rs p) as [ns p1]. simpl. unfold update_bytes, should_send. rewrite N.eqb_refl.
  simpl. unfold shown. by rewrite foldl_app.
Qed.

Lemma active_count t :
  tracker_pre t → (length (active_jobs t) + length (finished t) = base.size (jobs t))%nat.
Proof.
  intros [Hk Hf Hnd]. unfold active_jobs, tracker_iter.
  assert (length (finished t) = length (filter (λ i, done_job i = true) (map_to_list (jobs t)).*2)) as ->.
  { rewrite <- (length_fmap info_id). apply Permutation_length, NoDup_Permutation; [done| |].
    - assert (∀ l : list ((Arena * JobId) * JobInfo), Forall (λ kv, info_id kv.2 = kv.1) l → NoDup l.*1 →
        NoDup (info_id <$> filter (λ i, done_job i = true) l.*2)) as H; [|apply H; [|apply NoDup_fst_map_to_list]].
      { induction l as [|[k i] l IH]; intros Hl Hl'; [constructor|]. apply Forall_cons in Hl as [E Hl].
        apply NoDup_cons in Hl' as [Hn Hl']. simpl in *. rewrite filter_cons. case_decide; [|by apply IH].
        simpl. apply NoDup_cons. split; [|by apply IH]. intros (j & Ej & [_ Hj]%list_elem_of_filter)%list_elem_of_fmap.
        apply Hn. apply list_elem_of_fmap in Hj as ([k' j'] & -> & Hj). rewrite Forall_forall in Hl.
        specialize (Hl _ Hj). simpl in *. apply list_elem_of_fmap. exists (k', j'). split; [|done]. simpl. congruence. }
      apply Forall_forall. intros [k i] Hi%elem_of_map_to_list. by apply Hk.
    - intros k. rewrite Hf, list_elem_of_fmap. setoid_rewrite list_elem_of_filter. setoid_rewrite list_elem_of_fmap. split.
      + intros (i & Hi & Hd). exists i. split; [symmetry; by apply Hk|]. split; [done|]. exists (k, i).
        split; [done|]. by apply elem_of_map_to_list.
      + intros (i & -> & Hd & [k' i'] & -> & Hi%elem_of_map_to_list). simpl in *. exists i'. by rewrite (Hk _ _ Hi). }
  rewrite <- length_map_to_list. clear. induction (map_to_list (jobs t)) as [|[k i] l IH]; [done|].
  rewrite fmap_cons, !filter_cons. cbn [snd]. unfold done_job in *. destruct (is_finished (ji_progress i));
    repeat case_decide; try done; cbn [length]; lia.
Qed.

Lemma init_pre l t :
  tracker_pre t → NoDup (info_id <$> l) → (∀ i, i ∈ l → jobs t !! info_id i = None) →
  tracker_pre (foldl init_step t l) ∧ limit (foldl init_step t l) = limit t.
Proof.
  revert t. induction l as [|i l IH]; intros t Ht Hnd Hl; [done|]. simpl in Hnd. apply NoDup_cons in Hnd as [Hi Hnd].
  pose proof (Hl i ltac:(by left)) as Hnew. destruct Ht as [H1 H2 H3].
  destruct (IH (init_step t i)) as [? ?]; [|done| |by split].
  - unfold init_step. split; cbn [jobs finished].
    + intros k j [[<- <-]|[_ H]]%lookup_insert_Some; [done|by apply H1].
    + intros k. rewrite elem_of_app, H2. unfold done_job. destruct (decide (info_id i = k)) as [<-|Hne].
      * setoid_rewrite (lookup_insert_eq (jobs t)). destruct (is_finished (ji_progress i)) eqn:E.
        -- split; [|by right; left]. intros _. by exists i.
        -- split; [|by intros (? & [= <-] & ?); congruence]. intros [(? & ? & _)|H]; [congruence|by apply not_elem_of_nil in H].
      * setoid_rewrite (lookup_insert_ne _ _ _ _ Hne). destruct (is_finished _); set_solver.
    + apply NoDup_app. split_and!; [done| |destruct (is_finished _); [apply NoDup_singleton|constructor]].
      intros k (j & Hj & _)%H2. destruct (is_finished _); [|by intros ?%not_elem_of_nil].
      intros ->%list_elem_of_singleton. congruence.
  - intros j Hj. cbn [jobs init_step]. rewrite lookup_insert_ne; [apply Hl; by right|].
    intros E. apply Hi, list_elem_of_fmap. by exists j.
Qed.

(** ** Properties *)

(** From a snapshot of jobs with distinct ids, and whatever notifications come in
    whatever order, the queue of the tracker holds exactly the finished jobs it
    keeps, once each; it never holds more jobs than its limit unless they are
    all active; and the number of active jobs is the number of jobs listed as
    active, the subtraction never going below zero. *)
Theorem tracker_reachable_inv (js : list JobInfo) t0 ns
  (Hjs : NoDup (info_id <$> js)) (Hns : Forall sane ns) :
  let t := tracker_updates ns (tracker_init js t0) in
  (∀ k i, jobs t !! k = Some i → info_id i = k) ∧
  (∀ k, k ∈ finished t ↔ ∃ i, jobs t !! k = Some i ∧ is_finished (ji_progress i) = true) ∧
  NoDup (finished t) ∧ limit t = limit t0 ∧
  ((base.size (jobs t) ≤ limit t)%nat ∨ finished t = []) ∧
  (is_u64 (tracker_len t) → active_len t = N.of_nat (length (active_jobs t))).
Proof.
  intros t. assert (tracker_ok t ∧ limit t = limit t0) as [Ht Hl].
  { unfold t, tracker_init. destruct (init_pre js (tracker_new (limit t0))) as [Hp Hl']; [|done|done|].
    { split; simpl; [by intros k i|intros k; split; [by intros ?%not_elem_of_nil|by intros (? & ? & _)]|constructor]. }
    destruct (trim_run _ Hp) as (E & _ & _ & Hok). rewrite Hl' in E. clear t Hp Hl'.
    generalize dependent (trim (foldl init_step (tracker_new (limit t0)) js)).
    induction ns as [|n ns IH]; intros t E Ht; [done|]. apply Forall_cons in Hns as [Hn Hns].
    destruct (update_at n t (global_job_id n) Ht Hn) as (Ht' & E' & _).
    apply (IH Hns (tracker_update n t).2); [by rewrite E'|done]. }
  split_and!; try apply Ht; [done|]. unfold is_u64, active_len, tracker_len. intros Hu.
  pose proof (active_count t Ht) as Hc. rewrite u64_sub_small by lia. lia.
Qed.

(** A notification is taken into account exactly when it is the next thing that
    can happen to its job: then only that job changes, and the oldest finished jobs
    make room, no more of them than is needed; otherwise nothing changes.  A
    notification that was taken into account is ignored when it comes again. *)
Theorem tracker_update_spec n t (Ht : tracker_ok t) (Hn : sane n) :
  match own_step n (jobs t !! global_job_id n) with
  | Some i => ∃ t', tracker_update n t = (true, t') ∧ updated n i t t' ∧ tracker_ok t' ∧
                    tracker_update n t' = (false, t')
  | None => tracker_update n t = (false, t)
  end.
Proof.
  pose proof (tracker_update_run n t Ht Hn) as H. destruct (own_step n (jobs t !! global_job_id n)) as [i|] eqn:Ei; [|done].
  destruct H as (t' & E & Hu & Ht'). exists t'. split_and!; [done..|].
  destruct (update_at n t (global_job_id n) Ht Hn) as (_ & _ & Ha). rewrite E in Ha. simpl in Ha.
  pose proof (tracker_update_run n t' Ht' Hn) as H'. unfold after, own_next in Ha. rewrite decide_True, Ei in Ha by done.
  enough (own_step n (jobs t' !! global_job_id n) = None) as En by (by rewrite En in H').
  destruct Ha as [->|[-> (j & [= <-] & Hd)]]; destruct n, (jobs t !! _) as [j|]; simplify_eq/=; try done.
  - by case_bool_decide; simplify_eq/=.
  - destruct (done_job j); simplify_eq/=. unfold done_job. simpl. simpl in Hn. by rewrite Hn.
  - destruct (bool_decide _), (_ <? _)%N; simplify_eq/=. by rewrite N.ltb_irrefl, andb_false_r.
  - destruct (bool_decide _), (_ <? _)%N; simplify_eq/=. by rewrite N.ltb_irrefl, andb_false_r.
Qed.

Lemma own_filter_app k ns1 ns2 : own_notifications k (ns1 ++ ns2) = own_notifications k ns1 ++ own_notifications k ns2.
Proof. apply filter_app. Qed.

(** While a job runs, and however what is sent of it is mixed with what is sent
    of other jobs, the tracker shows it as running, with the last action that it
    reported and the last byte count that was sent since: none of its notifications
    is lost or taken for a duplicate.  When its result comes it is recorded, or the
    job is dropped at once.  A count that reaches the total is always sent. *)
Theorem job_is_tracked ns t arena id job rs
  (Ht : tracker_ok t) (Hns : Forall sane ns) (Hnew : jobs t !! (arena, id) = None)
  (Hrs : (N.of_nat (length rs) + 2 < u32_modulus)%N)
  (Hown : own_notifications (arena, id) ns = CNew arena id job :: run_job_notifications arena id rs) :
  let t' := tracker_updates ns t in
  let s := shown (run_job_notifications arena id rs) in
  (∃ i, jobs t' !! (arena, id) = Some i ∧ info_id i = (arena, id) ∧ ji_job i = job ∧ ji_progress i = JobRunning ∧
        ji_action i = s.1 ∧ ji_byte_progress i = s.2) ∧
  (∀ rs' len c, rs = rs' ++ [ReportBytes len c c] → s.2 = Some (c, c)) ∧
  ∀ cancelled status,
    let p := finish_progress cancelled status in
    ∃ t'', tracker_update (CFinish arena id p) t' = (true, t'') ∧
      (jobs t'' !! (arena, id) = None ∨
       ∃ i, jobs t'' !! (arena, id) = Some i ∧ ji_job i = job ∧ ji_progress i = p ∧ ji_action i = None).
Proof.
  intros t' s. destruct (run_job_numbered arena id rs Hrs) as (ns' & Ens & Hnum).
  set (i0 := {| ji_arena := arena; ji_id := id; ji_job := job; ji_progress := JobRunning; ji_action := None;
                ji_byte_progress := None; ji_notification_index := 0 |}).
  destruct (numbered_run arena id 2 ns' i0 Hnum) as [Hall Hf]; [done|done|].
  destruct (updates_own ns t (arena, id) Ht Hns) as [Ht' E].
  { by rewrite Hnew. }
  { rewrite Hown, Ens. constructor; [intros H; by apply H|]. constructor; [intros H; by apply H|].
    eapply Forall_impl; [exact Hf|]. by intros n [? _]. }
  fold t' in Ht', E. rewrite Hnew, Hown, Ens in E.
  change (jobs t' !! (arena, id) = own_all ns' (Some i0)) in E. rewrite Hall in E.
  change ((foldl shown_step _ ns')) with (shown (CStart arena id :: ns')) in E.
  rewrite <- Ens in E. fold s in E. split; [by eexists|]. split.
  - intros rs' len c ->. unfold s, run_job_notifications.
    apply (shown_complete rs' len c (with_min_byte_delta _ (adaptive _ (progress_new arena id)))).
  - intros cancelled status p. assert (is_finished p = true) as Hp by by destruct status as [[]|], cancelled.
    pose proof (tracker_update_run (CFinish arena id p) t' Ht' Hp) as H.
    destruct (update_at (CFinish arena id p) t' (arena, id) Ht' Hp) as (_ & _ & Ha). unfold after, own_next in Ha.
    change (global_job_id (CFinish arena id p)) with (arena, id) in *. rewrite E in H, Ha.
    rewrite decide_True in Ha by done. cbn [own_step done_job ji_progress is_finished] in H, Ha.
    destruct H as (t'' & H & _). exists t''. split; [done|]. rewrite H in Ha. cbn [snd] in Ha.
    destruct Ha as [->|[-> _]]; [|by left]. right. by eexists.
Qed.

(** The retry of a job that failed goes unseen: it has the id of the job that
    failed, so as long as that one is kept nothing that is sent of the retry is taken
    into account, and the job stays shown as failed, also when the retry succeeds. *)
Theorem retry_goes_unseen t arena id i error job rs cancelled status
  (Hi : jobs t !! (arena, id) = Some i) (Hfailed : ji_progress i = JobFailed error)
  (Hrs : (N.of_nat (length rs) + 2 < u32_modulus)%N) :
  tracker_updates (job_notifications arena id job rs cancelled status) t = t.
Proof.
  assert (∀ ns, Forall (λ n, global_job_id n = (arena, id)) ns → tracker_updates ns t = t) as H.
  { induction ns as [|n ns IH]; intros Hf; [done|]. apply Forall_cons in Hf as [Hn Hf].
    change (tracker_updates ns (tracker_update n t).2 = t).
    assert (tracker_update n t = (false, t)) as ->; [|by apply IH].
    unfold tracker_update. rewrite Hn, Hi. destruct n; try done; by rewrite Hfailed. }
  apply H. unfold job_notifications. destruct (run_job_numbered arena id rs Hrs) as (ns & -> & Hnum).
  constructor; [done|]. apply Forall_app. split; [|by repeat constructor]. constructor; [done|].
  clear -Hnum. generalize dependent 2%N. induction ns as [|n ns IH]; intros x Hx; [constructor|].
  destruct Hx as (H & _ & Hx). constructor; [done|]. by eapply IH.
Qed.

(** ** Witnesses *)

Section witnesses.
Definition the_arena : Arena := mkArena "a".
Definition job1 : Job := JDownload (mkPath "a.txt") (mkHash []).
Definition reports1 : list Report :=
  [ReportAction ActionDownload; ReportBytes 0 0 200000; ReportBytes 0 100 200000;
   ReportBytes 5 100000 200000; ReportBytes 100 200000 200000].
Definition tracker1 : JobInfoTracker :=
  tracker_updates (job_notifications the_arena 1 job1 reports1 false (Err "gone")) (tracker_new 1).
(** Two jobs whose notifications are mixed. *)
Definition mixed : list ChurtenNotification :=
  CNew the_arena 2 job1 :: CNew the_arena 3 job1 :: CStart the_arena 3 ::
  run_job_notifications the_arena 2 reports1 ++ [CFinish the_arena 3 JobDone].

Lemma sane1 : Forall sane mixed.
Proof. vm_compute. by repeat constructor. Qed.
Lemma sane2 : Forall sane (job_notifications the_arena 1 job1 reports1 false (Err "gone")).
Proof. vm_compute. by repeat constructor. Qed.

Lemma tracker_new_ok limit : tracker_ok (tracker_new limit).
Proof.
  split; [split|]; simpl; [by intros|intros k; split; [by intros ?%not_elem_of_nil|by intros (? & ? & _)]|constructor|by right].
Qed.

Lemma tracker1_ok : tracker_ok tracker1.
Proof.
  unfold tracker1. generalize (tracker_new_ok 1). generalize (tracker_new 1). generalize sane2.
  induction (job_notifications _ _ _ _ _ _) as [|n ns IH]; intros Hs t Ht; [done|]. apply Forall_cons in Hs as [Hn Hs].
  apply (IH Hs (tracker_update n t).2). apply (update_at n t (global_job_id n) Ht Hn).
Qed.

(** The second of the byte counts is too close to the first to be sent. *)
Example reports1_sent :
  run_job_notifications the_arena 2 reports1 =
  [CStart the_arena 2; CUpdateAction the_arena 2 2 ActionDownload; CUpdateByteCount the_arena 2 3 0 200000;
   CUpdateByteCount the_arena 2 4 100000 200000; CUpdateByteCount the_arena 2 5 200000 200000].
Proof. by vm_compute. Qed.

Example tracker_reachable_inv_witness :
  let t := tracker_updates mixed (tracker_init (tracker_iter tracker1) (tracker_new 2)) in
  finished t = [(the_arena, 3%N)] ∧ active_len t = 1%N ∧ NoDup (finished t).
Proof.
  split; [by vm_compute|]. split; [by vm_compute|].
  destruct (tracker_reachable_inv (tracker_iter tracker1) (tracker_new 2) mixed) as (_ & _ & H & _); [|exact sane1|exact H].
  assert (info_id <$> tracker_iter tracker1 = [(the_arena, 1%N)]) as -> by by vm_compute. apply NoDup_singleton.
Defined.

Example tracker_update_spec_witness :
  tracker_update (CNew the_arena 2 job1) tracker1 =
    (true, tracker_updates [CNew the_arena 2 job1] (tracker_new 1)) ∧
  tracker_update (CNew the_arena 2 job1) (tracker_updates [CNew the_arena 2 job1] (tracker_new 1)) =
    (false, tracker_updates [CNew the_arena 2 job1] (tracker_new 1)).
Proof.
  pose proof (tracker_update_spec (CNew the_arena 2 job1) tracker1 tracker1_ok ltac:(done)) as H.
  assert (jobs tracker1 !! global_job_id (CNew the_arena 2 job1) = None) as E by by vm_compute. rewrite E in H.
  destruct H as (t' & H1 & _ & _ & H2).
  assert (t' = tracker_updates [CNew the_arena 2 job1] (tracker_new 1)) as ->; [|by split].
  assert (t' = (tracker_update (CNew the_arena 2 job1) tracker1).2) as -> by by rewrite H1.
  clear. by vm_compute.
Defined.

Example job_is_tracked_witness :
  ∃ i, jobs (tracker_updates (take 8 mixed) tracker1) !! (the_arena, 2%N) = Some i ∧
    ji_progress i = JobRunning ∧ ji_action i = Some ActionDownload ∧ ji_byte_progress i = Some (200000, 200000)%N.
Proof.
  destruct (job_is_tracked (take 8 mixed) tracker1 the_arena 2 job1 reports1) as [(i & H1 & _ & _ & H2 & H3 & H4) _];
    [exact tracker1_ok|apply Forall_take, sane1|by vm_compute|by vm_compute|by vm_compute|].
  exists i. split; [exact H1|]. split; [exact H2|]. split; [rewrite H3; by vm_compute|rewrite H4; by vm_compute].
Defined.

Example retry_goes_unseen_witness :
  tracker_updates (job_notifications the_arena 1 job1 reports1 false (Ok Done)) tracker1 = tracker1 ∧
  ji_progress <$> jobs tracker1 !! (the_arena, 1%N) = Some (JobFailed "gone").
Proof.
  destruct (jobs tracker1 !! (the_arena, 1%N)) as [i|] eqn:Ei; [|by vm_compute in Ei].
  assert (ji_progress <$> Some i = Some (JobFailed "gone")) as Ep by (rewrite <- Ei; clear; by vm_compute).
  split; [|exact Ep]. injection Ep as Ep.
  by apply (retry_goes_unseen tracker1 the_arena 1 i "gone" job1 reports1 false (Ok Done) Ei Ep).
Defined.
End witnesses.
