(* ===== verification/Jobs.v ===== *)
(** * Running the jobs

    [crate/realize-core/src/consensus/jobs.rs]: downloading the version of a file
    that is presented, verifying and repairing it, and moving it in or out of the
    arena; and the dispatch of [churten.rs].

    The content of an open blob is that of its file in [fs].  The peers are a
    parameter: what [Household::read] and [Household::rsync] answer, which may be
    anything at any time, the end of a stream by an error or by the cancellation of
    the job included.  The digest and the rsync algorithm are the crates blake2 and
    fast_rsync, parameters too.  Nothing else changes the database while a job runs,
    and the local disk does not fail. *)
From Stdlib Require Import Strings.Byte.
From S2P Require Import Prelude Bytes Range RangeSet Redb Path Types Db Dirty InodeAllocator Blob Index Dirs ArenaCache CacheInv CacheSpec Realize.
Local Open Scope N_scope.
Local Open Scope realize_scope.

(** The errors of a job: those of the storage, of the open file, of the peers (a
    cancellation included), of rsync, a failed assertion, and a content that is still
    wrong after the repair. *)
Inductive JobError : Type :=
| JobStorage (e : StorageError)
| JobIo (e : IoError)
| JobUnexpectedEof
| JobPeer (error : string)
| JobRsync
| JobPanic
| JobInconsistent.

Definition chunk : Type := N * list byte.

Section jobs.
Context {R : Redb} {B : Bimap}.
Context (arena : Arena) (arena_root : Inode) (blob_dir : string) (now : UnixTime).
Context (digest : list byte → Hash).
Context (Signature Delta : Type).
Context (signature : list byte → Signature).
(** [fast_rsync::apply_limited] *)
Context (apply_limited : list byte → Delta → N → option (list byte)).
(** [Household::read] and [Household::rsync] *)
Context (household_read : list Peer → Path → N → option N → result string (list (result string chunk))).
Context (household_rsync : list Peer → Path → ByteRange → Signature → result string Delta).

(** ** An open file *)

(** An operation on an open blob. *)
Definition HandleM (A : Type) : Type := StateM (Blob * World) JobError A.

Definition file_data (b : Blob) (w : World) : list byte :=
  match fs (w_ext w) !! blob_path blob_dir (blob_id b) with Some f => f_data f | None => [] end.

Definition set_world_fs (x : Fs) (w : World) : World :=
  {| db := db w; w_ext := {| fs := x; global := global (w_ext w) |};
     watch_tx := watch_tx w; history_tx := history_tx w |}.

Definition blob_read (n : N) : HandleM (list byte) := λ '(b, w),
  match poll_read (λ k, Ready (Ok (read_at (offset b) k (file_data b w)))) n b with
  | (Ready (Ok d), b) => (Ok d, (b, w))
  | (Ready (Err e), b) => (Err (JobIo e), (b, w))
  | (Pending, b) => (Ok [], (b, w))
  end.

Definition blob_seek (o : N) : HandleM () := λ '(b, w), (Ok tt, ((poll_complete (Ready (Ok o)) b).2, w)).

Definition blob_write_all (d : list byte) : HandleM () := λ '(b, w),
  match d with
  | [] => (Ok tt, (b, w))
  | _ =>
      let f := {| f_data := write_at (offset b) d (file_data b w); f_mtime := now |} in
      (Ok tt, ((poll_write (Ready (Ok (N.of_nat (length d)))) b).2,
               set_world_fs (<[blob_path blob_dir (blob_id b) := f]> (fs (w_ext w))) w))
  end.

(** [read_exact]; a read returns at least a byte until the end. *)
Fixpoint read_exact_loop (fuel : nat) (n : N) (acc : list byte) : HandleM (list byte) :=
  match fuel with
  | O => sthrow JobUnexpectedEof
  | S fuel =>
      if n =? 0 then sret acc
      else
        let* d := blob_read n in
        match d with
        | [] => sthrow JobUnexpectedEof
        | _ => read_exact_loop fuel (n - N.of_nat (length d)) (acc ++ d)
        end
  end.
Definition blob_read_exact (n : N) : HandleM (list byte) := read_exact_loop (S (N.to_nat n)) n [].

(** [hash_file] and [Blob::compute_hash]: [ReaderStream] reads 8 kB at a time, up to
    the first read that returns nothing. *)
Fixpoint hash_loop (fuel : nat) (acc : list byte) : HandleM Hash :=
  match fuel with
  | O => sthrow JobUnexpectedEof
  | S fuel =>
      let* d := blob_read (8 * 1024) in
      match d with
      | [] => sret (digest acc)
      | _ => hash_loop fuel (acc ++ d)
      end
  end.
Definition compute_hash : HandleM Hash := λ '(b, w),
  (let* _ := (if offset b =? 0 then sret tt else blob_seek 0) in
   hash_loop (S (S (N.to_nat (b_size b)))) []) (b, w).

Definition h_update_db : HandleM () := λ '(b, w),
  match update_db (Ok tt) b w with
  | (Ok _, b, w) => (Ok tt, (b, w))
  | (Err e, b, w) => (Err (JobStorage e), (b, w))
  end.
Definition h_mark_verified : HandleM () := λ '(b, w),
  match mark_verified (Ok tt) b w with
  | (Ok _, b, w) => (Ok tt, (b, w))
  | (Err e, b, w) => (Err (JobStorage e), (b, w))
  end.

(** ** Downloading *)

Definition RSYNC_BLOCK_SIZE : N := 32 * 1024.

(** The chunks of a stream, up to the first error. *)
Fixpoint write_stream (stream : list (result string chunk)) : HandleM () :=
  match stream with
  | [] => sret tt
  | Err e :: _ => sthrow (JobPeer e)
  | Ok (chunk_offset, d) :: stream =>
      let* off := sget (λ s, offset s.1) in
      do* (if chunk_offset =? off then sret tt else blob_seek chunk_offset) in
      do* blob_write_all d in
      write_stream stream
  end.

Definition read_range (path : Path) (peers : list Peer) (range : ByteRange) : HandleM () :=
  match household_read peers path (start range) (Some (ByteRange.bytecount range)) with
  | Err e => sthrow (JobPeer e)
  | Ok stream => write_stream stream
  end.

Definition missing_ranges (b : Blob) : ByteRanges :=
  ByteRanges.subtraction (ByteRanges.single 0 (b_size b)) (available_ranges b).

(** [write_to_blob] *)
Definition write_to_blob (path : Path) (peers : list Peer) : HandleM () :=
  let* missing := sget (λ s, missing_ranges s.1) in
  if ByteRanges.is_empty missing then sret tt
  else sfor (ByteRanges.iter missing) (read_range path peers).

(** ** Verifying and repairing *)

Definition repair_range (path : Path) (peers : list Peer) (range : ByteRange) : HandleM () :=
  let range_len := ByteRange.bytecount range in
  let* limited_buf := blob_read_exact range_len in
  match household_rsync peers path range (signature limited_buf) with
  | Err e => sthrow (JobPeer e)
  | Ok delta =>
      match apply_limited limited_buf delta range_len with
      | None => sthrow JobRsync
      | Some fixed_buf =>
          (* assert_eq!(range_len, fixed_buf.len()) *)
          if negb (N.of_nat (length fixed_buf) =? range_len) then sthrow JobPanic
          else do* blob_seek (start range) in blob_write_all fixed_buf
      end
  end.

(** The part of [verify] that works on the open blob; the peers are only looked for
    when the content is wrong. *)
Definition repair (path : Path) (hash : Hash) (peers : list Peer) : HandleM JobStatus :=
  match peers with
  | [] => sret Abandoned
  | _ =>
      do* blob_seek 0 in
      let* size := sget (λ s, b_size s.1) in
      do* sfor (default [] (ByteRanges.chunked (ByteRanges.single 0 size) RSYNC_BLOCK_SIZE))
            (repair_range path peers) in
      let* content_hash := compute_hash in
      if negb (bool_decide (content_hash = hash)) then sthrow JobInconsistent
      else do* h_mark_verified in sret Done
  end.

Definition verify_blob (path : Path) (inode : Inode) (hash : Hash) : HandleM JobStatus :=
  let* blob_hash := sget (λ s, b_hash s.1) in
  if negb (bool_decide (blob_hash = hash)) then sret Abandoned
  else
    let* content_hash := compute_hash in
    if bool_decide (content_hash = hash) then do* h_mark_verified in sret Done
    else
      let* c := sget (λ s, cache (db s.2)) in
      match do_file_availability c inode arena with
      | Err e => sthrow (JobStorage e)
      | Ok av => repair path hash (av_peers av)
      end.

(** ** The jobs *)

Definition JobM (A : Type) : Type := StateM World JobError A.

Definition storage {A} (m : WorldM A) : JobM A := λ w,
  match m w with (Ok a, w) => (Ok a, w) | (Err e, w) => (Err (JobStorage e), w) end.

(** Open the blob of a file, use it, and close it. *)
Definition with_blob {A} (inode : Inode) (m : HandleM A) : JobM A :=
  let* b := storage (open_file blob_dir now inode) in
  λ w, let '(r, (_, w)) := m (b, w) in (r, w).

Definition verify (path : Path) (inode : Inode) (hash : Hash) : JobM JobStatus :=
  with_blob inode (verify_blob path inode hash).

(** The part of [download] that works on the open blob: [None] when the blob is that of
    another version; the written areas are reported also when it failed. *)
Definition fetch (path : Path) (hash : Hash) (peers : list Peer) : HandleM (option ()) :=
  let* blob_hash := sget (λ s, b_hash s.1) in
  if negb (bool_decide (blob_hash = hash)) then sret None
  else λ s,
    let '(res, s) := write_to_blob path peers s in
    match h_update_db s with
    | (Ok _, s) => match res with Ok _ => (Ok (Some tt), s) | Err e => (Err e, s) end
    | (Err e, s) => (Err e, s)
    end.

Definition download (path : Path) (hash : Hash) : JobM JobStatus := λ w,
  match do_lookup_path (cache_directory_table (cache (db w))) arena_root (Some path) with
  | Err NotFound => (Ok Abandoned, w)
  | Err e => (Err (JobStorage e), w)
  | Ok (inode, _) =>
      match cache_local_availability (db w) inode with
      | Err e => (Err (JobStorage e), w)
      | Ok Verified => (Ok Done, w)
      | Ok Complete => verify path inode hash w
      | Ok (Missing | Partial _ _) =>
          match do_file_availability (cache (db w)) inode arena with
          | Err e => (Err (JobStorage e), w)
          | Ok av =>
              match av_peers av with
              | [] => (Ok Abandoned, w)
              | peers =>
                  (let* fetched := with_blob inode (fetch path hash peers) in
                   match fetched with
                   | None => sret Abandoned
                   | Some _ => verify path inode hash
                   end) w
              end
          end
      end
  end.

Definition job_realize (root : option string) (path : Path) (hash : Hash) (index_hash : option Hash) : JobM JobStatus :=
  let* download_status := download path hash in
  if negb (bool_decide (download_status = Done)) then sret download_status
  else
    let* moved := storage (realize arena arena_root blob_dir root path hash index_hash) in
    sret (if (moved : bool) then Done else Abandoned).

Definition job_unrealize (root : option string) (path : Path) (hash : Hash) : JobM JobStatus :=
  let* moved := storage (unrealize arena arena_root blob_dir root path hash) in
  sret (if (moved : bool) then Done else Abandoned).

(** [JobHandlerImpl::run] *)
Definition run (root : option string) (job : Job) : JobM JobStatus :=
  match job with
  | JDownload path hash => download path hash
  | JRealize path hash index_hash => job_realize root path hash index_hash
  | JUnrealize path hash => job_unrealize root path hash
  end.

(** ** What the operations on a handle do *)

Context `{!RedbLaws R}.
Implicit Types (b : Blob) (w : World) (s : Blob * World) (l : list chunk) (path : Path).

(** The bytes of a chunk, and the content of a file after chunks were written to it. *)
Definition chunk_end (c : chunk) : N := c.1 + N.of_nat (length c.2).
Definition chunk_range (c : chunk) : ByteRange := ByteRange.new c.1 (chunk_end c).
Definition wrote (l : list chunk) (data : list byte) : list byte :=
  foldl (λ data c, write_at c.1 c.2 data) data l.

(** From [s] to [s'] the chunks [l] were written, and nothing else changed. *)
Record handled s s' (l : list chunk) : Prop := {
  hd_id : blob_id s'.1 = blob_id s.1;
  hd_size : b_size s'.1 = b_size s.1;
  hd_hash : b_hash s'.1 = b_hash s.1;
  hd_avail : wf (available_ranges s.1) → wf (available_ranges s'.1) ∧
    ∀ x, mem (available_ranges s'.1) x = mem (available_ranges s.1) x || covered (chunk_range <$> l) x;
  hd_pending : wf (pending_ranges s.1) → wf (pending_ranges s'.1) ∧
    ∀ x, mem (pending_ranges s'.1) x = mem (pending_ranges s.1) x || covered (chunk_range <$> l) x;
  hd_db : db s'.2 = db s.2;
  hd_file : is_Some (fs (w_ext s.2) !! blob_path blob_dir (blob_id s.1)) →
    is_Some (fs (w_ext s'.2) !! blob_path blob_dir (blob_id s.1)) ∧
    file_data s.1 s'.2 = wrote l (file_data s.1 s.2);
  hd_others : ∀ x, x ≠ blob_path blob_dir (blob_id s.1) → fs (w_ext s'.2) !! x = fs (w_ext s.2) !! x;
  hd_global : global (w_ext s'.2) = global (w_ext s.2);
}.

Lemma file_data_id b b' w : blob_id b' = blob_id b → file_data b' w = file_data b w.
Proof. intros E. unfold file_data. by rewrite E. Qed.

Lemma handled_refl s : handled s s [].
Proof. split; try done; intros Hw; (split; [done|intros x; by rewrite orb_false_r]). Qed.

Lemma covered_app l1 l2 x : covered (chunk_range <$> (l1 ++ l2)) x = covered (chunk_range <$> l1) x || covered (chunk_range <$> l2) x.
Proof. rewrite fmap_app. apply existsb_app. Qed.

Lemma handled_trans s1 s2 s3 l1 l2 : handled s1 s2 l1 → handled s2 s3 l2 → handled s1 s3 (l1 ++ l2).
Proof.
  intros [A1 A2 A3 A4 A5 A6 A7 A8 A9] [B1 B2 B3 B4 B5 B6 B7 B8 B9]. rewrite A1 in *. split; try congruence.
  - intros Hw. destruct (A4 Hw) as [Hw2 M2]. destruct (B4 Hw2) as [Hw3 M3]. split; [done|].
    intros x. by rewrite M3, M2, covered_app, orb_assoc.
  - intros Hw. destruct (A5 Hw) as [Hw2 M2]. destruct (B5 Hw2) as [Hw3 M3]. split; [done|].
    intros x. by rewrite M3, M2, covered_app, orb_assoc.
  - intros Hf. destruct (A7 Hf) as [H1 H2]. destruct (B7 H1) as [H3 H4]. split; [done|].
    rewrite (file_data_id s1.1 s2.1) in H4 by done. rewrite (file_data_id s1.1 s2.1) in H4 by done.
    rewrite H4, H2. unfold wrote. by rewrite foldl_app.
  - intros x Hx. by rewrite B8, A8.
Qed.

Lemma set_offset_handled o b w : handled (b, w) (set_offset o b, w) [].
Proof. split; simpl; try done; intros Hw; (split; [done|intros x; by rewrite orb_false_r]). Qed.

Lemma seek_handled o b w : blob_seek o (b, w) = (Ok tt, (set_offset o b, w)).
Proof. done. Qed.

Lemma write_handled d b w :
  offset b + N.of_nat (length d) < u64_modulus →
  ∃ s', blob_write_all d (b, w) = (Ok tt, s') ∧ handled (b, w) s' [(offset b, d)] ∧
    offset s'.1 = offset b + N.of_nat (length d).
Proof.
  intros Hu. destruct (decide (d = [])) as [->|Hd].
  { exists (b, w). split; [done|]. simpl. split; [|lia].
    assert (∀ x, ByteRange.contains (chunk_range (offset b, [])) x = false) as Hc.
    { intros x. apply not_true_iff_false. rewrite contains_iff. unfold chunk_range, chunk_end. simpl. lia. }
    by split; simpl; try done; intros Hw; (split; [done|]); intros x; rewrite Hc, !orb_false_r. }
  assert (0 < N.of_nat (length d)) as Hpos by (destruct d; simpl; [done|lia]).
  set (f := {| f_data := write_at (offset b) d (file_data b w); f_mtime := now |}).
  set (w' := set_world_fs (<[blob_path blob_dir (blob_id b) := f]> (fs (w_ext w))) w).
  assert (blob_write_all d (b, w) = (Ok tt, ((poll_write (Ready (Ok (N.of_nat (length d)))) b).2, w'))) as ->
    by by destruct d.
  eexists. split; [done|]. unfold poll_write. rewrite (proj2 (N.ltb_lt _ _) Hpos), u64_add_small by done. simpl. split; [|done].
  assert (∀ r x, wf r → wf (ByteRanges.add r (ByteRange.new (offset b) (offset b + N.of_nat (length d)))) ∧
    mem (ByteRanges.add r (ByteRange.new (offset b) (offset b + N.of_nat (length d)))) x =
    mem r x || covered (chunk_range <$> [(offset b, d)]) x) as Hadd.
  { intros r x Hw. destruct (add_spec r (ByteRange.new (offset b) (offset b + N.of_nat (length d))) Hw) as [H1 H2].
    split; [done|]. rewrite H2. unfold covered. simpl. by rewrite orb_false_r. }
  split; simpl; try done.
  - intros Hw. split; [apply (Hadd _ 0 Hw)|intros x; apply (Hadd _ x Hw)].
  - intros Hw. split; [apply (Hadd _ 0 Hw)|intros x; apply (Hadd _ x Hw)].
  - intros _. unfold file_data. simpl. rewrite !lookup_insert_eq. by split; [eexists|].
  - intros x Hx. by rewrite lookup_insert_ne.
Qed.

(** ** Reading *)

(** A handle that can be read: its areas are well formed and its file is there, as
    long as it should be. *)
Record readable s : Prop := {
  rd_wf : wf (available_ranges s.1);
  rd_bounded : ∀ x, mem (available_ranges s.1) x = true → x + 1 < u64_modulus;
  rd_size : b_size s.1 < u64_modulus;
  rd_len : N.of_nat (length (file_data s.1 s.2)) = b_size s.1;
}.

Lemma read_run n b w :
  readable (b, w) → 0 < n → offset b ≤ b_size b →
  match blob_read n (b, w) with
  | (Ok d, s') => s' = (set_offset (offset b + N.of_nat (length d)) b, w) ∧
      d = read_at (offset b) (N.of_nat (length d)) (file_data b w) ∧
      (∀ x, offset b ≤ x → x < offset b + N.of_nat (length d) → mem (available_ranges b) x = true) ∧
      (d = [] → b_size b ≤ offset b) ∧ N.of_nat (length d) ≤ n ∧ offset b + N.of_nat (length d) ≤ b_size b
  | (Err e, s') => s' = (b, w) ∧ e = JobIo BlobIncomplete ∧ offset b < b_size b ∧ mem (available_ranges b) (offset b) = false
  end.
Proof.
  intros [Hw Hb Hs Hl] Hn Ho. simpl in *. unfold blob_read, poll_read.
  destruct (readable_length_run b (offset b) n Hw) as [H1 H2]; [|done|].
  { intros c Hc. by eapply bounded_ends. }
  destruct (readable_length b (offset b) n) as [k|].
  2:{ split_and!; try done; by apply H2. }
  destruct (H1 k eq_refl) as (K1 & K2 & K3 & _). destruct (N.eqb_spec k 0) as [->|Hk].
  { simpl. rewrite N.add_0_r. split_and!; try done; try (intros; lia). by destruct b. }
  assert (offset b < b_size b) as Hlt by (apply N.nle_gt; intros ?; apply Hk, K3; by right).
  set (d := read_at (offset b) k (file_data b w)).
  assert (length d ≤ N.to_nat k)%nat as Hd by (unfold d, read_at; rewrite length_take; lia).
  assert (d ≠ []) as Hne.
  { intros E%(f_equal length). unfold d, read_at in E. rewrite length_take, length_drop in E. simpl in E. lia. }
  assert (offset b + N.of_nat (length d) < u64_modulus) as Hu.
  { destruct (decide (length d = 0%nat)); [lia|].
    assert (mem (available_ranges b) (offset b + N.of_nat (length d) - 1) = true) as H%Hb by (apply K2; lia). lia. }
  assert (offset b + N.of_nat (length d) ≤ b_size b) as Hend.
  { unfold d, read_at. rewrite length_take, length_drop. lia. }
  rewrite u64_add_small by done. split_and!; [done| | |done|lia|done].
  - unfold d, read_at. rewrite Nat2N.id, length_take.
    destruct (Nat.min_spec (N.to_nat k) (length (drop (N.to_nat (offset b)) (file_data b w)))) as [[_ ->]|[? ->]]; [done|].
    by rewrite !take_ge by lia.
  - intros x ??. apply K2; lia.
Qed.

Definition full_to (r : ByteRanges) (n : N) : Prop := ∀ x, x < n → mem r x = true.

(** Hashing reads the file from the start to its end, or stops at the first byte that
    is not there. *)
Lemma hash_loop_run fuel acc b w :
  readable (b, w) → offset b ≤ b_size b → acc = take (N.to_nat (offset b)) (file_data b w) →
  full_to (available_ranges b) (offset b) → (N.to_nat (b_size b - offset b) < fuel)%nat →
  match hash_loop fuel acc (b, w) with
  | (Ok h, s') => s' = (set_offset (b_size b) b, w) ∧ full_to (available_ranges b) (b_size b) ∧
      h = digest (take (N.to_nat (b_size b)) (file_data b w))
  | (Err e, s') => (∃ o, s' = (set_offset o b, w)) ∧ e = JobIo BlobIncomplete ∧ ¬ full_to (available_ranges b) (b_size b)
  end.
Proof.
  revert acc b. induction fuel as [|fuel IH]; intros acc b Hr Ho Hacc Hfull Hfuel; [lia|]. simpl. unfold sbind.
  pose proof (read_run (8 * 1024) b w Hr ltac:(done) Ho) as H.
  destruct (blob_read (8 * 1024) (b, w)) as [[d|e] s']; simpl in H.
  2:{ destruct H as (-> & -> & Hlt & Hm). split; [exists (offset b); by destruct b|]. split; [done|].
      intros Hf. rewrite (Hf _ Hlt) in Hm. done. }
  destruct H as (-> & Hd & Hav & Hnil & _ & Hle). destruct d as [|c d].
  { specialize (Hnil eq_refl). simpl. assert (b_size b = offset b) as E by lia. rewrite N.add_0_r, E.
    by subst acc. }
  set (d' := c :: d) in *. assert (0 < N.of_nat (length d')) as Hpos by (unfold d'; simpl; lia).
  set (b1 := set_offset (offset b + N.of_nat (length d')) b).
  assert (file_data b1 w = file_data b w) as Ef by done.
  specialize (IH (acc ++ d') b1). change (available_ranges b1) with (available_ranges b) in IH.
  change (b_size b1) with (b_size b) in IH. change (offset b1) with (offset b + N.of_nat (length d')) in IH. rewrite Ef in IH.
  ospecialize* IH; [by destruct Hr; split|lia| | |lia|].
  - rewrite Hacc. rewrite Hd at 1. unfold read_at. rewrite Nat2N.id.
    replace (N.to_nat (offset b + N.of_nat (length d'))) with (N.to_nat (offset b) + length d')%nat by lia.
    by rewrite take_take_drop.
  - intros x Hx. destruct (N.lt_ge_cases x (offset b)); [by apply Hfull|by apply Hav].
  - destruct (hash_loop fuel (acc ++ d') (b1, w)) as [[h|e] s']; [exact IH|].
    destruct IH as ((o & ->) & H). split; [by exists o|done].
Qed.

Lemma compute_hash_run b w :
  readable (b, w) → 
  match compute_hash (b, w) with
  | (Ok h, s') => s' = (set_offset (b_size b) b, w) ∧ full_to (available_ranges b) (b_size b) ∧ h = digest (file_data b w)
  | (Err e, s') => (∃ o, s' = (set_offset o b, w)) ∧ e = JobIo BlobIncomplete ∧ ¬ full_to (available_ranges b) (b_size b)
  end.
Proof.
  intros Hr. unfold compute_hash, sbind.
  assert ((if offset b =? 0 then sret tt else blob_seek 0) (b, w) = (Ok tt, (set_offset 0 b, w))) as ->.
  { destruct (N.eqb_spec (offset b) 0) as [E|_]; [|done]. unfold sret. rewrite <- E. by destruct b. }
  pose proof (hash_loop_run (S (S (N.to_nat (b_size b)))) [] (set_offset 0 b) w) as H.
  ospecialize* H; [by destruct Hr; split|simpl; lia|done|intros x; simpl; lia|simpl; lia|].
  destruct (hash_loop _ [] _) as [[h|e] s']; simpl in H.
  - destruct H as (-> & H1 & ->). split; [done|]. split; [done|]. f_equal. apply take_ge.
    destruct Hr as [_ _ _ Hl]. simpl in Hl. change (file_data (set_offset 0 b) w) with (file_data b w). lia.
  - destruct H as ((o & ->) & H). split; [by exists o|done].
Qed.

(** ** Writing what the peers send *)

(** The chunks of a stream before its first error, and whether there is none. *)
Fixpoint stream_chunks (stream : list (result string chunk)) : list chunk :=
  match stream with Ok c :: stream => c :: stream_chunks stream | _ => [] end.
Definition stream_ok (stream : list (result string chunk)) : bool := forallb is_ok stream.

(** What is received when these ranges are asked for, and whether everything is. *)
Fixpoint received path peers (ranges : list ByteRange) : list chunk :=
  match ranges with
  | [] => []
  | r :: ranges =>
      match household_read peers path (start r) (Some (ByteRange.bytecount r)) with
      | Ok stream => stream_chunks stream ++ (if stream_ok stream then received path peers ranges else [])
      | Err _ => []
      end
  end.
Fixpoint all_received path peers (ranges : list ByteRange) : bool :=
  match ranges with
  | [] => true
  | r :: ranges =>
      match household_read peers path (start r) (Some (ByteRange.bytecount r)) with
      | Ok stream => stream_ok stream && all_received path peers ranges
      | Err _ => false
      end
  end.

(** No peer sends an offset that is too large for a file. *)
Definition peers_bounded : Prop := ∀ peers path o n stream c,
  household_read peers path o n = Ok stream → c ∈ stream_chunks stream → chunk_end c < u64_modulus.

Lemma write_stream_run stream s :
  (∀ c, c ∈ stream_chunks stream → chunk_end c < u64_modulus) →
  let '(r, s') := write_stream stream s in
  handled s s' (stream_chunks stream) ∧
  match r with Ok _ => stream_ok stream = true | Err e => (∃ m, e = JobPeer m) ∧ stream_ok stream = false end.
Proof.
  revert s. induction stream as [|[[o d]|e] stream IH]; intros [b w] Hb; simpl.
  - split; [apply handled_refl|done].
  - unfold sbind at 1, sget. cbn [fst]. unfold sbind at 1.
    assert (∃ b', (if o =? offset b then sret tt else blob_seek o) (b, w) = (Ok tt, (b', w)) ∧
      handled (b, w) (b', w) [] ∧ offset b' = o) as (b' & -> & Hh & Ho).
    { destruct (N.eqb_spec o (offset b)) as [->|_].
      - exists b. split; [done|]. split; [apply handled_refl|done].
      - exists (set_offset o b). split; [done|]. split; [apply set_offset_handled|done]. }
    unfold sbind at 1. destruct (write_handled d b' w) as (s1 & -> & H1 & H2).
    { rewrite Ho. apply (Hb (o, d)). by left. }
    rewrite Ho in H1. specialize (IH s1 ltac:(intros c Hc; apply Hb; by right)).
    destruct (write_stream stream s1) as [r s']. destruct IH as [IH1 IH2].
    split; [|exact IH2]. apply (handled_trans _ _ _ [] _ Hh), (handled_trans _ _ _ [(o, d)] _ H1 IH1).
  - split; [apply handled_refl|]. split; [by exists e|done].
Qed.

Lemma read_ranges_run path peers ranges s :
  peers_bounded →
  let '(r, s') := sfor ranges (read_range path peers) s in
  handled s s' (received path peers ranges) ∧
  match r with
  | Ok _ => all_received path peers ranges = true
  | Err e => (∃ m, e = JobPeer m) ∧ all_received path peers ranges = false
  end.
Proof.
  intros Hp. revert s. induction ranges as [|x ranges IH]; intros s; simpl.
  { split; [apply handled_refl|done]. }
  unfold sbind, read_range at 1.
  destruct (household_read peers path (start x) (Some (ByteRange.bytecount x))) as [stream|e] eqn:Er.
  2:{ split; [apply handled_refl|]. split; [by exists e|done]. }
  pose proof (write_stream_run stream s ltac:(intros c Hc; by eapply Hp)) as H.
  destruct (write_stream stream s) as [[[]|e] s1]; destruct H as [H1 H2].
  - rewrite H2. specialize (IH s1). destruct (sfor ranges _ s1) as [r s']. destruct IH as [I1 I2]. split; [|exact I2].
    by eapply handled_trans.
  - destruct H2 as [H2 H3]. rewrite H3, app_nil_r. done.
Qed.

Definition to_receive path peers b : list chunk := received path peers (ByteRanges.iter (missing_ranges b)).

Lemma missing_spec b :
  wf (available_ranges b) →
  wf (missing_ranges b) ∧ ∀ x, mem (missing_ranges b) x = (x <? b_size b) && negb (mem (available_ranges b) x).
Proof.
  intros Hw. destruct (subtraction_spec _ _ (proj1 (single_spec 0 (b_size b))) Hw) as [H1 H2].
  split; [done|]. intros x. unfold missing_ranges. by rewrite H2, single_mem.
Qed.

Lemma write_to_blob_run path peers s :
  peers_bounded → wf (available_ranges s.1) →
  let '(r, s') := write_to_blob path peers s in
  handled s s' (to_receive path peers s.1) ∧
  match r with
  | Ok _ => all_received path peers (ByteRanges.iter (missing_ranges s.1)) = true
  | Err e => (∃ m, e = JobPeer m) ∧ all_received path peers (ByteRanges.iter (missing_ranges s.1)) = false
  end.
Proof.
  intros Hp Hw. unfold write_to_blob, sbind, sget, to_receive.
  destruct (ByteRanges.is_empty (missing_ranges s.1)) eqn:E; [|by apply read_ranges_run].
  assert (ByteRanges.iter (missing_ranges s.1) = []) as ->; [|split; [apply handled_refl|done]].
  unfold ByteRanges.is_empty, ByteRanges.iter in *. by destruct (points (missing_ranges s.1)).
Qed.

(** ** Repairing *)

Lemma read_exact_run fuel n acc b w :
  readable (b, w) → offset b + n ≤ b_size b →
  match read_exact_loop fuel n acc (b, w) with
  | (Ok d, s') => s' = (set_offset (offset b + n) b, w)
  | (Err e, s') => ∃ o, s' = (set_offset o b, w)
  end.
Proof.
  revert n acc b. induction fuel as [|fuel IH]; intros n acc b Hr Ho; simpl.
  { exists (offset b). by destruct b. }
  destruct (N.eqb_spec n 0) as [->|Hn]; [simpl; rewrite N.add_0_r; by destruct b|].
  unfold sbind. pose proof (read_run n b w Hr ltac:(lia) ltac:(lia)) as H.
  destruct (blob_read n (b, w)) as [[d|e] s'].
  2:{ destruct H as (-> & _). exists (offset b). by destruct b. }
  destruct H as (-> & _ & _ & _ & Hn' & Hle). set (b1 := set_offset (offset b + N.of_nat (length d)) b) in *.
  destruct d as [|c d]; [by eexists|]. set (d' := c :: d) in *.
  specialize (IH (n - N.of_nat (length d')) (acc ++ d') b1 ltac:(by destruct Hr; split)).
  change (offset b1) with (offset b + N.of_nat (length d')) in IH. change (b_size b1) with (b_size b) in IH.
  specialize (IH ltac:(lia)).
  destruct (read_exact_loop fuel _ _ (b1, w)) as [[d2|e] s'].
  - rewrite IH. unfold b1, set_offset. cbn [blob_id b_size b_hash available_ranges pending_ranges].
    do 2 f_equal. lia.
  - destruct IH as (o & ->). by exists o.
Qed.

(** What a repair of a range that succeeds wrote: what the peers' patch made of the
    content that was there. *)
Definition patched path peers (x : ByteRange) s s' : Prop := ∃ base delta fixed,
  household_rsync peers path x (signature base) = Ok delta ∧
  apply_limited base delta (ByteRange.bytecount x) = Some fixed ∧
  N.of_nat (length fixed) = ByteRange.bytecount x ∧ handled s s' [(start x, fixed)].

(** The repair of a range writes at most that range. *)
Lemma repair_range_run path peers x s :
  readable s → is_Some (fs (w_ext s.2) !! blob_path blob_dir (blob_id s.1)) →
  start x = offset s.1 → start x ≤ end_ x → end_ x ≤ b_size s.1 →
  let '(r, s') := repair_range path peers x s in
  readable s' ∧ (∃ l, handled s s' l) ∧
  match r with Ok _ => offset s'.1 = end_ x ∧ patched path peers x s s' | Err _ => True end.
Proof.
  destruct s as [b w]. simpl. intros Hr Hf Hs Hle He. unfold repair_range, sbind at 1.
  assert (ByteRange.bytecount x = end_ x - start x) as Hbc by done.
  pose proof (read_exact_run (S (N.to_nat (ByteRange.bytecount x))) (ByteRange.bytecount x) [] b w Hr
    ltac:(rewrite Hbc; lia)) as H. unfold blob_read_exact.
  destruct (read_exact_loop _ _ _ (b, w)) as [[d|e] s'].
  2:{ destruct H as (o & ->). split; [by destruct Hr; split|]. split; [|done]. exists []. apply set_offset_handled. }
  subst s'. set (b1 := set_offset (offset b + ByteRange.bytecount x) b).
  assert (readable (b1, w)) as Hr1 by (by destruct Hr; split).
  assert (handled (b, w) (b1, w) []) as Hh1 by apply set_offset_handled.
  destruct (household_rsync peers path x (signature d)) as [delta|e] eqn:Ers.
  2:{ split; [done|]. split; [by eexists|done]. }
  destruct (apply_limited d delta (ByteRange.bytecount x)) as [fixed|] eqn:Eap.
  2:{ split; [done|]. split; [by eexists|done]. }
  destruct (N.eqb_spec (N.of_nat (length fixed)) (ByteRange.bytecount x)) as [El|]; simpl.
  2:{ split; [done|]. split; [by eexists|done]. }
  unfold sbind. rewrite seek_handled. set (b2 := set_offset (start x) b1).
  assert (handled (b1, w) (b2, w) []) as Hh2 by apply set_offset_handled.
  assert (b_size b < u64_modulus) as Hu by by destruct Hr.
  destruct (write_handled fixed b2 w) as (s3 & -> & Hh3 & Ho3); [simpl; lia|]. simpl in Ho3, Hh3.
  assert (handled (b, w) s3 [(start x, fixed)]) as Hh.
  { apply (handled_trans _ _ _ [] [(start x, fixed)] Hh1), (handled_trans _ _ _ [] [(start x, fixed)] Hh2 Hh3). }
  split; [|split; [by exists [(start x, fixed)]|split; [rewrite Ho3; lia|by exists d, delta, fixed]]].
  destruct Hr as [R1 R2 R3 R4]. simpl in R1, R2, R3, R4. destruct Hh as [E1 E2 _ E4 _ _ E7 _ _]. simpl in E1, E2, E4, E7.
  destruct (E4 R1) as [W M]. destruct (E7 Hf) as [_ Ed]. split; [done| |by rewrite E2|].
  - intros y. rewrite M. intros [Hy|Hy]%orb_prop; [by apply R2|].
    unfold covered in Hy. simpl in Hy. rewrite orb_false_r in Hy. apply contains_iff in Hy.
    unfold chunk_range, chunk_end in Hy. simpl in Hy. lia.
  - rewrite (file_data_id b s3.1) by done. rewrite Ed, E2, <- R4. simpl. unfold wrote. simpl.
    rewrite length_write_at; [done|]. lia.
Qed.
Lemma repair_ranges_run path peers rs s :
  readable s → is_Some (fs (w_ext s.2) !! blob_path blob_dir (blob_id s.1)) →
  tiles (offset s.1) (b_size s.1) rs →
  let '(r, s') := sfor rs (repair_range path peers) s in readable s' ∧ ∃ l, handled s s' l.
Proof.
  revert s. induction rs as [|x rs IH]; intros s Hr Hf Ht; simpl.
  { split; [done|]. exists []. apply handled_refl. }
  destruct Ht as (T1 & T2 & T3 & T4). unfold sbind.
  pose proof (repair_range_run path peers x s Hr Hf T1 ltac:(lia) T3) as H.
  destruct (repair_range path peers x s) as [[[]|e] s1]; destruct H as (Hr1 & (l & Hl) & Ho); [|by split; [|exists l]].
  destruct Ho as [Ho _].
  assert (is_Some (fs (w_ext s1.2) !! blob_path blob_dir (blob_id s1.1))) as Hf1.
  { rewrite (hd_id _ _ _ Hl). by apply (hd_file _ _ _ Hl). }
  specialize (IH s1 Hr1 Hf1). rewrite Ho, (hd_size _ _ _ Hl) in IH. specialize (IH T4).
  destruct (sfor rs _ s1) as [r s']. destruct IH as [Hr' (l' & Hl')]. split; [done|]. exists (l ++ l').
  by eapply handled_trans.
Qed.

Lemma repair_chunks size :
  size + RSYNC_BLOCK_SIZE ≤ u64_modulus →
  tiles 0 size (default [] (ByteRanges.chunked (ByteRanges.single 0 size) RSYNC_BLOCK_SIZE)).
Proof.
  intros Hs. unfold ByteRanges.single. destruct (N.ltb_spec 0 size) as [Hpos|H0].
  2:{ assert (size = 0) as -> by lia. vm_compute. done. }
  unfold ByteRanges.chunked, ByteRanges.iter.
  assert (ByteRanges.iter_points (points {| points := BTree.insert size End (BTree.insert 0 Start []) |}) =
    [ByteRange.new 0 size]) as ->.
  { destruct size; [lia|done]. }
  destruct (chunked_run (ByteRange.new 0 size) RSYNC_BLOCK_SIZE) as (rs & H1 & H2 & _); [done|done|].
  simpl. rewrite H1. simpl. by rewrite app_nil_r.
Qed.

(** ** Reporting to the database *)

(** Nothing changes but one blob: its entry and its file. *)
Record blob_only (id : BlobId) w w' : Prop := {
  bo_db : ∃ bt, db w' = set_blob_table bt (db w) ∧ ∀ j, j ≠ id → tbl_get j bt = tbl_get j (blob_table (db w));
  bo_fs : ∀ x, x ≠ blob_path blob_dir id → fs (w_ext w') !! x = fs (w_ext w) !! x;
  bo_global : global (w_ext w') = global (w_ext w);
}.

Lemma handled_only s s' l : handled s s' l → blob_only (blob_id s.1) s.2 s'.2.
Proof.
  intros [_ _ _ _ _ H1 _ H2 H3]. split; [|done|done]. exists (blob_table (db s.2)). split; [|done].
  rewrite H1. by destruct (db s.2).
Qed.

Lemma blob_only_trans id w1 w2 w3 : blob_only id w1 w2 → blob_only id w2 w3 → blob_only id w1 w3.
Proof.
  intros [(bt & A1 & A2) A3 A4] [(bt' & B1 & B2) B3 B4]. split; [|by intros x Hx; rewrite B3, A3|congruence].
  exists bt'. rewrite B1, A1. split; [done|]. intros j Hj. rewrite B2, A1 by done. by apply A2.
Qed.

(** The handle lists what the database does, and what is not reported yet. *)
Record reported s (e : BlobTableEntry) : Prop := {
  rp_entry : tbl_get (blob_id s.1) (blob_table (db s.2)) = Some e;
  rp_wf : wf (written_areas e);
  rp_pending : wf (pending_ranges s.1);
  rp_avail : ∀ x, mem (available_ranges s.1) x = mem (written_areas e) x || mem (pending_ranges s.1) x;
}.

Lemma handled_reported s s' l e : handled s s' l → reported s e → wf (available_ranges s.1) → reported s' e.
Proof.
  intros [H1 _ _ H2 H3 H4 _ _ _] [R1 R2 R3 R4] Hw. destruct (H2 Hw) as [_ M]. destruct (H3 R3) as [W M'].
  split; [by rewrite H1, H4|done|done|]. intros x. by rewrite M, R4, M', orb_assoc.
Qed.

(** [update_db] *)
Lemma report_run b w e :
  reported (b, w) e →
  ∃ w', h_update_db (b, w) = (Ok tt, (set_pending ByteRanges.new b, w')) ∧ blob_only (blob_id b) w w' ∧
    fs (w_ext w') = fs (w_ext w) ∧ ∃ e', reported (set_pending ByteRanges.new b, w') e' ∧ content_hash e' = content_hash e.
Proof.
  intros [R1 R2 R3 R4]. simpl in *. unfold h_update_db. rewrite update_db_run.
  destruct (ByteRanges.is_empty (pending_ranges b)) eqn:Ep.
  - assert (pending_ranges b = ByteRanges.new) as E.
    { unfold ByteRanges.is_empty in Ep. by destruct (pending_ranges b) as [[|]]. }
    assert (set_pending ByteRanges.new b = b) as Eb by (destruct b; simpl in *; by subst). rewrite Eb.
    exists w. split; [done|]. split; [|split; [done|]].
    + split; [|done|done]. exists (blob_table (db w)). split; [by destruct (db w)|done].
    + exists e. split; [|done]. split; [done..|]. exact R4.
  - rewrite R1. eexists. split; [done|]. destruct (union_spec _ _ R2 R3) as [Hwu Hmu]. split; [|split].
    + split; rewrite ?commit_db, ?commit_ext; [|done|done]. eexists. split; [done|].
      intros j Hj. by rewrite get_insert, decide_False.
    + by rewrite commit_ext.
    + eexists. split; [split|]; [simpl; rewrite ?commit_db; simpl; by rewrite get_insert_eq|done|apply wf_new| |done].
      intros x. simpl. by rewrite Hmu, R4, orb_false_r.
Qed.

(** [mark_verified] *)
Lemma mark_verified_run b w e :
  reported (b, w) e →
  ∃ s', h_mark_verified (b, w) = (Ok tt, s') ∧ blob_only (blob_id b) w s'.2 ∧ fs (w_ext s'.2) = fs (w_ext w) ∧
    ∃ e', tbl_get (blob_id b) (blob_table (db s'.2)) = Some e' ∧ wf (written_areas e') ∧
      (∀ x, mem (written_areas e') x = mem (available_ranges b) x) ∧ content_hash e' = Some (b_hash b).
Proof.
  intros Hr. destruct (report_run b w e Hr) as (w1 & H1 & H2 & H3 & e1 & [R1 R2 R3 R4] & _).
  unfold h_mark_verified, mark_verified. unfold h_update_db in H1.
  destruct (update_db (Ok ()) b w) as [[[[]|err] b1] w1'] eqn:E; [|done]. injection H1 as -> ->. simpl in *.
  unfold set_content_hash. rewrite (write_blob_entry (blob_id b) (λ e, {| written_areas := written_areas e; content_hash := Some (b_hash b) |})).
  rewrite R1. simpl. eexists. split; [done|]. simpl. split; [|split].
  - apply (blob_only_trans _ _ _ _ H2). split; rewrite ?commit_db, ?commit_ext; [|done|done].
    eexists. split; [done|]. intros j Hj. by rewrite get_insert, decide_False.
  - by rewrite ?commit_ext.
  - eexists. split; [rewrite ?commit_db; simpl; by rewrite get_insert_eq|]. split; [done|]. split; [|done].
    intros x. simpl. by rewrite R4, orb_false_r.
Qed.
(** ** Opening the blob of a file *)

Definition areas_ok (bt : table N BlobTableEntry) : Prop :=
  ∀ id e, tbl_get id bt = Some e → wf (written_areas e) ∧ ∀ x, mem (written_areas e) x = true → x + 1 < u64_modulus.

(** The databases may differ in the blobs and in the blob of the file [i] only. *)
Definition blob_of_only (i : Inode) e (id : BlobId) (tb tb' : Tables) : Prop :=
  (∃ bt, tb' = set_blob_table bt tb) ∨ (∃ bt, tb' = with_cached_blob i e (Some id) (set_blob_table bt tb)).

Record opened (i : Inode) (e : FileTableEntry) b w w1 : Prop := {
  op_hash : b_hash b = fc_hash (content e);
  op_size : b_size b = size (metadata e);
  op_offset : offset b = 0;
  op_pending : pending_ranges b = ByteRanges.new;
  op_blob : blob (content e) = Some (blob_id b) ∨ blob (content e) = None;
  op_db : blob_of_only i e (blob_id b) (db w) (db w1);
  op_entry : tbl_get (i, "") (cache_file_table (cache (db w1))) = Some (set_blob e (Some (blob_id b)));
  op_reported : ∃ be, reported (b, w1) be ∧ areas_ok (blob_table (db w1)) ∧
    match blob (content e) with
    | Some id => tbl_get id (blob_table (db w)) = Some be ∧ available_ranges b = written_areas be ∧ db w1 = db w
    | None => be = new_blob_entry ∧ available_ranges b = ByteRanges.new
    end;
  op_readable : readable (b, w1);
  op_file : is_Some (fs (w_ext w1) !! blob_path blob_dir (blob_id b));
  op_data : file_data b w1 =
    resize (N.to_nat (size (metadata e))) x00 (match blob (content e) with Some _ => file_data b w | None => [] end);
  op_global : global (w_ext w1) = global (w_ext w);
}.

Lemma set_blob_same (e : FileTableEntry) id : blob (content e) = Some id → set_blob e (Some id) = e.
Proof. intros E. destruct e as [m c p]. destruct c. simpl in *. by subst. Qed.

Lemma open_blob_data now' id n files :
  ∃ f, open_blob_file blob_dir now' id n false files !! blob_path blob_dir id = Some f ∧
    f_data f = resize (N.to_nat n) x00 (match files !! blob_path blob_dir id with Some f => f_data f | None => [] end).
Proof.
  unfold open_blob_file. rewrite lookup_insert_eq. eexists. split; [done|].
  set (f := match files !! _ with Some f => f | None => _ end).
  assert (match files !! blob_path blob_dir id with Some f => f_data f | None => [] end = f_data f) as ->.
  { unfold f. by destruct (files !! _). }
  unfold f_len. destruct (N.eqb_spec n (N.of_nat (length (f_data f)))) as [->|]; simpl; [|done].
  rewrite Nat2N.id. by rewrite resize_all.
Qed.

Lemma open_file_run i e w :
  tbl_get (i, "") (cache_file_table (cache (db w))) = Some e → areas_ok (blob_table (db w)) →
  size (metadata e) < u64_modulus → (blob (content e) = None → last_blob (blob_table (db w)) + 1 < u64_modulus) →
  match open_file blob_dir now i w with
  | (Ok b, w1) => opened i e b w w1
  | (Err err, w1) => w1 = w ∧ err = NotFound ∧ ∃ id, blob (content e) = Some id ∧ tbl_get id (blob_table (db w)) = None
  end.
Proof.
  intros He Ha Hs Hlast. unfold open_file, get_default_entry. rewrite He. simpl.
  destruct (blob (content e)) as [id|] eqn:Eb.
  - unfold open_blob, get_blob_entry. destruct (tbl_get id (blob_table (db w))) as [be|] eqn:Ebe; simpl.
    2:{ split; [done|]. split; [done|]. by exists id. }
    destruct (Ha id be Ebe) as [Hwf Hbd].
    destruct (open_blob_data now id (size (metadata e)) (fs (w_ext w))) as (f & Hf & Hd).
    assert (file_data (Blob_new id e be) {| db := db w;
      w_ext := {| fs := open_blob_file blob_dir now id (size (metadata e)) false (fs (w_ext w)); global := global (w_ext w) |};
      watch_tx := watch_tx w; history_tx := history_tx w |} = f_data f) as Efd by (unfold file_data; simpl; by rewrite Hf).
    split; simpl; try done.
    + by left.
    + left. exists (blob_table (db w)). by destruct (db w).
    + rewrite set_blob_same by done. done.
    + exists be. split; [split; simpl; [done|done|apply wf_new|intros x; by rewrite orb_false_r]|]. split; [done|].
      by rewrite Eb.
    + split; simpl; [done|done|done|]. rewrite Efd, Hd, length_resize. lia.
    + rewrite Eb, Efd, Hd. done.
  - unfold write_txn. unfold sbind at 1, sget. unfold sbind at 1, slift, get_default_entry.
    change (file_table_of (begin_write w)) with (cache_file_table (cache (db w))). rewrite He. simpl ok_or. cbv iota beta.
    destruct (create_blob_run blob_dir now e (begin_write w)) as (b & t' & Hcr & [C1 C2 C3 (C4 & C5 & C6 & C7) C8 (C9 & C10 & C11)]); [done|by apply Hlast|].
    assert (b_hash b = fc_hash (content e)) as Ehash.
    { unfold create_blob in Hcr. rewrite Eb in Hcr. unfold sbind at 1, sget in Hcr.
      rewrite do_create_blob_entry_spec in Hcr by by apply Hlast. injection Hcr as <- _. done. }
    assert (file_table_of t' = cache_file_table (cache (db w))) as Eft by (unfold file_table_of; by rewrite C9).
    unfold sbind at 1. rewrite Hcr. unfold sbind, smodify, sret. cbv beta iota. rewrite Eft.
    set (t2 := put_file_table _ t').
    assert (db (commit t2 w) = with_cached_blob i e (Some (blob_id b)) (set_blob_table (blob_table (tables t')) (db w))) as Edb.
    { rewrite commit_db. unfold t2. simpl. by rewrite C9. }
    assert (w_ext (commit t2 w) = ext t') as Eext by by rewrite commit_ext.
    set (w1 := commit t2 w) in *. clearbody w1. clear t2.
    assert (file_data b w1 = replicate (N.to_nat (size (metadata e))) x00) as Efd.
    { unfold file_data. rewrite Eext, C8, lookup_insert_eq. done. }
    split; try done.
    + by right.
    + right. by eexists.
    + rewrite Edb. simpl. by rewrite get_insert_eq.
    + exists new_blob_entry. rewrite Eb. split; [|split; [|done]].
      * split; simpl; [rewrite Edb; simpl; by rewrite C3, decide_True|apply wf_new|rewrite C7; apply wf_new|].
        intros x. by rewrite C6, C7.
      * rewrite Edb. intros j be. simpl. rewrite C3. case_decide; [|apply Ha]. intros [= <-]. split; [apply wf_new|done].
    + split; simpl; [rewrite C6; apply wf_new|by rewrite C6|by rewrite C4|]. rewrite Efd, length_replicate, C4. lia.
    + rewrite Eext, C8, lookup_insert_eq. by eexists.
    + rewrite Eb, Efd. by rewrite resize_nil.
    + by rewrite Eext, C11.
Qed.
(** ** Verifying *)

(** The blob has the whole content, with that hash, and is known to. *)
Definition verified_blob (id : BlobId) (n : N) h w : Prop :=
  ∃ be f, tbl_get id (blob_table (db w)) = Some be ∧ wf (written_areas be) ∧ full_to (written_areas be) n ∧
    content_hash be = Some h ∧ fs (w_ext w) !! blob_path blob_dir id = Some f ∧ f_len f = n ∧ digest (f_data f) = h.

Lemma blob_only_refl id w : blob_only id w w.
Proof. split; [|done|done]. exists (blob_table (db w)). split; [by destruct (db w)|done]. Qed.

(** After the hash was found to be right. *)
Lemma settle_run h b w be :
  reported (b, w) be → readable (b, w) → is_Some (fs (w_ext w) !! blob_path blob_dir (blob_id b)) →
  full_to (available_ranges b) (b_size b) → digest (file_data b w) = h → b_hash b = h →
  ∃ s', h_mark_verified (set_offset (b_size b) b, w) = (Ok tt, s') ∧
    blob_only (blob_id b) w s'.2 ∧ fs (w_ext s'.2) = fs (w_ext w) ∧ verified_blob (blob_id b) (b_size b) h s'.2.
Proof.
  intros Hp Hr [f Hf] Hfull Hd Hh.
  destruct (mark_verified_run (set_offset (b_size b) b) w be) as (s' & H1 & H2 & H3 & be' & H4 & H5 & H6 & H7).
  { destruct Hp as [P1 P2 P3 P4]. by split. }
  exists s'. split; [done|]. split; [exact H2|]. split; [exact H3|]. exists be', f. simpl in *.
  unfold file_data in *. rewrite Hf in *. split_and!; try done.
  - intros x Hx. rewrite H6. by apply Hfull.
  - by rewrite H7, Hh.
  - by rewrite H3.
  - destruct Hr as [_ _ _ Hl]. simpl in Hl. unfold file_data in Hl. by rewrite Hf in Hl.
Qed.

Lemma handled_carries s s' l be :
  handled s s' l → reported s be → readable s → is_Some (fs (w_ext s.2) !! blob_path blob_dir (blob_id s.1)) →
  reported s' be ∧ is_Some (fs (w_ext s'.2) !! blob_path blob_dir (blob_id s'.1)).
Proof.
  intros Hh Hp Hr Hf. split; [eapply handled_reported; [done|done|apply Hr]|].
  rewrite (hd_id _ _ _ Hh). by apply (hd_file _ _ _ Hh).
Qed.

Lemma repair_run path hash peers b w be :
  reported (b, w) be → readable (b, w) → is_Some (fs (w_ext w) !! blob_path blob_dir (blob_id b)) →
  b_size b + RSYNC_BLOCK_SIZE ≤ u64_modulus → b_hash b = hash →
  let '(r, s') := repair path hash peers (b, w) in
  blob_only (blob_id b) w s'.2 ∧
  match r with Ok Done => verified_blob (blob_id b) (b_size b) hash s'.2 | _ => db s'.2 = db w end.
Proof.
  intros Hp Hr Hf Hs Hh. unfold repair. destruct peers as [|p0 peers]; [split; [apply blob_only_refl|done]|].
  unfold sbind at 1. rewrite seek_handled. unfold sbind at 1, sget. cbn [fst set_offset b_size].
  set (b0 := set_offset 0 b). assert (handled (b, w) (b0, w) []) as Hh0 by apply set_offset_handled.
  assert (readable (b0, w)) as Hr0 by (by destruct Hr; split).
  unfold sbind at 1.
  pose proof (repair_ranges_run path (p0 :: peers) _ (b0, w) Hr0 Hf (repair_chunks (b_size b) Hs)) as H.
  destruct (sfor _ _ (b0, w)) as [[[]|e] [b1 w1]]; destruct H as (Hr1 & l & Hl).
  2:{ pose proof (handled_trans _ _ _ _ _ Hh0 Hl) as Hl'. split; [apply (handled_only _ _ _ Hl')|apply (hd_db _ _ _ Hl')]. }
  pose proof (handled_trans _ _ _ _ _ Hh0 Hl) as Hl'.
  destruct (handled_carries _ _ _ be Hl' Hp Hr Hf) as [Hp1 Hf1].
  pose proof (handled_only _ _ _ Hl') as Honly. pose proof (hd_db _ _ _ Hl') as Hdb.
  unfold sbind at 1. pose proof (compute_hash_run b1 w1 Hr1) as H.
  destruct (compute_hash (b1, w1)) as [[h|e] s2].
  2:{ destruct H as ((o & ->) & _). done. }
  destruct H as (-> & Hfull & ->). case_bool_decide as E; simpl; [|done].
  assert (blob_id b1 = blob_id b ∧ b_size b1 = b_size b ∧ b_hash b1 = b_hash b) as (E1 & E2 & E3) by by destruct Hl'.
  destruct (settle_run hash b1 w1 be Hp1 Hr1 Hf1 Hfull E) as (s' & Hm & Hon & _ & Hv); [by rewrite E3|].
  unfold sbind. rewrite Hm. simpl. rewrite E1, E2 in Hv. rewrite E1 in Hon. split; [|done].
  by eapply blob_only_trans.
Qed.

Lemma verify_blob_run path inode hash b w be :
  reported (b, w) be → readable (b, w) → is_Some (fs (w_ext w) !! blob_path blob_dir (blob_id b)) →
  b_size b + RSYNC_BLOCK_SIZE ≤ u64_modulus →
  let '(r, s') := verify_blob path inode hash (b, w) in
  blob_only (blob_id b) w s'.2 ∧
  match r with Ok Done => b_hash b = hash ∧ verified_blob (blob_id b) (b_size b) hash s'.2 | _ => db s'.2 = db w end.
Proof.
  intros Hp Hr Hf Hs. unfold verify_blob. unfold sbind at 1, sget. cbn [fst].
  case_bool_decide as Eh; simpl; [|split; [apply blob_only_refl|done]].
  unfold sbind at 1. pose proof (compute_hash_run b w Hr) as H.
  destruct (compute_hash (b, w)) as [[h|e] s2].
  2:{ destruct H as ((o & ->) & _). split; [apply blob_only_refl|done]. }
  destruct H as (-> & Hfull & ->). case_bool_decide as E; simpl.
  - destruct (settle_run hash b w be Hp Hr Hf Hfull E Eh) as (s' & Hm & Hon & _ & Hv).
    unfold sbind. rewrite Hm. by split.
  - unfold sbind, sget. cbn [snd]. destruct (do_file_availability _ _ _) as [av|e]; simpl.
    2:{ split; [apply blob_only_refl|done]. }
    pose proof (repair_run path hash (av_peers av) (set_offset (b_size b) b) w be) as H.
    ospecialize* H; [by destruct Hp; split|by destruct Hr; split|done|done|done|].
    destruct (repair _ _ _ _) as [[[]|] s']; simpl in *; destruct H as [H1 H2]; by split.
Qed.

Lemma verify_run path i e hash w :
  tbl_get (i, "") (cache_file_table (cache (db w))) = Some e → areas_ok (blob_table (db w)) →
  size (metadata e) + RSYNC_BLOCK_SIZE ≤ u64_modulus → (blob (content e) = None → last_blob (blob_table (db w)) + 1 < u64_modulus) →
  match verify path i hash w with
  | (Ok Done, w') => fc_hash (content e) = hash ∧ ∃ id,
      blob_of_only i e id (db w) (db w') ∧
      tbl_get (i, "") (cache_file_table (cache (db w'))) = Some (set_blob e (Some id)) ∧
      verified_blob id (size (metadata e)) hash w'
  | _ => True
  end.
Proof.
  intros He Ha Hs Hlast. unfold verify, with_blob, sbind, storage.
  assert (size (metadata e) < u64_modulus) as Hs' by (unfold RSYNC_BLOCK_SIZE in Hs; lia).
  pose proof (open_file_run i e w He Ha Hs' Hlast) as H.
  destruct (open_file blob_dir now i w) as [[b|err] w1]; [|done]. destruct H as [O1 O2 O3 O4 O5 O6 O7 (be & O8 & _) O9 O10 O11 O12].
  pose proof (verify_blob_run path i hash b w1 be O8 O9 O10 ltac:(by rewrite O2)) as H.
  destruct (verify_blob path i hash (b, w1)) as [[[]|err] [b' w']]; [|done..]. destruct H as ([(bt & B1 & B2) _ _] & H1 & H2). simpl in *.
  split; [congruence|]. exists (blob_id b). rewrite <- O2. split; [|split; [|done]].
  - destruct O6 as [(bt' & O6)|(bt' & O6)]; rewrite B1, O6; [left|right]; by exists bt.
  - rewrite B1. simpl. exact O7.
Qed.
(** ** Fetching *)

Lemma received_bounded path peers ranges c :
  peers_bounded → c ∈ received path peers ranges → chunk_end c < u64_modulus.
Proof.
  intros Hp. induction ranges as [|x ranges IH]; simpl; [by intros ?%not_elem_of_nil|].
  destruct (household_read _ _ _ _) as [stream|] eqn:E; [|by intros ?%not_elem_of_nil].
  intros [H|H]%elem_of_app; [by eapply Hp|]. destruct (stream_ok stream); [by apply IH|by apply not_elem_of_nil in H].
Qed.

Lemma covered_bounded l x : (∀ c, c ∈ l → chunk_end c < u64_modulus) → covered (chunk_range <$> l) x = true → x + 1 < u64_modulus.
Proof.
  intros Hl (r & Hin & Hr)%existsb_exists. apply list_elem_of_In, list_elem_of_fmap in Hin as (c & -> & Hc).
  apply contains_iff in Hr. unfold chunk_range in Hr. simpl in Hr. specialize (Hl c Hc). lia.
Qed.

(** What [fetch] leaves, on an open blob. *)
Record fetched path peers b w (s' : Blob * World) : Prop := {
  ft_only : blob_only (blob_id b) w s'.2;
  ft_entry : ∃ be, tbl_get (blob_id b) (blob_table (db s'.2)) = Some be ∧ wf (written_areas be) ∧
    ∀ x, mem (written_areas be) x = mem (available_ranges b) x || covered (chunk_range <$> to_receive path peers b) x;
  ft_file : is_Some (fs (w_ext s'.2) !! blob_path blob_dir (blob_id b)) ∧
    file_data b s'.2 = wrote (to_receive path peers b) (file_data b w);
}.

Lemma fetch_run path hash peers b w be :
  peers_bounded → reported (b, w) be → wf (available_ranges b) →
  is_Some (fs (w_ext w) !! blob_path blob_dir (blob_id b)) →
  let '(r, s') := fetch path hash peers (b, w) in
  if bool_decide (b_hash b = hash) then
    fetched path peers b w s' ∧
    if all_received path peers (ByteRanges.iter (missing_ranges b)) then r = Ok (Some tt)
    else ∃ m, r = Err (JobPeer m)
  else r = Ok None ∧ s' = (b, w).
Proof.
  intros Hpb Hp Hw Hf. unfold fetch, sbind, sget. cbn [fst]. case_bool_decide as Eh; simpl; [|done].
  pose proof (write_to_blob_run path peers (b, w) Hpb Hw) as H.
  destruct (write_to_blob path peers (b, w)) as [r [b1 w1]]. destruct H as [Hh Hr]. simpl in Hr.
  assert (reported (b1, w1) be) as Hp1 by by eapply handled_reported.
  destruct (report_run b1 w1 be Hp1) as (w2 & -> & Hon & Hfs & be' & [R1 R2 R3 R4] & _).
  assert (blob_id b1 = blob_id b) as Eid by apply (hd_id _ _ _ Hh).
  assert (fetched path peers b w (set_pending ByteRanges.new b1, w2)) as Hft.
  { split; simpl.
    - rewrite Eid in Hon. eapply blob_only_trans; [apply (handled_only _ _ _ Hh)|done].
    - exists be'. simpl in *. rewrite <- Eid. split; [done|]. split; [done|]. intros x.
      destruct (hd_avail _ _ _ Hh Hw) as [_ M]. simpl in M. rewrite <- (orb_false_r (mem (written_areas be') x)).
      rewrite <- M. symmetry. apply R4.
    - rewrite Hfs. unfold file_data. rewrite Hfs. apply (hd_file _ _ _ Hh Hf). }
  destruct r as [[]|e]; [by rewrite Hr|]. destruct Hr as [(m & ->) ->]. split; [done|]. by exists m.
Qed.

(** The database after it: the blob is that of the file, and the areas are fine. *)
Lemma fetched_entry path peers i e b w0 w s' :
  peers_bounded → opened i e b w0 w → fetched path peers b w s' →
  blob_of_only i e (blob_id b) (db w0) (db s'.2) ∧ areas_ok (blob_table (db s'.2)) ∧
  tbl_get (i, "") (cache_file_table (cache (db s'.2))) = Some (set_blob e (Some (blob_id b))).
Proof.
  intros Hpb [_ _ _ _ _ O1 O2 (be0 & _ & O3 & _) O4 _ _ _] [[(bt & F1 & F2) _ _] (be & F3 & F4 & F5) _].
  split_and!.
  - destruct O1 as [(bt' & O1)|(bt' & O1)]; rewrite F1, O1; [left|right]; by exists bt.
  - intros j ej Hj. destruct (decide (j = blob_id b)) as [->|Hne].
    + rewrite F3 in Hj. injection Hj as <-. split; [done|]. intros x. rewrite F5. intros [Hx|Hx]%orb_prop.
      * by apply (rd_bounded _ O4).
      * eapply covered_bounded; [|done]. intros c. by apply received_bounded.
    + apply (O3 j ej). rewrite <- F2 by done. by rewrite F1 in Hj.
  - by rewrite F1.
Qed.

(** ** Downloading *)

Lemma verified_is_available i e id h w :
  tbl_get (i, "") (cache_file_table (cache (db w))) = Some e → blob (content e) = Some id → fc_hash (content e) = h →
  verified_blob id (size (metadata e)) h w → cache_local_availability (db w) i = Ok Verified.
Proof.
  intros He Hb Hh (be & f & V1 & V2 & V3 & V4 & _). unfold cache_local_availability, get_default_entry. rewrite He. simpl.
  unfold local_availability. rewrite Hb. unfold get_blob_entry. rewrite V1. simpl.
  rewrite bool_decide_true by by apply full_intersection. rewrite V4. simpl. by rewrite bool_decide_true.
Qed.

Lemma cached_as_functional tb path i e i' e' :
  cached_as arena_root tb path i e → cached_as arena_root tb path i' e' → i' = i ∧ e' = e.
Proof. intros [[a H1] H2] [[a' H3] H4]. rewrite H1 in H3. injection H3 as <- <-. split; congruence. Qed.

Lemma blob_of_only_dirs i e id tb tb' : blob_of_only i e id tb tb' → cache_directory_table (cache tb') = cache_directory_table (cache tb).
Proof. by intros [[bt ->]|[bt ->]]. Qed.

(** A database and peers that a job can be run with. *)
Record job_ready path w : Prop := {
  jr_areas : areas_ok (blob_table (db w));
  jr_last : last_blob (blob_table (db w)) + 1 < u64_modulus;
  jr_size : ∀ i e, cached_as arena_root (db w) path i e → size (metadata e) + RSYNC_BLOCK_SIZE ≤ u64_modulus;
  jr_peers : peers_bounded;
}.

(** The file is completely there and was found to have that hash. *)
Definition downloaded path hash w : Prop :=
  ∃ i e id, cached_as arena_root (db w) path i e ∧ fc_hash (content e) = hash ∧ blob (content e) = Some id ∧
    cache_local_availability (db w) i = Ok Verified ∧ verified_blob id (size (metadata e)) hash w.

Lemma verified_downloaded path i a e id hash tb w' :
  do_lookup_path (cache_directory_table (cache tb)) arena_root (Some path) = Ok (i, a) →
  blob_of_only i e id tb (db w') → fc_hash (content e) = hash →
  tbl_get (i, "") (cache_file_table (cache (db w'))) = Some (set_blob e (Some id)) →
  verified_blob id (size (metadata e)) hash w' → downloaded path hash w'.
Proof.
  intros Hl Hd Hh He Hv. exists i, (set_blob e (Some id)), id.
  assert (cached_as arena_root (db w') path i (set_blob e (Some id))) as Hc.
  { split; [|done]. exists a. by rewrite (blob_of_only_dirs _ _ _ _ _ Hd). }
  split_and!; try done. eapply verified_is_available; [done|done|done|]. exact Hv.
Qed.

Lemma download_run path hash w w' :
  job_ready path w → download path hash w = (Ok Done, w') →
  downloaded path hash w' ∨
  (w' = w ∧ ∃ i a, do_lookup_path (cache_directory_table (cache (db w))) arena_root (Some path) = Ok (i, a) ∧
     cache_local_availability (db w) i = Ok Verified).
Proof.
  intros [J1 J2 J3 J4]. unfold download.
  destruct (do_lookup_path (cache_directory_table (cache (db w))) arena_root (Some path)) as [[i a]|[]] eqn:El; try done.
  destruct (cache_local_availability (db w) i) as [av|] eqn:Eav; [|done].
  assert (∃ e, tbl_get (i, "") (cache_file_table (cache (db w))) = Some e) as (e & He).
  { unfold cache_local_availability, get_default_entry in Eav.
    destruct (tbl_get (i, "") (cache_file_table (cache (db w)))) as [e|]; [by exists e|done]. }
  assert (size (metadata e) + RSYNC_BLOCK_SIZE ≤ u64_modulus) as Hs by (apply (J3 i); split; [by exists a|done]).
  assert (∀ peers, (let* fetched := with_blob i (fetch path hash peers) in
      match fetched with None => sret Abandoned | Some _ => verify path i hash end) w = (Ok Done, w') →
    downloaded path hash w') as Hfetch.
  { intros peers. unfold sbind at 1, with_blob. unfold sbind at 1, storage.
    pose proof (open_file_run i e w He J1 ltac:(unfold RSYNC_BLOCK_SIZE in Hs; lia) (λ _, J2)) as H.
    destruct (open_file blob_dir now i w) as [[b|err] w1]; [|done]. pose proof H as [_ O2 _ _ _ _ _ (be & O8 & _) O9 O10 _ _].
    pose proof (fetch_run path hash peers b w1 be J4 O8 (rd_wf _ O9) O10) as Hft.
    destruct (fetch path hash peers (b, w1)) as [r [b2 w2]]. case_bool_decide as Eh; [|by destruct Hft as [-> _]].
    destruct Hft as [Hft Hr]. destruct (all_received path peers _); [subst r|by destruct Hr as (m & ->)].
    destruct (fetched_entry path peers i e b w w1 _ J4 H Hft) as (F1 & F2 & F3). simpl in *.
    intros Hv. pose proof (verify_run path i (set_blob e (Some (blob_id b))) hash w2 F3 F2 Hs ltac:(done)) as Hvr. rewrite Hv in Hvr.
    destruct Hvr as (V1 & id & V2 & V3 & V4).
    apply (verified_downloaded path i a (set_blob e (Some (blob_id b))) id hash (db w2) w'); [|exact V2|exact V1|exact V3|exact V4].
    by rewrite (blob_of_only_dirs _ _ _ _ _ F1). }
  destruct av.
  - destruct (do_file_availability _ _ _) as [av|]; [|done]. destruct (av_peers av); [done|]. intros H. left. by apply Hfetch in H.
  - destruct (do_file_availability _ _ _) as [av|]; [|done]. destruct (av_peers av); [done|]. intros H. left. by apply Hfetch in H.
  - intros Hv. left. pose proof (verify_run path i e hash w He J1 Hs (λ _, J2)) as Hvr. rewrite Hv in Hvr.
    destruct Hvr as (V1 & id & V2 & V3 & V4). by apply (verified_downloaded path i a e id hash (db w) w').
  - intros [= <-]. right. split; [done|]. by exists i, a.
Qed.
(** ** Peers that send the right bytes *)

(** Whatever part of [data] is asked for, all of it comes, in chunks of any sizes. *)
Definition honest path (data : list byte) : Prop := ∀ peers o n,
  peers ≠ [] → o + n ≤ N.of_nat (length data) →
  ∃ stream, household_read peers path o (Some n) = Ok stream ∧ stream_ok stream = true ∧
    (∀ c, c ∈ stream_chunks stream → chunk_end c ≤ N.of_nat (length data) ∧ c.2 = read_at c.1 (N.of_nat (length c.2)) data) ∧
    ∀ x, o ≤ x → x < o + n → covered (chunk_range <$> stream_chunks stream) x = true.

Lemma wrote_agrees l d0 data :
  length d0 = length data →
  (∀ c, c ∈ l → chunk_end c ≤ N.of_nat (length data) ∧ c.2 = read_at c.1 (N.of_nat (length c.2)) data) →
  length (wrote l d0) = length data ∧
  ∀ x, (d0 !! N.to_nat x = data !! N.to_nat x ∨ covered (chunk_range <$> l) x = true) →
    wrote l d0 !! N.to_nat x = data !! N.to_nat x.
Proof.
  revert d0. induction l as [|c l IH]; intros d0 Hlen Hc; simpl.
  { split; [done|]. by intros x [?|?]. }
  destruct (Hc c ltac:(by left)) as [He Hd]. unfold chunk_end in He.
  destruct (IH (write_at c.1 c.2 d0)) as [H1 H2].
  { rewrite length_write_at; [done|lia]. }
  { intros c' Hc'. apply Hc. by right. }
  split; [done|]. intros x Hx. apply H2. rewrite lookup_write_at by lia.
  destruct (ByteRange.contains (chunk_range c) x) eqn:Ec.
  - left. apply contains_iff in Ec. unfold chunk_range, chunk_end in Ec. simpl in Ec. rewrite decide_True by lia.
    rewrite Hd at 1. unfold read_at. rewrite lookup_take_lt by lia. rewrite lookup_drop. f_equal. lia.
  - apply not_true_iff_false in Ec. rewrite contains_iff in Ec. unfold chunk_range, chunk_end in Ec. simpl in Ec.
    rewrite decide_False by lia. destruct Hx as [Hx|Hx]; [by left|right]. exact Hx.
Qed.

Lemma honest_received path peers ranges data :
  honest path data → peers ≠ [] → (∀ r, r ∈ ranges → start r ≤ end_ r ∧ end_ r ≤ N.of_nat (length data)) →
  all_received path peers ranges = true ∧
  (∀ c, c ∈ received path peers ranges →
     chunk_end c ≤ N.of_nat (length data) ∧ c.2 = read_at c.1 (N.of_nat (length c.2)) data) ∧
  ∀ x, existsb (λ r, ByteRange.contains r x) ranges = true → covered (chunk_range <$> received path peers ranges) x = true.
Proof.
  intros Hh Hp. induction ranges as [|r ranges IH]; intros Hr; simpl.
  { split; [done|]. split; [|done]. by intros c ?%not_elem_of_nil. }
  destruct IH as (I1 & I2 & I3); [intros r' Hr'; apply Hr; by right|].
  destruct (Hr r ltac:(by left)) as [Hle He]. assert (ByteRange.bytecount r = end_ r - start r) as Eb by done.
  destruct (Hh peers (start r) (ByteRange.bytecount r) Hp) as (stream & -> & H1 & H2 & H3); [rewrite Eb; lia|].
  rewrite H1. split; [done|]. split; [intros c [?|?]%elem_of_app; by auto|].
  intros x [Hx|Hx]%orb_prop; rewrite covered_app.
  - apply contains_iff in Hx. rewrite H3; [done|lia|lia].
  - by rewrite I3, orb_true_r.
Qed.

Lemma missing_ranges_bounds b r :
  wf (available_ranges b) → r ∈ ByteRanges.iter (missing_ranges b) → start r ≤ end_ r ∧ end_ r ≤ b_size b.
Proof.
  intros Hw Hr. destruct (missing_spec b Hw) as [Hm Hx]. destruct (iter_spec _ Hm) as [Hsep Hmem].
  assert (start r < end_ r) as Hlt.
  { clear Hmem. revert Hsep Hr. generalize 0. induction (ByteRanges.iter (missing_ranges b)) as [|d rs IH]; intros lo; [by intros _ ?%not_elem_of_nil|].
    simpl. intros (H1 & H2 & H3) [->|Hc]%elem_of_cons; [done|]. by eapply IH. }
  split; [lia|]. assert (mem (missing_ranges b) (end_ r - 1) = true) as H.
  { rewrite Hmem. apply existsb_exists. exists r. rewrite <- list_elem_of_In, contains_iff. split; [done|lia]. }
  rewrite Hx in H. apply andb_prop in H as [H%N.ltb_lt _]. lia.
Qed.

(** Verifying a blob whose content is all there and right. *)
Lemma verify_right path i e id data w :
  tbl_get (i, "") (cache_file_table (cache (db w))) = Some e → areas_ok (blob_table (db w)) →
  size (metadata e) < u64_modulus → blob (content e) = Some id → digest data = fc_hash (content e) →
  (∃ be, tbl_get id (blob_table (db w)) = Some be ∧ full_to (written_areas be) (size (metadata e))) →
  (∃ f, fs (w_ext w) !! blob_path blob_dir id = Some f ∧ f_data f = data) → N.of_nat (length data) = size (metadata e) →
  ∃ w', verify path i (fc_hash (content e)) w = (Ok Done, w') ∧
    verified_blob id (size (metadata e)) (fc_hash (content e)) w' ∧ cache (db w') = cache (db w) ∧
    (∃ f, fs (w_ext w') !! blob_path blob_dir id = Some f ∧ f_data f = data).
Proof.
  intros He Ha Hs Hb Hd (be & Hbe & Hfull) (f & Hf & Ef) Hlen. unfold verify, with_blob, sbind, storage.
  pose proof (open_file_run i e w He Ha Hs) as H. rewrite Hb in H. specialize (H ltac:(done)).
  destruct (open_file blob_dir now i w) as [[b|err] w1]; [|by destruct H as (_ & _ & id' & [= <-] & E); rewrite Hbe in E].
  destruct H as [O1 O2 O3 O4 O5 _ O7 (be' & O8 & _ & O8') O9 O10 O11 _]. rewrite Hb in O5, O8', O11.
  destruct O8' as (E & Hav & Hdb). rewrite Hbe in E. injection E as <-. destruct O5 as [[= ->]|?]; [|done].
  assert (file_data b w1 = data) as Efd.
  { rewrite O11. unfold file_data at 1. rewrite Hf, Ef. apply resize_all_alt. lia. }
  unfold verify_blob. unfold sbind at 1, sget. cbn [fst]. rewrite O1, bool_decide_true by done. cbn [negb]. cbv iota.
  unfold sbind at 1. pose proof (compute_hash_run b w1 O9) as H.
  destruct (compute_hash (b, w1)) as [[h|e'] s2].
  2:{ destruct H as (_ & _ & H). destruct H. rewrite Hav, O2. exact Hfull. }
  destruct H as (-> & Hfull' & ->). rewrite Efd, bool_decide_true by done.
  destruct (settle_run (fc_hash (content e)) b w1 be O8 O9 O10 Hfull') as ([b' w'] & Hm & [(bt & Hon & _) _ _] & Hfs & Hv); [by rewrite Efd|done|].
  unfold sbind, sret. rewrite Hm. exists w'. split; [done|]. rewrite <- O2. split; [done|]. simpl in *. split.
  - rewrite Hon, Hdb. done.
  - destruct O10 as [f1 Hf1]. exists f1. rewrite Hfs. split; [exact Hf1|]. unfold file_data in Efd. simpl in Hf1. by rewrite Hf1 in Efd.
Qed.
(** ** Properties *)

(** C21: a download that says it is done has the whole content of the file, with the hash
    that was asked for, verified on disk and known to be in the database, whatever
    the peers sent; or the version that is presented was verified before, and
    nothing was done. *)
Theorem download_done path hash w w'
  (Hready : job_ready path w) (Hdone : download path hash w = (Ok Done, w')) :
  downloaded path hash w' ∨
  (w' = w ∧ ∃ i a, do_lookup_path (cache_directory_table (cache (db w))) arena_root (Some path) = Ok (i, a) ∧
     cache_local_availability (db w) i = Ok Verified).
Proof. by apply download_run. Qed.

Lemma wrote_whole l d0 data :
  length d0 = length data →
  (∀ c, c ∈ l → chunk_end c ≤ N.of_nat (length data) ∧ c.2 = read_at c.1 (N.of_nat (length c.2)) data) →
  (∀ x, x < N.of_nat (length data) → d0 !! N.to_nat x = data !! N.to_nat x ∨ covered (chunk_range <$> l) x = true) →
  wrote l d0 = data.
Proof.
  intros Hl Hc Hx. destruct (wrote_agrees l d0 data Hl Hc) as [L1 L2]. apply list_eq. intros x.
  destruct (decide (x < length data)%nat) as [H|H].
  2:{ rewrite !lookup_ge_None_2; [done|lia|]. rewrite L1. lia. }
  rewrite <- (Nat2N.id x). apply L2, Hx. lia.
Qed.

(** When the areas that are listed have the bytes of the content, an opened blob has
    them where it can be read. *)
Lemma opened_agrees i e b w w1 data :
  opened i e b w w1 → N.of_nat (length data) = size (metadata e) →
  (∀ id be, blob (content e) = Some id → tbl_get id (blob_table (db w)) = Some be →
     ∃ f, fs (w_ext w) !! blob_path blob_dir id = Some f ∧
       ∀ x, x < size (metadata e) → mem (written_areas be) x = true → f_data f !! N.to_nat x = data !! N.to_nat x) →
  ∀ x, x < size (metadata e) → mem (available_ranges b) x = true → file_data b w1 !! N.to_nat x = data !! N.to_nat x.
Proof.
  intros [O1 O2 _ _ O5 O6 _ (be & O8 & _ & O8') O9 O10 O11 _] Hlen Hhere x Hx Hm.
  destruct (blob (content e)) as [id|] eqn:Eb.
  - destruct O8' as (Hbe & Hav' & _). destruct O5 as [[= ->]|?]; [|done]. rewrite Hav' in Hm.
    destruct (Hhere (blob_id b) be eq_refl Hbe) as (f & Hf & Hfx). specialize (Hfx x Hx Hm).
    rewrite O11. unfold file_data. rewrite Hf.
    assert (is_Some (data !! N.to_nat x)) as [c Hcx] by (apply lookup_lt_is_Some; lia).
    rewrite Hcx in Hfx |- *. by rewrite lookup_resize by (lia || by eapply lookup_lt_Some).
  - destruct O8' as [_ Hav']. by rewrite Hav' in Hm.
Qed.

(** C3: when a job that realizes a file says that it is done, the file is at its place
    in the arena with the content that was asked for, whatever the peers sent,
    provided that a blob that was verified before still has its content. *)
Theorem realize_job_done root path hash index_hash w w'
  (Hready : job_ready path w)
  (Hverified : ∀ i e id be, cached_as arena_root (db w) path i e → blob (content e) = Some id →
     tbl_get id (blob_table (db w)) = Some be → content_hash be = Some hash →
     ∀ f, fs (w_ext w) !! blob_path blob_dir id = Some f → digest (f_data f) = hash)
  (Hdone : job_realize (Some root) path hash index_hash w = (Ok Done, w')) :
  ∃ f, fs (w_ext w') !! within path root = Some f ∧ digest (f_data f) = hash.
Proof.
  unfold job_realize, sbind in Hdone. destruct (download path hash w) as [[st|err] w1] eqn:Ed; [|done].
  case_bool_decide as E; cbn [negb] in Hdone; [|unfold sret in Hdone; congruence]. subst st. unfold storage in Hdone.
  pose proof (realize_run arena arena_root blob_dir root path hash index_hash w1) as H.
  destruct (realize _ _ _ _ _ _ _ _) as [[[]|err] w2]; unfold sret in Hdone; [|congruence..]. injection Hdone as <-.
  destruct H as (i & e & id & be & f & Hc & Hh & Hb & Hbe & Hch & Hf & _ & -> & _).
  exists f. rewrite lookup_insert_eq. split; [done|].
  apply download_run in Ed as [(i' & e' & id' & Hc' & _ & Hb' & _ & (be' & f' & _ & _ & _ & _ & Hf' & _ & Hd))|(-> & _)]; [| |done].
  - destruct (cached_as_functional _ _ _ _ _ _ Hc Hc') as [-> ->]. rewrite Hb in Hb'. injection Hb' as ->.
    rewrite Hf in Hf'. by injection Hf' as ->.
  - by eapply Hverified.
Qed.

(** C9: a file that is available from honest peers is downloaded: whatever was already
    there of it, only what is missing is asked for, and whatever the sizes of the
    chunks that come, the job is done and the blob has the content of the file. *)
Theorem honest_download path i e data w av
  (Hready : job_ready path w) (Hc : cached_as arena_root (db w) path i e)
  (Hdata : digest data = fc_hash (content e)) (Hlen : N.of_nat (length data) = size (metadata e))
  (Hmissing : cache_local_availability (db w) i = Ok Missing ∨ ∃ n r, cache_local_availability (db w) i = Ok (Partial n r))
  (Hav : do_file_availability (cache (db w)) i arena = Ok av) (Hpeers : av_peers av ≠ [])
  (Hhere : ∀ id be, blob (content e) = Some id → tbl_get id (blob_table (db w)) = Some be →
     ∃ f, fs (w_ext w) !! blob_path blob_dir id = Some f ∧
       ∀ x, x < size (metadata e) → mem (written_areas be) x = true → f_data f !! N.to_nat x = data !! N.to_nat x)
  (Hhonest : honest path data) :
  ∃ w' id f, download path (fc_hash (content e)) w = (Ok Done, w') ∧ downloaded path (fc_hash (content e)) w' ∧
    cached_as arena_root (db w') path i (set_blob e (Some id)) ∧
    fs (w_ext w') !! blob_path blob_dir id = Some f ∧ f_data f = data.
Proof.
  destruct Hready as [J1 J2 J3 J4]. pose proof (J3 i e Hc) as Hs. destruct Hc as [[a Hl] He].
  assert (size (metadata e) < u64_modulus) as Hs' by (unfold RSYNC_BLOCK_SIZE in Hs; lia).
  set (hash := fc_hash (content e)) in *.
  assert (download path hash w = (let* fetched := with_blob i (fetch path hash (av_peers av)) in
      match fetched with None => sret Abandoned | Some _ => verify path i hash end) w) as ->.
  { unfold download. rewrite Hl, Hav. destruct (av_peers av); [done|].
    by destruct Hmissing as [->|(n & r & ->)]. }
  unfold sbind at 1, with_blob. unfold sbind at 1, storage.
  pose proof (open_file_run i e w He J1 Hs' (λ _, J2)) as H.
  destruct (open_file blob_dir now i w) as [[b|err] w1].
  2:{ exfalso. destruct H as (_ & _ & id & Hb & Hn). unfold cache_local_availability, get_default_entry in Hmissing.
      rewrite He in Hmissing. simpl in Hmissing. unfold local_availability in Hmissing. rewrite Hb in Hmissing.
      unfold get_blob_entry in Hmissing. rewrite Hn in Hmissing. by destruct Hmissing as [?|(? & ? & ?)]. }
  pose proof H as [O1 O2 _ _ O5 O6 _ (be & O8 & _ & O8') O9 O10 O11 _].
  pose proof (rd_wf _ O9) as Hw. simpl in Hw.
  pose proof (opened_agrees i e b w w1 data H Hlen Hhere) as Hagree.
  pose proof (fetch_run path hash (av_peers av) b w1 be J4 O8 Hw O10) as Hft.
  destruct (fetch path hash (av_peers av) (b, w1)) as [r [b2 w2]]. rewrite bool_decide_true in Hft by done.
  destruct Hft as [Hft Hr].
  destruct (honest_received path (av_peers av) (ByteRanges.iter (missing_ranges b)) data Hhonest Hpeers) as (R1 & R2 & R3).
  { intros r' Hr'. rewrite Hlen, <- O2. by apply missing_ranges_bounds. }
  rewrite R1 in Hr. subst r.
  destruct (fetched_entry path (av_peers av) i e b w w1 _ J4 H Hft) as (F1 & F2 & F3). simpl in *.
  destruct Hft as [_ (be2 & Hbe2 & Hwf2 & Hm2) ([f2 Hf2] & Hfd2)]. simpl in *.
  assert (full_to (written_areas be2) (size (metadata e))) as Hfull.
  { intros x Hx. rewrite Hm2. destruct (mem (available_ranges b) x) eqn:Em; [done|]. simpl. apply R3.
    destruct (missing_spec b Hw) as [Wm Mm]. destruct (iter_spec _ Wm) as [_ Hmem]. rewrite <- Hmem, Mm, Em, O2.
    by rewrite (proj2 (N.ltb_lt _ _) Hx). }
  assert (f_data f2 = data) as Ef2.
  { unfold file_data at 1 in Hfd2. rewrite Hf2 in Hfd2. rewrite Hfd2. apply wrote_whole; [|exact R2|].
    { pose proof (rd_len _ O9) as Hl9. simpl in Hl9. lia. }
    intros x Hx. specialize (Hfull x ltac:(lia)). rewrite Hm2 in Hfull.
    apply orb_prop in Hfull as [Hx'|Hx']; [left; apply Hagree; [lia|done]|by right]. }
  destruct (verify_right path i (set_blob e (Some (blob_id b))) (blob_id b) data w2) as (w' & V1 & V2 & V3 & f & V4 & V5);
    [exact F3|exact F2|exact Hs'|done|exact Hdata|by exists be2|by exists f2|exact Hlen|].
  exists w', (blob_id b), f. simpl in *.
  assert (cached_as arena_root (db w') path i (set_blob e (Some (blob_id b)))) as Hc'.
  { unfold cached_as. rewrite V3. split; [|exact F3]. exists a. by rewrite (blob_of_only_dirs _ _ _ _ _ F1). }
  split; [exact V1|]. split; [|by split_and!]. exists i, (set_blob e (Some (blob_id b))), (blob_id b).
  split; [done|]. split; [done|]. split; [done|]. split; [|exact V2].
  eapply verified_is_available; [apply Hc'|done|reflexivity|exact V2].
Qed.
(** When the transfer is interrupted, by an error of a peer or because the job is
    cancelled, nothing that was received before is lost: the bytes are in the file,
    the database lists exactly what it listed and what came, and nothing else of
    the database has changed, so the next attempt asks for the rest only. *)
Theorem interrupted_fetch_keeps path i e hash peers w m w'
  (He : tbl_get (i, "") (cache_file_table (cache (db w))) = Some e) (Ha : areas_ok (blob_table (db w)))
  (Hs : size (metadata e) < u64_modulus) (Hlast : last_blob (blob_table (db w)) + 1 < u64_modulus)
  (Hpeers : peers_bounded) (Hfail : with_blob i (fetch path hash peers) w = (Err (JobPeer m), w')) :
  ∃ b w1 be, opened i e b w w1 ∧ blob_of_only i e (blob_id b) (db w) (db w') ∧
    let came := to_receive path peers b in
    file_data b w' = wrote came (file_data b w1) ∧
    tbl_get (blob_id b) (blob_table (db w')) = Some be ∧
    (∀ x, mem (written_areas be) x = mem (available_ranges b) x || covered (chunk_range <$> came) x) ∧
    areas_ok (blob_table (db w')) ∧
    all_received path peers (ByteRanges.iter (missing_ranges b)) = false.
Proof.
  unfold with_blob, sbind, storage in Hfail. pose proof (open_file_run i e w He Ha Hs (λ _, Hlast)) as H.
  destruct (open_file blob_dir now i w) as [[b|err] w1]; [|done].
  pose proof H as [_ _ _ _ _ _ _ (be & O8 & _) O9 O10 _ _].
  pose proof (fetch_run path hash peers b w1 be Hpeers O8 (rd_wf _ O9) O10) as Hft.
  destruct (fetch path hash peers (b, w1)) as [r [b2 w2]]. injection Hfail as -> ->.
  case_bool_decide; [|by destruct Hft]. destruct Hft as [Hft Hr].
  destruct (fetched_entry path peers i e b w w1 _ Hpeers H Hft) as (F1 & F2 & _).
  destruct Hft as [_ (be2 & F3 & _ & F4) [_ F5]]. simpl in *.
  exists b, w1, be2. split_and!; try done. by destruct (all_received _ _ _).
Qed.
End jobs.

(** ** Witnesses *)

Section witnesses.
#[local] Existing Instance gmap_redb.
#[local] Existing Instance list_bimap.
#[local] Existing Instance list_bimap_laws.

(** A peer that sends what it is asked of [data], byte by byte. *)
Definition serve (data : list byte) (_ : list Peer) (_ : Path) (o : N) (limit : option N)
  : result string (list (result string chunk)) :=
  Ok (Ok <$> imap (λ k c, (o + N.of_nat k, [c])) (read_at o (default u64_max limit) data)).

Lemma stream_chunks_ok (l : list chunk) : stream_chunks (Ok <$> l) = l ∧ stream_ok (Ok <$> l) = true.
Proof. induction l as [|c l [IH1 IH2]]; [done|]. split; [simpl; f_equal; exact IH1|exact IH2]. Qed.

Lemma elem_of_served o n data (c : chunk) :
  c ∈ imap (λ k c, (o + N.of_nat k, [c])) (read_at o n data) ↔
  ∃ k x, c = (o + N.of_nat k, [x]) ∧ (k < N.to_nat n)%nat ∧ data !! (N.to_nat o + k)%nat = Some x.
Proof.
  rewrite elem_of_lookup_imap. unfold read_at. split.
  - intros (k & x & -> & Hk). exists k, x. split; [done|]. pose proof (lookup_lt_Some _ _ _ Hk) as Hl.
    rewrite length_take in Hl. rewrite lookup_take_lt, lookup_drop in Hk by lia. split; [lia|done].
  - intros (k & x & -> & Hk & Hx). exists k, x. split; [done|]. by rewrite lookup_take_lt, lookup_drop.
Qed.

Lemma serve_bounded data : N.of_nat (length data) < u64_modulus → peers_bounded (serve data).
Proof.
  intros Hl peers path o n stream c [= <-]. rewrite (proj1 (stream_chunks_ok _)).
  intros (k & x & -> & _ & Hx%lookup_lt_Some)%elem_of_served. unfold chunk_end. simpl. lia.
Qed.

Lemma serve_honest path data : honest (serve data) path data.
Proof.
  intros peers o n _ Ho. unfold serve. eexists. split; [done|].
  rewrite (proj1 (stream_chunks_ok _)), (proj2 (stream_chunks_ok _)). split; [done|]. split.
  - intros c (k & x & -> & _ & Hx)%elem_of_served. pose proof (lookup_lt_Some _ _ _ Hx). unfold chunk_end. simpl.
    split; [lia|]. unfold read_at. replace (N.to_nat (o + N.of_nat k)) with (N.to_nat o + k)%nat by lia.
    by rewrite (drop_S _ _ _ Hx).
  - intros x H1 H2. apply existsb_exists. assert (is_Some (data !! N.to_nat x)) as [c Hc] by (apply lookup_lt_is_Some; lia).
    exists (chunk_range (x, [c])). rewrite <- list_elem_of_In. split.
    + apply list_elem_of_fmap. exists (x, [c]). split; [done|]. apply elem_of_served. exists (N.to_nat (x - o)), c.
      split_and!; [f_equal; lia|simpl; lia|]. by replace (N.to_nat o + N.to_nat (x - o))%nat with (N.to_nat x) by lia.
    + apply contains_iff. unfold chunk_range, chunk_end. simpl. lia.
Qed.

Definition five : list byte := [x61; x62; x63; x64; x65].
Definition toy_digest (d : list byte) : Hash := if decide (d = five) then hash1 else hash2.
Definition no_rsync (_ : list Peer) (_ : Path) (_ : ByteRange) (_ : ()) : result string () := Err "no rsync".
Definition toy_download read := download arena_a 2 "/blobs" (mkUnixTime 9) toy_digest () () (λ _, tt) (λ _ _ _, None) read no_rsync.
Definition toy_realize read := job_realize arena_a 2 "/blobs" (mkUnixTime 9) toy_digest () () (λ _, tt) (λ _ _ _, None) read no_rsync.

Lemma added_entry i e : cached_as 2 (db w_added) foobar i e →
  i = 103 ∧ fc_hash (content e) = hash1 ∧ size (metadata e) = 5 ∧ blob (content e) = None.
Proof.
  intros [[a Hl] He].
  assert (do_lookup_path (cache_directory_table (cache (db w_added))) 2 (Some foobar) = Ok (103, AFile)) as E by by vm_compute.
  rewrite E in Hl. injection Hl as <- <-. clear E.
  assert ((λ e, (fc_hash (content e), size (metadata e), blob (content e))) <$>
    tbl_get (103, "") (cache_file_table (cache (db w_added))) = Some (hash1, 5, None)) as E by by vm_compute.
  rewrite He in E. by injection E as -> -> ->.
Qed.

Lemma added_areas : areas_ok (blob_table (db w_added)).
Proof.
  intros id e He. exfalso. apply elem_of_iter in He.
  assert (tbl_iter (blob_table (db w_added)) = []) as E by by vm_compute. rewrite E in He. by apply not_elem_of_nil in He.
Qed.

Lemma added_ready : job_ready 2 (serve five) foobar w_added.
Proof.
  split; [apply added_areas|by vm_compute| |by apply serve_bounded].
  intros i e Hc. destruct (added_entry i e Hc) as (_ & _ & -> & _). by vm_compute.
Qed.

Definition w_downloaded : World := (toy_download (serve five) foobar hash1 w_added).2.
Definition w_realized : World := (toy_realize (serve five) (Some "/root") foobar hash1 None w_added).2.

Lemma downloaded1 : toy_download (serve five) foobar hash1 w_added = (Ok Done, w_downloaded).
Proof. unfold w_downloaded. apply pair_of. by vm_compute. Qed.

Lemma realized1 : toy_realize (serve five) (Some "/root") foobar hash1 None w_added = (Ok Done, w_realized).
Proof. unfold w_realized. apply pair_of. by vm_compute. Qed.

Example download_done_witness :
  downloaded 2 "/blobs" toy_digest foobar hash1 w_downloaded ∨
  (w_downloaded = w_added ∧ ∃ i a, do_lookup_path (cache_directory_table (cache (db w_added))) 2 (Some foobar) = Ok (i, a) ∧
     cache_local_availability (db w_added) i = Ok Verified).
Proof.
  exact (download_done arena_a 2 "/blobs" (mkUnixTime 9) toy_digest () () (λ _, tt) (λ _ _ _, None) (serve five) no_rsync
    foobar hash1 w_added w_downloaded added_ready downloaded1).
Defined.

Example realize_job_done_witness :
  ∃ f, fs (w_ext w_realized) !! "/root/foo/bar" = Some f ∧ toy_digest (f_data f) = hash1.
Proof.
  apply (realize_job_done arena_a 2 "/blobs" (mkUnixTime 9) toy_digest () () (λ _, tt) (λ _ _ _, None) (serve five) no_rsync
    "/root" foobar hash1 None w_added w_realized added_ready); [|exact realized1].
  intros i e id be Hc Hb. destruct (added_entry i e Hc) as (_ & _ & _ & Hn). congruence.
Defined.
Lemma added_entry_is : ∃ e, tbl_get (103, "") (cache_file_table (cache (db w_added))) = Some e ∧ cached_as 2 (db w_added) foobar 103 e.
Proof.
  destruct (tbl_get (103, "") (cache_file_table (cache (db w_added)))) as [e|] eqn:E; [|by vm_compute in E].
  exists e. split; [done|]. split; [|exact E]. exists AFile. clear E. by vm_compute.
Qed.

Example honest_download_witness :
  ∃ w' id f, toy_download (serve five) foobar hash1 w_added = (Ok Done, w') ∧
    fs (w_ext w') !! blob_path "/blobs" id = Some f ∧ f_data f = five.
Proof.
  destruct added_entry_is as (e & He & Hc). pose proof (added_entry 103 e Hc) as (_ & Eh & Es & Eb).
  destruct (do_file_availability (cache (db w_added)) 103 arena_a) as [av|] eqn:Eav; [|by vm_compute in Eav].
  assert (av_peers <$> result_ok (do_file_availability (cache (db w_added)) 103 arena_a) = Some [peer1]) as Ep by by vm_compute.
  rewrite Eav in Ep. injection Ep as Ep.
  destruct (honest_download arena_a 2 "/blobs" (mkUnixTime 9) toy_digest () () (λ _, tt) (λ _ _ _, None) (serve five) no_rsync
    foobar 103 e five w_added av added_ready Hc) as (w' & id & f & H1 & _ & _ & H2 & H3);
    [rewrite Eh; clear; by vm_compute|by rewrite Es|left; clear; by vm_compute|exact Eav|by rewrite Ep
    |intros id be Hb; congruence|apply serve_honest|].
  rewrite Eh in H1. exists w', id, f. split; [exact H1|]. by split.
Defined.

(** A peer that stops after two bytes. *)
Definition serve_part (data : list byte) peers path o limit : result string (list (result string chunk)) :=
  result_map (λ stream, take 2 stream ++ [Err "cancelled"]) (serve data peers path o limit).
Definition toy_fetch read :=
  with_blob "/blobs" (mkUnixTime 9) 103 (fetch "/blobs" (mkUnixTime 9) read foobar hash1 [peer1]).
Definition w_part : World := (toy_fetch (serve_part five) w_added).2.

Lemma part1 : toy_fetch (serve_part five) w_added = (Err (JobPeer "cancelled"), w_part).
Proof. unfold w_part. apply pair_of. by vm_compute. Qed.

Lemma stream_chunks_prefix (l1 : list (result string chunk)) c :
  c ∈ stream_chunks (take 2 l1 ++ [Err "cancelled"]) → c ∈ stream_chunks l1.
Proof.
  destruct l1 as [|[c1|e1] l1]; simpl; [done| |done].
  destruct l1 as [|[c2|e2] l1]; simpl; [done| |done]. rewrite !elem_of_cons. intros [->|[->|?%not_elem_of_nil]]; [by left|by right; left|done].
Qed.

Lemma serve_part_bounded : peers_bounded (serve_part five).
Proof.
  intros peers path o n stream c [= <-] Hc. apply (stream_chunks_prefix _) in Hc.
  by eapply (serve_bounded five ltac:(by vm_compute) peers path o n).
Qed.

Example interrupted_fetch_keeps_witness :
  (∃ b w1 be, opened "/blobs" 103 (default (FileTableEntry_new foobar 0 (mkUnixTime 0) hash2 0)
        (tbl_get (103, "") (cache_file_table (cache (db w_added))))) b w_added w1 ∧
     tbl_get (blob_id b) (blob_table (db w_part)) = Some be) ∧
  (ByteRanges.iter ∘ written_areas) <$> tbl_get 1 (blob_table (db w_part)) = Some [ByteRange.new 0 2].
Proof.
  split; [|by vm_compute]. destruct added_entry_is as (e & He & Hc). rewrite He. simpl.
  pose proof (added_entry 103 e Hc) as (_ & _ & Es & _).
  destruct (interrupted_fetch_keeps "/blobs" (mkUnixTime 9) (serve_part five) foobar 103 e hash1 [peer1] w_added "cancelled" w_part
    He added_areas ltac:(by rewrite Es) ltac:(clear; by vm_compute) serve_part_bounded part1) as (b & w1 & be & H1 & _ & _ & H2 & _).
  by exists b, w1, be.
Defined.
End witnesses.
