(* ===== verification/Downloader.v ===== *)
(** * Reading a file through the cache

    [crate/realize-core/src/fs/downloader.rs]: a reader that serves what is available
    locally from the blob of the file, and otherwise downloads a range of it, keeps
    the chunks in memory and writes them to the blob.

    Everything the reader polls answers through [Answers]: the file of the blob (a
    tokio [File]) and the download, which may be pending or fail at any time; what is
    relied on of the file is said by [honest_at].  [fill] is a loop that may not end:
    its fuel is the number of chunks in memory and one more, and [None] is a loop
    that does not end ([fill_ends]). *)
From Stdlib Require Import Strings.Byte.
From S2P Require Import Prelude Bytes Range RangeSet Redb Path Types Db Blob.
Local Open Scope N_scope.

Definition MIN_CHUNK_SIZE : N := 8 * 1024.
Definition MAX_CHUNK_SIZE : N := 4 * MIN_CHUNK_SIZE.

(** [ReadBuf] *)
Record ReadBuf : Type := { rb_capacity : N; rb_filled : list byte }.
Definition rb_remaining (buf : ReadBuf) : N := rb_capacity buf - N.of_nat (length (rb_filled buf)).
Definition put_slice (d : list byte) (buf : ReadBuf) : ReadBuf :=
  {| rb_capacity := rb_capacity buf; rb_filled := rb_filled buf ++ d |}.

Definition Chunk : Type := ByteRange * list byte.

(** A seek of the blob is always to a position from the start.  The future of a
    download is what [Answers] says of it. *)
Inductive ReadState : Type :=
| RDefault
| RStartSeek (position : N) (next : ReadState)
| RSeek (next : ReadState)
| RRead
| RWrite (range : ByteRange) (data : list byte) (chunks : list Chunk)
| RDownload (range : ByteRange).

Record Download : Type := {
  d_size : N;
  d_offset : N;
  pending_seek : option N;
  avail : list Chunk;
  read : ReadState;
  d_blob : Blob;
  (** The position that the file of the blob was last told to go to. *)
  d_seeking : option N;
}.

Definition download_new (size : N) (b : Blob) : Download :=
  {| d_size := size; d_offset := 0; pending_seek := None; avail := []; read := RDefault; d_blob := b; d_seeking := None |}.

Definition set_read s (d : Download) : Download :=
  {| d_size := d_size d; d_offset := d_offset d; pending_seek := pending_seek d; avail := avail d; read := s;
     d_blob := d_blob d; d_seeking := d_seeking d |}.
Definition set_d_blob b (d : Download) : Download :=
  {| d_size := d_size d; d_offset := d_offset d; pending_seek := pending_seek d; avail := avail d; read := read d;
     d_blob := b; d_seeking := d_seeking d |}.
Definition set_seeking p (d : Download) : Download :=
  {| d_size := d_size d; d_offset := d_offset d; pending_seek := pending_seek d; avail := avail d; read := read d;
     d_blob := d_blob d; d_seeking := p |}.
Definition set_position o (chunks : list Chunk) (d : Download) : Download :=
  {| d_size := d_size d; d_offset := o; pending_seek := pending_seek d; avail := chunks; read := read d;
     d_blob := d_blob d; d_seeking := d_seeking d |}.
Definition set_pending_seek p (d : Download) : Download :=
  {| d_size := d_size d; d_offset := d_offset d; pending_seek := p; avail := avail d; read := read d;
     d_blob := d_blob d; d_seeking := d_seeking d |}.

Definition at_end (d : Download) : bool := d_size d <=? d_offset d.

(** ** Serving chunks from memory *)

Fixpoint fill_loop (fuel : nat) (requested : ByteRange) (filled : bool) (d : Download) (buf : ReadBuf)
  : option (bool * Download * ReadBuf) :=
  match fuel with
  | O => None
  | S fuel =>
      match avail d with
      | [] => Some (filled, d, buf)
      | (range, data) :: rest =>
          let intersection := ByteRange.intersection requested range in
          if negb (ByteRange.is_empty intersection) && (start intersection =? d_offset d) then
            let buf := put_slice (slice (start intersection - start range) (end_ intersection - start range) data) buf in
            let offset := u64_add (d_offset d) (ByteRange.bytecount intersection) in
            if end_ intersection <? end_ range then Some (true, set_position offset (avail d) d, buf)
            else
              let d := set_position offset rest d in
              if rb_remaining buf =? 0 then Some (true, d, buf) else fill_loop fuel requested true d buf
          else fill_loop fuel requested filled d buf
      end
  end.

(** [Download::fill] *)
Definition fill (fuel : nat) (d : Download) (buf : ReadBuf) : option (bool * Download * ReadBuf) :=
  fill_loop fuel (ByteRange.new_with_size (d_offset d) (rb_remaining buf)) false d buf.

(** The range that [next_request] downloads. *)
Definition next_request (bufsize : N) (d : Download) : ByteRange :=
  let next := match last (avail d) with Some (range, _) => end_ range | None => d_offset d end in
  let align := next mod MIN_CHUNK_SIZE in
  let next := next - align in
  let bufsize := u64_add bufsize align in
  let bufsize := u64_add bufsize (MIN_CHUNK_SIZE - bufsize mod MIN_CHUNK_SIZE) in
  let bufsize := if MAX_CHUNK_SIZE <? bufsize then MAX_CHUNK_SIZE else bufsize in
  ByteRange.new next (N.min (d_size d) (u64_add next bufsize)).

(** The chunks of a download, sorted by their start ([sort_by_key] is stable). *)
Definition chunk_le (a b : Chunk) : Prop := start a.1 ≤ start b.1.
#[global] Instance chunk_le_dec a b : Decision (chunk_le a b).
Proof. unfold chunk_le. apply _. Defined.
Definition sort_chunks (l : list Chunk) : list Chunk := merge_sort chunk_le l.
Definition chunks_of (l : list (N * list byte)) : list Chunk :=
  sort_chunks ((λ c, (ByteRange.new_with_size c.1 (N.of_nat (length c.2)), c.2)) <$> l).

(** [write_chunks_state] *)
Definition write_chunks_state (chunks : list Chunk) (d : Download) : ReadState :=
  match chunks with
  | (chunk_range, chunk_data) :: chunks =>
      let write_state := RWrite chunk_range chunk_data chunks in
      if start chunk_range =? offset (d_blob d) then write_state else RStartSeek (start chunk_range) write_state
  | [] => RDefault
  end.

(** ** Polling *)

(** What everything that a step may poll answers. *)
Record Answers : Type := {
  a_seek : Poll (result IoError N);
  a_start_seek : result IoError ();
  a_read : N → Poll (result IoError (list byte));
  a_write : N → Poll (result IoError N);
  a_download : Poll (result IoError (list (N * list byte)));
}.

(** [handle_poll_read]: the state that follows, and what it returns; [None] when
    [fill] does not end. *)
Definition handle_poll_read (a : Answers) (state : ReadState) (d : Download) (buf : ReadBuf)
  : option (Download * ReadBuf * option (Poll (result IoError ()))) :=
  match state with
  | RDefault =>
      if at_end d then Some (set_read RDefault d, buf, Some (Ready (Ok ())))
      else
        match fill (S (length (avail d))) d buf with
        | None => None
        | Some (true, d, buf) => Some (set_read RDefault d, buf, Some (Ready (Ok ())))
        | Some (false, d, buf) =>
            match readable_length (d_blob d) (d_offset d) (rb_remaining buf) with
            | None => Some (set_read (RDownload (next_request (rb_capacity buf) d)) d, buf, None)
            | Some _ =>
                Some (set_read (if offset (d_blob d) =? d_offset d then RRead else RStartSeek (d_offset d) RRead) d,
                      buf, None)
            end
        end
  | RStartSeek position next =>
      match poll_complete (a_seek a) (d_blob d) with
      | (Pending, b) => Some (set_read (RStartSeek position next) (set_d_blob b d), buf, Some Pending)
      | (Ready (Err err), b) => Some (set_read RDefault (set_d_blob b d), buf, Some (Ready (Err err)))
      | (Ready (Ok _), b) =>
          match a_start_seek a with
          | Err err => Some (set_read RDefault (set_d_blob b d), buf, Some (Ready (Err err)))
          | Ok _ => Some (set_read (RSeek next) (set_seeking (Some position) (set_d_blob b d)), buf, None)
          end
      end
  | RSeek next =>
      match poll_complete (a_seek a) (d_blob d) with
      | (Pending, b) => Some (set_read (RSeek next) (set_d_blob b d), buf, Some Pending)
      | (Ready (Err err), b) => Some (set_read RDefault (set_d_blob b d), buf, Some (Ready (Err err)))
      | (Ready (Ok _), b) => Some (set_read next (set_d_blob b d), buf, None)
      end
  | RRead =>
      match poll_read (a_read a) (rb_remaining buf) (d_blob d) with
      | (Pending, b) => Some (set_read RRead (set_d_blob b d), buf, Some Pending)
      | (Ready (Err err), b) => Some (set_read RDefault (set_d_blob b d), buf, Some (Ready (Err err)))
      | (Ready (Ok bytes), b) =>
          Some (set_read RDefault (set_position (u64_add (d_offset d) (N.of_nat (length bytes))) (avail d) (set_d_blob b d)),
                put_slice bytes buf, Some (Ready (Ok ())))
      end
  | RDownload r =>
      match a_download a with
      | Pending => Some (set_read (RDownload r) d, buf, Some Pending)
      | Ready (Err err) => Some (set_read RDefault d, buf, Some (Ready (Err err)))
      | Ready (Ok chunks) => Some (set_read (write_chunks_state (chunks_of chunks) d) d, buf, None)
      end
  | RWrite r data chunks =>
      match poll_write (a_write a (N.of_nat (length data))) (d_blob d) with
      | (Pending, b) => Some (set_read (RWrite r data chunks) (set_d_blob b d), buf, Some Pending)
      | (Ready (Err err), b) => Some (set_read RDefault (set_d_blob b d), buf, Some (Ready (Err err)))
      | (Ready (Ok _), b) =>
          let av := avail d ++ [(r, data)] in
          let av := match chunks with [] => sort_chunks av | _ => av end in
          let d := set_position (d_offset d) av (set_d_blob b d) in
          Some (set_read (write_chunks_state chunks d) d, buf, None)
      end
  end.

(** [AsyncRead::poll_read]: one answer for each turn of the loop. *)
Inductive Polled : Type :=
| Returned (d : Download) (buf : ReadBuf) (p : Poll (result IoError ()))
| Diverges
| Running (d : Download) (buf : ReadBuf).

Fixpoint poll_read_loop (answers : list Answers) (d : Download) (buf : ReadBuf) : Polled :=
  match answers with
  | [] => Running d buf
  | a :: answers =>
      match handle_poll_read a (read d) d buf with
      | None => Diverges
      | Some (d, buf, Some p) => Returned d buf p
      | Some (d, buf, None) => poll_read_loop answers d buf
      end
  end.

(** ** Seeking *)

Inductive SeekFrom : Type := SeekStart (o : N) | SeekEnd (o : Z) | SeekCurrent (o : Z).

Definition relative_offset (off : Z) (base : N) : result IoError N :=
  if (off <? 0)%Z then
    let diff := Z.to_N (- off) in
    if base <? diff then Err OsError else Ok (base - diff)
  else Ok (u64_add base (Z.to_N off)).

Definition start_seek (position : SeekFrom) (d : Download) : result IoError () * Download :=
  match (match position with
         | SeekCurrent o => relative_offset o (d_offset d)
         | SeekEnd o => relative_offset o (d_size d)
         | SeekStart o => Ok o
         end) with
  | Err e => (Err e, d)
  | Ok o => (Ok tt, set_pending_seek (Some (N.min (d_size d) o)) d)
  end.

Fixpoint drop_chunks (goal : N) (chunks : list Chunk) : list Chunk :=
  match chunks with
  | (range, data) :: rest => if negb (ByteRange.contains range goal) then drop_chunks goal rest else chunks
  | [] => []
  end.

Definition complete_seek (d : Download) : N * Download :=
  match pending_seek d with
  | None => (d_offset d, d)
  | Some goal =>
      let st := match read d with
                | RDownload range => if negb (ByteRange.contains range goal) then RDefault else read d
                | st => st
                end in
      (goal, set_read st (set_position goal (drop_chunks goal (avail d)) (set_pending_seek None d)))
  end.

(** ** Lemmas *)

Section reader.
Context (content : list byte).
Implicit Types (d : Download) (buf : ReadBuf) (c : Chunk) (chunks : list Chunk).

Definition content_size : N := N.of_nat (length content).

(** A chunk with the right bytes. *)
Record chunk_ok c : Prop := {
  ck_end : end_ c.1 = start c.1 + N.of_nat (length c.2);
  ck_size : end_ c.1 ≤ content_size;
  ck_bytes : c.2 = slice (start c.1) (end_ c.1) content;
}.

Lemma put_remaining x buf : N.of_nat (length x) ≤ rb_remaining buf →
  rb_remaining (put_slice x buf) = rb_remaining buf - N.of_nat (length x).
Proof. unfold rb_remaining, put_slice. simpl. rewrite length_app. lia. Qed.

(** When a chunk is used, and what of it. *)
Lemma chunk_used o0 o e0 r :
  o0 ≤ o →
  let i := ByteRange.intersection {| start := o0; end_ := e0 |} r in
  negb (ByteRange.is_empty i) && (start i =? o) = true ↔
  N.max o0 (start r) = o ∧ o < N.min e0 (end_ r) ∧ i = ByteRange.new o (N.min e0 (end_ r)).
Proof.
  intros Ho. unfold ByteRange.intersection, ByteRange.is_empty, ByteRange.empty, ByteRange.new. simpl.
  destruct (N.leb_spec (N.min e0 (end_ r)) (N.max o0 (start r))) as [H|H]; simpl.
  - split; [done|]. intros (H1 & H2 & _). lia.
  - destruct (N.leb_spec (N.min e0 (end_ r)) (N.max o0 (start r))); [lia|]. simpl. rewrite N.eqb_eq.
    split; [intros E|by intros [? _]]. split; [done|]. split; [lia|]. by rewrite E.
Qed.

(** What [fill] puts in the buffer is the content at the offset. *)
Record filled_with d buf d' buf' : Prop := {
  fw_offset : d_offset d ≤ d_offset d';
  fw_bytes : rb_filled buf' = rb_filled buf ++ slice (d_offset d) (d_offset d') content;
  fw_room : d_offset d' - d_offset d ≤ rb_remaining buf;
  fw_cap : rb_capacity buf' = rb_capacity buf;
  fw_avail : ∃ n, avail d' = drop n (avail d);
  fw_rest : d' = set_position (d_offset d') (avail d') d;
  fw_end : d_offset d ≤ content_size → d_offset d' ≤ content_size;
}.

Lemma filled_refl d buf : filled_with d buf d buf.
Proof. split; [done|by rewrite slice_nil, app_nil_r|lia|done|by exists 0%nat|by destruct d|done]. Qed.

Lemma fill_loop_run fuel o0 e0 f d buf f' d' buf' :
  Forall chunk_ok (avail d) → o0 ≤ d_offset d → e0 = d_offset d + rb_remaining buf → e0 < u64_modulus →
  fill_loop fuel {| start := o0; end_ := e0 |} f d buf = Some (f', d', buf') →
  filled_with d buf d' buf' ∧ (f' = f ∧ d_offset d' = d_offset d ∧ avail d = [] ∨ f' = true).
Proof.
  revert f d buf. induction fuel as [|fuel IH]; intros f d buf Hok Ho He Hu; simpl; [done|].
  destruct (avail d) as [|[r x] rest] eqn:Ea.
  { intros [= <- <- <-]. split; [apply filled_refl|by left]. }
  destruct (negb _ && _) eqn:Em.
  2:{ intros H. destruct (IH f d buf ltac:(by rewrite Ea) Ho He Hu H) as [H1 [(_ & _ & H2)|H2]]; [congruence|].
      split; [done|by right]. }
  apply chunk_used in Em as (M1 & M2 & ->); [|done]. apply Forall_cons in Hok as [[C1 C2 C3] Hrest]. simpl in C1, C2, C3.
  unfold ByteRange.bytecount, u64_saturating_sub. simpl. set (e := N.min e0 (end_ r)) in *.
  assert (slice (d_offset d - start r) (e - start r) x = slice (d_offset d) e content) as ->.
  { rewrite C3. apply slice_slice; lia. }
  rewrite u64_add_small by lia. replace (d_offset d + (e - d_offset d)) with e by lia.
  assert (N.of_nat (length (slice (d_offset d) e content)) = e - d_offset d) as Hlen
    by (apply length_slice; unfold content_size in *; lia).
  pose proof (put_remaining (slice (d_offset d) e content) buf ltac:(lia)) as Hrem. rewrite Hlen in Hrem.
  set (buf1 := put_slice (slice (d_offset d) e content) buf) in *.
  destruct (N.ltb_spec e (end_ r)) as [Hlt|Hge].
  { intros [= <- <- <-]. split; [|by right]. split; simpl; try done; [lia|lia|by exists 0%nat|lia]. }
  set (d1 := set_position e rest d).
  assert (filled_with d buf d1 buf1) as Hf1.
  { split; simpl; try done; [lia|lia| |lia]. exists 1%nat. by rewrite Ea. }
  destruct (N.eqb_spec (rb_remaining buf1) 0) as [_|Hne].
  { intros [= <- <- <-]. split; [done|by right]. }
  intros H. destruct (IH true d1 buf1) as [[G1 G2 G3 G4 (n & G5) G6 G8] G7]; [exact Hrest|simpl; lia|simpl; lia|done|exact H|].
  simpl in *. split.
  - split.
    + simpl in G1. lia.
    + rewrite G2. unfold buf1. simpl. rewrite <- app_assoc. f_equal. apply slice_app; lia.
    + rewrite Hrem in G3. lia.
    + done.
    + exists (S n). by rewrite G5, Ea.
    + rewrite G6. done.
    + intros _. apply G8. simpl. lia.
  - right. by destruct G7 as [(-> & _)|?].
Qed.

(** Chunks without a gap, the first of which holds the offset [o]. *)
Fixpoint chain_from (e : N) chunks : Prop :=
  match chunks with
  | [] => True
  | (r, _) :: rest => start r = e ∧ e < end_ r ∧ chain_from (end_ r) rest
  end.
Definition chain (o : N) chunks : Prop :=
  match chunks with [] => True | (r, _) :: rest => start r ≤ o ∧ o < end_ r ∧ chain_from (end_ r) rest end.
Definition last_end (o : N) chunks : N := match last chunks with Some (r, _) => end_ r | None => o end.

Lemma last_end_cons o c chunks : last_end o (c :: chunks) = last_end (end_ c.1) chunks.
Proof. unfold last_end. rewrite last_cons. destruct (last chunks) as [[r x]|]; [done|]. by destruct c. Qed.

Lemma chain_from_ge e chunks : chain_from e chunks → e ≤ last_end e chunks.
Proof.
  revert e. induction chunks as [|[r x] rest IH]; intros e; simpl; [done|]. intros (H1 & H2 & H3).
  rewrite last_end_cons. simpl. specialize (IH _ H3). lia.
Qed.

Lemma chain_of_from e chunks : chain_from e chunks → chain e chunks.
Proof. destruct chunks as [|[r x] rest]; simpl; [done|]. intros (H1 & H2 & H3). split_and!; [lia|done|done]. Qed.

Lemma chain_run fuel o0 e0 f d buf r x rest :
  Forall chunk_ok (avail d) → avail d = (r, x) :: rest → N.max o0 (start r) = d_offset d → d_offset d < end_ r →
  chain_from (end_ r) rest → e0 = d_offset d + rb_remaining buf → 0 < rb_remaining buf → e0 < u64_modulus →
  (length (avail d) ≤ fuel)%nat →
  ∃ d' buf', fill_loop (S fuel) {| start := o0; end_ := e0 |} f d buf = Some (true, d', buf') ∧
    d_offset d' = N.min e0 (last_end 0 (avail d)) ∧ chain (d_offset d') (avail d').
Proof.
  revert f d buf r x rest. induction fuel as [|fuel IH]; intros f d buf r x rest Hok Ea Hm Hlt Hch He Hrem Hu Hfuel.
  { rewrite Ea in Hfuel. simpl in Hfuel. lia. }
  cbn [fill_loop]. rewrite Ea in Hok |- *. set (i := ByteRange.intersection _ r).
  assert (negb (ByteRange.is_empty i) && (start i =? d_offset d) = true ∧ i = ByteRange.new (d_offset d) (N.min e0 (end_ r))) as [Em Ei].
  { destruct (N.leb_spec o0 (d_offset d)) as [Ho|Ho]; [|lia]. pose proof (chunk_used o0 (d_offset d) e0 r Ho) as H. fold i in H.
    assert (i = ByteRange.new (d_offset d) (N.min e0 (end_ r))) as Ei.
    { unfold i, ByteRange.intersection, ByteRange.new. simpl. rewrite Hm.
      destruct (N.leb_spec (N.min e0 (end_ r)) (d_offset d)); [lia|done]. }
    split; [|exact Ei]. apply H. split_and!; [done|lia|exact Ei]. }
  rewrite Em, Ei. apply Forall_cons in Hok as [[C1 C2 C3] Hrest]. simpl in C1, C2, C3.
  unfold ByteRange.bytecount, u64_saturating_sub. simpl. set (e := N.min e0 (end_ r)) in *.
  assert (slice (d_offset d - start r) (e - start r) x = slice (d_offset d) e content) as ->.
  { rewrite C3. apply slice_slice; lia. }
  rewrite u64_add_small by lia. replace (d_offset d + (e - d_offset d)) with e by lia.
  assert (N.of_nat (length (slice (d_offset d) e content)) = e - d_offset d) as Hlen
    by (apply length_slice; unfold content_size in *; lia).
  pose proof (put_remaining (slice (d_offset d) e content) buf ltac:(lia)) as Hr1. rewrite Hlen in Hr1.
  set (buf1 := put_slice (slice (d_offset d) e content) buf) in *.
  pose proof (chain_from_ge _ _ Hch) as Hge. rewrite last_end_cons. simpl.
  destruct (N.ltb_spec e (end_ r)) as [Hlt'|Hge'].
  { eexists _, _. split; [done|]. simpl. split; [lia|]. split_and!; [lia|done|done]. }
  assert (e = end_ r) as Ee by lia.
  destruct (N.eqb_spec (rb_remaining buf1) 0) as [Hz|Hne].
  { eexists _, _. split; [done|]. simpl. split; [lia|]. rewrite Ee. by apply chain_of_from. }
  destruct rest as [|[r2 x2] rest].
  { simpl. eexists _, _. split; [done|]. simpl. split; [|done]. unfold last_end. simpl. lia. }
  simpl in Hch. destruct Hch as (H1 & H2 & H3).
  destruct (IH true (set_position e ((r2, x2) :: rest) d) buf1 r2 x2 rest) as (d' & buf' & E & G1 & G2);
    [exact Hrest|done|simpl; lia|simpl; lia|done|simpl; lia|lia|done|rewrite Ea in Hfuel; simpl in *; lia|].
  exists d', buf'. split; [exact E|]. split; [|exact G2]. rewrite G1. cbn [avail set_position]. by rewrite !last_end_cons.
Qed.

Lemma fill_stuck fuel f d buf r x rest :
  avail d = (r, x) :: rest → d_offset d + rb_remaining buf < u64_modulus →
  rb_remaining buf = 0 ∨ ByteRange.contains r (d_offset d) = false →
  fill_loop fuel (ByteRange.new_with_size (d_offset d) (rb_remaining buf)) f d buf = None.
Proof.
  intros Ea Hu Hs. revert f. induction fuel as [|fuel IH]; intros f; [done|]. cbn [fill_loop]. rewrite Ea.
  destruct (negb _ && _) eqn:Em; [|apply IH]. exfalso. unfold ByteRange.new_with_size in Em. rewrite u64_add_small in Em by done.
  apply chunk_used in Em as (M1 & M2 & _); [|done]. destruct Hs as [Hs|Hs]; [lia|].
  apply not_true_iff_false in Hs. apply Hs, contains_iff. lia.
Qed.

(** ** The reader *)

(** Where a state reads or writes the blob, the file has been told to go there. *)
Definition state_ok (b_off : N) (o : N) (seeking : option N) (st : ReadState) : Prop :=
  match st with
  | RDefault | RDownload _ => True
  | RRead => b_off = o
  | RWrite r x chunks => b_off = start r ∧ chunk_ok (r, x) ∧ Forall chunk_ok chunks
  | RStartSeek p RRead => p = o
  | RStartSeek p (RWrite r x chunks) => p = start r ∧ chunk_ok (r, x) ∧ Forall chunk_ok chunks
  | RSeek RRead => seeking = Some o
  | RSeek (RWrite r x chunks) => seeking = Some (start r) ∧ chunk_ok (r, x) ∧ Forall chunk_ok chunks
  | _ => False
  end.

Record reader_ok d : Prop := {
  ro_size : d_size d = content_size;
  ro_offset : d_offset d ≤ d_size d;
  ro_avail : Forall chunk_ok (avail d);
  ro_state : state_ok (offset (d_blob d)) (d_offset d) (d_seeking d) (read d);
}.

(** What is relied on: the file is where it was told to go, what is read from the blob
    is the content there, and the peers send the content. *)
Record honest_at (a : Answers) d buf : Prop := {
  ha_seek : ∀ next p, read d = RSeek next → a_seek a = Ready (Ok p) → d_seeking d = Some p;
  ha_read : ∀ n x, n ≤ rb_remaining buf → a_read a n = Ready (Ok x) →
    N.of_nat (length x) ≤ n ∧ offset (d_blob d) + N.of_nat (length x) ≤ content_size ∧
    x = slice (offset (d_blob d)) (offset (d_blob d) + N.of_nat (length x)) content;
  ha_download : ∀ l o x, a_download a = Ready (Ok l) → (o, x) ∈ l →
    o + N.of_nat (length x) ≤ content_size ∧ x = slice o (o + N.of_nat (length x)) content;
}.

Fixpoint honest_run (answers : list Answers) d buf : Prop :=
  match answers with
  | [] => True
  | a :: answers =>
      honest_at a d buf ∧
      match handle_poll_read a (read d) d buf with Some (d, buf, None) => honest_run answers d buf | _ => True end
  end.

Lemma sort_chunks_ok chunks : Forall chunk_ok chunks → Forall chunk_ok (sort_chunks chunks).
Proof. intros H. unfold sort_chunks. by rewrite (merge_sort_Permutation chunk_le chunks). Qed.

Lemma write_chunks_ok chunks d o seeking :
  Forall chunk_ok chunks → state_ok (offset (d_blob d)) o seeking (write_chunks_state chunks d).
Proof.
  intros H. destruct chunks as [|[r x] chunks]; [done|]. apply Forall_cons in H as [H1 H2]. simpl.
  destruct (N.eqb_spec (start r) (offset (d_blob d))) as [E|E]; simpl; by split_and!.
Qed.

Lemma chunks_of_ok (l : list (N * list byte)) :
  content_size < u64_modulus →
  (∀ o x, (o, x) ∈ l → o + N.of_nat (length x) ≤ content_size ∧ x = slice o (o + N.of_nat (length x)) content) →
  Forall chunk_ok (chunks_of l).
Proof.
  intros Hu Hl. apply sort_chunks_ok, Forall_forall. intros c ([o x] & -> & Hin)%list_elem_of_fmap.
  destruct (Hl o x Hin) as [H1 H2]. unfold ByteRange.new_with_size. rewrite u64_add_small by (simpl; lia). by split.
Qed.

Lemma readable_length_le b off n k : readable_length b off n = Some k → k ≤ n.
Proof.
  unfold readable_length. destruct (_ || _); [intros [= <-]; lia|].
  destruct (ByteRanges.containing_range _ _); simpl; [intros [= <-]; lia|done].
Qed.

(** What a turn of [poll_read] does. *)
Record served d buf d' buf' (p : option (Poll (result IoError ()))) : Prop := {
  sv_ok : reader_ok d';
  sv_offset : d_offset d ≤ d_offset d';
  sv_bytes : rb_filled buf' = rb_filled buf ++ slice (d_offset d) (d_offset d') content;
  sv_room : d_offset d' - d_offset d ≤ rb_remaining buf;
  sv_cap : rb_capacity buf' = rb_capacity buf;
  sv_rest : p ≠ Some (Ready (Ok tt)) → d_offset d' = d_offset d;
}.

Lemma served_still d buf d' p :
  reader_ok d → d_size d' = d_size d → d_offset d' = d_offset d → Forall chunk_ok (avail d') →
  state_ok (offset (d_blob d')) (d_offset d) (d_seeking d') (read d') → served d buf d' buf p.
Proof.
  intros [R1 R2 R3 R4] H1 H2 H3 H4. split; [split; rewrite ?H1, ?H2; try done; by rewrite H2|..]; rewrite ?H2; try done.
  - by rewrite slice_nil, app_nil_r.
  - lia.
Qed.

Lemma turn_run a d buf d' buf' p :
  content_size + rb_capacity buf < u64_modulus → reader_ok d → honest_at a d buf →
  handle_poll_read a (read d) d buf = Some (d', buf', p) → served d buf d' buf' p.
Proof.
  intros Hu Hok [Hs Hrd Hdl]. pose proof Hok as [R1 R2 R3 R4].
  assert (rb_remaining buf ≤ rb_capacity buf) as Hcap by (unfold rb_remaining; lia).
  destruct (read d) as [|pos next|next| |r x chunks|r] eqn:Est; simpl.
  - (* RDefault *)
    destruct (at_end d); [intros [= <- <- <-]; by apply served_still|].
    destruct (fill _ d buf) as [[[f d1] buf1]|] eqn:Ef; [|done]. unfold fill, ByteRange.new_with_size in Ef.
    rewrite u64_add_small in Ef by lia.
    apply fill_loop_run in Ef as [[G1 G2 G3 G4 (n & G5) G6 G8] G7]; [|done|lia|done|lia].
    assert (Forall chunk_ok (avail d1)) as Hav by (rewrite G5; by apply Forall_drop).
    assert (d_offset d1 ≤ d_size d) as Hend by (rewrite R1; apply G8; lia).
    destruct f.
    + intros [= <- <- <-]. split; simpl; try done. split; simpl; try done; rewrite G6; simpl; try done.
    + destruct G7 as [(_ & E & Ea)|?]; [|done].
      assert (d1 = d) as ->.
      { rewrite G6, E. rewrite G5, Ea, drop_nil. rewrite <- Ea. by destruct d. }
      assert (buf1 = buf) as -> by (destruct buf1, buf; simpl in *; rewrite G2, slice_nil, app_nil_r; by subst).
      destruct (readable_length _ _ _); intros [= <- <- <-]; apply served_still; try done. simpl.
      destruct (N.eqb_spec (offset (d_blob d)) (d_offset d)) as [E'|_]; simpl; done.
  - (* RStartSeek *)
    destruct (a_seek a) as [|[q|err]]; simpl.
    + intros [= <- <- <-]. by apply served_still.
    + destruct (a_start_seek a); intros [= <- <- <-]; apply served_still; try done. simpl in *.
      destruct next; try done; [by f_equal|]. destruct R4 as (-> & ? & ?). by split_and!.
    + intros [= <- <- <-]. by apply served_still.
  - (* RSeek *)
    destruct (a_seek a) as [|[q|err]] eqn:Eq; simpl.
    + intros [= <- <- <-]. by apply served_still.
    + intros [= <- <- <-]. pose proof (Hs _ q eq_refl eq_refl) as Eseek. apply served_still; try done. simpl in *.
      destruct next; simpl in *; try done; rewrite Eseek in R4; [by injection R4|].
      destruct R4 as ([= ->] & ? & ?). by split_and!.
    + intros [= <- <- <-]. by apply served_still.
  - (* RRead *)
    unfold poll_read. destruct (readable_length (d_blob d) (offset (d_blob d)) (rb_remaining buf)) as [k|] eqn:Ek.
    2:{ intros [= <- <- <-]. by apply served_still. }
    apply readable_length_le in Ek. simpl in R4.
    destruct (k =? 0).
    { intros [= <- <- <-]. simpl. rewrite u64_add_small by lia. rewrite N.add_0_r.
      assert (put_slice [] buf = buf) as -> by (destruct buf; unfold put_slice; simpl; by rewrite app_nil_r).
      apply served_still; try done. }
    destruct (a_read a k) as [|[y|err]] eqn:Er.
    + intros [= <- <- <-]. apply served_still; try done.
    + destruct (Hrd k y Ek Er) as (B1 & B2 & B3). rewrite R4 in B2, B3. intros [= <- <- <-]. simpl.
      rewrite u64_add_small by lia. split; simpl; try done; try lia; [split; simpl; try done; lia|by rewrite <- B3].
    + intros [= <- <- <-]. by apply served_still.
  - (* RWrite *)
    destruct R4 as (E & C & Cs). destruct (a_write a _) as [|[n|err]] eqn:Ew; simpl.
    + intros [= <- <- <-]. by apply served_still.
    + assert (Forall chunk_ok (match chunks with [] => sort_chunks (avail d ++ [(r, x)]) | _ :: _ => avail d ++ [(r, x)] end)) as Hav.
      { assert (Forall chunk_ok (avail d ++ [(r, x)])) by (apply Forall_app; split; [done|by constructor]).
        destruct chunks; [by apply sort_chunks_ok|done]. }
      destruct (0 <? n); intros [= <- <- <-]; (apply served_still; [done|done|done|exact Hav|]);
        match goal with |- context [write_chunks_state chunks ?d] => exact (write_chunks_ok chunks d _ _ Cs) end.
    + intros [= <- <- <-]. by apply served_still.
  - (* RDownload *)
    destruct (a_download a) as [|[l|err]] eqn:Ed; simpl.
    + intros [= <- <- <-]. by apply served_still.
    + intros [= <- <- <-]. apply served_still; try done. simpl. apply write_chunks_ok, chunks_of_ok; [lia|].
      intros o x Hin. by eapply Hdl.
    + intros [= <- <- <-]. by apply served_still.
Qed.

Lemma served_trans d buf d1 buf1 d2 buf2 p :
  served d buf d1 buf1 None → served d1 buf1 d2 buf2 p → served d buf d2 buf2 p.
Proof.
  intros [A1 A2 A3 A4 A5 A6] [B1 B2 B3 B4 B5 B6]. pose proof (A6 ltac:(done)) as E. rewrite E in *.
  rewrite slice_nil, app_nil_r in A3. assert (rb_remaining buf1 = rb_remaining buf) as Er by (unfold rb_remaining; by rewrite A3, A5).
  split; [done|done|by rewrite B3, A3|by rewrite <- Er|congruence|done].
Qed.

Lemma loop_run answers d buf d' buf' p :
  content_size + rb_capacity buf < u64_modulus → reader_ok d → honest_run answers d buf →
  poll_read_loop answers d buf = Returned d' buf' p → served d buf d' buf' (Some p).
Proof.
  revert d buf. induction answers as [|a answers IH]; intros d buf Hu Hok Hh; simpl; [done|]. destruct Hh as [Ha Hh].
  destruct (handle_poll_read a (read d) d buf) as [[[d1 buf1] [p1|]]|] eqn:E; [|..|done].
  - intros [= <- <- <-]. by eapply turn_run.
  - intros H. pose proof (turn_run a d buf d1 buf1 None Hu Hok Ha E) as Hs. eapply served_trans; [exact Hs|].
    apply IH; [by rewrite (sv_cap _ _ _ _ _ Hs)|apply Hs|done|done].
Qed.

(** A read is not under way in the blob: it was not started, or the reader is
    downloading or writing what it downloaded. *)
Definition settled (st : ReadState) : bool :=
  match st with RRead | RStartSeek _ RRead | RSeek RRead => false | _ => true end.

Lemma drop_chunks_ok goal chunks : Forall chunk_ok chunks → Forall chunk_ok (drop_chunks goal chunks).
Proof.
  induction chunks as [|[r x] chunks IH]; [done|]. intros H. simpl. destruct (negb _); [|done].
  apply IH. by apply Forall_cons in H as [_ ?].
Qed.

(** ** Properties *)

(** A seek goes to the position asked for or to the end of the file, fails before its
    start, and keeps what the reader relies on, unless a read of the blob was left
    unfinished. *)
Theorem seek_spec d position
  (Hok : reader_ok d) (Hu : 2 * content_size < u64_modulus) (Hset : settled (read d) = true) :
  let target := match position with
                | SeekStart o => Z.of_N o
                | SeekEnd o => (Z.of_N (d_size d) + o)%Z
                | SeekCurrent o => (Z.of_N (d_offset d) + o)%Z
                end in
  (target < Z.of_N u64_modulus)%Z →
  match start_seek position d with
  | (Ok _, d1) => (0 ≤ target)%Z ∧ (complete_seek d1).1 = N.min (d_size d) (Z.to_N target) ∧
      d_offset (complete_seek d1).2 = N.min (d_size d) (Z.to_N target) ∧ reader_ok (complete_seek d1).2
  | (Err e, d1) => (target < 0)%Z ∧ d1 = d
  end.
Proof.
  intros target Ht. destruct Hok as [R1 R2 R3 R4].
  assert (∀ o, let d1 := set_pending_seek (Some (N.min (d_size d) o)) d in
    (complete_seek d1).1 = N.min (d_size d) o ∧ d_offset (complete_seek d1).2 = N.min (d_size d) o ∧
    reader_ok (complete_seek d1).2) as Hgo.
  { intros o. simpl. split; [done|]. split; [done|]. split; simpl; [done|lia|by apply drop_chunks_ok|].
    destruct (read d) as [|pos next|next| |r x chunks|r]; simpl in *; try done; [by destruct next..|].
    by destruct (negb _). }
  unfold start_seek. assert (∀ off base, base ≤ content_size → (Z.of_N base + off < Z.of_N u64_modulus)%Z →
    relative_offset off base = if (Z.of_N base + off <? 0)%Z then Err OsError else Ok (Z.to_N (Z.of_N base + off))) as Hrel.
  { intros off base Hb Hlt. unfold relative_offset. destruct (Z.ltb_spec off 0) as [Hn|Hp].
    - destruct (N.ltb_spec base (Z.to_N (- off))), (Z.ltb_spec (Z.of_N base + off) 0); try lia; [done|]. f_equal. lia.
    - destruct (Z.ltb_spec (Z.of_N base + off) 0); [lia|]. rewrite u64_add_small by lia. f_equal. lia. }
  destruct position as [o|o|o]; subst target.
  - rewrite N2Z.id. split; [lia|]. apply Hgo.
  - rewrite Hrel by lia. destruct (Z.ltb_spec (Z.of_N (d_size d) + o) 0); [by split|]. split; [done|]. apply Hgo.
  - rewrite Hrel by lia. destruct (Z.ltb_spec (Z.of_N (d_offset d) + o) 0); [by split|]. split; [done|]. apply Hgo.
Qed.

(** A seek while a read of the blob is under way (the read was given up while it
    waited) does not stop that read: the next one goes on with it, and gives the
    bytes of the old position as those of the new one. *)
Theorem seek_during_read_misplaces a d buf goal k x
  (Hread : read d = RRead) (Hseek : pending_seek d = Some goal)
  (Hk : readable_length (d_blob d) (offset (d_blob d)) (rb_remaining buf) = Some k) (Hpos : 0 < k)
  (Ha : a_read a k = Ready (Ok x)) (Hu : goal + N.of_nat (length x) < u64_modulus)
  (Hx : x = slice (offset (d_blob d)) (offset (d_blob d) + N.of_nat (length x)) content) :
  ∃ d', poll_read_loop [a] (complete_seek d).2 buf = Returned d' (put_slice x buf) (Ready (Ok tt)) ∧
    rb_filled (put_slice x buf) =
      rb_filled buf ++ slice (offset (d_blob d)) (offset (d_blob d) + N.of_nat (length x)) content ∧
    d_offset (complete_seek d).2 = goal ∧ d_offset d' = goal + N.of_nat (length x).
Proof.
  unfold complete_seek. rewrite Hseek, Hread. simpl. unfold poll_read. rewrite Hk.
  destruct (N.eqb_spec k 0); [lia|]. rewrite Ha. eexists. split; [done|]. simpl. rewrite u64_add_small by done.
  split; [|done]. by rewrite <- Hx.
Qed.

(** Serving chunks from memory ends exactly when the first chunk holds the position
    and there is room in the buffer (or there are no chunks): then it fills the
    buffer, or gives all there is; otherwise the loop never ends, for a buffer
    without room and for chunks that begin before the position. *)
Theorem fill_ends d buf
  (Hok : Forall chunk_ok (avail d)) (Hu : d_offset d + rb_remaining buf < u64_modulus) :
  match avail d with
  | [] => ∀ fuel, fill (S fuel) d buf = Some (false, d, buf)
  | (r, x) :: rest =>
      (rb_remaining buf = 0 ∨ ByteRange.contains r (d_offset d) = false → ∀ fuel, fill fuel d buf = None) ∧
      (0 < rb_remaining buf → chain (d_offset d) (avail d) →
       ∃ d' buf', fill (S (length (avail d))) d buf = Some (true, d', buf') ∧ filled_with d buf d' buf' ∧
         d_offset d' = N.min (d_offset d + rb_remaining buf) (last_end 0 (avail d)) ∧ chain (d_offset d') (avail d'))
  end.
Proof.
  destruct (avail d) as [|[r x] rest] eqn:Ea.
  { intros fuel. unfold fill. cbn [fill_loop]. by rewrite Ea. }
  split; [intros Hs fuel; by eapply fill_stuck|]. intros Hrem (H1 & H2 & H3). unfold fill, ByteRange.new_with_size.
  rewrite u64_add_small by done. rewrite <- Ea in *.
  destruct (chain_run (length (avail d)) (d_offset d) (d_offset d + rb_remaining buf) false d buf r x rest)
    as (d' & buf' & E & G1 & G2); [done|done|lia|done|done|done|done|done|done|].
  exists d', buf'. split; [exact E|]. split; [|done].
  by destruct (fill_loop_run _ _ _ _ _ _ _ _ _ Hok (N.le_refl _) eq_refl Hu E).
Qed.

(** The range that is downloaded holds the position of the reader, is within the file,
    starts at a multiple of the smallest chunk, ends at another or at the end of the
    file, is no longer than the largest chunk, and is all that was asked for unless
    that is too long. *)
Theorem next_request_bounds d (bufsize : N)
  (Ha : avail d = []) (Ho : d_offset d < d_size d) (Hu : d_size d + bufsize + 2 * MAX_CHUNK_SIZE < u64_modulus) :
  let r := next_request bufsize d in
  start r ≤ d_offset d ∧ d_offset d < end_ r ∧ end_ r ≤ d_size d ∧ start r mod MIN_CHUNK_SIZE = 0 ∧
  (end_ r = d_size d ∨ end_ r mod MIN_CHUNK_SIZE = 0) ∧ ByteRange.bytecount r ≤ MAX_CHUNK_SIZE ∧
  (d_offset d + bufsize < end_ r ∨ end_ r = d_size d ∨ ByteRange.bytecount r = MAX_CHUNK_SIZE).
Proof.
  unfold next_request. rewrite Ha. simpl last. cbv iota zeta. set (o := d_offset d) in *. set (al := o mod MIN_CHUNK_SIZE).
  assert (al < MIN_CHUNK_SIZE ∧ al ≤ o) as [Hal Hal'].
  { split; [by apply N.mod_lt|]. by apply N.Div0.mod_le. }
  unfold MAX_CHUNK_SIZE, MIN_CHUNK_SIZE in *. rewrite (u64_add_small bufsize al) by lia.
  set (m := (bufsize + al) mod (8 * 1024)). assert (m < 8 * 1024) as Hm by by apply N.mod_lt.
  rewrite (u64_add_small (bufsize + al)) by lia. set (n := bufsize + al + (8 * 1024 - m)).
  assert (n mod (8 * 1024) = 0) as Hn.
  { assert (n = ((bufsize + al) / (8 * 1024) + 1) * (8 * 1024)) as ->; [|by apply N.Div0.mod_mul].
    pose proof (N.div_mod (bufsize + al) (8 * 1024) ltac:(done)) as E. fold m in E. unfold n. lia. }
  assert ((o - al) mod (8 * 1024) = 0) as Hs.
  { pose proof (N.div_mod o (8 * 1024) ltac:(done)) as E. fold al in E.
    assert (o - al = (o / (8 * 1024)) * (8 * 1024)) as -> by lia. by apply N.Div0.mod_mul. }
  assert (∀ k, k mod (8 * 1024) = 0 → (o - al + k) mod (8 * 1024) = 0) as Hsum.
  { intros k Hk. rewrite N.Div0.add_mod, Hs, Hk. done. }
  unfold ByteRange.bytecount, u64_saturating_sub. cbn [start end_ ByteRange.new].
  assert (al < n) as Han by (unfold n; lia).
  destruct (N.ltb_spec (4 * (8 * 1024)) n) as [Hbig|Hsmall].
  - rewrite u64_add_small by lia. split_and!; try lia.
    destruct (N.le_gt_cases (d_size d) (o - al + 4 * (8 * 1024))); [left; lia|right].
    rewrite N.min_r by lia. by apply Hsum.
  - rewrite u64_add_small by lia. split_and!; try lia.
    destruct (N.le_gt_cases (d_size d) (o - al + n)); [left; lia|right].
    rewrite N.min_r by lia. by apply Hsum.
Qed.

(** C23: a reader that was not left by a seek with a read of its blob under way, whose
    disk gives the content where it was told to go and whose peers send the content:
    however often it has to wait and whatever fails, and whether the bytes come from
    the blob, from chunks in memory or from a download of any part of the file in any
    order, a read only ever gives the bytes of the file at the position of the reader,
    no more than there is room for, and moves on by as many; when it does not succeed
    it gives nothing and stays where it was.  With nothing in memory, and a blob that
    does not have the next byte, the read that follows asks the peers for a range of the
    file with the position of the reader. *)
Theorem reader_content answers d buf d' buf' p
  (Hu : content_size + rb_capacity buf < u64_modulus) (Hok : reader_ok d) (Hh : honest_run answers d buf)
  (Hrun : poll_read_loop answers d buf = Returned d' buf' p) :
  reader_ok d' ∧ d_offset d ≤ d_offset d' ∧ d_offset d' - d_offset d ≤ rb_remaining buf ∧
  rb_filled buf' = rb_filled buf ++ slice (d_offset d) (d_offset d') content ∧
  (p ≠ Ready (Ok tt) → d_offset d' = d_offset d ∧ rb_filled buf' = rb_filled buf) ∧
  ∀ a next, read d' = RDefault → avail d' = [] → d_offset d' < content_size →
    content_size + rb_capacity next + 2 * MAX_CHUNK_SIZE < u64_modulus →
    readable_length (d_blob d') (d_offset d') (rb_remaining next) = None →
    ∃ r, handle_poll_read a (read d') d' next = Some (set_read (RDownload r) d', next, None) ∧
      start r ≤ d_offset d' ∧ d_offset d' < end_ r ∧ end_ r ≤ content_size.
Proof.
  destruct (loop_run answers d buf d' buf' p Hu Hok Hh Hrun) as [S1 S2 S3 S4 S5 S6]. split_and!; try done.
  - intros Hp. rewrite S3, S6 by congruence. split; [done|]. by rewrite slice_nil, app_nil_r.
  - intros a next Hr Ha Ho Hn Hno. rewrite <- (ro_size _ S1) in *. exists (next_request (rb_capacity next) d').
    destruct (next_request_bounds d' (rb_capacity next) Ha Ho Hn) as (N1 & N2 & N3 & _). split_and!; [|done..].
    rewrite Hr. unfold handle_poll_read, at_end. rewrite (proj2 (N.leb_gt _ _) Ho).
    unfold fill. cbn [fill_loop]. rewrite Ha, Hno. done.
Qed.

(** When the peers send nothing for the range, because the file is shorter there, the
    reader asks again and again and the read never returns. *)
Theorem empty_download_repeats a d buf n
  (Hread : read d = RDefault) (Ha : avail d = []) (Ho : d_offset d < d_size d)
  (Hmissing : readable_length (d_blob d) (d_offset d) (rb_remaining buf) = None)
  (Hempty : a_download a = Ready (Ok [])) :
  ∃ d', poll_read_loop (replicate n a) d buf = Running d' buf ∧ d_offset d' = d_offset d.
Proof.
  assert (∀ n d, d_offset d < d_size d → avail d = [] →
    readable_length (d_blob d) (d_offset d) (rb_remaining buf) = None → read d = RDefault ∨ (∃ r, read d = RDownload r) →
    ∃ d', poll_read_loop (replicate n a) d buf = Running d' buf ∧ d_offset d' = d_offset d) as H; [|by apply H; auto].
  clear -Hempty. induction n as [|n IH]; intros d Ho Ha Hm Hr; simpl; [by exists d|].
  destruct Hr as [-> |[r ->]]; simpl.
  - unfold at_end. destruct (N.leb_spec (d_size d) (d_offset d)); [lia|]. unfold fill. rewrite Ha. cbn [length fill_loop].
    rewrite Ha, Hm. destruct (IH (set_read (RDownload (next_request (rb_capacity buf) d)) d)) as (d' & H1 & H2); try done.
    { right. by eexists. }
    by exists d'.
  - rewrite Hempty. simpl. destruct (IH (set_read RDefault d)) as (d' & H1 & H2); try done; [by left|]. by exists d'.
Qed.
End reader.

(** ** Witnesses *)

Definition content1 : list byte := [x61; x62; x63]%byte.
Definition blob1 (available : ByteRanges) : Blob :=
  {| blob_id := 1; b_size := 3; b_hash := Hash.zero; available_ranges := available; pending_ranges := ByteRanges.new; offset := 0 |}.
Definition buf1 : ReadBuf := {| rb_capacity := 2; rb_filled := [] |}.
(** The blob is never ready, the peers send everything at once. *)
Definition peers1 : Answers :=
  {| a_seek := Pending; a_start_seek := Ok tt; a_read := λ _, Pending; a_write := λ n, Ready (Ok n);
     a_download := Ready (Ok [(0, content1)]) |}.
Definition empty1 : Answers :=
  {| a_seek := Pending; a_start_seek := Ok tt; a_read := λ _, Pending; a_write := λ n, Ready (Ok n);
     a_download := Ready (Ok []) |}.
Definition whole1 : Chunk := (ByteRange.new 0 3, content1).
(** A read of the blob that was left unfinished before a seek. *)
Definition reading1 : Download := set_pending_seek (Some 1) (set_read RRead (download_new 3 (blob1 (ByteRanges.single 0 3)))).
Definition read1 : Answers :=
  {| a_seek := Pending; a_start_seek := Ok tt; a_read := λ n, Ready (Ok (slice 0 n content1));
     a_write := λ n, Ready (Ok n); a_download := Pending |}.

Lemma new_ok : reader_ok content1 (download_new 3 (blob1 ByteRanges.new)).
Proof. by split. Qed.

Lemma whole1_ok : Forall (chunk_ok content1) [whole1].
Proof. by repeat constructor. Qed.

Lemma peers1_honest d buf : honest_at content1 peers1 d buf.
Proof. split; simpl; [done|done|]. intros l o x [= <-] [= -> ->]%list_elem_of_singleton. by split. Qed.

Lemma peers1_honest_run n d buf : honest_run content1 (replicate n peers1) d buf.
Proof.
  revert d buf. induction n as [|n IH]; intros d buf; [done|]. split; [apply peers1_honest|].
  by destruct (handle_poll_read _ _ _ _) as [[[? ?] [?|]]|].
Qed.

Lemma small1 : content_size content1 + rb_capacity buf1 < u64_modulus.
Proof. by vm_compute. Qed.

Lemma returned1 :
  ∃ d' buf', poll_read_loop (replicate 4 peers1) (download_new 3 (blob1 ByteRanges.new)) buf1 =
      Returned d' buf' (Ready (Ok tt)) ∧ d_offset d' = 2.
Proof. eexists _, _. split; [vm_compute; reflexivity|done]. Qed.

Example reader_content_witness :
  ∃ d' buf', poll_read_loop (replicate 4 peers1) (download_new 3 (blob1 ByteRanges.new)) buf1 =
      Returned d' buf' (Ready (Ok tt)) ∧ rb_filled buf' = [x61; x62]%byte ∧ d_offset d' = 2.
Proof.
  destruct returned1 as (d' & buf' & E & Ho). exists d', buf'. split; [done|]. split; [|done].
  destruct (reader_content content1 (replicate 4 peers1) (download_new 3 (blob1 ByteRanges.new)) buf1 d' buf' _
    small1 new_ok (peers1_honest_run _ _ _) E) as (_ & _ & _ & H & _).
  by rewrite H, Ho.
Defined.

Example seek_spec_witness :
  d_offset (complete_seek (start_seek (SeekEnd (-1)) (download_new 3 (blob1 ByteRanges.new))).2).2 = 2.
Proof.
  pose proof (seek_spec content1 _ (SeekEnd (-1)) new_ok ltac:(by vm_compute) eq_refl ltac:(by vm_compute)) as (_ & _ & H & _).
  exact H.
Defined.

Example seek_during_read_misplaces_witness :
  ∃ d', poll_read_loop [read1] (complete_seek reading1).2 buf1 = Returned d' (put_slice [x61; x62]%byte buf1) (Ready (Ok tt)) ∧
    d_offset (complete_seek reading1).2 = 1 ∧ d_offset d' = 3.
Proof.
  destruct (seek_during_read_misplaces content1 read1 reading1 buf1 1 2 [x61; x62]%byte)
    as (d' & H1 & _ & H2 & H3); [done|done|by vm_compute|done|done|done|done|].
  by exists d'.
Defined.

Example fill_ends_witness :
  ∃ d' buf', fill 2 (set_position 1 [whole1] (download_new 3 (blob1 ByteRanges.new))) buf1 = Some (true, d', buf') ∧ d_offset d' = 3.
Proof.
  pose proof (fill_ends content1 (set_position 1 [whole1] (download_new 3 (blob1 ByteRanges.new))) buf1 whole1_ok ltac:(by vm_compute)) as [_ H].
  destruct H as (d' & buf' & H1 & _ & H2 & _); [done|by vm_compute|]. by exists d', buf'.
Defined.

Example next_request_bounds_witness :
  end_ (next_request 2 (download_new 3 (blob1 ByteRanges.new))) = 3.
Proof.
  pose proof (next_request_bounds (download_new 3 (blob1 ByteRanges.new)) 2 eq_refl ltac:(done) ltac:(by vm_compute)) as (_ & _ & H & _).
  by vm_compute.
Defined.

Example empty_download_repeats_witness :
  ∃ d', poll_read_loop (replicate 10 empty1) (download_new 3 (blob1 ByteRanges.new)) buf1 = Running d' buf1 ∧ d_offset d' = 0.
Proof. by apply (empty_download_repeats empty1 (download_new 3 (blob1 ByteRanges.new)) buf1 10). Defined.
