(* ===== verification/RealStore.v ===== *)
(** * The files of an arena, for remote peers

    [crate/realize-storage/src/arena/store.rs]: listing, reading, writing, hashing
    and deleting the files of an arena for another machine.  A file that is being
    written is partial: [dir/.name.part] stands for [dir/name] until it is finished.

    The disk is [Fs]: the regular files by path.  Directories are not modelled, so
    creating the parents of a file and removing the ones that are left empty do
    nothing here.  Paths of the operating system are strings; every file is given by
    its absolute path, without [.], [..] or empty components.

    The order in which WalkDir gives the files, pathdiff, the digest and fast_rsync
    are parameters.  A panic in the task that serves a call is an error of its own,
    [Panicked]. *)
From Stdlib Require Import Strings.Byte.
From S2P Require Import Prelude Bytes Range RangeSet Redb Path Types Db.
Local Open Scope N_scope.
Local Open Scope realize_scope.

(** ** Data *)

Definition RSYNC_BLOCK_SIZE : N := 4096.

Inductive StorageAccess : Type := Read | ReadWrite.

Inductive PathType : Type := Partial | Final.

#[global] Instance StorageAccess_eq_dec : EqDecision StorageAccess.
Proof. solve_decision. Defined.
#[global] Instance PathType_eq_dec : EqDecision PathType.
Proof. solve_decision. Defined.

(** [Options] *)
Record Options : Type := { ignore_partial : bool }.

Record SyncedFile : Type := { sf_path : Path; sf_size : N; sf_mtime : UnixTime }.

Record RealStore : Type := { rs_map : gmap Arena string }.

Inductive RsyncOperation : Type := Diff | Apply | Sign.

Inductive RealStoreError : Type :=
| BadRequest (message : string)
| RsIo
| RsRsync (op : RsyncOperation)
| RsOther
| HashMismatch.

Inductive StoreError : Type := Failed (e : RealStoreError) | Panicked.

Definition StoreM (A : Type) : Type := StateM Fs StoreError A.

Definition unknown_arena : StoreError := Failed (BadRequest "Unknown arena").
Definition bad_path : StoreError := Failed (BadRequest "Path is invalid").
Definition not_found : StoreError := Failed RsIo.

Record PathResolver : Type := { pr_path : string; pr_access : StorageAccess }.

(** ** Paths of the operating system *)

(** What comes up to the last slash, and after it. *)
Definition dir_part (s : string) : string :=
  match Str.rfind "/" s with Some pos => Str.take (S pos) s | None => "" end.
Definition last_part (s : string) : string :=
  match Str.rfind "/" s with Some pos => Str.drop (S pos) s | None => s end.

(** [Path::file_name] and [PathBuf::set_file_name] *)
Definition file_name (s : string) : option string :=
  if Path.bad_component (last_part s) then None else Some (last_part s).
Definition set_file_name (name : string) (s : string) : string := dir_part s +:+ name.

(** [str::ends_with] *)
Definition ends_with (s suffix : string) : bool :=
  (String.length suffix <=? String.length s)%nat
  && bool_decide (Str.drop (String.length s - String.length suffix) s = suffix).

(** [Path::from_real_path]; a component of the operating system that is not normal is
    [.] at the start, [..] or the root. *)
Definition from_real_path (s : string) : result PathError Path :=
  if Str.starts_with s "/" || bool_decide (head (Str.split "/" s) = Some ".")
     || existsb (λ w, bool_decide (w = "..")) (Str.split "/" s)
  then Err InvalidPath
  else Path.parse s.

(** [non_partial_name]: the slice [name[1..len - 5]] panics for the name [.part]. *)
Definition non_partial_name (path : string) : result StoreError (option string) :=
  match file_name path with
  | Some name =>
      if Str.starts_with name "." && ends_with name ".part" then
        if (String.length name - 5 <? 1)%nat then Err Panicked
        else Ok (Some (Str.take (String.length name - 5 - 1) (Str.drop 1 name)))
      else Ok None
  | None => Ok None
  end.

Definition is_partial (path : string) : result StoreError bool :=
  result_map (λ o : option string, bool_decide (is_Some o)) (non_partial_name path).

Definition to_partial (path : string) : string :=
  match file_name path with
  | Some filename => set_file_name ("." +:+ filename +:+ ".part") path
  | None => path
  end.

Definition to_full_path (root : string) (relative : Path) : result StoreError (option string) :=
  let full_path := within relative root in
  result_map (λ partial : bool, if partial then None else Some full_path) (is_partial full_path).

Module PathResolver.
Definition new (path : string) (access : StorageAccess) : PathResolver := {| pr_path := path; pr_access := access |}.

Definition root (r : PathResolver) : string := pr_path r.

Definition partial_path (r : PathResolver) (path : Path) : result StoreError (option string) :=
  result_map (fmap to_partial) (to_full_path (pr_path r) path).

Definition final_path (r : PathResolver) (path : Path) : result StoreError (option string) :=
  to_full_path (pr_path r) path.

(** [resolve] *)
Definition resolve (r : PathResolver) (path : Path) : StoreM string :=
  let* full_path := slift (to_full_path (pr_path r) path) in
  let* full_path := slift (ok_or not_found full_path) in
  let* files := sget id in
  let partial := to_partial full_path in
  if bool_decide (pr_access r = ReadWrite) && bool_decide (is_Some (files !! partial)) then sret partial
  else if bool_decide (is_Some (files !! full_path)) then sret full_path
  else sthrow not_found.

(** [reverse], given what the path is relative to the root. *)
Definition reverse_relative (r : PathResolver) (relative : option string) : result StoreError (option (PathType * Path)) :=
  match relative with
  | None => Ok None
  | Some relative =>
      result_map
        (λ non_partial : option string,
           let '(path_type, relative) :=
             match non_partial with
             | Some name => (Partial, set_file_name name relative)
             | None => (Final, relative)
             end in
           match from_real_path relative with
           | Ok p => Some (path_type, p)
           | Err _ => None
           end)
        (if bool_decide (pr_access r = ReadWrite) then non_partial_name relative else Ok None)
  end.

Definition reverse (diff_paths : string → string → option string) (r : PathResolver) (actual : string)
  : result StoreError (option (PathType * Path)) :=
  if bool_decide (pr_access r = Read) then
    match is_partial actual with
    | Err e => Err e
    | Ok true => Ok None
    | Ok false => reverse_relative r (diff_paths actual (pr_path r))
    end
  else reverse_relative r (diff_paths actual (pr_path r)).
End PathResolver.

Module RealStore.
(** [new]: the last entry of an arena is kept. *)
Definition new (arenas : list (Arena * string)) : RealStore :=
  {| rs_map := foldl (λ m a, <[a.1 := a.2]> m) ∅ arenas |}.

(** [from_config]: the arenas that have a root. *)
Definition from_config (arenas : list (Arena * option string)) : RealStore :=
  new (omap (λ a : Arena * option string, (λ root, (a.1, root)) <$> a.2) arenas).

Definition single (arena : Arena) (path : string) : RealStore := new [(arena, path)].

Definition arenas (s : RealStore) : list Arena := (map_to_list (rs_map s)).*1.

Definition path_resolver (s : RealStore) (arena : Arena) (access : StorageAccess) : option PathResolver :=
  (λ p, PathResolver.new p access) <$> rs_map s !! arena.

Definition path_resolver_from_opts (s : RealStore) (arena : Arena) (opts : Options) : result StoreError PathResolver :=
  ok_or unknown_arena (path_resolver s arena (if ignore_partial opts then Read else ReadWrite)).
End RealStore.

(** ** Operations on open files *)

Section store.
Context (now : UnixTime).
Context (digest : list byte → Hash).
(** [WalkDir]: the files below a directory, in some order; [pathdiff::diff_paths]. *)
Context (walk : string → Fs → list (string * File)).
Context (diff_paths : string → string → option string).
(** fast_rsync: the signature of a content, the delta from a signature to a content
    (the signature may not parse), and the application of a delta within a limit. *)
Context (Signature Delta : Type).
Context (calculate : list byte → Signature).
Context (deserialize_diff : Signature → list byte → result RsyncOperation Delta).
Context (apply_limited : list byte → Delta → N → option (list byte)).

(** [open_for_range_write]: creates the file if it is not there. *)
Definition open_for_range_write (path : string) : StoreM () :=
  smodify (λ files, match files !! path with
                    | Some _ => files
                    | None => <[path := {| f_data := []; f_mtime := now |}]> files
                    end).

(** [open_for_range_read]: the content of the file. *)
Definition open_for_range_read (path : string) : StoreM (list byte) :=
  let* files := sget id in
  match files !! path with
  | Some f => sret (f_data f)
  | None => sthrow not_found
  end.

(** [read_padded] into a buffer of the size of the range; the length of a range that
    ends before it starts underflows, and slicing panics. *)
Definition read_padded (data : list byte) (range : ByteRange) : result StoreError (list byte) :=
  let initial_size := N.of_nat (length data) in
  let n := N.to_nat (ByteRange.bytecount range) in
  if start range <? initial_size then
    if N.min (end_ range) initial_size <? start range then Err Panicked
    else
      let read_end := N.min (end_ range) initial_size - start range in
      Ok (resize n x00 (read_at (start range) read_end data))
  else Ok (replicate n x00).

(** [write_at_offset] and [shorten_file] *)
Definition write_at_offset (path : string) (offset : N) (data : list byte) : StoreM () :=
  smodify (λ files, match files !! path, data with
                    | Some f, _ :: _ => <[path := {| f_data := write_at offset data (f_data f); f_mtime := now |}]> files
                    | _, _ => files
                    end).

Definition shorten_file (path : string) (file_size : N) : StoreM () :=
  smodify (λ files, match files !! path with
                    | Some f => if file_size <? f_len f
                                then <[path := {| f_data := take (N.to_nat file_size) (f_data f); f_mtime := now |}]> files
                                else files
                    | None => files
                    end).

(** The loop of [hash_large_range_exact]: what is left of the file after the offset,
    and of the range. *)
Fixpoint hash_range_loop (fuel : nat) (rest : list byte) (limit : N) (acc : list byte) : option Hash :=
  match fuel with
  | O => None
  | S fuel =>
      let buffer := take (N.to_nat (N.min limit (1024 * 1024))) rest in
      match buffer with
      | [] => Some (digest acc)
      | _ => hash_range_loop fuel (drop (length buffer) rest) (limit - N.of_nat (length buffer)) (acc ++ buffer)
      end
  end.

Definition hash_large_range_exact (path : string) (range : ByteRange) : StoreM Hash :=
  let* data := open_for_range_read path in
  if N.of_nat (length data) <? end_ range then sret Hash.zero
  else
    let rest := drop (N.to_nat (start range)) data in
    slift (ok_or Panicked (hash_range_loop (S (length rest)) rest (ByteRange.bytecount range) [])).

(** ** The operations of the store *)

Definition with_path (r : result StoreError (option string)) : StoreM string :=
  let* path := slift r in
  slift (ok_or bad_path path).

(** What the loop of [list] does with a file. *)
Definition list_entry (resolver : PathResolver) (files : gmap Path SyncedFile) (entry : string * File)
  : result StoreError (gmap Path SyncedFile) :=
  result_map
    (λ o : option (PathType * Path), match o with
           | Some (path_type, path) =>
               if bool_decide (path_type = Final) && bool_decide (is_Some (files !! path)) then files
               else <[path := {| sf_path := path; sf_size := f_len entry.2; sf_mtime := f_mtime entry.2 |}]> files
           | None => files
           end)
    (PathResolver.reverse diff_paths resolver entry.1).

Definition list_loop (resolver : PathResolver) (entries : list (string * File)) (files : gmap Path SyncedFile)
  : result StoreError (gmap Path SyncedFile) :=
  foldl (λ r entry, result_bind r (λ files, list_entry resolver files entry)) (Ok files) entries.

(** The values of a [BTreeMap], by the order of its keys. *)
Definition path_le (a b : SyncedFile) : Prop := key_le (as_str (sf_path a)) (as_str (sf_path b)).
#[local] Instance path_le_dec a b : Decision (path_le a b).
Proof. unfold path_le. apply _. Defined.
Definition into_values (files : gmap Path SyncedFile) : list SyncedFile :=
  merge_sort path_le (map_to_list files).*2.

(** [list]; a panic of the blocking task is an error here. *)
Definition list_files (s : RealStore) (arena : Arena) (options : Options) : StoreM (list SyncedFile) :=
  let* resolver := slift (RealStore.path_resolver_from_opts s arena options) in
  let* files := sget id in
  match list_loop resolver (walk (PathResolver.root resolver) files) ∅ with
  | Ok files => sret (into_values files)
  | Err Panicked => sthrow (Failed RsOther)
  | Err e => sthrow e
  end.

Definition send (s : RealStore) (arena : Arena) (relative_path : Path) (range : ByteRange) (data : list byte)
  (options : Options) : StoreM () :=
  let* resolver := slift (RealStore.path_resolver_from_opts s arena options) in
  let* path := with_path (PathResolver.partial_path resolver relative_path) in
  do* open_for_range_write path in
  write_at_offset path (start range) data.

Definition read (s : RealStore) (arena : Arena) (relative_path : Path) (range : ByteRange) (options : Options)
  : StoreM (list byte) :=
  let* resolver := slift (RealStore.path_resolver_from_opts s arena options) in
  let* actual := PathResolver.resolve resolver relative_path in
  let* data := open_for_range_read actual in
  slift (read_padded data range).

Definition rename_file (from to : string) : StoreM () :=
  smodify (λ files, match files !! from with
                    | Some f => <[to := f]> (delete from files)
                    | None => files
                    end).

Definition finish (s : RealStore) (arena : Arena) (relative_path : Path) (options : Options) : StoreM () :=
  if ignore_partial options
  then sthrow (Failed (BadRequest "Invalid option for finish: ignore_partial=true"))
  else
    let* resolver := slift (RealStore.path_resolver_from_opts s arena options) in
    let* partial_path := with_path (PathResolver.partial_path resolver relative_path) in
    let* actual := PathResolver.resolve resolver relative_path in
    if bool_decide (actual = partial_path) then
      let* final_path := with_path (PathResolver.final_path resolver relative_path) in
      rename_file actual final_path
    else sret ().

Definition hash_file_range (s : RealStore) (arena : Arena) (relative_path : Path) (range : ByteRange) (options : Options)
  : StoreM Hash :=
  let* resolver := slift (RealStore.path_resolver_from_opts s arena options) in
  let* path := PathResolver.resolve resolver relative_path in
  hash_large_range_exact path range.

Definition remove_file (path : string) : StoreM () := smodify (delete path).

Definition delete_file (s : RealStore) (arena : Arena) (relative_path : Path) (options : Options) : StoreM () :=
  let* resolver := slift (RealStore.path_resolver_from_opts s arena options) in
  let* final_path := with_path (PathResolver.final_path resolver relative_path) in
  do* remove_file final_path in
  let* partial_path := with_path (PathResolver.partial_path resolver relative_path) in
  remove_file partial_path.

Definition calculate_signature (s : RealStore) (arena : Arena) (relative_path : Path) (range : ByteRange)
  (options : Options) : StoreM Signature :=
  let* resolver := slift (RealStore.path_resolver_from_opts s arena options) in
  let* actual := PathResolver.resolve resolver relative_path in
  let* data := open_for_range_read actual in
  let* buffer := slift (read_padded data range) in
  sret (calculate buffer).

Definition diff (s : RealStore) (arena : Arena) (relative_path : Path) (range : ByteRange) (signature : Signature)
  (options : Options) : StoreM (Delta * Hash) :=
  let* resolver := slift (RealStore.path_resolver_from_opts s arena options) in
  let* actual := PathResolver.resolve resolver relative_path in
  let* data := open_for_range_read actual in
  let* buffer := slift (read_padded data range) in
  match deserialize_diff signature buffer with
  | Ok delta => sret (delta, digest buffer)
  | Err op => sthrow (Failed (RsRsync op))
  end.

Definition apply_delta (s : RealStore) (arena : Arena) (relative_path : Path) (range : ByteRange) (delta : Delta)
  (hash : Hash) (options : Options) : StoreM () :=
  let* resolver := slift (RealStore.path_resolver_from_opts s arena options) in
  let* path := with_path (PathResolver.partial_path resolver relative_path) in
  do* open_for_range_write path in
  let* data := open_for_range_read path in
  let* base := slift (read_padded data range) in
  match apply_limited base delta (ByteRange.bytecount range) with
  | None => sthrow (Failed (RsRsync Apply))
  | Some out =>
      if negb (N.of_nat (length out) =? ByteRange.bytecount range)
      then sthrow (Failed (BadRequest "Delta output size mismatch"))
      else if negb (bool_decide (digest out = hash)) then sthrow (Failed HashMismatch)
      else write_at_offset path (start range) out
  end.

Definition truncate (s : RealStore) (arena : Arena) (relative_path : Path) (file_size : N) (options : Options)
  : StoreM () :=
  let* resolver := slift (RealStore.path_resolver_from_opts s arena options) in
  let* path := with_path (PathResolver.partial_path resolver relative_path) in
  do* open_for_range_write path in
  shorten_file path file_size.
End store.

(** ** Lemmas on names *)

Lemma string_app_inj_l (a b c : string) : a +:+ b = a +:+ c → b = c.
Proof. apply (inj (String.app _)). Qed.

Lemma drop_app_str s t : Str.drop (String.length s) (s +:+ t) = t.
Proof. induction s as [|a s IH]; [by destruct t|]. rewrite ?app_cons_str. simpl. exact IH. Qed.

Lemma rfind_app c d n : Str.contains c n = false → Str.rfind c (d +:+ String c n) = Some (String.length d).
Proof.
  intros Hn. induction d as [|a d IH]; simpl.
  - rewrite (proj2 (rfind_None c n) Hn). by rewrite decide_True.
  - rewrite ?app_cons_str. simpl. by rewrite IH.
Qed.

(** A path is what comes up to the last slash, and the rest. *)
Lemma parts_slash d n : Str.contains "/" n = false →
  dir_part (d +:+ "/" +:+ n) = d +:+ "/" ∧ last_part (d +:+ "/" +:+ n) = n.
Proof.
  intros Hn. unfold dir_part, last_part. change ("/" +:+ n) with (String "/" n). rewrite rfind_app by done.
  assert (d +:+ String "/" n = (d +:+ "/") +:+ n) as -> by by rewrite <- app_assoc_str.
  assert (S (String.length d) = String.length (d +:+ "/")) as ->.
  { rewrite length_app_str. simpl. lia. }
  by rewrite take_length_app, drop_app_str.
Qed.

Lemma parts_single n : Str.contains "/" n = false → dir_part n = "" ∧ last_part n = n.
Proof. intros Hn. unfold dir_part, last_part. by rewrite (proj2 (rfind_None _ _) Hn). Qed.

Lemma parts_spec s :
  s = dir_part s +:+ last_part s ∧ Str.contains "/" (last_part s) = false ∧
  (dir_part s = "" ∨ ∃ d, dir_part s = d +:+ "/").
Proof.
  destruct (Str.rfind "/" s) as [pos|] eqn:E.
  - apply rfind_Some in E as (t & Hs & _ & Ht). set (d := Str.take pos s) in *.
    destruct (parts_slash d t Ht) as [H1 H2]. change ("/" +:+ t) with (String "/" t) in *. rewrite <- Hs in H1, H2.
    rewrite H1, H2. split; [by rewrite <- app_assoc_str|]. split; [done|]. right. by exists d.
  - apply rfind_None in E. destruct (parts_single s E) as [-> ->]. by auto.
Qed.

(** Another last part with the same directory. *)
Lemma parts_change s n : Str.contains "/" n = false →
  dir_part (dir_part s +:+ n) = dir_part s ∧ last_part (dir_part s +:+ n) = n.
Proof.
  intros Hn. destruct (parts_spec s) as (_ & _ & [->|[d ->]]).
  - by apply parts_single.
  - rewrite <- app_assoc_str. by apply parts_slash.
Qed.

Lemma last_part_name p : last_part (as_str p) = Path.name p.
Proof.
  pose proof (name_spec p) as Hn. destruct (parts_spec (as_str p)) as (H1 & H2 & H3).
  set (n := last_part (as_str p)) in *. unfold comps in Hn. simpl in Hn. rewrite H1 in Hn.
  destruct H3 as [E|[d E]]; rewrite E in Hn.
  - change ("" +:+ n) with n in Hn. rewrite split_single in Hn by done. by injection Hn.
  - rewrite <- app_assoc_str in Hn. change ("/" +:+ n) with (String "/" n) in Hn.
    rewrite split_app, (split_single "/" n), last_snoc in Hn by done. by injection Hn.
Qed.

Lemma good_not_bad w : good_component w → Path.bad_component w = false.
Proof. intros (H1 & H2 & H3 & _). by apply bad_component_false. Qed.

Lemma good_file_name s : Path.bad_component (last_part s) = false → file_name s = Some (last_part s).
Proof. intros H. unfold file_name. by rewrite H. Qed.

(** The name of a partial file. *)
Definition part_name (n : string) : string := "." +:+ n +:+ ".part".
Definition is_part_name (n : string) : bool := Str.starts_with n "." && ends_with n ".part".

Lemma part_name_is n : is_part_name (part_name n) = true.
Proof.
  unfold is_part_name, part_name, ends_with. rewrite app_assoc_str, length_app_str.
  rewrite (proj2 (Nat.leb_le _ _)) by lia.
  replace (String.length ("." +:+ n) + String.length ".part" - String.length ".part")%nat with (String.length ("." +:+ n)) by lia.
  rewrite drop_app_str. done.
Qed.

Lemma length_part_name n : String.length (part_name n) = (String.length n + 6)%nat.
Proof. unfold part_name. rewrite !length_app_str. simpl. lia. Qed.

Lemma part_name_middle n :
  Str.take (String.length (part_name n) - 5 - 1) (Str.drop 1 (part_name n)) = n.
Proof.
  rewrite length_part_name. replace (String.length n + 6 - 5 - 1)%nat with (String.length n) by lia.
  change (Str.drop 1 (part_name n)) with (n +:+ ".part"). apply take_length_app.
Qed.

Lemma part_name_good n : good_component n → good_component (part_name n).
Proof.
  intros (_ & _ & _ & H4 & H5). unfold part_name. split_and!.
  - done.
  - intros E%(f_equal String.length). pose proof (length_part_name n) as L. unfold part_name in L. rewrite L in E. simpl in E. lia.
  - intros E%(f_equal String.length). pose proof (length_part_name n) as L. unfold part_name in L. rewrite L in E. simpl in E. lia.
  - by rewrite !contains_app, H4.
  - by rewrite !contains_app, H5.
Qed.

(** A partial name is that of another name, but for [.part]. *)
Lemma is_part_name_inv n : is_part_name n = true →
  n = ".part" ∨ (String.length n - 5 <? 1)%nat = false ∧ n = part_name (Str.take (String.length n - 5 - 1) (Str.drop 1 n)).
Proof.
  unfold is_part_name, ends_with. intros (H1 & (H2%Nat.leb_le & H3%bool_decide_eq_true)%andb_prop)%andb_prop.
  destruct n as [|a n]; [done|]. simpl in H1. apply bool_decide_eq_true in H1 as ->.
  assert (∀ k s, s = Str.take k s +:+ Str.drop k s) as Hcut.
  { induction k as [|k IH]; intros [|b s]; simpl; try done. rewrite app_cons_str. f_equal. apply IH. }
  change (String.length ".part") with 5%nat in H2, H3. cbn [String.length] in H2, H3 |- *.
  destruct (decide (String.length n = 4%nat)) as [E|E].
  - left. rewrite E in H3. exact H3.
  - right. split; [apply Nat.ltb_ge; lia|]. unfold part_name. cbn [Str.drop].
    replace (S (String.length n) - 5)%nat with (S (String.length n - 5)) in * by lia. cbn [Str.drop] in H3.
    replace (S (String.length n - 5) - 1)%nat with (String.length n - 5)%nat by lia.
    rewrite app_cons_str. f_equal. change ("" +:+ Str.take (String.length n - 5) n +:+ ".part") with
      (Str.take (String.length n - 5) n +:+ ".part"). rewrite <- H3. apply Hcut.
Qed.

Lemma non_partial_name_spec s : Path.bad_component (last_part s) = false →
  non_partial_name s =
    if bool_decide (last_part s = ".part") then Err Panicked
    else if is_part_name (last_part s)
    then Ok (Some (Str.take (String.length (last_part s) - 5 - 1) (Str.drop 1 (last_part s))))
    else Ok None.
Proof.
  intros Hg. unfold non_partial_name. rewrite good_file_name by done. fold (is_part_name (last_part s)).
  destruct (is_part_name (last_part s)) eqn:E.
  - case_bool_decide as Ep; [by rewrite Ep|]. apply is_part_name_inv in E as [?|[-> _]]; [done|]. done.
  - rewrite bool_decide_eq_false_2; [done|]. intros Ep. by rewrite Ep in E.
Qed.

(** ** Lemmas on paths *)

(** The path of the partial file of a path. *)
Definition part_of (p : Path) : Path := mkPath (dir_part (as_str p) +:+ part_name (Path.name p)).

(** A path that does not look like a partial file. *)
Definition visible (p : Path) : Prop := is_part_name (Path.name p) = false.

Lemma take_prefix_length pos s t : s = Str.take pos s +:+ String "/" t → pos = String.length (Str.take pos s).
Proof.
  revert s. induction pos as [|pos IH]; intros [|a s] Hs; simpl in *; try done. f_equal.
  apply IH. rewrite app_cons_str in Hs. by injection Hs.
Qed.

Lemma dir_part_parent p :
  dir_part (as_str p) = match Path.parent p with Some q => as_str q +:+ "/" | None => "" end.
Proof.
  unfold Path.parent, dir_part. destruct (Str.rfind "/" (as_str p)) as [pos|] eqn:E; [|done].
  cbn [fmap option_fmap option_map as_str].
  apply rfind_Some in E as (t & Hs & _ & _). pose proof (take_prefix_length _ _ _ Hs) as Hl.
  set (d := Str.take pos (as_str p)) in *. rewrite Hs.
  replace (d +:+ String "/" t) with ((d +:+ "/") +:+ t) by by rewrite <- app_assoc_str.
  replace (S pos) with (String.length (d +:+ "/")) by (rewrite length_app_str; simpl; lia).
  apply take_length_app.
Qed.

Lemma comps_change p n : Str.contains "/" n = false →
  comps (mkPath (dir_part (as_str p) +:+ n)) = Path.components (Path.parent p) ++ [n].
Proof.
  intros Hn. rewrite dir_part_parent. unfold comps, Path.components. destruct (Path.parent p) as [q|]; cbn [as_str].
  - rewrite <- app_assoc_str. change ("/" +:+ n) with (String "/" n). by rewrite split_app, (split_single "/" n).
  - change ("" +:+ n) with n. by rewrite split_single.
Qed.

Lemma name_change p n : Str.contains "/" n = false → Path.name (mkPath (dir_part (as_str p) +:+ n)) = n.
Proof.
  intros Hn. pose proof (name_spec (mkPath (dir_part (as_str p) +:+ n))) as H.
  rewrite comps_change, last_snoc in H by done. by injection H.
Qed.

Lemma valid_name p : valid p → good_component (Path.name p).
Proof. rewrite valid_comps, Forall_forall. intros H. apply H, last_Some_elem_of, name_spec. Qed.

Lemma change_valid p n : valid p → good_component n → valid (mkPath (dir_part (as_str p) +:+ n)).
Proof.
  intros Hp Hn. apply valid_comps. rewrite comps_change by apply Hn.
  apply valid_comps in Hp. rewrite comps_parent in Hp. apply Forall_app in Hp as [Hp _].
  apply Forall_app. split; [done|]. by constructor.
Qed.

Lemma part_of_name p : valid p → Path.name (part_of p) = part_name (Path.name p).
Proof. intros Hp. apply name_change. apply part_name_good, valid_name, Hp. Qed.

Lemma part_of_valid p : valid p → valid (part_of p).
Proof. intros Hp. apply change_valid; [done|]. by apply part_name_good, valid_name. Qed.

(** Going to another name and back. *)
Lemma change_change p n m : Str.contains "/" n = false →
  dir_part (dir_part (as_str p) +:+ n) +:+ m = dir_part (as_str p) +:+ m.
Proof. intros Hn. by destruct (parts_change (as_str p) n Hn) as [-> _]. Qed.

Lemma part_of_inj p q : valid p → valid q → part_of p = part_of q → p = q.
Proof.
  intros Hp Hq E. pose proof (f_equal Path.name E) as En. rewrite !part_of_name in En by done.
  assert (Path.name p = Path.name q) as Hn.
  { rewrite <- (part_name_middle (Path.name p)), <- (part_name_middle (Path.name q)). by rewrite En. }
  pose proof (f_equal (λ p, dir_part (as_str p)) E) as Ed. simpl in Ed.
  pose proof (part_name_good _ (valid_name p Hp)) as (_ & _ & _ & _ & G1).
  pose proof (part_name_good _ (valid_name q Hq)) as (_ & _ & _ & _ & G2).
  destruct (parts_change (as_str p) _ G1) as [E1 _], (parts_change (as_str q) _ G2) as [E2 _].
  unfold part_of in Ed. simpl in Ed. rewrite E1, E2 in Ed. destruct p as [s], q as [t]. f_equal.
  destruct (parts_spec s) as (-> & _), (parts_spec t) as (-> & _). simpl in Ed.
  rewrite Ed. f_equal. pose proof (last_part_name (mkPath s)) as L1. pose proof (last_part_name (mkPath t)) as L2.
  simpl in *. by rewrite L1, L2.
Qed.

Lemma part_of_hidden p q : valid p → visible q → part_of p ≠ q.
Proof. intros Hp Hq <-. unfold visible in Hq. rewrite part_of_name in Hq by done. by rewrite part_name_is in Hq. Qed.

Section root.
Context (root : string) (Hroot : root ≠ "").

Lemma join_root s : join_path root s = root +:+ "/" +:+ s.
Proof. unfold join_path. by rewrite bool_decide_eq_false_2. Qed.

Lemma within_inj p q : within p root = within q root → p = q.
Proof. unfold within. intros E%join_path_inj. destruct p, q. by f_equal. Qed.

Lemma join_parts s :
  dir_part (join_path root s) = root +:+ "/" +:+ dir_part s ∧ last_part (join_path root s) = last_part s.
Proof.
  rewrite join_root. destruct (parts_spec s) as (Hs & Hn & Hd). destruct Hd as [Hd|[d Hd]].
  - rewrite Hd in *. change ("" +:+ last_part s) with (last_part s) in Hs. set (n := last_part s) in *. rewrite Hs.
    destruct (parts_slash root n Hn) as [-> ->]. done.
  - assert (root +:+ "/" +:+ s = (root +:+ "/" +:+ d) +:+ "/" +:+ last_part s) as ->.
    { rewrite Hs at 1. rewrite Hd. by rewrite <- !app_assoc_str. }
    destruct (parts_slash (root +:+ "/" +:+ d) (last_part s) Hn) as [-> ->].
    by rewrite Hd, <- !app_assoc_str.
Qed.

Lemma within_part p : valid p → to_partial (within p root) = within (part_of p) root.
Proof.
  intros Hp. unfold to_partial, within. destruct (join_parts (as_str p)) as [J1 J2].
  pose proof (good_not_bad _ (valid_name p Hp)) as Hg. rewrite <- last_part_name, <- J2 in Hg. rewrite good_file_name by done.
  unfold set_file_name. rewrite J1, J2, last_part_name, !join_root. unfold part_of. simpl as_str.
  by rewrite <- !app_assoc_str.
Qed.

Lemma full_path_visible p : valid p → visible p → to_full_path root p = Ok (Some (within p root)).
Proof.
  intros Hp Hv. unfold to_full_path, is_partial, within. destruct (join_parts (as_str p)) as [_ J2].
  rewrite last_part_name in J2. rewrite non_partial_name_spec; rewrite J2; [|by apply good_not_bad, valid_name].
  unfold visible in Hv. rewrite Hv. rewrite bool_decide_eq_false_2; [done|].
  intros E. by rewrite E in Hv.
Qed.

(** A relative path as the operating system gives it. *)
Definition os_normal (rel : string) : Prop := Forall (λ w, Path.bad_component w = false) (Str.split "/" rel).

Lemma os_normal_name rel : os_normal rel → Path.bad_component (last_part rel) = false.
Proof.
  unfold os_normal. rewrite Forall_forall. intros H. apply H. pose proof (name_spec (mkPath rel)) as Hn.
  rewrite <- last_part_name in Hn. by apply last_Some_elem_of in Hn.
Qed.

Lemma valid_normal p : valid p → os_normal (as_str p).
Proof. rewrite valid_comps. intros H. eapply Forall_impl; [exact H|]. apply good_not_bad. Qed.

Lemma from_real_path_parse s : from_real_path s = Path.parse s.
Proof.
  unfold from_real_path. destruct (_ || _) eqn:E; [|done]. symmetry.
  destruct (Path.parse s) as [p|[]] eqn:Ep; [|done]. exfalso. apply parse_spec in Ep as [-> Hg].
  apply orb_prop in E as [E|E]; [apply orb_prop in E as [E|E]|].
  - apply starts_with_cons in E as [t ->]. cbn in Hg. apply Forall_cons in Hg as [[? _] _]. done.
  - apply bool_decide_eq_true, head_Some_elem_of in E. rewrite Forall_forall in Hg.
    destruct (Hg _ E) as (_ & ? & _). done.
  - apply existsb_exists in E as (w & Hw%list_elem_of_In & ->%bool_decide_eq_true). rewrite Forall_forall in Hg.
    destruct (Hg _ Hw) as (_ & _ & ? & _). done.
Qed.

(** What [reverse] makes of a file: the path that it is final for, or partial. *)
Lemma reverse_spec diff_paths access rel :
  diff_paths (join_path root rel) root = Some rel → os_normal rel → last_part rel ≠ ".part" →
  ∃ o, PathResolver.reverse diff_paths (PathResolver.new root access) (join_path root rel) = Ok o ∧
    ∀ t p, o = Some (t, p) ↔ valid p ∧
      match t with
      | Final => rel = as_str p ∧ visible p
      | Partial => access = ReadWrite ∧ rel = as_str (part_of p)
      end.
Proof.
  intros Hd Hn Hne. pose proof (os_normal_name rel Hn) as Hb. destruct (join_parts rel) as [J1 J2].
  unfold PathResolver.reverse, is_partial. simpl. rewrite Hd.
  rewrite (non_partial_name_spec (join_path root rel)) by (by rewrite J2). rewrite J2.
  unfold PathResolver.reverse_relative. simpl. rewrite (non_partial_name_spec rel Hb).
  rewrite (bool_decide_eq_false_2 (last_part rel = ".part")) by done. destruct (is_part_name (last_part rel)) eqn:Ep.
  - set (n := Str.take _ _). apply is_part_name_inv in Ep as [?|[_ Ep]]; [done|]. fold n in Ep.
    destruct access; simpl; eexists; (split; [done|]); intros t p.
    + split; [done|]. destruct t; [by intros (_ & ? & _)|]. intros (Hp & -> & Hv). unfold visible in Hv.
      rewrite last_part_name in Ep. by rewrite Ep, part_name_is in Hv.
    + rewrite from_real_path_parse. unfold set_file_name.
      assert (Str.contains "/" n = false) as Hc.
      { destruct (parts_spec rel) as (_ & Hc & _). rewrite Ep in Hc. unfold part_name in Hc.
        rewrite !contains_app in Hc. apply orb_false_iff in Hc as [_ Hc]. by apply orb_false_iff in Hc as [? _]. }
      destruct (parts_change rel n Hc) as [C1 C2]. split.
      * destruct (Path.parse _) as [q|] eqn:Eq; [|done]. intros [= <- <-]. pose proof Eq as Eq'.
        apply parse_spec in Eq' as [-> _]. split; [exact Eq|]. split; [done|]. unfold part_of.
        rewrite <- last_part_name. simpl. rewrite C1, C2. destruct (parts_spec rel) as (Hr & _). by etrans; [exact Hr|f_equal].
      * destruct t; [|intros (Hp & -> & Hv); unfold visible in Hv; rewrite last_part_name in Ep; by rewrite Ep, part_name_is in Hv].
        intros (Hp & _ & Hr). assert (dir_part rel +:+ n = as_str p) as ->; [|by rewrite Hp].
        rewrite Hr. pose proof (valid_name p Hp) as Hg. pose proof (part_name_good _ Hg) as (_ & _ & _ & _ & Hs).
        destruct (parts_change (as_str p) _ Hs) as [D1 D2]. unfold part_of. simpl. rewrite D1.
        assert (n = last_part (as_str p)) as ->; [|by destruct (parts_spec (as_str p)) as (<- & _)].
        rewrite last_part_name. unfold n. rewrite Hr. unfold part_of. simpl as_str. rewrite D2. apply part_name_middle.
  - assert (∀ t p, (match from_real_path rel with Ok p => Some (Final, p) | Err _ => None end) = Some (t, p) ↔
      valid p ∧ match t with Final => rel = as_str p ∧ visible p | Partial => access = ReadWrite ∧ rel = as_str (part_of p) end) as H.
    { intros t p. rewrite from_real_path_parse. split.
      - destruct (Path.parse rel) as [q|] eqn:Eq; [|done]. intros [= <- <-]. pose proof Eq as Eq'.
        apply parse_spec in Eq' as [-> _]. split; [exact Eq|]. split; [done|]. unfold visible. by rewrite <- last_part_name.
      - destruct t.
        + intros (Hp & _ & ->). rewrite last_part_name, part_of_name, part_name_is in Ep; done.
        + intros (Hp & -> & _). by rewrite Hp. }
    destruct access; simpl; eexists; (split; [done|]); exact H.
Qed.
End root.

(** ** The file that stands for a path *)

Section files.
Context (root : string) (Hroot : root ≠ "").

Definition final_of (p : Path) : string := within p root.
Definition partial_of (p : Path) : string := within (part_of p) root.

Lemma final_partial_ne p q : valid p → visible q → partial_of p ≠ final_of q.
Proof. intros Hp Hq E. by eapply part_of_hidden, within_inj. Qed.

Lemma partial_inj p q : valid p → valid q → partial_of p = partial_of q → p = q.
Proof. intros Hp Hq E. eapply part_of_inj; [done..|]. by eapply within_inj. Qed.

(** The partial file if it may be seen and is there, or else the final one. *)
Definition actual (access : StorageAccess) (p : Path) (files : Fs) : option string :=
  if bool_decide (access = ReadWrite) && bool_decide (is_Some (files !! partial_of p)) then Some (partial_of p)
  else if bool_decide (is_Some (files !! final_of p)) then Some (final_of p)
  else None.

Lemma resolve_run access p files : valid p → visible p →
  PathResolver.resolve (PathResolver.new root access) p files = (ok_or not_found (actual access p files), files).
Proof.
  intros Hp Hv. unfold PathResolver.resolve, sbind, slift. simpl. rewrite full_path_visible by done. simpl.
  rewrite within_part by done. unfold actual, sget, sret, sthrow, id. fold (partial_of p) (final_of p).
  destruct (bool_decide _ && _); [done|]. by case_bool_decide.
Qed.

Lemma actual_exists access p files a : actual access p files = Some a → is_Some (files !! a).
Proof.
  unfold actual. destruct (bool_decide (access = ReadWrite) && bool_decide _) eqn:E.
  - intros [= <-]. apply andb_prop in E as [_ E]. by apply bool_decide_eq_true in E.
  - destruct (bool_decide_reflect (is_Some (files !! final_of p))); [|done]. by intros [= <-].
Qed.

(** ** Listing *)

Context (walk : string → Fs → list (string * File)) (diff_paths : string → string → option string).

(** What is relied on of the crates: every file below the root is visited once, and is
    given relative to the root. *)
Definition below (kf : string * File) : Prop := is_Some (Str.strip_prefix (root +:+ "/") kf.1).
#[local] Instance below_dec kf : Decision (below kf).
Proof. unfold below. apply _. Defined.
Context (Hwalk : ∀ files, walk root files ≡ₚ filter below (map_to_list files)).
Context (Hdiff : ∀ rel, os_normal rel → diff_paths (join_path root rel) root = Some rel).

Definition synced (p : Path) (f : File) : SyncedFile := {| sf_path := p; sf_size := f_len f; sf_mtime := f_mtime f |}.

(** The names below the root are normal, and none is [.part]. *)
Definition sane_names (files : Fs) : Prop :=
  ∀ rel, is_Some (files !! join_path root rel) → os_normal rel ∧ last_part rel ≠ ".part".

(** What [list] keeps for a path, of the entries and of what it had. *)
Definition kept (access : StorageAccess) (entries : Fs) (files : gmap Path SyncedFile) (p : Path) : option SyncedFile :=
  match (if bool_decide (access = ReadWrite) then entries !! partial_of p else None), files !! p with
  | Some f, _ => Some (synced p f)
  | None, Some x => Some x
  | None, None => if bool_decide (visible p) then synced p <$> entries !! final_of p else None
  end.

Lemma list_loop_cons resolver e entries files :
  list_loop diff_paths resolver (e :: entries) files =
  result_bind (list_entry diff_paths resolver files e) (list_loop diff_paths resolver entries).
Proof.
  unfold list_loop. simpl. destruct (list_entry _ _ _ _) as [files'|err]; [done|]. simpl.
  by induction entries.
Qed.

Lemma list_loop_run access entries files :
  NoDup entries.*1 →
  (∀ a f, (a, f) ∈ entries → ∃ rel, a = join_path root rel ∧ os_normal rel ∧ last_part rel ≠ ".part") →
  (∀ p, is_Some (files !! p) → valid p) →
  ∃ files', list_loop diff_paths (PathResolver.new root access) entries files = Ok files' ∧
    (∀ p, valid p → files' !! p = kept access (list_to_map entries) files p) ∧ (∀ p, is_Some (files' !! p) → valid p).
Proof.
  revert files. induction entries as [|[a f] entries IH]; intros files Hnd Hall Hfiles.
  - exists files. split; [done|]. split; [|done]. intros p Hp. unfold kept. simpl. rewrite !lookup_empty.
    case_bool_decide; by destruct (files !! p); simpl; try case_bool_decide.
  - apply NoDup_cons in Hnd as [Hna Hnd].
    destruct (Hall a f) as (rel & -> & Hn & Hne); [by left|].
    destruct (reverse_spec root Hroot diff_paths access rel (Hdiff rel Hn) Hn Hne) as (o & Ho & Hspec).
    rewrite list_loop_cons. unfold list_entry. cbn [fst snd]. rewrite Ho. cbn [result_map result_bind].
    set (files1 := match o with Some (path_type, path) => _ | None => files end).
    assert (∀ p, is_Some (files1 !! p) → valid p) as Hf1.
    { intros p. unfold files1. destruct o as [[t q]|]; [|apply Hfiles].
      destruct (_ && _); [apply Hfiles|]. destruct (decide (p = q)) as [->|Hpq].
      - intros _. by destruct (proj1 (Hspec t q) eq_refl) as [? _].
      - rewrite lookup_insert_ne by done. apply Hfiles. }
    destruct (IH files1) as (files' & H1 & H2 & H3); [done| |done|].
    { intros a' f' Hin. eapply Hall. by right. }
    exists files'. split; [exact H1|]. split; [|exact H3]. intros p Hp. rewrite H2 by done. clear IH H1 H2 H3.
    assert ((list_to_map entries : Fs) !! join_path root rel = None) as Hnone by by apply not_elem_of_list_to_map_1.
    unfold kept. simpl list_to_map.
    set (k := join_path root rel) in *. unfold files1. destruct o as [[t q]|].
    + pose proof (proj1 (Hspec t q) eq_refl) as [Hq Ht]. destruct t; cbn [bool_decide andb].
      * destruct Ht as [-> Ht]. assert (partial_of q = k) as Hk by (unfold k; by rewrite Ht).
        rewrite !bool_decide_eq_true_2 by done. rewrite (bool_decide_eq_false_2 (Partial = Final)) by done. cbn [andb].
        destruct (decide (p = q)) as [->|Hpq]; [by rewrite Hk, Hnone, !lookup_insert_eq|].
        assert (k ≠ partial_of p) by (rewrite <- Hk; intros E; apply Hpq; symmetry; by apply partial_inj).
        rewrite !lookup_insert_ne by done. destruct (_ !! partial_of p); [done|]. destruct (files !! p); [done|].
        case_bool_decide; [|done]. rewrite lookup_insert_ne; [done|]. rewrite <- Hk. by apply final_partial_ne.
      * destruct Ht as [Ht Hv]. assert (final_of q = k) as Hk by (unfold k; by rewrite Ht).
        assert (k ≠ partial_of p) by (rewrite <- Hk; by apply not_eq_sym, final_partial_ne).
        rewrite (lookup_insert_ne _ _ (partial_of p)) by done.
        destruct (if bool_decide (access = ReadWrite) then _ else None); [done|].
        rewrite (bool_decide_eq_true_2 (Final = Final)) by done. cbn [andb].
        destruct (decide (p = q)) as [->|Hpq].
        -- rewrite (bool_decide_eq_true_2 (visible q)), Hk, lookup_insert_eq by done.
           destruct (files !! q) eqn:E; cbn; [by rewrite E|by rewrite lookup_insert_eq].
        -- rewrite (lookup_insert_ne _ k (final_of p)) by (rewrite <- Hk; intros E%within_inj; done).
           destruct (bool_decide (is_Some _)); [done|]. by rewrite lookup_insert_ne.
    + assert (access = ReadWrite → partial_of p ≠ k) as HP.
      { intros Ha E%join_path_inj. by discriminate (proj2 (Hspec Partial p) (conj Hp (conj Ha (eq_sym E)))). }
      assert (visible p → final_of p ≠ k) as HF.
      { intros Hv E%join_path_inj. by discriminate (proj2 (Hspec Final p) (conj Hp (conj (eq_sym E) Hv))). }
      destruct (bool_decide_reflect (access = ReadWrite)) as [Ha|Ha].
      * rewrite lookup_insert_ne by (by apply not_eq_sym, HP). destruct (_ !! partial_of p); [done|].
        destruct (files !! p); [done|]. case_bool_decide; [|done]. by rewrite lookup_insert_ne by (by apply not_eq_sym, HF).
      * destruct (files !! p); [done|]. case_bool_decide; [|done]. by rewrite lookup_insert_ne by (by apply not_eq_sym, HF).
Qed.

Lemma below_join kf : below kf ↔ ∃ rel, kf.1 = join_path root rel.
Proof.
  unfold below. split.
  - intros [rel H%strip_prefix_Some]. exists rel. by rewrite join_root, app_assoc_str.
  - intros [rel ->]. exists rel. apply strip_prefix_Some. by rewrite join_root, app_assoc_str.
Qed.

Lemma walk_NoDup files : NoDup (walk root files).*1.
Proof.
  rewrite Hwalk. apply NoDup_fst_filter, NoDup_fst_map_to_list.
Qed.

Lemma elem_of_walk files a f : (a, f) ∈ walk root files ↔ files !! a = Some f ∧ ∃ rel, a = join_path root rel.
Proof.
  rewrite Hwalk, list_elem_of_filter, elem_of_map_to_list, below_join. simpl. tauto.
Qed.

Lemma walk_lookup files rel : (list_to_map (walk root files) : Fs) !! join_path root rel = files !! join_path root rel.
Proof.
  apply option_eq. intros f. rewrite <- elem_of_list_to_map by apply walk_NoDup. rewrite elem_of_walk. naive_solver.
Qed.

Lemma into_values_spec (m : gmap Path SyncedFile) :
  (∀ p x, m !! p = Some x → sf_path x = p) →
  Sorted path_le (into_values m) ∧ NoDup (sf_path <$> into_values m) ∧ ∀ x, x ∈ into_values m ↔ m !! sf_path x = Some x.
Proof.
  intros Hm. unfold into_values. pose proof (merge_sort_Permutation path_le (map_to_list m).*2) as HP. split_and!.
  - apply Sorted_merge_sort. intros x y. apply key_le_total.
  - rewrite HP, <- list_fmap_compose. rewrite (list_fmap_ext _ fst); [apply NoDup_fst_map_to_list|].
    intros i [p x] Hi. apply list_elem_of_lookup_2, elem_of_map_to_list in Hi. simpl. by apply Hm.
  - intros x. rewrite HP. split.
    + intros ([p y] & -> & Hy%elem_of_map_to_list)%list_elem_of_fmap. simpl. by rewrite (Hm _ _ Hy).
    + intros Hx. apply list_elem_of_fmap. exists (sf_path x, x). split; [done|]. by apply elem_of_map_to_list.
Qed.

Lemma list_run s arena access files :
  rs_map s !! arena = Some root → sane_names files →
  ∃ l, list_files walk diff_paths s arena {| ignore_partial := bool_decide (access = Read) |} files = (Ok l, files) ∧
    Sorted path_le l ∧ NoDup (sf_path <$> l) ∧ (∀ x, x ∈ l → valid (sf_path x) ∧ (access = Read → visible (sf_path x))) ∧
    ∀ p, valid p → visible p → ∀ x, (x ∈ l ∧ sf_path x = p) ↔
      ∃ a f, actual access p files = Some a ∧ files !! a = Some f ∧ x = synced p f.
Proof.
  intros Hs Hsane. destruct (list_loop_run access (walk root files) ∅) as (m & H1 & H2 & H3).
  { apply walk_NoDup. }
  { intros a f (Hf & rel & ->)%elem_of_walk. exists rel. split; [done|]. by apply Hsane. }
  { intros p. rewrite lookup_empty. by intros [? ?]. }
  assert (∀ p, valid p → m !! p = match (if bool_decide (access = ReadWrite) then files !! partial_of p else None) with
      | Some f => Some (synced p f)
      | None => if bool_decide (visible p) then synced p <$> files !! final_of p else None end) as H2'.
  { intros p Hp. rewrite H2 by done. unfold kept. unfold partial_of, final_of, within. rewrite !walk_lookup.
    by rewrite lookup_empty. }
  assert (∀ p x, m !! p = Some x → sf_path x = p) as Hpath.
  { intros p x Hx. rewrite H2' in Hx by (by apply H3; rewrite Hx).
    destruct (if bool_decide (access = ReadWrite) then _ else None); [by injection Hx as <-|].
    destruct (bool_decide (visible p)); [|done]. by apply fmap_Some in Hx as (f & _ & ->). }
  destruct (into_values_spec m Hpath) as (V1 & V2 & V3). exists (into_values m). split_and!; [|done|done| |].
  - unfold list_files, sbind, slift, RealStore.path_resolver_from_opts, RealStore.path_resolver. rewrite Hs. simpl.
    assert ((if bool_decide (access = Read) then Read else ReadWrite) = access) as -> by by destruct access.
    unfold sget, id. fold (PathResolver.new root access). by rewrite H1.
  - intros x Hx%V3. assert (valid (sf_path x)) as Hxv by (apply H3; by rewrite Hx). split; [done|]. intros ->.
    rewrite H2' in Hx by done. rewrite bool_decide_eq_false_2 in Hx by done. by case_bool_decide.
  - intros p Hp Hv x. rewrite V3. unfold actual.
    split.
    + intros [Hx <-]. rewrite H2' in Hx by done. rewrite (bool_decide_eq_true_2 (visible _)) in Hx by done.
      destruct (bool_decide_reflect (access = ReadWrite)) as [Ha|Ha]; cbn [andb].
      * destruct (files !! partial_of (sf_path x)) as [f|] eqn:E.
        { exists (partial_of (sf_path x)), f. injection Hx as Hx. rewrite E. by split_and!. }
        cbn. apply fmap_Some in Hx as (f & Hf & Hx). exists (final_of (sf_path x)), f. rewrite Hf. by split_and!.
      * apply fmap_Some in Hx as (f & Hf & Hx). exists (final_of (sf_path x)), f. rewrite Hf. by split_and!.
    + intros (a & f & Ha & Hf & ->). split; [|done]. simpl. rewrite H2' by done.
      rewrite (bool_decide_eq_true_2 (visible _)) by done. revert Ha.
      destruct (bool_decide_reflect (access = ReadWrite)) as [Hw|Hw]; cbn [andb].
      * destruct (files !! partial_of p) as [g|] eqn:E; cbn.
        { intros [= <-]. by rewrite Hf in E; injection E as <-. }
        case_bool_decide; [|done]. intros [= <-]. by rewrite Hf.
      * case_bool_decide; [|done]. intros [= <-]. by rewrite Hf.
Qed.
End files.

(** ** What the operations do *)

Section operations.
Context (root : string) (Hroot : root ≠ "").
Context (s : RealStore) (arena : Arena) (Hs : rs_map s !! arena = Some root).
Context (now : UnixTime) (digest : list byte → Hash).
Context (Signature Delta : Type) (calculate : list byte → Signature).
Context (deserialize_diff : Signature → list byte → result RsyncOperation Delta).
Context (apply_limited : list byte → Delta → N → option (list byte)).
Implicit Types (p : Path) (files : Fs) (range : ByteRange).

Definition options_of (access : StorageAccess) : Options := {| ignore_partial := bool_decide (access = Read) |}.

Definition partial_data p files : option (list byte) := f_data <$> files !! partial_of root p.
Definition final_data p files : option (list byte) := f_data <$> files !! final_of root p.
(** The content that stands for a path. *)
Definition actual_data access p files : option (list byte) :=
  match (if bool_decide (access = ReadWrite) then partial_data p files else None) with
  | Some d => Some d
  | None => final_data p files
  end.

Lemma actual_data_spec access p files :
  actual_data access p files = actual root access p files ≫= (λ a, f_data <$> files !! a).
Proof.
  unfold actual_data, actual, partial_data, final_data. destruct (bool_decide (access = ReadWrite)); cbn [andb].
  - destruct (files !! partial_of root p) as [f|] eqn:E; cbn; [by rewrite E|].
    destruct (files !! final_of root p) as [g|] eqn:E'; cbn; [by rewrite E'|done].
  - destruct (files !! final_of root p) as [g|] eqn:E'; cbn; [by rewrite E'|done].
Qed.

Lemma resolver_run access : RealStore.path_resolver_from_opts s arena (options_of access) = Ok (PathResolver.new root access).
Proof. unfold RealStore.path_resolver_from_opts, RealStore.path_resolver. rewrite Hs. by destruct access. Qed.

(** Opening what a path resolves to. *)
Lemma resolve_open access p files {A} (k : list byte → StoreM A) : valid p → visible p →
  (let* a := PathResolver.resolve (PathResolver.new root access) p in let* data := open_for_range_read a in k data) files =
  match actual_data access p files with Some d => k d files | None => (Err not_found, files) end.
Proof.
  intros Hp Hv. unfold sbind at 1. rewrite resolve_run by done. rewrite actual_data_spec.
  destruct (actual root access p files) as [a|] eqn:E; [|done]. destruct (actual_exists _ _ _ _ _ E) as [f Hf].
  simpl. unfold sbind, open_for_range_read, sget, id, sbind. rewrite Hf. done.
Qed.

(** Nothing but the two files of a path changes, and the final one stays. *)
Record partial_only p files files' : Prop := {
  po_final : files' !! final_of root p = files !! final_of root p;
  po_others : ∀ k, k ≠ partial_of root p → k ≠ final_of root p → files' !! k = files !! k;
}.

Lemma partial_only_refl p files : partial_only p files files.
Proof. by split. Qed.

Lemma partial_only_trans p f1 f2 f3 : partial_only p f1 f2 → partial_only p f2 f3 → partial_only p f1 f3.
Proof. intros [A1 A2] [B1 B2]. split; [congruence|]. intros k H1 H2. by rewrite B2, A2. Qed.

Lemma partial_only_insert p files f : valid p → visible p → partial_only p files (<[partial_of root p := f]> files).
Proof.
  intros Hp Hv. split; [|by intros; rewrite lookup_insert_ne].
  rewrite lookup_insert_ne; [done|]. by apply final_partial_ne.
Qed.

Lemma partial_path_run access p : valid p → visible p →
  PathResolver.partial_path (PathResolver.new root access) p = Ok (Some (partial_of root p)).
Proof. intros Hp Hv. unfold PathResolver.partial_path. simpl. rewrite full_path_visible by done. simpl. by rewrite within_part. Qed.

(** The partial file once it is open for writing. *)
Lemma open_write_run p files : valid p → visible p →
  ∃ files', open_for_range_write now (partial_of root p) files = (Ok tt, files') ∧ partial_only p files files' ∧
    partial_data p files' = Some (default [] (partial_data p files)) ∧ is_Some (files' !! partial_of root p).
Proof.
  intros Hp Hv. unfold open_for_range_write, smodify, partial_data. destruct (files !! partial_of root p) as [f|] eqn:E.
  - exists files. rewrite E. split; [done|]. split; [apply partial_only_refl|done].
  - eexists. split; [done|]. split; [by apply partial_only_insert|]. by rewrite lookup_insert_eq.
Qed.

Lemma write_offset_run p files o data : valid p → visible p → is_Some (files !! partial_of root p) →
  ∃ files', write_at_offset now (partial_of root p) o data files = (Ok tt, files') ∧ partial_only p files files' ∧
    partial_data p files' = Some (write_at o data (default [] (partial_data p files))).
Proof.
  intros Hp Hv [f E]. unfold write_at_offset, smodify, partial_data. rewrite E. destruct data as [|c data].
  - exists files. rewrite E. split; [done|]. split; [apply partial_only_refl|done].
  - eexists. split; [done|]. split; [by apply partial_only_insert|]. by rewrite lookup_insert_eq.
Qed.

Lemma send_run access p range data files : valid p → visible p →
  ∃ files', send now s arena p range data (options_of access) files = (Ok tt, files') ∧ partial_only p files files' ∧
    partial_data p files' = Some (write_at (start range) data (default [] (partial_data p files))).
Proof.
  intros Hp Hv. unfold send, sbind, slift. rewrite resolver_run. unfold with_path, sbind, slift.
  rewrite partial_path_run by done. cbn [ok_or]. destruct (open_write_run p files Hp Hv) as (f1 & -> & H1 & H2 & H3).
  destruct (write_offset_run p f1 (start range) data Hp Hv H3) as (f2 & -> & H4 & H5).
  exists f2. split; [done|]. split; [by eapply partial_only_trans|]. by rewrite H5, H2.
Qed.

Lemma truncate_run access p n files : valid p → visible p →
  ∃ files', truncate now s arena p n (options_of access) files = (Ok tt, files') ∧ partial_only p files files' ∧
    partial_data p files' = Some (take (N.to_nat n) (default [] (partial_data p files))).
Proof.
  intros Hp Hv. unfold truncate, sbind, slift. rewrite resolver_run. unfold with_path, sbind, slift.
  rewrite partial_path_run by done. cbn [ok_or]. destruct (open_write_run p files Hp Hv) as (f1 & -> & H1 & H2 & [f Hf]).
  assert (f_data f = default [] (partial_data p files)) as Hd.
  { unfold partial_data at 1 in H2. rewrite Hf in H2. by injection H2. }
  unfold shorten_file, smodify. rewrite Hf, <- Hd. unfold f_len.
  destruct (N.ltb_spec n (N.of_nat (length (f_data f)))) as [Hl|Hl].
  - eexists. split; [done|]. split; [by eapply partial_only_trans, partial_only_insert|].
    unfold partial_data. by rewrite lookup_insert_eq.
  - exists f1. split; [done|]. split; [done|]. rewrite H2, Hd, take_ge; [done|]. rewrite <- Hd. lia.
Qed.

Lemma store_read_run access p range files : valid p → visible p →
  read s arena p range (options_of access) files =
  (match actual_data access p files with Some d => read_padded d range | None => Err not_found end, files).
Proof.
  intros Hp Hv. unfold read. unfold sbind at 1, slift at 1. rewrite resolver_run. rewrite resolve_open by done.
  by destruct (actual_data _ _ _).
Qed.

(** The loop that hashes a range gives the digest of its bytes. *)
Definition range_hash range (d : list byte) : Hash :=
  if N.of_nat (length d) <? end_ range then Hash.zero else digest (read_at (start range) (ByteRange.bytecount range) d).

Lemma hash_range_loop_run fuel rest limit acc : (length rest < fuel)%nat →
  hash_range_loop digest fuel rest limit acc = Some (digest (acc ++ take (N.to_nat limit) rest)).
Proof.
  revert rest limit acc. induction fuel as [|fuel IH]; intros rest limit acc Hf; [lia|]. cbn [hash_range_loop].
  set (n := N.to_nat (N.min limit (1024 * 1024))).
  destruct (take n rest) as [|c buffer] eqn:E.
  - assert (take (N.to_nat limit) rest = []) as ->; [|by rewrite app_nil_r].
    destruct rest as [|c rest]; [by rewrite take_nil|]. destruct n as [|n'] eqn:En; [|done].
    by replace (N.to_nat limit) with 0%nat by lia.
  - rewrite <- E. assert (length (take n rest) ≠ 0%nat) by (rewrite E; done). rewrite length_take in *.
    rewrite IH by (rewrite length_drop; lia). f_equal. f_equal. rewrite <- app_assoc. f_equal.
    replace (N.to_nat (limit - N.of_nat (n `min` length rest))) with (N.to_nat limit - n `min` length rest)%nat by lia.
    replace (take n rest) with (take (n `min` length rest) rest).
    2:{ destruct (Nat.le_ge_cases n (length rest)); [by rewrite Nat.min_l|]. rewrite Nat.min_r by lia. rewrite !take_ge; [done|lia..]. }
    rewrite take_take_drop. f_equal. lia.
Qed.

Lemma hash_run access p range files : valid p → visible p →
  hash_file_range digest s arena p range (options_of access) files =
  (match actual_data access p files with Some d => Ok (range_hash range d) | None => Err not_found end, files).
Proof.
  intros Hp Hv. unfold hash_file_range, hash_large_range_exact. unfold sbind at 1, slift at 1. rewrite resolver_run.
  rewrite resolve_open by done. destruct (actual_data _ _ _) as [d|]; [|done]. unfold range_hash.
  destruct (_ <? _); [done|]. rewrite hash_range_loop_run by lia. done.
Qed.

Lemma finish_eq p files : valid p → visible p →
  finish s arena p (options_of ReadWrite) files =
  match actual root ReadWrite p files with
  | Some a => if bool_decide (a = partial_of root p) then rename_file a (final_of root p) files else (Ok tt, files)
  | None => (Err not_found, files)
  end.
Proof.
  intros Hp Hv. unfold finish. change (ignore_partial (options_of ReadWrite)) with false. cbv iota.
  unfold with_path, sbind, slift. rewrite resolver_run. rewrite partial_path_run by done. cbn [ok_or].
  rewrite resolve_run by done. destruct (actual root ReadWrite p files) as [a|]; [|done]. cbn [ok_or].
  destruct (bool_decide (a = partial_of root p)); [|done]. unfold PathResolver.final_path. simpl pr_path.
  by rewrite full_path_visible.
Qed.

Lemma finish_run p files : valid p → visible p →
  ∃ files' r, finish s arena p (options_of ReadWrite) files = (r, files') ∧
    (∀ k, k ≠ partial_of root p → k ≠ final_of root p → files' !! k = files !! k) ∧
    match partial_data p files, final_data p files with
    | Some d, _ => r = Ok tt ∧ partial_data p files' = None ∧ final_data p files' = Some d
    | None, Some _ => r = Ok tt ∧ files' = files
    | None, None => r = Err not_found ∧ files' = files
    end.
Proof.
  intros Hp Hv. rewrite finish_eq by done. unfold actual, partial_data, final_data.
  pose proof (final_partial_ne root p p Hp Hv) as Hne. revert Hne.
  generalize (partial_of root p) as pp, (final_of root p) as ff. intros pp ff Hne.
  rewrite (bool_decide_eq_true_2 (ReadWrite = ReadWrite)) by done. cbn [andb].
  destruct (files !! pp) as [f|] eqn:Ed; cbn.
  - rewrite bool_decide_eq_true_2 by done. unfold rename_file, smodify. cbv beta. rewrite ?Ed. eexists _, _. split; [done|]. split_and!.
    + intros k H1 H2. rewrite lookup_insert_ne by done. by rewrite lookup_delete_ne.
    + done.
    + rewrite lookup_insert_ne by done. by rewrite lookup_delete_eq.
    + by rewrite lookup_insert_eq.
  - destruct (files !! ff) as [g|]; cbn; [|by eexists _, _].
    rewrite bool_decide_eq_false_2 by done. by eexists _, _.
Qed.

Lemma delete_run access p files : valid p → visible p →
  delete_file s arena p (options_of access) files = (Ok tt, delete (partial_of root p) (delete (final_of root p) files)).
Proof.
  intros Hp Hv. unfold delete_file, sbind, slift. rewrite resolver_run. unfold with_path, sbind, slift.
  unfold PathResolver.final_path. simpl pr_path. rewrite full_path_visible by done. cbn [ok_or remove_file smodify].
  unfold remove_file, smodify. by rewrite partial_path_run.
Qed.

Lemma signature_run access p range files : valid p → visible p →
  calculate_signature Signature calculate s arena p range (options_of access) files =
  (match actual_data access p files with
   | Some d => result_map calculate (read_padded d range)
   | None => Err not_found end, files).
Proof.
  intros Hp Hv. unfold calculate_signature. unfold sbind at 1, slift at 1. rewrite resolver_run. rewrite resolve_open by done.
  destruct (actual_data _ _ _); [|done]. unfold sbind, slift, sret. by destruct (read_padded _ _).
Qed.

Lemma diff_run access p range sig files : valid p → visible p →
  diff digest Signature Delta deserialize_diff s arena p range sig (options_of access) files =
  (match actual_data access p files with
   | Some d => result_bind (read_padded d range) (λ buffer,
       match deserialize_diff sig buffer with Ok delta => Ok (delta, digest buffer) | Err op => Err (Failed (RsRsync op)) end)
   | None => Err not_found end, files).
Proof.
  intros Hp Hv. unfold diff. unfold sbind at 1, slift at 1. rewrite resolver_run. rewrite resolve_open by done.
  destruct (actual_data _ _ _); [|done]. unfold sbind, slift, sret, sthrow. destruct (read_padded _ _); [|done]. simpl.
  by destruct (deserialize_diff _ _).
Qed.

(** [apply_delta] creates the partial file in any case, and writes it only when the
    result has the right size and hash. *)
Lemma apply_delta_run access p range delta hash files : valid p → visible p →
  let old := default [] (partial_data p files) in
  ∃ files', partial_only p files files' ∧
    match read_padded old range with
    | Err e => apply_delta now digest Delta apply_limited s arena p range delta hash (options_of access) files = (Err e, files') ∧
        partial_data p files' = Some old
    | Ok base =>
        match apply_limited base delta (ByteRange.bytecount range) with
        | Some out =>
            if (N.of_nat (length out) =? ByteRange.bytecount range) && bool_decide (digest out = hash) then
              apply_delta now digest Delta apply_limited s arena p range delta hash (options_of access) files = (Ok tt, files') ∧
              partial_data p files' = Some (write_at (start range) out old)
            else
              (∃ e, apply_delta now digest Delta apply_limited s arena p range delta hash (options_of access) files = (Err e, files') ∧
                 (N.of_nat (length out) = ByteRange.bytecount range → e = Failed HashMismatch)) ∧
              partial_data p files' = Some old
        | None => apply_delta now digest Delta apply_limited s arena p range delta hash (options_of access) files =
              (Err (Failed (RsRsync Apply)), files') ∧ partial_data p files' = Some old
        end
    end.
Proof.
  intros Hp Hv old. destruct (open_write_run p files Hp Hv) as (f1 & E1 & H1 & H2 & [f H3]).
  assert (f_data f = old) as Hf by (unfold partial_data at 1 in H2; rewrite H3 in H2; by injection H2).
  assert (∀ X, X = apply_delta now digest Delta apply_limited s arena p range delta hash (options_of access) files →
    X = (let* base := slift (read_padded old range) in
      match apply_limited base delta (ByteRange.bytecount range) with
      | None => sthrow (Failed (RsRsync Apply))
      | Some out =>
          if negb (N.of_nat (length out) =? ByteRange.bytecount range)
          then sthrow (Failed (BadRequest "Delta output size mismatch"))
          else if negb (bool_decide (digest out = hash)) then sthrow (Failed HashMismatch)
          else write_at_offset now (partial_of root p) (start range) out
      end) f1) as Heq.
  { intros X ->. unfold apply_delta. unfold sbind at 1, slift at 1. rewrite resolver_run. unfold with_path.
    unfold sbind at 1. unfold sbind at 1, slift at 1. rewrite partial_path_run by done. cbn [ok_or slift].
    unfold sbind at 1. unfold slift at 1. unfold sbind at 1. rewrite E1. unfold sbind at 1, open_for_range_read, sbind at 1, sget, id.
    rewrite H3. cbn [sret]. by rewrite Hf. }
  specialize (Heq _ eq_refl). rewrite Heq. clear Heq. unfold sbind, slift, sthrow.
  destruct (read_padded old range) as [base|e]; [|exists f1; by split].
  destruct (apply_limited base delta _) as [out|]; [|exists f1; by split].
  destruct (N.eqb_spec (N.of_nat (length out)) (ByteRange.bytecount range)) as [Hl|Hl]; cbn [negb andb].
  - case_bool_decide; cbn [negb].
    + destruct (write_offset_run p f1 (start range) out Hp Hv) as (f2 & E2 & H4 & H5); [by eexists|].
      exists f2. split; [by eapply partial_only_trans|]. split; [exact E2|]. by rewrite H5, H2.
    + exists f1. split; [done|]. split; [|done]. eexists. split; [done|]. done.
  - exists f1. split; [done|]. split; [|done]. eexists. split; [done|]. by intros ?.
Qed.

(** What [read_padded] gives: the bytes of the range, with zeros after the end. *)
Lemma read_padded_run d range : start range ≤ end_ range →
  ∃ out, read_padded d range = Ok out ∧ N.of_nat (length out) = ByteRange.bytecount range ∧
    ∀ x, x < ByteRange.bytecount range → byte_at x out = byte_at (start range + x) d.
Proof.
  intros Hr. unfold read_padded, ByteRange.bytecount, u64_saturating_sub.
  destruct (N.ltb_spec (start range) (N.of_nat (length d))) as [Hs'|Hs'].
  - destruct (N.ltb_spec (N.min (end_ range) (N.of_nat (length d))) (start range)); [lia|].
    eexists. split; [done|]. split; [rewrite length_resize; lia|]. intros x Hx. rewrite byte_at_resize by lia.
    set (n := N.min (end_ range) (N.of_nat (length d)) - start range).
    destruct (N.lt_ge_cases x n) as [Hn|Hn]; [by apply byte_at_read|].
    unfold byte_at, read_at. rewrite !lookup_ge_None_2; [done| |rewrite length_take, length_drop]; lia.
  - eexists. split; [done|]. split; [rewrite length_replicate; lia|]. intros x Hx. unfold byte_at.
    rewrite lookup_replicate_2 by lia. rewrite lookup_ge_None_2 by lia. done.
Qed.
End operations.

(** ** Properties *)

(** C36: a listing gives each path once, in order, and for a path exactly the file that
    the other operations take for it: the partial one if there is one and it may be
    seen, or else the final one; in whatever order the directory is walked. *)
Theorem list_resolves root walk diff_paths s arena access files
  (Hroot : root ≠ "") (Hwalk : ∀ files, walk root files ≡ₚ filter (below root) (map_to_list files))
  (Hdiff : ∀ rel, os_normal rel → diff_paths (join_path root rel) root = Some rel)
  (Hs : rs_map s !! arena = Some root) (Hsane : sane_names root files) :
  ∃ l, list_files walk diff_paths s arena (options_of access) files = (Ok l, files) ∧
    Sorted path_le l ∧ NoDup (sf_path <$> l) ∧
    ∀ p, valid p → visible p → ∀ x, (x ∈ l ∧ sf_path x = p) ↔
      ∃ a f, PathResolver.resolve (PathResolver.new root access) p files = (Ok a, files) ∧ files !! a = Some f ∧
        x = {| sf_path := p; sf_size := f_len f; sf_mtime := f_mtime f |}.
Proof.
  destruct (list_run root Hroot walk diff_paths Hwalk Hdiff s arena access files Hs Hsane) as (l & H1 & H2 & H3 & _ & H4).
  exists l. split_and!; [done..|]. intros p Hp Hv x. rewrite H4, resolve_run by done.
  destruct (actual root access p files) as [a|]; simpl; naive_solver.
Qed.

(** What was sent is read back, with what was there around it and zeros after the
    end; sending creates the partial file and never touches another one. *)
Theorem send_read root s arena now p range data range' files
  (Hroot : root ≠ "") (Hs : rs_map s !! arena = Some root) (Hp : valid p) (Hv : visible p) (Hr : start range' ≤ end_ range') :
  ∃ files' out, send now s arena p range data (options_of ReadWrite) files = (Ok tt, files') ∧
    (∀ k, k ≠ partial_of root p → files' !! k = files !! k) ∧
    read s arena p range' (options_of ReadWrite) files' = (Ok out, files') ∧
    N.of_nat (length out) = ByteRange.bytecount range' ∧
    ∀ x, x < ByteRange.bytecount range' →
      byte_at x out =
        if decide (start range ≤ start range' + x ∧ start range' + x < start range + N.of_nat (length data))
        then byte_at (start range' + x - start range) data
        else byte_at (start range' + x) (default [] (partial_data root p files)).
Proof.
  destruct (send_run root Hroot s arena Hs now ReadWrite p range data files Hp Hv) as (files' & H1 & [P1 P2] & H3).
  destruct (read_padded_run (write_at (start range) data (default [] (partial_data root p files))) range' Hr) as (out & E & L & Hx).
  exists files', out. split; [done|]. split.
  { intros k Hk. destruct (decide (k = final_of root p)) as [->|]; [done|by apply P2]. }
  rewrite (store_read_run root) by done. unfold actual_data. rewrite bool_decide_eq_true_2, H3 by done.
  split; [by rewrite E|]. split; [done|]. intros x Hlt. by rewrite Hx, byte_at_write.
Qed.

Lemma list_loop_panics root (Hroot : root ≠ "") diff_paths access rel f entries files :
  (∀ rel, os_normal rel → diff_paths (join_path root rel) root = Some rel) →
  os_normal rel → last_part rel = ".part" → (join_path root rel, f) ∈ entries →
  (∀ a g, (a, g) ∈ entries → ∃ rel, a = join_path root rel ∧ os_normal rel) →
  list_loop diff_paths (PathResolver.new root access) entries files = Err Panicked.
Proof.
  intros Hdiff Hrel Hname. revert files. induction entries as [|[a g] entries IH]; intros files Hin Hall; [by apply elem_of_nil in Hin|].
  rewrite list_loop_cons. unfold list_entry. cbn [fst snd].
  destruct (Hall a g) as (rel' & -> & Hn); [by left|]. destruct (decide (last_part rel' = ".part")) as [Hp|Hp].
  - assert (PathResolver.reverse diff_paths (PathResolver.new root access) (join_path root rel') = Err Panicked) as ->; [|done].
    pose proof (os_normal_name rel' Hn) as Hb. destruct (join_parts root Hroot rel') as [J1 J2].
    unfold PathResolver.reverse, is_partial. simpl. rewrite Hdiff by done.
    rewrite (non_partial_name_spec (join_path root rel')) by (by rewrite J2). rewrite J2.
    unfold PathResolver.reverse_relative. simpl. rewrite (non_partial_name_spec rel' Hb).
    rewrite (bool_decide_eq_true_2 (last_part rel' = ".part")) by done. by destruct access.
  - destruct (reverse_spec root Hroot diff_paths access rel' (Hdiff rel' Hn) Hn Hp) as (o & -> & _). cbn [result_map result_bind].
    apply IH; [|intros a' g' H; eapply Hall; by right]. apply elem_of_cons in Hin as [[= E _]|?]; [|done].
    apply join_path_inj in E. congruence.
Qed.

(** A file called [.part] anywhere in an arena makes every listing of it fail. *)
Theorem dot_part_breaks_list root walk diff_paths s arena access files rel
  (Hroot : root ≠ "") (Hwalk : ∀ files, walk root files ≡ₚ filter (below root) (map_to_list files))
  (Hdiff : ∀ rel, os_normal rel → diff_paths (join_path root rel) root = Some rel)
  (Hs : rs_map s !! arena = Some root) (Hname : last_part rel = ".part") (Hfile : is_Some (files !! join_path root rel))
  (Hnormal : ∀ rel, is_Some (files !! join_path root rel) → os_normal rel) :
  list_files walk diff_paths s arena (options_of access) files = (Err (Failed RsOther), files).
Proof.
  destruct Hfile as [f Hf]. assert ((join_path root rel, f) ∈ walk root files) as Hin by (apply elem_of_walk; eauto).
  unfold list_files, sbind, slift. rewrite (resolver_run root) by done. unfold sget, id.
  rewrite (list_loop_panics root Hroot diff_paths access rel f _ _ Hdiff); [done|by apply Hnormal; eexists|done|done|].
  intros a g (Hg & rel' & ->)%elem_of_walk; [|done..]. exists rel'. split; [done|]. by apply Hnormal; eexists.
Qed.

(** ** Witnesses *)

Definition arena1 : Arena := mkArena "photos".
Definition store1 : RealStore := RealStore.single arena1 "/r".
Definition path1 : Path := mkPath "d/a.txt".
Definition now1 : UnixTime := mkUnixTime 7.
Definition whole1 : File := {| f_data := [x61; x62; x63]%byte; f_mtime := now1 |}.
Definition part1 : File := {| f_data := [x61]%byte; f_mtime := now1 |}.
Definition files1 : Fs := {["/r/d/a.txt" := whole1; "/r/d/.a.txt.part" := part1]}.
Definition dotted1 : Fs := {["/r/.part" := part1]}.
Definition walk1 (root : string) (files : Fs) : list (string * File) := filter (below root) (map_to_list files).
Definition diff_paths1 (root a r : string) : option string := Str.strip_prefix (root +:+ "/") a.

Lemma diff_paths1_law rel : diff_paths1 "/r" (join_path "/r" rel) "/r" = Some rel.
Proof. by apply strip_prefix_Some. Qed.

Lemma store1_root : rs_map store1 !! arena1 = Some "/r".
Proof. by vm_compute. Qed.

Lemma files1_sane : sane_names "/r" files1.
Proof.
  intros rel [f Hf]. assert (rel = "d/a.txt" ∨ rel = "d/.a.txt.part") as [-> | ->].
  { unfold files1 in Hf. apply lookup_insert_Some in Hf as [[E _]|[_ Hf]].
    - left. change "/r/d/a.txt" with (join_path "/r" "d/a.txt") in E. by apply join_path_inj in E.
    - right. apply lookup_singleton_Some in Hf as [E _].
      change "/r/d/.a.txt.part" with (join_path "/r" "d/.a.txt.part") in E. by apply join_path_inj in E. }
  - split; [|done]. by repeat constructor.
  - split; [|done]. by repeat constructor.
Qed.

Lemma path1_valid : valid path1.
Proof. by vm_compute. Qed.

Lemma path1_visible : visible path1.
Proof. by vm_compute. Qed.

Example list_resolves_witness :
  ∃ l, list_files walk1 (diff_paths1 "/r") store1 arena1 (options_of ReadWrite) files1 = (Ok l, files1) ∧
    {| sf_path := path1; sf_size := 1; sf_mtime := now1 |} ∈ l.
Proof.
  destruct (list_resolves "/r" walk1 (diff_paths1 "/r") store1 arena1 ReadWrite files1 ltac:(done) ltac:(done)
    (λ rel _, diff_paths1_law rel) store1_root files1_sane) as (l & H1 & _ & _ & H2).
  exists l. split; [exact H1|].
  apply (proj2 (H2 path1 path1_valid path1_visible {| sf_path := path1; sf_size := 1; sf_mtime := now1 |})).
  exists "/r/d/.a.txt.part", part1. split; [vm_compute; reflexivity|]. split; [vm_compute; reflexivity|reflexivity].
Defined.

Example send_read_witness :
  ∃ files' out, send now1 store1 arena1 path1 (ByteRange.new 1 2) [x7a]%byte (options_of ReadWrite) files1 = (Ok tt, files') ∧
    read store1 arena1 path1 (ByteRange.new 0 4) (options_of ReadWrite) files' = (Ok out, files') ∧ byte_at 1 out = x7a.
Proof.
  destruct (send_read "/r" store1 arena1 now1 path1 (ByteRange.new 1 2) [x7a]%byte (ByteRange.new 0 4) files1 ltac:(done)
    store1_root path1_valid path1_visible ltac:(done)) as (files' & out & H1 & _ & H2 & _ & H3).
  exists files', out. split; [exact H1|]. split; [exact H2|]. by apply (H3 1).
Defined.

Lemma dotted1_name rel : is_Some (dotted1 !! join_path "/r" rel) → rel = ".part".
Proof.
  intros [f Hf]. unfold dotted1 in Hf. apply lookup_singleton_Some in Hf as [E _].
  change "/r/.part" with (join_path "/r" ".part") in E. by apply join_path_inj in E.
Qed.

Example dot_part_breaks_list_witness :
  list_files walk1 (diff_paths1 "/r") store1 arena1 (options_of Read) dotted1 = (Err (Failed RsOther), dotted1).
Proof.
  apply (dot_part_breaks_list "/r" walk1 (diff_paths1 "/r") store1 arena1 Read dotted1 ".part");
    [done|done|intros rel _; apply diff_paths1_law|exact store1_root|done| |].
  - by eexists.
  - intros rel ->%dotted1_name. by repeat constructor.
Defined.
