(* ===== verification/RangedHash.v ===== *)
(** * Hashes of the ranges of a file

    [RangedHash] of [crate/realize-core/src/rpc/realstore.rs]: the hashes of the
    chunks of a file, kept sorted, and their comparison with those of another file. *)
From S2P Require Import Prelude Bytes Range RangeSet Types.
Local Open Scope N_scope.

Record RangedHashEntry : Type := { rh_range : ByteRange; rh_hash : Hash }.

Record RangedHash : Type := { hashes : list RangedHashEntry }.

(** The derived order of ranges. *)
Definition range_le (a b : ByteRange) : Prop := start a < start b ∨ (start a = start b ∧ end_ a ≤ end_ b).
#[global] Instance range_le_dec a b : Decision (range_le a b).
Proof. unfold range_le. apply _. Defined.
Definition entry_le (a b : RangedHashEntry) : Prop := range_le (rh_range a) (rh_range b).
#[global] Instance entry_le_dec a b : Decision (entry_le a b).
Proof. unfold entry_le. apply _. Defined.

Module RangedHash.
Definition new : RangedHash := {| hashes := [] |}.

Definition single (range : ByteRange) (hash : Hash) : RangedHash := {| hashes := [{| rh_range := range; rh_hash := hash |}] |}.

Definition len (r : RangedHash) : nat := length (hashes r).
Definition is_empty (r : RangedHash) : bool := match hashes r with [] => true | _ => false end.

(** [sort_by_key] is stable. *)
Definition add (range : ByteRange) (hash : Hash) (r : RangedHash) : RangedHash :=
  {| hashes := merge_sort entry_le (hashes r ++ [{| rh_range := range; rh_hash := hash |}]) |}.

Definition span (r : RangedHash) : ByteRange :=
  ByteRange.new (default 0 ((λ e, start (rh_range e)) <$> head (hashes r)))
                (default 0 ((λ e, end_ (rh_range e)) <$> last (hashes r))).

Definition ranges (r : RangedHash) : ByteRanges := ByteRanges.from_range_refs (rh_range <$> hashes r).

(** The loop of [is_complete]: where the next range is expected to start, or [None]. *)
Fixpoint expected_end (expected : N) (l : list RangedHashEntry) : option N :=
  match l with
  | [] => Some expected
  | e :: l => if start (rh_range e) =? expected then expected_end (end_ (rh_range e)) l else None
  end.
Definition is_complete (filesize : N) (r : RangedHash) : bool :=
  if is_empty r then false else bool_decide (expected_end 0 (hashes r) = Some filesize).

(** The loop of [diff], which goes through both lists at once. *)
Fixpoint diff_loop (a : list RangedHashEntry) : list RangedHashEntry → list ByteRange * list ByteRange :=
  fix go b :=
    match a, b with
    | x :: a', y :: b' =>
        if bool_decide (rh_range x = rh_range y) then
          let '(matches, mismatches) := diff_loop a' b' in
          if bool_decide (rh_hash x = rh_hash y)
          then (rh_range x :: matches, mismatches)
          else (matches, rh_range x :: mismatches)
        else if start (rh_range x) <? start (rh_range y) then diff_loop a' b
        else go b'
    | _, _ => ([], [])
    end.
Definition diff (r other : RangedHash) : ByteRanges * ByteRanges :=
  let '(matches, mismatches) := diff_loop (hashes r) (hashes other) in
  (ByteRanges.from_ranges matches, ByteRanges.from_ranges mismatches).
End RangedHash.

(** ** Lemmas *)

(** The entries for some chunks, with a hash for each. *)
Definition entries_of (h : ByteRange → Hash) (rs : list ByteRange) : list RangedHashEntry :=
  (λ r, {| rh_range := r; rh_hash := h r |}) <$> rs.

(** Adding the entries in any order. *)
Definition add_all (l : list (ByteRange * Hash)) : RangedHash :=
  foldl (λ r e, RangedHash.add e.1 e.2 r) RangedHash.new l.

Lemma range_le_refl r : range_le r r.
Proof. right. lia. Qed.

Lemma range_le_trans : Transitive range_le.
Proof. intros a b c. unfold range_le. lia. Qed.

Lemma range_le_total : Total range_le.
Proof. intros a b. unfold range_le. lia. Qed.

Lemma range_le_antisym a b : range_le a b → range_le b a → a = b.
Proof. destruct a, b. unfold range_le. simpl. intros. f_equal; lia. Qed.

#[local] Instance entry_le_trans : Transitive entry_le.
Proof. intros a b c. apply range_le_trans. Qed.
#[local] Instance entry_le_total : Total entry_le.
Proof. intros a b. apply range_le_total. Qed.

Lemma add_all_entries l r :
  StronglySorted entry_le (hashes r) →
  let r' := foldl (λ r (e : ByteRange * Hash), RangedHash.add e.1 e.2 r) r l in
  StronglySorted entry_le (hashes r') ∧
  hashes r' ≡ₚ hashes r ++ ((λ e, {| rh_range := e.1; rh_hash := e.2 |}) <$> l).
Proof.
  revert r. induction l as [|e l IH]; intros r Hr; simpl; [by rewrite app_nil_r|].
  destruct (IH (RangedHash.add e.1 e.2 r)) as [H1 H2]; [apply (StronglySorted_merge_sort entry_le)|].
  split; [done|]. rewrite H2. simpl. rewrite (merge_sort_Permutation entry_le). by rewrite <- app_assoc.
Qed.

Lemma tiles_sorted s e rs (h : ByteRange → Hash) : tiles s e rs → StronglySorted entry_le (entries_of h rs).
Proof.
  assert (∀ rs s, tiles s e rs → ∀ r, r ∈ rs → s ≤ start r) as Hge.
  { clear. induction rs as [|r rs IH]; intros s Ht x Hx; [by apply elem_of_nil in Hx|].
    destruct Ht as (<- & Hlt & _ & Ht). apply elem_of_cons in Hx as [->|Hx]; [done|]. specialize (IH _ Ht x Hx). lia. }
  revert s. induction rs as [|r rs IH]; intros s Ht; [constructor|]. destruct Ht as (<- & Hlt & _ & Ht).
  constructor; [by eapply IH|]. apply Forall_fmap, Forall_forall. intros x Hx. left. simpl.
  pose proof (Hge _ _ Ht x Hx). lia.
Qed.

Lemma tiles_NoDup s e rs : tiles s e rs → NoDup rs ∧ ∀ r, r ∈ rs → s ≤ start r ∧ start r < end_ r ∧ end_ r ≤ e.
Proof.
  revert s. induction rs as [|r rs IH]; intros s Ht.
  { split; [constructor|]. intros r Hr. by apply elem_of_nil in Hr. }
  destruct Ht as (<- & Hlt & He & Ht). destruct (IH _ Ht) as [H1 H2]. split.
  - constructor; [|done]. intros Hr%H2. lia.
  - intros x [->|Hx]%elem_of_cons; [done|]. specialize (H2 x Hx). lia.
Qed.

(** The hashes of the chunks of a file, whatever the order they come in. *)
Lemma add_all_tiles s e rs h l :
  tiles s e rs → l ≡ₚ ((λ r, (r, h r)) <$> rs) → hashes (add_all l) = entries_of h rs.
Proof.
  intros Ht Hl. destruct (add_all_entries l RangedHash.new) as [H1 H2]; [constructor|].
  apply (StronglySorted_unique_strong entry_le); [|done|by eapply tiles_sorted|].
  - intros x y Hx Hy Hxy Hyx. pose proof (range_le_antisym _ _ Hxy Hyx) as E.
    assert (hashes (add_all l) ≡ₚ entries_of h rs) as Hp.
    { unfold add_all. rewrite H2, Hl. simpl. by rewrite <- list_fmap_compose. }
    rewrite Hp in Hx. apply list_elem_of_fmap in Hx as (r & -> & _), Hy as (r' & -> & _). simpl in E. by subst.
  - unfold add_all. rewrite H2, Hl. simpl. by rewrite <- list_fmap_compose.
Qed.

Lemma expected_end_tiles s e rs h : s ≤ e → tiles s e rs → RangedHash.expected_end s (entries_of h rs) = Some e.
Proof.
  revert s. induction rs as [|r rs IH]; intros s Hs Ht; simpl.
  - simpl in Ht. f_equal. lia.
  - destruct Ht as (<- & Hlt & He & Ht). rewrite N.eqb_refl. by apply IH.
Qed.

Lemma diff_loop_same h h' rs :
  RangedHash.diff_loop (entries_of h rs) (entries_of h' rs) =
  (filter (λ r, h r = h' r) rs, filter (λ r, h r ≠ h' r) rs).
Proof.
  induction rs as [|r rs IH]; [done|]. cbn [entries_of fmap list_fmap RangedHash.diff_loop rh_range rh_hash].
  fold (entries_of h rs) (entries_of h' rs).
  rewrite bool_decide_eq_true_2 by done. rewrite IH, !filter_cons.
  case_bool_decide as E; [rewrite decide_True, decide_False by tauto|rewrite decide_False, decide_True by tauto]; done.
Qed.

(** The complete hashes of two files of the same size: which chunks are the same. *)
Lemma complete_hashes size rs h h' l l' :
  0 < size → tiles 0 size rs → l ≡ₚ ((λ r, (r, h r)) <$> rs) → l' ≡ₚ ((λ r, (r, h' r)) <$> rs) →
  RangedHash.is_complete size (add_all l) = true ∧
  RangedHash.diff (add_all l) (add_all l') =
    (ByteRanges.from_ranges (filter (λ r, h r = h' r) rs), ByteRanges.from_ranges (filter (λ r, h r ≠ h' r) rs)).
Proof.
  intros Hs Ht Hl Hl'. pose proof (add_all_tiles _ _ _ _ _ Ht Hl) as E. pose proof (add_all_tiles _ _ _ _ _ Ht Hl') as E'. split.
  - unfold RangedHash.is_complete, RangedHash.is_empty. rewrite E.
    destruct rs as [|r rs]; [simpl in Ht; lia|]. cbn [entries_of fmap list_fmap].
    apply bool_decide_eq_true. change (RangedHash.expected_end 0 (entries_of h (r :: rs)) = Some size).
    apply expected_end_tiles; [lia|done].
  - unfold RangedHash.diff. by rewrite E, E', diff_loop_same.
Qed.
