(* ===== verification/MoveDirs.v ===== *)
(** * Moving directories

    [crate/realize-core/src/consensus/movedirs.rs]: moving the files of an arena from
    one machine, the source, to another, the destination, with calls to the
    [RealStore] of each ([crate/realize-core/src/rpc/realstore.rs] and its server).

    A call may be answered, refused by the store, or lost, and the client that
    reconnects may repeat it: [Reply] says what becomes of each call, in the order
    they are made.  Nothing else changes the files of both machines.

    Calls that are made at the same time are made one after the other: copying is
    followed by hashing the source, and a file by the next one.  This is any
    interleaving: hashing and reading change nothing, and moving a file depends on
    and changes nothing but its own files ([safe_others]).  The order in which
    hashes come back is a parameter ([completed]). *)
From Stdlib Require Import Strings.Byte.
From S2P Require Import Prelude Bytes Range RangeSet Redb Path Types Db RealStore RangedHash.
Local Open Scope N_scope.
Local Open Scope realize_scope.

Definition CHUNK_SIZE : N := 4 * 1024 * 1024.
Definition HASH_FILE_CHUNK : N := 256 * 1024 * 1024.

(** [src_options], [dst_options] *)
Definition src_options : Options := {| ignore_partial := true |}.
Definition dst_options : Options := {| ignore_partial := false |}.

(** The messages of errors are left out. *)
Inductive ProgressEvent : Type :=
| MovingDir (arena : Arena) (total_files : nat) (total_bytes available_bytes : N)
| MovingFile (arena : Arena) (path : Path) (bytes available : N)
| VerifyingFile (arena : Arena) (path : Path)
| RsyncingFile (arena : Arena) (path : Path)
| CopyingFile (arena : Arena) (path : Path)
| PendingFile (arena : Arena) (path : Path)
| IncrementByteCount (arena : Arena) (path : Path) (bytecount : N)
| DecrementByteCount (arena : Arena) (path : Path) (bytecount : N)
| FileSuccess (arena : Arena) (path : Path)
| FileError (arena : Arena) (path : Path).

(** The errors of tarpc that the code tells apart. *)
Inductive RpcError : Type := DeadlineExceeded | OtherRpcError.

Inductive MoveFileError : Type :=
| Rpc (e : RpcError)
| RealizeError (e : RealStoreError)
| MoveIo
| FailedToSync
| MoveOther.

(** [HashCheck] *)
Inductive HashCheck : Type := Match | Mismatch (partial_match : ByteRanges).

(** ** Calls *)

(** A call is executed, [again] more times than once, and the last answer comes back;
    or it is executed any number of times and no answer comes; or it fails without
    being executed. *)
Inductive Reply : Type :=
| Answered (again : nat)
| Lost (times : nat) (e : RpcError)
| Refused (e : RealStoreError).

Inductive Side : Type := Src | Dst.

Record MoveState : Type := {
  src_files : Fs;
  dst_files : Fs;
  replies : list Reply;
  events : list ProgressEvent;
}.

Definition MoveM (A : Type) : Type := StateM MoveState MoveFileError A.

Definition files_of (side : Side) (s : MoveState) : Fs :=
  match side with Src => src_files s | Dst => dst_files s end.
Definition set_files (side : Side) (files : Fs) (s : MoveState) : MoveState :=
  match side with
  | Src => {| src_files := files; dst_files := dst_files s; replies := replies s; events := events s |}
  | Dst => {| src_files := src_files s; dst_files := files; replies := replies s; events := events s |}
  end.
Definition pop_reply (s : MoveState) : Reply * MoveState :=
  (default (Answered 0) (head (replies s)),
   {| src_files := src_files s; dst_files := dst_files s; replies := tail (replies s); events := events s |}).
Definition push_event (e : ProgressEvent) (s : MoveState) : MoveState :=
  {| src_files := src_files s; dst_files := dst_files s; replies := replies s; events := events s ++ [e] |}.

(** The state of the files after executing an operation. *)
Fixpoint executed {A} (times : nat) (op : StoreM A) (files : Fs) : Fs :=
  match times with O => files | S times => executed times op (op files).2 end.

(** A call of the client: what its stub returns. *)
Definition call {A} (side : Side) (op : StoreM A) : MoveM (result RealStoreError A) := λ s,
  let '(reply, s) := pop_reply s in
  match reply with
  | Refused e => (Ok (Err e), s)
  | Lost times e => (Err (Rpc e), set_files side (executed times op (files_of side s)) s)
  | Answered again =>
      let '(r, files) := op (executed again op (files_of side s)) in
      (match r with
       | Ok a => Ok (Ok a)
       | Err (Failed e) => Ok (Err e)
       | Err Panicked => Err (Rpc DeadlineExceeded)
       end, set_files side files s)
  end.

(** [call.await??] *)
Definition call_ok {A} (side : Side) (op : StoreM A) : MoveM A :=
  let* r := call side op in
  slift (match r with Ok a => Ok a | Err e => Err (RealizeError e) end).

(** The result of a computation as a value. *)
Definition try {A} (m : MoveM A) : MoveM (result MoveFileError A) := λ s, let '(r, s) := m s in (Ok r, s).

Section moves.
Context (src dst : RealStore).
Context (now : UnixTime) (digest : list byte → Hash).
Context (walk : string → Fs → list (string * File)).
Context (diff_paths : string → string → option string).
Context (Signature Delta : Type).
Context (calculate : list byte → Signature).
Context (deserialize_diff : Signature → list byte → result RsyncOperation Delta).
Context (apply_limited : list byte → Delta → N → option (list byte)).

(** What becomes of the hash of a range. *)
Definition HashResult : Type := result MoveFileError (ByteRange * result RealStoreError Hash).
Context (completed : list HashResult → list HashResult).
(** Whether there is a channel for progress events. *)
Context (progress : bool).

Definition store_of (side : Side) : RealStore := match side with Src => src | Dst => dst end.

(** ** Progress *)

Definition report (e : ProgressEvent) : MoveM () := smodify (λ s, if progress then push_event e s else s).
Definition report_pending arena path : MoveM () := report (PendingFile arena path).
Definition report_copying arena path : MoveM () := report (CopyingFile arena path).
Definition report_rsyncing arena path : MoveM () := report (RsyncingFile arena path).
Definition report_verifying arena path : MoveM () := report (VerifyingFile arena path).
Definition report_increment_bytecount arena path (bytecount : N) : MoveM () :=
  if bytecount =? 0 then sret () else report (IncrementByteCount arena path bytecount).
Definition report_decrement_bytecount arena path (bytecount : N) : MoveM () :=
  if bytecount =? 0 then sret () else report (DecrementByteCount arena path bytecount).

(** ** Moving a file *)

Definition copy_range (arena : Arena) (path : Path) (range : ByteRange) : MoveM () :=
  let* data := call_ok Src (read src arena path range src_options) in
  do* call_ok Dst (send now dst arena path range data dst_options) in
  report_increment_bytecount arena path (ByteRange.bytecount range).

(** [copy_file_range]; the semaphore makes the copies of different files take turns. *)
Definition copy_file_range (arena : Arena) (path : Path) (copy_ranges : ByteRanges) : MoveM () :=
  if ByteRanges.is_empty copy_ranges then sret ()
  else
    do* report_pending arena path in
    do* report_copying arena path in
    sfor (default [] (ByteRanges.chunked copy_ranges CHUNK_SIZE)) (copy_range arena path).

(** A turn of the loop of [rsync_file_range]: the ranges to copy instead. *)
Definition rsync_range (arena : Arena) (path : Path) (range : ByteRange) (copy_ranges : ByteRanges) : MoveM ByteRanges :=
  let* sig := call_ok Dst (calculate_signature Signature calculate dst arena path range dst_options) in
  let* '(delta, hash) := call_ok Src (diff digest Signature Delta deserialize_diff src arena path range sig src_options) in
  let* applied := call Dst (apply_delta now digest Delta apply_limited dst arena path range delta hash dst_options) in
  match applied with
  | Ok _ =>
      do* report_increment_bytecount arena path (ByteRange.bytecount range) in
      sret copy_ranges
  | Err HashMismatch => sret (ByteRanges.add copy_ranges range)
  | Err e => sthrow (RealizeError e)
  end.

Fixpoint rsync_loop (arena : Arena) (path : Path) (ranges : list ByteRange) (copy_ranges : ByteRanges) : MoveM ByteRanges :=
  match ranges with
  | [] => sret copy_ranges
  | range :: ranges =>
      let* copy_ranges := rsync_range arena path range copy_ranges in
      rsync_loop arena path ranges copy_ranges
  end.

Definition rsync_file_range (arena : Arena) (path : Path) (rsync_ranges copy_ranges : ByteRanges) : MoveM ByteRanges :=
  if ByteRanges.is_empty rsync_ranges then sret copy_ranges
  else
    do* report_rsyncing arena path in
    rsync_loop arena path (default [] (ByteRanges.chunked rsync_ranges CHUNK_SIZE)) copy_ranges.

(** The calls of [hash_file]: all of them are made, whatever they answer. *)
Fixpoint hash_calls (side : Side) (arena : Arena) (path : Path) (options : Options) (ranges : list ByteRange)
  : MoveM (list HashResult) :=
  match ranges with
  | [] => sret []
  | range :: ranges =>
      let* res := try (call side (hash_file_range digest (store_of side) arena path range options)) in
      let* rest := hash_calls side arena path options ranges in
      sret (result_map (λ h, (range, h)) res :: rest)
  end.

Fixpoint collect_hashes (results : list HashResult) (ranged : RangedHash) : result MoveFileError RangedHash :=
  match results with
  | [] => Ok ranged
  | Err e :: _ => Err e
  | Ok (_, Err e) :: _ => Err (RealizeError e)
  | Ok (range, Ok hash) :: results => collect_hashes results (RangedHash.add range hash ranged)
  end.

Definition hash_file (side : Side) (arena : Arena) (path : Path) (file_size chunk_size : N) (options : Options)
  : MoveM RangedHash :=
  let* results := hash_calls side arena path options (default [] (chunked (ByteRange.new 0 file_size) chunk_size)) in
  slift (collect_hashes (completed results) RangedHash.new).

Definition check_hashes_and_delete (src_hash : RangedHash) (file_size : N) (arena : Arena) (path : Path) : MoveM HashCheck :=
  let* dst_hash := hash_file Dst arena path file_size HASH_FILE_CHUNK dst_options in
  let is_complete_src := RangedHash.is_complete file_size src_hash in
  let is_complete_dst := RangedHash.is_complete file_size dst_hash in
  let '(matches, mismatches) := RangedHash.diff src_hash dst_hash in
  if negb (ByteRanges.is_empty mismatches) || negb is_complete_src || negb is_complete_dst
  then sret (Mismatch matches)
  else
    do* call_ok Dst (finish dst arena path dst_options) in
    do* call_ok Src (delete_file src arena path src_options) in
    sret Match.

Definition move_file (src_file : SyncedFile) (dst_file : option SyncedFile) (arena : Arena) : MoveM () :=
  let path := sf_path src_file in
  let src_size := sf_size src_file in
  let dst_size := default 0 (sf_size <$> dst_file) in
  let ranges := ByteRanges.single 0 src_size in
  let existing := ByteRanges.single 0 dst_size in
  let* copy := try (
    let copy_ranges := ByteRanges.subtraction ranges existing in
    do* copy_file_range arena path copy_ranges in
    if src_size <? dst_size
    then call_ok Dst (truncate now dst arena path src_size dst_options)
    else sret ()) in
  let* src_hash := try (hash_file Src arena path src_size HASH_FILE_CHUNK src_options) in
  do* slift copy in
  let* src_hash := slift src_hash in
  do* report_verifying arena path in
  let* check := check_hashes_and_delete src_hash src_size arena path in
  match check with
  | Match => sret ()
  | Mismatch correct =>
      let rsync_ranges := ByteRanges.subtraction ranges correct in
      do* report_decrement_bytecount arena path (ByteRanges.bytecount rsync_ranges) in
      let* fallback_ranges := rsync_file_range arena path rsync_ranges ByteRanges.new in
      do* copy_file_range arena path fallback_ranges in
      do* report_verifying arena path in
      let* check := check_hashes_and_delete src_hash src_size arena path in
      match check with
      | Mismatch _ => sthrow FailedToSync
      | Match => sret ()
      end
  end.

(** ** Moving arenas *)

(** [collect_files_to_sync] *)
Fixpoint pair_files (arena : Arena) (src_files : list SyncedFile) (dst_map : gmap Path SyncedFile)
  : list (Arena * SyncedFile * option SyncedFile) :=
  match src_files with
  | [] => []
  | src_file :: src_files =>
      (arena, src_file, dst_map !! sf_path src_file) :: pair_files arena src_files (delete (sf_path src_file) dst_map)
  end.

Definition collect_files_to_sync (arena : Arena) : MoveM (list (Arena * SyncedFile * option SyncedFile)) :=
  let* src_files := try (call_ok Src (list_files walk diff_paths src arena src_options)) in
  let* dst_files := try (call_ok Dst (list_files walk diff_paths dst arena dst_options)) in
  let* src_files := slift src_files in
  let* dst_files := slift dst_files in
  let dst_map := foldl (λ m f, <[sf_path f := f]> m) ∅ dst_files in
  let files_to_sync := pair_files arena src_files dst_map in
  do* report (MovingDir arena (length files_to_sync)
                (foldl (λ acc f, u64_add acc (sf_size f.1.2)) 0 files_to_sync)
                (foldl (λ acc f, u64_add acc (default 0 (sf_size <$> f.2))) 0 files_to_sync)) in
  sret files_to_sync.

(** What [move_dirs] does with a file, and how it counts it. *)
Definition move_one (file : Arena * SyncedFile * option SyncedFile) : MoveM (N * N * N) :=
  let '(arena, src_file, dst_file) := file in
  do* report (MovingFile arena (sf_path src_file) (sf_size src_file) (default 0 (sf_size <$> dst_file))) in
  let* result := try (move_file src_file dst_file arena) in
  match result with
  | Ok _ => do* report (FileSuccess arena (sf_path src_file)) in sret (1, 0, 0)
  | Err (Rpc DeadlineExceeded) => do* report (FileError arena (sf_path src_file)) in sret (0, 0, 1)
  | Err _ => do* report (FileError arena (sf_path src_file)) in sret (0, 1, 0)
  end.

Fixpoint move_all (files : list (Arena * SyncedFile * option SyncedFile)) (counts : N * N * N) : MoveM (N * N * N) :=
  match files with
  | [] => sret counts
  | file :: files =>
      let* one := move_one file in
      move_all files (counts.1.1 + one.1.1, counts.1.2 + one.1.2, counts.2 + one.2)
  end.

Fixpoint collect_all (arenas : list Arena) : MoveM (list (result MoveFileError (list (Arena * SyncedFile * option SyncedFile)))) :=
  match arenas with
  | [] => sret []
  | arena :: arenas =>
      let* collected := try (collect_files_to_sync arena) in
      let* rest := collect_all arenas in
      sret (collected :: rest)
  end.

Definition move_dirs (arenas : list Arena) : MoveM (N * N * N) :=
  let* collected := collect_all arenas in
  let* files_to_sync := slift (foldl (λ acc c, result_bind acc (λ l, result_map (λ l', l ++ l') c)) (Ok []) collected) in
  move_all files_to_sync (0, 0, 0).

Definition move_dir (arena : Arena) : MoveM (N * N * N) := move_dirs [arena].
End moves.

(** ** Lemmas on calls *)

(** What a call leaves alone. *)
Record side_only (side : Side) (s s' : MoveState) : Prop := {
  so_src : side = Dst → src_files s' = src_files s;
  so_dst : side = Src → dst_files s' = dst_files s;
}.

Lemma set_files_only side files s : side_only side s (set_files side files s).
Proof. by destruct side. Qed.

Lemma files_set side files s : files_of side (set_files side files s) = files.
Proof. by destruct side. Qed.

Lemma executed_inv {A} (P : Fs → Prop) (op : StoreM A) n files :
  (∀ files, P files → P (op files).2) → P files → P (executed n op files).
Proof. intros Hop. revert files. induction n as [|n IH]; intros files H; simpl; auto. Qed.

(** A call keeps what its operation keeps, however often it is executed; an answer is
    that of an execution. *)
Lemma call_run {A} side (op : StoreM A) (P : Fs → Prop) s :
  (∀ files, P files → P (op files).2) → P (files_of side s) →
  let '(r, s') := call side op s in
  side_only side s s' ∧ P (files_of side s') ∧ (replies s = [] → replies s' = []) ∧
  match r with
  | Ok (Ok a) => ∃ files, P files ∧ op files = (Ok a, files_of side s')
  | Ok (Err _) => True
  | Err e => ∃ e', e = Rpc e'
  end.
Proof.
  intros Hop Hs. unfold call, pop_reply.
  set (s1 := {| src_files := src_files s; dst_files := dst_files s; replies := tail (replies s); events := events s |}).
  assert (files_of side s1 = files_of side s) as E by by destruct side.
  assert (side_only side s s1) as E' by by destruct side.
  assert (∀ files, side_only side s (set_files side files s1)) as E'' by by destruct side.
  assert (replies s = [] → replies s1 = []) as Er by (unfold s1; simpl; intros H0; by rewrite H0).
  assert (∀ files, replies s = [] → replies (set_files side files s1) = []) as Er' by (intros files; destruct side; exact Er).
  destruct (default (Answered 0) (head (replies s))) as [again|times e|e].
  - rewrite E. pose proof (executed_inv P op again (files_of side s) Hop Hs) as HP. set (f1 := executed again op _) in *.
    destruct (op f1) as [r f2] eqn:Eo. pose proof (Hop f1 HP) as HP2. rewrite Eo in HP2. simpl in HP2.
    rewrite files_set. split; [apply E''|]. split; [done|]. split; [apply Er'|]. destruct r as [a|[e|]]; [|done|by eexists].
    by exists f1.
  - rewrite E, files_set. split; [apply E''|]. split; [by apply executed_inv|]. split; [apply Er'|]. by eexists.
  - rewrite E. by split_and!.
Qed.

(** A call that changes nothing. *)
Lemma call_pure {A} side (op : StoreM A) s :
  (∀ files, (op files).2 = files) →
  let '(r, s') := call side op s in
  src_files s' = src_files s ∧ dst_files s' = dst_files s ∧ (replies s = [] → replies s' = []) ∧
  match r with
  | Ok (Ok a) => (op (files_of side s)).1 = Ok a
  | Ok (Err _) => True
  | Err e => ∃ e', e = Rpc e'
  end.
Proof.
  intros Hop. pose proof (call_run side op (λ files, files = files_of side s) s) as H.
  destruct (call side op s) as [r s']. destruct H as ([H1 H2] & H3 & H4 & H5); [|done|].
  { intros files ->. by rewrite Hop. }
  split_and!; [destruct side; [done|by apply H1]|destruct side; [by apply H2|done]|done|].
  destruct r as [[a|e]|e]; [|done|done]. destruct H5 as (files & -> & H5). by rewrite H5.
Qed.

(** A call that is answered at once. *)
Lemma call_now {A} side (op : StoreM A) s : replies s = [] →
  ∃ s', call side op s =
      (match (op (files_of side s)).1 with
       | Ok a => Ok (Ok a)
       | Err (Failed e) => Ok (Err e)
       | Err Panicked => Err (Rpc DeadlineExceeded) end, s') ∧
    side_only side s s' ∧ files_of side s' = (op (files_of side s)).2 ∧ replies s' = [].
Proof.
  intros Hr. unfold call, pop_reply. rewrite Hr. simpl.
  destruct s as [sf df rp ev]. simpl in Hr. subst. destruct side; simpl;
    destruct (op _) as [r files]; eexists; (split; [reflexivity|]); by split_and!.
Qed.

Lemma call_ok_run {A} side (op : StoreM A) (P : Fs → Prop) s :
  (∀ files, P files → P (op files).2) → P (files_of side s) →
  let '(r, s') := call_ok side op s in
  side_only side s s' ∧ P (files_of side s') ∧ (replies s = [] → replies s' = []) ∧
  match r with Ok a => ∃ files, P files ∧ op files = (Ok a, files_of side s') | Err _ => True end.
Proof.
  intros Hop Hs. pose proof (call_run side op P s Hop Hs) as H. unfold call_ok, sbind, slift.
  destruct (call side op s) as [[[a|e]|e] s']; destruct H as (H1 & H2 & H3 & H4); by split_and!.
Qed.

Lemma call_ok_pure {A} side (op : StoreM A) s :
  (∀ files, (op files).2 = files) →
  let '(r, s') := call_ok side op s in
  src_files s' = src_files s ∧ dst_files s' = dst_files s ∧ (replies s = [] → replies s' = []) ∧
  match r with Ok a => (op (files_of side s)).1 = Ok a | Err _ => True end.
Proof.
  intros Hop. pose proof (call_pure side op s Hop) as H. unfold call_ok, sbind, slift.
  destruct (call side op s) as [[[a|e]|e] s']; destruct H as (H1 & H2 & H3 & H4); by split_and!.
Qed.

Lemma call_ok_now {A} side (op : StoreM A) s a : replies s = [] → (op (files_of side s)).1 = Ok a →
  ∃ s', call_ok side op s = (Ok a, s') ∧ side_only side s s' ∧ files_of side s' = (op (files_of side s)).2 ∧ replies s' = [].
Proof.
  intros Hr Ha. destruct (call_now side op s Hr) as (s' & E & H1 & H2 & H3). exists s'.
  unfold call_ok, sbind, slift. rewrite E, Ha. by split_and!.
Qed.

(** ** Moving one file *)

Section moving.
Context (src dst : RealStore) (now : UnixTime) (digest : list byte → Hash).
Context (Signature Delta : Type) (calculate : list byte → Signature).
Context (deserialize_diff : Signature → list byte → result RsyncOperation Delta).
Context (apply_limited : list byte → Delta → N → option (list byte)).
Context (completed : list HashResult → list HashResult) (Hcompleted : ∀ l, completed l ≡ₚ l).
Context (progress : bool).
Context (arena : Arena) (src_root dst_root : string) (Hsrc_root : src_root ≠ "") (Hdst_root : dst_root ≠ "").
Context (Hsrc : rs_map src !! arena = Some src_root) (Hdst : rs_map dst !! arena = Some dst_root).
Context (p : Path) (Hp : valid p) (Hv : visible p).
(** The size of the file. *)
Context (n : N) (Hn : n + HASH_FILE_CHUNK ≤ u64_modulus).
Implicit Types (s : MoveState) (files : Fs) (range : ByteRange).

(** What stands for the file at the destination is not longer than that. *)
Definition bounded files : Prop :=
  (∀ d, partial_data dst_root p files = Some d → N.of_nat (length d) ≤ n) ∧
  (partial_data dst_root p files = None → ∀ d, final_data dst_root p files = Some d → N.of_nat (length d) ≤ n).

(** Before the file is finished, only its partial file at the destination changes. *)
Record keeps s s' : Prop := {
  kp_src : src_files s' = src_files s;
  kp_dst : partial_only dst_root p (dst_files s) (dst_files s');
  kp_bounded : bounded (dst_files s) → bounded (dst_files s');
  kp_replies : replies s = [] → replies s' = [];
}.

Lemma keeps_same s s' : src_files s' = src_files s → dst_files s' = dst_files s → (replies s = [] → replies s' = []) → keeps s s'.
Proof. intros H1 H2 H3. split; [done|rewrite H2; by split|by rewrite H2|done]. Qed.

Lemma keeps_refl s : keeps s s.
Proof. by apply keeps_same. Qed.

Lemma keeps_trans s1 s2 s3 : keeps s1 s2 → keeps s2 s3 → keeps s1 s3.
Proof.
  intros [A1 A2 A3 A4] [B1 B2 B3 B4]. split; [congruence|by eapply partial_only_trans|auto|auto].
Qed.

(** A computation that keeps the file, whatever comes of it. *)
Definition always {A} (m : MoveM A) : Prop := ∀ s, keeps s (m s).2.

Lemma always_ret {A} (a : A) : always (sret a).
Proof. intros s. apply keeps_refl. Qed.
Lemma always_lift {A} (r : result MoveFileError A) : always (slift r).
Proof. intros s. apply keeps_refl. Qed.
Lemma always_throw {A} e : always (sthrow e : MoveM A).
Proof. intros s. apply keeps_refl. Qed.
Lemma always_bind {A B} (m : MoveM A) (k : A → MoveM B) :
  always m → (∀ a, always (k a)) → always (sbind m k).
Proof.
  intros Hm Hk s. specialize (Hm s). unfold sbind. destruct (m s) as [[a|e] s1]; [|done].
  eapply keeps_trans; [exact Hm|apply Hk].
Qed.
Lemma always_try {A} (m : MoveM A) : always m → always (try m).
Proof. intros Hm s. specialize (Hm s). unfold try. by destruct (m s). Qed.
Lemma always_for {A} (l : list A) (k : A → MoveM ()) : (∀ x, x ∈ l → always (k x)) → always (sfor l k).
Proof.
  induction l as [|x l IH]; intros Hk; simpl; [apply always_ret|].
  apply always_bind; [apply Hk; by left|]. intros _. apply IH. intros y Hy. apply Hk. by right.
Qed.
Lemma always_report e : always (report progress e).
Proof. intros s. apply keeps_same; by destruct progress. Qed.
Lemma always_increment path k : always (report_increment_bytecount progress arena path k).
Proof. unfold report_increment_bytecount. destruct (_ =? _); [apply always_ret|apply always_report]. Qed.
Lemma always_decrement path k : always (report_decrement_bytecount progress arena path k).
Proof. unfold report_decrement_bytecount. destruct (_ =? _); [apply always_ret|apply always_report]. Qed.

Lemma always_call_pure {A} side (op : StoreM A) : (∀ files, (op files).2 = files) → always (call side op).
Proof.
  intros Hop s. pose proof (call_pure side op s Hop) as H. destruct (call side op s) as [r s'].
  destruct H as (H1 & H2 & H3 & _). by apply keeps_same.
Qed.
Lemma always_ok {A} side (op : StoreM A) : always (call side op) → always (call_ok side op).
Proof. intros H. apply always_bind; [done|]. intros r. apply always_lift. Qed.

(** The operations of the stores on the file. *)
Lemma read_src range files :
  read src arena p range src_options files =
  (match final_data src_root p files with Some d => read_padded d range | None => Err not_found end, files).
Proof. exact (store_read_run src_root Hsrc_root src arena Hsrc Read p range files Hp Hv). Qed.

Lemma read_src_pure range files : (read src arena p range src_options files).2 = files.
Proof. by rewrite read_src. Qed.

Lemma hash_src range files :
  hash_file_range digest src arena p range src_options files =
  (match final_data src_root p files with Some d => Ok (range_hash digest range d) | None => Err not_found end, files).
Proof. exact (hash_run src_root Hsrc_root src arena Hsrc digest Read p range files Hp Hv). Qed.

Lemma hash_dst range files :
  hash_file_range digest dst arena p range dst_options files =
  (match actual_data dst_root ReadWrite p files with Some d => Ok (range_hash digest range d) | None => Err not_found end, files).
Proof. exact (hash_run dst_root Hdst_root dst arena Hdst digest ReadWrite p range files Hp Hv). Qed.

Lemma signature_dst range files :
  calculate_signature Signature calculate dst arena p range dst_options files =
  (match actual_data dst_root ReadWrite p files with Some d => result_map calculate (read_padded d range) | None => Err not_found end, files).
Proof. exact (signature_run dst_root Hdst_root dst arena Hdst Signature calculate ReadWrite p range files Hp Hv). Qed.

Lemma diff_src range sig files :
  diff digest Signature Delta deserialize_diff src arena p range sig src_options files =
  (match final_data src_root p files with
   | Some d => result_bind (read_padded d range) (λ buffer,
       match deserialize_diff sig buffer with Ok delta => Ok (delta, digest buffer) | Err op => Err (Failed (RsRsync op)) end)
   | None => Err not_found end, files).
Proof. exact (diff_run src_root Hsrc_root src arena Hsrc digest Signature Delta deserialize_diff Read p range sig files Hp Hv). Qed.

(** A write within the size keeps the bound. *)
Lemma bounded_write o d files files' :
  bounded files → partial_only dst_root p files files' → o + N.of_nat (length d) ≤ n →
  partial_data dst_root p files' = Some (write_at o d (default [] (partial_data dst_root p files))) → bounded files'.
Proof.
  intros [B1 B2] Hpo Hd E. split; [|by rewrite E]. intros d' Hd'. rewrite E in Hd'. injection Hd' as <-.
  destruct (partial_data dst_root p files) as [old|]; simpl in *.
  - specialize (B1 old eq_refl). destruct d as [|c d]; [done|]. rewrite length_write_max by done. simpl in *. lia.
  - destruct d as [|c d]; [simpl; lia|]. rewrite length_write_max by done. simpl in *. lia.
Qed.

Lemma send_dst range d files :
  let old := default [] (partial_data dst_root p files) in
  ∃ files', send now dst arena p range d dst_options files = (Ok tt, files') ∧ partial_only dst_root p files files' ∧
    partial_data dst_root p files' = Some (write_at (start range) d old).
Proof. exact (send_run dst_root Hdst_root dst arena Hdst now ReadWrite p range d files Hp Hv). Qed.

(** A range that lies in the file. *)
Definition inside range : Prop := start range < end_ range ∧ end_ range ≤ n.

Lemma always_copy_range range : inside range → always (copy_range src dst now progress arena p range).
Proof.
  intros [Hr1 Hr2] s. unfold copy_range. unfold sbind at 1.
  pose proof (call_ok_pure Src (read src arena p range src_options) s (read_src_pure range)) as H.
  destruct (call_ok _ _ s) as [[d|e] s1]; destruct H as (H1 & H2 & H3 & H4).
  2:{ by apply keeps_same. }
  eapply keeps_trans; [apply (keeps_same s s1); done|]. rewrite read_src in H4. cbn [fst] in H4.
  destruct (final_data src_root p (files_of Src s)) as [d0|]; [|done].
  destruct (read_padded_run d0 range ltac:(lia)) as (out & E & Hl & _). rewrite E in H4. injection H4 as <-.
  unfold sbind at 1. set (P := λ files, partial_only dst_root p (dst_files s1) files ∧ (bounded (dst_files s1) → bounded files)).
  pose proof (call_ok_run Dst (send now dst arena p range out dst_options) P s1) as H.
  destruct (call_ok Dst _ s1) as [r2 s2]. destruct H as (G1 & [G2 G3] & G4 & _).
  - intros files [F1 F2]. destruct (send_dst range out files) as (files' & -> & A1 & A2). simpl.
    split; [by eapply partial_only_trans|]. intros Hb. eapply bounded_write; [by apply F2|done| |done].
    rewrite Hl. unfold ByteRange.bytecount, u64_saturating_sub. lia.
  - split; [apply partial_only_refl|done].
  - assert (keeps s1 s2) as Hk by (split; [by apply (so_src _ _ _ G1)|done|done|done]).
    destruct r2 as [[]|]; [|done]. eapply keeps_trans; [exact Hk|apply always_increment].
Qed.

(** The chunks of a set within the file. *)
Lemma chunks_inside r size : wf r → (∀ x, mem r x = true → x < n) → 0 < size → size ≤ HASH_FILE_CHUNK →
  ∃ l, ByteRanges.chunked r size = Some l ∧ (∀ c, c ∈ l → inside c) ∧ ∀ x, existsb (λ c, ByteRange.contains c x) l = mem r x.
Proof.
  intros Hw Hr Hs Hs'. destruct (chunked_spec r size Hw Hs) as (l & H1 & H2 & H3).
  { intros x Hx%Hr. lia. }
  exists l. split; [done|]. split; [|done]. intros c Hc. destruct (H2 c Hc) as [Hlt _]. split; [done|].
  assert (mem r (end_ c - 1) = true) as Hm%Hr; [|lia].
  rewrite <- H3. apply existsb_exists. exists c. split; [by apply list_elem_of_In|]. apply contains_spec. lia.
Qed.

Lemma chunk_sizes : 0 < CHUNK_SIZE ∧ CHUNK_SIZE ≤ HASH_FILE_CHUNK ∧ 0 < HASH_FILE_CHUNK.
Proof. by vm_compute. Qed.

Lemma always_copy r : wf r → (∀ x, mem r x = true → x < n) → always (copy_file_range src dst now progress arena p r).
Proof.
  intros Hw Hr. unfold copy_file_range. destruct (ByteRanges.is_empty r); [apply always_ret|].
  apply always_bind; [apply always_report|]. intros _. apply always_bind; [apply always_report|]. intros _.
  destruct (chunks_inside r CHUNK_SIZE Hw Hr) as (l & -> & Hl & _); [apply chunk_sizes..|].
  apply always_for. intros c Hc. by apply always_copy_range, Hl.
Qed.

Lemma always_truncate : always (call_ok Dst (truncate now dst arena p n dst_options)).
Proof.
  intros s. set (P := λ files, partial_only dst_root p (dst_files s) files ∧ (bounded (dst_files s) → bounded files)).
  pose proof (call_ok_run Dst (truncate now dst arena p n dst_options) P s) as H.
  destruct (call_ok Dst _ s) as [r s']. destruct H as (G1 & [G2 G3] & G4 & _).
  - intros files [F1 F2].
    destruct (truncate_run dst_root Hdst_root dst arena Hdst now ReadWrite p n files Hp Hv) as (files' & E & A1 & A2).
    change (options_of ReadWrite) with dst_options in E. rewrite E. simpl. split; [by eapply partial_only_trans|].
    intros _. split; [|by rewrite A2]. intros d. rewrite A2. intros [= <-]. rewrite length_take. lia.
  - split; [apply partial_only_refl|done].
  - split; [by apply (so_src _ _ _ G1)|done|done|done].
Qed.

(** ** Hashing *)

Definition data_of side files : option (list byte) :=
  match side with Src => final_data src_root p files | Dst => actual_data dst_root ReadWrite p files end.
Definition options_of_side side : Options := match side with Src => src_options | Dst => dst_options end.

Lemma hash_op side range files :
  hash_file_range digest (store_of src dst side) arena p range (options_of_side side) files =
  (match data_of side files with Some d => Ok (range_hash digest range d) | None => Err not_found end, files).
Proof. destruct side; [apply hash_src|apply hash_dst]. Qed.

(** What a hash that came back says. *)
Definition right_hash (o : option (list byte)) range (res : HashResult) : Prop :=
  match res with Ok (r, Ok h) => r = range ∧ ∃ d, o = Some d ∧ h = range_hash digest range d | _ => True end.

Lemma hash_calls_run side rs s :
  let '(r, s') := hash_calls src dst digest side arena p (options_of_side side) rs s in
  src_files s' = src_files s ∧ dst_files s' = dst_files s ∧ (replies s = [] → replies s' = []) ∧
  ∃ results, r = Ok results ∧ Forall2 (right_hash (data_of side (files_of side s))) rs results ∧
    (replies s = [] → is_Some (data_of side (files_of side s)) → Forall (λ res, ∃ x, res = Ok (x.1, Ok x.2)) results).
Proof.
  revert s. induction rs as [|range rs IH]; intros s; cbn [hash_calls].
  { unfold sret. split_and!; try done. exists []. split; [done|]. by split. }
  unfold sbind at 1, try.
  set (op := hash_file_range digest (store_of src dst side) arena p range (options_of_side side)).
  assert (∀ files, (op files).2 = files) as Hpure by (intros files; unfold op; by rewrite hash_op).
  pose proof (call_pure side op s Hpure) as H.
  assert (replies s = [] → ∃ s', call side op s =
    (match (op (files_of side s)).1 with
     | Ok a => Ok (Ok a) | Err (Failed e) => Ok (Err e) | Err Panicked => Err (Rpc DeadlineExceeded) end, s')) as Hnow.
  { intros Hr. destruct (call_now side op s Hr) as (s' & E & _). by exists s'. }
  destruct (call side op s) as [res s1]. destruct H as (H1 & H2 & H3 & H4).
  assert (files_of side s1 = files_of side s) as Ef by (destruct side; done).
  unfold sbind at 1. specialize (IH s1). destruct (hash_calls _ _ _ _ _ _ _ rs s1) as [r s2].
  destruct IH as (G1 & G2 & G3 & results & -> & G4 & G5). unfold sret. rewrite Ef in *.
  split; [congruence|]. split; [congruence|]. split; [auto|].
  eexists. split; [done|]. split.
  - constructor; [|done]. destruct res as [[h|e]|e]; simpl; [|done|done]. split; [done|].
    unfold op in H4. rewrite hash_op in H4. destruct (data_of side (files_of side s)) as [d|]; [|done].
    exists d. split; [done|]. by injection H4.
  - intros Hr [d Hd]. constructor; [|apply G5; [auto|by eexists]].
    destruct (Hnow Hr) as (s' & E). injection E as -> _. unfold op. rewrite hash_op, Hd. simpl. by eexists (_, _).
Qed.

Definition unwrap (res : HashResult) : ByteRange * Hash :=
  match res with Ok (r, Ok h) => (r, h) | _ => (ByteRange.empty, Hash.zero) end.

Lemma collect_hashes_run l acc :
  match collect_hashes l acc with
  | Ok h => Forall (λ res, ∃ x, res = Ok (x.1, Ok x.2)) l ∧
      h = foldl (λ r (e : ByteRange * Hash), RangedHash.add e.1 e.2 r) acc (unwrap <$> l)
  | Err e => Exists (λ res, ¬ ∃ x, res = Ok (x.1, Ok x.2)) l
  end.
Proof.
  revert acc. induction l as [|[[range [h|e]]|e] l IH]; intros acc; simpl; [by split| | |].
  - specialize (IH (RangedHash.add range h acc)). destruct (collect_hashes l _).
    + destruct IH as [H1 H2]. split; [|done]. constructor; [|done]. by exists (range, h).
    + by apply Exists_cons_tl.
  - apply Exists_cons_hd. by intros [[? ?] [=]].
  - apply Exists_cons_hd. by intros [[? ?] [=]].
Qed.

(** The hashes of the chunks of a file of that size. *)
Definition hashes_of (rs : list ByteRange) (d : list byte) (h : RangedHash) : Prop :=
  ∃ l, h = add_all l ∧ l ≡ₚ (λ r, (r, range_hash digest r d)) <$> rs.

Lemma hash_chunks : ∃ rs, chunked (ByteRange.new 0 n) HASH_FILE_CHUNK = Some rs ∧ tiles 0 n rs.
Proof.
  destruct (chunked_run (ByteRange.new 0 n) HASH_FILE_CHUNK) as (rs & H1 & H2 & _); [apply chunk_sizes|done|].
  by exists rs.
Qed.

Lemma hash_file_run side s rs :
  chunked (ByteRange.new 0 n) HASH_FILE_CHUNK = Some rs →
  let '(r, s') := hash_file src dst digest completed side arena p n HASH_FILE_CHUNK (options_of_side side) s in
  src_files s' = src_files s ∧ dst_files s' = dst_files s ∧ (replies s = [] → replies s' = []) ∧
  match r with
  | Ok h => hashes_of rs (default [] (data_of side (files_of side s))) h ∧ (rs ≠ [] → is_Some (data_of side (files_of side s)))
  | Err _ => ¬ (replies s = [] ∧ is_Some (data_of side (files_of side s)))
  end.
Proof.
  intros Hrs. unfold hash_file, sbind. rewrite Hrs. simpl default. pose proof (hash_calls_run side rs s) as H.
  destruct (hash_calls _ _ _ _ _ _ _ rs s) as [r s']. destruct H as (H1 & H2 & H3 & results & -> & H4 & H5).
  unfold slift. split; [done|]. split; [done|]. split; [done|].
  pose proof (collect_hashes_run (completed results) RangedHash.new) as Hc. pose proof (Hcompleted results) as Hperm.
  destruct (collect_hashes (completed results) RangedHash.new) as [h|e].
  - destruct Hc as [Hgood ->]. rewrite Hperm in Hgood.
    assert (unwrap <$> results = (λ r, (r, range_hash digest r (default [] (data_of side (files_of side s))))) <$> rs ∧
      (rs ≠ [] → is_Some (data_of side (files_of side s)))) as [E1 E2].
    { clear -H4 Hgood. induction H4 as [|r res rs results Hr H4 IH]; [done|].
      apply Forall_cons in Hgood as [[[r' h] ->] Hgood]. destruct (IH Hgood) as [IH1 _]. simpl in Hr.
      destruct Hr as [-> (d & Hd & ->)]. split; [|intros _; by eexists]. rewrite !fmap_cons, IH1. by rewrite Hd. }
    split; [|done]. eexists. split; [done|]. by rewrite <- E1, Hperm.
  - intros [Hr Hd]. specialize (H5 Hr Hd). rewrite <- Hperm in H5. apply Exists_exists in Hc as (x & Hx & Hnot).
    rewrite Forall_forall in H5. by apply Hnot, H5.
Qed.

Lemma always_hash side : always (hash_file src dst digest completed side arena p n HASH_FILE_CHUNK (options_of_side side)).
Proof.
  intros s. destruct hash_chunks as (rs & Hrs & _). pose proof (hash_file_run side s rs Hrs) as H.
  destruct (hash_file _ _ _ _ _ _ _ _ _ _ s) as [r s']. destruct H as (H1 & H2 & H3 & _). by apply keeps_same.
Qed.

(** ** Rsync *)

Lemma always_apply range delta hash : inside range →
  always (call Dst (apply_delta now digest Delta apply_limited dst arena p range delta hash dst_options)).
Proof.
  intros [Hr1 Hr2] s. set (op := apply_delta _ _ _ _ _ _ _ _ _ _ _).
  set (P := λ files, partial_only dst_root p (dst_files s) files ∧ (bounded (dst_files s) → bounded files)).
  pose proof (call_run Dst op P s) as H. destruct (call Dst op s) as [r s']. destruct H as (G1 & [G2 G3] & G4 & _).
  - intros files [F1 F2].
    destruct (apply_delta_run dst_root Hdst_root dst arena Hdst now digest Delta apply_limited ReadWrite p range delta hash files Hp Hv)
      as (files' & A1 & A2). change (options_of ReadWrite) with dst_options in A2. fold op in A2.
    set (old := default [] (partial_data dst_root p files)) in *.
    assert (∀ d, partial_data dst_root p files' = Some (write_at (start range) d old) → N.of_nat (length d) ≤ end_ range - start range →
      bounded (dst_files s) → bounded files') as Hw.
    { intros d Hd Hl Hb. eapply bounded_write; [by apply F2|done| |exact Hd]. lia. }
    assert (partial_data dst_root p files' = Some old → bounded (dst_files s) → bounded files') as Hw0.
    { intros Hd. apply (Hw []); [done|simpl; lia]. }
    split; [|].
    + assert ((op files).2 = files') as ->; [|by eapply partial_only_trans].
      destruct (read_padded old range); [|by destruct A2 as [-> _]].
      destruct (apply_limited _ _ _) as [out|]; [|by destruct A2 as [-> _]].
      destruct (_ && _); [by destruct A2 as [-> _]|by destruct A2 as ((e & -> & _) & _)].
    + intros Hb. destruct (read_padded old range); [|destruct A2 as [-> A2]; by apply Hw0].
      destruct (apply_limited _ _ _) as [out|]; [|destruct A2 as [-> A2]; by apply Hw0].
      destruct (N.eqb_spec (N.of_nat (length out)) (ByteRange.bytecount range)) as [Hl|Hl]; cbn [andb] in A2.
      * destruct (bool_decide (digest out = hash)).
        -- destruct A2 as [-> A2]. apply (Hw out); [done| |done]. rewrite Hl. unfold ByteRange.bytecount, u64_saturating_sub. lia.
        -- destruct A2 as ((e & -> & _) & A2). by apply Hw0.
      * destruct A2 as ((e & -> & _) & A2). by apply Hw0.
  - split; [apply partial_only_refl|done].
  - split; [by apply (so_src _ _ _ G1)|done|done|done].
Qed.

Lemma always_rsync_range range acc : inside range →
  always (rsync_range src dst now digest Signature Delta calculate deserialize_diff apply_limited progress arena p range acc).
Proof.
  intros Hr. unfold rsync_range. apply always_bind.
  { apply always_ok, always_call_pure. intros files. by rewrite signature_dst. }
  intros sig. apply always_bind.
  { apply always_ok, always_call_pure. intros files. by rewrite diff_src. }
  intros [delta hash]. apply always_bind; [by apply always_apply|]. intros [a|e].
  - apply always_bind; [apply always_increment|]. intros _. apply always_ret.
  - destruct e; (apply always_ret || apply always_throw).
Qed.

(** The ranges to copy instead are some of those that were tried. *)
Definition within_size (r : ByteRanges) : Prop := wf r ∧ ∀ x, mem r x = true → x < n.

Lemma within_size_new : within_size ByteRanges.new.
Proof. split; [apply wf_new|]. intros x. vm_compute. done. Qed.

Lemma rsync_range_post range acc s acc' s' : inside range → within_size acc →
  rsync_range src dst now digest Signature Delta calculate deserialize_diff apply_limited progress arena p range acc s = (Ok acc', s') →
  within_size acc'.
Proof.
  intros [Hr1 Hr2] [Ha1 Ha2]. unfold rsync_range, sbind.
  destruct (call_ok Dst _ s) as [[sig|] s1]; [|done]. destruct (call_ok Src _ s1) as [[[delta hash]|] s2]; [|done].
  destruct (call Dst _ s2) as [[[a|e]|] s3]; [| |done].
  - destruct (report_increment_bytecount _ _ _ _ s3) as [[]s4]; unfold sret; [|done]. by intros [= <- _].
  - destruct e; unfold sret, sthrow; try done. intros [= <- _]. destruct (add_spec acc range Ha1) as [H1 H2].
    split; [done|]. intros x. rewrite H2. intros [H|H]%orb_prop; [by apply Ha2|]. apply contains_spec in H. lia.
Qed.

Lemma rsync_loop_post ranges acc : (∀ c, c ∈ ranges → inside c) → within_size acc →
  always (rsync_loop src dst now digest Signature Delta calculate deserialize_diff apply_limited progress arena p ranges acc) ∧
  ∀ s acc' s', rsync_loop src dst now digest Signature Delta calculate deserialize_diff apply_limited progress arena p ranges acc s = (Ok acc', s') →
    within_size acc'.
Proof.
  revert acc. induction ranges as [|range ranges IH]; intros acc Hin Hacc; cbn [rsync_loop].
  { split; [apply always_ret|]. unfold sret. by intros s acc' s' [= <- _]. }
  assert (inside range) as Hr by (apply Hin; by left).
  assert (∀ c, c ∈ ranges → inside c) as Hin' by (intros c Hc; apply Hin; by right). split.
  - intros s. pose proof (always_rsync_range range acc Hr s) as H. unfold sbind.
    destruct (rsync_range _ _ _ _ _ _ _ _ _ _ _ _ range acc s) as [[acc1|e] s1] eqn:E; [|done].
    eapply keeps_trans; [exact H|]. apply IH; [done|by eapply rsync_range_post].
  - intros s acc' s'. unfold sbind. destruct (rsync_range _ _ _ _ _ _ _ _ _ _ _ _ range acc s) as [[acc1|e] s1] eqn:E; [|done].
    apply IH; [done|by eapply rsync_range_post].
Qed.

Lemma rsync_post r : within_size r →
  always (rsync_file_range src dst now digest Signature Delta calculate deserialize_diff apply_limited progress arena p r ByteRanges.new) ∧
  ∀ s acc' s', rsync_file_range src dst now digest Signature Delta calculate deserialize_diff apply_limited progress arena p r ByteRanges.new s = (Ok acc', s') →
    within_size acc'.
Proof.
  intros [Hw Hr]. unfold rsync_file_range. destruct (ByteRanges.is_empty r).
  { split; [apply always_ret|]. unfold sret. intros s acc' s' [= <- _]. apply within_size_new. }
  destruct (chunks_inside r CHUNK_SIZE Hw Hr) as (l & -> & Hl & _); [apply chunk_sizes..|]. simpl default.
  destruct (rsync_loop_post l ByteRanges.new Hl within_size_new) as [L1 L2]. split.
  - apply always_bind; [apply always_report|]. by intros _.
  - intros s acc' s'. unfold sbind. destruct (report_rsyncing _ _ _ s) as [[]s1]; [|done]. apply L2.
Qed.

(** ** Checking *)

Lemma from_ranges_empty l :
  (∀ r, r ∈ l → start r < end_ r) → ByteRanges.is_empty (ByteRanges.from_ranges l) = true ↔ l = [].
Proof.
  intros Hl. split; [|by intros ->]. intros H. destruct l as [|r l]; [done|]. exfalso.
  destruct (fold_add_spec (r :: l) _ wf_new) as [_ Hm]. pose proof (wf_empty_mem _ (start r) H) as Hs.
  unfold ByteRanges.from_ranges in Hs. rewrite Hm in Hs. apply orb_false_iff in Hs as [_ Hs]. simpl in Hs.
  apply orb_false_iff in Hs as [Hs _]. apply not_true_iff_false in Hs. destruct Hs. apply contains_spec.
  specialize (Hl r ltac:(by left)). lia.
Qed.

(** The file is finished: its content is at its place, and the partial file is gone. *)
Record finished (g : list byte) files0 files : Prop := {
  fd_final : final_data dst_root p files = Some g;
  fd_partial : partial_data dst_root p files = None;
  fd_others : ∀ k, k ≠ partial_of dst_root p → k ≠ final_of dst_root p → files !! k = files0 !! k;
}.

Definition deleted files : Fs := delete (partial_of src_root p) (delete (final_of src_root p) files).

Lemma deleted_idemp files : deleted (deleted files) = deleted files.
Proof.
  unfold deleted. rewrite (delete_delete _ (final_of src_root p) (partial_of src_root p)).
  rewrite delete_delete_eq. by rewrite delete_delete_eq.
Qed.

Lemma finish_step g files0 files :
  actual_data dst_root ReadWrite p files0 = Some g → files = files0 ∨ finished g files0 files →
  ∃ files', finish dst arena p dst_options files = (Ok tt, files') ∧ finished g files0 files'.
Proof.
  intros Ha H. destruct (finish_run dst_root Hdst_root dst arena Hdst p files Hp Hv) as (files' & r & E & Ho & Hr).
  change (options_of ReadWrite) with dst_options in E. rewrite E. exists files'.
  destruct H as [->|[F1 F2 F3]].
  - unfold actual_data in Ha. rewrite bool_decide_eq_true_2 in Ha by done.
    destruct (partial_data dst_root p files0) as [d|] eqn:Ed.
    + destruct Hr as (-> & H1 & H2). injection Ha as ->. by split.
    + rewrite Ha in Hr. destruct Hr as [-> ->]. split; [done|]. by split.
  - rewrite F1, F2 in Hr. destruct Hr as [-> ->]. split; [done|]. by split.
Qed.

Lemma finish_call g s :
  actual_data dst_root ReadWrite p (dst_files s) = Some g →
  let '(r, s') := call_ok Dst (finish dst arena p dst_options) s in
  src_files s' = src_files s ∧ (replies s = [] → replies s' = [] ∧ r = Ok tt) ∧
  (dst_files s' = dst_files s ∨ finished g (dst_files s) (dst_files s')) ∧
  (r = Ok tt → finished g (dst_files s) (dst_files s')).
Proof.
  intros Ha. set (op := finish dst arena p dst_options). set (P := λ files, files = dst_files s ∨ finished g (dst_files s) files).
  pose proof (call_ok_run Dst op P s) as H.
  assert (replies s = [] → (call_ok Dst op s).1 = Ok tt) as Hnow.
  { intros Hr. destruct (finish_step g (dst_files s) (dst_files s) Ha (or_introl eq_refl)) as (f' & E & _).
    destruct (call_ok_now Dst op s tt Hr) as (s' & -> & _); [by unfold op; simpl files_of; rewrite E|done]. }
  destruct (call_ok Dst op s) as [r s']. simpl in Hnow. destruct H as (G1 & G2 & G3 & G4).
  - intros files HP. destruct (finish_step g (dst_files s) files Ha HP) as (f' & E & F). unfold op. rewrite E. by right.
  - by left.
  - split; [by apply (so_src _ _ _ G1)|]. split; [auto|]. split; [done|]. intros ->.
    destruct G4 as (files & HP & E). destruct (finish_step g (dst_files s) files Ha HP) as (f' & E' & F).
    unfold op in E. rewrite E' in E. by injection E as ->.
Qed.

Lemma delete_call s :
  let '(r, s') := call_ok Src (delete_file src arena p src_options) s in
  dst_files s' = dst_files s ∧ (replies s = [] → replies s' = [] ∧ r = Ok tt) ∧
  (src_files s' = src_files s ∨ src_files s' = deleted (src_files s)) ∧ (r = Ok tt → src_files s' = deleted (src_files s)).
Proof.
  set (op := delete_file src arena p src_options).
  assert (∀ files, op files = (Ok tt, deleted files)) as Hop.
  { intros files. exact (delete_run src_root Hsrc_root src arena Hsrc Read p files Hp Hv). }
  set (P := λ files, files = src_files s ∨ files = deleted (src_files s)).
  pose proof (call_ok_run Src op P s) as H.
  assert (replies s = [] → (call_ok Src op s).1 = Ok tt) as Hnow.
  { intros Hr. destruct (call_ok_now Src op s tt Hr) as (s' & -> & _); [by rewrite Hop|done]. }
  destruct (call_ok Src op s) as [r s']. simpl in Hnow. destruct H as (G1 & G2 & G3 & G4).
  - intros files HP. rewrite Hop. right. simpl. destruct HP as [->| ->]; [done|apply deleted_idemp].
  - by left.
  - split; [by apply (so_dst _ _ _ G1)|]. split; [auto|]. split; [done|]. intros ->.
    destruct G4 as (files & HP & E). rewrite Hop in E. injection E as <-. destruct HP as [->| ->]; [done|apply deleted_idemp].
Qed.

(** The chunks that have the same hash in both files. *)
Definition matching (f g : list byte) (rs : list ByteRange) : list ByteRange :=
  filter (λ r, range_hash digest r f = range_hash digest r g) rs.

(** What a check comes to. *)
Inductive check_outcome (f : list byte) (rs : list ByteRange) s s' : result MoveFileError HashCheck → Prop :=
| check_failed e :
    src_files s' = src_files s → dst_files s' = dst_files s →
    ¬ (replies s = [] ∧ is_Some (actual_data dst_root ReadWrite p (dst_files s))) →
    check_outcome f rs s s' (Err e)
| check_mismatch m :
    wf m →
    src_files s' = src_files s → dst_files s' = dst_files s → (replies s = [] → replies s' = []) →
    (0 < n → ∃ g, actual_data dst_root ReadWrite p (dst_files s) = Some g ∧ m = ByteRanges.from_ranges (matching f g rs) ∧
       matching f g rs ≠ rs) →
    check_outcome f rs s s' (Ok (Mismatch m))
| check_interrupted g e :
    0 < n → actual_data dst_root ReadWrite p (dst_files s) = Some g → matching f g rs = rs → replies s ≠ [] →
    (src_files s' = src_files s ∧ (dst_files s' = dst_files s ∨ finished g (dst_files s) (dst_files s')) ∨
     (src_files s' = src_files s ∨ src_files s' = deleted (src_files s)) ∧ finished g (dst_files s) (dst_files s')) →
    check_outcome f rs s s' (Err e)
| check_matched g :
    0 < n → actual_data dst_root ReadWrite p (dst_files s) = Some g → matching f g rs = rs →
    src_files s' = deleted (src_files s) → finished g (dst_files s) (dst_files s') → (replies s = [] → replies s' = []) →
    check_outcome f rs s s' (Ok Match).

Lemma filter_all_not {A} (P : A → Prop) `{∀ x, Decision (P x)} (l : list A) :
  filter (λ x, ¬ P x) l = [] ↔ filter P l = l.
Proof.
  induction l as [|x l IH]; [done|]. rewrite !filter_cons. destruct (decide (P x)) as [Hx|Hx].
  - rewrite decide_False by tauto. rewrite IH. split; [by intros ->|by intros [= ->]].
  - rewrite decide_True by done. split; [done|]. intros E.
    assert (x ∈ filter P l) as [? _]%list_elem_of_filter by (rewrite E; by left). done.
Qed.

Lemma check_run f rs h s :
  chunked (ByteRange.new 0 n) HASH_FILE_CHUNK = Some rs → tiles 0 n rs → hashes_of rs f h →
  let '(r, s') := check_hashes_and_delete src dst digest completed h n arena p s in check_outcome f rs s s' r.
Proof.
  intros Hrs Ht (l & -> & Hl). unfold check_hashes_and_delete. unfold sbind at 1.
  pose proof (hash_file_run Dst s rs Hrs) as H. change dst_options with (options_of_side Dst) at 1.
  destruct (hash_file _ _ _ _ _ _ _ _ _ _ s) as [[h'|e] s1]; destruct H as (H1 & H2 & H3 & H4); [|by apply check_failed].
  destruct H4 as ((l' & -> & Hl') & Hg). simpl in Hg, Hl'. set (g := default [] (actual_data dst_root ReadWrite p (dst_files s))) in *.
  destruct (N.eq_0_gt_0_cases n) as [H0|Hpos].
  { assert (rs = []) as ->.
    { destruct rs as [|r rs]; [done|]. simpl in Ht. lia. }
    simpl in Hl, Hl'. apply Permutation_nil_r in Hl as ->, Hl' as ->. simpl. unfold sret.
    apply check_mismatch; [apply wf_new|done..|]. lia. }
  assert (actual_data dst_root ReadWrite p (dst_files s) = Some g) as Eg.
  { destruct Hg as [d Hd]; [|unfold g; by rewrite Hd]. intros ->. simpl in Ht. lia. }
  destruct (complete_hashes n rs _ _ _ _ Hpos Ht Hl Hl') as [C1 C2]. rewrite C2, C1.
  destruct (complete_hashes n rs _ _ _ _ Hpos Ht Hl' Hl) as [C3 _]. rewrite C3. cbn [negb orb]. rewrite !orb_false_r.
  fold (matching f g rs). set (mis := filter _ rs).
  assert (ByteRanges.is_empty (ByteRanges.from_ranges mis) = true ↔ matching f g rs = rs) as Hmis.
  { rewrite from_ranges_empty; [apply filter_all_not|]. intros r [_ Hr]%list_elem_of_filter.
    destruct (tiles_NoDup _ _ _ Ht) as [_ Hb]. by apply Hb. }
  destruct (ByteRanges.is_empty (ByteRanges.from_ranges mis)); cbn [negb].
  2:{ unfold sret. apply check_mismatch; [apply (fold_add_spec _ _ wf_new)|done..|]. intros _. exists g. split; [done|]. split; [done|]. intros E. by apply Hmis in E. }
  assert (matching f g rs = rs) as Em by by apply Hmis.
  unfold sbind at 1. rewrite <- H2 in Eg. pose proof (finish_call g s1 Eg) as H.
  destruct (call_ok Dst _ s1) as [[[]|e] s2]; destruct H as (F1 & F2 & F3 & F4); rewrite ?H1, ?H2 in *.
  2:{ apply (check_interrupted _ _ _ _ g); [done..| |left; by rewrite F1].
      intros Hr. by destruct (F2 (H3 Hr)). }
  unfold sbind at 1. specialize (F4 eq_refl). pose proof (delete_call s2) as H.
  destruct (call_ok Src _ s2) as [[[]|e] s3]; destruct H as (D1 & D2 & D3 & D4); rewrite F1 in *.
  - unfold sret. apply (check_matched _ _ _ _ g); [done..|by apply D4|by rewrite D1|].
    intros Hr. apply D2. by apply (F2 (H3 Hr)).
  - apply (check_interrupted _ _ _ _ g); [done..| |right; by rewrite D1].
    intros Hr. destruct (F2 (H3 Hr)) as [Hr2 _]. by destruct (D2 Hr2).
Qed.

(** ** The whole of it *)

Definition move_this (src_file : SyncedFile) (dst_file : option SyncedFile) : MoveM () :=
  move_file src dst now digest Signature Delta calculate deserialize_diff apply_limited completed progress src_file dst_file arena.

(** What is known of the listings: the sizes of the file, and of what stands for it at
    the destination. *)
Record listed (src_file : SyncedFile) (dst_file : option SyncedFile) s : Prop := {
  li_path : sf_path src_file = p;
  li_size : sf_size src_file = n;
  li_dst : default 0 (sf_size <$> dst_file) =
    default 0 ((λ d, N.of_nat (length d)) <$> actual_data dst_root ReadWrite p (dst_files s));
}.

(** How moving the file may end: nothing but the partial file has changed, or the file
    is at its place, and then the source may be gone. *)
Definition moved (f g : list byte) (rs : list ByteRange) s s' : Prop :=
  0 < n ∧ finished g (dst_files s) (dst_files s') ∧ N.of_nat (length g) = n ∧ matching f g rs = rs ∧
  (src_files s' = src_files s ∨ src_files s' = deleted (src_files s)).
Definition safe (f : list byte) (rs : list ByteRange) s s' : Prop :=
  (src_files s' = src_files s ∧ partial_only dst_root p (dst_files s) (dst_files s')) ∨ ∃ g, moved f g rs s s'.

Definition first_copy (dst_size : N) : MoveM () :=
  do* copy_file_range src dst now progress arena p (ByteRanges.subtraction (ByteRanges.single 0 n) (ByteRanges.single 0 dst_size)) in
  if n <? dst_size then call_ok Dst (truncate now dst arena p n dst_options) else sret ().

Lemma single_within k : within_size (ByteRanges.subtraction (ByteRanges.single 0 n) (ByteRanges.single 0 k)) ∧
  ∀ x, mem (ByteRanges.subtraction (ByteRanges.single 0 n) (ByteRanges.single 0 k)) x = (k <=? x) && (x <? n).
Proof.
  destruct (single_spec 0 n) as [S1 S2], (single_spec 0 k) as [T1 T2].
  destruct (subtraction_spec _ _ S1 T1) as [W M].
  assert (∀ x, mem (ByteRanges.subtraction (ByteRanges.single 0 n) (ByteRanges.single 0 k)) x = (k <=? x) && (x <? n)) as H.
  { intros x. rewrite M, S2, T2. unfold ByteRange.contains. simpl.
    rewrite (proj2 (N.leb_le 0 x)) by lia. destruct (N.ltb_spec x n), (N.ltb_spec x k), (N.leb_spec k x); simpl; done || lia. }
  split; [|done]. split; [done|]. intros x. rewrite H. intros [_ Hx]%andb_prop. by apply N.ltb_lt.
Qed.

Lemma always_first_copy k : always (first_copy k).
Proof.
  unfold first_copy. apply always_bind; [by apply always_copy; apply single_within|]. intros _.
  destruct (n <? k); [apply always_truncate|apply always_ret].
Qed.

Lemma first_copy_bounded k s s' :
  k = default 0 ((λ d, N.of_nat (length d)) <$> actual_data dst_root ReadWrite p (dst_files s)) →
  first_copy k s = (Ok tt, s') → bounded (dst_files s').
Proof.
  intros Hk. pose proof (always_first_copy k s) as Hkeep. unfold first_copy, sbind in *.
  destruct (N.ltb_spec n k) as [Hlt|Hge].
  - destruct (copy_file_range _ _ _ _ _ _ _ s) as [[[]|e] s1]; [|done]. clear Hkeep. intros E.
    pose proof (call_ok_run Dst (truncate now dst arena p n dst_options) (λ _, True) s1) as H. rewrite E in H.
    destruct H as (_ & _ & _ & files & _ & Ef); [done|done|].
    destruct (truncate_run dst_root Hdst_root dst arena Hdst now ReadWrite p n files Hp Hv) as (files' & E' & _ & A2).
    change (options_of ReadWrite) with dst_options in E'. rewrite E' in Ef. injection Ef as <-.
    split; [|by rewrite A2]. intros d. rewrite A2. intros [= <-]. rewrite length_take. lia.
  - intros E. rewrite E in Hkeep. apply (kp_bounded _ _ Hkeep). unfold actual_data in Hk.
    rewrite bool_decide_eq_true_2 in Hk by done. split.
    + intros d Hd. rewrite Hd in Hk. simpl in Hk. lia.
    + intros Hn' d Hd. rewrite Hn', Hd in Hk. simpl in Hk. lia.
Qed.

Context (Hzero : ∀ d, digest d ≠ Hash.zero).

Lemma matching_length f g rs :
  0 < n → tiles 0 n rs → n ≤ N.of_nat (length f) → matching f g rs = rs → n ≤ N.of_nat (length g).
Proof.
  intros Hpos Ht Hf Hm. assert (∃ r, r ∈ rs ∧ end_ r = n) as (r & Hr & He).
  { pose proof (tiles_contains 0 n rs (n - 1) Ht) as Hx.
    assert (ByteRange.contains (ByteRange.new 0 n) (n - 1) = true) as Hc by (apply contains_spec; simpl; lia).
    rewrite Hc in Hx. apply existsb_exists in Hx as (r & Hr%list_elem_of_In & Hrc%contains_spec).
    exists r. split; [done|]. destruct (tiles_NoDup _ _ _ Ht) as [_ Hb]. specialize (Hb r Hr). lia. }
  rewrite <- Hm in Hr. apply list_elem_of_filter in Hr as [Hr _]. unfold range_hash in Hr. rewrite He in Hr.
  destruct (N.ltb_spec (N.of_nat (length f)) n); [lia|].
  destruct (N.ltb_spec (N.of_nat (length g)) n); [|done]. by apply Hzero in Hr.
Qed.

Lemma check_safe f rs h s s1 :
  chunked (ByteRange.new 0 n) HASH_FILE_CHUNK = Some rs → tiles 0 n rs → n ≤ N.of_nat (length f) → hashes_of rs f h →
  keeps s s1 → bounded (dst_files s1) →
  let '(r, s') := check_hashes_and_delete src dst digest completed h n arena p s1 in
  match r with
  | Ok (Mismatch m) => wf m ∧ src_files s' = src_files s1 ∧ dst_files s' = dst_files s1 ∧ keeps s s'
  | Ok Match => ∃ g, moved f g rs s s' ∧ src_files s' = deleted (src_files s)
  | Err _ => safe f rs s s'
  end.
Proof.
  intros Hrs Ht Hf Hh Hk Hb. pose proof (check_run f rs h s1 Hrs Ht Hh) as H.
  destruct (check_hashes_and_delete _ _ _ _ _ _ _ _ s1) as [r s']. pose proof Hk as [K1 K2 K3 K4].
  assert (∀ g, 0 < n → actual_data dst_root ReadWrite p (dst_files s1) = Some g → matching f g rs = rs → N.of_nat (length g) = n) as Hlen.
  { intros g Hpos Hg Hm. pose proof (matching_length f g rs Hpos Ht Hf Hm). destruct Hb as [B1 B2].
    unfold actual_data in Hg. rewrite bool_decide_eq_true_2 in Hg by done.
    destruct (partial_data dst_root p (dst_files s1)) as [d|].
    - injection Hg as ->. specialize (B1 g eq_refl). lia.
    - specialize (B2 eq_refl g Hg). lia. }
  assert (∀ g files, finished g (dst_files s1) files → finished g (dst_files s) files) as Hfin.
  { intros g files [F1 F2 F3]. split; [done|done|]. intros k H1 H2. rewrite F3 by done. by apply K2. }
  destruct H as [e H1 H2 _|m Hwm H1 H2 H3 _|g e Hpos Hg Hm _ [[H1 [H2|H2]]|[H1 H2]]|g Hpos Hg Hm H1 H2 H3].
  - left. rewrite H1, H2. by split.
  - do 3 (split; [done|]). eapply keeps_trans; [exact Hk|]. by apply keeps_same.
  - left. rewrite H1, H2. by split.
  - right. exists g. split; [done|]. split; [by apply Hfin|]. split; [by apply Hlen|]. split; [done|]. left. congruence.
  - right. exists g. split; [done|]. split; [by apply Hfin|]. split; [by apply Hlen|]. split; [done|]. by rewrite <- K1.
  - exists g. rewrite H1, K1. split; [|done]. split; [done|]. split; [by apply Hfin|]. split; [by apply Hlen|]. split; [done|]. right. by rewrite H1, K1.
Qed.

(** What follows a first check that fails. *)
Definition second_pass (h : RangedHash) (correct : ByteRanges) : MoveM () :=
  let rsync_ranges := ByteRanges.subtraction (ByteRanges.single 0 n) correct in
  do* report_decrement_bytecount progress arena p (ByteRanges.bytecount rsync_ranges) in
  let* fallback_ranges := rsync_file_range src dst now digest Signature Delta calculate deserialize_diff apply_limited progress arena p rsync_ranges ByteRanges.new in
  do* copy_file_range src dst now progress arena p fallback_ranges in
  do* report_verifying progress arena p in
  let* check := check_hashes_and_delete src dst digest completed h n arena p in
  match check with
  | Mismatch _ => sthrow FailedToSync
  | Match => sret ()
  end.

Definition outcome f rs s (r : result MoveFileError ()) s' : Prop :=
  match r with
  | Ok _ => ∃ g, moved f g rs s s' ∧ src_files s' = deleted (src_files s)
  | Err _ => safe f rs s s'
  end.

Lemma safe_keeps f rs s s' : keeps s s' → safe f rs s s'.
Proof. intros [K1 K2 _ _]. by left. Qed.

Lemma missing_within m : wf m → within_size (ByteRanges.subtraction (ByteRanges.single 0 n) m).
Proof.
  intros Hm. destruct (single_spec 0 n) as [S1 S2]. destruct (subtraction_spec _ _ S1 Hm) as [W M]. split; [done|].
  intros x. rewrite M, S2. intros [Hx _]%andb_prop. by apply contains_spec in Hx as [_ Hx].
Qed.

Lemma second_pass_run f rs h m s s1 :
  chunked (ByteRange.new 0 n) HASH_FILE_CHUNK = Some rs → tiles 0 n rs → n ≤ N.of_nat (length f) → hashes_of rs f h →
  keeps s s1 → bounded (dst_files s1) → wf m →
  let '(r, s') := second_pass h m s1 in outcome f rs s r s'.
Proof.
  intros Hrs Ht Hf Hh Hk Hb Hm. unfold second_pass. destruct (missing_within m Hm) as [Hw Hlt].
  set (missing := ByteRanges.subtraction _ m) in *.
  unfold sbind at 1. pose proof (always_decrement p (ByteRanges.bytecount missing) s1) as K1.
  destruct (report_decrement_bytecount _ _ _ _ s1) as [[[]|e] s2]; [|by apply safe_keeps; eapply keeps_trans].
  pose proof (keeps_trans _ _ _ Hk K1) as Hk2. pose proof (kp_bounded _ _ K1 Hb) as Hb2. simpl in Hk2, Hb2. clear K1.
  destruct (rsync_post missing (conj Hw Hlt)) as [R1 R2]. specialize (R1 s2). specialize (R2 s2). unfold sbind at 1.
  destruct (rsync_file_range _ _ _ _ _ _ _ _ _ _ _ _ _ _ s2) as [[fallback|e] s3]; [|by apply safe_keeps; eapply keeps_trans].
  destruct (R2 fallback s3 eq_refl) as [Hfw Hflt]. clear R2.
  pose proof (keeps_trans _ _ _ Hk2 R1) as Hk3. pose proof (kp_bounded _ _ R1 Hb2) as Hb3. simpl in Hk3, Hb3. clear R1.
  unfold sbind at 1. pose proof (always_copy fallback Hfw Hflt s3) as K1.
  destruct (copy_file_range _ _ _ _ _ _ _ s3) as [[[]|e] s4]; [|by apply safe_keeps; eapply keeps_trans].
  pose proof (keeps_trans _ _ _ Hk3 K1) as Hk4. pose proof (kp_bounded _ _ K1 Hb3) as Hb4. simpl in Hk4, Hb4. clear K1.
  unfold sbind at 1. pose proof (always_report (VerifyingFile arena p) s4) as K1. fold (report_verifying progress arena p) in K1.
  destruct (report_verifying _ _ _ s4) as [[[]|e] s5]; [|by apply safe_keeps; eapply keeps_trans].
  pose proof (keeps_trans _ _ _ Hk4 K1) as Hk5. pose proof (kp_bounded _ _ K1 Hb4) as Hb5. simpl in Hk5, Hb5. clear K1.
  unfold sbind at 1. pose proof (check_safe f rs h s s5 Hrs Ht Hf Hh Hk5 Hb5) as H.
  destruct (check_hashes_and_delete _ _ _ _ _ _ _ _ s5) as [[[|m']|e] s6]; [done| |done].
  destruct H as (_ & _ & _ & Hk6). by apply safe_keeps.
Qed.

Lemma move_file_run src_file dst_file s f rs :
  listed src_file dst_file s → final_data src_root p (src_files s) = Some f → n ≤ N.of_nat (length f) →
  chunked (ByteRange.new 0 n) HASH_FILE_CHUNK = Some rs → tiles 0 n rs →
  let '(r, s') := move_this src_file dst_file s in outcome f rs s r s'.
Proof.
  intros [L1 L2 L3] Hsf Hf Hrs Ht. unfold move_this, move_file. rewrite L1, L2.
  set (k := default 0 (sf_size <$> dst_file)) in *. fold (first_copy k). cbv zeta.
  unfold sbind at 1. unfold try at 1. pose proof (always_first_copy k s) as K1.
  pose proof (first_copy_bounded k s) as Hb. destruct (first_copy k s) as [r1 s1]. simpl in K1.
  unfold sbind at 1. unfold try at 1. pose proof (hash_file_run Src s1 rs Hrs) as Hh. pose proof (always_hash Src s1) as K2.
  change (options_of_side Src) with src_options in Hh, K2.
  destruct (hash_file _ _ _ _ _ _ _ _ _ _ s1) as [r2 s2]. simpl in K2. pose proof (keeps_trans _ _ _ K1 K2) as Hk2.
  destruct Hh as (_ & Hd2 & _ & Hh). unfold sbind at 1, slift at 1. destruct r1 as [[]|e]; [|by apply safe_keeps].
  specialize (Hb s1 L3 eq_refl). unfold sbind at 1, slift at 1. destruct r2 as [h|e]; [|by apply safe_keeps].
  destruct Hh as [Hh _]. simpl files_of in Hh. cbn [data_of] in Hh. rewrite (kp_src _ _ K1), Hsf in Hh. simpl default in Hh.
  unfold sbind at 1. pose proof (always_report (VerifyingFile arena p) s2) as K3. fold (report_verifying progress arena p) in K3.
  destruct (report_verifying _ _ _ s2) as [[[]|e] s3]; [|by apply safe_keeps; eapply keeps_trans].
  pose proof (keeps_trans _ _ _ Hk2 K3) as Hk3. simpl in Hk3. pose proof (kp_bounded _ _ K3) as Hb3. simpl in Hb3. rewrite Hd2 in Hb3.
  unfold sbind at 1. pose proof (check_safe f rs h s s3 Hrs Ht Hf Hh Hk3 (Hb3 Hb)) as H.
  destruct (check_hashes_and_delete _ _ _ _ _ _ _ _ s3) as [[[|m]|e] s4]; [done| |done].
  destruct H as (Hwm & _ & Hd4 & Hk4). fold (second_pass h m).
  apply second_pass_run; [done..| |done]. rewrite Hd4. by apply Hb3.
Qed.

(** ** When every call is answered *)

Section answered.
Context (f : list byte) (Hf : n ≤ N.of_nat (length f)).
(** No other content has the digest of a piece of this file. *)
Context (Hcoll : ∀ o k d, digest d = digest (read_at o k f) → d = read_at o k f).
(** A delta applies to any content of the size of the one that was signed, and gives
    as many bytes as the content it leads to. *)
Context (Hrsync : ∀ signed target base, length signed = length target → length base = length target →
  ∃ delta out, deserialize_diff (calculate signed) target = Ok delta ∧
    apply_limited base delta (N.of_nat (length target)) = Some out ∧ length out = length target).

(** Calls are answered, and the file is at the source. *)
Definition ready s : Prop := replies s = [] ∧ final_data src_root p (src_files s) = Some f.

(** A byte of the file that is in the partial file. *)
Definition agrees files x : Prop :=
  ∃ d, partial_data dst_root p files = Some d ∧ x < N.of_nat (length d) ∧ byte_at x d = byte_at x f.

Lemma ready_keeps s s' : ready s → keeps s s' → ready s'.
Proof. intros [R1 R2] [K1 _ _ K4]. split; [auto|by rewrite K1]. Qed.

Lemma ready_report e s : ready s → ∃ s', report progress e s = (Ok tt, s') ∧ ready s' ∧ dst_files s' = dst_files s.
Proof. intros [R1 R2]. eexists. split; [done|]. by destruct progress. Qed.
Lemma ready_increment k s : ready s →
  ∃ s', report_increment_bytecount progress arena p k s = (Ok tt, s') ∧ ready s' ∧ dst_files s' = dst_files s.
Proof. intros R. unfold report_increment_bytecount. destruct (_ =? _); [by exists s|by apply ready_report]. Qed.
Lemma ready_decrement k s : ready s →
  ∃ s', report_decrement_bytecount progress arena p k s = (Ok tt, s') ∧ ready s' ∧ dst_files s' = dst_files s.
Proof. intros R. unfold report_decrement_bytecount. destruct (_ =? _); [by exists s|by apply ready_report]. Qed.

Lemma inside_count range : inside range → ByteRange.bytecount range = end_ range - start range ∧ start range ≤ end_ range ∧
  end_ range ≤ N.of_nat (length f).
Proof. intros [? ?]. unfold ByteRange.bytecount, u64_saturating_sub. lia. Qed.

(** The bytes of the file in a range, as the source reads them. *)
Lemma read_inside range : inside range →
  ∃ out, read_padded f range = Ok out ∧ N.of_nat (length out) = ByteRange.bytecount range ∧
    out = read_at (start range) (ByteRange.bytecount range) f.
Proof.
  intros Hr. destruct (inside_count range Hr) as (E & H1 & H2).
  destruct (read_padded_run f range H1) as (out & E1 & L & Hx). exists out. split; [done|]. split; [done|].
  apply bytes_eq; [unfold read_at; rewrite length_take, length_drop; lia|].
  intros x Hlt. rewrite Hx, byte_at_read by lia. done.
Qed.

Lemma agrees_write range out files files' : inside range → out = read_at (start range) (ByteRange.bytecount range) f →
  partial_data dst_root p files' = Some (write_at (start range) out (default [] (partial_data dst_root p files))) →
  ∀ x, agrees files x ∨ ByteRange.contains range x = true → agrees files' x.
Proof.
  intros Hr Hout E x Hx. destruct (inside_count range Hr) as (Ec & H1 & H2). destruct Hr as [Hr1 Hr2].
  assert (N.of_nat (length out) = end_ range - start range) as Hl.
  { rewrite Hout. unfold read_at. rewrite length_take, length_drop. lia. }
  eexists. split; [exact E|]. rewrite length_write_max by (intros ->; simpl in Hl; lia). rewrite byte_at_write.
  destruct Hx as [(d & Hd & Hxl & Hb)|Hx%contains_spec].
  - rewrite Hd. simpl. split; [lia|]. case_decide; [|done]. rewrite Hout, byte_at_read by lia. f_equal. lia.
  - split; [lia|]. rewrite decide_True by lia. rewrite Hout, byte_at_read by lia. f_equal. lia.
Qed.

Lemma copy_range_now range s : ready s → inside range →
  ∃ s', copy_range src dst now progress arena p range s = (Ok tt, s') ∧ ready s' ∧
    ∀ x, agrees (dst_files s) x ∨ ByteRange.contains range x = true → agrees (dst_files s') x.
Proof.
  intros [R1 R2] Hr. destruct (read_inside range Hr) as (out & Eo & Hl & Hout). unfold copy_range. unfold sbind at 1.
  destruct (call_ok_now Src (read src arena p range src_options) s out R1) as (s1 & E1 & [_ S1] & F1 & P1).
  { simpl files_of. by rewrite read_src, R2. }
  rewrite E1. specialize (S1 eq_refl). simpl in F1. rewrite read_src_pure in F1. unfold sbind at 1.
  destruct (send_dst range out (dst_files s1)) as (files' & E2 & A1 & A2).
  destruct (call_ok_now Dst (send now dst arena p range out dst_options) s1 tt P1) as (s2 & E3 & [S2 _] & F2 & P2).
  { simpl files_of. by rewrite E2. }
  rewrite E3. specialize (S2 eq_refl). simpl in F2. rewrite E2 in F2. simpl in F2.
  destruct (ready_increment (ByteRange.bytecount range) s2) as (s3 & E4 & R3 & D3).
  { split; [done|]. by rewrite S2, F1. }
  exists s3. split; [exact E4|]. split; [done|]. rewrite D3, F2. rewrite <- S1.
  by apply (agrees_write range out).
Qed.

Lemma copy_ranges_now l s : ready s → (∀ c, c ∈ l → inside c) →
  ∃ s', sfor l (copy_range src dst now progress arena p) s = (Ok tt, s') ∧ ready s' ∧
    ∀ x, agrees (dst_files s) x ∨ existsb (λ c, ByteRange.contains c x) l = true → agrees (dst_files s') x.
Proof.
  revert s. induction l as [|c l IH]; intros s R Hl; simpl.
  { exists s. split; [done|]. split; [done|]. by intros x [?|?]. }
  destruct (copy_range_now c s R) as (s1 & E1 & R1 & A1); [apply Hl; by left|].
  destruct (IH s1 R1) as (s2 & E2 & R2 & A2); [intros d Hd; apply Hl; by right|].
  exists s2. unfold sbind. rewrite E1. split; [exact E2|]. split; [done|].
  intros x Hx. apply A2. destruct Hx as [Hx|[Hx|Hx]%orb_prop]; [left; apply A1; by left|left; apply A1; by right|by right].
Qed.

Lemma copy_now r s : ready s → within_size r →
  ∃ s', copy_file_range src dst now progress arena p r s = (Ok tt, s') ∧ ready s' ∧
    ∀ x, agrees (dst_files s) x ∨ mem r x = true → agrees (dst_files s') x.
Proof.
  intros R [Hw Hr]. unfold copy_file_range. destruct (ByteRanges.is_empty r) eqn:Ee.
  { exists s. split; [done|]. split; [done|]. intros x [?|Hx]; [done|]. by rewrite wf_empty_mem in Hx. }
  destruct (chunks_inside r CHUNK_SIZE Hw Hr) as (l & -> & Hl & Hm); [apply chunk_sizes..|]. simpl default.
  destruct (ready_report (PendingFile arena p) s R) as (s1 & E1 & R1 & D1).
  destruct (ready_report (CopyingFile arena p) s1 R1) as (s2 & E2 & R2 & D2).
  destruct (copy_ranges_now l s2 R2 Hl) as (s3 & E3 & R3 & A3).
  exists s3. unfold sbind, report_pending, report_copying. rewrite E1, E2. split; [exact E3|]. split; [done|].
  intros x Hx. apply A3. by rewrite D2, D1, Hm.
Qed.

Lemma padded_length d range : inside range →
  ∃ out, read_padded d range = Ok out ∧ N.of_nat (length out) = ByteRange.bytecount range.
Proof.
  intros Hr. destruct (inside_count range Hr) as (_ & H1 & _).
  destruct (read_padded_run d range H1) as (out & E & L & _). by exists out.
Qed.

(** Applying the delta of a range: it is right, or left as it was. *)
Lemma apply_now range delta hash target s : ready s → inside range →
  read_padded f range = Ok target → hash = digest target →
  (∀ base, length base = length target → ∃ out, apply_limited base delta (N.of_nat (length target)) = Some out ∧ length out = length target) →
  ∃ r s', call Dst (apply_delta now digest Delta apply_limited dst arena p range delta hash dst_options) s = (Ok r, s') ∧ ready s' ∧
    is_Some (partial_data dst_root p (dst_files s')) ∧ (∀ x, agrees (dst_files s) x → agrees (dst_files s') x) ∧
    match r with
    | Ok _ => ∀ x, ByteRange.contains range x = true → agrees (dst_files s') x
    | Err e => e = HashMismatch
    end.
Proof.
  intros [R1 R2] Hr Et -> Happly. destruct (read_inside range Hr) as (target' & Et' & Hl & Htarget).
  rewrite Et in Et'. injection Et' as <-.
  destruct (call_now Dst (apply_delta now digest Delta apply_limited dst arena p range delta (digest target) dst_options) s R1)
    as (s' & E & [S1 _] & F1 & P1). specialize (S1 eq_refl). simpl in F1. simpl files_of in E.
  destruct (apply_delta_run dst_root Hdst_root dst arena Hdst now digest Delta apply_limited ReadWrite p range delta (digest target) (dst_files s) Hp Hv)
    as (files' & _ & A2). change (options_of ReadWrite) with dst_options in A2.
  set (old := default [] (partial_data dst_root p (dst_files s))) in *.
  destruct (padded_length old range Hr) as (base & Eb & Lb). rewrite Eb in A2.
  destruct (Happly base ltac:(lia)) as (out & Eo & Lo). rewrite <- Hl, Eo in A2. rewrite Lo, N.eqb_refl in A2. cbn [andb] in A2.
  assert (ready s') as R' by (split; [done|by rewrite S1]).
  assert (∀ files', partial_data dst_root p files' = Some old → ∀ x, agrees (dst_files s) x → agrees files' x) as Hsame.
  { intros fs Hfs x (d & Hd & Hx). exists d. split; [|done]. rewrite Hfs. unfold old. by rewrite Hd. }
  case_bool_decide as Ed.
  - destruct A2 as [A1 A2]. rewrite A1 in E, F1. simpl in E, F1. exists (Ok tt), s'. rewrite F1. split; [done|]. split; [done|].
    split; [by rewrite A2|]. assert (out = target) as -> by (rewrite Htarget in *; by apply Hcoll).
    split; intros x Hx; (eapply (agrees_write range target (dst_files s)); [done..|]); [by left|by right].
  - destruct A2 as ((e & A1 & He) & A2). rewrite A1 in E, F1. simpl in F1. rewrite He in E by lia. exists (Err HashMismatch), s'. rewrite F1.
    split; [done|]. split; [done|]. split; [by rewrite A2|]. split; [by apply Hsame|done].
Qed.

Definition there s : Prop := is_Some (actual_data dst_root ReadWrite p (dst_files s)).

Lemma partial_there s : is_Some (partial_data dst_root p (dst_files s)) → there s.
Proof. intros [d Hd]. unfold there, actual_data. rewrite bool_decide_eq_true_2, Hd by done. by eexists. Qed.

Lemma rsync_range_now range acc s : ready s → there s → inside range → wf acc →
  ∃ acc' s', rsync_range src dst now digest Signature Delta calculate deserialize_diff apply_limited progress arena p range acc s = (Ok acc', s') ∧
    ready s' ∧ there s' ∧ wf acc' ∧ (∀ x, agrees (dst_files s) x → agrees (dst_files s') x) ∧
    (∀ x, mem acc x = true → mem acc' x = true) ∧
    (∀ x, ByteRange.contains range x = true → agrees (dst_files s') x ∨ mem acc' x = true).
Proof.
  intros R [g Hg] Hr Hacc. pose proof R as [R1 R2]. destruct (padded_length g range Hr) as (signed & Es & Ls).
  destruct (read_inside range Hr) as (target & Et & Lt & _). unfold rsync_range. unfold sbind at 1.
  destruct (call_ok_now Dst (calculate_signature Signature calculate dst arena p range dst_options) s (calculate signed) R1)
    as (s1 & E1 & [S1 _] & F1 & P1).
  { simpl files_of. by rewrite signature_dst, Hg, Es. }
  rewrite E1. specialize (S1 eq_refl). simpl in F1. rewrite signature_dst in F1. simpl in F1. unfold sbind at 1.
  destruct (padded_length [] range Hr) as (base0 & _ & Lb0).
  destruct (Hrsync signed target target) as (delta & _ & Ed & _); [lia|lia|].
  destruct (call_ok_now Src (diff digest Signature Delta deserialize_diff src arena p range (calculate signed) src_options) s1 (delta, digest target) P1)
    as (s2 & E2 & [_ S2] & F2 & P2).
  { simpl files_of. rewrite S1, diff_src, R2. simpl. rewrite Et. simpl. by rewrite Ed. }
  rewrite E2. specialize (S2 eq_refl). simpl in F2. rewrite diff_src in F2. simpl in F2. unfold sbind at 1.
  assert (ready s2) as R' by (split; [done|by rewrite F2, S1]).
  destruct (apply_now range delta (digest target) target s2 R' Hr Et eq_refl) as (r & s3 & E3 & R3 & T3 & A3 & C3).
  { intros base Hb. destruct (Hrsync signed target base) as (delta' & out & Ed' & Eo & Lo); [lia|lia|].
    assert (delta' = delta) as -> by congruence. by exists out. }
  rewrite E3. rewrite S2, F1 in A3. destruct r as [a|e].
  - destruct (ready_increment (ByteRange.bytecount range) s3 R3) as (s4 & E4 & R4 & D4).
    exists acc, s4. unfold sbind. rewrite E4. split; [done|]. split; [done|]. unfold there. rewrite D4.
    split; [by apply partial_there|]. split; [done|]. split; [done|]. split; [done|]. intros x Hx. left. by apply C3.
  - subst e. exists (ByteRanges.add acc range), s3. destruct (add_spec acc range Hacc) as [W M]. split; [done|]. split; [done|].
    split; [by apply partial_there|]. split; [done|]. split; [done|].
    split; intros x Hx; [|right]; rewrite M; apply orb_true_intro; [by left|by right].
Qed.

Lemma rsync_loop_now l acc s : ready s → there s → (∀ c, c ∈ l → inside c) → wf acc →
  ∃ acc' s', rsync_loop src dst now digest Signature Delta calculate deserialize_diff apply_limited progress arena p l acc s = (Ok acc', s') ∧
    ready s' ∧ there s' ∧ wf acc' ∧ (∀ x, agrees (dst_files s) x → agrees (dst_files s') x) ∧
    (∀ x, mem acc x = true → mem acc' x = true) ∧
    (∀ x, existsb (λ c, ByteRange.contains c x) l = true → agrees (dst_files s') x ∨ mem acc' x = true).
Proof.
  revert acc s. induction l as [|c l IH]; intros acc s R T Hl Hacc; cbn [rsync_loop].
  { exists acc, s. by split_and!. }
  destruct (rsync_range_now c acc s R T) as (acc1 & s1 & E1 & R1 & T1 & W1 & A1 & M1 & C1); [apply Hl; by left|done|].
  destruct (IH acc1 s1 R1 T1) as (acc2 & s2 & E2 & R2 & T2 & W2 & A2 & M2 & C2); [intros d Hd; apply Hl; by right|done|].
  exists acc2, s2. unfold sbind. rewrite E1. split; [exact E2|]. do 3 (split; [done|]). split; [auto|]. split; [auto|].
  intros x [Hx|Hx]%orb_prop; [|by apply C2]. destruct (C1 x Hx); [left; by apply A2|right; by apply M2].
Qed.

Context (Hpos : 0 < n).

(** The part of the file that was listed. *)
Definition listed_part : list byte := take (N.to_nat n) f.

Lemma listed_length : N.of_nat (length listed_part) = n.
Proof. unfold listed_part. rewrite length_take. lia. Qed.

Lemma byte_at_listed x : x < n → byte_at x listed_part = byte_at x f.
Proof. intros Hx. unfold byte_at, listed_part. by rewrite lookup_take_lt by lia. Qed.

Lemma read_at_eq o k (a b : list byte) :
  o + k ≤ N.of_nat (length a) → o + k ≤ N.of_nat (length b) →
  read_at o k a = read_at o k b ↔ ∀ x, o ≤ x → x < o + k → byte_at x a = byte_at x b.
Proof.
  intros Ha Hb. split.
  - intros E x H1 H2. replace x with (o + (x - o)) by lia. rewrite <- (byte_at_read o k a), <- (byte_at_read o k b) by lia. by rewrite E.
  - intros H. assert (∀ c : list byte, o + k ≤ N.of_nat (length c) → length (read_at o k c) = N.to_nat k) as Hl.
    { intros c Hc. unfold read_at. rewrite length_take, length_drop. lia. }
    apply bytes_eq; rewrite !Hl by done; [done|]. intros x Hx. rewrite !byte_at_read by lia. apply H; lia.
Qed.

(** A chunk with the same hash has the same bytes. *)
Lemma same_hash g r rs : tiles 0 n rs → r ∈ rs → range_hash digest r f = range_hash digest r g →
  end_ r ≤ N.of_nat (length g) ∧ ∀ x, ByteRange.contains r x = true → byte_at x g = byte_at x f.
Proof.
  intros Ht Hr E. destruct (tiles_NoDup _ _ _ Ht) as [_ Hb]. destruct (Hb r Hr) as (_ & H1 & H2). unfold range_hash in E.
  destruct (N.ltb_spec (N.of_nat (length f)) (end_ r)); [lia|].
  destruct (N.ltb_spec (N.of_nat (length g)) (end_ r)) as [Hl|Hl]; [by apply Hzero in E|]. split; [done|].
  intros x Hx%contains_spec. symmetry in E. apply Hcoll in E.
  assert (ByteRange.bytecount r = end_ r - start r) as Ec by done. rewrite Ec in E.
  apply (proj1 (read_at_eq (start r) (end_ r - start r) g f ltac:(lia) ltac:(lia))); [done|lia..].
Qed.

Lemma matching_listed rs : tiles 0 n rs → matching f listed_part rs = rs.
Proof.
  intros Ht. destruct (tiles_NoDup _ _ _ Ht) as [_ Hb]. unfold matching. apply filter_all, Forall_forall. intros r Hr.
  destruct (Hb r Hr) as (_ & H1 & H2). unfold range_hash. rewrite listed_length.
  destruct (N.ltb_spec (N.of_nat (length f)) (end_ r)); [lia|]. destruct (N.ltb_spec n (end_ r)); [lia|]. f_equal.
  assert (ByteRange.bytecount r = end_ r - start r) as -> by done.
  apply read_at_eq; [lia|rewrite listed_length; lia|]. intros x Hx1 Hx2. symmetry. apply byte_at_listed. lia.
Qed.

Lemma matching_whole g rs : tiles 0 n rs → N.of_nat (length g) = n → matching f g rs = rs → g = listed_part.
Proof.
  intros Ht Hl Hm. apply bytes_eq; [pose proof listed_length; lia|]. intros x Hx. rewrite byte_at_listed by lia.
  pose proof (tiles_contains 0 n rs x Ht) as Hc.
  assert (ByteRange.contains (ByteRange.new 0 n) x = true) as Hc' by (apply contains_spec; simpl; lia). rewrite Hc' in Hc.
  apply existsb_exists in Hc as (r & Hr%list_elem_of_In & Hrx). pose proof Hr as Hr'.
  rewrite <- Hm in Hr'. apply list_elem_of_filter in Hr' as [E _]. by apply (same_hash g r rs).
Qed.

Lemma agrees_whole files : (∀ x, x < n → agrees files x) → bounded files → partial_data dst_root p files = Some listed_part.
Proof.
  intros Hall [B1 _]. destruct (Hall (n - 1) ltac:(lia)) as (d & Hd & Hl & _). rewrite Hd. f_equal.
  specialize (B1 d Hd). apply bytes_eq; [pose proof listed_length; lia|]. intros x Hx.
  rewrite byte_at_listed by lia. destruct (Hall x ltac:(lia)) as (d' & Hd' & _ & Hb). congruence.
Qed.

(** A small file has one chunk. *)
Lemma one_chunk rs : n ≤ HASH_FILE_CHUNK → chunked (ByteRange.new 0 n) HASH_FILE_CHUNK = Some rs → rs = [ByteRange.new 0 n].
Proof.
  intros Hs. unfold chunked, ChunkIterator.fuel, ChunkIterator.new. cbn [total Range.offset].
  change (start (ByteRange.new 0 n)) with 0. change (end_ (ByteRange.new 0 n)) with n.
  replace (N.to_nat (n - 0)) with (S (N.to_nat (n - 1))) by lia. cbn [ChunkIterator.collect]. unfold ChunkIterator.next at 1.
  cbn [total Range.offset chunk_size]. destruct (N.leb_spec n 0); [lia|].
  change (HASH_FILE_CHUNK =? 0) with false. cbn [orb].
  rewrite u64_add_small by lia.
  assert ((if n <? 0 + HASH_FILE_CHUNK then n else 0 + HASH_FILE_CHUNK) = n) as E.
  { destruct (N.ltb_spec n (0 + HASH_FILE_CHUNK)); lia. }
  rewrite E.
  unfold ChunkIterator.next. cbn [total Range.offset chunk_size]. destruct (N.leb_spec n n); [|lia].
  rewrite orb_true_r. by intros [= <-].
Qed.

Lemma first_copy_now k s : ready s →
  k = default 0 ((λ d, N.of_nat (length d)) <$> actual_data dst_root ReadWrite p (dst_files s)) →
  ∃ s', first_copy k s = (Ok tt, s') ∧ ready s' ∧ there s' ∧
    (partial_data dst_root p (dst_files s') = None → k = n ∧ partial_data dst_root p (dst_files s) = None).
Proof.
  intros R Hk. destruct (single_within k) as [Hw Hm]. unfold first_copy. unfold sbind at 1.
  destruct (copy_now _ s R Hw) as (s1 & E1 & R1 & A1). rewrite E1.
  destruct (N.lt_trichotomy n k) as [Hlt|[->|Hgt]].
  - rewrite (proj2 (N.ltb_lt n k)) by done. destruct R1 as [P1 F1].
    destruct (truncate_run dst_root Hdst_root dst arena Hdst now ReadWrite p n (dst_files s1) Hp Hv) as (files' & E' & _ & A2).
    change (options_of ReadWrite) with dst_options in E'.
    destruct (call_ok_now Dst (truncate now dst arena p n dst_options) s1 tt P1) as (s2 & E2 & [S2 _] & F2 & P2).
    { simpl files_of. by rewrite E'. }
    rewrite E2. specialize (S2 eq_refl). simpl in F2. rewrite E' in F2. simpl in F2. exists s2. split; [done|].
    split; [split; [done|by rewrite S2]|]. rewrite <- F2 in A2. split; [by apply partial_there; rewrite A2|]. by rewrite A2.
  - rewrite N.ltb_irrefl. exists s1. split; [done|]. split; [done|].
    assert (ByteRanges.subtraction (ByteRanges.single 0 k) (ByteRanges.single 0 k) = ByteRanges.new) as E.
    { apply wf_unique; [apply Hw|apply wf_new|]. intros x. rewrite Hm. rewrite (wf_empty_mem ByteRanges.new) by done.
      destruct (N.leb_spec k x), (N.ltb_spec x k); simpl; done || lia. }
    rewrite E in E1. injection E1 as <-. split; [|done]. unfold there.
    destruct (actual_data _ _ _ _); [by eexists|]. simpl in Hk. lia.
  - destruct (N.ltb_spec n k); [lia|]. exists s1. split; [done|]. split; [done|].
    destruct (A1 (n - 1)) as (d & Hd & _).
    { right. rewrite Hm. apply andb_true_intro. split; [apply N.leb_le; lia|apply N.ltb_lt; lia]. }
    split; [by apply partial_there; rewrite Hd|]. by rewrite Hd.
Qed.

Lemma rsync_now r s : ready s → there s → within_size r →
  ∃ acc s', rsync_file_range src dst now digest Signature Delta calculate deserialize_diff apply_limited progress arena p r ByteRanges.new s = (Ok acc, s') ∧
    ready s' ∧ within_size acc ∧ (∀ x, agrees (dst_files s) x → agrees (dst_files s') x) ∧
    (∀ x, mem r x = true → agrees (dst_files s') x ∨ mem acc x = true).
Proof.
  intros R T Hr. pose proof Hr as [Hw Hlt]. pose proof (rsync_post r Hr) as [_ Hpost].
  unfold rsync_file_range in *. destruct (ByteRanges.is_empty r) eqn:Ee.
  { exists ByteRanges.new, s. split; [done|]. split; [done|]. split; [apply within_size_new|]. split; [done|].
    intros x Hx. by rewrite wf_empty_mem in Hx. }
  destruct (chunks_inside r CHUNK_SIZE Hw Hlt) as (l & El & Hl & Hm); [apply chunk_sizes..|]. rewrite El in *. simpl default in *.
  destruct (ready_report (RsyncingFile arena p) s R) as (s1 & E1 & R1 & D1).
  destruct (rsync_loop_now l ByteRanges.new s1 R1) as (acc & s2 & E2 & R2 & _ & _ & A2 & _ & C2); [unfold there; by rewrite D1|done|apply wf_new|].
  exists acc, s2. assert (∀ X, sbind (report_rsyncing progress arena p) (λ _, X) s = X s1 :> (result MoveFileError ByteRanges * MoveState)) as Hb.
  { intros X. unfold sbind, report_rsyncing. by rewrite E1. }
  rewrite !Hb, E2. split; [done|]. split; [done|]. split.
  - apply (Hpost s acc s2). by rewrite Hb, E2.
  - rewrite D1 in A2. split; [done|]. intros x Hx. apply C2. by rewrite Hm.
Qed.

Lemma matched_agrees g rs s : tiles 0 n rs → partial_data dst_root p (dst_files s) = Some g →
  ∀ x, mem (ByteRanges.from_ranges (matching f g rs)) x = true → agrees (dst_files s) x.
Proof.
  intros Ht Hg x. destruct (fold_add_spec (matching f g rs) _ wf_new) as [_ Hm]. unfold ByteRanges.from_ranges. rewrite Hm.
  rewrite (wf_empty_mem ByteRanges.new) by done. cbn [orb].
  intros (r & [E Hr]%list_elem_of_In%list_elem_of_filter & Hx)%existsb_exists.
  destruct (same_hash g r rs Ht Hr E) as [H1 H2]. exists g. split; [done|]. split; [|by apply H2].
  apply contains_spec in Hx. lia.
Qed.

(** With the right bytes in place the check succeeds. *)
Lemma check_now h rs s : chunked (ByteRange.new 0 n) HASH_FILE_CHUNK = Some rs → tiles 0 n rs → hashes_of rs f h →
  ready s → there s →
  let '(r, s') := check_hashes_and_delete src dst digest completed h n arena p s in
  r = Ok Match ∨ (∃ g, r = Ok (Mismatch (ByteRanges.from_ranges (matching f g rs))) ∧
    actual_data dst_root ReadWrite p (dst_files s) = Some g ∧ matching f g rs ≠ rs ∧ dst_files s' = dst_files s ∧ ready s').
Proof.
  intros Hrs Ht Hh [R1 R2] T. pose proof (check_run f rs h s Hrs Ht Hh) as H.
  destruct (check_hashes_and_delete _ _ _ _ _ _ _ _ s) as [r s'].
  destruct H as [e H1 H2 H3|m Hwm H1 H2 H3 H4|g e _ _ _ H1 _|g]; [by destruct H3| |by destruct H1|by left].
  destruct (H4 Hpos) as (g & Hg & -> & Hne). right. exists g. split_and!; try done. split; [auto|by rewrite H1].
Qed.

Lemma second_pass_now h rs g s : chunked (ByteRange.new 0 n) HASH_FILE_CHUNK = Some rs → tiles 0 n rs → hashes_of rs f h →
  ready s → there s → bounded (dst_files s) →
  (∀ x, mem (ByteRanges.from_ranges (matching f g rs)) x = true → agrees (dst_files s) x) →
  (second_pass h (ByteRanges.from_ranges (matching f g rs)) s).1 = Ok tt.
Proof.
  intros Hrs Ht Hh R T Hb Hm. unfold second_pass.
  assert (wf (ByteRanges.from_ranges (matching f g rs))) as Hwm by apply (fold_add_spec _ _ wf_new).
  set (m := ByteRanges.from_ranges (matching f g rs)) in *.
  pose proof (missing_within m Hwm) as Hmiss. pose proof Hmiss as [Hw _].
  assert (∀ x, x < n → mem m x = false → mem (ByteRanges.subtraction (ByteRanges.single 0 n) m) x = true) as Hcover.
  { intros x Hx Hf'. destruct (single_spec 0 n) as [S1 S2]. destruct (subtraction_spec _ _ S1 Hwm) as [_ M].
    rewrite M, S2, Hf'. rewrite (proj2 (contains_spec _ _)); [done|simpl; lia]. }
  set (missing := ByteRanges.subtraction _ m) in *.
  destruct (ready_decrement (ByteRanges.bytecount missing) s R) as (s1 & E1 & R1 & D1).
  unfold sbind at 1. rewrite E1.
  destruct (rsync_now missing s1 R1) as (acc & s2 & E2 & R2 & W2 & A2 & C2); [unfold there; by rewrite D1|done|].
  pose proof (proj1 (rsync_post missing Hmiss) s1) as K2. rewrite E2 in K2. simpl in K2.
  unfold sbind at 1. rewrite E2. destruct (copy_now acc s2 R2 W2) as (s3 & E3 & R3 & A3).
  pose proof (always_copy acc (proj1 W2) (proj2 W2) s2) as K3. rewrite E3 in K3. simpl in K3.
  unfold sbind at 1. rewrite E3. destruct (ready_report (VerifyingFile arena p) s3 R3) as (s4 & E4 & R4 & D4).
  unfold sbind at 1, report_verifying. rewrite E4.
  assert (∀ x, x < n → agrees (dst_files s4) x) as Hall.
  { intros x Hx. rewrite D4. apply A3. destruct (mem m x) eqn:Em.
    - left. apply A2. rewrite D1. by apply Hm.
    - destruct (C2 x (Hcover x Hx Em)); [by left|by right]. }
  assert (bounded (dst_files s4)) as Hb4.
  { rewrite D4. apply (kp_bounded _ _ K3), (kp_bounded _ _ K2). by rewrite D1. }
  pose proof (agrees_whole _ Hall Hb4) as Ep.
  unfold sbind at 1. pose proof (check_now h rs s4 Hrs Ht Hh R4) as H.
  destruct (check_hashes_and_delete _ _ _ _ _ _ _ _ s4) as [r s5].
  destruct H as [->|(g' & -> & Hg' & Hne & _)]; [apply partial_there; by rewrite Ep|done|]. exfalso.
  unfold actual_data in Hg'. rewrite bool_decide_eq_true_2, Ep in Hg' by done. injection Hg' as <-.
  by apply Hne, matching_listed.
Qed.

(** A file that is the final one at the destination, of the same size, is not mixed
    with the partial one that [apply_delta] writes, unless it has many chunks. *)
Definition reusable s : Prop :=
  partial_data dst_root p (dst_files s) = None →
  (∃ d, final_data dst_root p (dst_files s) = Some d ∧ N.of_nat (length d) = n) → n ≤ HASH_FILE_CHUNK.

Lemma move_now src_file dst_file s : listed src_file dst_file s → ready s → reusable s →
  ∃ s', move_this src_file dst_file s = (Ok tt, s') ∧ finished listed_part (dst_files s) (dst_files s') ∧
    src_files s' = deleted (src_files s).
Proof.
  intros L R Hreuse. destruct hash_chunks as (rs & Hrs & Ht). pose proof R as [R1 R2].
  pose proof (move_file_run src_file dst_file s f rs L R2 Hf Hrs Ht) as Hout.
  assert ((move_this src_file dst_file s).1 = Ok tt) as E.
  2:{ destruct (move_this src_file dst_file s) as [r s']. simpl in E. subst r.
      destruct Hout as (g & (_ & G2 & G3 & G4 & _) & G5). exists s'. split; [done|].
      by rewrite <- (matching_whole g rs Ht G3 G4). }
  clear Hout. destruct L as [L1 L2 L3]. unfold move_this, move_file. rewrite L1, L2.
  set (k := default 0 (sf_size <$> dst_file)) in *. fold (first_copy k). cbv zeta.
  destruct (first_copy_now k s R L3) as (s1 & E1 & Rd1 & T1 & Hnone). pose proof (first_copy_bounded k s s1 L3 E1) as Hb.
  unfold sbind at 1, try at 1. rewrite E1. unfold sbind at 1, try at 1. pose proof (hash_file_run Src s1 rs Hrs) as Hh.
  change (options_of_side Src) with src_options in Hh. destruct Rd1 as [P1 F1].
  destruct (hash_file _ _ _ _ _ _ _ _ _ _ s1) as [r2 s2]. destruct Hh as (S2 & D2 & P2 & Hh).
  simpl files_of in Hh. cbn [data_of] in Hh. rewrite F1 in Hh. destruct r2 as [h|e]; [|by destruct Hh].
  destruct Hh as [Hh _]. simpl default in Hh. unfold sbind at 1, slift at 1. unfold sbind at 1, slift at 1.
  assert (ready s2) as Rd2 by (split; [auto|by rewrite S2]).
  destruct (ready_report (VerifyingFile arena p) s2 Rd2) as (s3 & E3 & Rd3 & D3). rewrite D2 in D3.
  unfold sbind at 1, report_verifying at 1. rewrite E3. unfold sbind at 1.
  assert (there s3) as T3 by (unfold there; by rewrite D3).
  pose proof (check_now h rs s3 Hrs Ht Hh Rd3 T3) as H.
  destruct (check_hashes_and_delete _ _ _ _ _ _ _ _ s3) as [r s4].
  destruct H as [->|(g & -> & Hg & Hne & D4 & Rd4)]; [done|]. fold (second_pass h (ByteRanges.from_ranges (matching f g rs))).
  apply second_pass_now; [done..| | |]; [unfold there; by rewrite D4, D3|by rewrite D4, D3|].
  rewrite D3 in Hg. rewrite D4, D3. destruct (partial_data dst_root p (dst_files s1)) as [d|] eqn:Ep.
  - unfold actual_data in Hg. rewrite bool_decide_eq_true_2, Ep in Hg by done. injection Hg as ->. by apply matched_agrees.
  - destruct (Hnone eq_refl) as [Hk Hn0]. unfold actual_data in L3. rewrite bool_decide_eq_true_2, Hn0 in L3 by done.
    assert (n ≤ HASH_FILE_CHUNK) as Hsmall.
    { apply Hreuse; [done|]. destruct (final_data dst_root p (dst_files s)) as [d|]; simpl in L3; [|lia].
      exists d. split; [done|lia]. }
    assert (matching f g rs = []) as ->.
    { rewrite (one_chunk rs Hsmall Hrs) in *. unfold matching in *. rewrite filter_cons in *. case_decide; [|done]. done. }
    intros x Hx. vm_compute in Hx. done.
Qed.
End answered.
End moving.

(** ** Moving the files of an arena *)

(** A content that cannot be told from another one by the hashes of its chunks. *)
Definition same_content (digest : list byte → Hash) (f g : list byte) : Prop :=
  length g = length f ∧
  ∀ r, r ∈ default [] (chunked (ByteRange.new 0 (N.of_nat (length f))) HASH_FILE_CHUNK) →
    digest (read_at (start r) (ByteRange.bytecount r) g) = digest (read_at (start r) (ByteRange.bytecount r) f).

Lemma moved_same digest src_root dst_root p f g rs s s' :
  chunked (ByteRange.new 0 (N.of_nat (length f))) HASH_FILE_CHUNK = Some rs → tiles 0 (N.of_nat (length f)) rs →
  moved digest src_root dst_root p (N.of_nat (length f)) f g rs s s' → same_content digest f g.
Proof.
  intros Hrs Ht (_ & _ & Hl & Hm & _). split; [lia|]. rewrite Hrs. simpl. intros r Hr.
  destruct (tiles_NoDup _ _ _ Ht) as [_ Hb]. destruct (Hb r Hr) as (_ & _ & He).
  rewrite <- Hm in Hr. apply list_elem_of_filter in Hr as [E _]. unfold range_hash in E.
  destruct (N.ltb_spec (N.of_nat (length f)) (end_ r)); [lia|]. destruct (N.ltb_spec (N.of_nat (length g)) (end_ r)); [lia|done].
Qed.

Section dirs.
Context (src dst : RealStore) (now : UnixTime) (digest : list byte → Hash).
Context (walk : string → Fs → list (string * File)) (diff_paths : string → string → option string).
Context (Signature Delta : Type) (calculate : list byte → Signature).
Context (deserialize_diff : Signature → list byte → result RsyncOperation Delta).
Context (apply_limited : list byte → Delta → N → option (list byte)).
Context (completed : list HashResult → list HashResult) (Hcompleted : ∀ l, completed l ≡ₚ l).
Context (progress : bool).
Context (arena : Arena) (src_root dst_root : string) (Hsrc_root : src_root ≠ "") (Hdst_root : dst_root ≠ "").
Context (Hsrc : rs_map src !! arena = Some src_root) (Hdst : rs_map dst !! arena = Some dst_root).
Context (Hzero : ∀ d, digest d ≠ Hash.zero).
Implicit Types (s : MoveState) (p : Path).

Definition Listed : Type := Arena * SyncedFile * option SyncedFile.

(** What is known of an entry of the listings. *)
Definition entry_ok s (e : Listed) : Prop :=
  e.1.1 = arena ∧ valid (sf_path e.1.2) ∧ visible (sf_path e.1.2) ∧
  sf_size e.1.2 + HASH_FILE_CHUNK ≤ u64_modulus ∧
  (∃ f, final_data src_root (sf_path e.1.2) (src_files s) = Some f ∧ sf_size e.1.2 = N.of_nat (length f)) ∧
  default 0 (sf_size <$> e.2) =
    default 0 ((λ d, N.of_nat (length d)) <$> actual_data dst_root ReadWrite (sf_path e.1.2) (dst_files s)).

(** What became of a file of the source. *)
Definition kept_or_moved p s s' : Prop :=
  final_data src_root p (src_files s') = final_data src_root p (src_files s) ∨
  ∃ f g, final_data src_root p (src_files s) = Some f ∧ final_data dst_root p (dst_files s') = Some g ∧ same_content digest f g.

(** The files of a path are as they were. *)
Definition untouched p s s' : Prop :=
  final_data src_root p (src_files s') = final_data src_root p (src_files s) ∧
  partial_data dst_root p (dst_files s') = partial_data dst_root p (dst_files s) ∧
  final_data dst_root p (dst_files s') = final_data dst_root p (dst_files s).

Lemma untouched_refl p s : untouched p s s.
Proof. by split_and!. Qed.
Lemma untouched_trans p s1 s2 s3 : untouched p s1 s2 → untouched p s2 s3 → untouched p s1 s3.
Proof. intros (A1 & A2 & A3) (B1 & B2 & B3). split_and!; congruence. Qed.

Lemma entry_ok_untouched s s' e : untouched (sf_path e.1.2) s s' → entry_ok s e → entry_ok s' e.
Proof.
  intros (U1 & U2 & U3) (E1 & E2 & E3 & E4 & E5 & E6). unfold entry_ok, actual_data. rewrite U1, U2, U3. by split_and!.
Qed.

(** Moving a file touches no other one. *)
Lemma safe_others p q f rs n s s' : valid p → visible p → valid q → visible q → q ≠ p →
  safe digest src_root dst_root p n f rs s s' → untouched q s s'.
Proof.
  intros Hp Hv Hq Hvq Hne H.
  assert (∀ root, root ≠ "" → final_of root q ≠ partial_of root p ∧ final_of root q ≠ final_of root p ∧
    partial_of root q ≠ partial_of root p ∧ partial_of root q ≠ final_of root p) as Hdiff.
  { intros root Hr. split_and!.
    - by apply not_eq_sym, final_partial_ne.
    - intros E%within_inj. done.
    - intros E%partial_inj; done.
    - by apply final_partial_ne. }
  destruct (Hdiff src_root Hsrc_root) as (A1 & A2 & _ & _). destruct (Hdiff dst_root Hdst_root) as (B1 & B2 & B3 & B4).
  assert (∀ files files' : Fs, (∀ k, k ≠ partial_of dst_root p → k ≠ final_of dst_root p → files' !! k = files !! k) →
    partial_data dst_root q files' = partial_data dst_root q files ∧ final_data dst_root q files' = final_data dst_root q files) as Hd.
  { intros files files' Hk. unfold partial_data, final_data. by rewrite !Hk. }
  destruct H as [[H1 [H2 H3]]|(g & _ & [F1 F2 F3] & _ & _ & H)].
  - destruct (Hd _ _ H3). unfold untouched. by rewrite H1.
  - destruct (Hd _ _ F3). unfold untouched. split; [|done]. destruct H as [->| ->]; [done|].
    unfold final_data, deleted. by rewrite !lookup_delete_ne by by apply not_eq_sym.
Qed.

Definition move_entry (e : Listed) : MoveM (N * N * N) :=
  move_one src dst now digest Signature Delta calculate deserialize_diff apply_limited completed progress e.

Lemma report_untouched e s : ∃ s', report progress e s = (Ok tt, s') ∧ src_files s' = src_files s ∧ dst_files s' = dst_files s.
Proof. eexists. split; [done|]. by destruct progress. Qed.

Lemma untouched_same p s s' : src_files s' = src_files s → dst_files s' = dst_files s → untouched p s s'.
Proof. intros H1 H2. unfold untouched. by rewrite H1, H2. Qed.

Lemma move_entry_run e s : entry_ok s e →
  ∃ c s', move_entry e s = (Ok c, s') ∧ c.1.1 + c.1.2 + c.2 = 1 ∧
    (∀ q, valid q → visible q → q ≠ sf_path e.1.2 → untouched q s s') ∧ kept_or_moved (sf_path e.1.2) s s'.
Proof.
  destruct e as [[a sf] df]. intros (E1 & Hp & Hv & E4 & (f & Hf & En) & E6). simpl in *. subst a.
  unfold move_entry, move_one. unfold sbind at 1.
  destruct (report_untouched (MovingFile arena (sf_path sf) (sf_size sf) (default 0 (sf_size <$> df))) s) as (s1 & -> & S1 & D1).
  unfold sbind at 1, try. destruct (hash_chunks (sf_size sf) E4) as (rs & Hrs & Ht).
  pose proof (move_file_run src dst now digest Signature Delta calculate deserialize_diff apply_limited completed Hcompleted progress
    arena src_root dst_root Hsrc_root Hdst_root Hsrc Hdst (sf_path sf) Hp Hv (sf_size sf) E4 Hzero sf df s1 f rs) as H.
  unfold move_this in H. destruct (move_file _ _ _ _ _ _ _ _ _ _ _ sf df arena s1) as [r s2].
  assert (outcome digest src_root dst_root (sf_path sf) (sf_size sf) f rs s1 r s2) as Ho.
  { apply H; [|by rewrite S1|lia|done|done]. split; [done|done|]. by rewrite D1. }
  assert (safe digest src_root dst_root (sf_path sf) (sf_size sf) f rs s1 s2) as Hs.
  { destruct r; [|done]. destruct Ho as (g & G & _). right. by exists g. }
  clear H Ho. assert (∀ s', src_files s' = src_files s2 → dst_files s' = dst_files s2 →
    (∀ q, valid q → visible q → q ≠ sf_path sf → untouched q s s') ∧ kept_or_moved (sf_path sf) s s') as Hend.
  { intros s' S' D'. split.
    - intros q Hq Hvq Hne. eapply untouched_trans; [by apply (untouched_same q s s1)|].
      eapply untouched_trans; [by eapply (safe_others (sf_path sf))|by apply untouched_same].
    - unfold kept_or_moved. rewrite S', D'. destruct Hs as [[H1 _]|(g & Hm)]; [left; by rewrite H1, S1|right].
      exists f, g. split; [done|]. pose proof Hm as (_ & [F1 _ _] & _). split; [done|].
      rewrite En in Hrs, Ht, Hm. by eapply moved_same. }
  destruct r as [[]|[[]| | | |]]; unfold sbind;
    (match goal with |- context [report progress ?e s2] => destruct (report_untouched e s2) as (s3 & -> & S3 & D3) end);
    eexists _, s3; (split; [done|]); (split; [done|]); by apply Hend.
Qed.

Lemma move_all_run l counts s :
  Forall (entry_ok s) l → NoDup ((λ e : Listed, sf_path e.1.2) <$> l) →
  ∃ c s', move_all src dst now digest Signature Delta calculate deserialize_diff apply_limited completed progress l counts s = (Ok c, s') ∧
    c.1.1 + c.1.2 + c.2 = counts.1.1 + counts.1.2 + counts.2 + N.of_nat (length l) ∧
    ∀ q, valid q → visible q → kept_or_moved q s s' ∧ (q ∉ ((λ e : Listed, sf_path e.1.2) <$> l) → untouched q s s').
Proof.
  revert counts s. induction l as [|e l IH]; intros counts s Hall Hnd; cbn [move_all].
  { exists counts, s. split; [done|]. split; [simpl; lia|]. intros q _ _. split; [by left|]. intros _. apply untouched_refl. }
  apply Forall_cons in Hall as [He Hall]. apply NoDup_cons in Hnd as [Hni Hnd].
  destruct (move_entry_run e s He) as (c1 & s1 & E1 & C1 & U1 & K1). unfold sbind, move_entry in *. rewrite E1.
  assert (Forall (entry_ok s1) l) as Hall1.
  { rewrite Forall_forall in Hall |- *. intros e' He'. pose proof (Hall e' He') as Hok. eapply entry_ok_untouched; [|exact Hok].
    destruct Hok as (_ & V1 & V2 & _). apply U1; [done..|]. intros E. apply Hni. rewrite <- E.
    by apply (list_elem_of_fmap_2 (λ e : Listed, sf_path e.1.2)). }
  destruct (IH (counts.1.1 + c1.1.1, counts.1.2 + c1.1.2, counts.2 + c1.2) s1 Hall1 Hnd) as (c & s' & E2 & C2 & K2).
  exists c, s'. split; [exact E2|]. split; [simpl in *; lia|]. intros q Hq Hvq. destruct (K2 q Hq Hvq) as [K U].
  destruct He as (_ & Hp & Hv & _). destruct (decide (q = sf_path e.1.2)) as [->|Hne].
  - destruct (U Hni) as (V1 & V2 & V3). split.
    + destruct K1 as [K1|(f & g & F & G & C)]; [left; by rewrite V1|right; exists f, g; by rewrite V3].
    + intros Hq'. destruct Hq'. by left.
  - pose proof (U1 q Hq Hvq Hne) as (V1 & V2 & V3). split.
    + destruct K as [K|(f & g & F & G & C)]; [left; by rewrite K|right; exists f, g; by rewrite <- V1].
    + intros Hq'. apply not_elem_of_cons in Hq' as [_ Hq']. eapply untouched_trans; [by split_and!|by apply U].
Qed.

(** *** Collecting the files *)

Context (Hwalk_src : ∀ files, walk src_root files ≡ₚ filter (below src_root) (map_to_list files)).
Context (Hwalk_dst : ∀ files, walk dst_root files ≡ₚ filter (below dst_root) (map_to_list files)).
Context (Hdiff_src : ∀ rel, os_normal rel → diff_paths (join_path src_root rel) src_root = Some rel).
Context (Hdiff_dst : ∀ rel, os_normal rel → diff_paths (join_path dst_root rel) dst_root = Some rel).

Lemma list_files_pure store options files : (list_files walk diff_paths store arena options files).2 = files.
Proof.
  unfold list_files, sbind, slift, sget, id. destruct (RealStore.path_resolver_from_opts _ _ _); [|done].
  by destruct (list_loop _ _ _ _) as [|[]].
Qed.

Lemma pair_files_run a l m : NoDup (sf_path <$> l) →
  pair_files a l m = (λ sf, (a, sf, m !! sf_path sf)) <$> l.
Proof.
  revert m. induction l as [|sf l IH]; intros m Hnd; [done|]. cbn [pair_files fmap list_fmap]. apply NoDup_cons in Hnd as [Hni Hnd].
  f_equal. rewrite IH by done. apply list_fmap_ext. intros i x Hi. f_equal. apply lookup_delete_ne.
  intros E. apply Hni. rewrite E. apply (list_elem_of_fmap_2 sf_path). by eapply list_elem_of_lookup_2.
Qed.

Lemma dst_map_lookup l m p : NoDup (sf_path <$> l) → (∀ x, x ∈ l → m !! sf_path x = None) →
  (foldl (λ m f, <[sf_path f := f]> m) m l : gmap Path SyncedFile) !! p =
  match list_find (λ f, sf_path f = p) l with Some (_, f) => Some f | None => m !! p end.
Proof.
  revert m. induction l as [|x l IH]; intros m Hnd Hm; [done|]. cbn [foldl list_find]. apply NoDup_cons in Hnd as [Hni Hnd].
  rewrite IH; [|done|].
  2:{ intros y Hy. rewrite lookup_insert_ne; [apply Hm; by right|]. intros E. apply Hni. rewrite E. by apply (list_elem_of_fmap_2 sf_path). }
  destruct (decide (sf_path x = p)) as [<-|Hne].
  - assert (list_find (λ f, sf_path f = sf_path x) l = None) as ->; [|by rewrite lookup_insert_eq].
    apply list_find_None, Forall_forall. intros y Hy E. apply Hni. rewrite <- E. by apply (list_elem_of_fmap_2 sf_path).
  - destruct (list_find _ l) as [[]|]; [done|]. by rewrite lookup_insert_ne.
Qed.

(** The files of a listing are as the other operations see them. *)
Lemma listing_sizes store root access files l p :
  root ≠ "" → (∀ files, walk root files ≡ₚ filter (below root) (map_to_list files)) →
  (∀ rel, os_normal rel → diff_paths (join_path root rel) root = Some rel) →
  rs_map store !! arena = Some root → sane_names root files → valid p → visible p →
  (list_files walk diff_paths store arena (options_of access) files).1 = Ok l →
  ((λ d, N.of_nat (length d)) <$> actual_data root access p files) =
    match list_find (λ f, sf_path f = p) l with Some (_, f) => Some (sf_size f) | None => None end.
Proof.
  intros Hr Hw Hd Hs Hsane Hp Hv Hl.
  destruct (list_run root Hr walk diff_paths Hw Hd store arena access files Hs Hsane) as (l' & E & _ & Hnd & _ & Hx).
  unfold options_of in Hl. rewrite E in Hl. injection Hl as ->. rewrite actual_data_spec by done. specialize (Hx p Hp Hv).
  destruct (list_find _ l) as [[i x]|] eqn:Ef.
  - apply list_find_Some in Ef as (Hi & Hxp & _). destruct (proj1 (Hx x)) as (a & f & Ha & Hf & ->).
    { split; [by eapply list_elem_of_lookup_2|done]. } rewrite Ha. simpl. rewrite Hf. done.
  - apply list_find_None in Ef. destruct (actual root access p files) as [a|] eqn:Ha; [|done].
    destruct (actual_exists _ _ _ _ _ Ha) as [f Hf]. exfalso.
    assert (synced p f ∈ l ∧ sf_path (synced p f) = p) as [Hin _] by (apply Hx; eauto).
    rewrite Forall_forall in Ef. by apply (Ef _ Hin).
Qed.

Definition sizes_fit (files : Fs) : Prop := ∀ k f, files !! k = Some f → f_len f + HASH_FILE_CHUNK ≤ u64_modulus.

Lemma collect_run s : sane_names src_root (src_files s) → sane_names dst_root (dst_files s) → sizes_fit (src_files s) →
  let '(r, s') := collect_files_to_sync src dst walk diff_paths progress arena s in
  src_files s' = src_files s ∧ dst_files s' = dst_files s ∧
  ∀ l, r = Ok l → Forall (entry_ok s) l ∧ NoDup ((λ e : Listed, sf_path e.1.2) <$> l) ∧
    list_files walk diff_paths src arena src_options (src_files s) = (Ok ((λ e : Listed, e.1.2) <$> l), src_files s).
Proof.
  intros Hss Hds Hfit. unfold collect_files_to_sync. unfold sbind at 1, try at 1.
  pose proof (call_ok_pure Src _ s (list_files_pure src src_options)) as H. destruct (call_ok Src _ s) as [r1 s1].
  destruct H as (A1 & A2 & _ & A3). unfold sbind at 1, try at 1.
  pose proof (call_ok_pure Dst _ s1 (list_files_pure dst dst_options)) as H. destruct (call_ok Dst _ s1) as [r2 s2].
  destruct H as (B1 & B2 & _ & B3). unfold sbind at 1, slift at 1. simpl files_of in *. rewrite A1, A2 in *.
  destruct r1 as [sl|e]; [|done]. unfold sbind at 1, slift at 1. destruct r2 as [dl|e]; [|done].
  set (pairs := pair_files _ _ _). unfold sbind.
  match goal with |- context [report progress ?e s2] => destruct (report_untouched e s2) as (s3 & -> & C1 & C2) end.
  unfold sret. rewrite C1, C2, B1, B2. split; [done|]. split; [done|]. intros l [= <-]. subst pairs.
  destruct (list_run src_root Hsrc_root walk diff_paths Hwalk_src Hdiff_src src arena Read _ Hsrc Hss) as (sl' & E & _ & Hnd & Hval & Hx).
  change ({| ignore_partial := bool_decide (Read = Read) |}) with src_options in E. rewrite E in A3. simpl in A3. injection A3 as <-.
  destruct (list_run dst_root Hdst_root walk diff_paths Hwalk_dst Hdiff_dst dst arena ReadWrite _ Hdst Hds) as (dl' & E' & _ & Hnd' & _).
  change ({| ignore_partial := bool_decide (ReadWrite = Read) |}) with dst_options in E'.
  rewrite E' in B3. simpl in B3. injection B3 as <-. rewrite pair_files_run by done. split_and!.
  - apply Forall_fmap, Forall_forall. intros x Hin. destruct (Hval x Hin) as [V1 V2]. specialize (V2 eq_refl). unfold compose, entry_ok. simpl.
    destruct (proj1 (Hx _ V1 V2 x) (conj Hin eq_refl)) as (a & f & Ha & Hf & Ex).
    unfold actual in Ha. simpl in Ha. destruct (bool_decide (is_Some (src_files s !! final_of src_root (sf_path x)))); [|done].
    injection Ha as <-. split_and!; [done..| | |].
    + rewrite Ex. simpl. by eapply Hfit.
    + exists (f_data f). unfold final_data. rewrite Hf. split; [done|]. by rewrite Ex.
    + rewrite (listing_sizes dst dst_root ReadWrite (dst_files s) dl') by (try done; change (options_of ReadWrite) with dst_options; by rewrite E').
      rewrite dst_map_lookup; [|done|intros; apply lookup_empty]. destruct (list_find _ dl') as [[]|]; [done|]. by rewrite lookup_empty.
  - by rewrite <- list_fmap_compose.
  - by rewrite <- list_fmap_compose, list_fmap_id.
Qed.
End dirs.

(** ** Properties *)

Section theorems.
Context (src dst : RealStore) (now : UnixTime) (digest : list byte → Hash).
Context (walk : string → Fs → list (string * File)) (diff_paths : string → string → option string).
Context (Signature Delta : Type) (calculate : list byte → Signature).
Context (deserialize_diff : Signature → list byte → result RsyncOperation Delta).
Context (apply_limited : list byte → Delta → N → option (list byte)).
Context (completed : list HashResult → list HashResult) (Hcompleted : ∀ l, completed l ≡ₚ l).
Context (progress : bool).
Context (arena : Arena) (src_root dst_root : string) (Hsrc_root : src_root ≠ "") (Hdst_root : dst_root ≠ "").
Context (Hsrc : rs_map src !! arena = Some src_root) (Hdst : rs_map dst !! arena = Some dst_root).
Context (Hzero : ∀ d, digest d ≠ Hash.zero).

Definition moving (src_file : SyncedFile) (dst_file : option SyncedFile) : MoveM () :=
  move_file src dst now digest Signature Delta calculate deserialize_diff apply_limited completed progress src_file dst_file arena.

(** Whatever becomes of the calls, refused, lost or repeated, moving a file never
    loses its content: the source keeps it and at most the partial file of the
    destination has changed, or the final file of the destination has it, as far as
    hashes tell; success means the latter, and that the source is gone. *)
Theorem move_keeps_content src_file dst_file s f
  (Hp : valid (sf_path src_file)) (Hv : visible (sf_path src_file)) (Hn : sf_size src_file + HASH_FILE_CHUNK ≤ u64_modulus)
  (Hlisted : listed dst_root (sf_path src_file) (sf_size src_file) src_file dst_file s)
  (Hfinal : final_data src_root (sf_path src_file) (src_files s) = Some f) (Hsize : sf_size src_file = N.of_nat (length f)) :
  let p := sf_path src_file in
  let '(r, s') := moving src_file dst_file s in
  (r = Ok () → final_data src_root p (src_files s') = None ∧
     ∃ g, final_data dst_root p (dst_files s') = Some g ∧ same_content digest f g) ∧
  (src_files s' = src_files s ∧ (∀ k, k ≠ partial_of dst_root p → dst_files s' !! k = dst_files s !! k) ∨
   ∃ g, final_data dst_root p (dst_files s') = Some g ∧ same_content digest f g).
Proof.
  intros p. destruct (hash_chunks (sf_size src_file) Hn) as (rs & Hrs & Ht).
  pose proof (move_file_run src dst now digest Signature Delta calculate deserialize_diff apply_limited completed Hcompleted progress
    arena src_root dst_root Hsrc_root Hdst_root Hsrc Hdst p Hp Hv (sf_size src_file) Hn Hzero src_file dst_file s f rs
    Hlisted Hfinal ltac:(rewrite Hsize; reflexivity) Hrs Ht) as H.
  unfold move_this in H. fold (moving src_file dst_file) in H. destruct (moving src_file dst_file s) as [r s'].
  assert (∀ g, moved digest src_root dst_root p (sf_size src_file) f g rs s s' →
    final_data dst_root p (dst_files s') = Some g ∧ same_content digest f g) as Hmoved.
  { intros g Hm. split; [by destruct Hm as (_ & [? _ _] & _)|]. rewrite Hsize in Hrs, Ht, Hm. by eapply moved_same. }
  destruct r as [[]|e].
  - destruct H as (g & Hm & Hdel). split; [|right; exists g; by apply Hmoved]. intros _. split; [|exists g; by apply Hmoved].
    rewrite Hdel. unfold final_data, deleted. rewrite lookup_delete_ne, lookup_delete_eq by by apply final_partial_ne. done.
  - split; [done|]. destruct H as [[H1 [H2 H3]]|[g Hm]]; [left|right; exists g; by apply Hmoved].
    split; [done|]. intros k Hk. destruct (decide (k = final_of dst_root p)) as [->|]; [done|by apply H3].
Qed.

(** A file that is empty is never moved: no attempt succeeds, and the source
    keeps it. *)
Theorem empty_file_never_moves src_file dst_file s f
  (Hp : valid (sf_path src_file)) (Hv : visible (sf_path src_file)) (Hempty : sf_size src_file = 0)
  (Hlisted : listed dst_root (sf_path src_file) 0 src_file dst_file s)
  (Hfinal : final_data src_root (sf_path src_file) (src_files s) = Some f) :
  ∃ e s', moving src_file dst_file s = (Err e, s') ∧ src_files s' = src_files s ∧
    final_data dst_root (sf_path src_file) (dst_files s') = final_data dst_root (sf_path src_file) (dst_files s).
Proof.
  assert (0 + HASH_FILE_CHUNK ≤ u64_modulus) as Hn by (vm_compute; done). destruct (hash_chunks 0 Hn) as (rs & Hrs & Ht).
  pose proof (move_file_run src dst now digest Signature Delta calculate deserialize_diff apply_limited completed Hcompleted progress
    arena src_root dst_root Hsrc_root Hdst_root Hsrc Hdst _ Hp Hv 0 Hn Hzero src_file dst_file s f rs Hlisted Hfinal ltac:(lia) Hrs Ht) as H.
  unfold move_this in H. fold (moving src_file dst_file) in H. destruct (moving src_file dst_file s) as [[[]|e] s'].
  - destruct H as (g & (H & _) & _). lia.
  - exists e, s'. split; [done|]. destruct H as [[H1 [H2 _]]|(g & H & _)]; [|lia]. split; [done|]. unfold final_data. by rewrite H2.
Qed.

(** C13: when every call is answered, when digests do not collide and the deltas can be
    applied, a file that is not empty is moved, whatever the destination had of it: what
    was listed of it is then the final file of the destination, and nothing is at the
    source; no other file changes.  There is one restriction: when the destination has
    no partial file and its final file has the same size, that size must fit in one hash
    chunk.  A file that is empty is never moved: the call fails and the source keeps
    it. *)
Theorem move_file_succeeds src_file dst_file s f
  (Hp : valid (sf_path src_file)) (Hv : visible (sf_path src_file)) (Hn : sf_size src_file + HASH_FILE_CHUNK ≤ u64_modulus)
  (Hf : sf_size src_file ≤ N.of_nat (length f))
  (Hcoll : ∀ o k d, digest d = digest (read_at o k f) → d = read_at o k f)
  (Hrsync : ∀ signed target base, length signed = length target → length base = length target →
     ∃ delta out, deserialize_diff (calculate signed) target = Ok delta ∧
       apply_limited base delta (N.of_nat (length target)) = Some out ∧ length out = length target)
  (Hlisted : listed dst_root (sf_path src_file) (sf_size src_file) src_file dst_file s)
  (Hready : ready src_root (sf_path src_file) f s) :
  let p := sf_path src_file in
  (0 < sf_size src_file → reusable dst_root p (sf_size src_file) s →
    ∃ s', moving src_file dst_file s = (Ok (), s') ∧
      final_data src_root p (src_files s') = None ∧
      final_data dst_root p (dst_files s') = Some (take (N.to_nat (sf_size src_file)) f) ∧
      partial_data dst_root p (dst_files s') = None ∧
      (∀ k, k ≠ final_of src_root p → k ≠ partial_of src_root p → src_files s' !! k = src_files s !! k) ∧
      ∀ k, k ≠ partial_of dst_root p → k ≠ final_of dst_root p → dst_files s' !! k = dst_files s !! k) ∧
  (sf_size src_file = 0 → ∃ e s', moving src_file dst_file s = (Err e, s') ∧ src_files s' = src_files s).
Proof.
  intros p. split.
  - intros Hpos Hreuse.
    destruct (move_now src dst now digest Signature Delta calculate deserialize_diff apply_limited completed Hcompleted progress
      arena src_root dst_root Hsrc_root Hdst_root Hsrc Hdst p Hp Hv (sf_size src_file) Hn Hzero f Hf Hcoll Hrsync Hpos
      src_file dst_file s Hlisted Hready Hreuse) as (s' & E & [F1 F2 F3] & D).
    exists s'. split; [exact E|]. split; [|split; [done|split; [done|split; [|done]]]].
    + rewrite D. unfold final_data, deleted.
      rewrite lookup_delete_ne, lookup_delete_eq by by apply final_partial_ne. done.
    + intros k Hk1 Hk2. rewrite D. unfold deleted. by rewrite !lookup_delete_ne.
  - intros H0. rewrite H0 in Hlisted. destruct Hready as [_ Hfinal].
    destruct (empty_file_never_moves src_file dst_file s f Hp Hv H0 Hlisted Hfinal) as (e & s' & E1 & E2 & _).
    by exists e, s'.
Qed.

Context (Hwalk_src : ∀ files, walk src_root files ≡ₚ filter (below src_root) (map_to_list files)).
Context (Hwalk_dst : ∀ files, walk dst_root files ≡ₚ filter (below dst_root) (map_to_list files)).
Context (Hdiff_src : ∀ rel, os_normal rel → diff_paths (join_path src_root rel) src_root = Some rel).
Context (Hdiff_dst : ∀ rel, os_normal rel → diff_paths (join_path dst_root rel) dst_root = Some rel).

(** C5: whatever becomes of the calls, moving an arena loses the content of no file:
    each file of the source is still there, or its content is the final file of the
    same path at the destination; and when it ends without an error, each file that the
    source lists is counted once, as moved, failed or out of time. *)
Theorem move_dir_keeps_content s
  (Hsane_src : sane_names src_root (src_files s)) (Hsane_dst : sane_names dst_root (dst_files s)) (Hfit : sizes_fit (src_files s)) :
  let '(r, s') := move_dir src dst now digest walk diff_paths Signature Delta calculate deserialize_diff apply_limited
    completed progress arena s in
  (∀ c, r = Ok c → ∃ l, list_files walk diff_paths src arena src_options (src_files s) = (Ok l, src_files s) ∧
     c.1.1 + c.1.2 + c.2 = N.of_nat (length l)) ∧
  ∀ p, valid p → visible p → ∀ f, final_data src_root p (src_files s) = Some f →
    final_data src_root p (src_files s') = Some f ∨
    ∃ g, final_data dst_root p (dst_files s') = Some g ∧ same_content digest f g.
Proof.
  unfold move_dir, move_dirs. cbn [collect_all]. unfold sbind, sret, try.
  pose proof (collect_run src dst walk diff_paths progress arena src_root dst_root Hsrc_root Hdst_root Hsrc Hdst
    Hwalk_src Hwalk_dst Hdiff_src Hdiff_dst s Hsane_src Hsane_dst Hfit) as H.
  destruct (collect_files_to_sync _ _ _ _ _ _ s) as [[l|e] s1]; destruct H as (S1 & D1 & H); unfold slift; cbn.
  2:{ split; [done|]. intros p _ _ f Hf. left. by rewrite S1. }
  destruct (H l eq_refl) as (Hok & Hnd & Hlist).
  assert (Forall (entry_ok arena src_root dst_root s1) l) as Hok1.
  { eapply Forall_impl; [exact Hok|]. intros e. apply entry_ok_untouched. by apply untouched_same. }
  destruct (move_all_run src dst now digest Signature Delta calculate deserialize_diff apply_limited completed Hcompleted progress
    arena src_root dst_root Hsrc_root Hdst_root Hsrc Hdst Hzero l (0, 0, 0) s1 Hok1 Hnd) as (c & s' & E & C & K).
  rewrite E. split.
  - intros c' [= <-]. eexists. split; [exact Hlist|]. rewrite length_fmap. simpl in C. lia.
  - intros p Hp Hv f Hf. destruct (K p Hp Hv) as [[K1|(f' & g & F & G & Hsame)] _].
    + left. by rewrite K1, S1.
    + right. exists g. split; [done|]. rewrite S1, Hf in F. by injection F as <-.
Qed.
End theorems.

(** ** Witnesses *)

Definition src2 : RealStore := RealStore.single arena1 "/s".
Definition dst2 : RealStore := RealStore.single arena1 "/d".
Definition digest2 (d : list byte) : Hash := mkHash (x01 :: d).
Definition diff_paths2 (a r : string) : option string := Str.strip_prefix (r +:+ "/") a.
Definition deserialize_diff2 (_ : ()) (target : list byte) : result RsyncOperation (list byte) := Ok target.
Definition apply_limited2 (_ delta : list byte) (_ : N) : option (list byte) := Some delta.
Definition completed2 (l : list HashResult) : list HashResult := l.

Definition listed2 (size : N) : SyncedFile := {| sf_path := path1; sf_size := size; sf_mtime := now1 |}.
Definition state2 (content : list byte) (replies : list Reply) : MoveState := {|
  src_files := {["/s/d/a.txt" := {| f_data := content; f_mtime := now1 |}]};
  dst_files := {["/d/d/.a.txt.part" := part1]};
  replies := replies;
  events := [];
|}.
Definition move2 (size : N) : MoveM () :=
  moving src2 dst2 now1 digest2 () (list byte) (λ _, ()) deserialize_diff2 apply_limited2 completed2 true arena1 (listed2 size) (Some (listed2 1)).
Definition abc : list byte := [x61; x62; x63]%byte.
(** The source answers late, then the destination is lost after having done the work. *)
Definition losses2 : list Reply := [Answered 2; Lost 1 DeadlineExceeded].

Lemma src2_root : rs_map src2 !! arena1 = Some "/s".
Proof. by vm_compute. Qed.
Lemma dst2_root : rs_map dst2 !! arena1 = Some "/d".
Proof. by vm_compute. Qed.
Lemma digest2_zero d : digest2 d ≠ Hash.zero.
Proof. by intros [=]. Qed.
Lemma diff_paths2_law root rel : root ≠ "" → diff_paths2 (join_path root rel) root = Some rel.
Proof. intros Hr. apply strip_prefix_Some. by rewrite join_root, app_assoc_str. Qed.

Lemma state2_listed size content replies : listed "/d" path1 size (listed2 size) (Some (listed2 1)) (state2 content replies).
Proof. split; vm_compute; reflexivity. Qed.

Lemma sane_singleton root rel f : os_normal rel → last_part rel ≠ ".part" → sane_names root {[join_path root rel := f]}.
Proof. intros H1 H2 rel' [g Hg]. apply lookup_singleton_Some in Hg as [E _]. apply join_path_inj in E as <-. done. Qed.

Lemma state2_fits replies : sizes_fit (src_files (state2 abc replies)).
Proof. intros k f H. cbn [src_files state2] in H. apply lookup_singleton_Some in H as [_ <-]. done. Qed.

Example move_keeps_content_witness :
  let s' := (move2 3 (state2 abc losses2)).2 in
  src_files s' = src_files (state2 abc losses2) ∧
    (∀ k, k ≠ partial_of "/d" path1 → dst_files s' !! k = dst_files (state2 abc losses2) !! k) ∨
  ∃ g, final_data "/d" path1 (dst_files s') = Some g ∧ same_content digest2 abc g.
Proof.
  pose proof (move_keeps_content src2 dst2 now1 digest2 () (list byte) (λ _, ()) deserialize_diff2 apply_limited2 completed2
    (λ l, Permutation_refl l) true arena1 "/s" "/d" ltac:(done) ltac:(done) src2_root dst2_root digest2_zero (listed2 3) (Some (listed2 1))
    (state2 abc losses2) abc path1_valid path1_visible ltac:(done) (state2_listed 3 abc losses2)
    ltac:(vm_compute; reflexivity) ltac:(reflexivity)) as H.
  fold (move2 3) in H. cbv zeta in H. destruct (move2 3 (state2 abc losses2)) as [r s']. exact (proj2 H).
Defined.

Example empty_file_never_moves_witness :
  ∃ e s', move2 0 (state2 [] []) = (Err e, s') ∧ src_files s' = src_files (state2 [] []).
Proof.
  destruct (empty_file_never_moves src2 dst2 now1 digest2 () (list byte) (λ _, ()) deserialize_diff2 apply_limited2 completed2
    (λ l, Permutation_refl l) true arena1 "/s" "/d" ltac:(done) ltac:(done) src2_root dst2_root digest2_zero (listed2 0) (Some (listed2 1))
    (state2 [] []) [] path1_valid path1_visible ltac:(reflexivity) (state2_listed 0 [] [])
    ltac:(vm_compute; reflexivity)) as (e & s' & H1 & H2 & _).
  exists e, s'. split; [exact H1|exact H2].
Defined.

Example move_file_succeeds_witness :
  ∃ s', move2 3 (state2 abc []) = (Ok (), s') ∧ final_data "/d" path1 (dst_files s') = Some abc.
Proof.
  destruct (move_file_succeeds src2 dst2 now1 digest2 () (list byte) (λ _, ()) deserialize_diff2 apply_limited2 completed2
    (λ l, Permutation_refl l) true arena1 "/s" "/d" ltac:(done) ltac:(done) src2_root dst2_root digest2_zero (listed2 3) (Some (listed2 1))
    (state2 abc []) abc path1_valid path1_visible ltac:(done) ltac:(done)
    ltac:(intros o k d H; by injection H)
    ltac:(intros signed target base _ _; exists target, target; split_and!; reflexivity)
    (state2_listed 3 abc []) ltac:(split; vm_compute; reflexivity)) as [H _].
  destruct H as (s' & H1 & _ & H2 & _); [reflexivity|by intros _ _|]. exists s'. split; [exact H1|exact H2].
Defined.

Example move_dir_keeps_content_witness :
  ∃ g, let s' := (move_dir src2 dst2 now1 digest2 walk1 diff_paths2 () (list byte) (λ _, ()) deserialize_diff2 apply_limited2
    completed2 true arena1 (state2 abc losses2)).2 in
  (final_data "/s" path1 (src_files s') = Some g ∨ final_data "/d" path1 (dst_files s') = Some g) ∧ same_content digest2 abc g.
Proof.
  pose proof (move_dir_keeps_content src2 dst2 now1 digest2 walk1 diff_paths2 () (list byte) (λ _, ()) deserialize_diff2 apply_limited2
    completed2 (λ l, Permutation_refl l) true arena1 "/s" "/d" ltac:(done) ltac:(done) src2_root dst2_root digest2_zero
    (λ files, Permutation_refl _) (λ files, Permutation_refl _) (λ rel _, diff_paths2_law "/s" rel ltac:(done)) (λ rel _, diff_paths2_law "/d" rel ltac:(done))
    (state2 abc losses2) ltac:(apply (sane_singleton "/s" "d/a.txt"); [by repeat constructor|done])
    ltac:(apply (sane_singleton "/d" "d/.a.txt.part"); [by repeat constructor|done])
    (state2_fits losses2)) as H.
  destruct (move_dir _ _ _ _ _ _ _ _ _ _ _ _ _ _ (state2 abc losses2)) as [r s']. destruct H as [_ H].
  destruct (H path1 path1_valid path1_visible abc ltac:(vm_compute; reflexivity)) as [K|(g & K1 & K2)].
  - exists abc. split; [left; exact K|]. split; reflexivity.
  - exists g. split; [right; exact K1|exact K2].
Defined.
