(* ===== verification/Watcher.v ===== *)
(** * The filesystem watcher

    [crate/realize-storage/src/arena/watcher.rs] and the requests of [hasher.rs]: events
    of the filesystem, and what is found when the program starts, become additions to and
    removals from the index.

    What the operating system answers is a parameter that depends on the time
    ([Os], at each tick of the clock), and each question takes a tick.  The tasks of the
    watcher are a state machine ([do_turn]): the event loop, both catchups, the hashing
    of files and the loop that takes the hashes in.  A task stops between looking at the
    filesystem and acting on it where the code may wait there: before sending an event
    on the bounded channel, and before adding a hashed file.  The files of a directory
    are listed at once. *)
From Stdlib Require Import Strings.Byte.
From S2P Require Import Prelude Redb Path Types Db Dirty Index RealStore.
Local Open Scope N_scope.
Local Open Scope realize_scope.

(** ** The operating system *)

Inductive FileType : Type := RegularFile | Directory | OtherFile.
#[global] Instance FileType_eq_dec : EqDecision FileType.
Proof. solve_decision. Defined.

Record Metadata : Type := { m_type : FileType; m_len : N; m_mtime : UnixTime; m_nlink : N }.
#[global] Instance Metadata_eq_dec : EqDecision Metadata.
Proof. solve_decision. Defined.

(** [async_walkdir::DirEntry], with what its methods return *)
Record DirEntry : Type := { de_path : string; de_type : option FileType; de_metadata : option Metadata }.

Inductive Filtering : Type := Continue | IgnoreDir.

(** A file that was opened: its metadata, and its content when it can be read. *)
Record OpenFile : Type := { of_metadata : option Metadata; of_content : option (list byte) }.

Record Os : Type := {
  symlink_metadata : string → option Metadata;
  canonicalize : string → option string;
  open : string → option OpenFile;
  read_dir : string → bool;
  walk_dir : (DirEntry → Filtering) → string → list (option DirEntry);
}.

(** [notify::Event], as far as kinds are told apart *)
Inductive MetadataKind : Type := Permissions | Ownership | AnyMetadata | OtherMetadata.
Inductive EventKind : Type :=
| EvRemove | EvCreateFolder | EvCreateFile
| EvModifyName | EvModifyMetadata (kind : MetadataKind) | EvModifyData | EvOther.
Record Event : Type := { ev_kind : EventKind; ev_paths : list string }.

(** The event with one path that a catchup sends. *)
Definition event (kind : EventKind) (realpath : string) : Event := {| ev_kind := kind; ev_paths := [realpath] |}.

Record HashResult : Type := { hr_hash : Hash; hr_mtime : UnixTime; hr_size : N }.

Inductive WatchError : Type := NoPath | WatchIo | IndexFailed (e : StorageError).

(** ** State *)

(** A catchup: what it has still to look at, and the event it is sending. *)
Record Catchup (A : Type) : Type := { todo : list A; held : option Event }.
Arguments todo {A} _.
Arguments held {A} _.

Section watcher.
Context {R : Redb}.

(** The tasks of a watcher: the channel of events, the catchups, the files that are
    being hashed, the channel of hashes and the file that is about to be added. *)
Record Watch : Type := {
  world : World;
  clock : nat;
  watch_rx : list (option Event);
  removed_or_modified : Catchup (Path * IndexedFileTableEntry);
  added : Catchup (option DirEntry);
  requests : list (string * Path);
  hashed_rx : list (Path * option HashResult);
  adding : option (Path * HashResult);
}.

Definition set_world x s : Watch := {| world := x; clock := clock s; watch_rx := watch_rx s;
  removed_or_modified := removed_or_modified s; added := added s; requests := requests s; hashed_rx := hashed_rx s; adding := adding s |}.
Definition set_clock x s : Watch := {| world := world s; clock := x; watch_rx := watch_rx s;
  removed_or_modified := removed_or_modified s; added := added s; requests := requests s; hashed_rx := hashed_rx s; adding := adding s |}.
Definition set_watch_rx x s : Watch := {| world := world s; clock := clock s; watch_rx := x;
  removed_or_modified := removed_or_modified s; added := added s; requests := requests s; hashed_rx := hashed_rx s; adding := adding s |}.
Definition set_removed_or_modified x s : Watch := {| world := world s; clock := clock s; watch_rx := watch_rx s;
  removed_or_modified := x; added := added s; requests := requests s; hashed_rx := hashed_rx s; adding := adding s |}.
Definition set_added x s : Watch := {| world := world s; clock := clock s; watch_rx := watch_rx s;
  removed_or_modified := removed_or_modified s; added := x; requests := requests s; hashed_rx := hashed_rx s; adding := adding s |}.
Definition set_requests x s : Watch := {| world := world s; clock := clock s; watch_rx := watch_rx s;
  removed_or_modified := removed_or_modified s; added := added s; requests := x; hashed_rx := hashed_rx s; adding := adding s |}.
Definition set_hashed_rx x s : Watch := {| world := world s; clock := clock s; watch_rx := watch_rx s;
  removed_or_modified := removed_or_modified s; added := added s; requests := requests s; hashed_rx := x; adding := adding s |}.
Definition set_adding x s : Watch := {| world := world s; clock := clock s; watch_rx := watch_rx s;
  removed_or_modified := removed_or_modified s; added := added s; requests := requests s; hashed_rx := hashed_rx s; adding := x |}.

Definition WatchM (A : Type) : Type := StateM Watch WatchError A.

(** The index of local files. *)
Definition index_of (s : Watch) : IndexTables := index (db (world s)).

(** An operation on the index. *)
Definition in_index {A} (m : WorldM A) : WatchM A := λ s,
  let '(r, w) := m (world s) in
  (match r with Ok a => Ok a | Err e => Err (IndexFailed e) end, set_world w s).

(** [if let Err(err) = m { log }] *)
Definition ignore_error (m : WatchM ()) : WatchM () := λ s, (Ok (), (m s).2).

(** ** Builder *)

Record RealWatcherBuilder : Type := { bd_root : string; bd_exclude : list Path; bd_catchup : bool }.

Definition builder (root : string) : RealWatcherBuilder := {| bd_root := root; bd_exclude := []; bd_catchup := false |}.
Definition with_catchup (b : RealWatcherBuilder) : RealWatcherBuilder :=
  {| bd_root := bd_root b; bd_exclude := bd_exclude b; bd_catchup := true |}.
Definition exclude (path : Path) (b : RealWatcherBuilder) : RealWatcherBuilder :=
  {| bd_root := bd_root b; bd_exclude := bd_exclude b ++ [path]; bd_catchup := bd_catchup b |}.
Definition exclude_all (paths : list Path) (b : RealWatcherBuilder) : RealWatcherBuilder :=
  foldl (λ b path, exclude path b) b paths.

(** The worker, but for what is in the state. *)
Record RealWatcherWorker : Type := { rw_root : string; rw_exclude : list Path }.

Context (digest : list byte → Hash).
Context (diff_paths : string → string → option string).
Context (os : nat → Os).

(** A question to the operating system. *)
Definition ask {A} (f : Os → A) : WatchM A := λ s, (Ok (f (os (clock s))), set_clock (S (clock s)) s).

Definition only_regular (e : DirEntry) : Filtering :=
  match de_type e with
  | Some RegularFile | Some Directory => Continue
  | _ => IgnoreDir
  end.

(** [spawn]: the worker, and the state in which its tasks start. *)
Definition spawn (b : RealWatcherBuilder) (w : World) (now : nat) : result WatchError (RealWatcherWorker * Watch) :=
  match canonicalize (os now) (bd_root b) with
  | None => Err WatchIo
  | Some root =>
      Ok ({| rw_root := root; rw_exclude := bd_exclude b |},
          {| world := w; clock := S now; watch_rx := [];
             removed_or_modified := {| todo := if bd_catchup b then all_files (index (db w)) else []; held := None |};
             added := {| todo := if bd_catchup b then walk_dir (os (S now)) only_regular root else []; held := None |};
             requests := []; hashed_rx := []; adding := None |})
  end.

(** ** The worker *)

Context (wk : RealWatcherWorker).

(** [Path::from_real_path_in] *)
Definition to_model_path (path : string) : option Path :=
  match diff_paths path (rw_root wk) with
  | Some rel => match from_real_path rel with Ok p => Some p | Err _ => None end
  | None => None
  end.

Definition is_excluded (path : Path) : bool := existsb (λ e, Path.starts_with path e) (rw_exclude wk).

Definition file_is_readable (realpath : string) : WatchM bool := ask (λ o, bool_decide (is_Some (open o realpath))).

Definition file_or_dir_removed (realpath : string) : WatchM () :=
  match to_model_path realpath with
  | Some path => in_index (remove_file_or_dir path)
  | None => sret ()
  end.

(** [Hasher::request_hash] *)
Definition request_hash (realpath : string) (path : Path) : WatchM () :=
  smodify (λ s, set_requests (requests s ++ [(realpath, path)]) s).

Definition file_created_or_modified (realpath : string) (m : Metadata) : WatchM () :=
  let* canonical := ask (λ o, canonicalize o realpath) in
  match canonical with
  | None => sthrow WatchIo
  | Some canonical =>
      if negb (bool_decide (canonical = realpath)) then sret ()
      else match to_model_path realpath with
      | None => sret ()
      | Some path =>
          if is_excluded path then sret ()
          else
            let* matching := sget (λ s, has_matching_file (index_of s) path (m_len m) (m_mtime m)) in
            if (matching : bool) then sret ()
            else if m_len m =? 0 then in_index (add_file path 0 (m_mtime m) (digest []))
            else request_hash realpath path
      end
  end.

(** A turn of the loop of [dir_created_or_modified]. *)
Definition dir_entry (direntry : option DirEntry) : WatchM () :=
  match direntry with
  | None => sret ()
  | Some direntry =>
      if negb (bool_decide (de_type direntry = Some RegularFile)) then sret ()
      else match to_model_path (de_path direntry), de_metadata direntry with
      | Some _, Some m => ignore_error (file_created_or_modified (de_path direntry) m)
      | _, _ => sret ()
      end
  end.

Definition dir_created_or_modified (dirpath : string) : WatchM () :=
  let* direntries := ask (λ o, walk_dir o only_regular dirpath) in
  sfor direntries dir_entry.

(** [ev.paths.last().ok_or(..)] *)
Definition last_path (ev : Event) : WatchM string := slift (ok_or NoPath (last (ev_paths ev))).

(** A path of a renaming. *)
Definition renamed (realpath : string) : WatchM () :=
  let* m := ask (λ o, symlink_metadata o realpath) in
  match m with
  | Some m =>
      match m_type m with
      | RegularFile => file_created_or_modified realpath m
      | Directory => dir_created_or_modified realpath
      | OtherFile => sret ()
      end
  | None => file_or_dir_removed realpath
  end.

Definition handle_event (ev : Event) : WatchM () :=
  match ev_kind ev with
  | EvRemove =>
      let* realpath := last_path ev in
      file_or_dir_removed realpath
  | EvCreateFolder =>
      let* realpath := last_path ev in
      let* m := ask (λ o, symlink_metadata o realpath) in
      match m with
      | None => sthrow WatchIo
      | Some m => if bool_decide (m_type m = Directory) then dir_created_or_modified realpath else sret ()
      end
  | EvCreateFile =>
      let* realpath := last_path ev in
      let* m := ask (λ o, symlink_metadata o realpath) in
      match m with
      | Some m =>
          if bool_decide (m_type m = RegularFile) && ((1 <? m_nlink m) || (m_len m =? 0))
          then file_created_or_modified realpath m
          else sret ()
      | None => sret ()
      end
  | EvModifyName => sfor (ev_paths ev) renamed
  | EvModifyMetadata OtherMetadata => sret ()
  | EvModifyMetadata _ =>
      let* realpath := last_path ev in
      let* m := ask (λ o, symlink_metadata o realpath) in
      match m with
      | None => file_or_dir_removed realpath
      | Some m =>
          if bool_decide (m_type m = Directory) then
            let* ok := ask (λ o, read_dir o realpath) in
            if (ok : bool) then dir_created_or_modified realpath else file_or_dir_removed realpath
          else
            let* readable := file_is_readable realpath in
            if (readable : bool) then file_created_or_modified realpath m else file_or_dir_removed realpath
      end
  | EvModifyData =>
      let* realpath := last_path ev in
      let* m := ask (λ o, symlink_metadata o realpath) in
      match m with
      | None => sthrow WatchIo
      | Some m => if bool_decide (m_type m = RegularFile) then file_created_or_modified realpath m else sret ()
      end
  | EvOther => sret ()
  end.

(** ** Tasks *)

(** What [catchup_removed_or_modified] sends about a file of the index. *)
Definition look_indexed (path : Path) (entry : IndexedFileTableEntry) : WatchM (option Event) :=
  let full_path := within path (rw_root wk) in
  if is_excluded path then sret (Some (event EvRemove full_path))
  else
    let* m := ask (λ o, symlink_metadata o full_path) in
    match m with
    | None => sret (Some (event EvRemove full_path))
    | Some m =>
        let* canonical := ask (λ o, canonicalize o full_path) in
        if match canonical with Some c => negb (bool_decide (c = full_path)) | None => false end
        then sret (Some (event EvRemove full_path))
        else
          let* readable := file_is_readable full_path in
          if negb readable then sret (Some (event EvRemove full_path))
          else if negb (m_len m =? ix_size entry) || negb (bool_decide (m_mtime m = ix_mtime entry))
          then sret (Some (event EvModifyData full_path))
          else sret None
    end.

(** What [catchup_added] sends about an entry of the directory. *)
Definition look_entry (direntry : option DirEntry) : WatchM (option Event) :=
  match direntry with
  | None => sret None
  | Some direntry =>
      if negb (bool_decide (de_type direntry = Some RegularFile)) then sret None
      else match to_model_path (de_path direntry) with
      | None => sret None
      | Some path =>
          let* known := sget (λ s, has_file (index_of s) path) in
          if (known : bool) then sret None
          else if is_excluded path then sret None
          else sret (Some (event EvModifyData (de_path direntry)))
      end
  end.

(** [do_hash] *)
Definition do_hash (realpath : string) : WatchM (option HashResult) :=
  ask (λ o,
    match open o realpath with
    | Some f =>
        match of_metadata f, of_content f with
        | Some m, Some data => Some {| hr_hash := digest data; hr_mtime := m_mtime m; hr_size := m_len m |}
        | _, _ => None
        end
    | None => None
    end).

(** The capacities of the channels. *)
Definition WATCH_CHANNEL : nat := 100.
Definition HASHED_CHANNEL : nat := 128.

Inductive Turn : Type :=
| HandleEvent | LookIndexed | SendRemovedOrModified | LookEntry | SendAdded
| HashFile (request : nat) | TakeHash | AddFile.

Definition send_event (held : option Event) (s : Watch) : option Watch :=
  match held with
  | Some ev => if (length (watch_rx s) <? WATCH_CHANNEL)%nat then Some (set_watch_rx (watch_rx s ++ [Some ev]) s) else None
  | None => None
  end.

(** A turn of a task, when it is not waiting.  An event is handled in one turn: the awaits
    of the index inside [handle_event] are not turns of their own. *)
Definition do_turn (t : Turn) (s : Watch) : option Watch :=
  match t with
  | HandleEvent =>
      match watch_rx s with
      | [] => None
      | None :: rest => Some (set_watch_rx rest s)
      | Some ev :: rest => Some (handle_event ev (set_watch_rx rest s)).2
      end
  | LookIndexed =>
      match removed_or_modified s with
      | {| todo := (path, entry) :: rest; held := None |} =>
          let '(r, s) := look_indexed path entry s in
          Some (set_removed_or_modified {| todo := rest; held := match r with Ok o => o | Err _ => None end |} s)
      | _ => None
      end
  | SendRemovedOrModified =>
      set_removed_or_modified {| todo := todo (removed_or_modified s); held := None |} <$> send_event (held (removed_or_modified s)) s
  | LookEntry =>
      match added s with
      | {| todo := direntry :: rest; held := None |} =>
          let '(r, s) := look_entry direntry s in
          Some (set_added {| todo := rest; held := match r with Ok o => o | Err _ => None end |} s)
      | _ => None
      end
  | SendAdded =>
      set_added {| todo := todo (added s); held := None |} <$> send_event (held (added s)) s
  | HashFile i =>
      match requests s !! i with
      | Some (realpath, path) =>
          if (length (hashed_rx s) <? HASHED_CHANNEL)%nat then
            let '(r, s) := do_hash realpath s in
            Some (set_hashed_rx (hashed_rx s ++ [(path, match r with Ok o => o | Err _ => None end)])
                    (set_requests (delete i (requests s)) s))
          else None
      | None => None
      end
  | TakeHash =>
      match adding s, hashed_rx s with
      | None, (path, Some h) :: rest =>
          let s := set_hashed_rx rest s in
          let '(m, s) := ask (λ o, symlink_metadata o (within path (rw_root wk))) s in
          match m with
          | Ok (Some m) =>
              if (m_len m =? hr_size h) && bool_decide (m_mtime m = hr_mtime h)
              then Some (set_adding (Some (path, h)) s) else Some s
          | _ => Some s
          end
      | None, (path, None) :: rest => Some (set_hashed_rx rest s)
      | _, _ => None
      end
  | AddFile =>
      match adding s with
      | Some (path, h) =>
          Some (ignore_error (in_index (add_file path (hr_size h) (hr_mtime h) (hr_hash h))) (set_adding None s)).2
      | None => None
      end
  end.
End watcher.

(** ** Room in the index *)

Section budget.
Context {R : Redb} `{!RedbLaws R}.
Implicit Types (w : World) (p : Path).

Definition index_size w : nat := length (tbl_iter (index_file_table (index (db w)))).

(** Room for the files of the index to be removed, and [n] files to be added and
    removed. *)
Definition budget (n : nat) w : Prop := room (index_size w + 2 * n) (db w).

Lemma budget_le n n' w : (n' ≤ n)%nat → budget n w → budget n' w.
Proof. unfold budget, room. lia. Qed.

Lemma log_length h files : log_ok h files → last_history_index h = N.of_nat (length (tbl_iter h)).
Proof.
  intros [Hk _ _]. assert (length (tbl_iter h).*1 = N.to_nat (last_history_index h)) as H.
  { rewrite Hk. unfold n_range. rewrite length_fmap, length_seq. lia. }
  rewrite length_fmap in H. lia.
Qed.

Lemma index_keys w k : k ∈ (tbl_iter (index_file_table (index (db w)))).*1 ↔ is_Some (get_file_entry (index (db w)) (mkPath k)).
Proof.
  unfold get_file_entry. simpl. rewrite list_elem_of_fmap. split.
  - intros ([k' e] & -> & H%elem_of_iter). simpl. by rewrite H.
  - intros [e He]. exists (k, e). by rewrite elem_of_iter.
Qed.

Lemma budget_add p size mtime hash w n : world_ok w → valid p → budget (S n) w →
  ∃ w', add_file p size mtime hash w = (Ok (), w') ∧
    add_file_post p {| ix_hash := hash; ix_mtime := mtime; ix_size := size; outdated_by := None |} w w' ∧ budget n w'.
Proof.
  intros Hw Hp Hb. destruct (add_file_run p size mtime hash w Hw Hp) as (w' & E & P).
  { unfold budget, room in *. lia. }
  exists w'. split; [done|]. split; [done|].
  assert (index_size w' ≤ S (index_size w))%nat as Hs.
  { unfold index_size. rewrite <- (length_fmap fst), <- (length_fmap fst (tbl_iter (index_file_table (index (db w))))).
    match goal with |- (_ ≤ S (length ?l))%nat => change (S (length l)) with (length (as_str p :: l)) end. apply submseteq_length, NoDup_submseteq; [apply range_NoDup|].
    intros k Hk%index_keys. rewrite (af_files _ _ _ _ P) in Hk. simpl in Hk. case_decide as Hd; [subst; by left|]. right. by apply index_keys. }
  assert (∃ k : nat, (k ≤ 1)%nat ∧ last_counter (dirty (db w')) = last_counter (dirty (db w)) + N.of_nat k ∧
    last_history_index (index_history_table (index (db w'))) = last_history_index (index_history_table (index (db w))) + N.of_nat k) as (k & Hk & E1 & E2).
  { destruct (wk_index _ Hw) as [f1 [L1 _ _]], (wk_index _ (af_ok _ _ _ _ P)) as [f2 [L2 _ _]].
    rewrite (log_length _ _ L1), (log_length _ _ L2). pose proof (af_log _ _ _ _ P) as H.
    assert (∀ ev, logged w w' p ev → last_counter (dirty (db w')) = last_counter (dirty (db w)) + N.of_nat 1 ∧
      N.of_nat (length (tbl_iter (index_history_table (index (db w'))))) = N.of_nat (length (tbl_iter (index_history_table (index (db w))))) + N.of_nat 1) as Hl.
    { intros ev [H1 H2 _]. rewrite H1, length_app, (md_counter _ _ _ H2). simpl. split; lia. }
    destruct (get_file_entry (index (db w)) p); [|exists 1%nat; split; [lia|]; by eapply Hl].
    case_decide; [|exists 1%nat; split; [lia|]; by eapply Hl]. exists 0%nat. destruct H as [-> ->]. split_and!; lia. }
  unfold budget, room in *. rewrite E1, E2. lia.
Qed.

Lemma budget_remove p w n : world_ok w → budget n w →
  ∃ w', remove_file_or_dir p w = (Ok (), w') ∧ remove_post p w w' ∧ budget n w'.
Proof.
  intros Hw Hb. set (gone := (under (index (db w)) p).*1).
  assert (NoDup gone) as Hnd by (unfold gone, under; apply NoDup_fst_filter, range_NoDup).
  assert (∀ k, k ∈ gone → k ∈ (tbl_iter (index_file_table (index (db w)))).*1) as Hsub.
  { intros k [Hk _]%under_spec. by apply index_keys. }
  assert (length gone ≤ index_size w)%nat as Hlen.
  { unfold index_size. rewrite <- (length_fmap fst). by apply submseteq_length, NoDup_submseteq. }
  destruct (remove_run p w Hw) as (w' & E & P).
  { unfold gone in Hlen. rewrite length_fmap in Hlen. unfold budget, room in *. lia. }
  exists w'. split; [done|]. split; [done|].
  assert (length gone + index_size w' ≤ index_size w)%nat as Hs.
  { unfold index_size. rewrite <- (length_fmap fst), <- (length_fmap fst (tbl_iter (index_file_table (index (db w))))), <- length_app.
    apply submseteq_length, NoDup_submseteq.
    - apply NoDup_app. split; [done|]. split; [|apply range_NoDup]. intros k [_ Hk]%under_spec Hk'%index_keys.
      rewrite (rm_files _ _ _ P), Hk in Hk'. by destruct Hk'.
    - intros k [Hk|Hk%index_keys]%elem_of_app; [by apply Hsub|]. apply index_keys.
      rewrite (rm_files _ _ _ P) in Hk. destruct (Path.starts_with _ _); [by destruct Hk|done]. }
  destruct (wk_index _ Hw) as [f1 [L1 _ _]], (wk_index _ (rm_ok _ _ _ P)) as [f2 [L2 _ _]].
  pose proof (f_equal length (rm_history _ _ _ P)) as Hh. rewrite length_app, !length_fmap in Hh.
  pose proof (md_counter _ _ _ (rm_dirty _ _ _ P)) as Hc. unfold gone in *. rewrite length_fmap in *.
  unfold budget, room in *. rewrite Hc, (log_length _ _ L2). rewrite (log_length _ _ L1) in Hb. lia.
Qed.
End budget.

(** ** What the watcher may do to the index *)

Section sound.
Context {R : Redb} `{!RedbLaws R}.
Context (digest : list byte → Hash) (diff_paths : string → string → option string) (os : nat → Os) (wk : RealWatcherWorker).
(** No directory has more entries. *)
Context (most : nat) (Hmost : ∀ t f d, (length (walk_dir (os t) f d) ≤ most)%nat).
(** The paths that were in the index at the start. *)
Context (before : Path → Prop).
Implicit Types (s : Watch) (p : Path).

(** A path that may be added. *)
Definition admitted p : Prop := valid p ∧ is_excluded wk p = false.

Record sound s : Prop := {
  sd_world : world_ok (world s);
  sd_files : ∀ p, is_Some (get_file_entry (index_of s) p) → before p ∨ is_excluded wk p = false;
  sd_requests : ∀ r p, (r, p) ∈ requests s → admitted p;
  sd_hashed : ∀ p h, (p, h) ∈ hashed_rx s → admitted p;
  sd_adding : ∀ p h, adding s = Some (p, h) → admitted p;
}.

Definition ok (n : nat) s : Prop := sound s ∧ budget n (world s).

Lemma ok_le n n' s : (n' ≤ n)%nat → ok n s → ok n' s.
Proof. intros Hn [H1 H2]. split; [done|]. by eapply budget_le. Qed.

(** A computation that keeps soundness and adds at most [n] files. *)
Definition spends {A} (n : nat) (m : WatchM A) : Prop := ∀ s k, ok (n + k) s → ok k (m s).2.

Lemma spends_weaken {A} n n' (m : WatchM A) : (n ≤ n')%nat → spends n m → spends n' m.
Proof. intros Hn H s k Hk. apply H. eapply ok_le; [|exact Hk]. lia. Qed.
Lemma spends_lift {A} n (r : result WatchError A) : spends n (slift r).
Proof. intros s k H. eapply ok_le; [|exact H]. lia. Qed.
Lemma spends_ret {A} n (a : A) : spends n (sret a).
Proof. exact (spends_lift n (Ok a)). Qed.
Lemma spends_throw {A} n e : spends n (sthrow e : WatchM A).
Proof. exact (spends_lift n (Err e)). Qed.

Lemma spends_bind {A B} n n' (m : WatchM A) (k : A → WatchM B) : spends n m → (∀ a, spends n' (k a)) → spends (n + n') (sbind m k).
Proof.
  intros Hm Hk s i Hs. unfold sbind. rewrite <- Nat.add_assoc in Hs. pose proof (Hm s _ Hs) as H.
  destruct (m s) as [[a|e] s']; [by apply Hk|]. eapply ok_le; [|exact H]. lia.
Qed.

Lemma spends_get {A B} n (f : Watch → A) (k : A → WatchM B) : (∀ a, spends n (k a)) → spends n (sbind (sget f) k).
Proof. intros H s i Hs. by apply H. Qed.

Lemma spends_last n ev {B} (k : string → WatchM B) : (∀ a, spends n (k a)) → spends n (sbind (last_path ev) k).
Proof. intros H. apply (spends_bind 0); [apply spends_lift|done]. Qed.

Lemma ok_clock n x s : ok n s → ok n (set_clock x s).
Proof. intros [[H1 H2 H3 H4 H5] Hb]. split; [by split|done]. Qed.

Lemma spends_ask {A B} n (f : Os → A) (k : A → WatchM B) : (∀ t, spends n (k (f (os t)))) → spends n (sbind (ask os f) k).
Proof. intros H s i Hs. unfold sbind, ask. by apply H, ok_clock. Qed.

Lemma spends_ignore n m : spends n m → spends n (ignore_error m).
Proof. intros H s k Hs. by apply H. Qed.

Lemma spends_for {A} n (l : list A) (k : A → WatchM ()) : (∀ x, spends n (k x)) → spends (length l * n) (sfor l k).
Proof.
  intros H. induction l as [|x l IH]; [apply spends_ret|]. simpl. apply spends_bind; [done|]. by intros _.
Qed.

Lemma spends_remove n p : spends n (in_index (remove_file_or_dir p)).
Proof.
  intros s k [[H1 H2 H3 H4 H5] Hb]. apply (budget_le _ k) in Hb; [|lia].
  unfold in_index. destruct (budget_remove p (world s) k H1 Hb) as (w' & -> & P & Hb'). split; [|done]. split; try done; [apply P|].
  intros q Hq. apply H2. unfold index_of in *. simpl in Hq. rewrite (rm_files _ _ _ P) in Hq.
  destruct (Path.starts_with _ _); [by destruct Hq|done].
Qed.

Lemma spends_add p size mtime hash : admitted p → spends 1 (in_index (add_file p size mtime hash)).
Proof.
  intros [Hp Hx] s k [[H1 H2 H3 H4 H5] Hb]. unfold in_index.
  destruct (budget_add p size mtime hash (world s) k H1 Hp Hb) as (w' & -> & P & Hb'). split; [|done]. split; try done; [apply P|].
  intros q Hq. unfold index_of in *. simpl in Hq. rewrite (af_files _ _ _ _ P) in Hq.
  case_decide as E; [right|by apply H2]. assert (q = p) as -> by (destruct p, q; simpl in E; by subst). done.
Qed.

Lemma spends_request n realpath p : admitted p → spends n (request_hash realpath p).
Proof.
  intros Hp s k [[H1 H2 H3 H4 H5] Hb]. split; [|by eapply budget_le; [|exact Hb]; lia]. split; try done.
  intros r q [Hq|Hq]%elem_of_app; [by eapply H3|]. by apply list_elem_of_singleton in Hq as [= _ ->].
Qed.

Lemma to_model_valid realpath p : to_model_path diff_paths wk realpath = Some p → valid p.
Proof.
  unfold to_model_path. destruct (diff_paths _ _) as [rel|]; [|done]. rewrite from_real_path_parse.
  destruct (Path.parse rel) as [q|] eqn:E; [|done]. intros [= <-]. pose proof E as E'. apply parse_spec in E' as [-> _]. exact E.
Qed.

Lemma spends_removed n realpath : spends n (file_or_dir_removed diff_paths wk realpath).
Proof. unfold file_or_dir_removed. destruct (to_model_path _ _ _); [apply spends_remove|apply spends_ret]. Qed.

Lemma spends_created realpath m : spends 1 (file_created_or_modified digest diff_paths os wk realpath m).
Proof.
  unfold file_created_or_modified. apply spends_ask. intros t. destruct (canonicalize _ _) as [c|]; [|apply spends_throw].
  destruct (negb _); [apply spends_ret|]. destruct (to_model_path _ _ _) as [p|] eqn:E; [|apply spends_ret].
  apply to_model_valid in E. destruct (is_excluded wk p) eqn:Ex; [apply spends_ret|]. apply spends_get. intros []; [apply spends_ret|].
  destruct (m_len m =? 0); [by apply spends_add|by apply spends_request].
Qed.

Lemma spends_entry e : spends 1 (dir_entry digest diff_paths os wk e).
Proof.
  unfold dir_entry. destruct e as [e|]; [|apply spends_ret]. destruct (negb _); [apply spends_ret|].
  destruct (to_model_path _ _ _); [|apply spends_ret]. destruct (de_metadata e); [|apply spends_ret]. apply spends_ignore, spends_created.
Qed.

Lemma spends_dir path : spends most (dir_created_or_modified digest diff_paths os wk path).
Proof.
  unfold dir_created_or_modified. apply spends_ask. intros t. eapply spends_weaken; [|apply (spends_for 1), spends_entry].
  specialize (Hmost t only_regular path). lia.
Qed.

Lemma spends_renamed path : spends (S most) (renamed digest diff_paths os wk path).
Proof.
  unfold renamed. apply spends_ask. intros t. destruct (symlink_metadata _ _) as [m|]; [|apply spends_removed].
  destruct (m_type m); [|eapply spends_weaken; [|apply spends_dir]; lia|apply spends_ret].
  eapply spends_weaken; [|apply spends_created]. lia.
Qed.

(** How many files an event may add. *)
Definition event_cost (ev : Event) : nat := S (length (ev_paths ev)) * S most.

Lemma spends_event ev : spends (event_cost ev) (handle_event digest diff_paths os wk ev).
Proof.
  unfold event_cost. assert (∀ A (m : WatchM A), spends (S most) m → spends (S (length (ev_paths ev)) * S most) m) as Hw.
  { intros A m. apply spends_weaken. lia. }
  assert (∀ r m, spends (S most) (file_created_or_modified digest diff_paths os wk r m)) as Hc.
  { intros r m. eapply spends_weaken; [|apply spends_created]. lia. }
  assert (∀ r, spends (S most) (dir_created_or_modified digest diff_paths os wk r)) as Hd.
  { intros r. eapply spends_weaken; [|apply spends_dir]. lia. }
  assert (spends (S most) (
    let* realpath := last_path ev in
    let* m := ask os (λ o, symlink_metadata o realpath) in
    match m with
    | None => file_or_dir_removed diff_paths wk realpath
    | Some m =>
        if bool_decide (m_type m = Directory) then
          let* ok := ask os (λ o, read_dir o realpath) in
          if (ok : bool) then dir_created_or_modified digest diff_paths os wk realpath
          else file_or_dir_removed diff_paths wk realpath
        else
          let* readable := file_is_readable os realpath in
          if (readable : bool) then file_created_or_modified digest diff_paths os wk realpath m
          else file_or_dir_removed diff_paths wk realpath
    end)) as Hm.
  { apply spends_last. intros r. apply spends_ask. intros t. destruct (symlink_metadata _ _); [|apply spends_removed].
    case_bool_decide; apply spends_ask; intros t'; [destruct (read_dir _ _); [apply Hd|apply spends_removed]|].
    case_bool_decide; [apply Hc|apply spends_removed]. }
  unfold handle_event. destruct (ev_kind ev) as [| | | |[]| |].
  - apply Hw, spends_last. intros r. apply spends_removed.
  - apply Hw, spends_last. intros r. apply spends_ask. intros t. destruct (symlink_metadata _ _); [|apply spends_throw].
    case_bool_decide; [apply Hd|apply spends_ret].
  - apply Hw, spends_last. intros r. apply spends_ask. intros t. destruct (symlink_metadata _ _); [|apply spends_ret].
    destruct (_ && _); [apply Hc|apply spends_ret].
  - eapply spends_weaken; [|apply (spends_for (S most)), spends_renamed]. lia.
  - apply Hw, Hm.
  - apply Hw, Hm.
  - apply Hw, Hm.
  - apply spends_ret.
  - apply Hw, spends_last. intros r. apply spends_ask. intros t. destruct (symlink_metadata _ _); [|apply spends_throw].
    case_bool_decide; [apply Hc|apply spends_ret].
  - apply spends_ret.
Qed.

(** ** Turns *)

(** How many files a turn may add. *)
Definition turn_cost (t : Turn) s : nat :=
  match t with
  | HandleEvent => match watch_rx s with Some ev :: _ => event_cost ev | _ => 0 end
  | AddFile => 1
  | _ => 0
  end.

Lemma ok_frame n s s' : ok n s → world s' = world s →
  (∀ r p, (r, p) ∈ requests s' → (r, p) ∈ requests s) →
  (∀ p h, (p, h) ∈ hashed_rx s' → (p, h) ∈ hashed_rx s ∨ ∃ r, (r, p) ∈ requests s) →
  (∀ p h, adding s' = Some (p, h) → adding s = Some (p, h) ∨ ∃ h, (p, h) ∈ hashed_rx s) → ok n s'.
Proof.
  intros [[H1 H2 H3 H4 H5] Hb] E E1 E2 E3. split; [|by rewrite E]. split; unfold index_of; rewrite ?E; [done|done|..].
  - intros r p Hr. by eapply H3, E1.
  - intros p h [Hh|[r Hr]]%E2; [by eapply H4|by eapply H3].
  - intros p h [Hh|[h' Hh]]%E3; [by eapply H5|by eapply H4].
Qed.

Lemma look_indexed_frame path entry s :
  let '(_, s') := look_indexed os wk path entry s in s' = set_clock (clock s') s.
Proof.
  unfold look_indexed. destruct (is_excluded wk path); [by destruct s|]. unfold sbind, ask, file_is_readable, sret, ask. simpl.
  destruct (symlink_metadata _ _) as [m|]; [|done]. simpl. destruct (canonicalize _ _) as [c|]; simpl;
    [destruct (negb _); [done|]|]; destruct (negb _); simpl; try done; by destruct (_ || _).
Qed.

Lemma look_entry_frame e s : (look_entry diff_paths wk e s).2 = s.
Proof.
  unfold look_entry. destruct e as [e|]; [|done]. destruct (negb _); [done|]. destruct (to_model_path _ _ _); [|done].
  unfold sbind, sget. destruct (has_file _ _); [done|]. by destruct (is_excluded _ _).
Qed.

Lemma turn_ok t s s' k : do_turn digest diff_paths os wk t s = Some s' → ok (turn_cost t s + k) s → ok k s'.
Proof.
  assert (∀ n s s', n = 0%nat → ok (n + k) s → world s' = world s →
    (∀ r p, (r, p) ∈ requests s' → (r, p) ∈ requests s) →
    (∀ p h, (p, h) ∈ hashed_rx s' → (p, h) ∈ hashed_rx s ∨ ∃ r, (r, p) ∈ requests s) →
    (∀ p h, adding s' = Some (p, h) → adding s = Some (p, h) ∨ ∃ h, (p, h) ∈ hashed_rx s) → ok k s') as Hf.
  { intros n s0 s1 -> H. by apply ok_frame. }
  destruct t as [| | | | |i| |]; cbn [do_turn turn_cost].
  - destruct (watch_rx s) as [|[ev|] rest]; [done|..]; intros [= <-] H; [|by eapply Hf; eauto].
    apply (spends_event ev). by eapply ok_frame; eauto.
  - destruct (removed_or_modified s) as [[|[p e] rest] []]; try done. pose proof (look_indexed_frame p e s) as E.
    destruct (look_indexed _ _ _ _ _) as [r s1]. intros [= <-] H. rewrite E. by eapply Hf; eauto.
  - unfold send_event. destruct (held _); [|done]. destruct (_ <? _)%nat; [|done]. intros [= <-] H. by eapply Hf; eauto.
  - destruct (added s) as [[|e rest] []]; try done. pose proof (look_entry_frame e s) as E.
    destruct (look_entry _ _ _ _) as [r s1]. simpl in E. subst. intros [= <-] H. by eapply Hf; eauto.
  - unfold send_event. destruct (held _); [|done]. destruct (_ <? _)%nat; [|done]. intros [= <-] H. by eapply Hf; eauto.
  - destruct (requests s !! i) as [[r p]|] eqn:Ei; [|done]. destruct (_ <? _)%nat; [|done]. intros [= <-] H.
    eapply Hf; [done|exact H|done| | |eauto]; simpl.
    + intros r' p' Hin. by eapply list_elem_of_delete_inv.
    + intros p' h [Hin|Hin]%elem_of_app; [by left|right]. apply list_elem_of_singleton in Hin as [= -> _]. exists r.
      by eapply list_elem_of_lookup_2.
  - destruct (adding s) eqn:Ea; [done|]. destruct (hashed_rx s) as [|[p [h|]] rest] eqn:Eh; [done|..].
    + assert (∀ s1, world s1 = world s → requests s1 = requests s → hashed_rx s1 = rest →
        (adding s1 = None ∨ adding s1 = Some (p, h)) → ok (0 + k) s → ok k s1) as Ht.
      { intros s1 E1 E2 E3 E4 H. eapply Hf; [done|exact H|done|by rewrite E2| |].
        - intros q h' Hin. left. rewrite Eh. right. by rewrite <- E3.
        - intros q h' Hq. right. rewrite Hq in E4. destruct E4 as [|[= -> ->]]; [done|]. eexists. rewrite Eh. by left. }
      unfold ask. destruct (symlink_metadata _ _) as [m|]; [destruct (_ && _)|]; intros [= <-]; apply Ht; simpl; auto.
    + intros [= <-] H. eapply Hf; [done|exact H|done|eauto| |]; simpl; [|eauto]. intros q h Hin. left. rewrite Eh. by right.
  - destruct (adding s) as [[p h]|] eqn:Ea; [|done]. intros [= <-] H. pose proof H as [[_ _ _ _ H5] _].
    pose proof (H5 p h Ea) as Hp. apply (spends_ignore 1); [by apply spends_add|]. by eapply ok_frame; eauto.
Qed.

(** A watcher at work while events come in and others use the index, but do not add
    files to it. *)
Inductive watch_step : relation Watch :=
| ws_turn t s s' : do_turn digest diff_paths os wk t s = Some s' → budget (turn_cost t s) (world s) → watch_step s s'
| ws_notify ev s : (length (watch_rx s) < WATCH_CHANNEL)%nat → watch_step s (set_watch_rx (watch_rx s ++ [ev]) s)
| ws_later s : watch_step s (set_clock (S (clock s)) s)
| ws_index w' s : world_ok w' →
    (∀ p, is_Some (get_file_entry (index (db w')) p) → is_Some (get_file_entry (index_of s) p)) →
    watch_step s (set_world w' s).

Lemma sound_frame s s' : sound s → world s' = world s → requests s' = requests s → hashed_rx s' = hashed_rx s →
  adding s' = adding s → sound s'.
Proof. intros [H1 H2 H3 H4 H5] E1 E2 E3 E4. split; unfold index_of; rewrite ?E1, ?E2, ?E3, ?E4; done. Qed.

Lemma watch_step_sound s s' : watch_step s s' → sound s → sound s'.
Proof.
  destruct 1 as [t s s' Ht Hb|ev s _|s|w' s Hw Hf]; intros Hs.
  - apply (turn_ok t s s' 0 Ht). rewrite Nat.add_0_r. by split.
  - by eapply sound_frame.
  - by eapply sound_frame.
  - destruct Hs as [H1 H2 H3 H4 H5]. split; try done. intros p Hp. by apply H2, Hf.
Qed.
End sound.

(** ** Catching up with a disk that does not change *)

Section settle.
Context {R : Redb} `{!RedbLaws R}.
Context (digest : list byte → Hash) (diff_paths : string → string → option string) (o : Os) (wk : RealWatcherWorker).
Implicit Types (s : Watch) (p q : Path).

Definition full p : string := within p (rw_root wk).

Lemma full_inj p q : full p = full q → p = q.
Proof. intros E%join_path_inj. destruct p, q. simpl in E. by subst. Qed.

(** A regular file that is not reached through a symbolic link. *)
Definition regular p (m : Metadata) : Prop :=
  symlink_metadata o (full p) = Some m ∧ m_type m = RegularFile ∧ canonicalize o (full p) = Some (full p).

#[local] Instance regular_dec p m : Decision (regular p m).
Proof. unfold regular. apply _. Defined.

(** What there is to rely on: the files and the directories can be read, and walking
    the root gives all of them. *)
Record disk_ok : Prop := {
  dk_open p m : valid p → regular p m →
    ∃ d, open o (full p) = Some {| of_metadata := Some m; of_content := Some d |} ∧ m_len m = N.of_nat (length d);
  dk_diff rel : os_normal rel → diff_paths (join_path (rw_root wk) rel) (rw_root wk) = Some rel;
  dk_names e : Some e ∈ walk_dir o only_regular (rw_root wk) → ∃ rel, de_path e = join_path (rw_root wk) rel ∧ os_normal rel;
  dk_walk p m : valid p → regular p m →
    ∃ e, Some e ∈ walk_dir o only_regular (rw_root wk) ∧ de_path e = full p ∧ de_type e = Some RegularFile;
  dk_canonical r : is_Some (open o r) → is_Some (canonicalize o r);
  dk_above p q m : valid p → valid q → regular q m → Path.starts_with q p = true → p ≠ q →
    is_Some (symlink_metadata o (full p)) ∧ canonicalize o (full p) = Some (full p) ∧ is_Some (open o (full p));
}.
Context (Hdisk : disk_ok).

(** The index at the start. *)
Context (init : Path → option IndexedFileTableEntry).
(** A file that was indexed, and in whose place there is now a directory or a device. *)
Definition replaced p : Prop :=
  is_Some (init p) ∧ canonicalize o (full p) = Some (full p) ∧
  ∃ m, symlink_metadata o (full p) = Some m ∧ m_type m ≠ RegularFile.

Definition same_stat (m : Metadata) (e : IndexedFileTableEntry) : bool :=
  (ix_size e =? m_len m) && bool_decide (ix_mtime e = m_mtime m).

Definition data_of p : list byte :=
  match open o (full p) with Some f => default [] (of_content f) | None => [] end.
Definition fresh p (m : Metadata) : IndexedFileTableEntry :=
  {| ix_hash := digest (data_of p); ix_mtime := m_mtime m; ix_size := m_len m; outdated_by := None |}.

(** What the index is to say of a path: an entry that still matches is kept. *)
Definition wanted p : option IndexedFileTableEntry :=
  match symlink_metadata o (full p) with
  | Some m =>
      if bool_decide (regular p m) && negb (is_excluded wk p) then
        match init p with
        | Some e => if same_stat m e then Some e else Some (fresh p m)
        | None => Some (fresh p m)
        end
      else None
  | None => None
  end.

(** A path of which a new version is to be added. *)
Definition due p : Prop :=
  valid p ∧ is_excluded wk p = false ∧ ∃ m, regular p m ∧ wanted p = Some (fresh p m) ∧
    (∀ e, init p = Some e → same_stat m e = false).

(** A path where there is nothing to index, nor below. *)
Definition gone p : Prop :=
  is_excluded wk p = true ∨ symlink_metadata o (full p) = None ∨
  (∃ c, canonicalize o (full p) = Some c ∧ c ≠ full p) ∨ open o (full p) = None.

Lemma to_model_full p : valid p → to_model_path diff_paths wk (full p) = Some p.
Proof.
  intros Hp. unfold to_model_path, full, within. rewrite (dk_diff Hdisk) by by apply valid_normal.
  rewrite from_real_path_parse. unfold valid in Hp. by rewrite Hp.
Qed.

Lemma wanted_regular p e : wanted p = Some e → ∃ m, regular p m ∧ is_excluded wk p = false.
Proof.
  unfold wanted. destruct (symlink_metadata _ _) as [m|]; [|done]. case_bool_decide as Hr; [|done].
  destruct (is_excluded wk p); [done|]. intros _. by exists m.
Qed.

Lemma regular_wanted p m : regular p m → is_excluded wk p = false →
  wanted p = match init p with Some e => if same_stat m e then Some e else Some (fresh p m) | None => Some (fresh p m) end.
Proof. intros Hr Hx. unfold wanted. rewrite (proj1 Hr), bool_decide_eq_true_2, Hx by done. done. Qed.

Lemma excluded_below p q : Path.starts_with q p = true → is_excluded wk p = true → is_excluded wk q = true.
Proof.
  intros Hqp. unfold is_excluded. rewrite !existsb_exists. intros (x & Hx & Hpx). exists x. split; [done|].
  apply starts_with_comps in Hqp as [l1 E1], Hpx as [l2 E2]. apply starts_with_comps. exists (l2 ++ l1). by rewrite E1, E2, <- app_assoc.
Qed.

Lemma gone_wanted p q : valid p → valid q → gone p → Path.starts_with q p = true → wanted q = None.
Proof.
  intros Hp Hq Hg Hs. destruct (wanted q) as [e|] eqn:E; [exfalso|done]. apply wanted_regular in E as (m & Hr & Hx).
  assert (is_Some (symlink_metadata o (full p)) ∧ canonicalize o (full p) = Some (full p) ∧ is_Some (open o (full p))) as (S1 & S2 & S3).
  { destruct (decide (p = q)) as [->|Hne]; [|by eapply (dk_above Hdisk p q)].
    destruct (dk_open Hdisk q m Hq Hr) as (d & E & _). destruct Hr as (H1 & _ & H2). by rewrite H1, E. }
  destruct Hg as [Hg|[Hg|[(c & Hc & Hne)|Hg]]].
  - apply (excluded_below p q Hs) in Hg. congruence.
  - rewrite Hg in S1. by destruct S1.
  - congruence.
  - rewrite Hg in S3. by destruct S3.
Qed.

(** ** Events of a catchup *)

Definition still : nat → Os := λ _, o.

Lemma matching_stat ix p m : has_matching_file ix p (m_len m) (m_mtime m) = default false (same_stat m <$> get_file_entry ix p).
Proof. unfold has_matching_file, same_stat. by destruct (get_file_entry ix p). Qed.

(** Handling a modification: there is nothing to do, or an empty file is added, or a
    hash is requested. *)
Lemma modify_run p s s' : valid p →
  (handle_event digest diff_paths still wk (event EvModifyData (full p)) s).2 = s' →
  (∃ c, s' = set_clock c s ∧
     ∀ m, regular p m → is_excluded wk p = false → ∃ e, get_file_entry (index_of s) p = Some e ∧ same_stat m e = true) ∨
  (∃ m c, regular p m ∧ is_excluded wk p = false ∧
     (∀ e, get_file_entry (index_of s) p = Some e → same_stat m e = false) ∧
     (m_len m = 0 ∧ s' = set_clock c (set_world (add_file p 0 (m_mtime m) (digest []) (world s)).2 s) ∨
      s' = set_clock c (set_requests (requests s ++ [(full p, p)]) s))).
Proof.
  intros Hp. unfold handle_event, last_path, event. cbn [ev_kind ev_paths last].
  unfold sbind at 1, slift at 1. cbn [ok_or]. unfold sbind at 1, ask at 1. unfold still at 1.
  destruct (symlink_metadata o (full p)) as [m|] eqn:Em.
  2:{ intros <-. left. exists (S (clock s)). split; [done|]. intros m [? _]. congruence. }
  case_bool_decide as Ht.
  2:{ intros <-. left. exists (S (clock s)). split; [done|]. intros m' (? & ? & _). congruence. }
  unfold file_created_or_modified, sbind at 1, ask at 1. unfold still at 1.
  destruct (canonicalize o (full p)) as [c|] eqn:Ec.
  2:{ intros <-. left. eexists. split; [done|]. intros m' (_ & _ & ?). congruence. }
  destruct (bool_decide_reflect (c = full p)) as [->|Hc]; cbn [negb].
  2:{ intros <-. left. eexists. split; [done|]. intros m' (_ & _ & ?). congruence. }
  rewrite to_model_full by done. assert (regular p m) as Hr by done.
  destruct (is_excluded wk p) eqn:Hx; [intros <-; by left; eexists; split|]. unfold sbind at 1, sget at 1. rewrite matching_stat.
  change (index_of (set_clock _ (set_clock _ s))) with (index_of s).
  assert (∀ b : bool, b = default false (same_stat m <$> get_file_entry (index_of s) p) → b = false →
    ∀ e, get_file_entry (index_of s) p = Some e → same_stat m e = false) as Hno.
  { intros b Hb -> e E. rewrite E in Hb. by simpl in Hb. }
  destruct (default false _) eqn:Ed.
  - intros <-. left. eexists. split; [done|]. intros m' (Hm' & _). destruct (get_file_entry (index_of s) p) as [e|]; [|done].
    exists e. split; [done|]. simpl in Ed. congruence.
  - specialize (Hno _ eq_refl eq_refl). unfold in_index, request_hash, smodify. destruct (N.eqb_spec (m_len m) 0) as [H0|H0]; intros <-; right; exists m.
    + eexists. split_and!; [done..|]. left. split; [done|]. simpl. destruct (add_file _ _ _ _ _). reflexivity.
    + eexists. split_and!; [done..|]. right. reflexivity.
Qed.

Lemma remove_event_handled p s : valid p →
  (handle_event digest diff_paths still wk (event EvRemove (full p)) s).2 = set_world (remove_file_or_dir p (world s)).2 s.
Proof.
  intros Hp. unfold handle_event, last_path, event, file_or_dir_removed. cbn [ev_kind ev_paths last].
  unfold sbind, slift. cbn [ok_or]. rewrite to_model_full by done. unfold in_index. by destruct (remove_file_or_dir _ _).
Qed.

(** What [catchup_removed_or_modified] finds. *)
Lemma look_indexed_run p e s : valid p → init p = Some e →
  ∃ c ev, look_indexed still wk p e s = (Ok ev, set_clock c s) ∧
    match ev with
    | Some ev => ev = event EvRemove (full p) ∧ gone p ∨ ev = event EvModifyData (full p) ∧ is_excluded wk p = false ∧ (¬ replaced p → is_Some (wanted p))
    | None => ¬ replaced p → wanted p = Some e
    end.
Proof.
  intros Hp He. unfold look_indexed. fold (full p). destruct (is_excluded wk p) eqn:Hx.
  { exists (clock s). eexists. split; [by destruct s|]. left. split; [done|]. by left. }
  unfold sbind at 1, ask at 1. unfold still at 1. destruct (symlink_metadata o (full p)) as [m|] eqn:Em.
  2:{ eexists _, _. split; [done|]. left. split; [done|]. right. by left. }
  unfold sbind at 1, ask at 1. unfold still at 1. destruct (canonicalize o (full p)) as [c|] eqn:Ec.
  - destruct (bool_decide_reflect (c = full p)) as [->|Hc]; cbn [negb].
    2:{ eexists _, _. split; [done|]. left. split; [done|]. right. right. left. by exists c. }
    unfold sbind, file_is_readable, ask. unfold still at 1.
    destruct (decide (is_Some (open o (full p)))) as [Ho|Ho];
      [rewrite (bool_decide_eq_true_2 (is_Some _)) by done|rewrite (bool_decide_eq_false_2 (is_Some _)) by done]; cbn [negb].
    2:{ eexists _, _. split; [done|]. left. split; [done|]. do 3 right. by apply eq_None_not_Some. }
    assert (¬ replaced p → wanted p = Some (if same_stat m e then e else fresh p m)) as Hw.
    { intros Hk. assert (regular p m) as Hr.
      { split_and!; [done| |done]. destruct (decide (m_type m = RegularFile)); [done|]. destruct Hk.
        split_and!; [by eexists|done|by exists m]. }
      rewrite (regular_wanted p m Hr Hx), He. by destruct (same_stat m e). }
    unfold same_stat in Hw. rewrite (N.eqb_sym (ix_size e)) in Hw.
    replace (bool_decide (ix_mtime e = m_mtime m)) with (bool_decide (m_mtime m = ix_mtime e)) in Hw by (apply bool_decide_ext; done).
    destruct (m_len m =? ix_size e); [destruct (bool_decide (m_mtime m = ix_mtime e))|]; cbn in Hw |- *;
      eexists _, _; (split; [done|]); [done|right..]; (split_and!; [done|done|intros Hk; rewrite Hw by done; done]).
  - unfold sbind, file_is_readable, ask. unfold still at 1.
    destruct (decide (is_Some (open o (full p)))) as [Ho|Ho];
      [rewrite (bool_decide_eq_true_2 (is_Some _)) by done|rewrite (bool_decide_eq_false_2 (is_Some _)) by done]; cbn [negb].
    { destruct (dk_canonical Hdisk (full p) Ho) as [c Hc]. congruence. }
    eexists _, _. split; [done|]. left. split; [done|]. do 3 right. by apply eq_None_not_Some.
Qed.

(** ** The invariant of a catchup *)

Definition modify p : Event := event EvModifyData (full p).
Definition remove p : Event := event EvRemove (full p).

Lemma event_inj k k' p q : event k (full p) = event k' (full q) → k = k' ∧ p = q.
Proof. intros [= E1 E2]. split; [done|by apply full_inj]. Qed.

Definition pending ev s : Prop :=
  held (removed_or_modified s) = Some ev ∨ held (added s) = Some ev ∨ Some ev ∈ watch_rx s.

(** A new version of the path is on its way to the index. *)
Definition on_the_way p s : Prop :=
  pending (modify p) s ∨ (full p, p) ∈ requests s ∨ (∃ h, (p, h) ∈ hashed_rx s) ∨ (∃ h, adding s = Some (p, h)).

Definition get s p : option IndexedFileTableEntry := get_file_entry (index_of s) p.

(** The index says what it is to say of a path, or that is still to come. *)
Definition progress p s : Prop :=
  get s p = wanted p ∨
  (is_Some (wanted p) ∧ on_the_way p s) ∨
  (wanted p = None ∧ pending (remove p) s) ∨
  (∃ e, (p, e) ∈ todo (removed_or_modified s) ∧ get s p = Some e) ∨
  (get s p = None ∧ ∃ e, Some e ∈ todo (added s) ∧ de_path e = full p ∧ de_type e = Some RegularFile).

Definition result_of p (m : Metadata) : HashResult :=
  {| hr_hash := digest (data_of p); hr_mtime := m_mtime m; hr_size := m_len m |}.

(** What is left to do: each step takes something off it. *)
Definition flag {A} (x : option A) : nat := match x with Some _ => 1 | None => 0 end.
Definition weight s : nat :=
  7 * length (todo (removed_or_modified s)) + 6 * flag (held (removed_or_modified s)) +
  7 * length (todo (added s)) + 6 * flag (held (added s)) +
  5 * length (watch_rx s) + 4 * length (requests s) + 3 * length (hashed_rx s) + 2 * flag (adding s).

(** What is under way makes sense. *)
Record tidy s : Prop := {
  ti_events ev : pending ev s →
    ∃ p, valid p ∧ (ev = modify p ∧ is_excluded wk p = false ∨ ev = remove p ∧ gone p);
  ti_queue : None ∉ watch_rx s;
  ti_requests r p : (r, p) ∈ requests s → r = full p ∧ due p;
  ti_hashed p h : (p, h) ∈ hashed_rx s → due p ∧ ∃ m, regular p m ∧ h = Some (result_of p m);
  ti_adding p h : adding s = Some (p, h) → due p ∧ ∃ m, regular p m ∧ h = result_of p m;
  ti_todo p e : (p, e) ∈ todo (removed_or_modified s) → valid p ∧ init p = Some e;
  ti_entries e : Some e ∈ todo (added s) → Some e ∈ walk_dir o only_regular (rw_root wk);
}.

Record settling s : Prop := {
  se_world : world_ok (world s);
  se_budget : budget (weight s) (world s);
  se_tidy : tidy s;
  se_index p : valid p → get s p = init p ∨ get s p = wanted p;
  se_progress p : valid p → ¬ replaced p → progress p s;
}.

Lemma progress_keep p s s' : get s' p = get s p → (on_the_way p s → on_the_way p s') →
  (pending (remove p) s → pending (remove p) s') →
  (∀ e, (p, e) ∈ todo (removed_or_modified s) → (p, e) ∈ todo (removed_or_modified s')) →
  (∀ e, Some e ∈ todo (added s) → de_path e = full p → Some e ∈ todo (added s')) → progress p s → progress p s'.
Proof.
  intros E H1 H2 H3 H4. unfold progress. rewrite E. intros [H|[[H H']|[[H H']|[(e & H & H')|(H & e & Ha & Hb & Hc)]]]]; [by left|..].
  - right. left. auto.
  - right. right. left. auto.
  - do 3 right. left. eauto.
  - do 4 right. split; [done|]. exists e. auto.
Qed.

(** Steps that leave the index alone. *)
Lemma settling_idle s s' : world s' = world s → (weight s' ≤ weight s)%nat → tidy s' → (∀ p, valid p → ¬ replaced p → progress p s') →
  settling s → settling s'.
Proof.
  intros E Hw Ht Hp [H1 H2 H3 H4 H5]. split; [by rewrite E|rewrite E; by eapply budget_le|done| |done].
  intros p Hv. unfold get, index_of. rewrite E. by apply H4.
Qed.

Lemma due_wanted p m : due p → regular p m → wanted p = Some (fresh p m).
Proof. intros (_ & _ & m' & (Hm' & _) & Hw & _) (Hm & _). congruence. Qed.

(** Adding the version that is due. *)
Lemma settling_add p m s s1 s' :
  settling s → due p → regular p m →
  world s' = (add_file p (m_len m) (m_mtime m) (digest (data_of p)) (world s)).2 →
  (weight s' < weight s)%nat → tidy s' →
  world s1 = world s → (∀ q, valid q → ¬ replaced q → q ≠ p → progress q s1) →
  (∀ q, q ≠ p → on_the_way q s1 → on_the_way q s') → (∀ q, pending (remove q) s1 → pending (remove q) s') →
  removed_or_modified s1 = removed_or_modified s' → added s1 = added s' →
  settling s'.
Proof.
  intros [H1 H2 H3 H4 H5] Hdue Hr E Hw Ht E1 Hprog Hon Hpend Er Ea. pose proof Hdue as (Hp & Hx & _).
  destruct (budget_add p (m_len m) (m_mtime m) (digest (data_of p)) (world s) (weight s') H1 Hp) as (w' & Ew & P & Hb).
  { eapply budget_le; [|exact H2]. lia. }
  rewrite Ew in E. simpl in E. pose proof (due_wanted p m Hdue Hr) as Hwant.
  assert (∀ q, get s' q = if decide (q = p) then wanted p else get s q) as Hget.
  { intros q. unfold get, index_of. rewrite E, (af_files _ _ _ _ P), Hwant. destruct (decide (q = p)) as [->|Hne].
    - by rewrite decide_True.
    - rewrite decide_False; [done|]. intros Eq. apply Hne. destruct p, q. simpl in Eq. by subst. }
  split; [rewrite E; apply P|by rewrite E|done|..]; intros q Hq; [|intros Hk].
  - rewrite Hget. destruct (decide (q = p)) as [->|]; [by right|by apply H4].
  - destruct (decide (q = p)) as [->|Hne]; [left; by rewrite Hget, decide_True|].
    eapply (progress_keep q s1); [|auto|auto|by rewrite Er|by rewrite Ea|auto].
    rewrite Hget, decide_False by done. unfold get, index_of. by rewrite E1.
Qed.

Lemma tidy_sub s s' : tidy s →
  (∀ ev, pending ev s' → pending ev s ∨ ∃ p, valid p ∧ (ev = modify p ∧ is_excluded wk p = false ∨ ev = remove p ∧ gone p)) →
  (∀ x, x ∈ watch_rx s' → x ∈ watch_rx s ∨ is_Some x) →
  (∀ x, x ∈ requests s' → x ∈ requests s ∨ ∃ p, x = (full p, p) ∧ due p) →
  (∀ p h, (p, h) ∈ hashed_rx s' → (p, h) ∈ hashed_rx s ∨ due p ∧ ∃ m, regular p m ∧ h = Some (result_of p m)) →
  (∀ p h, adding s' = Some (p, h) → adding s = Some (p, h) ∨ due p ∧ ∃ m, regular p m ∧ h = result_of p m) →
  (∀ x, x ∈ todo (removed_or_modified s') → x ∈ todo (removed_or_modified s)) →
  (∀ x, x ∈ todo (added s') → x ∈ todo (added s)) → tidy s'.
Proof.
  intros [T1 T2 T3 T4 T5 T6 T7] H1 H2 H3 H4 H5 H6 H7. split.
  - intros ev [H|H]%H1; auto.
  - intros [H|[x H]]%H2; done.
  - intros r p [H|(q & [= -> ->] & H)]%H3; auto.
  - intros p h [H|H]%H4; auto.
  - intros p h [H|H]%H5; auto.
  - intros p e H%H6. auto.
  - intros e H%H7. auto.
Qed.

(** The state after an event is taken from the channel. *)
Lemma taken s ev rest : watch_rx s = Some ev :: rest →
  (∀ ev', pending ev' (set_watch_rx rest s) → pending ev' s) ∧
  (∀ ev', pending ev' s → ev' = ev ∨ pending ev' (set_watch_rx rest s)) ∧
  (tidy s → tidy (set_watch_rx rest s)) ∧ weight s = (5 + weight (set_watch_rx rest s))%nat.
Proof.
  intros E. assert (∀ ev', pending ev' (set_watch_rx rest s) → pending ev' s) as H1.
  { intros ev' [H|[H|H]]; [by left|by right; left|]. right. right. rewrite E. by right. }
  split; [done|]. split; [|split].
  - intros ev' [H|[H|H]]; [right; by left|right; by right; left|]. rewrite E in H. apply elem_of_cons in H as [[= ->]|H]; [by left|].
    right. right. by right.
  - intros T. eapply tidy_sub; [exact T|eauto|..]; simpl; eauto. intros x Hx. left. rewrite E. by right.
  - unfold weight. rewrite E. simpl. lia.
Qed.

Lemma taken_progress s ev rest p k : watch_rx s = Some ev :: rest → ev = event k (full p) →
  ∀ q, q ≠ p → progress q s → progress q (set_watch_rx rest s).
Proof.
  intros E -> q Hne. destruct (taken s _ rest E) as (_ & H2 & _).
  assert (∀ k', pending (event k' (full q)) s → pending (event k' (full q)) (set_watch_rx rest s)) as Hk.
  { intros k' [[_ H]%event_inj|H]%H2; done. }
  apply progress_keep; [done| |apply Hk|done|done]. intros [H|H]; [left; by apply Hk|by right].
Qed.

Lemma removal_step s p rest : settling s → valid p → gone p → watch_rx s = Some (remove p) :: rest →
  let s' := set_world (remove_file_or_dir p (world s)).2 (set_watch_rx rest s) in settling s' ∧ (weight s' < weight s)%nat.
Proof.
  intros S Hp Hg E s'. pose proof S as [H1 H2 H3 H4 H5]. destruct (taken s _ rest E) as (T1 & T2 & T3 & T4).
  assert (weight s' = weight (set_watch_rx rest s)) as Ew by done. split; [|lia].
  destruct (budget_remove p (world s) (weight s') H1) as (w' & Er & P & Hb); [eapply budget_le; [|exact H2]; lia|].
  unfold s' in *. rewrite Er in *. simpl in *.
  assert (∀ q, get (set_world w' (set_watch_rx rest s)) q = if Path.starts_with q p then None else get s q) as Hget.
  { intros q. unfold get, index_of. simpl. apply P. }
  split; [apply P|done| |..].
  - destruct (T3 H3) as [? ? ? ? ? ? ?]. by split.
  - intros q Hq. rewrite Hget. destruct (Path.starts_with q p) eqn:Es; [right; by rewrite (gone_wanted p q)|by apply H4].
  - intros q Hq Hk. destruct (Path.starts_with q p) eqn:Es.
    + left. rewrite Hget, Es. by rewrite (gone_wanted p q).
    + assert (q ≠ p) as Hne.
      { intros ->. assert (Path.starts_with p p = true) by (apply starts_with_iff; by left). congruence. }
      eapply (progress_keep q (set_watch_rx rest s)); [|done..|eapply taken_progress; [exact E|done|done|by apply H5]].
      rewrite Hget, Es. done.
Qed.

Lemma modification_step s p rest : settling s → valid p → is_excluded wk p = false → watch_rx s = Some (modify p) :: rest →
  let s' := (handle_event digest diff_paths still wk (modify p) (set_watch_rx rest s)).2 in settling s' ∧ (weight s' < weight s)%nat.
Proof.
  intros S Hp Hx E. pose proof S as [H1 H2 H3 H4 H5]. destruct (taken s _ rest E) as (T1 & T2 & T3 & T4).
  set (s1 := set_watch_rx rest s) in *. cbv zeta.
  assert (∀ q, valid q → ¬ replaced q → q ≠ p → progress q s1) as Hothers.
  { intros q Hq Hk Hne. eapply taken_progress; [exact E|done|done|by apply H5]. }
  assert (∀ m, regular p m → (∀ e, get s p = Some e → same_stat m e = false) → due p) as Hdue.
  { intros m Hr Hno. split; [done|]. split; [done|]. exists m. pose proof (regular_wanted p m Hr Hx) as Hw. split; [done|].
    destruct (init p) as [e|] eqn:Ei; [|by rewrite Hw]. destruct (same_stat m e) eqn:Es.
    - exfalso. assert (get s p = Some e) as Hg by (destruct (H4 p Hp); congruence). specialize (Hno e Hg). congruence.
    - split; [done|]. by intros ? [= <-]. }
  destruct (handle_event digest diff_paths still wk (modify p) s1) as [r s'] eqn:Eh.
  pose proof (modify_run p s1 s' Hp) as Hrun. fold (modify p) in Hrun. rewrite Eh in Hrun. specialize (Hrun eq_refl).
  cbn [snd] in *. change (get_file_entry (index_of s1) p) with (get s p) in Hrun.
  destruct Hrun as [(c & -> & Hm)|(m & c & Hr & _ & Hno & [[H0 ->]| ->])].
  - split; [|change (weight (set_clock c s1)) with (weight s1); lia]. eapply (settling_idle s); [done| |by destruct (T3 H3); split| |done].
    { change (weight (set_clock c s1)) with (weight s1). lia. }
    intros q Hq Hk. destruct (decide (q = p)) as [->|Hne]; [|by eapply (progress_keep q s1); try done; apply Hothers].
    destruct (wanted p) as [e|] eqn:Ew.
    + left. change (get (set_clock c s1) p) with (get s p). destruct (wanted_regular p e Ew) as (m & Hr & _).
      destruct (Hm m Hr Hx) as (e' & Hg & Hs). rewrite Hg. destruct (H4 p Hp) as [Hi|Hi]; [|congruence].
      rewrite (regular_wanted p m Hr Hx), <- Hi, Hg, Hs. done.
    + pose proof (H5 p Hp Hk) as Hpr. unfold progress in *. change (get (set_clock c s1) p) with (get s p). rewrite Ew in *.
      destruct Hpr as [Hpr|[[[] _]|[[_ Hpr]|Hpr]]]; [by left|done| |by do 3 right].
      right. right. left. split; [done|]. apply T2 in Hpr as [Hpr|Hpr]; [|done]. by apply event_inj in Hpr as [? _].
  - assert (due p) as Hd by by eapply Hdue. destruct (dk_open Hdisk p m Hp Hr) as (d & Ed & El).
    assert (data_of p = []) as Hnil.
    { unfold data_of. rewrite Ed. simpl. destruct d; [done|]. simpl in El. lia. }
    split; [|change (weight _) with (weight s1) at 1; lia].
    eapply (settling_add p m s s1); try done; [by rewrite Hnil, H0|change (weight _) with (weight s1) at 1; lia|].
    by destruct (T3 H3); split.
  - assert (due p) as Hd by by eapply Hdue.
    assert (weight (set_clock c (set_requests (requests s1 ++ [(full p, p)]) s1)) = 4 + weight s1)%nat as Hwt.
    { unfold weight. simpl. rewrite length_app. simpl. lia. }
    split; [|lia]. eapply (settling_idle s); [done|lia| | |done].
    + eapply tidy_sub; [exact (T3 H3)|auto..|]; simpl; auto. intros x [Hin|Hin]%elem_of_app; [by left|].
      apply list_elem_of_singleton in Hin as ->. right. eauto.
    + intros q Hq Hk. destruct (decide (q = p)) as [->|Hne].
      * right. left. split; [by rewrite (due_wanted p m)|]. right. left. simpl. apply elem_of_app. right. by apply list_elem_of_singleton.
      * eapply (progress_keep q s1); try done; [|by apply Hothers]. intros [H|[H|H]]; [by left| |by right; right].
        right. left. simpl. apply elem_of_app. by left.
Qed.

Lemma gone_itself p : valid p → gone p → wanted p = None.
Proof. intros Hp Hg. apply (gone_wanted p p); [done..|]. apply starts_with_iff. by left. Qed.

(** Sending an event changes only where it is. *)
Lemma sent s s' : settling s → world s' = world s → (weight s' < weight s)%nat →
  (∀ ev, pending ev s' ↔ pending ev s) → (∀ x, x ∈ watch_rx s' → x ∈ watch_rx s ∨ is_Some x) →
  requests s' = requests s → hashed_rx s' = hashed_rx s → adding s' = adding s →
  todo (removed_or_modified s') = todo (removed_or_modified s) → todo (added s') = todo (added s) →
  settling s' ∧ (weight s' < weight s)%nat.
Proof.
  intros S E Hw Hp Hx E1 E2 E3 E4 E5. split; [|done]. pose proof S as [H1 H2 H3 H4 H5].
  apply (settling_idle s); [done|lia| | |done].
  - eapply tidy_sub; [exact H3|..]; rewrite ?E1, ?E2, ?E3, ?E4, ?E5; auto. intros ev Hev. left. by apply Hp.
  - intros q Hq Hk. eapply (progress_keep q s); rewrite ?E4, ?E5; auto.
    + unfold get, index_of. by rewrite E.
    + unfold on_the_way. by rewrite Hp, E1, E2, E3.
    + by rewrite Hp.
Qed.

Lemma look_indexed_step s p e rest : settling s → removed_or_modified s = {| todo := (p, e) :: rest; held := None |} →
  let '(r, s1) := look_indexed still wk p e s in
  let s' := set_removed_or_modified {| todo := rest; held := match r with Ok o => o | Err _ => None end |} s1 in
  settling s' ∧ (weight s' < weight s)%nat.
Proof.
  intros S E. pose proof S as [H1 H2 H3 H4 H5].
  destruct (ti_todo s H3 p e) as [Hp Hi]; [rewrite E; by left|].
  destruct (look_indexed_run p e s Hp Hi) as (c & ev & -> & Hev). cbv zeta.
  set (s' := set_removed_or_modified _ _).
  assert (weight s' < weight s)%nat as Hw.
  { unfold weight. rewrite E. simpl. destruct ev; simpl; lia. }
  assert (∀ ev', pending ev' s → pending ev' s') as Hpend.
  { intros ev' [H|H]; [by rewrite E in H|by right]. }
  split; [|done]. apply (settling_idle s); [done|lia| | |done].
  - eapply tidy_sub; [exact H3|..]; simpl; auto; [|rewrite E; by right].
    intros ev' [H|H]; [|by left; right]. simpl in H. subst ev. right. exists p.
    destruct Hev as [[-> Hg]|(-> & Hx & _)]; split; auto.
  - intros q Hq Hk. destruct (decide (q = p)) as [->|Hne].
    + unfold progress. change (get s' p) with (get s p). destruct ev as [ev|].
      * destruct Hev as [[-> Hg]|(-> & _ & Hx)]; right; [right; left|left].
        -- split; [by apply gone_itself|by left].
        -- split; [by apply Hx|]. left. by left.
      * left. specialize (Hev Hk). destruct (H4 p Hp); congruence.
    + eapply (progress_keep q s); [done| |by apply Hpend| |done|by apply H5].
      * intros [H|H]; [left; by apply Hpend|by right].
      * intros e'. rewrite E. intros [[= -> ->]|H]%elem_of_cons; done.
Qed.

Lemma look_entry_step s e rest : settling s → added s = {| todo := e :: rest; held := None |} →
  let '(r, s1) := look_entry diff_paths wk e s in
  let s' := set_added {| todo := rest; held := match r with Ok o => o | Err _ => None end |} s1 in
  settling s' ∧ (weight s' < weight s)%nat.
Proof.
  intros S E. pose proof S as [H1 H2 H3 H4 H5].
  assert (∃ ev, look_entry diff_paths wk e s = (Ok ev, s) ∧
    match ev with
    | Some ev => ∃ p, valid p ∧ ev = modify p ∧ is_excluded wk p = false
    | None => ∀ d p, e = Some d → valid p → de_path d = full p → de_type d = Some RegularFile → is_excluded wk p = true ∨ is_Some (get s p)
    end ∧ ∀ d p, e = Some d → valid p → de_path d = full p → ∀ ev', ev = Some ev' → ev' = modify p) as (ev & Er & Hev & Hev').
  { unfold look_entry. destruct e as [d|]; [|by exists None].
    destruct (bool_decide_reflect (de_type d = Some RegularFile)) as [Ht|Ht]; cbn [negb];
      [|exists None; split; [done|]; split; [|done]; by intros d' p [= <-] _ _ ?].
    assert (Some d ∈ walk_dir o only_regular (rw_root wk)) as Hd by (apply (ti_entries s H3); rewrite E; by left).
    destruct (dk_names Hdisk d Hd) as (rel & Erel & Hn).
    assert (∀ q, valid q → de_path d = full q → to_model_path diff_paths wk (de_path d) = Some q) as Hback.
    { intros q Hq ->. by apply to_model_full. }
    destruct (to_model_path diff_paths wk (de_path d)) as [p|] eqn:Ep.
    2:{ exists None. split; [done|]. split; [|done]. intros d' q [= <-] Hq Hqd. by specialize (Hback q Hq Hqd). }
    assert (de_path d = full p) as Hfull.
    { unfold to_model_path in Ep. rewrite Erel, (dk_diff Hdisk), from_real_path_parse in Ep by done.
      destruct (Path.parse rel) as [q|] eqn:Eq; [|done]. injection Ep as <-. apply parse_spec in Eq as [-> _]. by rewrite Erel. }
    assert (∀ q, de_path d = full q → q = p) as Hq by (intros q Hq; apply full_inj; congruence).
    unfold sbind, sget, has_file. case_bool_decide as Hg.
    { exists None. split; [done|]. split; [|done]. intros d' q [= <-] _ ->%Hq _. by right. }
    destruct (is_excluded wk p) eqn:Hx.
    { exists None. split; [done|]. split; [|done]. intros d' q [= <-] _ ->%Hq _. by left. }
    exists (Some (modify p)). split; [by rewrite Hfull|]. split; [exists p; split; [by eapply to_model_valid|done]|].
    by intros d' q [= <-] _ ->%Hq ev' [= <-]. }
  rewrite Er. cbv zeta. set (s' := set_added _ s).
  assert (weight s' < weight s)%nat as Hw.
  { unfold weight. rewrite E. simpl. destruct ev; simpl; lia. }
  assert (∀ ev', pending ev' s → pending ev' s') as Hpend.
  { intros ev' [H|[H|H]]; [by left|by rewrite E in H|by right; right]. }
  split; [|done]. apply (settling_idle s); [done|lia| | |done].
  - eapply tidy_sub; [exact H3|..]; simpl; auto; [|rewrite E; by right].
    intros ev' [H|[H|H]]; [by left; left| |by left; right; right]. simpl in H. subst ev. right.
    destruct Hev as (p & Hp & -> & Hx). exists p. split; auto.
  - intros q Hq Hk. pose proof (H5 q Hq Hk) as Hpr.
    assert (get s q = None ∧ (∃ d, e = Some d ∧ de_path d = full q ∧ de_type d = Some RegularFile) ∨
      ¬ (get s q = None ∧ ∃ d, e = Some d ∧ de_path d = full q ∧ de_type d = Some RegularFile)) as [(Hg & d & -> & Hd & Ht)|Hne].
    { destruct (get s q); [right; by intros []|]. destruct e as [d|]; [|right; by intros (_ & ? & ? & _)].
      destruct (decide (de_path d = full q ∧ de_type d = Some RegularFile)) as [Hd|Hd]; [left; eauto|right].
      intros (_ & ? & [= <-] & ?). by destruct Hd. }
    + unfold progress. change (get s' q) with (get s q). destruct ev as [ev|].
      * pose proof (Hev' d q eq_refl Hq Hd ev eq_refl) as ->. destruct (wanted q) eqn:Ew; [|left; by rewrite Hg].
        right. left. split; [done|]. left. right. by left.
      * left. destruct (Hev d q eq_refl Hq Hd Ht) as [Hx|Hx]; [|rewrite Hg in Hx; by destruct Hx]. rewrite Hg.
        destruct (wanted q) eqn:Ew; [|done]. apply wanted_regular in Ew as (? & _ & ?). congruence.
    + destruct Hpr as [Hpr|[[Ha Hpr]|[[Ha Hpr]|[Hpr|(Hg & d & Hd & Hp & Ht)]]]]; unfold progress; change (get s' q) with (get s q).
      * by left.
      * right. left. split; [done|]. destruct Hpr as [Hpr|Hpr]; [left; by apply Hpend|by right].
      * right. right. left. split; [done|]. by apply Hpend.
      * do 3 right. by left.
      * do 4 right. split; [done|]. exists d. split; [|done]. rewrite E in Hd. apply elem_of_cons in Hd as [Hd|Hd]; [|done].
        destruct Hne. split; [done|]. by exists d.
Qed.

(** A hash that is due moves on: from a request to a result, to the index. *)
Lemma passed_on s s' : settling s → world s' = world s → (weight s' < weight s)%nat → tidy s' →
  removed_or_modified s' = removed_or_modified s → added s' = added s → watch_rx s' = watch_rx s →
  (∀ q, on_the_way q s → on_the_way q s') → settling s' ∧ (weight s' < weight s)%nat.
Proof.
  intros S E Hw Ht E1 E2 E3 Hon. split; [|done]. pose proof S as [H1 H2 H3 H4 H5].
  apply (settling_idle s); [done|lia|done| |done]. intros q Hq Hk.
  eapply (progress_keep q s); [| |unfold pending; by rewrite E1, E2, E3|by rewrite E1|by rewrite E2|by apply H5]; [|auto].
  unfold get, index_of. by rewrite E.
Qed.

Lemma hash_step s i p : settling s → requests s !! i = Some (full p, p) →
  let '(r, s1) := do_hash digest still (full p) s in
  let s' := set_hashed_rx (hashed_rx s1 ++ [(p, match r with Ok o => o | Err _ => None end)]) (set_requests (delete i (requests s1)) s1) in
  settling s' ∧ (weight s' < weight s)%nat.
Proof.
  intros HS Hi. pose proof HS as [H1 H2 H3 H4 H5].
  destruct (ti_requests s H3 (full p) p) as [_ Hd]; [by eapply list_elem_of_lookup_2|].
  pose proof Hd as (Hp & _ & m & Hr & _). destruct (dk_open Hdisk p m Hp Hr) as (d & Ed & _).
  unfold do_hash, ask. unfold still. rewrite Ed. cbn [of_metadata of_content]. cbv zeta.
  assert ({| hr_hash := digest d; hr_mtime := m_mtime m; hr_size := m_len m |} = result_of p m) as ->.
  { unfold result_of, data_of. by rewrite Ed. }
  apply passed_on; try done.
  - unfold weight. simpl. rewrite length_app, length_delete by by eexists. apply lookup_lt_Some in Hi. simpl. lia.
  - eapply tidy_sub; [exact H3|..]; simpl; auto.
    + intros x Hx. left. by eapply list_elem_of_delete_inv.
    + intros q h [Hq|Hq]%elem_of_app; [by left|]. apply list_elem_of_singleton in Hq as [= -> ->]. right. split; [done|]. by exists m.
  - intros q [H|[H|[[h H]|H]]]; [by left| | |by right; right; right].
    + apply list_elem_of_lookup in H as [j Hj]. destruct (decide (j = i)) as [->|Hne].
      * right. right. left. rewrite Hi in Hj. injection Hj as _ ->. eexists. simpl. apply elem_of_app. right. by apply list_elem_of_singleton.
      * right. left. simpl. rewrite (delete_take_drop (requests s) i). apply elem_of_app.
        destruct (decide (j < i)%nat) as [Hlt|Hge]; [left|right].
        -- apply list_elem_of_lookup. exists j. by rewrite lookup_take_lt.
        -- apply list_elem_of_lookup. exists (j - S i)%nat. rewrite lookup_drop. by replace (S i + (j - S i))%nat with j by lia.
    + right. right. left. exists h. simpl. apply elem_of_app. by left.
Qed.

Lemma take_hash_step s p h rest : settling s → adding s = None → hashed_rx s = (p, h) :: rest →
  ∃ m c, h = Some (result_of p m) ∧ symlink_metadata o (full p) = Some m ∧
    let s' := set_adding (Some (p, result_of p m)) (set_clock c (set_hashed_rx rest s)) in
    settling s' ∧ (weight s' < weight s)%nat.
Proof.
  intros S Ea Eh. pose proof S as [H1 H2 H3 H4 H5].
  destruct (ti_hashed s H3 p h) as (Hd & m & Hr & ->); [rewrite Eh; by left|]. exists m, (1 + clock s)%nat.
  split; [done|]. split; [apply Hr|]. cbv zeta. apply passed_on; try done.
  - unfold weight. rewrite Ea, Eh. simpl. lia.
  - eapply tidy_sub; [exact H3|..]; simpl; auto.
    + intros q h Hq. left. rewrite Eh. by right.
    + intros q h [= <- <-]. right. split; [done|]. by exists m.
  - intros q [H|[H|[[h H]|[h H]]]]; [by left|by right; left| |by rewrite Ea in H].
    rewrite Eh in H. apply elem_of_cons in H as [[= -> ->]|H]; [right; right; right; by eexists|]. right. right. left. by exists h.
Qed.

Lemma add_file_step s p h : settling s → adding s = Some (p, h) →
  let s' := set_world (add_file p (hr_size h) (hr_mtime h) (hr_hash h) (world s)).2 (set_adding None s) in
  settling s' ∧ (weight s' < weight s)%nat.
Proof.
  intros S Ea. pose proof S as [H1 H2 H3 H4 H5]. destruct (ti_adding s H3 p h Ea) as (Hd & m & Hr & ->). cbv zeta.
  set (s' := set_world _ _).
  assert (weight s' < weight s)%nat as Hw by (unfold weight; rewrite Ea; simpl; lia). split; [|done].
  assert (tidy (set_adding None s)) as Ht by (eapply tidy_sub; [exact H3|..]; simpl; auto; done).
  apply (settling_add p m s (set_adding None s) s'); try done.
  - destruct Ht; by split.
  - intros q Hq Hk Hne. eapply (progress_keep q s); try done; [|by apply H5].
    intros [H|[H|[H|[h' H]]]]; [by left|by right; left|by right; right; left|]. rewrite Ea in H. by injection H as ->.
Qed.

(** ** Every turn *)

Lemma settling_turn t s s' : do_turn digest diff_paths still wk t s = Some s' → settling s →
  settling s' ∧ (weight s' < weight s)%nat.
Proof.
  intros H S. pose proof S as [_ _ T _ _]. destruct t as [| | | | |i| |]; cbn [do_turn] in H.
  - destruct (watch_rx s) as [|[ev|] rest] eqn:E; [done| |by destruct (ti_queue s T); rewrite E; left]. injection H as <-.
    destruct (ti_events s T ev) as (p & Hp & [[-> Hx]|[-> Hg]]); [right; right; rewrite E; by left|by apply modification_step|].
    unfold remove. rewrite remove_event_handled by done. by apply (removal_step s p rest).
  - destruct (removed_or_modified s) as [[|[p e] rest] []] eqn:E; try done. pose proof (look_indexed_step s p e rest S E) as Hs.
    destruct (look_indexed _ _ _ _ _). injection H as <-. exact Hs.
  - unfold send_event in H. destruct (held (removed_or_modified s)) as [ev|] eqn:E; [|done].
    destruct (_ <? _)%nat; [|done]. injection H as <-. apply sent; try done.
    + unfold weight. simpl. rewrite E, length_app. simpl. lia.
    + intros ev'. unfold pending. simpl. rewrite E, elem_of_app, list_elem_of_singleton. naive_solver.
    + simpl. intros x [Hx|Hx]%elem_of_app; [by left|]. apply list_elem_of_singleton in Hx as ->. by right.
  - destruct (added s) as [[|e rest] []] eqn:E; try done. pose proof (look_entry_step s e rest S E) as Hs.
    destruct (look_entry _ _ _ _). injection H as <-. exact Hs.
  - unfold send_event in H. destruct (held (added s)) as [ev|] eqn:E; [|done].
    destruct (_ <? _)%nat; [|done]. injection H as <-. apply sent; try done.
    + unfold weight. simpl. rewrite E, length_app. simpl. lia.
    + intros ev'. unfold pending. simpl. rewrite E, elem_of_app, list_elem_of_singleton. naive_solver.
    + simpl. intros x [Hx|Hx]%elem_of_app; [by left|]. apply list_elem_of_singleton in Hx as ->. by right.
  - destruct (requests s !! i) as [[r p]|] eqn:E; [|done]. destruct (_ <? _)%nat; [|done].
    destruct (ti_requests s T r p) as [-> _]; [by eapply list_elem_of_lookup_2|]. pose proof (hash_step s i p S E) as Hs.
    destruct (do_hash _ _ _ _). injection H as <-. exact Hs.
  - destruct (adding s) eqn:Ea; [done|]. destruct (hashed_rx s) as [|[p h] rest] eqn:Eh; [done|].
    destruct (take_hash_step s p h rest S Ea Eh) as (m & c & -> & Hm & Hs). cbn [ask] in H. unfold ask, still in H.
    fold (full p) in H. rewrite Hm in H. cbn [result_of hr_size hr_mtime] in H. rewrite N.eqb_refl, bool_decide_eq_true_2 in H by done.
    injection H as <-. destruct Hs as [Hs Hw]. split; [|exact Hw].
    destruct Hs as [G1 G2 [? ? ? ? ? ? ?] G4 G5]. split; [done|done|by split|done|done].
  - destruct (adding s) as [[p h]|] eqn:E; [|done]. injection H as <-. pose proof (add_file_step s p h S E) as Hs.
    unfold ignore_error, in_index. simpl. destruct (add_file _ _ _ _ _). exact Hs.
Qed.

(** When there is nothing to do any more, the index is as it is to be, but for what
    took the place of a file. *)
Lemma settled s : settling s → (∀ t, do_turn digest diff_paths still wk t s = None) →
  ∀ p, valid p → (¬ replaced p → get s p = wanted p) ∧ (replaced p → get s p = init p ∨ get s p = None).
Proof.
  intros [H1 H2 H3 H4 H5] Hend p Hp. split.
  2:{ intros (_ & _ & m & Hm & Hk). destruct (H4 p Hp) as [H|H]; [by left|right]. rewrite H.
      destruct (wanted p) as [e|] eqn:Ew; [|done]. apply wanted_regular in Ew as (m' & (Hm' & Hr & _) & _). congruence. }
  intros Hk.
  assert (watch_rx s = []) as Eq.
  { specialize (Hend HandleEvent). simpl in Hend. by destruct (watch_rx s) as [|[]]. }
  assert (∀ A (c : Catchup A) f, f <$> send_event (held c) s = (None : option Watch) → held c = None) as Hheld.
  { intros A [l [ev|]] f Hs; [|done]. simpl in Hs. unfold send_event in Hs. by rewrite Eq in Hs. }
  pose proof (Hheld _ _ _ (Hend SendRemovedOrModified)) as Eh1. pose proof (Hheld _ _ _ (Hend SendAdded)) as Eh2.
  assert (todo (removed_or_modified s) = []) as El1.
  { specialize (Hend LookIndexed). simpl in Hend. destruct (removed_or_modified s) as [[|[q e] rest] []]; simpl in *; try done.
    by destruct (look_indexed _ _ _ _ _). }
  assert (todo (added s) = []) as El2.
  { specialize (Hend LookEntry). simpl in Hend. destruct (added s) as [[|e rest] []]; simpl in *; try done.
    by destruct (look_entry _ _ _ _). }
  assert (adding s = None) as Ea.
  { specialize (Hend AddFile). simpl in Hend. by destruct (adding s) as [[]|]. }
  assert (hashed_rx s = []) as Eh.
  { specialize (Hend TakeHash). simpl in Hend. rewrite Ea in Hend. destruct (hashed_rx s) as [|[q [h|]] rest]; [done|..]; try done.
    unfold ask in Hend. by destruct (still _), (symlink_metadata _ _); [destruct (_ && _)|]. }
  assert (requests s = []) as Er.
  { specialize (Hend (HashFile 0)). simpl in Hend. destruct (requests s) as [|[r q] rest]; [done|]. simpl in Hend. by rewrite Eh in Hend. }
  destruct (H5 p Hp Hk) as [H|[[_ H]|[[_ H]|[(e & H & _)|(_ & e & H & _)]]]]; [done|exfalso..].
  - destruct H as [[H|[H|H]]|[H|[[h H]|[h H]]]]; rewrite ?Eh1, ?Eh2, ?Eq, ?Er, ?Eh, ?Ea in H; try done; by apply elem_of_nil in H.
  - destruct H as [H|[H|H]]; rewrite ?Eh1, ?Eh2, ?Eq in H; try done. by apply elem_of_nil in H.
  - rewrite El1 in H. by apply elem_of_nil in H.
  - rewrite El2 in H. by apply elem_of_nil in H.
Qed.
End settle.

(** ** Properties *)

Section theorems.
Context {R : Redb} `{!RedbLaws R}.
Context (digest : list byte → Hash) (diff_paths : string → string → option string).
Implicit Types (s : Watch) (p q : Path).

(** A turn of any task. *)
Definition turn (os : nat → Os) (wk : RealWatcherWorker) : relation Watch := λ s s',
  ∃ t, do_turn digest diff_paths os wk t s = Some s'.

Lemma elem_of_all_files ix p e : valid p → (p, e) ∈ all_files ix ↔ get_file_entry ix p = Some e.
Proof.
  intros Hp. unfold all_files, get_file_entry. rewrite list_elem_of_omap. split.
  - intros ([k e'] & Hk%elem_of_iter & E). simpl in E. destruct (Path.parse k) as [q|] eqn:Eq; [|done].
    injection E as -> ->. by apply parse_spec in Eq as [-> _].
  - intros He. exists (as_str p, e). split; [by apply elem_of_iter|]. unfold valid in Hp. simpl. by rewrite Hp.
Qed.

Lemma all_files_valid ix p e : (p, e) ∈ all_files ix → valid p.
Proof.
  unfold all_files. rewrite list_elem_of_omap. intros ([k e'] & _ & E). simpl in E.
  destruct (Path.parse k) as [q|] eqn:Eq; [|done]. injection E as -> ->. pose proof Eq as Eq'. apply parse_spec in Eq as [-> _]. exact Eq'.
Qed.

Lemma spawn_settling o b w now wk s : world_ok w → bd_catchup b = true → spawn (still o) b w now = Ok (wk, s) →
  disk_ok diff_paths o wk → budget (weight s) w → settling digest o wk (get_file_entry (index (db w))) s.
Proof.
  intros Hw Hb Hs Hd Hbud. unfold spawn, still in Hs. destruct (canonicalize o (bd_root b)) as [root|]; [|done].
  rewrite Hb in Hs. injection Hs as <- <-. split; [done|done| |by left|].
  - split; simpl.
    + intros ev [H|[H|H]]; simpl in H; [done..|by apply elem_of_nil in H].
    + apply not_elem_of_nil.
    + by intros r p H%elem_of_nil.
    + by intros p h H%elem_of_nil.
    + done.
    + intros p e H. pose proof (all_files_valid _ _ _ H) as Hp. split; [done|]. by apply elem_of_all_files.
    + done.
  - intros p Hp _. unfold progress. simpl. change (get _ p) with (get_file_entry (index (db w)) p).
    destruct (get_file_entry (index (db w)) p) as [e|] eqn:E.
    + do 3 right. left. exists e. split; [|done]. by apply elem_of_all_files.
    + destruct (wanted _ _ _ _ p) as [e|] eqn:Ew; [|by left]. do 4 right. split; [done|].
      apply wanted_regular in Ew as (m & Hr & _). by apply (dk_walk _ _ _ Hd p m).
Qed.

Lemma settling_turns o wk init n s s' : disk_ok diff_paths o wk →
  nsteps (turn (still o) wk) n s s' → settling digest o wk init s →
  settling digest o wk init s' ∧ (n + weight s' ≤ weight s)%nat.
Proof.
  intros Hd. induction 1 as [s|n s s1 s' [t Ht] _ IH]; intros Hs; [by split|].
  destruct (settling_turn digest diff_paths o wk Hd init t s s1 Ht Hs) as [H1 H2]. destruct (IH H1) as [H3 H4].
  split; [done|lia].
Qed.

(** C6: on a disk that does not change, where the files and directories of the root can
    be read and are all found by walking it, a watcher that starts with a catchup comes
    to an end whatever the order in which its tasks take turns, after no more turns than
    seven for each file of the index and of the directory; and then the index has exactly
    the regular files that are neither excluded nor reached through a symbolic link,
    with their size, time and hash: the entries that matched are kept.  It fails for an
    indexed path where there is a directory or a device now: such an entry is either kept
    as it is or removed. *)
Theorem catchup_synchronises_index o b w now wk s0
  (Hw : world_ok w) (Hcatchup : bd_catchup b = true) (Hspawn : spawn (still o) b w now = Ok (wk, s0))
  (Hdisk : disk_ok diff_paths o wk) (Hroom : budget (weight s0) w) :
  let before := get_file_entry (index (db w)) in
  (∀ n s, nsteps (turn (still o) wk) n s0 s → (n ≤ weight s0)%nat) ∧
  ∀ s, rtc (turn (still o) wk) s0 s → (∀ t, do_turn digest diff_paths (still o) wk t s = None) →
    world_ok (world s) ∧ ∀ p, valid p →
      (¬ replaced o wk before p → get_file_entry (index_of s) p = wanted digest o wk before p) ∧
      (replaced o wk before p → get_file_entry (index_of s) p = before p ∨ get_file_entry (index_of s) p = None).
Proof.
  pose proof (spawn_settling o b w now wk s0 Hw Hcatchup Hspawn Hdisk Hroom) as H0. split.
  - intros n s Hn. destruct (settling_turns _ _ _ _ _ _ Hdisk Hn H0). lia.
  - intros s [n Hn]%rtc_nsteps Hend. destruct (settling_turns _ _ _ _ _ _ Hdisk Hn H0) as [Hs _].
    split; [apply Hs|]. intros p Hp. by apply (settled _ _ _ _ _ _ Hs Hend).
Qed.

(** C22: whatever events come, whatever the disk does meanwhile and however the tasks
    take turns, the index stays consistent with its history, and no path that is
    excluded is ever added to it. *)
Theorem watcher_reachable_inv os wk most s0 s
  (Hmost : ∀ t f d, (length (walk_dir (os t) f d) ≤ most)%nat)
  (Hw : world_ok (world s0)) (Hidle : requests s0 = [] ∧ hashed_rx s0 = [] ∧ adding s0 = None)
  (Hreach : rtc (watch_step digest diff_paths os wk most) s0 s) :
  world_ok (world s) ∧
  ∀ p, is_Some (get_file_entry (index_of s) p) → is_Some (get_file_entry (index_of s0) p) ∨ is_excluded wk p = false.
Proof.
  set (before := λ p, is_Some (get_file_entry (index_of s0) p)).
  assert (sound wk before s0) as H0.
  { destruct Hidle as (E1 & E2 & E3). split; [done|by left|..].
    - rewrite E1. by intros r p H%elem_of_nil.
    - rewrite E2. by intros p h H%elem_of_nil.
    - by rewrite E3. }
  assert (sound wk before s) as [H1 H2 _ _ _]; [|done]. clearbody before. clear Hw Hidle.
  induction Hreach as [|x y z Hstep _ IH]; [done|]. apply IH. by eapply watch_step_sound.
Qed.

(** An event of removal is taken at its word: the path and all that is below leave
    the index, whatever is on the disk by then. *)
Theorem removal_is_blind os wk s p n
  (Hw : world_ok (world s)) (Hroom : budget n (world s)) (Hp : valid p)
  (Hdiff : diff_paths (full wk p) (rw_root wk) = Some (as_str p)) :
  ∃ s', handle_event digest diff_paths os wk (event EvRemove (full wk p)) s = (Ok (), s') ∧
    (∀ q, Path.starts_with q p = true → get_file_entry (index_of s') q = None) ∧
    ∀ q, Path.starts_with q p = false → get_file_entry (index_of s') q = get_file_entry (index_of s) q.
Proof.
  destruct (budget_remove p (world s) n Hw Hroom) as (w' & E & P & _). exists (set_world w' s).
  unfold handle_event, last_path, event, file_or_dir_removed, to_model_path. cbn [ev_kind ev_paths last].
  unfold sbind, slift. cbn [ok_or]. rewrite Hdiff, from_real_path_parse. unfold valid in Hp. rewrite Hp.
  unfold in_index. rewrite E. split; [done|]. split; intros q Hq; unfold index_of; simpl; by rewrite (rm_files _ _ _ P), Hq.
Qed.

(** When a directory has taken the place of an indexed file while the program was
    not running, the catchup finds at most a modification, and handling it does nothing:
    the file stays in the index. *)
Theorem directory_keeps_file_indexed o wk p e m s
  (Hx : is_excluded wk p = false) (Hm : symlink_metadata o (full wk p) = Some m) (Hdir : m_type m = Directory)
  (Hcanonical : canonicalize o (full wk p) = Some (full wk p)) (Hopen : is_Some (open o (full wk p))) :
  (∃ ev s', look_indexed (still o) wk p e s = (Ok ev, s') ∧ (ev = None ∨ ev = Some (event EvModifyData (full wk p)))) ∧
  ∃ s', handle_event digest diff_paths (still o) wk (event EvModifyData (full wk p)) s = (Ok (), s') ∧
    world s' = world s ∧ requests s' = requests s.
Proof.
  split.
  - unfold look_indexed. fold (full wk p). rewrite Hx. unfold sbind at 1, ask at 1. unfold still at 1. rewrite Hm.
    unfold sbind at 1, ask at 1. unfold still at 1. rewrite Hcanonical, bool_decide_eq_true_2 by done. cbn [negb].
    unfold sbind, file_is_readable, ask. unfold still at 1. rewrite (bool_decide_eq_true_2 (is_Some _)) by done. cbn [negb].
    destruct (_ || _); eexists _, _; (split; [reflexivity|]); auto.
  - unfold handle_event, last_path, event. cbn [ev_kind ev_paths last]. unfold sbind at 1, slift at 1. cbn [ok_or].
    unfold sbind, ask, still. rewrite Hm, Hdir. by eexists.
Qed.
End theorems.

(** ** Witnesses *)

Section witnesses.
#[local] Existing Instance gmap_redb.

Definition root3 : string := "/r".
Definition wk3 : RealWatcherWorker := {| rw_root := root3; rw_exclude := [mkPath "tmp"] |}.
Definition builder3 : RealWatcherBuilder := with_catchup (exclude (mkPath "tmp") (builder root3)).
Definition digest3 (d : list byte) : Hash := mkHash (x01 :: d).
Definition diff_paths3 (a r : string) : option string := Str.strip_prefix (r +:+ "/") a.
Definition later : UnixTime := UnixTime.from_secs 50000.

(** A disk with directories everywhere, but for [d/a.txt], which is not there, and
    [d/b.txt], a file. *)
Definition file3 : Metadata := {| m_type := RegularFile; m_len := 2; m_mtime := later; m_nlink := 1 |}.
Definition dir3 : Metadata := {| m_type := Directory; m_len := 4096; m_mtime := noon; m_nlink := 2 |}.
Definition entry3 (path : string) : DirEntry := {| de_path := path; de_type := Some RegularFile; de_metadata := Some file3 |}.
Definition stat3 (r : string) : option Metadata :=
  if bool_decide (r = "/r/d/a.txt") then None else if bool_decide (r = "/r/d/b.txt") then Some file3 else Some dir3.
Definition disk3 : Os := {|
  symlink_metadata := stat3;
  canonicalize := λ r, if bool_decide (r = "/r/d/a.txt") then None else Some r;
  open := λ r, (λ m, {| of_metadata := Some m; of_content := Some [x61; x62]%byte |}) <$> stat3 r;
  read_dir := λ _, true;
  walk_dir := λ _ _, [Some (entry3 "/r/d/b.txt")];
|}.

Lemma full3_b p m : regular disk3 wk3 p m → p = b_txt ∧ m = file3.
Proof.
  intros (H1 & H2 & _). cbn [symlink_metadata disk3] in H1. unfold stat3 in H1. case_bool_decide; [done|].
  case_bool_decide as E; injection H1 as <-; [|done]. split; [|done]. apply (full_inj wk3). by rewrite E.
Qed.

Lemma diff_paths3_law rel : diff_paths3 (join_path root3 rel) root3 = Some rel.
Proof. by apply strip_prefix_Some. Qed.

Lemma disk3_ok : disk_ok diff_paths3 disk3 wk3.
Proof.
  split.
  - intros p m _ [-> ->]%full3_b. by eexists.
  - intros rel _. apply diff_paths3_law.
  - intros e [= ->]%list_elem_of_singleton. exists "d/b.txt". split; [done|]. by repeat constructor.
  - intros p m _ [-> ->]%full3_b. exists (entry3 "/r/d/b.txt"). split; [by left|done].
  - intros r [f Hf]. cbn [open disk3] in Hf. unfold stat3 in Hf. cbn [canonicalize disk3]. by case_bool_decide.
  - intros p q m _ _ [-> ->]%full3_b Hs Hne. cbn [symlink_metadata canonicalize open disk3]. unfold stat3.
    rewrite !(bool_decide_eq_false_2 (full wk3 p = "/r/d/a.txt")).
    + rewrite !(bool_decide_eq_false_2 (full wk3 p = "/r/d/b.txt")); [done|]. intros E. apply Hne. by apply (full_inj wk3).
    + intros E. assert (p = a_txt) as -> by by apply (full_inj wk3). by vm_compute in Hs.
Qed.

Lemma budget3 : budget 21 two_files.
Proof. split; vm_compute; reflexivity. Qed.

Definition start3 : Watch :=
  match spawn (still disk3) builder3 two_files 0 with Ok (_, s) => s | Err _ => set_world two_files
    {| world := two_files; clock := 0; watch_rx := []; removed_or_modified := {| todo := []; held := None |};
       added := {| todo := []; held := None |}; requests := []; hashed_rx := []; adding := None |} end.

Lemma start3_spawned : spawn (still disk3) builder3 two_files 0 = Ok (wk3, start3).
Proof. vm_compute. reflexivity. Qed.

Fixpoint turns (os : nat → Os) (l : list Turn) (s : Watch) : option Watch :=
  match l with
  | [] => Some s
  | t :: l => do_turn digest3 diff_paths3 os wk3 t s ≫= turns os l
  end.

Lemma turns_reach os l s s' : turns os l s = Some s' → rtc (turn digest3 diff_paths3 os wk3) s s'.
Proof.
  revert s. induction l as [|t l IH]; intros s H; simpl in H; [by injection H as ->|].
  destruct (do_turn _ _ _ _ t s) as [s1|] eqn:E; [|done]. eapply rtc_l; [by exists t|by apply IH].
Qed.

Definition is_Some_b {A} (x : option A) : bool := match x with Some _ => true | None => false end.

Definition turns_to (os : nat → Os) (l : list Turn) (s : Watch) : Watch := default s (turns os l s).

Lemma turns_to_reach os l s : is_Some_b (turns os l s) = true → rtc (turn digest3 diff_paths3 os wk3) s (turns_to os l s).
Proof. unfold turns_to. intros H. apply (turns_reach os l). by destruct (turns os l s). Qed.

(** Nothing is left to do. *)
Definition at_rest (s : Watch) : bool :=
  match watch_rx s, removed_or_modified s, added s, requests s, hashed_rx s, adding s with
  | [], {| todo := []; held := None |}, {| todo := []; held := None |}, [], [], None => true
  | _, _, _, _, _, _ => false
  end.

Lemma at_rest_turns os s : at_rest s = true → ∀ t, do_turn digest3 diff_paths3 os wk3 t s = None.
Proof.
  unfold at_rest. intros H t.
  destruct (watch_rx s) as [|] eqn:E1, (removed_or_modified s) as [[] []] eqn:E2, (added s) as [[] []] eqn:E3,
    (requests s) as [|] eqn:E4, (hashed_rx s) as [|] eqn:E5, (adding s) as [|] eqn:E6; try done.
  destruct t; cbn [do_turn]; rewrite ?E1, ?E2, ?E3, ?E4, ?E5, ?E6; done.
Qed.

Definition caught_up3 : Watch :=
  turns_to (still disk3) [LookIndexed; SendRemovedOrModified; LookIndexed; SendRemovedOrModified; LookEntry;
    HandleEvent; HandleEvent; HashFile 0; TakeHash; AddFile] start3.

Example catchup_synchronises_index_witness :
  get_file_entry (index_of caught_up3) a_txt = None ∧
  get_file_entry (index_of caught_up3) b_txt =
    Some {| ix_hash := digest3 [x61; x62]%byte; ix_mtime := later; ix_size := 2; outdated_by := None |}.
Proof.
  destruct (catchup_synchronises_index digest3 diff_paths3 disk3 builder3 two_files 0 wk3 start3 two_files_ok eq_refl start3_spawned
    disk3_ok budget3) as [_ H].
  destruct (H caught_up3) as [_ Hp].
  - apply turns_to_reach. vm_compute. reflexivity.
  - apply at_rest_turns. vm_compute. reflexivity.
  - split.
    + destruct (Hp a_txt ltac:(vm_compute; reflexivity)) as [-> _]; [vm_compute; reflexivity|].
      intros (_ & _ & m & Hm & _). by vm_compute in Hm.
    + destruct (Hp b_txt ltac:(vm_compute; reflexivity)) as [-> _]; [vm_compute; reflexivity|].
      intros (_ & _ & m & [= <-] & Hk). by apply Hk.
Defined.

Lemma most3 : ∀ t f d, (length (walk_dir (still disk3 t) f d) ≤ 1)%nat.
Proof. intros t f d. simpl. lia. Qed.

Definition looked3 : Watch :=
  default start3 (do_turn digest3 diff_paths3 (still disk3) wk3 LookIndexed start3).

Lemma looked3_turn : do_turn digest3 diff_paths3 (still disk3) wk3 LookIndexed start3 = Some looked3.
Proof. vm_compute. reflexivity. Qed.

Example watcher_reachable_inv_witness : world_ok (world looked3).
Proof.
  destruct (watcher_reachable_inv digest3 diff_paths3 (still disk3) wk3 1 start3 looked3 most3 two_files_ok) as [H _].
  - split; [vm_compute; reflexivity|]. split; vm_compute; reflexivity.
  - apply rtc_once. apply (ws_turn _ _ _ _ _ LookIndexed); [exact looked3_turn|]. split; vm_compute; reflexivity.
  - exact H.
Defined.

Example removal_is_blind_witness :
  ∃ s', handle_event digest3 diff_paths3 (still disk3) wk3 (event EvRemove "/r/d") start3 = (Ok (), s') ∧
    get_file_entry (index_of s') b_txt = None.
Proof.
  destruct (removal_is_blind digest3 diff_paths3 (still disk3) wk3 start3 (mkPath "d") 0) as (s' & H1 & H2 & _).
  - exact two_files_ok.
  - split; vm_compute; reflexivity.
  - vm_compute. reflexivity.
  - vm_compute. reflexivity.
  - exists s'. split; [exact H1|]. apply H2. vm_compute. reflexivity.
Defined.

Example directory_keeps_file_indexed_witness :
  ∃ s', handle_event digest3 diff_paths3 (still disk3) wk3 (event EvModifyData "/r/x") start3 = (Ok (), s') ∧
    world s' = world start3.
Proof.
  destruct (directory_keeps_file_indexed digest3 diff_paths3 disk3 wk3 (mkPath "x")
    {| ix_hash := h1; ix_mtime := noon; ix_size := 0; outdated_by := None |} dir3 start3) as [_ (s' & H1 & H2 & _)].
  - vm_compute. reflexivity.
  - vm_compute. reflexivity.
  - reflexivity.
  - vm_compute. reflexivity.
  - eexists. vm_compute. reflexivity.
  - exists s'. split; [exact H1|exact H2].
Defined.

(** ** Races *)

(** A disk with the file [d/a.txt] at the given times only. *)
Definition at_times (there : nat → bool) (t : nat) : Os := {|
  symlink_metadata := λ r, if bool_decide (r = "/r/d/a.txt") then if there t then Some file3 else None else Some dir3;
  canonicalize := λ r, if bool_decide (r = "/r/d/a.txt") && negb (there t) then None else Some r;
  open := λ r, if bool_decide (r = "/r/d/a.txt") && there t
    then Some {| of_metadata := Some file3; of_content := Some [x61; x62]%byte |} else None;
  read_dir := λ _, true;
  walk_dir := λ _ _, [];
|}.
Definition spawned (os : nat → Os) (b : RealWatcherBuilder) (w : World) : Watch :=
  match spawn os b w 0 with Ok (_, s) => s | Err _ => start3 end.
Definition one_file : World := (add_file a_txt 0 noon h1 empty_world).2.
Definition notified (ev : Event) (s : Watch) : Watch := set_watch_rx (watch_rx s ++ [Some ev]) s.

Definition appears : nat → Os := at_times (λ t, 2 <=? t)%nat.
Definition disappears : nat → Os := at_times (λ t, t <? 5)%nat.

Definition found_gone : Watch := turns_to appears [LookIndexed] (spawned appears builder3 one_file).
Definition taken_out : Watch :=
  turns_to appears [HandleEvent; HashFile 0; TakeHash; AddFile; SendRemovedOrModified; HandleEvent]
    (notified (event EvModifyData "/r/d/a.txt") found_gone).

Definition checked : Watch :=
  turns_to disappears [HandleEvent; HashFile 0; TakeHash]
    (notified (event EvModifyData "/r/d/a.txt") (spawned disappears (builder root3) empty_world)).
Definition added_late : Watch :=
  turns_to disappears [HandleEvent; AddFile] (notified (event EvRemove "/r/d/a.txt") checked).

(** The catchup may find that a file is gone, and be held up on the way to the
    channel while the file comes back and is indexed anew: its removal then takes the
    file out of the index, and it stays out although it is there. *)
Theorem catchup_removes_new_file :
  let s0 := spawned appears builder3 one_file in
  rtc (turn digest3 diff_paths3 appears wk3) s0 found_gone ∧
  rtc (turn digest3 diff_paths3 appears wk3) (notified (event EvModifyData "/r/d/a.txt") found_gone) taken_out ∧
  (∀ t, do_turn digest3 diff_paths3 appears wk3 t taken_out = None) ∧
  get_file_entry (index_of taken_out) a_txt = None ∧
  ∀ t, (clock found_gone ≤ t)%nat → regular (appears t) wk3 a_txt file3.
Proof.
  split; [apply turns_to_reach; vm_compute; reflexivity|]. split; [apply turns_to_reach; vm_compute; reflexivity|].
  split; [apply at_rest_turns; vm_compute; reflexivity|]. split; [vm_compute; reflexivity|].
  assert (clock found_gone = 2%nat) as -> by (vm_compute; reflexivity). intros t Ht.
  unfold regular, appears, at_times. cbn [symlink_metadata canonicalize]. rewrite (proj2 (Nat.leb_le 2 t) Ht).
  split_and!; reflexivity.
Qed.

(** A file that is removed after its hash was checked and before it is added ends up
    in the index although it is gone, and nothing will take it out. *)
Theorem late_hash_adds_removed_file :
  let s0 := spawned disappears (builder root3) empty_world in
  rtc (turn digest3 diff_paths3 disappears wk3) (notified (event EvModifyData "/r/d/a.txt") s0) checked ∧
  rtc (turn digest3 diff_paths3 disappears wk3) (notified (event EvRemove "/r/d/a.txt") checked) added_late ∧
  (∀ t, do_turn digest3 diff_paths3 disappears wk3 t added_late = None) ∧
  ix_size <$> get_file_entry (index_of added_late) a_txt = Some 2 ∧
  ∀ t, (clock checked ≤ t)%nat → symlink_metadata (disappears t) (full wk3 a_txt) = None.
Proof.
  split; [apply turns_to_reach; vm_compute; reflexivity|]. split; [apply turns_to_reach; vm_compute; reflexivity|].
  split; [apply at_rest_turns; vm_compute; reflexivity|]. split; [vm_compute; reflexivity|].
  assert (clock checked = 5%nat) as -> by (vm_compute; reflexivity). intros t Ht.
  unfold disappears, at_times. cbn [symlink_metadata]. rewrite (proj2 (Nat.ltb_ge t 5) Ht). reflexivity.
Qed.
End witnesses.
