(* ===== verification/Storage.v ===== *)
(** * The storage of a household

    [crate/realize-storage/src/lib.rs] and [.../arena/indexed_store.rs]: [Storage]
    finds the arena an operation is for and runs it there: on the cache, the index,
    the marks and the engine of the arena, which share a database.  The operations
    themselves are those of the other files; here they are put together on the
    state that the arenas share.

    [Reader] and [rsync] give other peers what is in the files of an arena. *)
From Stdlib Require Import Strings.Byte.
From stdpp Require Import gmap.
From S2P Require Import Prelude Bytes Range RangeSet Redb Path Types Db Dirty InodeAllocator Blob Index Dirs ArenaCache CacheInv CacheSpec GlobalCache Mark Engine Realize Notifier Churten Jobs.
Local Open Scope N_scope.
Local Open Scope realize_scope.

(** ** Files that are read for others *)

(** The kinds of [io::Error] that are told apart. *)
Inductive IoKind : Type :=
| KNotFound
| KPermissionDenied
| KConnectionAborted
| KNotADirectory
| KIsADirectory
| KInvalidInput
| KInvalidFilename
| KResourceBusy
| KUnexpectedEof
| KOther.

#[global] Instance IoKind_eq_dec : EqDecision IoKind.
Proof. solve_decision. Defined.

(** A [StorageError] with what [StorageError::Io] holds. *)
Inductive ReadError : Type :=
| RStorage (e : StorageError)
| RIo (kind : IoKind)
| RInvalidRsyncSignature.

Section indexed_store.
Context {R : Redb}.
(** What the operating system has against opening a file. *)
Context (os_open : string → option IoKind).
(** [fast_rsync::Signature::deserialize] and [fast_rsync::diff] *)
Context (Signature Delta IndexedSignature : Type).
Context (deserialize : Signature → option IndexedSignature).
Context (diff : IndexedSignature → list byte → option Delta).
Implicit Types (ix : IndexTables) (files : Fs) (path : Path).

(** [File::open] *)
Definition file_open files (realpath : string) : result ReadError File :=
  match os_open realpath with
  | Some kind => Err (RIo kind)
  | None => ok_or (RIo KNotFound) (files !! realpath)
  end.

(** [Reader], a handle on an open file, at its start *)
Record Reader : Type := { rd_path : Path; rd_realpath : string; rd_pos : N }.

Definition Reader_open ix files root path : result ReadError Reader :=
  match Index.get_file_entry ix path with
  | None => Err (RStorage NotFound)
  | Some _ =>
      let realpath := within path root in
      result_map (λ _, {| rd_path := path; rd_realpath := realpath; rd_pos := 0 |})
        (file_open files realpath)
  end.

Definition Reader_seek (position : N) (r : Reader) : Reader :=
  {| rd_path := rd_path r; rd_realpath := rd_realpath r; rd_pos := position |}.

(** [Reader::metadata]; [m] is the file as it is now *)
Definition Reader_metadata ix (m : File) (r : Reader) : N * option Hash :=
  let hash :=
    match Index.get_file_entry ix (rd_path r) with
    | Some entry =>
        if (ix_size entry =? f_len m) && bool_decide (ix_mtime entry = f_mtime m)
        then Some (ix_hash entry) else None
    | None => None
    end in
  (f_len m, hash).

(** [rsync] *)
Definition rsync ix files root path (range : ByteRange) (sig : Signature) : result ReadError Delta :=
  match deserialize sig with
  | None => Err RInvalidRsyncSignature
  | Some sig =>
      match Index.get_file_entry ix path with
      | None => Err (RStorage NotFound)
      | Some _ =>
          result_bind (file_open files (within path root)) (λ f,
            let len := ByteRange.bytecount range in
            if f_len f <? len then Err (RIo KUnexpectedEof)
            else
              let data := take (N.to_nat len) (f_data f) in
              ok_or (RIo KOther) (diff sig data))
      end
  end.
End indexed_store.

(** ** The arenas together *)

Section storage.
Context {R : Redb} {B : Bimap}.
Context (now : UnixTime).
Context (hash_order : list (string * FileTableEntry) → list (string * FileTableEntry)).
Context (strategy : N → option Duration).
Context (index_uuid : Arena → Uuid).
Context (os_open : string → option IoKind).
Context (Signature Delta IndexedSignature : Type).
Context (deserialize : Signature → option IndexedSignature).
Context (diff : IndexedSignature → list byte → option Delta).

(** [Storage]: the caches, and for each arena the root of its indexed storage, when
    it has one.  The database of an [ArenaStorage] is that of its cache. *)
Record Storage : Type := {
  st_cache : UnrealCacheBlocking;
  arena_storages : gmap Arena (option string);
}.

Definition set_st_cache (u : UnrealCacheBlocking) (s : Storage) : Storage :=
  {| st_cache := u; arena_storages := arena_storages s |}.

(** [arena_storage] *)
Definition arena_storage (s : Storage) (arena : Arena) : sresult (option string) :=
  ok_or (UnknownArena arena) (arena_storages s !! arena).

Definition indexed_arenas (s : Storage) : list Arena :=
  omap (λ kv, match kv.2 with Some _ => Some kv.1 | None => None end) (map_to_list (arena_storages s)).

(** An operation on an arena, given the allocator and the root of the indexed
    storage. *)
Definition on_arena {A} (arena : Arena) (op : bimap → option string → CacheOf → WorldM A)
  : StateM Storage StorageError A := λ s,
  match arena_storage s arena with
  | Err e => (Err e, s)
  | Ok root =>
      let '(r, u) := on_cache arena (op (allocator (st_cache s)) root) (st_cache s) in
      (r, set_st_cache u s)
  end.

(** The same for one that only reads. *)
Definition with_arena {A} (s : Storage) (arena : Arena) (op : option string → CacheOf → result ReadError A)
  : result ReadError A :=
  match arena_storage s arena with
  | Err e => Err (RStorage e)
  | Ok root =>
      match arena_cache (st_cache s) arena with
      | Err e => Err (RStorage e)
      | Ok c => op root c
      end
  end.

(** One that only reads and needs the indexed storage. *)
Definition with_indexed {A} (s : Storage) (arena : Arena) (op : string → CacheOf → result ReadError A)
  : result ReadError A :=
  with_arena s arena (λ root c,
    match root with
    | None => Err (RStorage (NoLocalStorage arena))
    | Some root => op root c
    end).

(** [Storage::subscribe]: what the subscriber is sent before there are changes;
    [ac_history] is the index that the watch channel holds. *)
Definition st_subscribe (s : Storage) (arena : Arena) (progress : option Progress)
  : result ReadError (list Notification) :=
  with_indexed s arena (λ _ c,
    let ix := index (ac_db c) in
    Ok (subscribe arena (index_uuid arena) progress ix (λ _, ix) (ac_history c))).

Definition st_update (peer : Peer) (n : Notification) : StateM Storage StorageError () :=
  on_arena (notification_arena n) (λ roots root c,
    storage_update (ac_arena c) (ac_arena_root c) roots (ac_blob_dir c) now hash_order root peer n).

Definition st_set_arena_mark (arena : Arena) (m : Mark) : StateM Storage StorageError () :=
  on_arena arena (λ _ _ c, set_arena_mark (ac_arena_root c) m).

Definition st_set_mark (arena : Arena) (path : Path) (m : Mark) : StateM Storage StorageError () :=
  on_arena arena (λ _ _ c, set_mark (ac_arena_root c) path m).

Definition st_get_mark (s : Storage) (arena : Arena) (path : Path) : result ReadError Mark :=
  with_arena s arena (λ _ c, Ok (get_mark (ac_db c) path)).

Definition st_reader (s : Storage) (arena : Arena) (path : Path) : result ReadError Reader :=
  with_indexed s arena (λ root c, Reader_open os_open (index (ac_db c)) (u_fs (st_cache s)) root path).

Definition st_rsync (s : Storage) (arena : Arena) (path : Path) (range : ByteRange) (sig : Signature)
  : result ReadError Delta :=
  with_indexed s arena (λ root c,
    rsync os_open Signature Delta IndexedSignature deserialize diff
      (index (ac_db c)) (u_fs (st_cache s)) root path range sig).

Definition st_realize (arena : Arena) (path : Path) (cache_hash : Hash) (index_hash : option Hash)
  : StateM Storage StorageError bool :=
  on_arena arena (λ _ root c, realize (ac_arena c) (ac_arena_root c) (ac_blob_dir c) root path cache_hash index_hash).

Definition st_unrealize (arena : Arena) (path : Path) (hash : Hash) : StateM Storage StorageError bool :=
  on_arena arena (λ _ root c, unrealize (ac_arena c) (ac_arena_root c) (ac_blob_dir c) root path hash).

Definition st_job_finished (arena : Arena) (job_id : JobId) (status : option JobStatus)
  : StateM Storage StorageError () :=
  on_arena arena (λ _ _ _, write_txn (
    do* smodify (λ t, set_tables (set_dirty (job_finished strategy now job_id status (dirty (tables t)))
                        (tables t)) t) in
    sret (Commit ()))).

Definition st_job_for_path (s : Storage) (arena : Arena) (path : Path) : result ReadError (option (N * Job)) :=
  with_arena s arena (λ _ c,
    match job_for_path (ac_arena_root c) (ac_db c) path with
    | Ok j => Ok j
    | Err e => Err (RStorage e)
    end).

(** [build_exclude]: the database and the blob directory of each arena, and the
    database of the cache *)
Definition build_exclude (cache_db : string) (config : list (string * string)) : list string :=
  cache_db :: flat_map (λ '(db, blob_dir), [db; blob_dir]) config.
End storage.

(** ** What operations leave of the cache *)

Section kept.
Context {R : Redb} `{!RedbLaws R}.
Implicit Types (t : Txn) (w : World).

(** The operation leaves the cache and the global database alone. *)
Definition keeps {A} (m : TxnM A) : Prop := ∀ t,
  cache (tables (m t).2) = cache (tables t) ∧ global (ext (m t).2) = global (ext t).

Lemma keeps_ret {A} (a : A) : keeps (sret a).
Proof. done. Qed.
Lemma keeps_throw {A} e : keeps (A := A) (sthrow e).
Proof. done. Qed.
Lemma keeps_get {A} (f : Txn → A) : keeps (sget f).
Proof. done. Qed.
Lemma keeps_lift {A} (r : sresult A) : keeps (slift r).
Proof. done. Qed.
Lemma keeps_bind {A C} (m : TxnM A) (f : A → TxnM C) : keeps m → (∀ a, keeps (f a)) → keeps (sbind m f).
Proof.
  intros Hm Hf t. unfold sbind. destruct (Hm t) as [H1 H2]. destruct (m t) as [[a|e] t1]; simpl in *; [|done].
  destruct (Hf a t1) as [H3 H4]. split; congruence.
Qed.
Lemma keeps_put_blob_table x : keeps (put_blob_table x).
Proof. done. Qed.
Lemma keeps_put_file_table x : keeps (Index.put_file_table x).
Proof. done. Qed.
Lemma keeps_insert_history i ev : keeps (insert_history i ev).
Proof. done. Qed.
Lemma keeps_allocate_history : keeps allocate_history_index.
Proof. done. Qed.
Lemma keeps_mark_dirty p : keeps (smodify (mark_dirty p)).
Proof. done. Qed.
Lemma keeps_fs f : keeps (smodify (λ t, set_fs (f t) t)).
Proof. done. Qed.
Lemma keeps_rename a b : keeps (rename a b).
Proof. intros t. unfold rename. by destruct (fs (ext t) !! a). Qed.

Ltac keep :=
  repeat match goal with
  | |- keeps (sbind _ _) => apply keeps_bind; [|intros]
  | |- keeps (sget _) => apply keeps_get
  | |- keeps (slift _) => apply keeps_lift
  | |- keeps (sret _) => apply keeps_ret
  | |- keeps (sthrow _) => apply keeps_throw
  | |- keeps (rename _ _) => apply keeps_rename
  | |- keeps (put_blob_table _) => apply keeps_put_blob_table
  | |- keeps (let '_ := ?x in _) => destruct x
  | |- keeps (match ?x with _ => _ end) => destruct x
  | |- keeps _ => done
  end.

Lemma keeps_blob_move d id hash dest : keeps (blob_move_if_matches d id hash dest).
Proof. unfold blob_move_if_matches. keep. Qed.
Lemma keeps_move_into d id size : keeps (move_into_blob d id size).
Proof. unfold move_into_blob. keep. Qed.
Lemma keeps_create_blob d now e : keeps (create_blob d now e).
Proof. unfold create_blob. keep. Qed.
Lemma keeps_drop_file p hash realpath : keeps (drop_file_if_matches p hash realpath).
Proof. unfold drop_file_if_matches. keep. Qed.

(** At most the blob of one presented entry is another. *)
Definition relinked (c c' : CacheTables) : Prop :=
  c' = c ∨ ∃ i e b, tbl_get (i, "") (cache_file_table c) = Some e ∧
    c' = set_cache_file_table (tbl_insert (i, "") (set_blob e b) (cache_file_table c)) c.

Lemma relinked_ok root n c c' (g : GlobalTables) :
  cache_ok root n c g → relinked c c' → cache_ok root n c' g.
Proof.
  intros Hc [->|(i & e & b & He & ->)]; [done|].
  apply (with_cached_blob_ok root n i e b (set_cache c arena_empty) g); done.
Qed.

(** An operation that relinks at most one entry. *)
Definition relinks {A} (m : TxnM A) : Prop := ∀ t,
  relinked (cache (tables t)) (cache (tables (m t).2)) ∧ global (ext (m t).2) = global (ext t).

Lemma relinks_keeps {A} (m : TxnM A) : keeps m → relinks m.
Proof. intros H t. destruct (H t) as [H1 H2]. split; [by left|done]. Qed.

Lemma relinks_before {A C} (m : TxnM A) (f : A → TxnM C) :
  keeps m → (∀ a, relinks (f a)) → relinks (sbind m f).
Proof.
  intros Hm Hf t. unfold sbind. destruct (Hm t) as [H1 H2]. destruct (m t) as [[a|e] t1]; simpl in *.
  - destruct (Hf a t1) as [H3 H4]. rewrite <- H1, <- H2. done.
  - rewrite H1. split; [by left|done].
Qed.

Lemma relinks_after {A C} (m : TxnM A) (f : A → TxnM C) :
  relinks m → (∀ a, keeps (f a)) → relinks (sbind m f).
Proof.
  intros Hm Hf t. unfold sbind. destruct (Hm t) as [H1 H2]. destruct (m t) as [[a|e] t1]; simpl in *; [|done].
  destruct (Hf a t1) as [H3 H4]. rewrite H3, H4. done.
Qed.

(** An operation that relinks at most the entry [i], when it is [e]. *)
Definition relinks_at (i : Inode) (e : FileTableEntry) {A} (m : TxnM A) : Prop := ∀ t,
  tbl_get (i, "") (cache_file_table (cache (tables t))) = Some e →
  relinked (cache (tables t)) (cache (tables (m t).2)) ∧ global (ext (m t).2) = global (ext t).

Lemma relinks_entry {A} i (f : FileTableEntry → TxnM A) :
  (∀ e, relinks_at i e (f e)) →
  relinks (let* file_table := sget ArenaCache.file_table_of in
           let* e := slift (get_default_entry file_table i) in f e).
Proof.
  intros Hf t. set (body := (let* file_table := sget ArenaCache.file_table_of in _)).
  assert (body t = match tbl_get (i, "") (cache_file_table (cache (tables t))) with
                   | Some e => f e t
                   | None => (Err NotFound, t)
                   end) as ->.
  { unfold body. unfold sbind at 1, sget. unfold sbind at 1, slift, get_default_entry, ArenaCache.file_table_of.
    by destruct (tbl_get _ _). }
  destruct (tbl_get (i, "") (cache_file_table (cache (tables t)))) as [e|] eqn:E; [by apply Hf|].
  split; [by left|done].
Qed.

Lemma relinks_at_keeps i e {A} (m : TxnM A) : keeps m → relinks_at i e m.
Proof. intros H t _. by apply relinks_keeps. Qed.

Lemma relinks_at_bind i e {A C} (m : TxnM A) (f : A → TxnM C) :
  keeps m → (∀ a, relinks_at i e (f a)) → relinks_at i e (sbind m f).
Proof.
  intros Hm Hf t He. unfold sbind. destruct (Hm t) as [H1 H2]. destruct (m t) as [[a|err] t1]; simpl in *.
  - destruct (Hf a t1) as [H3 H4]; [by rewrite H1|]. rewrite <- H1, <- H2. done.
  - rewrite H1. split; [by left|done].
Qed.

Lemma relinks_at_put i e b {A} (k : TxnM A) :
  keeps k →
  relinks_at i e (do* smodify (λ t, put_file_table
    (tbl_insert (i, "") (set_blob e b) (ArenaCache.file_table_of t)) t) in k).
Proof.
  intros Hk t He. unfold sbind, smodify. set (t1 := put_file_table _ t).
  destruct (Hk t1) as [H1 H2]. rewrite H1, H2. split; [|done]. right. by exists i, e, b.
Qed.

Ltac relink :=
  repeat match goal with
  | |- relinks_at _ _ (sbind (smodify _) _) => apply relinks_at_put
  | |- relinks_at _ _ (sbind _ _) => apply relinks_at_bind; [|intros]
  | |- relinks_at _ _ (if ?x then _ else _) => destruct x
  | |- relinks_at _ _ (match ?x with _ => _ end) => destruct x
  | |- relinks_at _ _ _ => apply relinks_at_keeps
  | |- keeps (blob_move_if_matches _ _ _ _) => apply keeps_blob_move
  | |- keeps (move_into_blob _ _ _) => apply keeps_move_into
  | |- keeps (create_blob _ _ _) => apply keeps_create_blob
  | |- keeps _ => progress keep
  end.

Lemma relinks_move_blob root d path hash dest : relinks (move_blob_if_matches root d path hash dest).
Proof.
  unfold move_blob_if_matches. apply relinks_before; [done|intros]. apply relinks_before; [done|intros [i x]].
  apply relinks_entry. intros e. relink.
Qed.

Lemma relinks_move_into root d path hash : relinks (move_into_blob_if_matches root d path hash).
Proof.
  unfold move_into_blob_if_matches. apply relinks_before; [done|intros dt].
  destruct (do_lookup_path dt root (Some path)) as [[i x]|err];
    [|apply relinks_keeps; by destruct err]. apply relinks_entry. intros e. relink.
Qed.

Lemma write_txn_relinked {A} (body : TxnM (Outcome A)) w :
  relinks body →
  relinked (cache (db w)) (cache (db (write_txn body w).2)) ∧
  global (w_ext (write_txn body w).2) = global (w_ext w).
Proof.
  intros H. destruct (H (begin_write w)) as [H1 H2]. unfold write_txn.
  destruct (body (begin_write w)) as [[[a|a]|e] t]; simpl in *; rewrite ?commit_db, ?commit_ext; [done|..];
    (split; [by left|done]).
Qed.

Lemma realize_relinks arena ar d root path ch ih w :
  let w' := (realize arena ar d root path ch ih w).2 in
  relinked (cache (db w)) (cache (db w')) ∧ global (w_ext w') = global (w_ext w).
Proof.
  unfold realize. destruct root as [root|]; [|split; [by left|done]]. apply write_txn_relinked.
  apply relinks_before; [done|intros ix]. apply relinks_before; [done|intros files].
  destruct (get_indexed_file ix files root path ih) as [realpath|]; [|by apply relinks_keeps].
  apply relinks_after; [apply relinks_move_blob|]. by intros [].
Qed.

Lemma unrealize_relinks arena ar d root path h w :
  let w' := (unrealize arena ar d root path h w).2 in
  relinked (cache (db w)) (cache (db w')) ∧ global (w_ext w') = global (w_ext w).
Proof.
  unfold unrealize. destruct root as [root|]; [|split; [by left|done]]. apply write_txn_relinked.
  apply relinks_before; [done|intros ix]. apply relinks_before; [done|intros files].
  destruct (get_indexed_file ix files root path (Some h)) as [realpath|]; [|by apply relinks_keeps].
  apply relinks_after; [apply relinks_move_into|]. intros [cachepath|]; [|done].
  apply keeps_bind; [apply keeps_drop_file|]. intros []; [|done].
  apply keeps_bind; [apply keeps_rename|done].
Qed.

Lemma open_file_relinks d now i w :
  let w' := (open_file d now i w).2 in
  relinked (cache (db w)) (cache (db w')) ∧ global (w_ext w') = global (w_ext w).
Proof.
  unfold open_file. destruct (get_default_entry _ i) as [e|]; [|split; [by left|done]].
  destruct (blob (content e)) as [id|].
  - unfold open_blob. destruct (get_blob_entry _ id); split; by left || done.
  - apply write_txn_relinked, relinks_entry. intros e'. relink.
Qed.
End kept.

(** ** What is kept whatever is done *)

Section storage_inv.
Context {R : Redb} {B : Bimap} `{!RedbLaws R, !BimapLaws B}.
Context (now : UnixTime).
Context (hash_order : list (string * FileTableEntry) → list (string * FileTableEntry)).
Context (hash_order_perm : ∀ l, hash_order l ≡ₚ l).
Context (strategy : N → option Duration).
Implicit Types (s : Storage) (c : CacheOf) (a : Arena) (n m : nat) (w : World).

(** Setting a mark leaves the cache alone. *)
Lemma set_mark_keeps root n path (mk : Mark) w :
  cache_ok root n (cache (db w)) (global (w_ext w)) → (∀ p, path = Some p → valid p) →
  let w' := (set_mark_or_root root path mk w).2 in
  cache (db w') = cache (db w) ∧ w_ext w' = w_ext w.
Proof.
  intros Hc Hp. unfold set_mark_or_root, write_txn. cbv [sbind sget smodify].
  set (t := put_mark_table _ _). destruct (negb _); [|done].
  pose proof (marks_run root n path t Hc Hp) as Hrun.
  assert ((∃ l, marks_mark_dirty root path t = (Ok tt, mark_all l t)) ∨
          ∃ t', marks_mark_dirty root path t = (Err NotADirectory, t') ∧ ext t' = ext t) as [[l ->]|(t' & -> & He)].
  { destruct (do_lookup_path _ _ _) as [[i x]|[]]; first
      [left; destruct Hrun as (l & Hrun & _); by exists l|by right]. }
  - cbn [snd sret]. by rewrite commit_db, commit_ext, mark_all_tables, mark_all_ext.
  - done.
Qed.

(** The caches are well formed, for [n] more files and directories, and hang where
    they should. *)
Definition storage_ok n s : Prop := unreal_ok n (st_cache s).

(** What no operation changes: who the arenas are and where they hang. *)
Definition same_tree s s' : Prop :=
  directory_table (u_db (st_cache s')) = directory_table (u_db (st_cache s)) ∧
  allocator (st_cache s') = allocator (st_cache s) ∧
  ∀ a, result_map ac_arena_root (arena_cache (st_cache s') a) =
       result_map ac_arena_root (arena_cache (st_cache s) a).

#[export] Instance same_tree_preorder : PreOrder same_tree.
Proof.
  split; [done|]. intros s1 s2 s3 (A1 & A2 & A3) (B1 & B2 & B3).
  split_and!; [congruence..|]. intros a. by rewrite B3.
Qed.

Lemma on_cache_step {A} n m a (op : CacheOf → WorldM A) (u : UnrealCacheBlocking) (roots : gmap Arena (option string)) :
  unreal_ok n u → (m ≤ n)%nat →
  (∀ c, cache_fits n (u_db u) (allocator u) c → let w' := (op c (in_world c (u_db u) (u_fs u))).2 in
     cache_ok (ac_arena_root c) m (cache (db w')) (global (w_ext w')) ∧
     global_grows (u_db u) (global (w_ext w'))) →
  let s := {| st_cache := u; arena_storages := roots |} in
  let s' := set_st_cache (on_cache a op u).2 s in
  storage_ok m s' ∧ same_tree s s'.
Proof.
  intros Hu Hle Hop. unfold on_cache, arena_cache.
  destruct (arena_caches u !! a) as [c|] eqn:E; simpl.
  2:{ split; [by eapply unreal_weaken|]. by split_and!. }
  destruct (uk_cache _ _ Hu _ _ E) as [_ Hf]. specialize (Hop c Hf).
  destruct (op c _) as [r w]. simpl in *. destruct Hop as [H1 H2]. split.
  - exact (on_cache_ok _ _ _ _ _ _ Hu E H1 H2).
  - split_and!; [apply H2|done|]. intros b. unfold arena_cache. simpl. rewrite lookup_insert. case_decide; [|done].
    subst b. by rewrite E.
Qed.

Lemma on_arena_step {A} n m a (op : bimap → option string → CacheOf → WorldM A) s :
  storage_ok n s → (m ≤ n)%nat →
  (∀ root c, let u := st_cache s in cache_fits n (u_db u) (allocator u) c →
     let w' := (op (allocator u) root c (in_world c (u_db u) (u_fs u))).2 in
     cache_ok (ac_arena_root c) m (cache (db w')) (global (w_ext w')) ∧
     global_grows (u_db u) (global (w_ext w'))) →
  storage_ok m (on_arena a op s).2 ∧ same_tree s (on_arena a op s).2.
Proof.
  intros Hs Hle Hop. unfold on_arena. destruct (arena_storage s a) as [root|e]; simpl.
  2:{ split; [by eapply unreal_weaken|done]. }
  pose proof (on_cache_step n m a (op (allocator (st_cache s)) root) (st_cache s) (arena_storages s) Hs Hle (Hop root)) as H.
  destruct (on_cache a (op _ root) (st_cache s)) as [r u]. by destruct s.
Qed.

(** Anything that can be done, and how many inodes it may take. *)
Inductive storage_step s : nat → Storage → Prop :=
| step_update peer nt :
    well_formed peer nt → storage_step s (inodes_needed nt) (st_update now hash_order peer nt s).2
| step_mark a path mk :
    (∀ p, path = Some p → valid p) →
    storage_step s 0 (on_arena a (λ _ _ c, set_mark_or_root (ac_arena_root c) path mk) s).2
| step_realize a path ch ih : storage_step s 0 (st_realize a path ch ih s).2
| step_unrealize a path h : storage_step s 0 (st_unrealize a path h s).2
| step_job_finished a id status : storage_step s 0 (st_job_finished now strategy a id status s).2
| step_open_file i : storage_step s 0 (set_st_cache (unreal_open_file now i (st_cache s)).2 s).

Inductive storage_run s : nat → Storage → Prop :=
| run_refl : storage_run s 0 s
| run_step k j s1 s2 : storage_run s k s1 → storage_step s1 j s2 → storage_run s (k + j) s2.

Lemma relinked_step root n (c c' : CacheTables) (g g' : GlobalTables) :
  cache_ok root n c g → relinked c c' ∧ g' = g → cache_ok root n c' g' ∧ global_grows g g'.
Proof. intros Hc [Hr ->]. split; [by eapply relinked_ok|done]. Qed.

Lemma storage_step_ok n k s s' :
  storage_ok (k + n) s → storage_step s k s' → storage_ok n s' ∧ same_tree s s'.
Proof.
  intros Hs Hstep. destruct Hstep as [peer nt Hwf|a path mk Hp|a path ch ih|a path h|a id status|i].
  - apply (on_arena_step (inodes_needed nt + n)); [done|lia|]. intros root c u [F1 F2 F3]. unfold storage_update.
    destruct (storage_update_cache (ac_arena c) root nt (in_world c (u_db u) (u_fs u))) as [E1 E2].
    set (w1 := match root with Some _ => _ | None => _ end) in *.
    assert (cache_ok (ac_arena_root c) (inodes_needed nt + n) (cache_at w1) (global_at w1)) as Hc by (by rewrite E1, E2).
    pose proof (cache_update_run (ac_arena c) (ac_arena_root c) (allocator u) (ac_blob_dir c) now hash_order
      hash_order_perm F2 n peer nt w1 Hwf Hc) as H. rewrite E2 in H. unfold cache_at, global_at in H.
    destruct (update _ _ _ _ _ _ peer nt w1) as [[[]|e] w2]; simpl.
    + split; [exact (uo_ok _ _ _ _ _ _ H)|]. pose proof (uo_global _ _ _ _ _ _ H) as Hg. unfold global_at in Hg.
      change (global_grows (global_at (in_world c (u_db u) (u_fs u))) (global (w_ext w2))). rewrite <- E2. exact Hg.
    + split; apply H.
  - apply (on_arena_step n); [done|done|]. intros root c u [F1 F2 F3].
    pose proof (set_mark_keeps (ac_arena_root c) n path mk (in_world c (u_db u) (u_fs u)) F3 Hp) as [E1 E2].
    intros w'. unfold w'. rewrite E1, E2. done.
  - apply (on_arena_step n); [done|done|]. intros root c u [F1 F2 F3].
    apply (relinked_step _ _ _ _ _ _ F3), realize_relinks.
  - apply (on_arena_step n); [done|done|]. intros root c u [F1 F2 F3].
    apply (relinked_step _ _ _ _ _ _ F3), unrealize_relinks.
  - apply (on_arena_step n); [done|done|]. by intros root c u [F1 F2 F3].
  - unfold unreal_open_file. destruct (arena_of_inode (st_cache s) i) as [a|e]; simpl; [|by destruct s].
    destruct s as [u roots].
    apply (on_cache_step n n a (λ c, open_file (ac_blob_dir c) now i) u roots Hs); [done|].
    intros c [F1 F2 F3]. apply (relinked_step _ _ _ _ _ _ F3), open_file_relinks.
Qed.

Lemma storage_run_ok n k s s' :
  storage_run s k s' → storage_ok (k + n) s → storage_ok n s' ∧ same_tree s s'.
Proof.
  intros Hrun. revert n. induction Hrun as [|k j s1 s2 _ IH Hstep]; intros n Hs; [done|].
  destruct (IH (j + n)%nat) as [H1 H2]; [by rewrite Nat.add_assoc|].
  destruct (storage_step_ok n j s1 s2 H1 Hstep) as [H3 H4]. split; [done|by etrans].
Qed.

(** C16: whatever notifications come, files are opened, realized or unrealized, marks
    set and jobs reported, in whatever order and whether they succeed or fail, the
    caches of all arenas stay well formed and every arena stays where it hangs:
    going down from the root of the whole tree along the arena's name and a path in
    it still finds what the cache of the arena has there, and every inode that is
    found is answered by that cache. *)
Theorem storage_keeps_tree n k s s' a c p i x
  (Hs : storage_ok (k + n) s) (Hrun : storage_run s k s') (Hc : arena_cache (st_cache s) a = Ok c) (Hp : valid p) :
  storage_ok n s' ∧
  ∃ c', arena_cache (st_cache s') a = Ok c' ∧ ac_arena_root c' = ac_arena_root c ∧
    (walk (st_cache s') (ROOT_DIR, ADirectory) (comps (arena_path a) ++ comps p) = Ok (i, x) ↔
     do_lookup_path (dir_table c') (ac_arena_root c) (Some p) = Ok (i, x)) ∧
    (do_lookup_path (dir_table c') (ac_arena_root c) (Some p) = Ok (i, x) →
     arena_cache_for_inode (st_cache s') i = Ok c').
Proof.
  destruct (storage_run_ok n k s s' Hrun Hs) as [H1 (_ & _ & H2)]. split; [done|].
  specialize (H2 a). rewrite Hc in H2. simpl in H2.
  destruct (arena_cache (st_cache s') a) as [c'|e] eqn:E; [|done]. injection H2 as Hr.
  exists c'. split; [done|]. split; [done|]. rewrite <- Hr.
  destruct (walk_run n (st_cache s') a c' p i x H1 E Hp) as (_ & W1 & W2).
  unfold lookup_path in W1, W2. rewrite E in W1, W2. done.
Qed.
End storage_inv.

(** ** Repairing from a storage *)

Section repair_from.
Context {R : Redb} {B : Bimap} `{!RedbLaws R}.
Context (blob_dir : string) (now : UnixTime).
Context (os_open : string → option IoKind).
Context (Signature Delta IndexedSignature : Type).
Context (signature : list byte → Signature).
Context (apply_limited : list byte → Delta → N → option (list byte)).
Context (deserialize : Signature → option IndexedSignature).
Context (diff : IndexedSignature → list byte → option Delta).

(** What fast_rsync promises: the difference to what has a signature, applied to
    it, makes the data. *)
Context (rsync_law : ∀ base sig data delta limit, deserialize (signature base) = Some sig →
  diff sig data = Some delta → N.of_nat (length data) ≤ limit → apply_limited base delta limit = Some data).
Implicit Types (s : Blob * World) (p : Storage).

(** The peer that is asked answers with what its storage makes. *)
Definition rsync_from p (arena : Arena) (_ : list Peer) (path : Path) (range : ByteRange) (sig : Signature)
  : result string Delta :=
  match st_rsync os_open Signature Delta IndexedSignature deserialize diff p arena path range sig with
  | Ok delta => Ok delta
  | Err _ => Err "rsync failed"
  end.

Lemma file_open_is files realpath f : file_open os_open files realpath = Ok f → files !! realpath = Some f.
Proof. unfold file_open. destruct (os_open realpath); [done|]. destruct (files !! realpath); by intros [= ->]. Qed.

Lemma st_rsync_run p arena path range sig delta :
  st_rsync os_open Signature Delta IndexedSignature deserialize diff p arena path range sig = Ok delta →
  ∃ root f isig, arena_storages p !! arena = Some (Some root) ∧ deserialize sig = Some isig ∧
    u_fs (st_cache p) !! within path root = Some f ∧ ByteRange.bytecount range ≤ f_len f ∧
    diff isig (take (N.to_nat (ByteRange.bytecount range)) (f_data f)) = Some delta.
Proof.
  unfold st_rsync, with_indexed, with_arena, arena_storage.
  destruct (arena_storages p !! arena) as [[root|]|]; simpl; [|by destruct (arena_cache _ _)|done].
  destruct (arena_cache (st_cache p) arena) as [c|]; [|done]. unfold rsync.
  destruct (deserialize sig) as [isig|]; [|done]. destruct (Index.get_file_entry _ path); [|done].
  destruct (file_open os_open _ _) as [f|] eqn:Ef; [|done]. simpl.
  destruct (N.ltb_spec (f_len f) (ByteRange.bytecount range)); [done|].
  destruct (diff isig _) as [d|] eqn:Ed; [|done]. intros [= <-].
  exists root, f, isig. split_and!; try done. by apply file_open_is.
Qed.

(** Repairing a range of an open blob, from a peer that has the file, puts the bytes
    there that are at the start of the file, as many as the range is long: right for
    the first range of a file and for no other, unless the file repeats itself. *)
Theorem repair_copies_start p arena path peers (x : ByteRange) s s'
  (Hr : readable blob_dir s) (Hf : is_Some (fs (w_ext s.2) !! blob_path blob_dir (blob_id s.1)))
  (Hs : start x = offset s.1) (Hle : start x ≤ end_ x) (He : end_ x ≤ b_size s.1)
  (Hrun : repair_range blob_dir now Signature Delta signature apply_limited (rsync_from p arena) path peers x s = (Ok tt, s')) :
  ∃ root f, arena_storages p !! arena = Some (Some root) ∧
    u_fs (st_cache p) !! within path root = Some f ∧
    file_data blob_dir s.1 s'.2 =
      write_at (start x) (read_at 0 (ByteRange.bytecount x) (f_data f)) (file_data blob_dir s.1 s.2).
Proof.
  pose proof (repair_range_run blob_dir now Signature Delta signature apply_limited (rsync_from p arena) path peers x s
    Hr Hf Hs Hle He) as H.
  rewrite Hrun in H. destruct H as (_ & _ & _ & base & delta & fixed & H1 & H2 & H3 & H4).
  unfold rsync_from in H1. destruct (st_rsync _ _ _ _ _ _ p arena path x _) as [d|] eqn:E; [|done]. injection H1 as ->.
  destruct (st_rsync_run _ _ _ _ _ _ E) as (root & f & isig & A1 & A2 & A3 & A4 & A5).
  exists root, f. split; [done|]. split; [done|].
  rewrite (rsync_law _ _ _ _ (ByteRange.bytecount x) A2 A5) in H2 by (rewrite length_take; lia).
  injection H2 as <-. destruct (hd_file _ _ _ _ H4 Hf) as [_ ->]. unfold wrote. simpl.
  unfold read_at. by rewrite drop_0.
Qed.
End repair_from.

Section witnesses.
#[local] Existing Instance gmap_redb.
#[local] Existing Instance list_bimap.
#[local] Existing Instance list_bimap_laws.

(** A peer tells of a file, then its mark is set. *)
Definition storage1 : Storage := {| st_cache := unreal1; arena_storages := {[ arena_ab := Some "/root" ]} |}.
Definition storage2 : Storage := (st_update now1 id peer1 nt1 storage1).2.
Definition storage3 : Storage := (st_set_mark arena_ab foobar Own storage2).2.

Lemma storage3_runs : storage_run now1 id (λ _, None) storage1 2 storage3.
Proof.
  change 2%nat with (0 + inodes_needed nt1 + 0)%nat. apply (run_step _ _ _ _ _ _ storage2).
  - apply (run_step _ _ _ _ _ _ storage1); [apply run_refl|]. apply step_update.
    split; [done|]; intros p [= <-]; by vm_compute.
  - apply (step_mark _ _ _ _ arena_ab (Some foobar) Own). intros p [= <-]. by vm_compute.
Qed.

Lemma storage_keeps_tree_witness :
  walk (st_cache storage3) (ROOT_DIR, ADirectory) ["a"; "b"; "foo"; "bar"] = Ok (103, AFile) ∧
  ∃ c', arena_cache (st_cache storage3) arena_ab = Ok c' ∧ arena_cache_for_inode (st_cache storage3) 103 = Ok c'.
Proof.
  assert (arena_cache (st_cache storage1) arena_ab = Ok cache_ab) as Hc by (vm_compute; reflexivity).
  assert (result_bind (arena_cache (st_cache storage3) arena_ab)
    (λ c, do_lookup_path (dir_table c) 2 (Some foobar)) = Ok (103, AFile)) as Hl by (vm_compute; reflexivity).
  assert (valid foobar) as Hv by by vm_compute.
  destruct (storage_keeps_tree now1 id (λ l, reflexivity l) (λ _, None) 8 2 storage1 storage3 arena_ab cache_ab foobar
    103 AFile (unreal1_ok 10 ltac:(done)) storage3_runs Hc Hv) as (_ & c' & E & _ & Hw & Hi).
  rewrite E in Hl. simpl in Hl.
  split; [apply Hw; exact Hl|]. exists c'. split; [exact E|apply Hi; exact Hl].
Defined.

(** A blob of five zeros, open at its third byte, is repaired from a peer that has
    "abcde". *)
Definition peer_storage : Storage := {|
  st_cache := {| u_db := global_empty;
    u_fs := {["/root/foo/bar" := {| f_data := five; f_mtime := mkUnixTime 7 |}]};
    allocator := bimap_new; arena_caches := {[arena_a := {| ac_arena := arena_a; ac_arena_root := 2;
      ac_blob_dir := "/blobs"; ac_db := db w_both; ac_watch := 0; ac_history := 0 |}]} |};
  arena_storages := {[arena_a := Some "/root"]};
|}.
Definition open_blob1 : Blob := {| blob_id := 1; b_size := 5; b_hash := hash1;
  available_ranges := ByteRanges.single 0 5; pending_ranges := ByteRanges.new; offset := 2 |}.
Definition zeros_world : World :=
  {| db := arena_empty; w_ext := {| fs := {[blob_path "/blobs" 1 := {| f_data := replicate 5 x00; f_mtime := mkUnixTime 1 |}]};
       global := global_empty |}; watch_tx := 0; history_tx := 0 |}.
Definition toy_apply (_ delta : list byte) (limit : N) : option (list byte) :=
  if N.of_nat (length delta) <=? limit then Some delta else None.
Definition toy_repair :=
  repair_range "/blobs" now1 () (list byte) (λ _, tt) toy_apply
    (rsync_from (λ _, None) () (list byte) () Some (λ _ d, Some d) peer_storage arena_a) foobar [peer1]
    (ByteRange.new 2 5) (open_blob1, zeros_world).

Lemma toy_repaired : toy_repair = (Ok tt, toy_repair.2).
Proof. apply pair_of. vm_compute. reflexivity. Qed.

Lemma repair_copies_start_witness :
  file_data "/blobs" open_blob1 toy_repair.2.2 = [x00; x00; x61; x62; x63].
Proof.
  assert (readable "/blobs" (open_blob1, zeros_world)) as Hr.
  { split; [apply single_spec; by vm_compute| |by vm_compute|by vm_compute].
    intros x Hx. change (mem (ByteRanges.single 0 5) x = true) in Hx. rewrite single_mem in Hx. apply N.ltb_lt in Hx.
    unfold u64_modulus. lia. }
  destruct (repair_copies_start "/blobs" now1 (λ _, None) () (list byte) () (λ _, tt) toy_apply Some (λ _ d, Some d)
    ltac:(by intros base sig data delta limit _ [= <-] H%N.leb_le; unfold toy_apply; rewrite H)
    peer_storage arena_a foobar [peer1] (ByteRange.new 2 5) (open_blob1, zeros_world) toy_repair.2 Hr)
    as (root & f & Hroot & Hf & Hd); [by apply (bool_decide_unpack _)|by vm_compute..|apply toy_repaired|].
  assert (arena_storages peer_storage !! arena_a = Some (Some "/root")) as E by (vm_compute; reflexivity).
  rewrite E in Hroot. injection Hroot as <-.
  assert (u_fs (st_cache peer_storage) !! within foobar "/root" = Some {| f_data := five; f_mtime := mkUnixTime 7 |}) as E2
    by (vm_compute; reflexivity).
  rewrite E2 in Hf. injection Hf as <-. etrans; [exact Hd|by vm_compute].
Defined.
End witnesses.
