(* ===== verification/Household.v ===== *)
(** * Peers that talk to each other

    [crate/realize-core/src/rpc/household.rs], with the messages of
    [crate/realize-core/capnp/rpc/store.capnp]: what a peer says to another, and what
    the other makes of it: notifications, the content of files, and rsync.

    Cap'n Proto is a parameter: on a connection, calls are handled in the order in
    which they are made, until the connection is lost; the answer may be lost
    when the call was handled.  A text is checked by [to_str].  A malformed message is
    refused like one of a kind that is not known. *)
From Stdlib Require Import Strings.Byte.
From stdpp Require Import gmap.
From S2P Require Import Prelude Bytes Range RangeSet Redb Path Types Db Dirty InodeAllocator Blob Index Dirs ArenaCache CacheInv CacheSpec GlobalCache Mark Engine Realize Notifier Churten Jobs Storage.
Local Open Scope N_scope.
Local Open Scope realize_scope.

(** ** Messages *)

Record TimeMsg : Type := { tm_secs : N; tm_nsecs : N }.
Record UuidMsg : Type := { um_hi : N; um_lo : N }.
Record ByteRangeMsg : Type := { rm_start : N; rm_end : N }.

(** [Notification] of [store.capnp]; the union of another version may have more. *)
Inductive NotificationMsg : Type :=
| MAdd (index : N) (arena path : string) (size : N) (mtime : TimeMsg) (hash : list byte)
| MReplace (index : N) (arena path : string) (size : N) (mtime : TimeMsg) (hash old_hash : list byte)
| MRemove (index : N) (arena path : string) (old_hash : list byte)
| MDrop (index : N) (arena path : string) (old_hash : list byte)
| MCatchupStart (arena : string)
| MCatchup (arena path : string) (size : N) (mtime : TimeMsg) (hash : list byte)
| MCatchupComplete (arena : string) (index : N)
| MConnected (arena : string) (uuid : UuidMsg)
| MNotInSchema (tag : N).

(** What a call fails with: the [capnp::Error]s of the handler, or a lost
    connection. *)
Inductive CapnpError : Type :=
| ENotInSchema
| EInvalidText
| EInvalidPath
| EInvalidHash
| ERangeTooLarge
| EAlreadyFinished
| EChannelClosed
| EStorage (e : ReadError)
| ENoPeer
| ENoAction
| EDisconnected.

Abbreviation cresult := (result CapnpError).

Definition fill_time (t : UnixTime) : TimeMsg :=
  {| tm_secs := UnixTime.as_secs t; tm_nsecs := UnixTime.subsec_nanos t |}.
Definition parse_mtime (t : TimeMsg) : UnixTime := UnixTime.new (tm_secs t) (tm_nsecs t).

(** [Uuid::as_u64_pair] and [Uuid::from_u64_pair] *)
Definition fill_uuid (u : Uuid) : UuidMsg := {| um_hi := u / u64_modulus; um_lo := u mod u64_modulus |}.
Definition parse_uuid (u : UuidMsg) : Uuid := um_hi u * u64_modulus + um_lo u.

Definition fill_byterange (r : ByteRange) : ByteRangeMsg := {| rm_start := start r; rm_end := end_ r |}.
Definition parse_range (r : ByteRangeMsg) : ByteRange := ByteRange.new (rm_start r) (rm_end r).

Definition fill_add (arena : Arena) (index : N) (path : Path) (size : N) (mtime : UnixTime) (hash : Hash) :=
  MAdd index (arena_name arena) (as_str path) size (fill_time mtime) (hash_bytes hash).
Definition fill_replace (arena : Arena) (index : N) (path : Path) (size : N) (mtime : UnixTime) (hash old_hash : Hash) :=
  MReplace index (arena_name arena) (as_str path) size (fill_time mtime) (hash_bytes hash) (hash_bytes old_hash).
Definition fill_remove (arena : Arena) (index : N) (path : Path) (old_hash : Hash) :=
  MRemove index (arena_name arena) (as_str path) (hash_bytes old_hash).
Definition fill_drop (arena : Arena) (index : N) (path : Path) (old_hash : Hash) :=
  MDrop index (arena_name arena) (as_str path) (hash_bytes old_hash).
Definition fill_catchup (arena : Arena) (path : Path) (size : N) (mtime : UnixTime) (hash : Hash) :=
  MCatchup (arena_name arena) (as_str path) size (fill_time mtime) (hash_bytes hash).

(** What [send_notifications] puts in the message. *)
Definition fill_notification (n : Notification) : NotificationMsg :=
  match n with
  | NAdd arena index path mtime size hash => fill_add arena index path size mtime hash
  | NReplace arena index path mtime size hash old_hash => fill_replace arena index path size mtime hash old_hash
  | NRemove arena index path old_hash => fill_remove arena index path old_hash
  | NDrop arena index path old_hash => fill_drop arena index path old_hash
  | NCatchupStart arena => MCatchupStart (arena_name arena)
  | NCatchup arena path mtime size hash => fill_catchup arena path size mtime hash
  | NCatchupComplete arena index => MCatchupComplete (arena_name arena) index
  | NConnected arena uuid => MConnected (arena_name arena) (fill_uuid uuid)
  end.

Section messages.
(** [capnp::text::Reader::to_str] *)
Context (to_str : string → option string).

Definition parse_arena (text : string) : cresult Arena :=
  result_map mkArena (ok_or EInvalidText (to_str text)).

Definition parse_path (text : string) : cresult Path :=
  match to_str text with
  | None => Err EInvalidText
  | Some str => match Path.parse str with Ok p => Ok p | Err _ => Err EInvalidPath end
  end.

Definition parse_hash (hash : list byte) : cresult Hash :=
  if bool_decide (length hash = 32%nat) then Ok (mkHash hash) else Err EInvalidHash.

(** A notification of [do_notify] *)
Definition parse_notification (n : NotificationMsg) : cresult Notification :=
  match n with
  | MAdd index arena path size mtime hash =>
      result_bind (parse_arena arena) (λ arena, result_bind (parse_path path) (λ path,
        result_map (λ hash, NAdd arena index path (parse_mtime mtime) size hash) (parse_hash hash)))
  | MReplace index arena path size mtime hash old_hash =>
      result_bind (parse_arena arena) (λ arena, result_bind (parse_path path) (λ path,
        result_bind (parse_hash hash) (λ hash,
          result_map (λ old_hash, NReplace arena index path (parse_mtime mtime) size hash old_hash)
            (parse_hash old_hash))))
  | MRemove index arena path old_hash =>
      result_bind (parse_arena arena) (λ arena, result_bind (parse_path path) (λ path,
        result_map (λ old_hash, NRemove arena index path old_hash) (parse_hash old_hash)))
  | MDrop index arena path old_hash =>
      result_bind (parse_arena arena) (λ arena, result_bind (parse_path path) (λ path,
        result_map (λ old_hash, NDrop arena index path old_hash) (parse_hash old_hash)))
  | MCatchupStart arena => result_map NCatchupStart (parse_arena arena)
  | MCatchup arena path size mtime hash =>
      result_bind (parse_arena arena) (λ arena, result_bind (parse_path path) (λ path,
        result_map (λ hash, NCatchup arena path (parse_mtime mtime) size hash) (parse_hash hash)))
  | MCatchupComplete arena index => result_map (λ arena, NCatchupComplete arena index) (parse_arena arena)
  | MConnected arena uuid => result_map (λ arena, NConnected arena (parse_uuid uuid)) (parse_arena arena)
  | MNotInSchema _ => Err ENotInSchema
  end.

Fixpoint parse_all {M A} (parse : M → cresult A) (l : list M) : cresult (list A) :=
  match l with
  | [] => Ok []
  | m :: l => result_bind (parse m) (λ a, result_map (cons a) (parse_all parse l))
  end.

(** [parse_arena_set] *)
Definition parse_arena_set (l : list string) : cresult (gset Arena) :=
  result_map list_to_set (parse_all parse_arena l).

(** ** Round trips *)

(** The texts are those of Rust strings and the hashes have 32 bytes. *)
Definition is_text (s : string) : Prop := to_str s = Some s.
Definition is_hash (h : Hash) : Prop := length (hash_bytes h) = 32%nat.

Definition sendable (n : Notification) : Prop :=
  is_text (arena_name (notification_arena n)) ∧
  (∀ p, notification_path n = Some p → is_text (as_str p) ∧ valid p) ∧
  match n with
  | NAdd _ _ _ _ _ h | NRemove _ _ _ h | NDrop _ _ _ h | NCatchup _ _ _ _ h => is_hash h
  | NReplace _ _ _ _ _ h old => is_hash h ∧ is_hash old
  | _ => True
  end.

Lemma parse_time_fill t : parse_mtime (fill_time t) = t.
Proof.
  destruct t as [d]. unfold parse_mtime, fill_time, UnixTime.new, UnixTime.as_secs, UnixTime.subsec_nanos. simpl.
  f_equal. pose proof (N.div_mod d UnixTime.nanos_per_sec ltac:(done)). lia.
Qed.

Lemma parse_uuid_fill u : parse_uuid (fill_uuid u) = u.
Proof. unfold parse_uuid, fill_uuid. simpl. pose proof (N.div_mod u u64_modulus ltac:(done)). lia. Qed.

Lemma parse_range_fill r : parse_range (fill_byterange r) = r.
Proof. by destruct r. Qed.

Lemma parse_arena_text a : is_text (arena_name a) → parse_arena (arena_name a) = Ok a.
Proof. unfold parse_arena. intros ->. by destruct a. Qed.

Lemma parse_path_text p : is_text (as_str p) → valid p → parse_path (as_str p) = Ok p.
Proof. unfold parse_path. intros -> Hp. unfold valid in Hp. by rewrite Hp. Qed.

Lemma parse_hash_bytes h : is_hash h → parse_hash (hash_bytes h) = Ok h.
Proof. unfold parse_hash. intros H. rewrite bool_decide_true by done. by destruct h. Qed.

(** What is put in a message is what is taken out of it. *)
Lemma parse_fill n : sendable n → parse_notification (fill_notification n) = Ok n.
Proof.
  intros (Ha & Hp & Hh).
  destruct n as [a i p t sz h|a i p t sz h oh|a i p oh|a i p oh|a|a p t sz h|a i|a u]; simpl in *;
    rewrite parse_arena_text by done; simpl;
    rewrite ?parse_path_text by (by destruct (Hp _ eq_refl)); simpl;
    rewrite ?parse_hash_bytes by tauto; simpl; rewrite ?parse_hash_bytes by tauto; simpl;
    by rewrite ?parse_time_fill, ?parse_uuid_fill.
Qed.

Lemma parse_all_fill ns :
  Forall sendable ns → parse_all parse_notification (fill_notification <$> ns) = Ok ns.
Proof. induction 1 as [|n ns Hn _ IH]; [done|]. csimpl. rewrite parse_fill by done. simpl. by rewrite IH. Qed.

End messages.

(** ** Calls *)

(** What becomes of a call: it is answered, it is handled but the connection is lost
    before its answer comes, or it is lost. *)
Inductive Fate : Type :=
| Answered
| Unanswered
| Lost.

#[global] Instance Fate_eq_dec : EqDecision Fate.
Proof. solve_decision. Defined.

Definition call {S A} (fate : Fate) (handler : StateM S CapnpError A) : StateM S CapnpError A := λ s,
  match fate with
  | Answered => handler s
  | Unanswered => (Err EDisconnected, (handler s).2)
  | Lost => (Err EDisconnected, s)
  end.

(** ** Notifications *)

Lemma sfor_app {S E A} (l1 l2 : list A) (f : A → StateM S E ()) s :
  sfor (l1 ++ l2) f s = (do* sfor l1 f in sfor l2 f) s.
Proof.
  revert s. induction l1 as [|x l1 IH]; intros s; simpl; [done|]. unfold sbind.
  destruct (f x s) as [[[]|e] s1]; [|done]. rewrite IH. done.
Qed.

Section notifications.
Context {R : Redb} {B : Bimap}.
Context (now : UnixTime).
Context (hash_order : list (string * FileTableEntry) → list (string * FileTableEntry)).
Context (index_uuid : Arena → Uuid).
Context (to_str : string → option string).
Implicit Types (s p : Storage) (peer : Peer) (ns : list Notification).

(** [do_notify]: nothing is done when one of the notifications is refused. *)
Definition do_notify peer (msgs : list NotificationMsg) : StateM Storage CapnpError () := λ s,
  match parse_all (parse_notification to_str) msgs with
  | Err e => (Err e, s)
  | Ok notifications =>
      match sfor notifications (st_update now hash_order peer) s with
      | (Ok _, s) => (Ok tt, s)
      | (Err e, s) => (Err (EStorage (RStorage e)), s)
      end
  end.

Definition send_notifications peer (fate : Fate) ns : StateM Storage CapnpError () :=
  call fate (do_notify peer (fill_notification <$> ns)).

(** The task that [do_subscribe] leaves: batches are sent in turn, up to a lost
    connection; other failures are passed over.  [calls] are the batches that are
    taken from the channel, at most 25 notifications each; the errors are given
    for the proofs. *)
Fixpoint publisher peer (calls : list (list Notification * Fate)) s : list (cresult ()) * Storage :=
  match calls with
  | [] => ([], s)
  | (ns, fate) :: calls =>
      match send_notifications peer fate ns s with
      | (Err EDisconnected, s) => ([Err EDisconnected], s)
      | (r, s) => let '(rs, s) := publisher peer calls s in (r :: rs, s)
      end
  end.

(** [do_subscribe]: what the task starts with.  The error of [Storage::subscribe] is
    that of the task that runs it, which nobody looks at. *)
Definition do_subscribe p (arena : string) (progress : option (UuidMsg * N)) : cresult (list Notification) :=
  result_map (λ arena,
    match st_subscribe index_uuid p arena
            ((λ '(uuid, last_seen), {| pr_uuid := parse_uuid uuid; last_seen := last_seen |}) <$> progress) with
    | Ok ns => ns
    | Err _ => []
    end) (parse_arena to_str arena).

(** ** Subscribing *)

(** [arenas]: those that can be subscribed to *)
Definition store_arenas p : list string := arena_name <$> Storage.indexed_arenas p.

Fixpoint get_progress s peer (l : list Arena) : cresult (gmap Arena Progress) :=
  match l with
  | [] => Ok ∅
  | arena :: l =>
      match GlobalCache.peer_progress (st_cache s) peer arena with
      | Err e => Err (EStorage (RStorage e))
      | Ok progress =>
          result_map (λ map, match progress with Some seen => <[arena := seen]> map | None => map end)
            (get_progress s peer l)
      end
  end.

(** The requests of [subscribe_self], for the arenas that the peer has. *)
Definition subscribe_requests s peer (arenas : list string) : cresult (list (string * option (UuidMsg * N))) :=
  result_bind (parse_arena_set to_str arenas) (λ peer_arenas,
    let goal_arenas := filter (λ a, a ∈ peer_arenas) (GlobalCache.arenas (st_cache s)) in
    result_map (λ progress,
      (λ arena, (arena_name arena, (λ (seen : Progress), (fill_uuid (pr_uuid seen), last_seen seen)) <$> progress !! arena)) <$> goal_arenas)
      (get_progress s peer goal_arenas)).

(** They are made in turn, up to the first that fails; the result, and what each one
    that was handled starts with. *)
Fixpoint subscribe_each p (requests : list ((string * option (UuidMsg * N)) * Fate)) : cresult () * list (list Notification) :=
  match requests with
  | [] => (Ok tt, [])
  | ((arena, progress), fate) :: requests =>
      match fate, do_subscribe p arena progress with
      | Answered, Ok ns => let '(r, l) := subscribe_each p requests in (r, ns :: l)
      | Answered, Err e => (Err e, [])
      | Unanswered, Ok ns => (Err EDisconnected, [ns])
      | _, _ => (Err EDisconnected, [])
      end
  end.

(** ** What a subscriber takes in *)

Context `{!RedbLaws R, !BimapLaws B}.
Context (hash_order_perm : ∀ l, hash_order l ≡ₚ l).

(** The batches do not matter: when none fails, the storage takes in all the
    notifications in the order in which they were put in the channel. *)
Lemma publisher_run peer calls s rs s' :
  Forall (sendable to_str) (mjoin calls.*1) →
  publisher peer calls s = (rs, s') → Forall (eq (Ok tt)) rs →
  sfor (mjoin calls.*1) (st_update now hash_order peer) s = (Ok tt, s').
Proof.
  revert s rs. induction calls as [|[ns fate] calls IH]; intros s rs Hns; simpl.
  { by intros [= <- <-]. }
  csimpl in Hns. apply Forall_app in Hns as [Hns Hrest]. intros Hrun Hok. csimpl.
  assert (∃ s1 rs1, sfor ns (st_update now hash_order peer) s = (Ok tt, s1) ∧
    publisher peer calls s1 = (rs1, s') ∧ Forall (eq (Ok tt)) rs1) as (s1 & rs1 & E1 & E2 & Hok1).
  { unfold send_notifications, call, do_notify in Hrun. rewrite parse_all_fill in Hrun by done.
    destruct fate; [|by injection Hrun as <- <-; inversion Hok..].
    destruct (sfor ns _ s) as [[[]|e] s1].
    - destruct (publisher peer calls s1) as [rs1 s2] eqn:E. injection Hrun as <- <-.
      exists s1, rs1. split; [done|]. split; [done|]. by inversion Hok.
    - destruct (publisher peer calls s1) as [rs1 s2] eqn:E. injection Hrun as <- <-. by inversion Hok. }
  rewrite sfor_app. unfold sbind. rewrite E1. by eapply IH.
Qed.

(** The arena of a storage, as its operations see it. *)
Definition arena_world s c : World := in_world c (u_db (st_cache s)) (u_fs (st_cache s)).

Lemma st_update_world peer n s root c :
  arena_storages s !! notification_arena n = Some root →
  arena_caches (st_cache s) !! notification_arena n = Some c →
  let '(r, s') := st_update now hash_order peer n s in
  ∃ w', storage_update (ac_arena c) (ac_arena_root c) (allocator (st_cache s)) (ac_blob_dir c) now hash_order
          root peer n (arena_world s c) = (r, w') ∧
    arena_caches (st_cache s') !! notification_arena n = Some (from_world c w') ∧
    arena_world s' (from_world c w') = w' ∧
    arena_storages s' = arena_storages s ∧ allocator (st_cache s') = allocator (st_cache s).
Proof.
  intros Hr Hc. unfold st_update, on_arena, arena_storage. rewrite Hr. simpl.
  unfold on_cache, arena_cache. rewrite Hc. simpl. fold (arena_world s c).
  destruct (storage_update _ _ _ _ _ _ root peer n (arena_world s c)) as [r w'].
  exists w'. split; [done|]. split; [apply lookup_insert_eq|]. split; [|done].
  unfold arena_world, in_world. by destruct w' as [? [] ? ?].
Qed.

Lemma st_updates_world peer a ns s root c :
  Forall (λ n, notification_arena n = a) ns →
  arena_storages s !! a = Some root → arena_caches (st_cache s) !! a = Some c →
  let '(r, s') := sfor ns (st_update now hash_order peer) s in
  ∃ c', notify (ac_arena c) (ac_arena_root c) (allocator (st_cache s)) (ac_blob_dir c) now hash_order
          root peer ns (arena_world s c) = (r, arena_world s' c') ∧
    arena_caches (st_cache s') !! a = Some c' ∧ ac_arena_root c' = ac_arena_root c.
Proof.
  intros Hns. revert s c. induction Hns as [|n ns Hn _ IH]; intros s c Hr Hc; simpl.
  { by exists c. }
  subst a. unfold sbind. pose proof (st_update_world peer n s root c Hr Hc) as H.
  destruct (st_update now hash_order peer n s) as [r1 s1].
  destruct H as (w1 & H1 & H2 & H3 & H4 & H5).
  unfold notify. cbn [sfor]. unfold sbind. rewrite H1. destruct r1 as [[]|e].
  - rewrite <- H4 in Hr. specialize (IH s1 (from_world c w1) Hr H2).
    rewrite H3, H5 in IH. exact IH.
  - exists (from_world c w1). by rewrite H3.
Qed.

(** The hash that is seen in a cache of a file of a peer. *)
Definition cache_sees c peer (q : Path) : option Hash :=
  snd <$> seen (ac_arena_root c) (cache (ac_db c)) q (peer_name peer).

Lemma st_updates_ok peer ns n s :
  Forall (well_formed peer) ns → storage_ok (batch_inodes ns + n) s →
  storage_ok n (sfor ns (st_update now hash_order peer) s).2.
Proof.
  intros Hns. revert s. induction Hns as [|nt ns Hn _ IH]; intros s Hs; simpl; [done|].
  unfold batch_inodes in Hs. csimpl in Hs. fold (batch_inodes ns) in Hs.
  destruct (storage_step_ok now hash_order hash_order_perm (λ _, None) (batch_inodes ns + n) (inodes_needed nt) s
    (st_update now hash_order peer nt s).2) as [H1 _]; [by rewrite Nat.add_assoc|by apply step_update|].
  unfold sbind. destruct (st_update now hash_order peer nt s) as [[[]|e] s1]; simpl in *; [by apply IH|].
  eapply unreal_weaken; [|exact H1]. lia.
Qed.

Lemma changed_arena a ix at_ from to :
  Forall (λ n, notification_arena n = a) (changed a ix at_ from to).1.
Proof.
  apply Forall_forall. intros n (x & _ & Hx)%list_elem_of_omap. destruct x as [i ev]. unfold notification_for in Hx.
  destruct ev; repeat case_match; by simplify_eq.
Qed.

(** C4: what happens to the index of a peer reaches the storage of another: what the
    history says happened since some index is sent, in batches of any sizes; unless a
    batch fails, the storage stays well formed, and of each path that was in step with
    the index the cache of the arena then sees the file, with its hash, or none, as the
    index has it now.  The proviso is for a path that was dropped since and is back: of
    these the cache may keep the old version. *)
Theorem household_sync m a root root_a peer wa wb calls s s' rs c
  (Hk : peer_name peer ≠ "") (Ha : world_ok wa)
  (Hsteps : rtc (index_step a root_a) wa wb) (Hroom : history_tx wb + 1 < u64_modulus)
  (Hroot : arena_storages s !! a = Some root) (Hc : arena_cache (st_cache s) a = Ok c)
  (Hcalls : mjoin calls.*1 = (changed a (index (db wb)) (λ _, index (db wb)) (history_tx wa) (history_tx wb)).1)
  (Hsend : Forall (sendable to_str) (mjoin calls.*1))
  (Hs : storage_ok (batch_inodes (mjoin calls.*1) + m) s)
  (Hrun : publisher peer calls s = (rs, s')) (Hrs : Forall (eq (Ok tt)) rs) :
  storage_ok m s' ∧ ∃ c', arena_cache (st_cache s') a = Ok c' ∧
    ∀ q, valid q → cache_sees c peer q = hashes wa q →
      not_dropped_and_back (index (db wb)) (history_tx wa) q → cache_sees c' peer q = hashes wb q.
Proof.
  apply publisher_run in Hrun; [|done|done]. set (ns := mjoin calls.*1) in *.
  assert (Forall (well_formed peer) ns) as Hwf.
  { eapply Forall_impl; [exact Hsend|]. intros n (_ & Hp & _). split; [done|]. intros p E. by destruct (Hp p E). }
  pose proof (st_updates_ok peer ns m s Hwf Hs) as Hok. rewrite Hrun in Hok. split; [exact Hok|].
  unfold arena_cache in Hc. destruct (arena_caches (st_cache s) !! a) as [c0|] eqn:Ec; [|done]. injection Hc as ->.
  destruct (uk_cache _ _ Hs _ _ Ec) as [Eca [F1 F2 F3]].
  assert (Forall (λ n, notification_arena n = a) ns) as Har by (rewrite Hcalls; apply changed_arena).
  pose proof (st_updates_world peer a ns s root c Har Hroot Ec) as H. rewrite Hrun, Eca in H.
  destruct H as (c' & H1 & H2 & H3). exists c'. unfold arena_cache. rewrite H2. split; [done|].
  rewrite Eca in F2. rewrite Hcalls in H1, Hs, F3.
  intros q Hq Hsync Hdrop. unfold cache_sees. rewrite H3.
  apply (sync_since a (ac_arena_root c) (allocator (st_cache s)) (ac_blob_dir c) now hash_order hash_order_perm F2
    m root root_a peer q wa wb (arena_world s c) (arena_world s' c') Hk Ha Hsteps Hroom Hq Hsync Hdrop F3 H1).
Qed.

(** ** A batch that fails *)

Lemma batch_inodes_app ns1 ns2 : batch_inodes (ns1 ++ ns2) = (batch_inodes ns1 + batch_inodes ns2)%nat.
Proof. unfold batch_inodes. induction ns1 as [|n ns1 IH]; csimpl; [done|]. rewrite IH. lia. Qed.

(** What is recorded of the progress of the peer by an update that succeeds. *)
Lemma st_update_progress peer nt n s s' :
  storage_ok (inodes_needed nt + n) s → well_formed peer nt →
  st_update now hash_order peer nt s = (Ok tt, s') →
  ∃ c c', arena_cache (st_cache s') (notification_arena nt) = Ok c' ∧
    progress_step (peer_name peer) nt (cache (ac_db c)) (cache (ac_db c')).
Proof.
  intros Hs Hwf Hrun. unfold arena_cache.
  destruct (arena_storages s !! notification_arena nt) as [root|] eqn:Er.
  2:{ unfold st_update, on_arena, arena_storage in Hrun. by rewrite Er in Hrun. }
  destruct (arena_caches (st_cache s) !! notification_arena nt) as [c|] eqn:Ec.
  2:{ unfold st_update, on_arena, arena_storage, on_cache, arena_cache in Hrun. by rewrite Er, Ec in Hrun. }
  destruct (uk_cache _ _ Hs _ _ Ec) as [_ [F1 F2 F3]].
  pose proof (st_update_world peer nt s root c Er Ec) as H. rewrite Hrun in H.
  destruct H as (w' & H1 & H2 & _ & _ & _). exists c, (from_world c w'). rewrite H2. split; [done|].
  unfold storage_update in H1.
  destruct (storage_update_cache (ac_arena c) root nt (arena_world s c)) as [E1 E2].
  set (w1 := match root with Some _ => _ | None => _ end) in *.
  assert (cache_ok (ac_arena_root c) (inodes_needed nt + n) (cache_at w1) (global_at w1)) as Hc1 by (by rewrite E1, E2).
  pose proof (cache_update_run (ac_arena c) (ac_arena_root c) (allocator (st_cache s)) (ac_blob_dir c) now hash_order
    hash_order_perm F2 n peer nt w1 Hwf Hc1) as H. rewrite H1 in H.
  pose proof (uo_progress _ _ _ _ _ _ H) as Hp. by rewrite E1 in Hp.
Qed.

Lemma resent_since a uuid pr ix at_ (cur i : N) nt j :
  pr_uuid pr = uuid → last_seen pr = i → 0 < i → i + 1 < u64_modulus →
  nt ∈ subscribe a uuid (Some pr) ix at_ cur → notification_index nt = Some j → i < j.
Proof.
  intros Hu Hl Hi Hroom Hin Hj. unfold subscribe, subscribed_from in Hin.
  rewrite bool_decide_true, Hl in Hin by done. destruct (N.eqb_spec i 0) as [|_]; [lia|]. simpl in Hin.
  apply elem_of_cons in Hin as [->|Hin]; [done|].
  apply list_elem_of_omap in Hin as ([k ev] & (_ & Hlo & _)%elem_of_range & Hx).
  assert (k = j) as ->.
  { unfold notification_for in Hx. destruct ev; repeat case_match; simplify_eq; simpl in Hj; by simplify_eq. }
  rewrite u64_add_small in Hlo by done. unfold above in Hlo. simpl in Hlo. lia.
Qed.

Lemma do_notify_run peer ns s :
  Forall (sendable to_str) ns →
  do_notify peer (fill_notification <$> ns) s =
  match sfor ns (st_update now hash_order peer) s with
  | (Ok _, s) => (Ok tt, s)
  | (Err e, s) => (Err (EStorage (RStorage e)), s)
  end.
Proof. intros H. unfold do_notify. by rewrite parse_all_fill. Qed.

(** When the storage refuses a notification, the rest of its batch is lost for
    good: the batches that follow are taken in, the last of them is recorded as the
    last one that was seen, and when the peer subscribes again it is sent nothing
    from before it. *)
Theorem failed_batch_lost n peer ns1 nt ns2 ns3 last (i : N) e s s1 s2 s3
  (Hs : storage_ok (batch_inodes (ns1 ++ nt :: ns3 ++ [last]) + n) s) (Hk : peer_name peer ≠ "")
  (Hsend : Forall (sendable to_str) (ns1 ++ nt :: ns2 ++ ns3 ++ [last]))
  (H1 : sfor ns1 (st_update now hash_order peer) s = (Ok tt, s1))
  (H2 : st_update now hash_order peer nt s1 = (Err e, s2))
  (H3 : sfor (ns3 ++ [last]) (st_update now hash_order peer) s2 = (Ok tt, s3))
  (Hi : notification_index last = Some i) :
  publisher peer [(ns1 ++ nt :: ns2, Answered); (ns3 ++ [last], Answered)] s =
    ([Err (EStorage (RStorage e)); Ok tt], s3) ∧
  ∀ pr, GlobalCache.peer_progress (st_cache s3) peer (notification_arena last) = Ok (Some pr) →
    last_seen pr = i ∧
    ∀ ix at_ cur nt' j, 0 < i → i + 1 < u64_modulus →
      nt' ∈ subscribe (notification_arena last) (pr_uuid pr) (Some pr) ix at_ cur →
      notification_index nt' = Some j → i < j.
Proof.
  assert (∀ nt', nt' ∈ ns1 ++ nt :: ns2 ++ ns3 ++ [last] → sendable to_str nt') as Hall by by apply Forall_forall.
  split.
  { simpl. unfold send_notifications, call. rewrite do_notify_run by (apply Forall_forall; set_solver).
    rewrite sfor_app. unfold sbind at 1. rewrite H1. cbn [sfor]. unfold sbind at 1. rewrite H2.
    simpl. rewrite do_notify_run by (apply Forall_forall; set_solver). by rewrite H3. }
  assert (∀ l, (∀ nt', nt' ∈ l → nt' ∈ ns1 ++ nt :: ns2 ++ ns3 ++ [last]) → Forall (well_formed peer) l) as Hwf.
  { intros l Hl. apply Forall_forall. intros nt' Hin. destruct (Hall nt' (Hl _ Hin)) as (_ & Hp & _).
    split; [done|]. intros p E. by destruct (Hp p E). }
  assert (batch_inodes (ns1 ++ nt :: ns3 ++ [last]) =
    (batch_inodes ns1 + (inodes_needed nt + (batch_inodes ns3 + inodes_needed last)))%nat) as Eb.
  { rewrite batch_inodes_app. unfold batch_inodes at 2. csimpl. fold (batch_inodes (ns3 ++ [last])).
    rewrite batch_inodes_app. unfold batch_inodes at 3. csimpl. lia. }
  assert (Forall (well_formed peer) ns1) as W1 by (apply Hwf; set_solver).
  assert (Forall (well_formed peer) ns3) as W3 by (apply Hwf; set_solver).
  assert (Forall (well_formed peer) [nt]) as Wn by (apply Hwf; set_solver).
  assert (well_formed peer last) as Wl by (apply (Forall_singleton (well_formed peer)), Hwf; set_solver).
  rewrite Eb, <- !Nat.add_assoc in Hs.
  pose proof (st_updates_ok peer ns1 _ s W1 Hs) as Hs1. rewrite H1 in Hs1. simpl in Hs1.
  pose proof (st_updates_ok peer [nt] (batch_inodes ns3 + (inodes_needed last + n)) s1 Wn) as Hs2.
  unfold batch_inodes at 1 in Hs2. simpl in Hs2. unfold sbind in Hs2. rewrite H2, Nat.add_0_r in Hs2.
  specialize (Hs2 Hs1). simpl in Hs2.
  pose proof (st_updates_ok peer ns3 _ s2 W3 Hs2) as Hs3.
  rewrite sfor_app in H3. unfold sbind in H3. destruct (sfor ns3 _ s2) as [[[]|] s2'] eqn:E3; [|done]. simpl in H3, Hs3.
  unfold sbind in H3. destruct (st_update now hash_order peer last s2') as [[[]|] s4] eqn:E4; [|done].
  injection H3 as <-.
  destruct (st_update_progress peer last n s2' s4 Hs3 Wl E4) as (c & c' & Hc' & _ & Hp).
  unfold GlobalCache.peer_progress. rewrite Hc'. simpl. intros pr [= Hpr].
  unfold do_peer_progress in Hpr. destruct (tbl_get _ (cache_peer_table _)) as [en|]; [|done].
  assert (tbl_get (peer_name peer) (cache_notification_table (cache (ac_db c'))) = Some i) as El.
  { destruct last; simpl in Hi; simplify_eq; apply Hp. }
  rewrite El in Hpr. injection Hpr as <-. split; [done|]. intros ix at_ cur nt' j Hpos Hroom Hin Hj.
  exact (resent_since _ _ {| pr_uuid := uuid en; last_seen := i |} ix at_ cur i nt' j eq_refl eq_refl Hpos Hroom Hin Hj).
Qed.
End notifications.

(** ** Reading files of a peer *)

(** [IoError.Errno] of [store.capnp] *)
Inductive Errno : Type :=
| EnOther
| EnGenericIo
| EnUnavailable
| EnPermissionDenied
| EnNotADirectory
| EnIsADirectory
| EnInvalidInput
| EnClosed
| EnAborted
| EnNotFound
| EnResourceBusy
| EnInvalidPath.

Definition read_errno (err : ReadError) : Errno :=
  match err with
  | RStorage Database => EnUnavailable
  | RStorage Io => EnGenericIo
  | RIo kind =>
      match kind with
      | KNotFound => EnNotFound
      | KPermissionDenied => EnPermissionDenied
      | KConnectionAborted => EnAborted
      | KNotADirectory => EnNotADirectory
      | KIsADirectory => EnIsADirectory
      | KInvalidInput => EnInvalidInput
      | KResourceBusy => EnResourceBusy
      | _ => EnGenericIo
      end
  | RStorage (ByteConversion (ConvPath _)) => EnInvalidPath
  | RStorage (ByteConversion _) => EnUnavailable
  | RStorage Unavailable => EnUnavailable
  | RStorage NotFound => EnNotFound
  | RStorage NotADirectory => EnNotADirectory
  | RStorage IsADirectory => EnIsADirectory
  | RStorage JoinError => EnOther
  | RStorage InvalidRsyncSignature => EnInvalidInput
  | RInvalidRsyncSignature => EnInvalidInput
  | RStorage (UnknownArena _) => EnNotFound
  | RStorage (NoLocalStorage _) => EnNotFound
  end.

Definition errno_to_io_error (errno : Errno) : IoKind :=
  match errno with
  | EnOther | EnGenericIo | EnUnavailable | EnClosed => KOther
  | EnPermissionDenied => KPermissionDenied
  | EnNotADirectory => KNotADirectory
  | EnIsADirectory => KIsADirectory
  | EnInvalidInput => KInvalidInput
  | EnAborted => KConnectionAborted
  | EnNotFound => KNotFound
  | EnResourceBusy => KResourceBusy
  | EnInvalidPath => KInvalidFilename
  end.

(** The message of [finish]; the error of another version may be one that is not
    known. *)
Inductive FinishMsg : Type :=
| FinishOk
| FinishErr (errno : Errno)
| FinishNotInSchema.

(** [ReadCallbackServer], and the channel to the one who reads: whether it still has
    its sender, and what was put in the channel.  [calls] counts the calls that were
    made to it. *)
Record Callback : Type := {
  calls : nat;
  has_tx : bool;
  received : list (result IoKind chunk);
}.

Definition Callback_new : Callback := {| calls := 0; has_tx := true; received := [] |}.

Definition count_call (c : Callback) : Callback :=
  {| calls := S (calls c); has_tx := has_tx c; received := received c |}.
Definition take_tx (c : Callback) : Callback :=
  {| calls := calls c; has_tx := false; received := received c |}.
Definition tx_send (x : result IoKind chunk) (c : Callback) : Callback :=
  {| calls := calls c; has_tx := has_tx c; received := received c ++ [x] |}.

(** [ReadRequest] *)
Record ReadRequest : Type := {
  rq_arena : string;
  rq_path : string;
  rq_start_offset : N;
  rq_limit : N;
}.

Definition BUF_SIZE : N := 8 * 1024.

Section reading.
Context {R : Redb} {B : Bimap}.
Context (to_str : string → option string).
(** The operating system: opening a file, moving in it, and what the [k]th read of
    the open file gives, at a position, of at most so many bytes. *)
Context (os_open : string → option IoKind).
Context (os_seek : N → option IoKind).
Context (os_read : nat → N → N → result IoKind (list byte)).
(** What becomes of the [k]th call of the callback; whether it is one that the stream
    has room for, so that it is taken for answered at once; and whether the receiver
    of the channel is still there. *)
Context (fate : nat → Fate).
Context (early : nat → bool).
Context (listening : nat → bool).
Implicit Types (c : Callback).

Definition CallbackM (A : Type) : Type := StateM Callback CapnpError A.

Definition cb_chunk (offset : N) (data : list byte) : CallbackM () := λ c,
  if has_tx c then
    if listening (calls c) then (Ok tt, tx_send (Ok (offset, data)) c) else (Err EChannelClosed, c)
  else (Err EAlreadyFinished, c).

Definition cb_finish (msg : FinishMsg) : CallbackM () := λ c,
  if has_tx c then
    let c := take_tx c in
    match msg with
    | FinishOk => (Ok tt, c)
    | FinishErr errno =>
        if listening (calls c) then (Ok tt, tx_send (Err (errno_to_io_error errno)) c)
        else (Err EChannelClosed, c)
    | FinishNotInSchema => (Err ENotInSchema, c)
    end
  else (Err EAlreadyFinished, c).

(** A call of the callback *)
Definition callback_call (handler : CallbackM ()) : CallbackM () := λ c,
  let '(r, c') := call (fate (calls c)) handler c in (r, count_call c').

(** A call of the stream *)
Definition stream_call (handler : CallbackM ()) : CallbackM () := λ c,
  let '(r, c') := callback_call handler c in
  (if early (calls c) then Ok tt else r, c').

(** [send_chunks], on a reader that may have a limit ([take]); it may never end. *)
Fixpoint send_chunks (fuel : nat) (k : nat) (pos : N) (limit : option N) (offset : N) c
  : option (result ReadError bool * Callback) :=
  match fuel with
  | O => None
  | S fuel =>
      let read :=
        match limit with
        | Some 0 => Ok []
        | Some l => os_read k pos (N.min BUF_SIZE l)
        | None => os_read k pos BUF_SIZE
        end in
      match read with
      | Err kind => Some (Err (RIo kind), c)
      | Ok [] => Some (Ok true, c)
      | Ok d =>
          let n := N.of_nat (length d) in
          let '(r, c) := stream_call (cb_chunk offset d) c in
          match r with
          | Err _ => Some (Ok false, c)
          | Ok _ => send_chunks fuel (S k) (pos + n) ((λ l, l - n) <$> limit) (u64_add offset n) c
          end
      end
  end.

(** [read_all] *)
Definition read_all (fuel : nat) (p : Storage) (arena : Arena) (path : Path) (offset limit : N) c
  : option (result ReadError bool * Callback) :=
  match st_reader os_open p arena path with
  | Err e => Some (Err e, c)
  | Ok reader =>
      match (if 0 <? offset then os_seek offset else None) with
      | Some kind => Some (Err (RIo kind), c)
      | None =>
          let reader := if 0 <? offset then Reader_seek offset reader else reader in
          send_chunks fuel 0 (rd_pos reader) (if 0 <? limit then Some limit else None) offset c
      end
  end.

(** What [do_read] tells the callback when it is done. *)
Definition finish_message (read_result : result ReadError bool) : FinishMsg :=
  match read_result with
  | Err err => FinishErr (read_errno err)
  | Ok complete => if complete then FinishOk else FinishErr EnAborted
  end.

Definition do_read (fuel : nat) (p : Storage) (req : ReadRequest) c : option (cresult () * Callback) :=
  match parse_arena to_str (rq_arena req), parse_path to_str (rq_path req) with
  | Err e, _ | _, Err e => Some (Err e, c)
  | Ok arena, Ok path =>
      (λ '(read_result, c), callback_call (cb_finish (finish_message read_result)) c)
        <$> read_all fuel p arena path (rq_start_offset req) (rq_limit req) c
  end.

(** [execute_read]; the limit is 0 when there is none.  [asked] is what becomes of the
    request itself. *)
Definition execute_read (fuel : nat) (client : option Storage) (asked : Fate)
    (arena : Arena) (path : Path) (offset : N) (limit : option N) c : option (result IoKind () * Callback) :=
  match client with
  | None => Some (Err KNotFound, c)
  | Some p =>
      let req := {| rq_arena := arena_name arena; rq_path := as_str path;
                    rq_start_offset := offset; rq_limit := default 0 limit |} in
      match asked with
      | Lost => Some (Err KOther, c)
      | Unanswered => (λ '(_, c), (Err KOther, c)) <$> do_read fuel p req c
      | Answered =>
          (λ '(r, c), (match r with Ok _ => Ok tt | Err _ => Err KOther end, c)) <$> do_read fuel p req c
      end
  end.

(** [HouseholdOperation::Read] of [execute]: what the one who reads receives in all. *)
Definition read_stream (fuel : nat) (client : option Storage) (asked : Fate)
    (arena : Arena) (path : Path) (offset : N) (limit : option N) : option (list (result IoKind chunk)) :=
  (λ '(r, c),
     match r with
     | Ok _ => received c
     | Err kind => if listening (calls c) then received (tx_send (Err kind) c) else received c
     end) <$> execute_read fuel client asked arena path offset limit Callback_new.

(** ** What is received *)

(** The file is [data] as long as it is read: a read gives some bytes of it, at least
    one unless it is at the end. *)
Definition reads_as (data : list byte) : Prop := ∀ k pos n d, os_read k pos n = Ok d →
  d = read_at pos (N.of_nat (length d)) data ∧ N.of_nat (length d) ≤ n ∧
  (d = [] → 0 < n → N.of_nat (length data) ≤ pos).

(** Chunks of [data] that follow each other, from [o] to [e]. *)
Fixpoint contiguous (data : list byte) (o : N) (l : list chunk) (e : N) : Prop :=
  match l with
  | [] => o = e
  | c :: l =>
      c.1 = o ∧ c.2 ≠ [] ∧ c.2 = read_at o (N.of_nat (length c.2)) data ∧
      contiguous data (o + N.of_nat (length c.2)) l e
  end.

Lemma read_at_end data o d :
  d ≠ [] → d = read_at o (N.of_nat (length d)) data → o + N.of_nat (length d) ≤ N.of_nat (length data).
Proof.
  intros Hd E. apply (f_equal length) in E. unfold read_at in E. rewrite length_take, length_drop in E.
  assert (length d ≠ 0%nat) by by destruct d. lia.
Qed.

Lemma contiguous_spec data o l e :
  contiguous data o l e →
  o ≤ e ∧ mjoin l.*2 = slice o e data ∧ (l ≠ [] → e ≤ N.of_nat (length data)) ∧
  (∀ ch, ch ∈ l → chunk_end ch ≤ N.of_nat (length data) ∧ ch.2 = read_at ch.1 (N.of_nat (length ch.2)) data) ∧
  ∀ x, o ≤ x → x < e → covered (chunk_range <$> l) x = true.
Proof.
  revert o. induction l as [|[o' d] l IH]; intros o; simpl.
  { intros ->. split; [done|]. split; [by rewrite slice_nil|]. split; [done|].
    split; [by intros c ?%not_elem_of_nil|]. intros x. lia. }
  intros (-> & Hd & E & H). pose proof (read_at_end data o d Hd E) as Hle.
  destruct (IH _ H) as (I1 & I2 & I3 & I4 & I5). split; [lia|]. csimpl. split.
  { rewrite I2, E at 1. rewrite read_at_slice. apply slice_app; lia. }
  split; [|split].
  - intros _. destruct l as [|c l]; [simpl in H; lia|by apply I3].
  - intros c [->|Hc]%elem_of_cons; [by split|by apply I4].
  - intros x H1 H2. destruct (N.lt_ge_cases x (o + N.of_nat (length d))) as [Hx|Hx].
    + unfold covered. csimpl. apply orb_true_intro. left. apply contains_iff. unfold chunk_range, chunk_end. simpl. lia.
    + unfold covered. csimpl. apply orb_true_intro. right. by apply I5.
Qed.

(** Where a read from [pos] ends. *)
Definition read_end (data : list byte) (pos : N) (limit : option N) : N :=
  let len := N.of_nat (length data) in
  N.max pos (match limit with Some n => N.min (pos + n) len | None => len end).

Context (data : list byte) (Hread : reads_as data) (Hlen : N.of_nat (length data) < u64_modulus).
(** A connection that is lost stays lost; somebody reads. *)
Context (Hlost : ∀ k, fate k ≠ Answered → fate (S k) = Lost).
Context (Hlisten : ∀ k, listening k = true).

Record chunks_sent (pos : N) (limit : option N) c (r : result ReadError bool) c' (l : list chunk) (e : N) : Prop := {
  cs_tx : has_tx c' = true;
  cs_received : received c' = received c ++ (Ok <$> l);
  cs_contiguous : contiguous data pos l e;
  cs_lost : fate (calls c) = Lost → l = [] ∧ fate (calls c') = Lost;
  cs_whole : fate (calls c') = Lost ∨ (r = Ok true → e = read_end data pos limit);
}.

Lemma stream_call_run offset d c :
  has_tx c = true →
  let '(r, c1) := stream_call (cb_chunk offset d) c in
  has_tx c1 = true ∧ calls c1 = S (calls c) ∧
  received c1 = received c ++ (if decide (fate (calls c) = Lost) then [] else [Ok (offset, d)]) ∧
  (fate (calls c) ≠ Answered → fate (calls c1) = Lost) ∧
  (fate (calls c) = Answered → r = Ok tt).
Proof.
  intros Htx. unfold stream_call, callback_call, call, cb_chunk. pose proof (Hlost (calls c)) as Hl.
  destruct (fate (calls c)) eqn:Ef; simpl; rewrite ?Htx, ?Hlisten; simpl; rewrite ?app_nil_r;
    split_and!; auto; try done; by destruct (early (calls c)).
Qed.

Lemma send_chunks_run fuel k pos limit c r c' :
  has_tx c = true → send_chunks fuel k pos limit pos c = Some (r, c') →
  ∃ l e, chunks_sent pos limit c r c' l e.
Proof.
  revert k pos limit c. induction fuel as [|fuel IH]; intros k pos limit c Htx; [done|]. cbn [send_chunks].
  set (rd := match limit with Some 0 => _ | Some l => _ | None => _ end).
  assert (∀ d, rd = Ok d → d = read_at pos (N.of_nat (length d)) data ∧
    (d = [] → pos = read_end data pos limit) ∧
    (∀ n, limit = Some n → N.of_nat (length d) ≤ n)) as Hrd.
  { intros d Hd. unfold rd in Hd. destruct limit as [[|n]|].
    - injection Hd as <-. split; [by unfold read_at|]. split; [intros _; unfold read_end; lia|].
      intros n [= <-]. simpl. lia.
    - destruct (Hread _ _ _ _ Hd) as (H1 & H2 & H3). split; [done|]. split.
      + intros E. specialize (H3 E ltac:(unfold BUF_SIZE; lia)). unfold read_end. lia.
      + intros m [= <-]. lia.
    - destruct (Hread _ _ _ _ Hd) as (H1 & H2 & H3). split; [done|]. split; [|done].
      intros E. specialize (H3 E ltac:(by unfold BUF_SIZE)). unfold read_end. lia. }
  destruct rd as [[|b d]|kind].
  - intros [= <- <-]. exists [], pos. destruct (Hrd [] eq_refl) as (_ & H & _).
    split; simpl; [done|by rewrite app_nil_r|done|done|right; intros _; by apply H].
  - set (d' := b :: d) in *. destruct (Hrd d' eq_refl) as (H1 & _ & H3). clear Hrd.
    assert (d' ≠ []) as Hd' by done. clearbody d'. pose proof (read_at_end data pos d' Hd' H1) as Hle.
    pose proof (stream_call_run pos d' c Htx) as H. destruct (stream_call (cb_chunk pos d') c) as [r1 c1].
    destruct H as (C1 & C2 & C3 & C4 & C5).
    assert (read_end data (pos + N.of_nat (length d')) ((λ l, l - N.of_nat (length d')) <$> limit) =
      read_end data pos limit) as Eend.
    { unfold read_end. destruct limit as [n|]; simpl; [specialize (H3 n eq_refl)|]; lia. }
    destruct r1 as [[]|err].
    + rewrite u64_add_small by lia. intros Hrun. destruct (IH _ _ _ _ C1 Hrun) as (l & e & [I1 I2 I3 I4 I5]).
      rewrite Eend in I5. destruct (decide (fate (calls c) = Lost)) as [Ef|Ef].
      * destruct I4 as [-> Hl]; [by apply C4; rewrite Ef|]. exists [], pos. csimpl in I2. rewrite C3, !app_nil_r in I2.
        split; [done|by rewrite I2; csimpl; rewrite app_nil_r|done|done|by left].
      * exists ((pos, d') :: l), e. split; [done|by rewrite I2, C3, <- app_assoc|done|done|done].
    + intros [= <- <-]. destruct (decide (fate (calls c) = Lost)) as [Ef|Ef].
      * exists [], pos. assert (fate (calls c1) = Lost) as Hl by (apply C4; by rewrite Ef).
        split; [done|by rewrite C3|done|done|by left].
      * exists [(pos, d')], (pos + N.of_nat (length d')). split; [done|by rewrite C3|done|done|by right].
  - intros [= <- <-]. exists [], pos. split; [done|by rewrite app_nil_r|done|done|by right].
Qed.

(** What the callback ends with. *)
Lemma cb_finish_run m c :
  has_tx c = true → m ≠ FinishNotInSchema →
  let '(r, c') := callback_call (cb_finish m) c in
  ∃ tail, received c' = received c ++ (Err <$> tail) ∧
    (tail = [] → r = Ok tt → m = FinishOk ∧ fate (calls c) = Answered) ∧
    (fate (calls c) = Answered → r = Ok tt ∧ (m = FinishOk → tail = [])).
Proof.
  intros Htx Hm. unfold callback_call, call, cb_finish.
  assert (∀ x : Callback, received x = received x ++ (Err <$> [])) as Hnil by (intros x; by rewrite app_nil_r).
  destruct (fate (calls c)) eqn:Ef; rewrite ?Htx; destruct m as [|errno|]; simpl; rewrite ?Hlisten; simpl;
    first [by (exists []; rewrite app_nil_r; split_and!)
          |by (exists [errno_to_io_error errno]; split_and!)
          |done].
Qed.

(** What was asked for. *)
Definition wanted (offset : N) (limit : option N) : list byte :=
  match limit with
  | Some (N.pos n) => read_at offset (N.pos n) data
  | _ => drop (N.to_nat offset) data
  end.

Lemma wanted_slice offset limit :
  slice offset (read_end data offset (if 0 <? default 0 limit then Some (default 0 limit) else None)) data =
  wanted offset limit.
Proof.
  assert (slice offset (read_end data offset None) data = drop (N.to_nat offset) data) as H.
  { unfold slice, read_end. apply take_ge. rewrite length_drop. lia. }
  destruct limit as [[|n]|]; simpl; [exact H| |exact H]. rewrite read_at_slice. unfold slice, read_end.
  destruct (N.le_gt_cases (offset + N.pos n) (N.of_nat (length data))).
  - do 2 f_equal. lia.
  - rewrite !take_ge by (rewrite length_drop; lia). done.
Qed.

(** What a read gives the one who reads: chunks that follow each other, then the
    errors. *)
Definition stream_of (offset : N) (limit : option N) (items : list (result IoKind chunk)) (tail : list IoKind) : Prop :=
  ∃ l e, items = (Ok <$> l) ++ (Err <$> tail) ∧ contiguous data offset l e ∧
    (tail = [] → mjoin l.*2 = wanted offset limit).

Lemma stream_failed offset limit kind : stream_of offset limit [Err kind] [kind].
Proof. by exists [], offset. Qed.

Lemma st_reader_start p arena path rd : st_reader os_open p arena path = Ok rd → rd_pos rd = 0.
Proof.
  unfold st_reader, with_indexed, with_arena. destruct (arena_storage p arena) as [root|]; [|done].
  destruct (arena_cache (st_cache p) arena) as [c|]; [|done]. destruct root as [root|]; [|done].
  unfold Reader_open. destruct (Index.get_file_entry _ path); [|done].
  destruct (file_open _ _ _); [|done]. by intros [= <-].
Qed.

Lemma do_read_run fuel p arena path offset limit r c' :
  do_read fuel p {| rq_arena := arena; rq_path := path; rq_start_offset := offset; rq_limit := default 0 limit |}
    Callback_new = Some (r, c') →
  ∃ l e tail, received c' = (Ok <$> l) ++ (Err <$> tail) ∧ contiguous data offset l e ∧
    (tail = [] → r = Ok tt → mjoin l.*2 = wanted offset limit).
Proof.
  unfold do_read. simpl.
  destruct (parse_arena to_str arena) as [a|err]; [|by intros [= <- <-]; exists [], offset, []].
  destruct (parse_path to_str path) as [pa|err]; [|by intros [= <- <-]; exists [], offset, []].
  assert (∀ e c r c', read_all fuel p a pa offset (default 0 limit) Callback_new = Some (Err e, c) → 
    c = Callback_new → callback_call (cb_finish (finish_message (Err e))) c = (r, c') →
    ∃ l e tail, received c' = (Ok <$> l) ++ (Err <$> tail) ∧ contiguous data offset l e ∧
    (tail = [] → r = Ok tt → mjoin l.*2 = wanted offset limit)) as Hearly.
  { intros e c r1 c1 _ -> Hf. pose proof (cb_finish_run (finish_message (Err e)) Callback_new eq_refl ltac:(done)) as H.
    rewrite Hf in H. destruct H as (tail & H1 & H2 & _). exists [], offset, tail. split; [done|]. split; [done|].
    intros E1 E2. by destruct (H2 E1 E2). }
  destruct (read_all fuel p a pa offset (default 0 limit) Callback_new) as [[rr c]|] eqn:Er; [|done].
  simpl. intros [= Hf]. unfold read_all in Er.
  destruct (st_reader os_open p a pa) as [rd|e] eqn:Erd; [|injection Er as <- <-; by eapply Hearly].
  destruct (if 0 <? offset then os_seek offset else None) as [kind|]; [injection Er as <- <-; by eapply Hearly|].
  assert (rd_pos (if 0 <? offset then Reader_seek offset rd else rd) = offset) as Epos.
  { destruct (N.ltb_spec 0 offset); [done|]. assert (offset = 0) as -> by lia.
    by eapply st_reader_start. }
  rewrite Epos in Er. destruct (send_chunks_run fuel 0 offset _ Callback_new rr c eq_refl Er) as (l & e & [S1 S2 S3 S4 S5]).
  assert (finish_message rr ≠ FinishNotInSchema) as Hm by by destruct rr as [[]|].
  pose proof (cb_finish_run (finish_message rr) c S1 Hm) as H. rewrite Hf in H. destruct H as (tail & H1 & H2 & _).
  exists l, e, tail. split; [by rewrite H1, S2|]. split; [done|]. intros E1 E2. destruct (H2 E1 E2) as [Hm' Ha].
  destruct S5 as [S5|S5]; [congruence|]. rewrite <- wanted_slice, <- S5.
  - by apply contiguous_spec.
  - by destruct rr as [[]|].
Qed.

(** C8: whatever becomes of the calls, what a reader receives from a peer whose file
    is [data] is chunks of it, in order and without gaps, from the offset on, and
    then errors; and when there is no error it is all that was asked for.  A limit
    of 0 asks for the rest of the file. *)
Theorem read_stream_exact fuel client asked arena path offset limit items
  (Hrun : read_stream fuel client asked arena path offset limit = Some items) :
  ∃ tail, stream_of offset limit items tail.
Proof.
  unfold read_stream, execute_read in Hrun.
  destruct client as [p|]; [|simpl in Hrun; rewrite Hlisten in Hrun; injection Hrun as <-; eexists; apply stream_failed].
  destruct asked; [| |simpl in Hrun; rewrite Hlisten in Hrun; injection Hrun as <-; eexists; apply stream_failed].
  all: destruct (do_read fuel p _ Callback_new) as [[r c']|] eqn:Ed; [|done]; simpl in Hrun.
  all: destruct (do_read_run _ _ _ _ _ _ _ _ Ed) as (l & e & tail & H1 & H2 & H3).
  1: destruct r as [[]|err]; [injection Hrun as <-; exists tail, l, e; split_and!; auto|].
  all: simpl in Hrun; rewrite Hlisten in Hrun; injection Hrun as <-; exists (tail ++ [KOther]), l, e; split_and!;
    [by rewrite H1, fmap_app, <- app_assoc|done|by destruct tail].
Qed.

(** ** A peer that answers *)

Context (Hfate : ∀ k, fate k = Answered).
Context (Hok : ∀ k pos n, is_ok (os_read k pos n) = true).
Context (Hseek : ∀ o, o ≤ N.of_nat (length data) → os_seek o = None).

Lemma send_chunks_ends fuel k pos limit c :
  has_tx c = true → (length data - N.to_nat pos < fuel)%nat →
  ∃ c', send_chunks fuel k pos limit pos c = Some (Ok true, c').
Proof.
  revert k pos limit c. induction fuel as [|fuel IH]; intros k pos limit c Htx Hf; [lia|]. cbn [send_chunks].
  set (rd := match limit with Some 0 => _ | Some l => _ | None => _ end).
  assert (∃ d, rd = Ok d ∧ d = read_at pos (N.of_nat (length d)) data) as (d & -> & Hd).
  { unfold rd. destruct limit as [[|n]|]; [by exists []| |].
    - specialize (Hok k pos (N.min BUF_SIZE (N.pos n))). destruct (os_read k pos _) as [d|] eqn:E; [|done].
      exists d. split; [done|]. by destruct (Hread _ _ _ _ E).
    - specialize (Hok k pos BUF_SIZE). destruct (os_read k pos _) as [d|] eqn:E; [|done].
      exists d. split; [done|]. by destruct (Hread _ _ _ _ E). }
  destruct d as [|b d]; [by eexists|]. set (d' := b :: d) in *. assert (d' ≠ []) as Hd' by done.
  assert (0 < length d')%nat as Hpos by (simpl; lia). clearbody d'. pose proof (read_at_end data pos d' Hd' Hd) as Hle.
  pose proof (stream_call_run pos d' c Htx) as H. destruct (stream_call (cb_chunk pos d') c) as [r1 c1].
  destruct H as (C1 & _ & _ & _ & C5). rewrite (C5 (Hfate _)). rewrite u64_add_small by lia. apply IH; [done|lia].
Qed.

Lemma do_read_ends fuel p rd arena path offset limit :
  is_text to_str (arena_name arena) → is_text to_str (as_str path) → valid path →
  st_reader os_open p arena path = Ok rd → offset ≤ N.of_nat (length data) → (length data < fuel)%nat →
  ∃ c' l e, do_read fuel p {| rq_arena := arena_name arena; rq_path := as_str path; rq_start_offset := offset;
      rq_limit := default 0 limit |} Callback_new = Some (Ok tt, c') ∧
    received c' = Ok <$> l ∧ contiguous data offset l e ∧
    e = read_end data offset (if 0 <? default 0 limit then Some (default 0 limit) else None).
Proof.
  intros Ha Ht Hv Hrd Ho Hf. unfold do_read. simpl. rewrite parse_arena_text, parse_path_text by done.
  unfold read_all. rewrite Hrd, (Hseek offset Ho). replace (if 0 <? offset then None else None) with (@None IoKind) by by destruct (0 <? offset).
  assert (rd_pos (if 0 <? offset then Reader_seek offset rd else rd) = offset) as ->.
  { destruct (N.ltb_spec 0 offset); [done|]. rewrite (st_reader_start _ _ _ _ Hrd). lia. }
  set (lim := if 0 <? default 0 limit then _ else _).
  destruct (send_chunks_ends fuel 0 offset lim Callback_new eq_refl ltac:(lia)) as [c Hc]. rewrite Hc. simpl.
  destruct (send_chunks_run _ _ _ _ _ _ _ (eq_refl : has_tx Callback_new = true) Hc) as (l & e & [S1 S2 S3 S4 S5]).
  pose proof (cb_finish_run FinishOk c S1 ltac:(done)) as H. destruct (callback_call (cb_finish FinishOk) c) as [r c'].
  destruct H as (tail & H1 & _ & H3). destruct (H3 (Hfate _)) as [-> Ht']. rewrite (Ht' eq_refl), app_nil_r in H1.
  exists c', l, e. split; [done|]. split; [by rewrite H1, S2|]. split; [done|].
  destruct S5 as [S5|S5]; [by rewrite Hfate in S5|by apply S5].
Qed.

(** [Household::read], for the jobs: the errors are those of the stream, as text. *)
Definition household_read (fuel : nat) (show : IoKind → string) (any_peer : list Peer → option Storage)
    (arena : Arena) (peers : list Peer) (path : Path) (offset : N) (limit : option N)
  : result string (list (result string chunk)) :=
  match read_stream fuel (any_peer peers) Answered arena path offset limit with
  | None => Err "endless"
  | Some items => Ok ((λ x, match x with Ok ch => Ok ch | Err kind => Err (show kind) end) <$> items)
  end.

(** C10: a peer that has a file in its index and on its disk, answers, and can read its
    disk, is what the download of a file needs: whatever part of the file is asked
    for, all of it comes, without an error. *)
Theorem peer_is_honest fuel show any_peer arena path
  (Ha : is_text to_str (arena_name arena)) (Ht : is_text to_str (as_str path)) (Hv : valid path)
  (Hpeers : ∀ peers, peers ≠ [] → ∃ p rd, any_peer peers = Some p ∧ st_reader os_open p arena path = Ok rd)
  (Hfuel : (length data < fuel)%nat) :
  honest (household_read fuel show any_peer arena) path data.
Proof.
  intros peers o n Hp Hn. destruct (Hpeers peers Hp) as (p & rd & Hany & Hrd).
  destruct (do_read_ends fuel p rd arena path o (Some n) Ha Ht Hv Hrd ltac:(lia) Hfuel) as (c & l & e & H1 & H2 & H3 & H4).
  unfold household_read, read_stream, execute_read. rewrite Hany, H1. simpl. rewrite H2.
  destruct (contiguous_spec _ _ _ _ H3) as (S1 & _ & _ & S4 & S5).
  eexists. split; [done|]. rewrite <- list_fmap_compose.
  assert (∀ l, stream_chunks ((λ x, match x with Ok ch => Ok ch | Err kind => Err (show kind) end) ∘ Ok <$> l) = l ∧
    stream_ok ((λ x, match x with Ok ch => Ok ch | Err kind => Err (show kind) end) ∘ Ok <$> l) = true) as Hl.
  { clear. induction l as [|c l [I1 I2]]; [done|]. split; [csimpl; simpl; f_equal; exact I1|exact I2]. }
  destruct (Hl l) as [-> ->]. split; [done|]. split; [exact S4|].
  intros x Hx1 Hx2. apply S5; [done|]. rewrite H4. unfold read_end. simpl.
  destruct (N.ltb_spec 0 n); lia.
Qed.
End reading.

(** ** Rsync *)

Section rsync.
Context {R : Redb} {B : Bimap}.
Context (to_str : string → option string).
Context (os_open : string → option IoKind).
Context (Signature Delta IndexedSignature : Type).
Context (deserialize : Signature → option IndexedSignature).
Context (diff : IndexedSignature → list byte → option Delta).

Definition do_rsync (p : Storage) (arena path : string) (range : ByteRangeMsg) (sig : Signature) : cresult Delta :=
  result_bind (parse_arena to_str arena) (λ arena, result_bind (parse_path to_str path) (λ path,
    let range := parse_range range in
    if 1024 * 1024 <? ByteRange.bytecount range then Err ERangeTooLarge
    else
      match st_rsync os_open Signature Delta IndexedSignature deserialize diff p arena path range sig with
      | Ok delta => Ok delta
      | Err e => Err (EStorage e)
      end)).

(** [execute_rsync] *)
Definition execute_rsync (client : option Storage) (fate : Fate) (arena : Arena) (path : Path) (range : ByteRange)
    (sig : Signature) : cresult Delta :=
  match client with
  | None => Err ENoPeer
  | Some p =>
      match fate with
      | Answered => do_rsync p (arena_name arena) (as_str path) (fill_byterange range) sig
      | _ => Err EDisconnected
      end
  end.

(** A block is small enough: what is asked of the peer is what its storage makes. *)
Lemma rsync_of_block p arena path range sig :
  is_text to_str (arena_name arena) → is_text to_str (as_str path) → valid path →
  ByteRange.bytecount range ≤ RSYNC_BLOCK_SIZE →
  execute_rsync (Some p) Answered arena path range sig =
  match st_rsync os_open Signature Delta IndexedSignature deserialize diff p arena path range sig with
  | Ok delta => Ok delta
  | Err e => Err (EStorage e)
  end.
Proof.
  intros Ha Ht Hv Hr. unfold execute_rsync, do_rsync. rewrite parse_arena_text, parse_path_text by done. simpl.
  rewrite parse_range_fill. unfold RSYNC_BLOCK_SIZE in Hr.
  destruct (N.ltb_spec (1024 * 1024) (ByteRange.bytecount range)); [lia|done].
Qed.
End rsync.

(** A subscription to an arena that is not there, or has no index, is reported as
    made. *)
Lemma failed_subscription_reported_made {R : Redb} {B : Bimap} index_uuid to_str (p : Storage) arena progress :
  is_text to_str (arena_name arena) →
  (arena_storages p !! arena = None ∨ arena_storages p !! arena = Some None) →
  do_subscribe index_uuid to_str p (arena_name arena) progress = Ok [].
Proof.
  intros Ha Hp. unfold do_subscribe. rewrite parse_arena_text by done. simpl. f_equal.
  unfold st_subscribe, with_indexed, with_arena, arena_storage.
  destruct Hp as [-> | ->]; [done|]. simpl. by destruct (arena_cache (st_cache p) arena).
Qed.

Section witnesses.
#[local] Existing Instance gmap_redb.
#[local] Existing Instance list_bimap.
#[local] Existing Instance list_bimap_laws.

Definition wide1 : Hash := mkHash (replicate 32 x01).
Definition wide2 : Hash := mkHash (replicate 32 x02).
Definition any_text (s : string) : option string := Some s.

(** The sender starts without files and then has two; they are sent in two batches. *)
Definition two_sent : World :=
  (add_file qux 1 (mkUnixTime 8) wide2 (add_file foobar 5 (mkUnixTime 7) wide1 empty_world).2).2.
Definition two_batches : list (list Notification * Fate) :=
  [([NAdd arena_ab 1 foobar (mkUnixTime 7) 5 wide1], Answered); ([NAdd arena_ab 2 qux (mkUnixTime 8) 1 wide2], Answered)].
Definition taken_in : Storage := (publisher now1 id any_text peer1 two_batches storage1).2.

Lemma two_sent_steps : rtc (index_step arena_ab "/root") empty_world two_sent.
Proof.
  eapply rtc_l; [apply (is_add _ _ empty_world foobar 5 (mkUnixTime 7) wide1); [done|by split; vm_compute]|].
  apply rtc_once. apply (is_add _ _ _ qux 1 (mkUnixTime 8) wide2); [done|by split; vm_compute].
Qed.

Lemma sendable_add i (p : Path) t sz h : valid p → is_hash h → sendable any_text (NAdd arena_ab i p t sz h).
Proof. intros Hp Hh. split; [done|]. split; [by intros q [= <-]|exact Hh]. Qed.

Lemma nothing_seen (q : Path) : cache_sees cache_ab peer1 q = None.
Proof.
  unfold cache_sees, seen. destruct (file_of _ _ q) as [i|]; [|done].
  cbn [option_bind mbind]. unfold iview. change (cache_file_table (cache (ac_db cache_ab)))
    with (tbl_empty (K := Inode * string) (V := FileTableEntry)). by rewrite get_empty.
Qed.

Lemma nothing_indexed (q : Path) : hashes empty_world q = None.
Proof.
  unfold hashes, file_hash, Index.get_file_entry.
  change (index_file_table _) with (tbl_empty (K := string) (V := IndexedFileTableEntry)). by rewrite get_empty.
Qed.

Example household_sync_witness :
  ∃ c', arena_cache (st_cache taken_in) arena_ab = Ok c' ∧ cache_sees c' peer1 qux = hashes two_sent qux ∧
    hashes two_sent qux = Some wide2.
Proof.
  destruct (household_sync now1 id any_text (λ l, reflexivity l) 0 arena_ab (Some "/root") "/root" peer1
    empty_world two_sent two_batches storage1 taken_in [Ok tt; Ok tt] cache_ab) as (_ & c' & H1 & H2);
    [done|apply empty_world_ok|apply two_sent_steps|by vm_compute|done|vm_compute; reflexivity|by vm_compute| | | | |].
  - apply Forall_cons. split; [by apply sendable_add; vm_compute|]. apply Forall_cons. split; [|done].
    by apply sendable_add; vm_compute.
  - apply unreal1_ok. by vm_compute.
  - unfold taken_in. apply pair_of. vm_compute. reflexivity.
  - by repeat constructor.
  - exists c'. split; [exact H1|]. split; [|by vm_compute]. apply H2; [done|by rewrite nothing_seen, nothing_indexed|].
    intros i h Hg _. exfalso. apply elem_of_iter in Hg. apply (list_elem_of_fmap_2 snd) in Hg.
    assert ((tbl_iter (index_history_table (index (db two_sent)))).*2 = [HAdd foobar; HAdd qux]) as E by by vm_compute.
    rewrite E in Hg. clear E. rewrite !elem_of_cons in Hg. cbn [snd] in Hg. by destruct Hg as [|[|?%not_elem_of_nil]].
Defined.

(** A file that is below another one is refused. *)
Definition below : Path := mkPath "foo/bar/baz".
Definition before_failure : list Notification := [NConnected arena_ab 77; NAdd arena_ab 1 foobar (mkUnixTime 7) 5 wide1].
Definition refused : Notification := NAdd arena_ab 2 below (mkUnixTime 7) 5 wide1.
Definition after_failure : Notification := NAdd arena_ab 4 qux (mkUnixTime 8) 1 wide2.
Definition lost : Notification := NAdd arena_ab 3 (mkPath "lost") (mkUnixTime 8) 1 wide2.
Definition upd := st_update now1 id peer1.
Definition stage1 : Storage := (sfor before_failure upd storage1).2.
Definition stage2 : Storage := (upd refused stage1).2.
Definition stage3 : Storage := (sfor [after_failure] upd stage2).2.

Example failed_batch_lost_witness :
  publisher now1 id any_text peer1 [(before_failure ++ [refused; lost], Answered); ([after_failure], Answered)] storage1 =
    ([Err (EStorage (RStorage NotADirectory)); Ok tt], stage3) ∧
  ∃ pr, GlobalCache.peer_progress (st_cache stage3) peer1 arena_ab = Ok (Some pr) ∧ last_seen pr = 4 ∧
    ∀ ix at_ cur, lost ∉ subscribe arena_ab (pr_uuid pr) (Some pr) ix at_ cur.
Proof.
  destruct (failed_batch_lost now1 id any_text (λ l, reflexivity l) 0 peer1 before_failure refused [lost] [] after_failure 4
    NotADirectory storage1 stage1 stage2 stage3) as [H1 H2].
  - apply unreal1_ok. by vm_compute.
  - done.
  - apply Forall_cons. split; [by split_and!|].
    repeat (apply Forall_cons; split; [by apply sendable_add; vm_compute|]). done.
  - unfold stage1. apply pair_of. vm_compute. reflexivity.
  - unfold stage2. apply pair_of. vm_compute. reflexivity.
  - unfold stage3. apply pair_of. vm_compute. reflexivity.
  - done.
  - split; [exact H1|].
    assert (GlobalCache.peer_progress (st_cache stage3) peer1 arena_ab = Ok (Some {| pr_uuid := 77; last_seen := 4 |})) as E
      by (vm_compute; reflexivity).
    exists {| pr_uuid := 77; last_seen := 4 |}. split; [exact E|]. destruct (H2 _ E) as [_ H3]. split; [done|].
    intros ix at_ cur Hin. assert (4 < 3) as Hlt; [|done].
    apply (H3 ix at_ cur lost 3); [done|done|exact Hin|done].
Defined.

(** A peer whose disk gives two bytes at a time. *)
Definition slow_read (k : nat) (pos n : N) : result IoKind (list byte) := Ok (read_at pos (N.min 2 n) five).

Lemma slow_reads : reads_as slow_read five.
Proof.
  intros k pos n d [= <-]. assert (length (read_at pos (N.min 2 n) five) = Nat.min (N.to_nat (N.min 2 n)) (5 - N.to_nat pos)) as E.
  { unfold read_at. by rewrite length_take, length_drop. }
  split; [|split].
  - rewrite E. unfold read_at. rewrite Nat2N.id.
    destruct (Nat.min_spec (N.to_nat (N.min 2 n)) (5 - N.to_nat pos)) as [[_ ->]|[Hge ->]]; [done|].
    rewrite !take_ge; [done|rewrite length_drop; simpl; lia..].
  - rewrite E. lia.
  - intros H Hn. apply (f_equal length) in H. rewrite E in H. simpl in *. lia.
Qed.

Definition slow_stream (fate : nat → Fate) : option (list (result IoKind chunk)) :=
  read_stream any_text (λ _, None) (λ _, None) slow_read fate (λ _, true) (λ _, true) 10 (Some peer_storage) Answered
    arena_a foobar 1 None.

(** The connection is lost after the first chunk. *)
Definition lost_after (k : nat) (n : nat) : Fate := if (n <? k)%nat then Answered else Lost.

Example read_stream_exact_witness :
  slow_stream (lost_after 9) = Some [Ok (1, [x62; x63]); Ok (3, [x64; x65])] ∧
  slow_stream (lost_after 1) = Some [Ok (1, [x62; x63]); Err KOther] ∧
  ∃ tail, stream_of five 1 None [Ok (1, [x62; x63]); Err KOther] tail.
Proof.
  split; [by vm_compute|]. split; [by vm_compute|].
  apply (read_stream_exact any_text (λ _, None) (λ _, None) slow_read (lost_after 1) (λ _, true) (λ _, true) five slow_reads
    ltac:(done)) with (fuel := 10%nat) (client := Some peer_storage) (asked := Answered) (arena := arena_a) (path := foobar).
  - intros [|[|k]]; by vm_compute.
  - done.
  - by vm_compute.
Defined.

Example peer_is_honest_witness :
  honest (household_read any_text (λ _, None) (λ _, None) slow_read (λ _, Answered) (λ _, true) (λ _, true)
    6 (λ _, "error") (λ _, Some peer_storage) arena_a) foobar five.
Proof.
  destruct (st_reader (λ _, None) peer_storage arena_a foobar) as [rd|] eqn:E; [|by vm_compute in E].
  apply (peer_is_honest any_text (λ _, None) (λ _, None) slow_read (λ _, Answered) (λ _, true) (λ _, true) five slow_reads);
    try done.
  - intros peers _. exists peer_storage, rd. by split.
  - simpl. lia.
Defined.
End witnesses.
