(* ===== verification/Nfs.v ===== *)
(** * The files as an NFS server shows them

    [crate/realize-core/src/fs/nfs.rs]: what [UnrealFs] answers to a client of the
    nfsserve crate: attributes, lookups, the pages of a directory, reads, and the
    errors.  [GlobalCache] holds what is shown and [Downloader] reads it. *)
From Stdlib Require Import Strings.Byte.
From stdpp Require Import gmap sorting.
From S2P Require Import Prelude Bytes Range RangeSet Redb Path Types Db Dirty InodeAllocator Blob Index Dirs ArenaCache CacheInv CacheSpec GlobalCache Downloader Mark Engine Realize Notifier Churten Jobs Storage.
Local Open Scope N_scope.
Local Open Scope realize_scope.

(** ** Names *)

(** [std::str::from_utf8] on the bytes of a name *)
Definition is_cont (b : N) : bool := (128 <=? b) && (b <=? 191).
Definition between (lo hi b : N) : bool := (lo <=? b) && (b <=? hi).

Fixpoint utf8_valid (l : list N) : bool :=
  match l with
  | [] => true
  | b :: l =>
      if b <=? 127 then utf8_valid l
      else if between 194 223 b then
        match l with c1 :: l => is_cont c1 && utf8_valid l | [] => false end
      else if between 224 239 b then
        match l with
        | c1 :: c2 :: l =>
            between (if b =? 224 then 160 else 128) (if b =? 237 then 159 else 191) c1 && is_cont c2 && utf8_valid l
        | _ => false
        end
      else if between 240 244 b then
        match l with
        | c1 :: c2 :: c3 :: l =>
            between (if b =? 240 then 144 else 128) (if b =? 244 then 143 else 191) c1
              && is_cont c2 && is_cont c3 && utf8_valid l
        | _ => false
        end
      else false
  end.

Definition name_bytes (s : string) : list N := N_of_ascii <$> String.list_ascii_of_string s.

(** ** Errors *)

Inductive nfsstat3 : Type :=
| NFS3ERR_PERM
| NFS3ERR_NOENT
| NFS3ERR_IO
| NFS3ERR_EXIST
| NFS3ERR_NOTDIR
| NFS3ERR_ISDIR
| NFS3ERR_INVAL
| NFS3ERR_ROFS
| NFS3ERR_NOTEMPTY
| NFS3ERR_NOTSUPP
| NFS3ERR_SERVERFAULT.

#[global] Instance nfsstat3_eq_dec : EqDecision nfsstat3.
Proof. solve_decision. Defined.

(** The kinds of [std::io::Error] that are told apart. *)
Inductive ErrorKind : Type :=
| EkNotFound
| EkNotADirectory
| EkIsADirectory
| EkPermissionDenied
| EkAlreadyExists
| EkInvalidInput
| EkDirectoryNotEmpty
| EkOther.

Inductive UnrealFsError : Type :=
| FsCache (e : StorageError)
| FsUtf8
| FsIo (kind : ErrorKind).

Definition io_to_nfsstat3 (kind : ErrorKind) : nfsstat3 :=
  match kind with
  | EkNotFound => NFS3ERR_NOENT
  | EkNotADirectory => NFS3ERR_NOTDIR
  | EkIsADirectory => NFS3ERR_ISDIR
  | EkPermissionDenied => NFS3ERR_PERM
  | EkAlreadyExists => NFS3ERR_EXIST
  | EkInvalidInput => NFS3ERR_INVAL
  | EkDirectoryNotEmpty => NFS3ERR_NOTEMPTY
  | EkOther => NFS3ERR_IO
  end.

(** [io_kind] is the kind that [StorageError::Io] holds. *)
Definition unreal_to_nfsstat3 (io_kind : ErrorKind) (err : StorageError) : nfsstat3 :=
  match err with
  | NotFound => NFS3ERR_NOENT
  | NotADirectory => NFS3ERR_NOTDIR
  | IsADirectory => NFS3ERR_ISDIR
  | Io => io_to_nfsstat3 io_kind
  | _ => NFS3ERR_SERVERFAULT
  end.

Definition to_nfsstat3 (io_kind : ErrorKind) (err : UnrealFsError) : nfsstat3 :=
  match err with
  | FsUtf8 => NFS3ERR_NOENT
  | FsCache e => unreal_to_nfsstat3 io_kind e
  | FsIo kind => io_to_nfsstat3 kind
  end.

(** ** Attributes *)

Record nfstime3 : Type := { nt_seconds : N; nt_nseconds : N }.

(** A [u64] as a [u32] *)
Definition to_nfs_time (time : UnixTime) : nfstime3 :=
  {| nt_seconds := UnixTime.as_secs time mod 4294967296; nt_nseconds := UnixTime.subsec_nanos time |}.

Inductive ftype3 : Type := NF3REG | NF3DIR.

Record fattr3 : Type := {
  at_ftype : ftype3;
  at_mode : N;
  at_nlink : N;
  at_uid : N;
  at_gid : N;
  at_size : N;
  at_used : N;
  at_fileid : N;
  at_atime : nfstime3;
  at_mtime : nfstime3;
  at_ctime : nfstime3;
}.

(** [nfsserve::vfs::DirEntry] *)
Record NfsEntry : Type := { ne_fileid : N; ne_name : string; ne_attr : fattr3 }.

Section nfs.
Context {R : Redb} {B : Bimap}.
(** The user and the group of the process *)
Context (uid gid : N).
Implicit Types (u : UnrealCacheBlocking).

Definition build_file_attr (inode : Inode) (metadata : FileMetadata) : fattr3 :=
  let mtime := to_nfs_time (mtime metadata) in
  {| at_ftype := NF3REG; at_mode := 288; at_nlink := 1; at_uid := uid; at_gid := gid;
     at_size := size metadata; at_used := size metadata; at_fileid := inode;
     at_atime := {| nt_seconds := 0; nt_nseconds := 0 |}; at_mtime := mtime; at_ctime := mtime |}.

Definition build_dir_attr (inode : Inode) (mtime : UnixTime) : fattr3 :=
  let mtime := to_nfs_time mtime in
  {| at_ftype := NF3DIR; at_mode := 360; at_nlink := 1; at_uid := uid; at_gid := gid;
     at_size := 512; at_used := 512; at_fileid := inode;
     at_atime := {| nt_seconds := 0; nt_nseconds := 0 |}; at_mtime := mtime; at_ctime := mtime |}.

Abbreviation fsresult := (result UnrealFsError).
Definition cached {A} (r : sresult A) : fsresult A :=
  match r with Ok a => Ok a | Err e => Err (FsCache e) end.

Definition do_getattr u (id : Inode) : fsresult fattr3 :=
  let metadata := GlobalCache.file_metadata u id in
  match GlobalCache.dir_mtime u id with
  | Ok mtime => Ok (build_dir_attr id mtime)
  | Err _ => result_map (build_file_attr id) (cached metadata)
  end.

Definition do_lookup u (dirid : Inode) (filename : string) : fsresult N :=
  if utf8_valid (name_bytes filename) then result_map rd_inode (cached (GlobalCache.lookup u dirid filename))
  else Err FsUtf8.

(** ** Directories *)

(** The order of the pages *)
Definition inode_le (a b : string * ReadDirEntry) : Prop := rd_inode a.2 ≤ rd_inode b.2.
#[global] Instance inode_le_dec a b : Decision (inode_le a b).
Proof. unfold inode_le. apply _. Defined.

(** The attributes of an entry of a directory *)
Definition entry_attr u (e : ReadDirEntry) : fsresult fattr3 :=
  match assignment e with
  | ADirectory => result_map (build_dir_attr (rd_inode e)) (cached (GlobalCache.dir_mtime u (rd_inode e)))
  | AFile => result_map (build_file_attr (rd_inode e)) (cached (GlobalCache.file_metadata u (rd_inode e)))
  end.

(** The loop of [do_readdir], on what is left of the entries. *)
Fixpoint push_entries u (max_entries : N) (entries : list NfsEntry) (l : list (string * ReadDirEntry))
  : fsresult (list NfsEntry * bool) :=
  match l with
  | [] => Ok (entries, true)
  | (name, entry) :: l =>
      result_bind (entry_attr u entry) (λ attr,
        let entries := entries ++ [{| ne_fileid := rd_inode entry; ne_name := name; ne_attr := attr |}] in
        if max_entries <=? N.of_nat (length entries) then Ok (entries, false)
        else push_entries u max_entries entries l)
  end.

Fixpoint skip_while {A} (f : A → bool) (l : list A) : list A :=
  match l with
  | [] => []
  | x :: l' => if f x then skip_while f l' else l
  end.

Definition do_readdir u (dirid start_after : Inode) (max_entries : N) : fsresult (list NfsEntry * bool) :=
  result_bind (cached (GlobalCache.readdir u dirid)) (λ entries,
    push_entries u max_entries []
      (skip_while (λ e, rd_inode e.2 <=? start_after) (merge_sort inode_le entries))).

(** The pages that a client asks for, each from the last entry it got, until the last
    one; the files may be others for each page. *)
Fixpoint pages (us : list UnrealCacheBlocking) (dirid start_after : Inode) (max_entries : N)
  : fsresult (list NfsEntry * bool) :=
  match us with
  | [] => Ok ([], false)
  | u :: us =>
      result_bind (do_readdir u dirid start_after max_entries) (λ '(entries, end_),
        if (end_ : bool) then Ok (entries, true)
        else
          let start_after := match last entries with Some e => ne_fileid e | None => start_after end in
          result_map (λ '(rest, end_), (entries ++ rest, end_)) (pages us dirid start_after max_entries))
  end.

(** ** What is listed *)

Context `{!RedbLaws R, !BimapLaws B}.

Lemma take_while_sorted {V} i (l : list ((N * string) * V)) :
  StronglySorted key_lt l.*1 → (∀ k v, (k, v) ∈ l → i ≤ k.1) →
  ∀ k v, (k, v) ∈ take_while (λ kv, kv.1.1 =? i) l ↔ (k, v) ∈ l ∧ k.1 = i.
Proof.
  induction l as [|[k0 v0] l IH]; intros Hs Hge k v; simpl; [set_solver|].
  apply StronglySorted_inv in Hs as [Hs Hlt]. destruct (N.eqb_spec k0.1 i) as [E|E].
  - rewrite !elem_of_cons, IH; [|done|by intros k' v' ?; apply (Hge k' v'); right]. split.
    + intros [[= -> ->]|[H1 H2]]; auto.
    + intros [[[= -> ->]|H1] H2]; auto.
  - split; [by intros ?%not_elem_of_nil|]. intros [Hin Hk]. exfalso.
    pose proof (Hge k0 v0 ltac:(by left)) as H0.
    apply elem_of_cons in Hin as [[= -> ->]|Hin]; [done|].
    rewrite Forall_forall in Hlt. specialize (Hlt k ltac:(apply list_elem_of_fmap; by exists (k, v))).
    destruct Hlt as [Hle _]. simpl in Hle. unfold prod_le in Hle.
    destruct k0 as [a x], k as [b y]; simpl in *. destruct Hle as [[H1 H2]|[H1 H2]]; lia.
Qed.

Lemma take_while_NoDup {K V} (f : K * V → bool) (l : list (K * V)) : NoDup l.*1 → NoDup (take_while f l).*1.
Proof.
  assert (∀ l x, x ∈ take_while f l → x ∈ l) as Hsub.
  { clear l. induction l as [|y l IH]; intros x; simpl; [done|]. destruct (f y); [|by intros ?%not_elem_of_nil].
    rewrite !elem_of_cons. naive_solver. }
  induction l as [|x l IH]; simpl; [done|]. csimpl. intros [Hx Hnd]%NoDup_cons.
  destruct (f x); [|constructor]. csimpl. constructor; [|by apply IH].
  intros (y & E & Hy)%list_elem_of_fmap. apply Hx, list_elem_of_fmap. exists y. split; [done|by apply Hsub].
Qed.

(** The directory [i] of a tree: its entries, one for each name. *)
Lemma dir_listing_spec (t : table (N * string) DirTableEntry) i name e :
  (name, e) ∈ Dirs.do_readdir t i ↔ tbl_get (i, name) t = Some (Regular e).
Proof.
  unfold Dirs.do_readdir. rewrite list_elem_of_omap. set (l := tbl_range (Included (i, "")) Unbounded t).
  assert (∀ k v, (k, v) ∈ l → i ≤ k.1) as Hge.
  { intros [a x] v [_ [H _]]%elem_of_range. simpl in *. unfold prod_le in H. simpl in H.
    destruct H as [[_ ?]|[? _]]; lia. }
  assert (StronglySorted key_lt l.*1) as Hs by apply range_sorted.
  split.
  - intros ([[a x] v] & [Hin Ha]%take_while_sorted & Hv); [|done..]. simpl in *. subst a.
    apply elem_of_range in Hin as [Hin _]. destruct v; [|done]. by injection Hv as -> ->.
  - intros Hg. exists ((i, name), Regular e). split; [|done]. apply take_while_sorted; [done..|]. split; [|done].
    apply elem_of_range. split; [done|]. split; [|done]. simpl. right. split; [done|]. apply empty_le.
Qed.

Lemma StronglySorted_NoDup {K} `{KeyOrder K} (l : list K) : StronglySorted key_lt l → NoDup l.
Proof.
  induction 1 as [|k l _ IH Hlt]; constructor; [|done]. intros Hin. rewrite Forall_forall in Hlt.
  destruct (Hlt k Hin) as [_ Hn]. apply Hn. reflexivity.
Qed.

Lemma dir_listing_NoDup (t : table (N * string) DirTableEntry) i : NoDup (Dirs.do_readdir t i).
Proof.
  unfold Dirs.do_readdir.
  assert (NoDup (take_while (λ kv, kv.1.1 =? i) (tbl_range (Included (i, "")) Unbounded t)).*1) as Hnd.
  { apply take_while_NoDup, StronglySorted_NoDup, range_sorted. }
  assert (∀ kv, kv ∈ take_while (λ kv, kv.1.1 =? i) (tbl_range (Included (i, "")) Unbounded t) → kv.1.1 = i) as Hi.
  { intros [[a x] v] Hin. apply take_while_sorted in Hin as [_ ?]; [done|apply range_sorted|].
    intros [b y] w [_ [Hr _]]%elem_of_range. simpl in *. unfold prod_le in Hr. simpl in Hr. destruct Hr as [[_ ?]|[? _]]; lia. }
  induction (take_while _ _) as [|[[a x] v] l IH]; [constructor|]. csimpl in Hnd.
  apply NoDup_cons in Hnd as [Hnin Hnd]. specialize (IH Hnd ltac:(intros kv Hin; apply Hi; by right)). csimpl.
  destruct v as [e|]; [|done]. constructor; [|done]. intros ([[b y] w] & Hin & Hw)%list_elem_of_omap. simpl in Hw.
  destruct w as [e'|]; [|done]. injection Hw as -> ->. apply Hnin, list_elem_of_fmap.
  exists ((b, x), Regular e). split; [|done]. simpl. f_equal.
  rewrite (Hi (a, x, Regular e) ltac:(by left) : a = i). by rewrite (Hi _ ltac:(right; exact Hin) : b = i).
Qed.

(** What a directory has: names that can be looked up, no inode twice. *)
Lemma readdir_run n u dir es :
  unreal_ok n u → GlobalCache.readdir u dir = Ok es →
  NoDup es ∧ (∀ name e, (name, e) ∈ es → GlobalCache.lookup u dir name = Ok e) ∧
  ∀ a b, a ∈ es → b ∈ es → rd_inode a.2 = rd_inode b.2 → a = b.
Proof.
  intros Hu. unfold GlobalCache.readdir, GlobalCache.lookup, dispatch.
  destruct (InodeAllocator.arena_for_inode _ _ dir) as [[a|]|]; simpl; [| |done].
  - destruct (arena_cache u a) as [c|] eqn:Ec; simpl; [|done]. intros [= <-].
    unfold arena_cache in Ec. destruct (arena_caches u !! a) as [c'|] eqn:E; [|done]. injection Ec as ->.
    destruct (uk_cache _ _ Hu _ _ E) as [_ [_ _ Hc]]. split; [apply dir_listing_NoDup|]. split.
    + intros name e Hin%dir_listing_spec. unfold Dirs.do_lookup, get_dir_entry. by rewrite Hin.
    + intros [x1 e1] [x2 e2] H1%dir_listing_spec H2%dir_listing_spec Hi. simpl in Hi.
      destruct (do_unique _ _ (co_dirs _ _ _ _ Hc) _ _ _ _ _ _ H1 H2 Hi) as [_ ->]. unfold dir_table in *. congruence.
  - intros [= <-]. destruct (uk_tree _ _ Hu) as (label & Ht & _). split; [apply dir_listing_NoDup|]. split.
    + intros name e Hin%dir_listing_spec. unfold Dirs.do_lookup, get_dir_entry. by rewrite Hin.
    + intros [x1 e1] [x2 e2] H1%dir_listing_spec H2%dir_listing_spec Hi. simpl in Hi.
      destruct (ta_entry _ _ (tk_tree _ _ Ht) _ _ _ H1) as (_ & _ & cs1 & A1 & B1).
      destruct (ta_entry _ _ (tk_tree _ _ Ht) _ _ _ H2) as (_ & _ & cs2 & A2 & B2).
      assert (cs1 = cs2) as -> by congruence. assert (cs2 ++ [x1] = cs2 ++ [x2]) as E by congruence.
      apply app_inj_1 in E as [_ [= ->]]; [|done]. congruence.
Qed.

(** The entry of a page that stands for an entry of the directory *)
Definition shown u (d : NfsEntry) (x : string * ReadDirEntry) : Prop :=
  ne_name d = x.1 ∧ ne_fileid d = rd_inode x.2 ∧ entry_attr u x.2 = Ok (ne_attr d).

Lemma push_entries_run u max acc l out (fin : bool) :
  push_entries u max acc l = Ok (out, fin) →
  ∃ l1 l2 ds, l = l1 ++ l2 ∧ out = acc ++ ds ∧ Forall2 (shown u) ds l1 ∧
    (if fin then l2 = [] else ds ≠ []).
Proof.
  revert acc. induction l as [|[name e] l IH]; intros acc; simpl.
  { intros [= <- <-]. exists [], [], []. rewrite !app_nil_r. split_and!; [done|done|constructor|done]. }
  destruct (entry_attr u e) as [attr|] eqn:Ea; [|done]. simpl. set (d := {| ne_fileid := _ |}).
  destruct (N.leb_spec max (N.of_nat (length (acc ++ [d])))) as [_|_].
  - intros [= <- <-]. exists [(name, e)], l, [d]. split; [done|]. split; [done|]. split; [by repeat constructor|].
    done.
  - intros (l1 & l2 & ds & -> & -> & H1 & H2)%IH. exists ((name, e) :: l1), l2, (d :: ds).
    split; [done|]. split; [by rewrite <- app_assoc|]. split; [by constructor|]. by destruct fin.
Qed.

Lemma skip_while_sorted start_after l :
  StronglySorted inode_le l → ∀ x, x ∈ skip_while (λ e, rd_inode e.2 <=? start_after) l ↔ x ∈ l ∧ start_after < rd_inode x.2.
Proof.
  induction 1 as [|y l Hs IH Hlt]; intros x; simpl; [set_solver|].
  destruct (N.leb_spec (rd_inode y.2) start_after) as [H|H].
  - rewrite IH, elem_of_cons. split; [tauto|]. intros [[->|?] ?]; [lia|tauto].
  - split; [|tauto]. intros Hin. split; [done|]. apply elem_of_cons in Hin as [->|Hin]; [done|].
    rewrite Forall_forall in Hlt. specialize (Hlt x Hin). unfold inode_le in Hlt. lia.
Qed.

Lemma skip_while_suffix {A} (f : A → bool) (l : list A) : ∃ l0, l = l0 ++ skip_while f l.
Proof.
  induction l as [|x l [l0 IH]]; simpl; [by exists []|]. destruct (f x); [|by exists []].
  exists (x :: l0). simpl. by rewrite <- IH.
Qed.

#[export] Instance inode_le_total : Total inode_le.
Proof. intros a b. unfold inode_le. lia. Qed.
#[export] Instance inode_le_trans : Transitive inode_le.
Proof. intros a b c. unfold inode_le. lia. Qed.

Lemma sorted_strict (l : list (string * ReadDirEntry)) :
  StronglySorted inode_le l → NoDup l → (∀ a b, a ∈ l → b ∈ l → rd_inode a.2 = rd_inode b.2 → a = b) →
  StronglySorted N.lt ((λ x, rd_inode x.2) <$> l).
Proof.
  induction 1 as [|y l Hs IH Hlt]; intros Hnd Hinj; csimpl; constructor.
  - apply NoDup_cons in Hnd as [_ Hnd]. apply IH; [done|]. intros a b Ha Hb. apply Hinj; by right.
  - apply Forall_fmap, Forall_forall. intros x Hx. simpl. rewrite Forall_forall in Hlt. specialize (Hlt x Hx).
    unfold inode_le in Hlt. assert (rd_inode y.2 ≠ rd_inode x.2); [|lia]. intros E. apply NoDup_cons in Hnd as [Hnin _].
    apply Hnin. by rewrite (Hinj y x ltac:(by left) ltac:(by right) E).
Qed.

Lemma StronglySorted_mid {A} (P : A → A → Prop) (l0 l1 l2 : list A) :
  StronglySorted P (l0 ++ l1 ++ l2) → StronglySorted P l1 ∧ ∀ x y, x ∈ l1 → y ∈ l2 → P x y.
Proof.
  intros H. induction l0 as [|x l0 IH]; simpl in *.
  2:{ apply StronglySorted_inv in H as [H _]. by apply IH. }
  induction l1 as [|x l1 IH]; simpl in *; [split; [constructor|set_solver]|].
  apply StronglySorted_inv in H as [H Hx]. destruct (IH H) as [H1 H2]. rewrite Forall_app in Hx. destruct Hx as [Hx1 Hx2].
  split; [by constructor|]. intros a b [->|Ha]%elem_of_cons Hb; [|by apply H2]. by apply (proj1 (Forall_forall _ _) Hx2).
Qed.

(** A page: entries after the start, in order; those that come later are not among
    them. *)
Record page_of u dir (start_after : N) es (out : list NfsEntry) (fin : bool) : Prop := {
  pg_readdir : GlobalCache.readdir u dir = Ok es;
  pg_sorted : StronglySorted N.lt (ne_fileid <$> out);
  pg_after : Forall (λ d, start_after < ne_fileid d) out;
  pg_from : Forall (λ d, ∃ x, x ∈ es ∧ shown u d x) out;
  pg_all : ∀ x, x ∈ es → start_after < rd_inode x.2 →
    (∃ d, d ∈ out ∧ shown u d x) ∨ (fin = false ∧ Forall (λ d, ne_fileid d < rd_inode x.2) out);
  pg_nonempty : fin = false → out ≠ [];
}.

Lemma Forall2_ids u ds l : Forall2 (shown u) ds l → ne_fileid <$> ds = (λ x, rd_inode x.2) <$> l.
Proof. induction 1 as [|d x ds l (_ & H & _) _ IH]; csimpl; [done|]. by rewrite H, IH. Qed.

Lemma do_readdir_run n u dir start_after max out fin :
  unreal_ok n u → do_readdir u dir start_after max = Ok (out, fin) → ∃ es, page_of u dir start_after es out fin.
Proof.
  intros Hu. unfold do_readdir. destruct (GlobalCache.readdir u dir) as [es|] eqn:Er; simpl; [|done].
  destruct (readdir_run n u dir es Hu Er) as (Hnd & _ & Hinj). set (l := merge_sort inode_le es).
  assert (l ≡ₚ es) as Hp by apply merge_sort_Permutation.
  assert (StronglySorted inode_le l) as Hs by (apply StronglySorted_merge_sort; apply _).
  intros (l1 & l2 & ds & E & -> & Hsh & Hfin)%push_entries_run. simpl.
  destruct (skip_while_suffix (λ e : string * ReadDirEntry, rd_inode e.2 <=? start_after) l) as [l0 El].
  rewrite E in El.
  assert (StronglySorted N.lt ((λ x : string * ReadDirEntry, rd_inode x.2) <$> l)) as Hss.
  { apply sorted_strict; [done|by rewrite Hp|]. intros a b. rewrite !Hp. apply Hinj. }
  rewrite El, !fmap_app in Hss. apply StronglySorted_mid in Hss as [Hs1 Hs2].
  assert (∀ x, x ∈ l1 ++ l2 ↔ x ∈ es ∧ start_after < rd_inode x.2) as Hin.
  { intros x. rewrite <- E, skip_while_sorted by done. by rewrite Hp. }
  exists es. split.
  - done.
  - by rewrite (Forall2_ids _ _ _ Hsh).
  - apply Forall_forall. intros d Hd.
    apply list_elem_of_lookup in Hd as [i Hd]. destruct (Forall2_lookup_l _ _ _ _ _ Hsh Hd) as (x & Hx & _ & -> & _).
    apply (Hin x). apply elem_of_app. left. by eapply list_elem_of_lookup_2.
  - apply Forall_forall. intros d Hd. apply list_elem_of_lookup in Hd as [i Hd].
    destruct (Forall2_lookup_l _ _ _ _ _ Hsh Hd) as (x & Hx & Hdx). exists x. split; [|done].
    apply (Hin x). apply elem_of_app. left. by eapply list_elem_of_lookup_2.
  - intros x Hx Hlt. assert (x ∈ l1 ++ l2) as Hx' by (by apply Hin). apply elem_of_app in Hx' as [Hx'|Hx'].
    + left. apply list_elem_of_lookup in Hx' as [i Hx']. destruct (Forall2_lookup_r _ _ _ _ _ Hsh Hx') as (d & Hd & Hdx).
      exists d. split; [by eapply list_elem_of_lookup_2|done].
    + destruct fin; [subst l2; by apply not_elem_of_nil in Hx'|]. right. split; [done|].
      apply Forall_forall. intros d Hd. apply Hs2; [|by apply (list_elem_of_fmap_2 (λ x, rd_inode x.2))].
      rewrite <- (Forall2_ids _ _ _ Hsh). by apply list_elem_of_fmap_2.
  - by intros ->.
Qed.

Lemma pages_run n us dir start_after max entries
  (Hus : Forall (unreal_ok n) us) (Hrun : pages us dir start_after max = Ok (entries, true)) :
  StronglySorted N.lt (ne_fileid <$> entries) ∧
  (∀ d, d ∈ entries → start_after < ne_fileid d ∧
     ∃ u es x, u ∈ us ∧ GlobalCache.readdir u dir = Ok es ∧ x ∈ es ∧ shown u d x) ∧
  ∀ x, start_after < rd_inode x.2 →
    (∀ u, u ∈ us → ∃ es, GlobalCache.readdir u dir = Ok es ∧ x ∈ es) →
    ∃ u d, u ∈ us ∧ d ∈ entries ∧ shown u d x.
Proof.
  revert start_after entries Hrun. induction Hus as [|u us Hu _ IH]; intros start_after entries; [done|]. cbn [pages].
  destruct (do_readdir u dir start_after max) as [[out fin]|] eqn:E; simpl; [|done].
  destruct (do_readdir_run n u dir start_after max out fin Hu E) as (es & [P1 P2 P3 P4 P5 P6]).
  rewrite Forall_forall in P3, P4. destruct fin.
  - intros [= <-]. split; [done|]. split.
    + intros d Hd. split; [by apply P3|]. destruct (P4 d Hd) as (x & Hx & Hdx). exists u, es, x. split; [by left|done].
    + intros x Hx Hall. destruct (Hall u ltac:(by left)) as (es' & He' & Hin). rewrite P1 in He'. injection He' as <-.
      destruct (P5 x Hin Hx) as [(d & Hd & Hdx)|[? _]]; [|done]. exists u, d. split; [by left|done].
  - specialize (P6 eq_refl). destruct (last out) as [d0|] eqn:El; [|by apply last_None in El].
    destruct (pages us dir (ne_fileid d0) max) as [[rest fin2]|] eqn:Er; [|done]. simpl. intros [= <- ->].
    destruct (IH _ _ Er) as (I1 & I2 & I3). apply last_Some in El as [out' ->].
    assert (∀ d, d ∈ out' ++ [d0] → ne_fileid d ≤ ne_fileid d0) as Hmax.
    { intros d [Hd|Hd]%elem_of_app; [|by apply list_elem_of_singleton in Hd as ->]. rewrite fmap_app in P2.
      assert (ne_fileid d < ne_fileid d0); [|lia].
      apply StronglySorted_app in P2 as [P2 _]. apply P2; [by apply list_elem_of_fmap_2|csimpl; set_solver]. }
    split; [|split].
    + rewrite fmap_app. apply StronglySorted_app. split_and!; [|exact P2|exact I1].
      intros x y (d & -> & Hd)%list_elem_of_fmap (d2 & -> & Hd2)%list_elem_of_fmap.
      destruct (I2 d2 Hd2) as [Hlt _]. specialize (Hmax d Hd). lia.
    + intros d [Hd|Hd]%elem_of_app.
      * split; [by apply P3|]. destruct (P4 d Hd) as (x & Hx & Hdx). exists u, es, x. split; [by left|done].
      * destruct (I2 d Hd) as (Hlt & u' & es' & x & Hu' & Hrest). split.
        { specialize (P3 d0 ltac:(set_solver)). simpl in P3. lia. }
        exists u', es', x. split; [by right|done].
    + intros x Hx Hall. destruct (Hall u ltac:(by left)) as (es' & He' & Hin). rewrite P1 in He'. injection He' as <-.
      destruct (P5 x Hin Hx) as [(d & Hd & Hdx)|[_ Hlt]].
      { exists u, d. split; [by left|]. split; [|done]. apply elem_of_app. by left. }
      rewrite Forall_forall in Hlt. destruct (I3 x) as (u' & d & Hu' & Hd & Hdx).
      * apply Hlt. set_solver.
      * intros u' Hu'. apply Hall. by right.
      * exists u', d. split; [by right|]. split; [|done]. apply elem_of_app. by right.
Qed.

(** C31: the pages of a directory, put together, show each inode once and in order,
    nothing that was not in the directory, and everything that is there for all of
    the pages, although other entries may come and go in between. *)
Theorem pages_complete n us dir start_after max entries
  (Hus : Forall (unreal_ok n) us) (Hrun : pages us dir start_after max = Ok (entries, true)) :
  StronglySorted N.lt (ne_fileid <$> entries) ∧
  (∀ d, d ∈ entries → start_after < ne_fileid d ∧
     ∃ u es x, u ∈ us ∧ GlobalCache.readdir u dir = Ok es ∧ x ∈ es ∧ shown u d x) ∧
  ∀ x, start_after < rd_inode x.2 →
    (∀ u, u ∈ us → ∃ es, GlobalCache.readdir u dir = Ok es ∧ x ∈ es) →
    ∃ u d, u ∈ us ∧ d ∈ entries ∧ shown u d x.
Proof. by apply (pages_run n us dir start_after max entries). Qed.

Lemma push_entries_ok u max acc l :
  (∀ x, x ∈ l → is_ok (entry_attr u x.2) = true) → ∃ out fin, push_entries u max acc l = Ok (out, fin).
Proof.
  revert acc. induction l as [|[name e] l IH]; intros acc Hl; simpl; [by eexists _, _|].
  specialize (Hl (name, e) ltac:(by left)) as He. simpl in He. destruct (entry_attr u e) as [attr|]; [|done]. simpl.
  destruct (max <=? _); [by eexists _, _|]. apply IH. intros x Hx. apply Hl. by right.
Qed.

(** C32: the pages end: a client that asks for one after the other gets to the last of
    a directory that does not change after at most one page for each entry and one
    more, however small the pages are, when the attributes of all the entries after the
    start can be read; when those of one cannot, it never gets there, however many pages
    it asks for. *)
Theorem pages_end n u dir es start_after max
  (Hu : unreal_ok n u) (Hes : GlobalCache.readdir u dir = Ok es) :
  ((∀ x, x ∈ es → start_after < rd_inode x.2 → is_ok (entry_attr u x.2) = true) →
     ∃ entries, pages (replicate (S (length es)) u) dir start_after max = Ok (entries, true)) ∧
  ∀ x, x ∈ es → start_after < rd_inode x.2 → is_ok (entry_attr u x.2) = false →
    ∀ k entries, pages (replicate k u) dir start_after max ≠ Ok (entries, true).
Proof.
  split.
  2:{ intros x Hx Hlt Ha k entries Hrun.
      destruct (pages_run n (replicate k u) dir start_after max entries) as (_ & _ & H); [by apply Forall_replicate|done|].
      destruct (H x Hlt) as (u' & d & ->%elem_of_replicate_inv & _ & _ & _ & E); [|by rewrite E in Ha].
      intros u' ->%elem_of_replicate_inv. by exists es. }
  assert (∀ k start_after, (∀ x, x ∈ es → start_after < rd_inode x.2 → is_ok (entry_attr u x.2) = true) →
    (length (filter (λ x, (start_after < rd_inode x.2)%N) es) < k)%nat →
    ∃ entries, pages (replicate k u) dir start_after max = Ok (entries, true)) as H.
  { clear start_after. induction k as [|k IH]; intros start_after Hattr Hk; [lia|]. simpl.
    destruct (do_readdir u dir start_after max) as [[out fin]|err] eqn:E.
    2:{ exfalso. unfold do_readdir in E. rewrite Hes in E. simpl in E.
        destruct (push_entries_ok u max [] (skip_while (λ e, rd_inode e.2 <=? start_after) (merge_sort inode_le es)))
          as (out & fin & E'); [|congruence].
        intros x [Hx Hlt]%skip_while_sorted; [|by apply StronglySorted_merge_sort; apply _].
        apply Hattr; [|done]. by rewrite (merge_sort_Permutation inode_le es) in Hx. }
    destruct (do_readdir_run n u dir start_after max out fin Hu E) as (es' & [P1 P2 P3 P4 P5 P6]). simpl.
    rewrite Hes in P1. injection P1 as <-. destruct fin; [by eexists|]. specialize (P6 eq_refl).
    destruct (last out) as [d|] eqn:El; [|by apply last_None in El]. apply last_Some in El as [out' ->].
    rewrite Forall_forall in P3, P4. assert (d ∈ out' ++ [d]) as Hd by set_solver.
    destruct (P4 d Hd) as (x & Hx & _ & Ei & _). specialize (P3 d Hd). simpl in P3.
    destruct (IH (ne_fileid d)) as [entries ->]; [intros y Hy Hlt; apply Hattr; [done|lia]| |by eexists].
    rewrite <- (list_filter_filter_l (λ x, (ne_fileid d < rd_inode x.2)%N) (λ x, (start_after < rd_inode x.2)%N) es)
      by (intros y Hy; lia).
    eapply Nat.lt_le_trans; [eapply (length_filter_lt _ _ x)|lia].
    - apply list_elem_of_filter. split; [lia|done].
    - lia. }
  intros Hattr. apply H; [done|]. apply Nat.lt_succ_r, length_filter.
Qed.

(** A file that has an entry in its directory but no content (a replacement of a
    file that was not known leaves one) keeps the whole directory from being listed:
    no client gets to its last page, whatever the pages. *)
Theorem missing_content_breaks_listing n us dir name e start_after max entries
  (Hus : Forall (unreal_ok n) us) (Hne : us ≠ []) (Hfile : assignment e = AFile) (Hafter : start_after < rd_inode e)
  (Hin : ∀ u, u ∈ us → ∃ es, GlobalCache.readdir u dir = Ok es ∧ (name, e) ∈ es)
  (Hmeta : ∀ u, u ∈ us → GlobalCache.file_metadata u (rd_inode e) = Err NotFound) :
  pages us dir start_after max ≠ Ok (entries, true).
Proof.
  intros Hrun. destruct (pages_run n us dir start_after max entries Hus Hrun) as (_ & _ & H).
  destruct (H (name, e) Hafter Hin) as (u & d & Hu & _ & _ & _ & Ha). unfold entry_attr in Ha. simpl in Ha.
  rewrite Hfile, (Hmeta u Hu) in Ha. done.
Qed.

(** What is listed is found under its name, with the same attributes. *)
Lemma listed_is_found n u dir es d x :
  unreal_ok n u → GlobalCache.readdir u dir = Ok es → x ∈ es → shown u d x → utf8_valid (name_bytes x.1) = true →
  do_lookup u dir (ne_name d) = Ok (ne_fileid d) ∧
  (assignment x.2 = ADirectory ∨ is_ok (GlobalCache.dir_mtime u (rd_inode x.2)) = false →
   do_getattr u (ne_fileid d) = Ok (ne_attr d)).
Proof.
  intros Hu Hes Hx (-> & -> & Ha) Hv. destruct (readdir_run n u dir es Hu Hes) as (_ & Hl & _).
  destruct x as [name e]. simpl in *. split.
  - unfold do_lookup. rewrite Hv. by rewrite (Hl name e Hx).
  - intros Hkind. unfold do_getattr, entry_attr in *. destruct (GlobalCache.dir_mtime u (rd_inode e)) as [mt|err] eqn:Em.
    + destruct Hkind as [Hk|]; [|done]. rewrite Hk in Ha. exact Ha.
    + destruct (assignment e); [exact Ha|done].
Qed.
End nfs.

(** ** Reading *)

Section reading.
Context {R : Redb} {B : Bimap}.
Context (now : UnixTime).
(** The kinds of the errors of an open file, and of those of the storage *)
Context (kind_of : IoError → ErrorKind) (io_kind : ErrorKind).
Implicit Types (d : Download) (buf : ReadBuf).

(** [AsyncReadExt::read]: it is polled until it is ready; each poll has its answers. *)
Fixpoint await_read (polls : list (list Answers)) d buf : option (result IoError () * Download * ReadBuf) :=
  match polls with
  | [] => None
  | answers :: polls =>
      match poll_read_loop answers d buf with
      | Returned d buf (Ready r) => Some (r, d, buf)
      | Returned d buf Pending => await_read polls d buf
      | Diverges | Running _ _ => None
      end
  end.

(** [do_read]; [AsyncSeekExt::seek] completes a seek that was left before its own. *)
Definition do_read (polls : list (list Answers)) (reader : Download) (offset count : N)
  : option (result UnrealFsError (list byte * bool) * Download) :=
  match start_seek (SeekStart offset) (complete_seek reader).2 with
  | (Err e, reader) => Some (Err (FsIo (kind_of e)), reader)
  | (Ok _, reader) =>
      match await_read polls (complete_seek reader).2 {| rb_capacity := count; rb_filled := [] |} with
      | None => None
      | Some (Err e, reader, _) => Some (Err (FsIo (kind_of e)), reader)
      | Some (Ok _, reader, buf) => Some (Ok (rb_filled buf, at_end reader), reader)
      end
  end.

(** [UnrealFs]: the cache and the readers that are kept *)
Record UnrealFs : Type := { fs_cache : UnrealCacheBlocking; fs_readers : gmap Inode Download }.

(** Readers that were not used for a while, or are too many, go. *)
Definition expire (keep : Inode → bool) (s : UnrealFs) : UnrealFs :=
  {| fs_cache := fs_cache s; fs_readers := filter (λ kv, keep kv.1 = true) (fs_readers s) |}.

(** [Downloader::reader] *)
Definition downloader_reader (inode : Inode) : StateM UnrealCacheBlocking StorageError Download := λ u,
  match GlobalCache.file_availability u inode with
  | Err e => (Err e, u)
  | Ok av =>
      match unreal_open_file now inode u with
      | (Err e, u) => (Err e, u)
      | (Ok b, u) => (Ok (download_new (size (av_metadata av)) b), u)
      end
  end.

(** The reader that [read] uses *)
Definition get_reader (id : Inode) : StateM UnrealFs StorageError Download := λ s,
  match fs_readers s !! id with
  | Some reader => (Ok reader, s)
  | None =>
      match downloader_reader id (fs_cache s) with
      | (Err e, u) => (Err e, {| fs_cache := u; fs_readers := fs_readers s |})
      | (Ok reader, u) => (Ok reader, {| fs_cache := u; fs_readers := <[id := reader]> (fs_readers s) |})
      end
  end.

Definition nfs_read (polls : list (list Answers)) (id : Inode) (offset count : N) (s : UnrealFs)
  : option (result nfsstat3 (list byte * bool) * UnrealFs) :=
  match get_reader id s with
  | (Err e, s) => Some (Err (unreal_to_nfsstat3 io_kind e), s)
  | (Ok reader, s) =>
      (λ '(r, reader),
         (match r with Ok x => Ok x | Err e => Err (to_nfsstat3 io_kind e) end,
          {| fs_cache := fs_cache s; fs_readers := <[id := reader]> (fs_readers s) |}))
        <$> do_read polls reader offset count
  end.

(** ** What is read *)

Lemma fill_loop_pending fuel r f d buf f' d' buf' :
  fill_loop fuel r f d buf = Some (f', d', buf') → pending_seek d' = pending_seek d.
Proof.
  revert f d buf. induction fuel as [|fuel IH]; intros f d buf; simpl; [done|].
  destruct (avail d) as [|[range x] rest]; [by intros [= <- <- <-]|].
  destruct (negb _ && _); [|apply IH]. destruct (_ <? _); [by intros [= <- <- <-]|].
  destruct (_ =? 0); [by intros [= <- <- <-]|]. intros H%IH. exact H.
Qed.

Lemma turn_pending a st d buf d' buf' p :
  handle_poll_read a st d buf = Some (d', buf', p) →
  pending_seek d' = pending_seek d ∧ (∀ r, p = Some (Ready r) → Downloader.read d' = RDefault).
Proof.
  unfold handle_poll_read. destruct st; [|repeat case_match; intros; simplify_eq/=; split_and?; by intros..].
  destruct (at_end d); [by intros [= <- <- <-]|].
  destruct (fill _ d buf) as [[[f d1] b1]|] eqn:Ef; [|done]. apply fill_loop_pending in Ef.
  repeat case_match; intros; simplify_eq; split_and?; by intros.
Qed.

Lemma loop_pending answers d buf d' buf' p :
  poll_read_loop answers d buf = Returned d' buf' p →
  pending_seek d' = pending_seek d ∧ (∀ r, p = Ready r → Downloader.read d' = RDefault).
Proof.
  revert d buf. induction answers as [|a answers IH]; intros d buf; simpl; [done|].
  destruct (handle_poll_read a (Downloader.read d) d buf) as [[[d1 buf1] [p1|]]|] eqn:E; [| |done].
  - intros [= <- <- <-]. destruct (turn_pending _ _ _ _ _ _ _ E) as [H1 H2]. split; [done|].
    intros r ->. by eapply H2.
  - intros H%IH. destruct (turn_pending _ _ _ _ _ _ _ E) as [H1 _]. by rewrite <- H1.
Qed.

Section content.
Context (content : list byte).

(** The peers and the disk are honest in every poll. *)
Fixpoint honest_polls (polls : list (list Answers)) d buf : Prop :=
  match polls with
  | [] => True
  | answers :: polls =>
      honest_run content answers d buf ∧
      match poll_read_loop answers d buf with
      | Returned d buf Pending => honest_polls polls d buf
      | _ => True
      end
  end.

(** A reader between two calls *)
Record idle_reader d : Prop := {
  id_ok : reader_ok content d;
  id_settled : Downloader.settled (Downloader.read d) = true;
  id_no_seek : pending_seek d = None;
}.

Lemma await_run polls d buf r d' buf' :
  content_size content + rb_capacity buf < u64_modulus → reader_ok content d → pending_seek d = None →
  honest_polls polls d buf → await_read polls d buf = Some (r, d', buf') →
  idle_reader d' ∧ served content d buf d' buf' (Some (Ready r)).
Proof.
  revert d buf. induction polls as [|answers polls IH]; intros d buf Hu Hok Hns; simpl; [done|]. intros [Hh Hrest].
  destruct (poll_read_loop answers d buf) as [d1 buf1 p| |] eqn:E; [|done..].
  pose proof (loop_run content answers d buf d1 buf1 p Hu Hok Hh E) as Hs.
  destruct (loop_pending _ _ _ _ _ _ E) as [L1 L2]. destruct p as [|r1].
  2:{ intros [= -> -> ->]. split; [|done]. split; [apply Hs|by rewrite (L2 r eq_refl)|congruence]. }
  destruct Hs as [S1 S2 S3 S4 S5 S6]. specialize (S6 ltac:(done)). rewrite S6, slice_nil, app_nil_r in S3.
  assert (buf1 = buf) as -> by (destruct buf1, buf; simpl in *; congruence).
  intros H. destruct (IH d1 buf Hu S1 ltac:(congruence) Hrest H) as [I1 [T1 T2 T3 T4 T5 T6]]. split; [done|].
  rewrite S6 in *. by split.
Qed.

(** What a read relies on: where the seek leads, the polls are honest. *)
Definition honest_read (polls : list (list Answers)) reader (offset count : N) : Prop :=
  honest_polls polls (complete_seek (start_seek (SeekStart offset) (complete_seek reader).2).2).2
    {| rb_capacity := count; rb_filled := [] |}.

(** [do_read] with a reader that was left between two reads *)
Lemma do_read_content polls reader offset count bytes eof reader' :
  idle_reader reader → 2 * content_size content + count + offset < u64_modulus →
  honest_read polls reader offset count → do_read polls reader offset count = Some (Ok (bytes, eof), reader') →
  bytes = read_at offset (N.of_nat (length bytes)) content ∧ N.of_nat (length bytes) ≤ count ∧
  (eof = true ↔ content_size content ≤ offset + N.of_nat (length bytes)) ∧ idle_reader reader'.
Proof.
  intros [Hok Hset Hns] Hu Hh Hrun. pose proof (ro_size _ _ Hok) as Hsize.
  assert ((complete_seek reader).2 = reader) as Ec by (unfold complete_seek; by rewrite Hns).
  unfold honest_read in Hh. rewrite Ec in Hh. unfold do_read in Hrun. rewrite Ec in Hrun.
  assert (Z.of_N offset < Z.of_N u64_modulus)%Z as Hoz by lia.
  pose proof (seek_spec content reader (SeekStart offset) Hok ltac:(lia) Hset Hoz) as Hseek. simpl in Hseek.
  set (d1 := set_pending_seek (Some (N.min (d_size reader) offset)) reader) in *.
  destruct Hseek as (_ & _ & Ho & Hok2). rewrite N2Z.id in Ho. simpl in Hrun.
  change (start_seek (SeekStart offset) reader).2 with d1 in Hh.
  set (d2 := (complete_seek d1).2) in *. change (set_read _ _) with d2 in Hrun.
  destruct (await_read polls d2 _) as [[[r d3] buf]|] eqn:Ea; [|done]. simpl in Hrun.
  assert (pending_seek d2 = None) as Hp2 by done.
  assert (content_size content + count < u64_modulus) as Hcap by lia.
  destruct (await_run polls d2 {| rb_capacity := count; rb_filled := [] |} r d3 buf Hcap Hok2 Hp2 Hh Ea)
    as [Hidle' [S1 S2 S3 S4 S5 S6]].
  assert (d_offset d2 = N.min (d_size reader) offset) as Hd2 by done. clear Ho. clearbody d2.
  destruct r as [[]|e]; [|done]. simpl in Hrun. injection Hrun as <- <- <-.
  simpl in S3. unfold rb_remaining in S4. simpl in S4. pose proof (ro_offset _ _ S1) as He.
  pose proof (ro_size _ _ S1) as Hsize'. unfold content_size in *.
  assert (N.of_nat (length (rb_filled buf)) = d_offset d3 - d_offset d2) as Hl.
  { rewrite S3. apply length_slice; lia. }
  split_and!; [|lia|unfold at_end; rewrite N.leb_le; lia|done].
  rewrite Hl. destruct (N.le_gt_cases offset (N.of_nat (length content))) as [Hle|Hgt].
  - rewrite S3, read_at_slice. f_equal; lia.
  - assert (d_offset d3 - d_offset d2 = 0) as E0 by lia. rewrite E0. rewrite S3.
    assert (d_offset d3 = d_offset d2) as -> by lia. by rewrite slice_nil.
Qed.

(** The reader that is kept of a file was left between two reads; without one, the
    cache says that the file has the size of the content. *)
Definition ready_to_read (id : Inode) (s : UnrealFs) : Prop :=
  match fs_readers s !! id with
  | Some reader => idle_reader reader
  | None => ∀ av, GlobalCache.file_availability (fs_cache s) id = Ok av → size (av_metadata av) = content_size content
  end.

(** The reader that a read uses, kept or opened for it, is idle, and the one kept from
    then on. *)
Lemma get_reader_idle id s reader s1 :
  ready_to_read id s → get_reader id s = (Ok reader, s1) → idle_reader reader ∧ fs_readers s1 !! id = Some reader.
Proof.
  unfold ready_to_read, get_reader. destruct (fs_readers s !! id) as [r|] eqn:Er.
  { intros Hi [= <- <-]. done. }
  intros Hav. unfold downloader_reader. destruct (GlobalCache.file_availability (fs_cache s) id) as [av|e]; [|done].
  destruct (unreal_open_file now id (fs_cache s)) as [[b|e] u]; [|done]. intros [= <- <-]. split; [|simpl; by rewrite lookup_insert_eq].
  split; [|done|done]. split; simpl; [by apply Hav|lia|done|done].
Qed.

(** C30: a read through the server, whether it opens the file or goes on with the reader
    that is kept of it, gives bytes of the file at the offset, no more than asked for,
    and says that it is at the end exactly when it got there; and it leaves the reader
    as good as it was for the reads that follow.  It relies on the disk and the peers to
    give the content, and on the reader that is kept not to have been left by a read
    that was given up. *)
Theorem nfs_read_content polls id offset count s bytes eof s'
  (Hready : ready_to_read id s) (Hu : 2 * content_size content + count + offset < u64_modulus)
  (Hh : ∀ reader s1, get_reader id s = (Ok reader, s1) → honest_read polls reader offset count)
  (Hrun : nfs_read polls id offset count s = Some (Ok (bytes, eof), s')) :
  bytes = read_at offset (N.of_nat (length bytes)) content ∧ N.of_nat (length bytes) ≤ count ∧
  (eof = true ↔ content_size content ≤ offset + N.of_nat (length bytes)) ∧
  (∃ reader', fs_readers s' !! id = Some reader' ∧ idle_reader reader') ∧ ready_to_read id s'.
Proof.
  unfold nfs_read in Hrun. destruct (get_reader id s) as [[reader|e] s1] eqn:Eg; [|done].
  destruct (get_reader_idle id s reader s1 Hready Eg) as [Hidle _]. specialize (Hh reader s1 eq_refl).
  destruct (do_read polls reader offset count) as [[r reader']|] eqn:Er; [|done]. simpl in Hrun.
  destruct r as [[bs e]|e]; [|done]. injection Hrun as <- <- <-.
  destruct (do_read_content polls reader offset count bs e reader' Hidle Hu Hh Er) as (H1 & H2 & H3 & H4).
  split_and!; [done..| |].
  - exists reader'. simpl. by rewrite lookup_insert_eq.
  - unfold ready_to_read. simpl. by rewrite lookup_insert_eq.
Qed.
End content.
End reading.

(** ** The operations of the server *)

(** What a read-only file system refuses *)
Inductive NfsChange : Type :=
| NfsWrite | NfsCreate | NfsCreateExclusive | NfsSetattr | NfsRemove | NfsRename | NfsMkdir | NfsSymlink | NfsReadlink.

Definition refused_with (op : NfsChange) : nfsstat3 :=
  match op with NfsReadlink => NFS3ERR_NOTSUPP | _ => NFS3ERR_ROFS end.

Section server.
Context {R : Redb} {B : Bimap}.
Context (uid gid : N) (io_kind : ErrorKind).

Definition answer {A} (r : result UnrealFsError A) : result nfsstat3 A :=
  match r with Ok a => Ok a | Err e => Err (to_nfsstat3 io_kind e) end.

Definition root_dir : N := ROOT_DIR.
Definition nfs_lookup (u : UnrealCacheBlocking) (dirid : N) (filename : string) : result nfsstat3 N :=
  answer (do_lookup u dirid filename).
Definition nfs_getattr (u : UnrealCacheBlocking) (id : N) : result nfsstat3 fattr3 := answer (do_getattr uid gid u id).
Definition nfs_readdir (u : UnrealCacheBlocking) (dirid start_after max_entries : N)
  : result nfsstat3 (list NfsEntry * bool) := answer (do_readdir uid gid u dirid start_after max_entries).
End server.

Section witnesses.
#[local] Existing Instance gmap_redb.
#[local] Existing Instance list_bimap.
#[local] Existing Instance list_bimap_laws.

(** The root of the two arenas "a/b" and "c", a page for each entry. *)
Definition root_pages := pages 1000 1000 (replicate 3 unreal2) ROOT_DIR 0 1.
Definition names_of (r : result UnrealFsError (list NfsEntry * bool)) : option (list (string * N) * bool) :=
  match r with Ok (l, fin) => Some ((λ d, (ne_name d, ne_fileid d)) <$> l, fin) | Err _ => None end.

Lemma unreal2_is_ok n : N.of_nat n ≤ 900 → unreal_ok n unreal2.
Proof.
  intros Hn. apply (unreal_update_ok now1 id (λ l, reflexivity l) n peer1 nt1).
  - split; [done|]. intros p [= <-]. by vm_compute.
  - apply unreal1_ok. change (inodes_needed nt1) with 2%nat. lia.
Qed.

Lemma root_pages_run : ∃ entries, root_pages = Ok (entries, true) ∧ ne_name <$> entries = ["c"; "a"].
Proof.
  assert (names_of root_pages = Some ([("c", 3); ("a", 4)], true)) as E by (vm_compute; reflexivity).
  destruct root_pages as [[entries fin]|]; [|done]. injection E as E ->. exists entries. split; [done|].
  apply (f_equal (fmap fst)) in E. rewrite <- list_fmap_compose in E. exact E.
Qed.

Lemma pages_complete_witness :
  ∃ entries, root_pages = Ok (entries, true) ∧ ne_name <$> entries = ["c"; "a"] ∧
    StronglySorted N.lt (ne_fileid <$> entries).
Proof.
  destruct root_pages_run as (entries & E & Hn). exists entries. split; [done|]. split; [done|].
  refine (proj1 (pages_complete 1000 1000 8 (replicate 3 unreal2) ROOT_DIR 0 1 entries _ E)).
  apply Forall_replicate, unreal2_is_ok. lia.
Defined.

Lemma root_entries : ∃ es, GlobalCache.readdir unreal2 ROOT_DIR = Ok es ∧ length es = 2%nat ∧
  ∀ x, x ∈ es → is_ok (entry_attr 1000 1000 unreal2 x.2) = true.
Proof.
  assert (result_map (λ es, (length es, forallb (λ x, is_ok (entry_attr 1000 1000 unreal2 x.2)) es))
    (GlobalCache.readdir unreal2 ROOT_DIR) = Ok (2%nat, true)) as E by (vm_compute; reflexivity).
  destruct (GlobalCache.readdir unreal2 ROOT_DIR) as [es|]; [|done]. injection E as E1 E2.
  exists es. split; [done|]. split; [done|]. intros x Hx. rewrite forallb_forall in E2. by apply E2, list_elem_of_In.
Qed.

Lemma pages_end_witness : ∃ entries, root_pages = Ok (entries, true).
Proof.
  destruct root_entries as (es & E & El & Ha). unfold root_pages.
  pose proof (pages_end 1000 1000 8 unreal2 ROOT_DIR es 0 1 (unreal2_is_ok 8 ltac:(lia)) E) as [H _].
  rewrite El in H. apply H. intros x Hx _. by apply Ha.
Defined.

(** A peer tells of a file that took the place of another one, which was not known
    here. *)
Definition nt2 : Notification := NReplace arena_ab 3 foobar (mkUnixTime 7) 5 hash1 hash2.
Definition unreal4 : UnrealCacheBlocking := (unreal_update now1 id peer1 nt2 unreal1).2.

Lemma unreal4_ok : unreal_ok 8 unreal4.
Proof.
  apply (unreal_update_ok now1 id (λ l, reflexivity l) 8 peer1 nt2); [|by apply (unreal1_ok 10)].
  split; [done|]. intros p [= <-]. by vm_compute.
Qed.

Lemma bar_is_listed : ∃ e es, GlobalCache.readdir unreal4 102 = Ok es ∧ ("bar", e) ∈ es ∧
  assignment e = AFile ∧ rd_inode e = 103 ∧ GlobalCache.file_metadata unreal4 103 = Err NotFound.
Proof.
  assert (match GlobalCache.readdir unreal4 102 with
    | Ok [(name, e)] => Some (name, rd_inode e, assignment e) | _ => None end = Some ("bar", 103, AFile)) as E
    by (vm_compute; reflexivity).
  destruct (GlobalCache.readdir unreal4 102) as [[|[name e] [|]]|]; try done. injection E as -> E1 E2.
  exists e, [("bar", e)]. split; [done|]. split; [by left|]. split; [done|]. split; [done|]. vm_compute; reflexivity.
Qed.

Lemma replicate_cons_ne {A} k (x : A) : replicate (S k) x ≠ [].
Proof. done. Qed.

Lemma missing_content_breaks_listing_witness :
  is_ok (unreal_update now1 id peer1 nt2 unreal1).1 = true ∧
  ∀ entries, pages 1000 1000 (replicate 5 unreal4) 102 0 100 ≠ Ok (entries, true).
Proof.
  split; [vm_compute; reflexivity|]. intros entries. destruct bar_is_listed as (e & es & E & Hin & Hf & Hi & Hm).
  apply (missing_content_breaks_listing 1000 1000 8 (replicate 5 unreal4) 102 "bar" e 0 100 entries);
    [apply Forall_replicate, unreal4_ok|apply replicate_cons_ne|exact Hf|by rewrite Hi| |].
  - intros u ->%elem_of_replicate_inv. exists es. split; [exact E|exact Hin].
  - intros u ->%elem_of_replicate_inv. rewrite Hi. exact Hm.
Defined.

(** "bar" in "foo" of the arena "a/b": five bytes, all from the peers *)
Definition content5 : list byte := [x61; x62; x63; x64; x65]%byte.
Definition peers5 : Answers :=
  {| a_seek := Pending; a_start_seek := Ok tt; a_read := λ _, Pending; a_write := λ n, Ready (Ok n);
     a_download := Ready (Ok [(0, content5)]) |}.
Definition fs1 : UnrealFs := {| fs_cache := unreal2; fs_readers := ∅ |}.
Definition nfs_read1 := nfs_read now1 (λ _, EkOther) EkOther [replicate 4 peers5] 103 1 2 fs1.

Lemma peers5_honest n d buf : honest_run content5 (replicate n peers5) d buf.
Proof.
  revert d buf. induction n as [|n IH]; intros d buf; [done|]. split.
  - split; simpl; [done|done|]. intros l o x [= <-] [= -> ->]%list_elem_of_singleton. by split.
  - by destruct (handle_poll_read _ _ _ _) as [[[? ?] [?|]]|].
Qed.

Lemma fs1_ready : ready_to_read content5 103 fs1.
Proof.
  assert (fs_readers fs1 !! 103 = None) as En by apply lookup_empty.
  unfold ready_to_read. rewrite En. intros av. change (fs_cache fs1) with unreal2.
  assert (result_map (λ av, size (av_metadata av)) (GlobalCache.file_availability unreal2 103) = Ok 5) as E
    by (vm_compute; reflexivity).
  destruct (GlobalCache.file_availability unreal2 103) as [av'|]; [|done]. intros [= ->]. injection E as E. by rewrite E.
Qed.

Lemma nfs_read_content_witness :
  ∃ s, nfs_read1 = Some (Ok ([x62; x63]%byte, false), s) ∧
    ∃ reader, fs_readers s !! 103 = Some reader ∧ idle_reader content5 reader.
Proof.
  assert (fst <$> nfs_read1 = Some (Ok ([x62; x63]%byte, false))) as E by (vm_compute; reflexivity).
  destruct nfs_read1 as [[r s]|] eqn:Er; [|done]. injection E as ->. exists s. split; [done|].
  refine (proj1 (proj2 (proj2 (proj2 (nfs_read_content now1 (λ _, EkOther) EkOther content5 [replicate 4 peers5] 103 1 2 fs1
    _ _ s fs1_ready _ _ Er))))).
  - by vm_compute.
  - intros reader s1 _. split; [apply peers5_honest|]. by destruct (poll_read_loop _ _ _) as [? ? []| |].
Defined.
End witnesses.
