(* ===== verification/Control.v ===== *)
(** * The control interface of the daemon

    [crate/realize-core/src/rpc/control/convert.rs], [server.rs] and [client.rs], with
    the messages of [crate/realize-core/capnp/control.capnp], [start], [shutdown] and
    [is_running] of [crate/realize-core/src/consensus/churten.rs], and what
    [crate/realize-control/src/display.rs] keeps: what a program learns of the jobs of
    the daemon that it is connected to.

    The broadcast channel of tokio is a parameter: a receiver gets the notifications
    that were sent since it subscribed, in order, except that when it lags behind it
    is told so and goes on at a later one ([Recv]). *)
From Stdlib Require Import Strings.Byte.
From stdpp Require Import gmap.
From S2P Require Import Prelude Redb Path Types Db Dirty InodeAllocator Blob Index Dirs ArenaCache CacheInv CacheSpec GlobalCache Mark Churten Storage Household.
Local Open Scope N_scope.
Local Open Scope realize_scope.

(** ** Messages *)

Inductive JobKindMsg : Type :=
| KDownload
| KRealize (index_hash : option (list byte))
| KUnrealize
| KNotInSchema (tag : N).

Record JobMsg : Type := { jm_path : string; jm_hash : list byte; jm_kind : JobKindMsg }.

Inductive ProgressType : Type :=
| PtPending
| PtRunning
| PtDone
| PtAbandoned
| PtCancelled
| PtFailed
| PtNotInSchema (value : N).

Record JobProgressMsg : Type := { pm_type : ProgressType; pm_message : string }.

Inductive JobActionMsg : Type :=
| AmNone
| AmDownload
| AmVerify
| AmRepair
| AmMove
| AmNotInSchema (value : N).

Record JobInfoMsg : Type := {
  im_arena : string;
  im_id : N;
  im_job : JobMsg;
  im_progress : JobProgressMsg;
  im_action : JobActionMsg;
  im_byte_progress : option (N * N);
  im_notification_index : N;
}.

Inductive ChurtenBody : Type :=
| BNew (job : JobMsg)
| BStart
| BFinish (progress : JobProgressMsg)
| BUpdateByteCount (current_bytes total_bytes index : N)
| BUpdateAction (action : JobActionMsg) (index : N)
| BNotInSchema (tag : N).

Record ChurtenMsg : Type := { cm_arena : string; cm_job_id : N; cm_body : ChurtenBody }.

Inductive MarkMsg : Type := MmWatch | MmKeep | MmOwn | MmNotInSchema (value : N).

(** ** Writing them *)

Definition to_capnp_action (action : option JobAction) : JobActionMsg :=
  match action with
  | Some ActionDownload => AmDownload
  | Some ActionVerify => AmVerify
  | Some ActionRepair => AmRepair
  | Some ActionMove => AmMove
  | None => AmNone
  end.

Definition fill_progress (p : JobProgress) : JobProgressMsg :=
  match p with
  | JobPending => {| pm_type := PtPending; pm_message := "" |}
  | JobRunning => {| pm_type := PtRunning; pm_message := "" |}
  | JobDone => {| pm_type := PtDone; pm_message := "" |}
  | JobAbandoned => {| pm_type := PtAbandoned; pm_message := "" |}
  | JobCancelled => {| pm_type := PtCancelled; pm_message := "" |}
  | JobFailed msg => {| pm_type := PtFailed; pm_message := msg |}
  end.

Definition fill_job (job : Job) : JobMsg :=
  {| jm_path := as_str (job_path job);
     jm_hash := hash_bytes (job_hash job);
     jm_kind :=
       match job with
       | JDownload _ _ => KDownload
       | JRealize _ _ index_hash => KRealize (hash_bytes <$> index_hash)
       | JUnrealize _ _ => KUnrealize
       end |}.

Definition fill_churten (n : ChurtenNotification) : ChurtenMsg :=
  {| cm_arena := arena_name (c_arena n);
     cm_job_id := c_job_id n;
     cm_body :=
       match n with
       | CNew _ _ job => BNew (fill_job job)
       | CStart _ _ => BStart
       | CFinish _ _ progress => BFinish (fill_progress progress)
       | CUpdateAction _ _ index action => BUpdateAction (to_capnp_action (Some action)) index
       | CUpdateByteCount _ _ index current_bytes total_bytes => BUpdateByteCount current_bytes total_bytes index
       end |}.

Definition fill_job_info (source : JobInfo) : JobInfoMsg :=
  {| im_arena := arena_name (ji_arena source);
     im_id := ji_id source;
     im_job := fill_job (ji_job source);
     im_progress := fill_progress (ji_progress source);
     im_action := to_capnp_action (ji_action source);
     im_byte_progress := ji_byte_progress source;
     im_notification_index := ji_notification_index source |}.

Definition mark_to_capnp (m : Mark) : MarkMsg :=
  match m with Own => MmOwn | Watch => MmWatch | Keep => MmKeep end.

(** ** Reading them *)

Section convert.
Context (to_str : string → option string).

Definition parse_job (m : JobMsg) : cresult Job :=
  result_bind (parse_path to_str (jm_path m)) (λ path,
    result_bind (parse_hash (jm_hash m)) (λ hash,
      match jm_kind m with
      | KDownload => Ok (JDownload path hash)
      | KRealize None => Ok (JRealize path hash None)
      | KRealize (Some index_hash) => result_map (λ h, JRealize path hash (Some h)) (parse_hash index_hash)
      | KUnrealize => Ok (JUnrealize path hash)
      | KNotInSchema _ => Err ENotInSchema
      end)).

Definition parse_progress (m : JobProgressMsg) : cresult JobProgress :=
  match pm_type m with
  | PtPending => Ok JobPending
  | PtRunning => Ok JobRunning
  | PtDone => Ok JobDone
  | PtAbandoned => Ok JobAbandoned
  | PtCancelled => Ok JobCancelled
  | PtFailed => result_map JobFailed (ok_or EInvalidText (to_str (pm_message m)))
  | PtNotInSchema _ => Err ENotInSchema
  end.

Definition parse_action (m : JobActionMsg) : cresult (option JobAction) :=
  match m with
  | AmNone => Ok None
  | AmDownload => Ok (Some ActionDownload)
  | AmVerify => Ok (Some ActionVerify)
  | AmRepair => Ok (Some ActionRepair)
  | AmMove => Ok (Some ActionMove)
  | AmNotInSchema _ => Err ENotInSchema
  end.

Definition parse_churten (m : ChurtenMsg) : cresult ChurtenNotification :=
  result_bind (parse_arena to_str (cm_arena m)) (λ arena,
    let job_id := cm_job_id m in
    match cm_body m with
    | BNew job => result_map (CNew arena job_id) (parse_job job)
    | BStart => Ok (CStart arena job_id)
    | BFinish progress => result_map (CFinish arena job_id) (parse_progress progress)
    | BUpdateByteCount current_bytes total_bytes index =>
        Ok (CUpdateByteCount arena job_id index current_bytes total_bytes)
    | BUpdateAction action index =>
        result_bind (parse_action action) (λ action,
          result_map (CUpdateAction arena job_id index) (ok_or ENoAction action))
    | BNotInSchema _ => Err ENotInSchema
    end).

Definition parse_job_info (m : JobInfoMsg) : cresult JobInfo :=
  result_bind (parse_arena to_str (im_arena m)) (λ arena,
    result_bind (parse_job (im_job m)) (λ job,
      result_bind (parse_progress (im_progress m)) (λ progress,
        result_map (λ action,
          {| ji_arena := arena; ji_id := im_id m; ji_job := job; ji_progress := progress; ji_action := action;
             ji_byte_progress := im_byte_progress m; ji_notification_index := im_notification_index m |})
          (parse_action (im_action m))))).

Definition parse_mark (m : MarkMsg) : cresult Mark :=
  match m with
  | MmOwn => Ok Own
  | MmWatch => Ok Watch
  | MmKeep => Ok Keep
  | MmNotInSchema _ => Err ENotInSchema
  end.

(** Texts of Rust strings, valid paths, and hashes of 32 bytes *)
Definition job_sendable (job : Job) : Prop :=
  is_text to_str (as_str (job_path job)) ∧ valid (job_path job) ∧ is_hash (job_hash job) ∧
  match job with JRealize _ _ (Some h) => is_hash h | _ => True end.
Definition progress_sendable (p : JobProgress) : Prop :=
  match p with JobFailed msg => is_text to_str msg | _ => True end.
Definition churten_sendable (n : ChurtenNotification) : Prop :=
  is_text to_str (arena_name (c_arena n)) ∧
  match n with CNew _ _ job => job_sendable job | CFinish _ _ p => progress_sendable p | _ => True end.
Definition info_sendable (i : JobInfo) : Prop :=
  is_text to_str (arena_name (ji_arena i)) ∧ job_sendable (ji_job i) ∧ progress_sendable (ji_progress i).

Lemma parse_job_fill job : job_sendable job → parse_job (fill_job job) = Ok job.
Proof.
  intros (Hp & Hv & Hh & Hi). unfold parse_job, fill_job. cbn [jm_path jm_hash jm_kind].
  rewrite parse_path_text by done. cbn [result_bind]. rewrite parse_hash_bytes by done. cbn [result_bind].
  destruct job as [p h|p h [ih|]|p h]; simpl in *; try done. by rewrite parse_hash_bytes.
Qed.

Lemma parse_progress_fill p : progress_sendable p → parse_progress (fill_progress p) = Ok p.
Proof. destruct p as [| | | | |msg]; simpl; try done. intros Ht. unfold parse_progress. simpl. by rewrite Ht. Qed.

Lemma parse_action_fill a : parse_action (to_capnp_action a) = Ok a.
Proof. by destruct a as [[]|]. Qed.

Lemma parse_churten_fill n : churten_sendable n → parse_churten (fill_churten n) = Ok n.
Proof.
  intros [Ha Hn]. unfold parse_churten, fill_churten. cbn [cm_arena cm_job_id cm_body].
  rewrite parse_arena_text by done. cbn [result_bind].
  destruct n as [a i job|a i|a i p|a i x act|a i x c t]; simpl in *; try done.
  - by rewrite parse_job_fill.
  - by rewrite parse_progress_fill.
  - by destruct act.
Qed.

Lemma parse_job_info_fill i : info_sendable i → parse_job_info (fill_job_info i) = Ok i.
Proof.
  intros (Ha & Hj & Hp). unfold parse_job_info, fill_job_info. simpl.
  rewrite parse_arena_text by done. simpl. rewrite parse_job_fill by done. simpl. rewrite parse_progress_fill by done.
  simpl. rewrite parse_action_fill. simpl. by destruct i.
Qed.

Lemma parse_mark_fill m : parse_mark (mark_to_capnp m) = Ok m.
Proof. by destruct m. Qed.

(** A program that is connected to the daemon reads the notifications and the jobs
    that the daemon wrote. *)
Theorem control_roundtrip (ns : list ChurtenNotification) (infos : list JobInfo)
  (Hns : Forall churten_sendable ns) (His : Forall info_sendable infos) :
  parse_all parse_churten (fill_churten <$> ns) = Ok ns ∧ parse_all parse_job_info (fill_job_info <$> infos) = Ok infos.
Proof.
  split.
  - induction Hns as [|n ns Hn _ IH]; [done|]. csimpl. rewrite parse_churten_fill by done. simpl. by rewrite IH.
  - induction His as [|i infos Hi _ IH]; [done|]. csimpl. rewrite parse_job_info_fill by done. simpl. by rewrite IH.
Qed.
End convert.

(** ** Marks *)

Section marks.
Context {R : Redb} {B : Bimap}.
Context (to_str : string → option string).
Implicit Types (s : Storage).

Definition storage_err {A} (r : sresult A) : cresult A :=
  match r with Ok a => Ok a | Err e => Err (EStorage (RStorage e)) end.

Definition ctl_set_mark (arena path : string) (mark : MarkMsg) : StateM Storage CapnpError () :=
  let* arena := slift (parse_arena to_str arena) in
  let* path := slift (parse_path to_str path) in
  let* mark := slift (parse_mark mark) in
  λ s, let '(r, s) := st_set_mark arena path mark s in (storage_err r, s).

Definition ctl_set_arena_mark (arena : string) (mark : MarkMsg) : StateM Storage CapnpError () :=
  let* arena := slift (parse_arena to_str arena) in
  let* mark := slift (parse_mark mark) in
  λ s, let '(r, s) := st_set_arena_mark arena mark s in (storage_err r, s).

Definition ctl_get_mark s (arena path : string) : cresult MarkMsg :=
  result_bind (parse_arena to_str arena) (λ arena,
    result_bind (parse_path to_str path) (λ path,
      match st_get_mark s arena path with
      | Ok mark => Ok (mark_to_capnp mark)
      | Err e => Err (EStorage e)
      end)).

Context `{!RedbLaws R, !BimapLaws B}.

Lemma ctl_get_mark_run s arena p :
  is_text to_str (arena_name arena) → is_text to_str (as_str p) → valid p →
  ctl_get_mark s (arena_name arena) (as_str p) =
    match st_get_mark s arena p with Ok mark => Ok (mark_to_capnp mark) | Err e => Err (EStorage e) end.
Proof.
  intros Ha Ht Hp. unfold ctl_get_mark. rewrite parse_arena_text by done. cbn [result_bind].
  by rewrite parse_path_text.
Qed.

(** C29: a mark that was set through the control interface is the one that it gives
    back; only paths below may be given another one than before; and when it is
    refused by the storage no mark is another one. *)
Theorem control_mark n s arena p (m : Mark)
  (Hs : storage_ok n s) (Ha : is_text to_str (arena_name arena)) (Ht : is_text to_str (as_str p)) (Hp : valid p) :
  let '(r, s') := ctl_set_mark (arena_name arena) (as_str p) (mark_to_capnp m) s in
  (r = Ok tt → ctl_get_mark s' (arena_name arena) (as_str p) = Ok (mark_to_capnp m)) ∧
  (∀ q, valid q → is_text to_str (as_str q) →
     ctl_get_mark s' (arena_name arena) (as_str q) ≠ ctl_get_mark s (arena_name arena) (as_str q) →
     r = Ok tt ∧ comps p `prefix_of` comps q).
Proof.
  unfold ctl_set_mark. cbv [sbind slift]. rewrite parse_arena_text, parse_path_text, parse_mark_fill by done.
  unfold st_set_mark, on_arena, arena_storage.
  destruct (arena_storages s !! arena) as [root|] eqn:Er; cbn [ok_or]; [|by split].
  unfold on_cache. destruct (arena_cache (st_cache s) arena) as [c|e] eqn:Ec; [|by split].
  pose proof Ec as Ec'. unfold arena_cache in Ec'.
  destruct (arena_caches (st_cache s) !! arena) as [c'|] eqn:E; [|done]. injection Ec' as ->.
  destruct (uk_cache _ _ Hs _ _ E) as [_ [F1 F2 F3]].
  set (w := in_world c (u_db (st_cache s)) (u_fs (st_cache s))).
  pose proof (set_mark_run (ac_arena_root c) n (Some p) m w F3 ltac:(by intros p' [= <-])) as H.
  unfold set_mark. destruct (set_mark_or_root (ac_arena_root c) (Some p) m w) as [r w'] eqn:Ew.
  assert (∀ q, st_get_mark (set_st_cache {| u_db := global (w_ext w'); u_fs := fs (w_ext w');
    allocator := allocator (st_cache s); arena_caches := <[arena := from_world c w']> (arena_caches (st_cache s)) |} s)
    arena q = Ok (get_mark (db w') q)) as Hget'.
  { intros q. unfold st_get_mark, with_arena, arena_storage. cbn [set_st_cache arena_storages st_cache].
    rewrite Er. cbn [ok_or]. unfold arena_cache. cbn [arena_caches]. by rewrite lookup_insert_eq. }
  assert (∀ q, st_get_mark s arena q = Ok (get_mark (db w) q)) as Hget.
  { intros q. unfold st_get_mark, with_arena, arena_storage. rewrite Er. cbn [ok_or]. by rewrite Ec. }
  split.
  - intros Hr. rewrite ctl_get_mark_run, Hget' by done. destruct r as [[]|e]; [|done].
    destruct H as (H1 & _). rewrite H1; [done|done|apply governs_refl].
  - intros q Hq Htq. rewrite !ctl_get_mark_run, Hget, Hget' by done. intros Hne. destruct r as [[]|e].
    + split; [done|]. destruct H as (_ & H2 & _).
      destruct (decide (comps p `prefix_of` comps q)) as [|Hn]; [done|]. exfalso. apply Hne. f_equal. f_equal.
      apply H2; [done|]. intros Hg. apply Hn, Hg.
    + destruct H as [_ H]. by rewrite H in Hne.
Qed.
End marks.

(** ** The background task *)

(** The task that runs the jobs, among those that were started. *)
Record ChurtenTask : Type := {
  ct_task : option nat;
  ct_next : nat;
  ct_cancelled : list nat;
  ct_ended : list nat;
}.

Definition churten_new : ChurtenTask := {| ct_task := None; ct_next := 0; ct_cancelled := []; ct_ended := [] |}.

Definition churten_is_running (c : ChurtenTask) : bool :=
  match ct_task c with Some t => negb (bool_decide (t ∈ ct_ended c)) | None => false end.

Definition churten_start (c : ChurtenTask) : ChurtenTask :=
  match ct_task c with
  | Some _ => c
  | None =>
      {| ct_task := Some (ct_next c); ct_next := S (ct_next c); ct_cancelled := ct_cancelled c;
         ct_ended := ct_ended c |}
  end.

Definition churten_shutdown (c : ChurtenTask) : ChurtenTask :=
  match ct_task c with
  | Some t =>
      {| ct_task := None; ct_next := ct_next c; ct_cancelled := t :: ct_cancelled c; ct_ended := ct_ended c |}
  | None => c
  end.

(** The background job ends, on its own or because it was cancelled. *)
Definition churten_ends (t : nat) (c : ChurtenTask) : ChurtenTask :=
  {| ct_task := ct_task c; ct_next := ct_next c; ct_cancelled := ct_cancelled c; ct_ended := t :: ct_ended c |}.

(** A task that ended on its own is not started again, unless it is shut down first. *)
Lemma start_after_end t c :
  ct_task c = Some t → churten_is_running (churten_start (churten_ends t c)) = false.
Proof.
  intros H. unfold churten_start, churten_is_running. simpl. rewrite H. simpl. rewrite H.
  rewrite bool_decide_true; [done|]. by left.
Qed.

(** ** Subscriptions *)

(** What [recv] gives a receiver that has something to receive. *)
Inductive Recv : Type :=
| Received
| Lagged (skipped : nat).

Inductive ChurtenUpdates : Type :=
| Reset (jobs : list JobInfo)
| Notify (n : ChurtenNotification).

(** The task that serves a subscriber: it is about to send the active jobs, or waits
    for a notification; the number is the position of its receiver. *)
Inductive Forwarder : Type :=
| FwdNone
| FwdReset (pos : nat)
| FwdRecv (pos : nat)
| FwdEnded.

#[global] Instance Forwarder_eq_dec : EqDecision Forwarder.
Proof. solve_decision. Defined.

(** What was sent on the channel; the tracker of the recent jobs, and the position of
    the receiver that feeds it, while it is fed; the subscriber. *)
Record Feed : Type := {
  fd_sent : list ChurtenNotification;
  fd_recent : JobInfoTracker;
  fd_tracker : option nat;
  fd_sub : Forwarder;
  fd_updates : list ChurtenUpdates;
}.

Definition feed_new : Feed :=
  {| fd_sent := []; fd_recent := tracker_new 16; fd_tracker := Some 0%nat; fd_sub := FwdNone; fd_updates := [] |}.

Inductive FeedEvent : Type :=
| ESend (n : ChurtenNotification)
| ETracker (r : Recv)
| ESubscribe
| EReset (fate : Fate)
| EForward (r : Recv) (fate : Fate).

Section feed.
Context (to_str : string → option string).
Implicit Types (s : Feed) (e : FeedEvent) (k : Arena * JobId).

Definition set_sub (sub : Forwarder) (updates : list ChurtenUpdates) s : Feed :=
  {| fd_sent := fd_sent s; fd_recent := fd_recent s; fd_tracker := fd_tracker s; fd_sub := sub; fd_updates := updates |}.

(** [TxChurtenSubscriber::reset] and [notify] *)
Definition client_reset (msgs : list JobInfoMsg) : StateM (list ChurtenUpdates) CapnpError () :=
  let* jobs := slift (parse_all (parse_job_info to_str) msgs) in
  smodify (λ l, l ++ [Reset jobs]).
Definition client_notify (msg : ChurtenMsg) : StateM (list ChurtenUpdates) CapnpError () :=
  let* n := slift (parse_churten to_str msg) in
  smodify (λ l, l ++ [Notify n]).

(** [send_active_jobs] *)
Definition send_active_jobs (fate : Fate) (recent : JobInfoTracker) : StateM (list ChurtenUpdates) CapnpError () :=
  call fate (client_reset (fill_job_info <$> active_jobs recent)).

(** A turn of one of the tasks; an event that cannot happen changes nothing.  The
    receiver that [resubscribe] returns is dropped, so the one in use stays where
    it is. *)
Definition feed_step e s : Feed :=
  match e with
  | ESend n =>
      {| fd_sent := fd_sent s ++ [n]; fd_recent := fd_recent s; fd_tracker := fd_tracker s; fd_sub := fd_sub s;
         fd_updates := fd_updates s |}
  | ETracker r =>
      match fd_tracker s with
      | None => s
      | Some pos =>
          match r, fd_sent s !! pos with
          | Received, Some n =>
              {| fd_sent := fd_sent s; fd_recent := (tracker_update n (fd_recent s)).2; fd_tracker := Some (S pos);
                 fd_sub := fd_sub s; fd_updates := fd_updates s |}
          | Lagged _, Some _ =>
              {| fd_sent := fd_sent s; fd_recent := fd_recent s; fd_tracker := None; fd_sub := fd_sub s;
                 fd_updates := fd_updates s |}
          | _, None => s
          end
      end
  | ESubscribe =>
      if bool_decide (fd_sub s = FwdNone) then set_sub (FwdReset (length (fd_sent s))) (fd_updates s) s else s
  | EReset fate =>
      match fd_sub s with
      | FwdReset pos =>
          match send_active_jobs fate (fd_recent s) (fd_updates s) with
          | (Ok _, updates) => set_sub (FwdRecv pos) updates s
          | (Err _, updates) => set_sub FwdEnded updates s
          end
      | _ => s
      end
  | EForward r fate =>
      match fd_sub s with
      | FwdRecv pos =>
          match r, fd_sent s !! pos with
          | Received, Some n =>
              match call fate (client_notify (fill_churten n)) (fd_updates s) with
              | (Ok _, updates) => set_sub (FwdRecv (S pos)) updates s
              | (Err _, updates) => set_sub FwdEnded updates s
              end
          | Lagged skipped, Some _ => set_sub (FwdReset (Nat.min (pos + skipped) (length (fd_sent s)))) (fd_updates s) s
          | _, None => s
          end
      | _ => s
      end
  end.

Definition feed_run (es : list FeedEvent) s : Feed := foldl (λ s e, feed_step e s) s es.

(** [Display::update]: what the program shows *)
Definition display_update (u : ChurtenUpdates) (t : JobInfoTracker) : JobInfoTracker :=
  match u with
  | Reset js => tracker_init js t
  | Notify n => (tracker_update n t).2
  end.
Definition view s : JobInfoTracker := foldl (λ t u, display_update u t) (tracker_new 16) (fd_updates s).

(** A job that is not finished *)
Definition unfinished (o : option JobInfo) : option JobInfo :=
  match o with Some i => if done_job i then None else Some i | None => None end.
Definition active_of (t : JobInfoTracker) k : option JobInfo := unfinished (jobs t !! k).

(** What is sent of a job that is run once, or the start of it *)
Definition announced_once k (ns : list ChurtenNotification) : Prop :=
  ∃ job rs cancelled status, N.of_nat (length rs) + 2 < u32_modulus ∧
    ns `prefix_of` job_notifications k.1 k.2 job rs cancelled status.

(** The active jobs are sent when the tracker is not behind the subscriber. *)
Fixpoint current (es : list FeedEvent) s : Prop :=
  match es with
  | [] => True
  | e :: es =>
      match e, fd_sub s, fd_tracker s with
      | EReset _, FwdReset pos, Some tracked => (pos ≤ tracked)%nat
      | _, _, _ => True
      end ∧ current es (feed_step e s)
  end.


(** ** Replaying *)

Lemma own_all_app ns1 ns2 o : own_all (ns1 ++ ns2) o = own_all ns2 (own_all ns1 o).
Proof. apply foldl_app. Qed.

Lemma own_all_active ns o :
  Forall (λ n, ¬ finishes n) ns → unfinished o = o → unfinished (own_all ns o) = own_all ns o.
Proof.
  intros Hns. revert o. induction Hns as [|n ns Hn _ IH]; intros o Ho; [done|]. simpl. apply IH.
  destruct (own_next n o) as [i|] eqn:E; [|done]. simpl. erewrite own_next_active; [done|exact Hn| |exact E].
  intros j ->. simpl in Ho. by destruct (done_job j).
Qed.

Lemma own_all_unknown ns : Forall (λ n, new_job n = 0%nat) ns → own_all ns None = None.
Proof. induction 1 as [|n ns Hn _ IH]; [done|]. simpl. by destruct n. Qed.

Lemma numbered_prefix a i x ns ns' : numbered a i x ns → ns' `prefix_of` ns → numbered a i x ns'.
Proof.
  intros H [ns2 ->]. revert x H. induction ns' as [|n ns' IH]; intros x; [done|]. simpl. naive_solver.
Qed.

(** The notifications of a reporter that were taken into account are ignored. *)
Lemma numbered_ignored a id x ns n i :
  numbered a id x ns → n ∈ ns → x + N.of_nat (length ns) ≤ ji_notification_index i + 1 →
  own_next n (Some i) = Some i.
Proof.
  revert x. induction ns as [|n' ns IH]; intros x; [by intros _ ?%not_elem_of_nil|].
  intros (_ & Hx & Hns) [->|Hn]%elem_of_cons Hi; simpl in Hi.
  - assert (ji_notification_index i <? x = false) as E by (apply N.ltb_ge; lia).
    destruct n'; try done; subst; unfold own_next; simpl; by rewrite E, andb_false_r.
  - apply (IH (x + 1)); [done..|lia].
Qed.

Lemma job_notifications_shape k job rs cancelled status :
  N.of_nat (length rs) + 2 < u32_modulus →
  ∃ ns, job_notifications k.1 k.2 job rs cancelled status =
    (CNew k.1 k.2 job :: CStart k.1 k.2 :: ns) ++ [CFinish k.1 k.2 (finish_progress cancelled status)] ∧
    numbered k.1 k.2 2 ns ∧ Forall (λ n, new_job n = 0%nat ∧ ¬ finishes n) ns.
Proof.
  intros Hrs. destruct (run_job_numbered k.1 k.2 rs Hrs) as (ns & E & Hn). exists ns.
  unfold job_notifications. rewrite E. split; [done|]. split; [done|]. clear -Hn.
  generalize dependent 2. induction ns as [|n ns IH]; intros x; [constructor|].
  intros (_ & Hx & Hns). constructor; [|by eapply IH]. unfold finishes. destruct n; try done; split; try done; by intros H.
Qed.

Lemma once_prefix k ns ns' : announced_once k ns → ns' `prefix_of` ns → announced_once k ns'.
Proof. intros (job & rs & c & st & H & Hp) Hp'. exists job, rs, c, st. split; [done|]. by etrans. Qed.

Lemma once_not_new k ns n : announced_once k (ns ++ [n]) → ns ≠ [] → new_job n = 0%nat.
Proof.
  intros (job & rs & c & st & Hrs & Hp) Hne. destruct ns as [|n0 ns]; [done|]. clear Hne.
  destruct (job_notifications_shape k job rs c st Hrs) as (us & E & _ & Hus). rewrite E in Hp.
  cbn [app] in Hp. apply prefix_cons_inv_2 in Hp.
  assert (n ∈ CStart k.1 k.2 :: us ++ [CFinish k.1 k.2 (finish_progress c st)]) as Hin.
  { destruct Hp as [l ->]. set_solver. }
  rewrite Forall_forall in Hus.
  apply elem_of_cons in Hin as [->|[Hin|Hin%list_elem_of_singleton]%elem_of_app]; [done|by apply Hus|by subst n].
Qed.

(** What made a job active changes nothing when it comes again. *)
Lemma replay_ignored k job ns q i n :
  numbered k.1 k.2 2 ns → Forall (λ n, new_job n = 0%nat ∧ ¬ finishes n) ns →
  q `prefix_of` CNew k.1 k.2 job :: CStart k.1 k.2 :: ns →
  own_all q None = Some i → n ∈ q → own_next n (Some i) = Some i.
Proof.
  intros Hnum Hns Hq Hi Hn. destruct q as [|n0 q]; [by apply not_elem_of_nil in Hn|].
  pose proof (prefix_cons_inv_1 _ _ _ _ Hq) as ->. apply prefix_cons_inv_2 in Hq.
  destruct q as [|n1 q].
  { apply list_elem_of_singleton in Hn as ->. done. }
  pose proof (prefix_cons_inv_1 _ _ _ _ Hq) as ->. apply prefix_cons_inv_2 in Hq.
  pose proof (numbered_prefix _ _ _ _ _ Hnum Hq) as Hnq.
  set (i0 := {| ji_arena := k.1; ji_id := k.2; ji_job := job; ji_progress := JobRunning; ji_action := None;
                ji_byte_progress := None; ji_notification_index := 0 |}).
  destruct (numbered_run k.1 k.2 2 q i0 Hnq eq_refl ltac:(done)) as [Hr _].
  change (own_all q (Some i0) = Some i) in Hi. rewrite Hr in Hi. injection Hi as <-.
  apply elem_of_cons in Hn as [->|[->|Hn]%elem_of_cons]; [done|done|].
  apply (numbered_ignored k.1 k.2 2 q); [done..|]. cbn [ji_notification_index i0].
  case_decide as E; [by rewrite E in Hn; apply not_elem_of_nil in Hn|]. lia.
Qed.

Lemma own_all_ignored ns i : (∀ n, n ∈ ns → own_next n (Some i) = Some i) → own_all ns (Some i) = Some i.
Proof.
  induction ns as [|n ns IH]; intros H; [done|]. simpl. rewrite (H n ltac:(by left)). apply IH.
  intros n' Hn'. apply H. by right.
Qed.

(** Jobs that were sent as active after [p ++ a], then [a] again and [b], are as active
    as after all that came. *)
Lemma replay k p a b :
  announced_once k (p ++ a ++ b) →
  unfinished (own_all (a ++ b) (unfinished (own_all (p ++ a) None))) = unfinished (own_all (p ++ a ++ b) None).
Proof.
  intros (job & rs & c & st & Hrs & Hp). destruct (job_notifications_shape k job rs c st Hrs) as (ns & E & Hnum & Hns).
  rewrite E in Hp. set (started := CNew k.1 k.2 job :: CStart k.1 k.2 :: ns) in *.
  rewrite (app_assoc p a b) in Hp |- *. rewrite (own_all_app (p ++ a) b).
  assert (Forall (λ n, ¬ finishes n) started) as Hact.
  { repeat constructor; [by intros H; apply H..|]. eapply Forall_impl; [exact Hns|]. by intros n [_ ?]. }
  assert (p ++ a `prefix_of` started ++ [CFinish k.1 k.2 (finish_progress c st)]) as Hpa by (etrans; [|exact Hp]; by eexists).
  apply prefix_snoc_inv in Hpa. destruct Hpa as [Hpa|Hpa].
  - assert (Forall (λ n, ¬ finishes n) (p ++ a)) as Hf.
    { destruct Hpa as [l Hl]. rewrite Hl in Hact. by apply Forall_app in Hact as [? _]. }
    rewrite (own_all_active (p ++ a) None) by done.
    destruct (own_all (p ++ a) None) as [i|] eqn:Ei.
    + rewrite own_all_app, own_all_ignored; [done|]. intros n Hn. eapply replay_ignored; [done..|set_solver].
    + destruct (p ++ a) as [|n0 q] eqn:Eq; [by apply app_eq_nil in Eq as [_ ->]|].
      pose proof (prefix_cons_inv_1 _ _ _ _ Hpa) as ->. exfalso.
      assert (∀ l o, is_Some o → is_Some (own_all l o)) as Hsome.
      { intros l. induction l as [|n l IH]; intros o Ho; [done|]. simpl. apply IH. destruct Ho as [j ->].
        unfold own_next. by destruct (own_step n (Some j)). }
      destruct (Hsome q (own_next (CNew k.1 k.2 job) None)) as [j Hj]; [by eexists|]. simpl in Ei. congruence.
  - assert (b = []) as ->.
    { destruct Hp as [l Hl]. rewrite Hpa, <- app_assoc in Hl. rewrite <- (app_nil_r (_ ++ [_])) in Hl at 1.
      apply app_inv_head in Hl. symmetry in Hl. by apply app_eq_nil in Hl as [? _]. }
    rewrite app_nil_r. simpl (own_all [] _).
    assert (unfinished (own_all (p ++ a) None) = None) as Hd.
    { rewrite Hpa, own_all_app. pose proof (own_all_active started None Hact eq_refl) as Ha.
      destruct (own_all started None) as [i|]; [|done]. simpl in *. destruct (done_job i) eqn:Ed; [done|].
      unfold own_next. simpl. rewrite Ed. simpl. unfold done_job. simpl. by destruct st as [[]|], c. }
    rewrite Hd. destruct p as [|n0 p].
    + exact Hd.
    + rewrite own_all_unknown; [done|]. simpl in Hpa. injection Hpa as _ Hpa.
      assert (Forall (λ n, new_job n = 0%nat) (p ++ a)) as Hall; [|by apply Forall_app in Hall as [_ ?]].
      rewrite Hpa. repeat constructor. apply Forall_app. split; [|by repeat constructor].
      eapply Forall_impl; [exact Hns|]. by intros n [? _].
Qed.

(** ** In step *)

(** The tracker [t] has the job [k] as [o], or has dropped it as finished. *)
Definition follows (t : JobInfoTracker) k (o : option JobInfo) : Prop :=
  jobs t !! k = o ∨ (jobs t !! k = None ∧ ∃ i, o = Some i ∧ done_job i = true).

Lemma follows_unfinished t k o : follows t k o → active_of t k = unfinished o.
Proof. unfold active_of. intros [->|(-> & i & -> & Hd)]; [done|]. simpl. by rewrite Hd. Qed.

Lemma own_next_done n i : done_job i = true → own_next n (Some i) = Some i.
Proof.
  intros Hd. unfold own_next. destruct n; simpl; rewrite ?Hd; try done;
    rewrite bool_decide_false; try done; intros E; unfold done_job in Hd; by rewrite E in Hd.
Qed.

Lemma follows_step n t k o :
  tracker_ok t → sane n → follows t k o →
  (∀ i, o = Some i → done_job i = true → global_job_id n = k → new_job n = 0%nat) →
  tracker_ok (tracker_update n t).2 ∧ follows (tracker_update n t).2 k (after n k o).
Proof.
  intros Ht Hn Ho Hnew. destruct (update_at n t k Ht Hn) as (Ht' & _ & H). split; [done|].
  destruct Ho as [Ho|(Ho & i & -> & Hd)]; rewrite Ho in H; [exact H|].
  assert (after n k (Some i) = Some i) as E by (unfold after; case_decide; [by apply own_next_done|done]).
  rewrite E. right. split; [|by exists i]. specialize (Hnew i eq_refl Hd).
  assert (after n k None = None) as E0.
  { unfold after. case_decide as Hk; [|done]. specialize (Hnew Hk). by destruct n. }
  rewrite E0 in H. by destruct H as [H|[H _]].
Qed.

(** What is told of jobs can be written and read. *)
Definition all_sendable (t : JobInfoTracker) : Prop := ∀ k i, jobs t !! k = Some i → info_sendable to_str i.

Lemma own_next_sendable n o i :
  churten_sendable to_str n → (∀ j, o = Some j → info_sendable to_str j) → own_next n o = Some i → info_sendable to_str i.
Proof.
  intros [Ha Hn] Ho. unfold own_next. destruct (own_step n o) as [j|] eqn:E; [|apply Ho]. intros [= ->].
  destruct o as [j|].
  - destruct (Ho j eq_refl) as (H1 & H2 & H3). destruct n; simpl in E, Hn; repeat case_match; simplify_eq;
      by split_and!.
  - destruct n; try done. injection E as <-. by split_and!.
Qed.

Lemma update_sendable n t :
  tracker_ok t → sane n → churten_sendable to_str n → all_sendable t → all_sendable (tracker_update n t).2.
Proof.
  intros Ht Hs Hn Hall k i Hi. destruct (update_at n t k Ht Hs) as (_ & _ & [H|[H _]]); [|congruence].
  rewrite H in Hi. unfold after in Hi. case_decide; [|by eapply Hall]. eapply own_next_sendable; [done| |exact Hi].
  intros j. apply Hall.
Qed.

(** *** The active jobs as a start *)

Lemma init_jobs l t :
  NoDup (info_id <$> l) → Forall (λ i, done_job i = false) l →
  finished (foldl init_step t l) = finished t ∧ limit (foldl init_step t l) = limit t ∧
  ∀ k, (∀ i, i ∈ l → info_id i = k → jobs (foldl init_step t l) !! k = Some i) ∧
       ((∀ i, i ∈ l → info_id i ≠ k) → jobs (foldl init_step t l) !! k = jobs t !! k).
Proof.
  revert t. induction l as [|i l IH]; intros t Hnd Hact.
  { split_and!; try done. intros k. split; [by intros i ?%not_elem_of_nil|done]. }
  csimpl in Hnd. apply NoDup_cons in Hnd as [Hni Hnd]. apply Forall_cons in Hact as [Hi Hact].
  destruct (IH (init_step t i) Hnd Hact) as (I1 & I2 & I3). cbn [foldl]. rewrite I1, I2.
  unfold init_step at 1. unfold done_job in Hi. rewrite Hi. cbn [finished]. rewrite app_nil_r. split; [done|].
  split; [done|]. intros k. destruct (I3 k) as [I4 I5]. split.
  - intros j [->|Hj]%elem_of_cons Hk; [|by apply I4]. rewrite I5.
    + unfold init_step. cbn [jobs]. rewrite Hk. apply lookup_insert_eq.
    + intros i' Hi' E. apply Hni, list_elem_of_fmap. exists i'. split; [congruence|done].
  - intros Hk. rewrite I5; [|intros i' Hi'; apply Hk; by right]. unfold init_step. cbn [jobs].
    apply lookup_insert_ne. apply Hk. by left.
Qed.

Lemma elem_of_active t i : tracker_ok t → i ∈ active_jobs t ↔ jobs t !! info_id i = Some i ∧ done_job i = false.
Proof.
  intros Ht. unfold active_jobs, tracker_iter. rewrite list_elem_of_filter, list_elem_of_fmap. unfold done_job. split.
  - intros [Hd ([k j] & -> & Hj%elem_of_map_to_list)]. simpl in *. by rewrite (tk_keys _ Ht _ _ Hj).
  - intros [Hj Hd]. split; [done|]. exists (info_id i, i). split; [done|]. by apply elem_of_map_to_list.
Qed.

Lemma active_ids t : tracker_ok t → NoDup (info_id <$> active_jobs t).
Proof.
  intros Ht. unfold active_jobs, tracker_iter. eapply sublist_NoDup; [|apply fmap_sublist, sublist_filter].
  rewrite <- list_fmap_compose. erewrite list_fmap_ext; [apply NoDup_fst_map_to_list|].
  intros i [k j] Hkj. apply list_elem_of_lookup_2, elem_of_map_to_list in Hkj. simpl. by apply (tk_keys _ Ht).
Qed.

Lemma init_active r t :
  tracker_ok r → tracker_ok (tracker_init (active_jobs r) t) ∧
  ∀ k, jobs (tracker_init (active_jobs r) t) !! k = active_of r k.
Proof.
  intros Hr. pose proof (active_ids r Hr) as Hnd.
  assert (Forall (λ i, done_job i = false) (active_jobs r)) as Hact.
  { apply Forall_forall. intros i Hi. by apply elem_of_active in Hi as [_ ?]. }
  destruct (init_pre (active_jobs r) (tracker_new (limit t))) as [Hp Hl].
  { apply tracker_new_ok. }
  { done. }
  { done. }
  destruct (init_jobs (active_jobs r) (tracker_new (limit t)) Hnd Hact) as (Hf & _ & Hj).
  change (finished (tracker_new (limit t))) with ([] : list (Arena * JobId)) in Hf.
  destruct (trim_run _ Hp) as (_ & _ & H3 & Hok). split; [exact Hok|]. intros k. unfold tracker_init. rewrite H3, Hf.
  rewrite take_nil, decide_False by (apply not_elem_of_nil). destruct (Hj k) as [J1 J2].
  unfold active_of. destruct (jobs r !! k) as [i|] eqn:Ei; simpl.
  - pose proof (tk_keys _ Hr _ _ Ei) as Hk. destruct (done_job i) eqn:Hd.
    + rewrite J2; [done|]. intros j [Hj1 Hd1]%elem_of_active E; [|done]. rewrite E, Ei in Hj1. congruence.
    + apply J1; [|done]. apply elem_of_active; [done|]. by rewrite Hk.
  - rewrite J2; [done|]. intros j [Hj1 _]%elem_of_active E; [|done]. congruence.
Qed.

(** *** The invariant *)

Definition good_sent (l : list ChurtenNotification) : Prop :=
  Forall (churten_sendable to_str) l ∧ ∀ k, announced_once k (own_notifications k l).

Lemma good_prefix l l' : good_sent l → l' `prefix_of` l → good_sent l'.
Proof.
  intros [H1 H2] [r ->]. apply Forall_app in H1 as [H1 _]. split; [done|]. intros k.
  eapply once_prefix; [apply H2|]. rewrite own_filter_app. by eexists.
Qed.

Lemma good_sane l n : good_sent l → n ∈ l → sane n.
Proof.
  intros [_ Hl] Hn. destruct (Hl (global_job_id n)) as (job & rs & c & st & Hrs & Hp).
  assert (n ∈ own_notifications (global_job_id n) l) as Hin by (by apply list_elem_of_filter).
  destruct (job_notifications_shape (global_job_id n) job rs c st Hrs) as (ns & E & _ & Hns). rewrite E in Hp.
  destruct Hp as [r Hr]. assert (n ∈ own_notifications (global_job_id n) l ++ r) as Hin' by set_solver.
  rewrite <- Hr in Hin'. simpl in Hin'. apply elem_of_cons in Hin' as [->|[->|Hin']%elem_of_cons]; [done|done|].
  apply elem_of_app in Hin' as [Hin'|Hin'].
  - rewrite Forall_forall in Hns. destruct (Hns n Hin') as [_ Hf]. destruct n; try done. exfalso. by apply Hf.
  - apply list_elem_of_singleton in Hin' as ->. simpl. by destruct st as [[]|], c.
Qed.

(** A notification of a job of which something was sent before *)
Lemma good_not_new l1 l2 n k :
  good_sent (l1 ++ l2 ++ [n]) → global_job_id n = k → own_notifications k l2 ≠ [] → new_job n = 0%nat.
Proof.
  intros [_ Hl] Hk Hne. specialize (Hl k). rewrite app_assoc, own_filter_app in Hl.
  assert (own_notifications k [n] = [n]) as E by (unfold own_notifications; rewrite filter_cons, decide_True by done; done).
  rewrite E in Hl. eapply once_not_new; [exact Hl|]. rewrite own_filter_app. intros [_ H]%app_eq_nil. done.
Qed.

(** What the job [k] is from a start [o] after [l]. *)
Definition own_of k (l : list ChurtenNotification) (o : option JobInfo) : option JobInfo :=
  own_all (own_notifications k l) o.

Lemma own_of_snoc k l n o : own_of k (l ++ [n]) o = after n k (own_of k l o).
Proof.
  unfold own_of, after. rewrite own_filter_app, own_all_app. unfold own_notifications at 1. rewrite filter_cons.
  by case_decide.
Qed.

(** One more notification, for a tracker that follows them from a start. *)
Lemma follows_snoc l1 l2 n t k o :
  good_sent (l1 ++ l2 ++ [n]) → tracker_ok t → unfinished o = o →
  follows t k (own_of k l2 o) →
  tracker_ok (tracker_update n t).2 ∧ follows (tracker_update n t).2 k (own_of k (l2 ++ [n]) o).
Proof.
  intros Hg Ht Ho Hf. rewrite own_of_snoc. apply follows_step; [done| |done|].
  - eapply good_sane; [exact Hg|]. set_solver.
  - intros i Hi Hd Hk. apply (good_not_new l1 l2 n k); [done..|]. intros E. unfold own_of in Hi. rewrite E in Hi.
    simpl in Hi. rewrite Hi in Ho. simpl in Ho. by rewrite Hd in Ho.
Qed.

(** The tracker follows what it received. *)
Record tracked s (tp : nat) : Prop := {
  td_le : (tp ≤ length (fd_sent s))%nat;
  td_ok : tracker_ok (fd_recent s);
  td_sendable : all_sendable (fd_recent s);
  td_follows : ∀ k, follows (fd_recent s) k (own_of k (take tp (fd_sent s)) None);
}.

(** The subscriber follows what it received since [rp], from the jobs that were active
    after [sp] notifications. *)
Record subscribed s (tp pos rp sp : nat) : Prop := {
  sb_pos : (pos ≤ length (fd_sent s))%nat;
  sb_rp : (rp ≤ pos)%nat;
  sb_sp : (rp ≤ sp ≤ tp)%nat;
  sb_follows : ∀ k, follows (view s) k
    (own_of k (take (pos - rp) (drop rp (fd_sent s))) (unfinished (own_of k (take sp (fd_sent s)) None)));
}.

Definition feed_ok s : Prop :=
  ∀ tp, fd_tracker s = Some tp → tracked s tp ∧
    match fd_sub s with
    | FwdNone => tracker_ok (view s)
    | FwdReset pos => tracker_ok (view s) ∧ (pos ≤ length (fd_sent s))%nat
    | FwdRecv pos => tracker_ok (view s) ∧ ∃ rp sp, subscribed s tp pos rp sp
    | FwdEnded => True
    end.

Lemma feed_new_ok : feed_ok feed_new.
Proof.
  intros tp [= <-]. split; [|apply tracker_new_ok]. split; [done|apply tracker_new_ok|by intros k i|by left].
Qed.

Lemma view_snoc s sub u : view (set_sub sub (fd_updates s ++ [u]) s) = display_update u (view s).
Proof. unfold view. cbn [set_sub fd_updates]. by rewrite foldl_app. Qed.

Lemma unfinished_idem o : unfinished (unfinished o) = unfinished o.
Proof. destruct o as [i|]; [|done]. simpl. destruct (done_job i) eqn:E; simpl; by rewrite ?E. Qed.

(** The part of [l] from [rp] to [pos] *)
Definition window {A} (rp pos : nat) (l : list A) : list A := take (pos - rp) (drop rp l).

Lemma window_app {A} pos rp (l l' : list A) :
  (rp ≤ pos ≤ length l)%nat → window rp pos (l ++ l') = window rp pos l.
Proof. intros H. unfold window. rewrite drop_app_le by lia. apply take_app_le. rewrite length_drop. lia. Qed.

Lemma window_snoc {A} pos rp (l : list A) n :
  (rp ≤ pos)%nat → l !! pos = Some n → window rp (S pos) l = window rp pos l ++ [n].
Proof.
  intros H Hn. unfold window. replace (S pos - rp)%nat with (S (pos - rp)) by lia. apply take_S_r. rewrite lookup_drop.
  by replace (rp + (pos - rp))%nat with pos by lia.
Qed.

Lemma take_window {A} pos rp (l : list A) : (rp ≤ pos)%nat → take pos l = take rp l ++ window rp pos l.
Proof.
  intros H. unfold window. replace pos with (rp + (pos - rp))%nat at 1 by lia. symmetry. apply take_take_drop.
Qed.

Lemma take_prefix {A} n (l : list A) : take n l `prefix_of` l.
Proof. exists (drop n l). by rewrite take_drop. Qed.

Lemma tracker_step s tp n :
  good_sent (fd_sent s) → tracked s tp → fd_sent s !! tp = Some n →
  let t := (tracker_update n (fd_recent s)).2 in
  (S tp ≤ length (fd_sent s))%nat ∧ tracker_ok t ∧ all_sendable t ∧
  ∀ k, follows t k (own_of k (take (S tp) (fd_sent s)) None).
Proof.
  intros Hg [T1 T2 T3 T4] Hn t. split; [by apply lookup_lt_Some in Hn|].
  assert (n ∈ fd_sent s) as Hin by (by eapply list_elem_of_lookup_2).
  assert (sane n) as Hs by (by eapply good_sane).
  destruct (update_at n (fd_recent s) (global_job_id n) T2 Hs) as (Ht & _ & _).
  split; [exact Ht|]. split.
  - apply update_sendable; [done..| |done]. destruct Hg as [Hg _]. rewrite Forall_forall in Hg. by apply Hg.
  - intros k. rewrite (take_S_r _ _ _ Hn). apply (follows_snoc [] (take tp (fd_sent s)) n); [|done..|apply T4].
    rewrite app_nil_l, <- (take_S_r _ _ _ Hn). eapply good_prefix; [exact Hg|apply take_prefix].
Qed.

Lemma reset_step s tp pos :
  tracked s tp → (pos ≤ length (fd_sent s))%nat → (pos ≤ tp)%nat →
  let s' := set_sub (FwdRecv pos) (fd_updates s ++ [Reset (active_jobs (fd_recent s))]) s in
  tracker_ok (view s') ∧ subscribed s' tp pos pos tp.
Proof.
  intros [T1 T2 T3 T4] Hpos Htp s'. unfold s'. rewrite view_snoc. cbn [display_update].
  destruct (init_active (fd_recent s) (view s) T2) as [H1 H2]. split; [exact H1|]. split; [done|done|lia|].
  intros k. rewrite view_snoc. cbn [display_update set_sub fd_sent]. left. rewrite H2, Nat.sub_diag.
  rewrite (follows_unfinished _ _ _ (T4 k)). done.
Qed.

Lemma forward_step s tp pos rp sp n :
  good_sent (fd_sent s) → fd_sent s !! pos = Some n →
  tracker_ok (view s) → subscribed s tp pos rp sp →
  let s' := set_sub (FwdRecv (S pos)) (fd_updates s ++ [Notify n]) s in
  tracker_ok (view s') ∧ subscribed s' tp (S pos) rp sp.
Proof.
  intros Hg Hn Hv [B1 B2 B3 B4] s'. unfold s'. rewrite view_snoc. cbn [display_update].
  assert (n ∈ fd_sent s) as Hin by (by eapply list_elem_of_lookup_2).
  assert (good_sent (take rp (fd_sent s) ++ window rp pos (fd_sent s) ++ [n])) as Hg'.
  { rewrite app_assoc, <- take_window, <- (take_S_r _ _ _ Hn) by done.
    eapply good_prefix; [exact Hg|apply take_prefix]. }
  destruct (update_at n (view s) (global_job_id n) Hv (good_sane _ _ Hg Hin)) as (Ht & _ & _). split; [exact Ht|].
  split; cbn [set_sub fd_sent]; [by apply lookup_lt_Some in Hn|lia|done|].
  intros k. rewrite view_snoc. cbn [display_update]. fold (window rp (S pos) (fd_sent s)). rewrite (window_snoc _ _ _ n) by done.
  eapply follows_snoc; [exact Hg'|done|apply unfinished_idem|apply B4].
Qed.

(** The jobs and the notifications that are sent are read as they were. *)
Lemma send_active_jobs_run fate r l :
  tracker_ok r → all_sendable r →
  send_active_jobs fate r l =
    match fate with
    | Answered => (Ok tt, l ++ [Reset (active_jobs r)])
    | Unanswered => (Err EDisconnected, l ++ [Reset (active_jobs r)])
    | Lost => (Err EDisconnected, l)
    end.
Proof.
  intros Hr Hs. unfold send_active_jobs, call, client_reset. cbv [sbind slift smodify].
  assert (parse_all (parse_job_info to_str) (fill_job_info <$> active_jobs r) = Ok (active_jobs r)) as ->; [|by destruct fate].
  assert (∀ i, i ∈ active_jobs r → info_sendable to_str i) as H.
  { intros i [Hi _]%elem_of_active; [|done]. by eapply Hs. }
  induction (active_jobs r) as [|i js IH]; [done|]. csimpl. rewrite parse_job_info_fill by (apply H; by left). simpl.
  by rewrite IH by (intros j Hj; apply H; by right).
Qed.

Lemma client_notify_run fate n l :
  churten_sendable to_str n →
  call fate (client_notify (fill_churten n)) l =
    match fate with
    | Answered => (Ok tt, l ++ [Notify n])
    | Unanswered => (Err EDisconnected, l ++ [Notify n])
    | Lost => (Err EDisconnected, l)
    end.
Proof.
  intros Hn. unfold call, client_notify. cbv [sbind slift smodify]. rewrite parse_churten_fill by done. by destruct fate.
Qed.

Lemma feed_step_ok e s :
  good_sent (fd_sent (feed_step e s)) → feed_ok s →
  (∀ fate pos tp, e = EReset fate → fd_sub s = FwdReset pos → fd_tracker s = Some tp → (pos ≤ tp)%nat) →
  feed_ok (feed_step e s).
Proof.
  intros Hg Hs Hcur tp'. destruct e as [n|r| |fate|r fate]; simpl in *.
  - intros Htp. destruct (Hs _ Htp) as [[T1 T2 T3 T4] Hsub]. split.
    + split; cbn; [rewrite length_app; lia|done|done|]. intros k. rewrite take_app_le by done. apply T4.
    + cbn. rewrite length_app. destruct (fd_sub s) as [|pos|pos|]; [done|destruct Hsub; split; [done|lia]| |done].
      destruct Hsub as [Hv (rp & sp & [B1 B2 B3 B4])]. split; [done|]. exists rp, sp.
      split; cbn; [rewrite length_app; lia|done|done|]. intros k. change (view _) with (view s).
      fold (window rp pos (fd_sent s ++ [n])). rewrite window_app, take_app_le by lia. apply B4.
  - destruct (fd_tracker s) as [tp|] eqn:Htp; [|intros Htp'; by apply Hs]. destruct (Hs _ Htp) as [T Hsub].
    destruct r as [|k]; destruct (fd_sent s !! tp) as [n|] eqn:Hn; simpl in *; try done;
      try (intros Htp'; rewrite Htp in Htp'; injection Htp' as <-; by split).
    intros [= <-]. destruct (tracker_step s tp n Hg T Hn) as (T1 & T2 & T3 & T4). split; [by split|]. cbn.
    change (view _) with (view s). destruct (fd_sub s) as [|pos|pos|]; [done..| |done].
    destruct Hsub as [Hv (rp & sp & [B1 B2 B3 B4])]. split; [done|]. exists rp, sp. split; [done|done|lia|done].
  - case_bool_decide as Hn; [|by apply Hs]. intros Htp. destruct (Hs _ Htp) as [T Hsub]. rewrite Hn in Hsub.
    split; [by destruct T|]. split; [exact Hsub|done].
  - destruct (fd_sub s) as [|pos|pos|] eqn:Es; try (intros Htp; specialize (Hs _ Htp); by rewrite Es in Hs |- * ).
    intros Htp. assert (fd_tracker s = Some tp') as Htp0.
    { by destruct (send_active_jobs fate (fd_recent s) (fd_updates s)) as [[|] ?]. }
    destruct (Hs _ Htp0) as [T Hsub]. rewrite Es in Hsub. destruct Hsub as [Hv Hpos]. pose proof T as [T1 T2 T3 T4].
    rewrite send_active_jobs_run by done. destruct fate; [|by split; [split|]..].
    destruct (reset_step s tp' pos T Hpos (Hcur _ _ _ eq_refl eq_refl Htp0)) as [R1 R2].
    split; [by split|]. split; [exact R1|]. by exists pos, tp'.
  - destruct (fd_sub s) as [|pos|pos|] eqn:Es; try (intros Htp; specialize (Hs _ Htp); by rewrite Es in Hs |- * ).
    destruct r as [|k]; destruct (fd_sent s !! pos) as [n|] eqn:Hn;
      try (intros Htp; specialize (Hs _ Htp); by rewrite Es in Hs |- * ).
    + assert (fd_sent (let '(r, updates) := call fate (client_notify (fill_churten n)) (fd_updates s) in
        match r with Ok _ => set_sub (FwdRecv (S pos)) updates s | Err _ => set_sub FwdEnded updates s end) = fd_sent s) as E.
      { by destruct (call _ _ _) as [[|] ?]. }
      assert (good_sent (fd_sent s)) as Hg0.
      { destruct (call fate (client_notify (fill_churten n)) (fd_updates s)) as [[|] ?]; exact Hg. }
      rewrite client_notify_run in Hg |- *.
      2,3: destruct Hg0 as [Hg0 _]; rewrite Forall_forall in Hg0; apply Hg0; by eapply list_elem_of_lookup_2.
      intros Htp. assert (fd_tracker s = Some tp') as Htp0 by (by destruct fate).
      destruct (Hs _ Htp0) as [[T1 T2 T3 T4] Hsub]. rewrite Es in Hsub. destruct Hsub as [Hv (rp & sp & Hb)].
      destruct fate; [|by split; [split|]..].
      destruct (forward_step s tp' pos rp sp n Hg0 Hn Hv Hb) as [F1 F2].
      split; [by split|]. split; [exact F1|]. by exists rp, sp.
    + intros Htp. destruct (Hs _ Htp) as [[T1 T2 T3 T4] Hsub]. rewrite Es in Hsub. split; [by split|]. cbn.
      split; [apply Hsub|lia].
Qed.

Lemma feed_run_sent es s : fd_sent s `prefix_of` fd_sent (feed_run es s).
Proof.
  revert s. induction es as [|e es IH]; intros s; [done|]. etrans; [|apply (IH (feed_step e s))].
  destruct e as [n|r| |fate|r fate]; simpl; [by exists [n]|..]; repeat case_match; done.
Qed.

Lemma feed_run_ok es s :
  good_sent (fd_sent (feed_run es s)) → feed_ok s → current es s → feed_ok (feed_run es s).
Proof.
  revert s. induction es as [|e es IH]; intros s Hg Hs; [done|]. intros [Hc Hrest]. apply (IH (feed_step e s) Hg).
  - apply feed_step_ok; [|done|].
    + eapply good_prefix; [exact Hg|]. apply (feed_run_sent es (feed_step e s)).
    + intros fate pos tp -> Hsub Htp. by rewrite Hsub, Htp in Hc.
  - exact Hrest.
Qed.

(** C28: what a program that is connected to the daemon shows of the jobs is what the
    daemon knows, once the tracker and the program have received everything, whatever
    the order in which the tasks take their turns and however often the program was
    sent the active jobs anew: each job that is active has the same action and the
    same progress, and no other is shown as active.  This is so if each job is
    announced once, and if the tracker was never behind the program when the active
    jobs were sent. *)
Theorem subscriber_in_step es
  (Hsent : good_sent (fd_sent (feed_run es feed_new))) (Hcur : current es feed_new) :
  let s := feed_run es feed_new in
  fd_tracker s = Some (length (fd_sent s)) → fd_sub s = FwdRecv (length (fd_sent s)) →
  ∀ k, active_of (view s) k = active_of (fd_recent s) k.
Proof.
  intros s Htp Hsub k. destruct (feed_run_ok es feed_new Hsent feed_new_ok Hcur _ Htp) as [[_ _ _ T4] Hs].
  fold s in Hs, T4. rewrite Hsub in Hs. destruct Hs as [_ (rp & sp & [_ B2 B3 B4])].
  rewrite (follows_unfinished _ _ _ (T4 k)), (follows_unfinished _ _ _ (B4 k)), firstn_all. unfold own_of.
  set (l := fd_sent s) in *.
  assert (l = take rp l ++ window rp sp l ++ drop sp l) as El.
  { rewrite app_assoc, <- take_window by lia. by rewrite take_drop. }
  assert (drop rp l = window rp sp l ++ drop sp l) as Ed.
  { rewrite El at 1. rewrite drop_app_le by (rewrite length_take; lia). rewrite drop_ge by (rewrite length_take; lia). done. }
  assert (own_notifications k l = own_notifications k (take rp l) ++ own_notifications k (window rp sp l) ++
    own_notifications k (drop sp l)) as H by (rewrite El at 1; by rewrite !own_filter_app).
  rewrite take_ge by (rewrite length_drop; lia). rewrite Ed, (take_window sp rp l), !own_filter_app, H by lia.
  apply (replay k). rewrite <- H. apply Hsent.
Qed.

(** A receiver that lags ends the task that feeds the tracker: the recent jobs never
    change again, whatever is sent. *)
Lemma lagged_tracker_frozen es s :
  fd_tracker s = None → fd_recent (feed_run es s) = fd_recent s ∧ fd_tracker (feed_run es s) = None.
Proof.
  revert s. induction es as [|e es IH]; intros s Hs; [done|].
  assert (fd_tracker (feed_step e s) = None ∧ fd_recent (feed_step e s) = fd_recent s) as [H1 H2].
  { destruct e as [n|r| |fate|r fate]; simpl; rewrite ?Hs; try done; repeat case_match; done. }
  destruct (IH (feed_step e s) H1) as [I1 I2]. split; [by rewrite <- H2|done].
Qed.
End feed.

(** ** Witnesses *)

Section witnesses.
#[local] Existing Instance gmap_redb.
#[local] Existing Instance list_bimap.
#[local] Existing Instance list_bimap_laws.

Definition the_job : Job := JRealize (mkPath "a.txt") (mkHash (replicate 32 x01)) (Some (mkHash (replicate 32 x02))).
Definition some_notifications : list ChurtenNotification :=
  job_notifications the_arena 1 the_job reports1 false (Err "gone").
Definition some_job : JobInfo :=
  {| ji_arena := the_arena; ji_id := 1; ji_job := the_job; ji_progress := JobFailed "gone"; ji_action := None;
     ji_byte_progress := Some (1, 2); ji_notification_index := 3 |}.

Lemma some_sendable : Forall (churten_sendable Some) some_notifications.
Proof. vm_compute. by repeat constructor. Qed.

Lemma control_roundtrip_witness :
  parse_all (parse_churten Some) (fill_churten <$> some_notifications) = Ok some_notifications ∧
  parse_all (parse_job_info Some) (fill_job_info <$> [some_job]) = Ok [some_job].
Proof.
  apply (control_roundtrip Some some_notifications [some_job]); [exact some_sendable|].
  constructor; [|constructor]. vm_compute. by repeat constructor.
Defined.

Lemma control_mark_witness :
  let s := (ctl_set_mark Some "a/b" "foo/bar" MmOwn storage2).2 in
  (ctl_set_mark Some "a/b" "foo/bar" MmOwn storage2).1 = Ok tt ∧ ctl_get_mark Some s "a/b" "foo/bar" = Ok MmOwn.
Proof.
  assert (storage_ok 8 storage2) as Hs.
  { apply (storage_step_ok now1 id (λ l, reflexivity l) (λ _, None) 8 (inodes_needed nt1) storage1); [by apply (unreal1_ok 10)|].
    apply (step_update now1 id (λ _, None) storage1 peer1 nt1). split; [done|]. intros p [= <-]. by vm_compute. }
  pose proof (control_mark Some 8 storage2 arena_ab foobar Own Hs eq_refl eq_refl ltac:(by vm_compute)) as H.
  change (arena_name arena_ab) with "a/b" in H. change (as_str foobar) with "foo/bar" in H.
  change (mark_to_capnp Own) with MmOwn in H.
  assert ((ctl_set_mark Some "a/b" "foo/bar" MmOwn storage2).1 = Ok tt) as E by (vm_compute; reflexivity).
  destruct (ctl_set_mark Some "a/b" "foo/bar" MmOwn storage2) as [r s]. simpl in E. subst r. split; [reflexivity|].
  apply H. reflexivity.
Defined.

(** The job starts, a program subscribes, and it goes on; the program gets again what
    the active jobs already tell. *)
Definition some_events : list FeedEvent :=
  (ESend <$> take 2 some_notifications) ++ [ESubscribe] ++ (ESend <$> take 2 (drop 2 some_notifications)) ++
  replicate 4 (ETracker Received) ++ [EReset Answered; EForward Received Answered] ++
  (ESend <$> take 1 (drop 4 some_notifications)) ++ [ETracker Received] ++ replicate 2 (EForward Received Answered).

Lemma announced_take n k : announced_once k (own_notifications k (take n some_notifications)).
Proof.
  destruct (decide (k = (the_arena, 1%N))) as [->|Hk].
  - exists the_job, reports1, false, (Err "gone"). split; [by vm_compute|].
    assert (own_notifications (the_arena, 1) some_notifications = some_notifications) as E by by vm_compute.
    change (job_notifications _ _ _ _ _ _) with some_notifications. rewrite <- E at 2.
    rewrite <- (take_drop n some_notifications) at 2. rewrite own_filter_app. by eexists.
  - assert (own_notifications k (take n some_notifications) = []) as ->.
    { apply filter_none. apply Forall_take.
      assert (Forall (λ n, global_job_id n = (the_arena, 1)) some_notifications) as H by (vm_compute; by repeat constructor).
      eapply Forall_impl; [exact H|]. intros x Hx. simpl in Hx. congruence. }
    exists the_job, reports1, false, (Err "gone"). split; [by vm_compute|apply prefix_nil].
Qed.

Lemma subscriber_in_step_witness :
  let s := feed_run Some some_events feed_new in
  ji_byte_progress <$> active_of (view s) (the_arena, 1) = Some (Some (100000, 200000)) ∧
  active_of (view s) (the_arena, 1) = active_of (fd_recent s) (the_arena, 1).
Proof.
  intros s. split; [vm_compute; reflexivity|].
  apply (subscriber_in_step Some some_events).
  - assert (fd_sent s = take 5 some_notifications) as E by (vm_compute; reflexivity). unfold s in E. rewrite E. split.
    + apply Forall_take, some_sendable.
    + intros k. apply announced_take.
  - vm_compute. by repeat constructor.
  - vm_compute. reflexivity.
  - vm_compute. reflexivity.
Defined.

(** A program subscribes after a job was announced and before the tracker got to know
    it: it is never told of the job, although it gets everything that is sent. *)
Example late_tracker_hides_job :
  let s := feed_run Some ([ESend (CNew the_arena 1 the_job); ESubscribe; EReset Answered; ETracker Received;
    ESend (CStart the_arena 1); ETracker Received; EForward Received Answered]) feed_new in
  fd_tracker s = Some (length (fd_sent s)) ∧ fd_sub s = FwdRecv (length (fd_sent s)) ∧
  ji_progress <$> active_of (fd_recent s) (the_arena, 1) = Some JobRunning ∧
  active_of (view s) (the_arena, 1) = None.
Proof. vm_compute. by split_and!. Qed.

(** Told that it lags, the task that serves the program sends the active jobs, and
    then what was left in the queue all the same. *)
Example lag_keeps_queue :
  let s := feed_run Some ([ESubscribe; EReset Answered] ++ (ESend <$> take 3 some_notifications) ++
    replicate 3 (ETracker Received) ++ [EForward (Lagged 1) Answered; EReset Answered; EForward Received Answered]) feed_new in
  (match fd_updates s with [Reset []; Reset [i]; Notify (CStart _ _)] => Some (ji_progress i) | _ => None end) =
  Some JobRunning.
Proof. vm_compute. reflexivity. Qed.
End witnesses.
