(* ===== verification/Connections.v ===== *)
(** * The connections to the other peers

    [crate/realize-network/src/capnp.rs], with the addresses and the keys of the peers
    of [network.rs] and [security.rs]: the connection manager, which keeps a client for
    each peer that it is asked to stay connected to, and the choice of a client for an
    operation.

    The tasks of the manager run on one thread and take turns at each [await], so a
    turn of a task is a step, and what it waited for (the other side, the time) is an
    argument of the step.  TLS, the handler of the connections and the delays of
    tokio_retry are parameters. *)
From Stdlib Require Import Strings.Byte.
From stdpp Require Import gmap.
From S2P Require Import Prelude Types.
Local Open Scope N_scope.

(** ** Who the peers are *)

Record PeerVerifier : Type := { allowed_peers : gmap (list N) Peer }.

Definition verifier_new : PeerVerifier := {| allowed_peers := ∅ |}.
Definition add_peer (peer : Peer) (spki : list N) (v : PeerVerifier) : PeerVerifier :=
  {| allowed_peers := <[spki := peer]> (allowed_peers v) |}.
Definition accept_peer (v : PeerVerifier) (spki : list N) : bool := bool_decide (is_Some (allowed_peers v !! spki)).

(** [PeerVerifier::from_config]; [parse_pem] reads a public key, and the peers of the
    configuration come in any order. *)
Fixpoint verifier_from_config (parse_pem : string → option (list N)) (peers : list (Peer * string)) (v : PeerVerifier)
  : option PeerVerifier :=
  match peers with
  | [] => Some v
  | (peer, pubkey) :: peers =>
      spki ← parse_pem pubkey; verifier_from_config parse_pem peers (add_peer peer spki v)
  end.

Inductive TlsError : Type := ApplicationVerificationFailure | Tls12NotOffered.

Definition verify_peer (v : PeerVerifier) (end_entity : list N) : result TlsError () :=
  if accept_peer v end_entity then Ok tt else Err ApplicationVerificationFailure.
Definition verify_client_cert (v : PeerVerifier) (end_entity : list N) : result TlsError () := verify_peer v end_entity.
(** The name of the server does not count. *)
Definition verify_server_cert (v : PeerVerifier) (end_entity : list N) (server_name : string) : result TlsError () :=
  verify_peer v end_entity.
Definition verify_tls12_signature : result TlsError () := Err Tls12NotOffered.

(** [connection_peer_id], of the certificates of the other side *)
Definition connection_peer_id (v : PeerVerifier) (peer_certificates : option (list (list N))) : option Peer :=
  match peer_certificates with
  | Some (cert :: _) => allowed_peers v !! cert
  | _ => None
  end.

(** The server does not die of a connection that its verifier let through. *)
Lemma accepted_peer_known v cert certs :
  verify_client_cert v cert = Ok tt → ∃ p, connection_peer_id v (Some (cert :: certs)) = Some p.
Proof.
  unfold verify_client_cert, verify_peer, accept_peer. case_bool_decide as H; [|done]. intros _. exact H.
Qed.

(** With keys that differ, the peer that is found is the one that the key was
    configured for, in whatever order the configuration was read. *)
Lemma configured_peer parse_pem peers v v' p pubkey spki :
  verifier_from_config parse_pem peers v = Some v' → NoDup (snd <$> peers) →
  (∀ k1 k2 x, parse_pem k1 = Some x → parse_pem k2 = Some x → k1 = k2) →
  (p, pubkey) ∈ peers → parse_pem pubkey = Some spki → allowed_peers v' !! spki = Some p.
Proof.
  intros Hrun Hnd Hinj Hin Hk. assert (∀ peers v v', verifier_from_config parse_pem peers v = Some v' →
    Forall (λ pk, parse_pem pk.2 ≠ Some spki) peers → allowed_peers v' !! spki = allowed_peers v !! spki) as Hkeep.
  { clear -spki. induction peers as [|[q k] peers IH]; intros v v'; simpl; [by intros [= ->]|].
    destruct (parse_pem k) as [x|] eqn:E; [|done]. simpl. intros Hrun [Hne Hf]%Forall_cons.
    rewrite (IH _ _ Hrun Hf). unfold add_peer. simpl in *. apply lookup_insert_ne. congruence. }
  revert v Hrun. induction peers as [|[q k] peers IH]; intros v; [by apply not_elem_of_nil in Hin|]. simpl.
  csimpl in Hnd. apply NoDup_cons in Hnd as [Hni Hnd]. destruct (parse_pem k) as [x|] eqn:E; [|done]. simpl.
  intros Hrun. apply elem_of_cons in Hin as [[= -> ->]|Hin]; [|by apply (IH Hnd Hin _ Hrun)].
  rewrite (Hkeep _ _ _ Hrun).
  - rewrite Hk in E. injection E as <-. apply lookup_insert_eq.
  - apply Forall_forall. intros [q' k'] Hin E'. simpl in E'. apply Hni. rewrite <- (Hinj _ _ _ E' Hk).
    apply list_elem_of_fmap. by exists (q', k').
Qed.

(** ** The connection manager *)

Abbreviation Client := nat (only parsing).
Abbreviation TaskId := nat (only parsing).
Abbreviation Token := nat (only parsing).

Inductive PeerStatus : Type :=
| Connected (p : Peer)
| Registered (p : Peer)
| Disconnected (p : Peer).

#[global] Instance PeerStatus_eq_dec : EqDecision PeerStatus.
Proof. solve_decision. Defined.

Record TrackedPeerConnections : Type := {
  tracked_client : option Client;
  tracker : option TaskId;
  cancel : Token;
}.

(** What a task of [track_peer] waits for. *)
Inductive Await : Type :=
| Spawned
| Sleeping (delay : N)
| Connecting
| Checking (client : Client)
| Registering (client : Client)
| UntilShutdown (client : Client).

(** What it waited for has happened; [Cancelled] is the branch of a [select] that is
    taken when the token is cancelled. *)
Inductive Answer : Type :=
| Runs
| Cancelled
| Slept
| ConnectDone (ok : bool)
| CheckDone (ok : bool)
| RegisterDone (ok : bool)
| ShutDown.

Section manager.
(** [ExponentialBackoff] of tokio_retry *)
Context (Backoff : Type) (retry_strategy : Backoff) (backoff_next : Backoff → option (N * Backoff)).

Record Task : Type := {
  t_peer : Peer;
  t_cancel : Token;
  t_backoff : option Backoff;
  t_await : Await;
}.

(** The tasks are those that did not finish; tasks, tokens and clients are numbered
    in the order in which they are made. *)
Record AppContext : Type := {
  addresses : gmap Peer string;
  connections : gmap Peer TrackedPeerConnections;
  tasks : gmap TaskId Task;
  cancelled : gset Token;
  statuses : list PeerStatus;
  executed : list (option (Peer * Client));
  next_id : nat;
}.

Implicit Types (s : AppContext) (p q : Peer) (t : Task) (c : Client) (id : TaskId).

Definition app_new (addresses : gmap Peer string) : AppContext :=
  {| addresses := addresses; connections := ∅; tasks := ∅; cancelled := ∅; statuses := []; executed := []; next_id := 0 |}.

Definition connectable_peers s : list Peer := (map_to_list (addresses s)).*1.
Definition is_connectable s p : bool := bool_decide (is_Some (addresses s !! p)).

Definition set_connection p (conn : TrackedPeerConnections) s : AppContext :=
  {| addresses := addresses s; connections := <[p := conn]> (connections s); tasks := tasks s; cancelled := cancelled s;
     statuses := statuses s; executed := executed s; next_id := next_id s |}.
Definition put_task id (o : option Task) s : AppContext :=
  {| addresses := addresses s; connections := connections s;
     tasks := match o with Some t => <[id := t]> (tasks s) | None => delete id (tasks s) end;
     cancelled := cancelled s; statuses := statuses s; executed := executed s; next_id := next_id s |}.
Definition broadcast (l : list PeerStatus) s : AppContext :=
  {| addresses := addresses s; connections := connections s; tasks := tasks s; cancelled := cancelled s;
     statuses := statuses s ++ l; executed := executed s; next_id := next_id s |}.
Definition fresh s : nat * AppContext :=
  (next_id s,
   {| addresses := addresses s; connections := connections s; tasks := tasks s; cancelled := cancelled s;
      statuses := statuses s; executed := executed s; next_id := S (next_id s) |}).

(** [entry(peer).or_insert_with(TrackedPeerConnections::new)] *)
Definition entry p s : TrackedPeerConnections * AppContext :=
  match connections s !! p with
  | Some conn => (conn, s)
  | None =>
      let '(token, s) := fresh s in
      let conn := {| tracked_client := None; tracker := None; cancel := token |} in
      (conn, set_connection p conn s)
  end.

Definition set_tracked_client p (client : option Client) s : AppContext :=
  let '(conn, s) := entry p s in
  set_connection p {| tracked_client := client; tracker := tracker conn; cancel := cancel conn |} s.

(** The task of [keep_peer_connected] *)
Definition spawn_tracker p (conn : TrackedPeerConnections) s : AppContext :=
  let '(id, s) := fresh s in
  set_connection p {| tracked_client := tracked_client conn; tracker := Some id; cancel := cancel conn |}
    (put_task id (Some {| t_peer := p; t_cancel := cancel conn; t_backoff := None; t_await := Spawned |}) s).

Definition keep_peer_connected p s : AppContext :=
  let '(conn, s) := entry p s in
  if bool_decide (cancel conn ∈ cancelled s) then
    let '(token, s) := fresh s in
    spawn_tracker p {| tracked_client := tracked_client conn; tracker := None; cancel := token |} s
  else
    let has_usable_tracker :=
      match tracker conn with Some id => bool_decide (is_Some (tasks s !! id)) | None => false end in
    if has_usable_tracker then s else spawn_tracker p conn s.

Definition keep_all_connected s : AppContext := foldl (λ s p, keep_peer_connected p s) s (connectable_peers s).

Definition cancel_tokens (tokens : gset Token) s : AppContext :=
  {| addresses := addresses s; connections := connections s; tasks := tasks s; cancelled := cancelled s ∪ tokens;
     statuses := statuses s; executed := executed s; next_id := next_id s |}.
Definition disconnect_peer p s : AppContext :=
  match connections s !! p with Some conn => cancel_tokens {[cancel conn]} s | None => s end.
Definition disconnect_all s : AppContext :=
  cancel_tokens (list_to_set (cancel <$> (map_to_list (connections s)).*2)) s.

Fixpoint first_connected_peer s (peers : list Peer) : option (Peer * Client) :=
  match peers with
  | [] => None
  | peer :: peers =>
      match connections s !! peer ≫= tracked_client with
      | Some client => Some (peer, client)
      | None => first_connected_peer s peers
      end
  end.

(** [with_any_peer_client]; what the handler executes the operation on is recorded. *)
Definition with_any_peer_client (peers : list Peer) s : AppContext :=
  {| addresses := addresses s; connections := connections s; tasks := tasks s; cancelled := cancelled s;
     statuses := statuses s; executed := executed s ++ [first_connected_peer s peers]; next_id := next_id s |}.

(** ** A turn of a task *)

Definition await_ t (a : Await) : Task :=
  {| t_peer := t_peer t; t_cancel := t_cancel t; t_backoff := t_backoff t; t_await := a |}.

(** The head of the loop, up to its first [await]; the task may give up. *)
Definition loop_head t : option Task :=
  match t_backoff t with
  | Some backoff =>
      (λ '(delay, backoff),
         {| t_peer := t_peer t; t_cancel := t_cancel t; t_backoff := Some backoff; t_await := Sleeping delay |})
        <$> backoff_next backoff
  | None =>
      Some {| t_peer := t_peer t; t_cancel := t_cancel t; t_backoff := Some retry_strategy; t_await := Connecting |}
  end.

(** The guard of a connection is dropped. *)
Definition drop_client t s : AppContext :=
  broadcast [Disconnected (t_peer t)] (set_tracked_client (t_peer t) None s).

Definition task_turn (a : Answer) id t s : option AppContext :=
  match t_await t, a with
  | Spawned, Runs => Some (put_task id (loop_head t) s)
  | (Sleeping _ | Connecting), Cancelled =>
      if bool_decide (t_cancel t ∈ cancelled s) then Some (put_task id None s) else None
  | Sleeping _, Slept => Some (put_task id (Some (await_ t Connecting)) s)
  | Connecting, ConnectDone true =>
      let '(client, s) := fresh s in Some (put_task id (Some (await_ t (Checking client))) s)
  | Connecting, ConnectDone false => Some (put_task id (loop_head t) s)
  | Checking client, CheckDone true =>
      Some (put_task id (Some (await_ t (Registering client)))
        (broadcast [Connected (t_peer t)] (set_tracked_client (t_peer t) (Some client) s)))
  | Checking _, CheckDone false => Some (put_task id (loop_head t) s)
  | Registering client, RegisterDone ok =>
      Some (put_task id (Some {| t_peer := t_peer t; t_cancel := t_cancel t; t_backoff := None;
                                 t_await := UntilShutdown client |})
        (broadcast (if ok then [Registered (t_peer t)] else []) s))
  | UntilShutdown _, Cancelled =>
      if bool_decide (t_cancel t ∈ cancelled s) then Some (put_task id None (drop_client t s)) else None
  | UntilShutdown _, ShutDown => Some (put_task id (loop_head t) (drop_client t s))
  | _, _ => None
  end.

Inductive CmEvent : Type :=
| KeepAllConnected
| DisconnectAll
| KeepPeerConnected (p : Peer)
| DisconnectPeer (p : Peer)
| PeerOperation (peers : list Peer)
| Turn (id : TaskId) (a : Answer).

(** A message that is handled, or a turn; [None] when it cannot happen. *)
Definition cm_step (e : CmEvent) s : option AppContext :=
  match e with
  | KeepAllConnected => Some (keep_all_connected s)
  | DisconnectAll => Some (disconnect_all s)
  | KeepPeerConnected p => Some (if is_connectable s p then keep_peer_connected p s else s)
  | DisconnectPeer p => Some (disconnect_peer p s)
  | PeerOperation peers => Some (with_any_peer_client peers s)
  | Turn id a => tasks s !! id ≫= λ t, task_turn a id t s
  end.

Fixpoint cm_run (es : list CmEvent) s : option AppContext :=
  match es with
  | [] => Some s
  | e :: es => cm_step e s ≫= cm_run es
  end.

(** ** What always holds *)

(** The connection that a task has registered, or is about to *)
Definition held t : option Client :=
  match t_await t with Registering c | UntilShutdown c => Some c | _ => None end.

Record cm_ok s : Prop := {
  ok_task_id : ∀ id t, tasks s !! id = Some t → (id < next_id s)%nat;
  ok_token : ∀ p conn, connections s !! p = Some conn → (cancel conn < next_id s)%nat;
  ok_cancelled : ∀ x, x ∈ cancelled s → (x < next_id s)%nat;
  ok_token_inj : ∀ p q conn conn', connections s !! p = Some conn → connections s !! q = Some conn' →
    cancel conn = cancel conn' → p = q;
  ok_task : ∀ id t, tasks s !! id = Some t → ∃ conn, connections s !! t_peer t = Some conn ∧
    (t_cancel t = cancel conn ∧ tracker conn = Some id ∨ t_cancel t ∈ cancelled s ∧ t_cancel t ≠ cancel conn);
  ok_tracker : ∀ p conn id, connections s !! p = Some conn → tracker conn = Some id →
    (id < next_id s)%nat ∧ ∀ t, tasks s !! id = Some t → t_peer t = p ∧ t_cancel t = cancel conn;
  ok_client : ∀ p conn c, connections s !! p = Some conn → tracked_client conn = Some c →
    ∃ id t, tasks s !! id = Some t ∧ t_peer t = p ∧ held t = Some c;
}.

Lemma app_new_ok addresses : cm_ok (app_new addresses).
Proof. split; intros; simplify_map_eq/=; set_solver. Qed.

(** *** Staying connected *)

Lemma spawn_ok p conn s :
  cm_ok s → (cancel conn < next_id s)%nat →
  (∀ q conn', connections s !! q = Some conn' → q ≠ p → cancel conn' ≠ cancel conn) →
  (∀ id t, tasks s !! id = Some t → t_peer t = p → t_cancel t ∈ cancelled s ∧ t_cancel t ≠ cancel conn) →
  (∀ c, tracked_client conn = Some c → ∃ conn', connections s !! p = Some conn' ∧ tracked_client conn' = Some c) →
  cm_ok (spawn_tracker p conn s).
Proof.
  intros [O1 O2 O3 O4 O5 O7 O6] Hlt Hne Hold Hc. unfold spawn_tracker, fresh. cbn [next_id].
  split; cbn [set_connection put_task tasks connections cancelled next_id].
  - intros id t [[<- _]|[_ H]]%lookup_insert_Some; [lia|]. specialize (O1 _ _ H). lia.
  - intros q conn' [[<- <-]|[_ H]]%lookup_insert_Some; [simpl; lia|]. specialize (O2 _ _ H). lia.
  - intros x Hx. specialize (O3 _ Hx). lia.
  - intros q q' c1 c2 [[<- <-]|[N1 H1]]%lookup_insert_Some [[<- <-]|[N2 H2]]%lookup_insert_Some E; try done; simpl in E.
    + exfalso. apply (Hne _ _ H2); congruence.
    + exfalso. apply (Hne _ _ H1); congruence.
    + by eapply O4.
  - intros id t [[<- <-]|[N H]]%lookup_insert_Some; simpl.
    + rewrite lookup_insert_eq. eexists. split; [done|]. by left.
    + destruct (decide (t_peer t = p)) as [<-|Hp].
      * rewrite lookup_insert_eq. eexists. split; [done|]. right. by apply (Hold id).
      * rewrite lookup_insert_ne by done. by apply O5.
  - intros q conn' id [[<- <-]|[N H]]%lookup_insert_Some; simpl.
    + intros [= <-]. split; [lia|]. intros t. rewrite lookup_insert_eq. by intros [= <-].
    + intros Hid. destruct (O7 _ _ _ H Hid) as [Hl Ht]. split; [lia|]. intros t. rewrite lookup_insert_ne by lia. apply Ht.
  - intros q conn' c [[<- <-]|[N H]]%lookup_insert_Some Hcc; simpl in *.
    + destruct (Hc _ Hcc) as (conn' & H1 & H2). destruct (O6 _ _ _ H1 H2) as (id & t & T1 & T2 & T3).
      exists id, t. split; [|done]. rewrite lookup_insert_ne; [done|]. specialize (O1 _ _ T1). lia.
    + destruct (O6 _ _ _ H Hcc) as (id & t & T1 & T2 & T3).
      exists id, t. split; [|done]. rewrite lookup_insert_ne; [done|]. specialize (O1 _ _ T1). lia.
Qed.

Lemma entry_run p s :
  cm_ok s → let '(conn, s') := entry p s in
  cm_ok s' ∧ connections s' !! p = Some conn ∧ tasks s' = tasks s ∧ cancelled s' = cancelled s ∧
  (∀ q, q ≠ p → connections s' !! q = connections s !! q) ∧
  (connections s !! p = Some conn ∧ s' = s ∨
   connections s !! p = None ∧ tracked_client conn = None ∧ tracker conn = None).
Proof.
  intros Hs. unfold entry. destruct (connections s !! p) as [conn|] eqn:E; [by split_and!; auto|].
  unfold fresh. destruct Hs as [O1 O2 O3 O4 O5 O7 O6]. split_and!; try done.
  - split; cbn [set_connection tasks connections cancelled next_id].
    + intros id t H. specialize (O1 _ _ H). lia.
    + intros q conn' [[<- <-]|[_ H]]%lookup_insert_Some; [simpl; lia|]. specialize (O2 _ _ H). lia.
    + intros x Hx. specialize (O3 _ Hx). lia.
    + intros q q' c1 c2 [[<- <-]|[N1 H1]]%lookup_insert_Some [[<- <-]|[N2 H2]]%lookup_insert_Some Ec; try done;
        simpl in Ec; [apply O2 in H2; lia|apply O2 in H1; lia|by eapply O4].
    + intros id t H. destruct (O5 _ _ H) as (conn & Hc & Hr). exists conn. split; [|done].
      rewrite lookup_insert_ne; [done|]. intros ->. congruence.
    + intros q conn' id [[<- <-]|[N H]]%lookup_insert_Some Hid; [done|].
      destruct (O7 _ _ _ H Hid) as [Hl Ht]. split; [lia|exact Ht].
    + intros q conn' c [[<- <-]|[N H]]%lookup_insert_Some Hcc; [done|]. by eapply O6.
  - apply lookup_insert_eq.
  - intros q Hq. by apply lookup_insert_ne.
  - by right.
Qed.

Lemma fresh_ok s : cm_ok s → cm_ok (fresh s).2.
Proof.
  intros [O1 O2 O3 O4 O5 O7 O6]. split; cbn [fresh snd tasks connections cancelled next_id]; [..|done].
  - intros id t H. specialize (O1 _ _ H). lia.
  - intros p conn H. specialize (O2 _ _ H). lia.
  - intros x Hx. specialize (O3 _ Hx). lia.
  - exact O4.
  - exact O5.
  - intros p conn id H Hid. destruct (O7 _ _ _ H Hid). split; [lia|done].
Qed.

Lemma keep_ok p s : cm_ok s → cm_ok (keep_peer_connected p s).
Proof.
  intros Hs. unfold keep_peer_connected. pose proof (entry_run p s Hs) as H. destruct (entry p s) as [conn s1].
  destruct H as (Hs1 & Hp & _ & _ & _ & _). case_bool_decide as Hc.
  - destruct (fresh s1) as [token s2] eqn:E. pose proof (fresh_ok s1 Hs1) as Hs2. rewrite E in Hs2. simpl in Hs2.
    unfold fresh in E. injection E as <- <-. apply spawn_ok; [done|simpl; lia|..]; cbn [cancel tracked_client].
    + intros q conn' H _ Ee. simpl in H. pose proof (ok_token _ Hs1 _ _ H). lia.
    + cbn [tasks cancelled]. intros id t Ht Hq. destruct (ok_task _ Hs1 _ _ Ht) as (conn' & H1 & H2).
      rewrite Hq, Hp in H1. injection H1 as <-. assert (t_cancel t ∈ cancelled s1) as Hin.
      { destruct H2 as [[-> _]|[H2 _]]; done. }
      split; [done|]. pose proof (ok_cancelled _ Hs1 _ Hin). lia.
    + intros c Hcc. by exists conn.
  - destruct (match tracker conn with Some id => _ | None => false end) eqn:Hu; [done|]. apply spawn_ok; [done|..].
    + by eapply ok_token.
    + intros q conn' H Hq Ee. apply Hq. by eapply (ok_token_inj _ Hs1 q p).
    + intros id t Ht Hq. destruct (ok_task _ Hs1 _ _ Ht) as (conn' & H1 & H2).
      rewrite Hq, Hp in H1. injection H1 as <-. destruct H2 as [[_ E]|H2]; [|done].
      rewrite E, bool_decide_true in Hu by by eexists. done.
    + intros c Hcc. by exists conn.
Qed.

Lemma keep_all_ok l s : cm_ok s → cm_ok (foldl (λ s p, keep_peer_connected p s) s l).
Proof. revert s. induction l as [|p l IH]; intros s Hs; [done|]. simpl. by apply IH, keep_ok. Qed.

Lemma cancel_ok tokens s :
  cm_ok s → (∀ x, x ∈ tokens → (x < next_id s)%nat) → cm_ok (cancel_tokens tokens s).
Proof.
  intros [O1 O2 O3 O4 O5 O7 O6] Ht. split; cbn [cancel_tokens tasks connections cancelled next_id]; [done|done| |done| |done|done].
  - intros x [Hx|Hx]%elem_of_union; [by apply O3|by apply Ht].
  - intros id t H. destruct (O5 _ _ H) as (conn & H1 & [H2|[H2 H3]]); exists conn; split; [done| |done|]; [by left|].
    right. split; [set_solver|done].
Qed.

(** *** Turns *)

Lemma set_tracked_run p client conn s :
  connections s !! p = Some conn →
  set_tracked_client p client s =
    set_connection p {| tracked_client := client; tracker := tracker conn; cancel := cancel conn |} s.
Proof. intros H. unfold set_tracked_client, entry. by rewrite H. Qed.

Lemma broadcast_ok l s : cm_ok s → cm_ok (broadcast l s).
Proof. by intros [O1 O2 O3 O4 O5 O7 O6]. Qed.

(** A task goes on or finishes; the connection that it held is still held, or is not
    the one that is tracked. *)
Lemma put_ok id t o s :
  cm_ok s → tasks s !! id = Some t → (∀ t', o = Some t' → t_peer t' = t_peer t ∧ t_cancel t' = t_cancel t) →
  (∀ c, held t = Some c → o ≫= held = Some c ∨
     ∃ conn, connections s !! t_peer t = Some conn ∧ tracked_client conn = None) →
  cm_ok (put_task id o s).
Proof.
  intros [O1 O2 O3 O4 O5 O7 O6] Ht Hsame Hheld.
  assert (∀ id' t', tasks (put_task id o s) !! id' = Some t' →
    tasks s !! id' = Some t' ∧ id' ≠ id ∨ id' = id ∧ o = Some t') as Hback.
  { intros id' t'. unfold put_task. cbn [tasks]. destruct o as [t0|].
    - intros [[<- <-]|[N H]]%lookup_insert_Some; auto.
    - intros [N H]%lookup_delete_Some; auto. }
  split; cbn [put_task connections cancelled next_id]; [|done..| | |].
  - intros id' t' [[H _]|[-> _]]%Hback; [by eapply O1|by eapply O1].
  - intros id' t' [[H _]|[-> H]]%Hback; [by apply O5|]. destruct (Hsame _ H) as [-> ->]. by apply O5.
  - intros p conn id' Hp Hid. destruct (O7 _ _ _ Hp Hid) as [Hl Htr]. split; [done|].
    intros t' [[H _]|[-> H]]%Hback; [by apply Htr|]. destruct (Hsame _ H) as [-> ->]. by apply Htr.
  - intros p conn c Hp Hc. destruct (O6 _ _ _ Hp Hc) as (id' & t' & T1 & T2 & T3).
    destruct (decide (id' = id)) as [->|Hne].
    + rewrite Ht in T1. injection T1 as <-. destruct (Hheld _ T3) as [Hh|(conn' & Hh & Hn)].
      * destruct o as [t0|]; [|done]. destruct (Hsame _ eq_refl) as [E _]. exists id, t0. cbn [put_task tasks].
        split; [apply lookup_insert_eq|]. split; [congruence|done].
      * rewrite T2 in Hh. congruence.
    + exists id', t'. split; [|done]. cbn [put_task tasks]. destruct o; [by rewrite lookup_insert_ne|by rewrite lookup_delete_ne].
Qed.

Lemma set_client_ok p client conn s :
  cm_ok s → connections s !! p = Some conn →
  (∀ c, client = Some c → ∃ id t, tasks s !! id = Some t ∧ t_peer t = p ∧ held t = Some c) →
  cm_ok (set_connection p {| tracked_client := client; tracker := tracker conn; cancel := cancel conn |} s).
Proof.
  intros [O1 O2 O3 O4 O5 O7 O6] Hp Hc. split; cbn [set_connection tasks connections cancelled next_id]; [done| |done|..].
  - intros q conn' [[<- <-]|[_ H]]%lookup_insert_Some; [exact (O2 p conn Hp)|by apply (O2 q)].
  - intros q q' c1 c2 [[<- <-]|[N1 H1]]%lookup_insert_Some [[<- <-]|[N2 H2]]%lookup_insert_Some E; simpl in E;
      [done|by eapply (O4 p q' conn c2)|by eapply (O4 q p c1 conn)|by eapply (O4 q q' c1 c2)].
  - intros id t H. destruct (O5 _ _ H) as (conn' & H1 & H2). destruct (decide (p = t_peer t)) as [->|Hne].
    + rewrite lookup_insert_eq. eexists. split; [done|]. simpl. rewrite Hp in H1. by injection H1 as <-.
    + rewrite lookup_insert_ne by done. by exists conn'.
  - intros q conn' id [[<- <-]|[_ H]]%lookup_insert_Some; [exact (O7 p conn id Hp)|by apply O7].
  - intros q conn' c [[<- <-]|[_ H]]%lookup_insert_Some Hcc; [by apply Hc|by eapply O6].
Qed.

Lemma loop_head_same t t' : loop_head t = Some t' → t_peer t' = t_peer t ∧ t_cancel t' = t_cancel t ∧ held t' = None.
Proof.
  unfold loop_head. destruct (t_backoff t) as [b|]; [|by intros [= <-]].
  destruct (backoff_next b) as [[d b']|]; [|done]. by intros [= <-].
Qed.

Lemma drop_client_ok t id s :
  cm_ok s → tasks s !! id = Some t →
  cm_ok (drop_client t s) ∧ tasks (drop_client t s) !! id = Some t ∧
  ∃ conn, connections (drop_client t s) !! t_peer t = Some conn ∧ tracked_client conn = None.
Proof.
  intros Hs Ht. destruct (ok_task _ Hs _ _ Ht) as (conn & Hc & _). unfold drop_client.
  rewrite (set_tracked_run _ _ conn) by done. split; [by apply broadcast_ok, set_client_ok|]. split; [done|].
  eexists. split; [apply lookup_insert_eq|done].
Qed.

Lemma cm_turn_ok a id t s s' :
  cm_ok s → tasks s !! id = Some t → task_turn a id t s = Some s' → cm_ok s'.
Proof.
  intros Hs Ht. unfold task_turn.
  assert (∀ s1, cm_ok s1 → tasks s1 !! id = Some t →
    (held t = None ∨ ∃ conn, connections s1 !! t_peer t = Some conn ∧ tracked_client conn = None) →
    cm_ok (put_task id (loop_head t) s1) ∧ cm_ok (put_task id None s1)) as Hend.
  { intros s1 Hs1 Ht1 Hh. split; (apply (put_ok _ t); [done|done| |]).
    - intros t' H%loop_head_same. by destruct H as (? & ? & _).
    - intros c Hc. right. by destruct Hh as [Hh|Hh]; [congruence|].
    - done.
    - intros c Hc. right. by destruct Hh as [Hh|Hh]; [congruence|]. }
  destruct (drop_client_ok t id s Hs Ht) as (Hd1 & Hd2 & Hd3).
  assert (held t = None → cm_ok (put_task id (loop_head t) s) ∧ cm_ok (put_task id None s)) as Hhead.
  { intros Hh. apply Hend; [done..|by left]. }
  pose proof (Hend _ Hd1 Hd2 (or_intror Hd3)) as [He1 He2].
  destruct (t_await t) as [|delay| |c|c|c] eqn:Ea; destruct a as [| | |ok|ok|ok|]; try done;
    assert (held t = match t_await t with Registering c | UntilShutdown c => Some c | _ => None end) as Hh by done;
    rewrite Ea in Hh.
  - intros [= <-]. by apply Hhead.
  - case_bool_decide; [|done]. intros [= <-]. by apply Hhead.
  - intros [= <-]. apply (put_ok _ t); [done|done|by intros t' [= <-]|]. congruence.
  - case_bool_decide; [|done]. intros [= <-]. by apply Hhead.
  - destruct ok; [|intros [= <-]; by apply Hhead]. intros [= <-].
    apply (put_ok _ t); [by apply fresh_ok|done|by intros t' [= <-]|]. congruence.
  - destruct ok; [|intros [= <-]; by apply Hhead]. intros [= <-].
    destruct (ok_task _ Hs _ _ Ht) as (conn & Hc & _). rewrite (set_tracked_run _ _ conn) by done.
    set (t1 := await_ t (Registering c)). change (cm_ok (broadcast [Connected (t_peer t)] (set_connection (t_peer t)
      {| tracked_client := Some c; tracker := tracker conn; cancel := cancel conn |} (put_task id (Some t1) s)))).
    apply broadcast_ok, set_client_ok; [|done|].
    + apply (put_ok _ t); [done|done|by intros t' [= <-]|]. congruence.
    + intros c' [= <-]. exists id, t1. split; [apply lookup_insert_eq|done].
  - intros [= <-]. apply (put_ok _ t); [by apply broadcast_ok|done|by intros t' [= <-]|].
    intros c' Hc'. left. rewrite Hh in Hc'. exact Hc'.
  - case_bool_decide; [|done]. by intros [= <-].
  - by intros [= <-].
Qed.

Lemma step_ok e s s' : cm_ok s → cm_step e s = Some s' → cm_ok s'.
Proof.
  intros Hs. destruct e as [| |p|p|peers|id a]; simpl.
  - intros [= <-]. by apply keep_all_ok.
  - intros [= <-]. apply cancel_ok; [done|]. intros x Hx. apply elem_of_list_to_set, list_elem_of_fmap in Hx as (conn & -> & Hx).
    apply list_elem_of_fmap in Hx as ([p conn'] & -> & Hx%elem_of_map_to_list). by eapply ok_token.
  - intros [= <-]. destruct (is_connectable s p); [by apply keep_ok|done].
  - intros [= <-]. unfold disconnect_peer. destruct (connections s !! p) as [conn|] eqn:E; [|done].
    apply cancel_ok; [done|]. intros x ->%elem_of_singleton. by eapply ok_token.
  - intros [= <-]. by destruct Hs as [O1 O2 O3 O4 O5 O7 O6].
  - destruct (tasks s !! id) as [t|] eqn:Ht; [|done]. simpl. by apply cm_turn_ok.
Qed.

Lemma run_ok es s s' : cm_ok s → cm_run es s = Some s' → cm_ok s'.
Proof.
  revert s. induction es as [|e es IH]; intros s Hs; simpl; [by intros [= <-]|].
  destruct (cm_step e s) as [s1|] eqn:E; [|done]. simpl. apply IH. by eapply step_ok.
Qed.

Lemma first_connected_run peers s :
  match first_connected_peer s peers with
  | Some (p, c) => ∃ before after, peers = before ++ p :: after ∧ connections s !! p ≫= tracked_client = Some c ∧
                     Forall (λ q, connections s !! q ≫= tracked_client = None) before
  | None => Forall (λ q, connections s !! q ≫= tracked_client = None) peers
  end.
Proof.
  induction peers as [|p peers IH]; simpl; [done|].
  destruct (connections s !! p ≫= tracked_client) as [c|] eqn:E; [by exists [], peers|].
  destruct (first_connected_peer s peers) as [[q c]|].
  - destruct IH as (before & after & -> & H1 & H2). exists (p :: before), after. split; [done|]. split; [done|]. by constructor.
  - by constructor.
Qed.

(** C25: whatever is asked of the manager and however its tasks take turns, an operation
    is given the first of its peers that is tracked, with a connection that passed
    its check and that the task that made it has not seen end; and there is never
    more than one task for a peer that is not told to stop. *)
Theorem connections_reachable_inv addresses es s peers
  (Hrun : cm_run es (app_new addresses) = Some s) :
  match first_connected_peer s peers with
  | Some (p, c) =>
      (∃ before after, peers = before ++ p :: after ∧ ∀ q, q ∈ before → first_connected_peer s [q] = None) ∧
      ∃ id t, tasks s !! id = Some t ∧ t_peer t = p ∧ held t = Some c
  | None => ∀ p, p ∈ peers → first_connected_peer s [p] = None
  end ∧
  ∀ id1 id2 t1 t2, tasks s !! id1 = Some t1 → tasks s !! id2 = Some t2 → t_peer t1 = t_peer t2 →
    t_cancel t1 ∉ cancelled s → t_cancel t2 ∉ cancelled s → id1 = id2.
Proof.
  pose proof (run_ok es _ s (app_new_ok addresses) Hrun) as Hs. split.
  - pose proof (first_connected_run peers s) as H. destruct (first_connected_peer s peers) as [[p c]|]; simpl.
    + destruct H as (before & after & -> & Hc & Hb). split.
      * exists before, after. split; [done|]. intros q Hq. rewrite Forall_forall in Hb. by rewrite Hb.
      * destruct (connections s !! p) as [conn|] eqn:E; [|done]. by eapply ok_client.
    + intros p Hp. rewrite Forall_forall in H. by rewrite H.
  - intros id1 id2 t1 t2 H1 H2 Hp N1 N2. destruct (ok_task _ Hs _ _ H1) as (c1 & E1 & [[_ T1]|[? _]]); [|done].
    destruct (ok_task _ Hs _ _ H2) as (c2 & E2 & [[_ T2]|[? _]]); [|done]. rewrite Hp in E1. congruence.
Qed.

(** ** What a step leaves alone *)

(** The peer [p] is as it was: its connection and its tasks *)
Record same_peer p s s' : Prop := {
  sp_connection : connections s' !! p = connections s !! p;
  sp_tasks : ∀ id t, t_peer t = p → tasks s' !! id = Some t ↔ tasks s !! id = Some t;
}.

Lemma keep_other p q s :
  cm_ok s → p ≠ q → let s' := keep_peer_connected q s in same_peer p s s' ∧ cancelled s' = cancelled s.
Proof.
  intros Hs Hpq. unfold keep_peer_connected. pose proof (entry_run q s Hs) as H. destruct (entry q s) as [conn s1].
  destruct H as (Hs1 & _ & Ht & Hcan & Hc & _). specialize (Hc p Hpq).
  assert (∀ conn s2, tasks s2 = tasks s1 → connections s2 = connections s1 → cancelled s2 = cancelled s1 →
    (next_id s1 ≤ next_id s2)%nat →
    let s' := spawn_tracker q conn s2 in same_peer p s s' ∧ cancelled s' = cancelled s) as Hspawn.
  { intros conn' s2 T2 C2 X2 Hle. unfold spawn_tracker, fresh. split; [|simpl; congruence].
    split; cbn [set_connection put_task connections tasks].
    - rewrite lookup_insert_ne by done. congruence.
    - intros id t Hp. rewrite T2, Ht. rewrite lookup_insert_Some. split.
      + intros [[_ <-]|[_ H]]; [simpl in Hp; congruence|done].
      + intros H. right. split; [|done]. rewrite <- Ht in H. pose proof (ok_task_id _ Hs1 _ _ H). lia. }
  case_bool_decide; [apply Hspawn; simpl; auto; lia|].
  destruct (match tracker conn with Some id => _ | None => false end); [|by apply Hspawn].
  split; [|done]. split; [done|]. intros id t _. by rewrite Ht.
Qed.

Lemma turn_other a id t s s' p :
  cm_ok s → tasks s !! id = Some t → t_peer t ≠ p → task_turn a id t s = Some s' → same_peer p s s'.
Proof.
  intros Hs Ht Hp Hrun. destruct (ok_task _ Hs _ _ Ht) as (conn & Hc & _).
  unfold task_turn, drop_client in Hrun.
  assert (∀ o s1, (∀ t', o = Some t' → t_peer t' = t_peer t) → tasks s1 = tasks s → connections s1 !! p = connections s !! p →
    same_peer p s (put_task id o s1)) as Hput.
  { intros o s1 Ho E1 E2. split; [done|]. intros id' t' Hp'. cbn [put_task tasks]. rewrite E1.
    destruct o as [t0|]; [rewrite lookup_insert_Some|rewrite lookup_delete_Some]; split.
    - intros [[_ <-]|[_ ?]]; [|done]. rewrite (Ho t0 eq_refl) in Hp'. congruence.
    - intros H. right. split; [|done]. intros <-. congruence.
    - by intros [_ ?].
    - intros H. split; [|done]. intros <-. congruence. }
  assert (∀ t', loop_head t = Some t' → t_peer t' = t_peer t) as Hl by (by intros t' (? & _)%loop_head_same).
  destruct (t_await t); destruct a as [| | |[]|[]|ok|]; try done; try (case_bool_decide; [|done]);
    rewrite ?(set_tracked_run _ _ conn) in Hrun by done;
    injection Hrun as <-; (apply Hput; [first [done|exact Hl|by intros t' [= <-]]|done|]);
    cbn [broadcast set_connection connections fresh snd]; rewrite ?lookup_insert_ne by done; done.
Qed.

(** What a turn of a task of [p] does *)
Lemma turn_own a id t s s' :
  cm_ok s → tasks s !! id = Some t → task_turn a id t s = Some s' →
  cancelled s' = cancelled s ∧ (∀ id', id' ≠ id → tasks s' !! id' = tasks s !! id') ∧
  (∀ q conn, connections s !! q = Some conn → ∃ conn', connections s' !! q = Some conn' ∧ cancel conn' = cancel conn) ∧
  ((∀ b, backoff_next b ≠ None) → t_cancel t ∉ cancelled s →
     ∃ t', tasks s' !! id = Some t' ∧ t_peer t' = t_peer t ∧ t_cancel t' = t_cancel t).
Proof.
  intros Hs Ht Hrun. destruct (ok_task _ Hs _ _ Ht) as (conn & Hc & _).
  assert (∀ o s1, cancelled s1 = cancelled s → tasks s1 = tasks s →
    (∀ q conn, connections s !! q = Some conn → ∃ conn', connections s1 !! q = Some conn' ∧ cancel conn' = cancel conn) →
    ((∀ b, backoff_next b ≠ None) → t_cancel t ∉ cancelled s →
       ∃ t', o = Some t' ∧ t_peer t' = t_peer t ∧ t_cancel t' = t_cancel t) →
    let s' := put_task id o s1 in
    cancelled s' = cancelled s ∧ (∀ id', id' ≠ id → tasks s' !! id' = tasks s !! id') ∧
    (∀ q conn, connections s !! q = Some conn → ∃ conn', connections s' !! q = Some conn' ∧ cancel conn' = cancel conn) ∧
    ((∀ b, backoff_next b ≠ None) → t_cancel t ∉ cancelled s →
       ∃ t', tasks s' !! id = Some t' ∧ t_peer t' = t_peer t ∧ t_cancel t' = t_cancel t)) as Hput.
  { intros o s1 E1 E2 E3 E4 s2. split; [done|]. split; [|split; [done|]].
    - intros id' Hne. unfold s2. cbn [put_task tasks]. rewrite E2.
      destruct o; [by apply lookup_insert_ne|by apply lookup_delete_ne].
    - intros Hb Hn. destruct (E4 Hb Hn) as (t' & -> & H1 & H2). exists t'. split; [apply lookup_insert_eq|done]. }
  assert ((∀ b, backoff_next b ≠ None) → ∃ t', loop_head t = Some t' ∧ t_peer t' = t_peer t ∧ t_cancel t' = t_cancel t) as Hl.
  { intros Hb. destruct (loop_head t) as [t'|] eqn:E.
    - exists t'. split; [done|]. by destruct (loop_head_same _ _ E) as (? & ? & _).
    - exfalso. unfold loop_head in E. destruct (t_backoff t) as [b|]; [|done]. specialize (Hb b).
      by destruct (backoff_next b) as [[]|]. }
  assert (∀ client q conn', connections s !! q = Some conn' →
    ∃ conn'', <[t_peer t := {| tracked_client := client; tracker := tracker conn; cancel := cancel conn |}]> (connections s) !! q
      = Some conn'' ∧ cancel conn'' = cancel conn') as Hins.
  { intros client q conn' Hq. destruct (decide (t_peer t = q)) as [<-|Hne].
    - eexists. split; [apply lookup_insert_eq|]. simpl. congruence.
    - exists conn'. by rewrite lookup_insert_ne. }
  unfold task_turn, drop_client in Hrun.
  destruct (t_await t); destruct a as [| | |[]|[]|ok|]; try done; try (case_bool_decide; [|done]);
    rewrite ?(set_tracked_run _ _ conn) in Hrun by done;
    injection Hrun as <-; (apply Hput; [done|done| |]);
    first [by intros q conn' Hq; exists conn'|apply Hins|by intros _ ?|by intros Hb _; apply Hl|by intros; eexists].
Qed.

(** ** Staying connected *)

(** The task that keeps [p] connected *)
Definition keeps p s id t : Prop :=
  tasks s !! id = Some t ∧ t_peer t = p ∧ t_cancel t ∉ cancelled s ∧
  ∃ conn, connections s !! p = Some conn ∧ cancel conn = t_cancel t.

Definition disconnects p (e : CmEvent) : Prop := e = DisconnectPeer p ∨ e = DisconnectAll.

Lemma keep_keeps p s : cm_ok s → ∃ id t, keeps p (keep_peer_connected p s) id t.
Proof.
  intros Hs. unfold keep_peer_connected. pose proof (entry_run p s Hs) as H. destruct (entry p s) as [conn s1].
  destruct H as (Hs1 & Hp & _ & _ & _ & _).
  assert (∀ conn s2, cancel conn ∉ cancelled s2 → ∃ id t, keeps p (spawn_tracker p conn s2) id t) as Hspawn.
  { intros conn' s2 Hn. unfold spawn_tracker, fresh. eexists _, _. unfold keeps. cbn [set_connection put_task tasks connections cancelled].
    split; [apply lookup_insert_eq|]. split; [done|]. split; [done|]. eexists. split; [apply lookup_insert_eq|done]. }
  case_bool_decide as Hc.
  - apply Hspawn. simpl. intros Hin. pose proof (ok_cancelled _ Hs1 _ Hin). lia.
  - destruct (tracker conn) as [id|] eqn:Et; [|by apply Hspawn]. case_bool_decide as Hl; [|by apply Hspawn].
    destruct Hl as [t Ht]. exists id, t. destruct (ok_tracker _ Hs1 _ _ _ Hp Et) as [_ H].
    destruct (H _ Ht) as [H1 H2]. split; [done|]. split; [done|]. rewrite H2. split; [done|]. by exists conn.
Qed.

Lemma keeps_other p s s' : same_peer p s s' → cancelled s' = cancelled s →
  (∃ id t, keeps p s id t) → ∃ id t, keeps p s' id t.
Proof.
  intros [E1 E2] Ec (id & t & H1 & H2 & H3 & H4). exists id, t. unfold keeps. rewrite E1, Ec. split; [by apply E2|done].
Qed.

Lemma keep_all_keeps p l s : cm_ok s → (∃ id t, keeps p s id t) →
  ∃ id t, keeps p (foldl (λ s q, keep_peer_connected q s) s l) id t.
Proof.
  revert s. induction l as [|q l IH]; intros s Hs Hk; [done|]. simpl. apply IH; [by apply keep_ok|].
  destruct (decide (p = q)) as [<-|Hne]; [by apply keep_keeps|]. destruct (keep_other p q s Hs Hne) as [H1 H2].
  by eapply keeps_other.
Qed.

Lemma step_keeps p e s s' :
  (∀ b, backoff_next b ≠ None) → cm_ok s → ¬ disconnects p e → cm_step e s = Some s' →
  (∃ id t, keeps p s id t) → ∃ id t, keeps p s' id t.
Proof.
  intros Hb Hs He Hrun Hk. destruct e as [| |q|q|peers|id' a]; simpl in Hrun.
  - injection Hrun as <-. by apply keep_all_keeps.
  - destruct He. by right.
  - injection Hrun as <-. destruct (is_connectable s q); [|done].
    by apply (keep_all_keeps p [q]).
  - injection Hrun as <-. unfold disconnect_peer. destruct (connections s !! q) as [conn|] eqn:Eq; [|done].
    destruct Hk as (id & t & H1 & H2 & H3 & conn' & H4 & H5). exists id, t. split; [done|]. split; [done|]. split; [|by exists conn'].
    simpl. intros [Hin|Hin%elem_of_singleton]%elem_of_union; [done|]. apply He. left. f_equal.
    apply (ok_token_inj _ Hs q p conn conn'); [done|done|congruence].
  - injection Hrun as <-. exact Hk.
  - destruct (tasks s !! id') as [t'|] eqn:Et; [|done]. simpl in Hrun.
    destruct (turn_own a id' t' s s' Hs Et Hrun) as (T1 & T2 & T3 & T4).
    destruct Hk as (id & t & H1 & H2 & H3 & conn & H4 & H5). destruct (T3 _ _ H4) as (conn' & C1 & C2).
    destruct (decide (id = id')) as [->|Hne].
    + rewrite Et in H1. injection H1 as <-. destruct (T4 Hb H3) as (t & E1 & E2 & E3). exists id', t.
      unfold keeps. rewrite T1, E2, E3. split_and!; try done. exists conn'. split; [done|congruence].
    + exists id, t. unfold keeps. rewrite T1, (T2 _ Hne). split_and!; try done. exists conn'. split; [done|congruence].
Qed.

Lemma run_keeps p es s s' :
  (∀ b, backoff_next b ≠ None) → cm_ok s → Forall (λ e, ¬ disconnects p e) es → cm_run es s = Some s' →
  (∃ id t, keeps p s id t) → ∃ id t, keeps p s' id t.
Proof.
  intros Hb Hs Hes. revert s Hs. induction Hes as [|e es He _ IH]; intros s Hs; simpl; [by intros [= <-]|].
  destruct (cm_step e s) as [s1|] eqn:E; [|done]. simpl. intros Hrun Hk. apply (IH s1); [by eapply step_ok|done|].
  by eapply step_keeps.
Qed.

(** Nothing goes wrong with this answer. *)
Definition goes_well (a : Answer) : Prop :=
  match a with Runs | Slept | ConnectDone true | CheckDone true => True | _ => False end.

(** The answers [l] of a task lead it to a connection that is tracked. *)
Definition connects s id p (l : list Answer) : Prop :=
  ∃ s' c, cm_run (Turn id <$> l) s = Some s' ∧ first_connected_peer s' [p] = Some (p, c).

Lemma connects_cons s s1 id t p a l :
  tasks s !! id = Some t → task_turn a id t s = Some s1 → connects s1 id p l → connects s id p (a :: l).
Proof. intros Ht Hrun (s' & c & H1 & H2). exists s', c. csimpl. rewrite Ht. simpl. by rewrite Hrun. Qed.

Lemma checking_connects s id t c :
  cm_ok s → tasks s !! id = Some t → t_await t = Checking c → connects s id (t_peer t) [CheckDone true].
Proof.
  intros Hs Ht Ea. destruct (ok_task _ Hs _ _ Ht) as (conn & Hc & _).
  eexists _, c. csimpl. rewrite Ht. simpl. unfold task_turn. rewrite Ea, (set_tracked_run _ _ conn) by done. simpl.
  split; [done|]. simpl. by rewrite lookup_insert_eq.
Qed.

Lemma connecting_connects s id t :
  cm_ok s → tasks s !! id = Some t → t_await t = Connecting → connects s id (t_peer t) [ConnectDone true; CheckDone true].
Proof.
  intros Hs Ht Ea. assert (∃ s1, task_turn (ConnectDone true) id t s = Some s1 ∧
    tasks s1 !! id = Some (await_ t (Checking (next_id s)))) as (s1 & Hrun & Ht1).
  { unfold task_turn. rewrite Ea. eexists. split; [done|]. apply lookup_insert_eq. }
  eapply connects_cons; [done|exact Hrun|].
  apply (checking_connects s1 id (await_ t (Checking (next_id s))) (next_id s)); [by eapply cm_turn_ok|done|done].
Qed.

(** A task that starts its loop again connects in two or three turns. *)
Lemma head_connects s id t t' :
  cm_ok s → tasks s !! id = Some t' → loop_head t = Some t' →
  ∃ l, connects s id (t_peer t) l ∧ Forall goes_well l ∧ (length l ≤ 3)%nat.
Proof.
  intros Hs Ht Hl. destruct (loop_head_same _ _ Hl) as (<- & _ & _). unfold loop_head in Hl.
  destruct (t_backoff t) as [b|].
  - destruct (backoff_next b) as [[delay b']|]; [|done]. injection Hl as <-.
    assert (∀ t0, tasks s !! id = Some t0 → t_await t0 = Sleeping delay → connects s id (t_peer t0) [Slept; ConnectDone true; CheckDone true]) as H.
    { intros t0 Ht0 Ea. assert (∃ s1, task_turn Slept id t0 s = Some s1 ∧ tasks s1 !! id = Some (await_ t0 Connecting))
        as (s1 & Hrun & Ht1).
      { unfold task_turn. rewrite Ea. eexists. split; [done|]. apply lookup_insert_eq. }
      eapply connects_cons; [done|exact Hrun|].
      apply (connecting_connects s1 id (await_ t0 Connecting)); [by eapply cm_turn_ok|done|done]. }
    eexists. split; [by apply H|]. by repeat constructor.
  - injection Hl as <-. eexists. split; [by apply (connecting_connects s id)|]. split; [by repeat constructor|simpl; lia].
Qed.

Lemma loop_head_endless t : (∀ b, backoff_next b ≠ None) → ∃ t', loop_head t = Some t'.
Proof.
  intros Hb. unfold loop_head. destruct (t_backoff t) as [b|]; [|by eexists]. specialize (Hb b).
  destruct (backoff_next b) as [[delay b']|]; [by eexists|done].
Qed.

Lemma keeps_connects p s id t :
  (∀ b, backoff_next b ≠ None) → cm_ok s → keeps p s id t →
  ∃ l, connects s id p l ∧ (length l ≤ 5)%nat ∧ (held t = None → Forall goes_well l).
Proof.
  intros Hb Hs (Ht & <- & _ & _). destruct (loop_head_endless t Hb) as [t' Hl].
  assert (∀ a s1 t0 t1, task_turn a id t s = Some s1 → tasks s1 !! id = Some t1 → loop_head t0 = Some t1 → t_peer t0 = t_peer t →
    ∃ l, connects s id (t_peer t) (a :: l) ∧ Forall goes_well l ∧ (length l ≤ 3)%nat) as Hhead.
  { intros a s1 t0 t1 Hrun Ht1 Hl1 Hp. destruct (head_connects s1 id t0 t1) as (l & H1 & H2 & H3); [by eapply cm_turn_ok|done|done|].
    exists l. split; [|done]. eapply connects_cons; [done|exact Hrun|]. by rewrite <- Hp. }
  destruct (t_await t) as [|delay| |c|c|c] eqn:Ea.
  - destruct (Hhead Runs (put_task id (loop_head t) s) t t') as (l & H1 & H2 & H3); [by unfold task_turn; rewrite Ea| |done|done|].
    { rewrite Hl. apply lookup_insert_eq. }
    exists (Runs :: l). split; [done|]. split; [simpl; lia|]. by constructor.
  - exists [Slept; ConnectDone true; CheckDone true]. split; [|split; [simpl; lia|by repeat constructor]].
    set (s1 := put_task id (Some (await_ t Connecting)) s).
    assert (task_turn Slept id t s = Some s1) as Hrun by (unfold task_turn; by rewrite Ea).
    assert (tasks s1 !! id = Some (await_ t Connecting)) as Ht1 by apply lookup_insert_eq.
    eapply connects_cons; [done|exact Hrun|]. apply (connecting_connects s1 id (await_ t Connecting)); [by eapply cm_turn_ok|done|done].
  - exists [ConnectDone true; CheckDone true]. split; [by apply connecting_connects|]. split; [simpl; lia|by repeat constructor].
  - exists [CheckDone true]. split; [by eapply checking_connects|]. split; [simpl; lia|by repeat constructor].
  - set (t1 := {| t_peer := t_peer t; t_cancel := t_cancel t; t_backoff := None; t_await := UntilShutdown c |}).
    set (s1 := put_task id (Some t1) (broadcast [Registered (t_peer t)] s)).
    assert (task_turn (RegisterDone true) id t s = Some s1) as Hrun by (unfold task_turn; by rewrite Ea).
    assert (cm_ok s1) as Hs1 by by eapply cm_turn_ok. assert (tasks s1 !! id = Some t1) as Ht1 by apply lookup_insert_eq.
    destruct (loop_head_endless t1 Hb) as [t2 Hl2].
    set (s2 := put_task id (loop_head t1) (drop_client t1 s1)).
    assert (task_turn ShutDown id t1 s1 = Some s2) as Hrun2 by done.
    assert (tasks s2 !! id = Some t2) as Ht2.
    { unfold s2. rewrite Hl2. unfold put_task. cbn [tasks]. apply lookup_insert_eq. }
    destruct (head_connects s2 id t1 t2) as (l & H1 & H2 & H3); [by eapply cm_turn_ok|done|done|].
    exists (RegisterDone true :: ShutDown :: l). split.
    { eapply connects_cons; [done|exact Hrun|]. eapply connects_cons; [done|exact Hrun2|done]. }
    split; [simpl; lia|]. unfold held. by rewrite Ea.
  - destruct (Hhead ShutDown (put_task id (loop_head t) (drop_client t s)) t t') as (l & H1 & H2 & H3);
      [by unfold task_turn; rewrite Ea| |done|done|].
    { rewrite Hl. unfold put_task. cbn [tasks]. apply lookup_insert_eq. }
    exists (ShutDown :: l). split; [done|]. split; [simpl; lia|]. unfold held. by rewrite Ea.
Qed.

(** C24: a peer that is to be kept connected, and was not disconnected since, has a task
    that is not told to stop, whatever else happened, and at any moment at most five
    turns of that task lead to a connection that operations are given; nothing has
    to fail in them, unless the task holds a connection already. *)
Theorem kept_peer_connects addresses es1 s1 p es2 s2
  (Hb : ∀ b, backoff_next b ≠ None)
  (Hrun1 : cm_run es1 (app_new addresses) = Some s1) (Hp : is_connectable s1 p = true)
  (Hrun2 : cm_run (KeepPeerConnected p :: es2) s1 = Some s2) (Hes : Forall (λ e, ¬ disconnects p e) es2) :
  ∃ id t, tasks s2 !! id = Some t ∧ t_peer t = p ∧ t_cancel t ∉ cancelled s2 ∧
    ∃ l s3 c, cm_run (Turn id <$> l) s2 = Some s3 ∧ first_connected_peer s3 [p] = Some (p, c) ∧ (length l ≤ 5)%nat ∧
      (held t = None → Forall goes_well l).
Proof.
  pose proof (run_ok es1 _ s1 (app_new_ok addresses) Hrun1) as Hs1. simpl in Hrun2. rewrite Hp in Hrun2.
  assert (cm_ok (keep_peer_connected p s1)) as Hs by by apply keep_ok.
  destruct (run_keeps p es2 _ s2 Hb Hs Hes Hrun2 (keep_keeps p s1 Hs1)) as (id & t & Hk).
  destruct (keeps_connects p s2 id t Hb) as (l & (s3 & c & H1 & H2) & H3 & H4); [by eapply run_ok|done|].
  exists id, t. destruct Hk as (K1 & K2 & K3 & _). split_and!; [done..|]. by exists l, s3, c.
Qed.

(** ** Whether the connection that is up is the one that is given out *)

(** A peer has at most one task, and is tracked as that task holds it. *)
Definition exact p s : Prop :=
  ∀ id t, tasks s !! id = Some t → t_peer t = p →
    (∀ id' t', tasks s !! id' = Some t' → t_peer t' = p → id' = id) ∧ connections s !! p ≫= tracked_client = held t.

(** No task of [p] is still to stop. *)
Definition settled p s : Prop := ∀ id t, tasks s !! id = Some t → t_peer t = p → t_cancel t ∉ cancelled s.

(** [p] is only to be connected again when the tasks that were told to stop have. *)
Fixpoint restarts_settled p (es : list CmEvent) s : Prop :=
  match es with
  | [] => True
  | e :: es =>
      (e = KeepPeerConnected p ∨ e = KeepAllConnected → settled p s) ∧
      ∀ s', cm_step e s = Some s' → restarts_settled p es s'
  end.

Lemma exact_other p s s' : same_peer p s s' → exact p s → exact p s'.
Proof.
  intros [E1 E2] H id t Ht Hp. apply E2 in Ht; [|done]. destruct (H _ _ Ht Hp) as [H1 H2]. rewrite E1. split; [|done].
  intros id' t' Ht' Hp'. apply E2 in Ht'; [|done]. by eapply H1.
Qed.

Lemma settled_other p s s' : same_peer p s s' → cancelled s' = cancelled s → settled p s → settled p s'.
Proof. intros [_ E2] Ec H id t Ht Hp. apply E2 in Ht; [|done]. rewrite Ec. by apply (H id). Qed.

Lemma exact_keep p s :
  cm_ok s → settled p s → exact p s →
  exact p (keep_peer_connected p s) ∧ settled p (keep_peer_connected p s).
Proof.
  intros Hs Hset Hex. unfold keep_peer_connected. pose proof (entry_run p s Hs) as H. destruct (entry p s) as [conn s1].
  destruct H as (Hs1 & Hp & Et & Ec & _ & Hconn).
  assert (exact p s1) as Hex1.
  { destruct Hconn as [[_ ->]|(Hn & _ & _)]; [done|]. intros id t Ht Htp. exfalso. rewrite Et in Ht.
    destruct (ok_task _ Hs _ _ Ht) as (c & Hc & _). congruence. }
  assert (settled p s1) as Hset1 by (intros id t; rewrite Et, Ec; apply Hset).
  assert (∀ conn' s2, (∀ id t, tasks s1 !! id = Some t → t_peer t ≠ p) → tasks s2 = tasks s1 → cancelled s2 = cancelled s1 →
    tracked_client conn' = tracked_client conn → cancel conn' ∉ cancelled s1 →
    exact p (spawn_tracker p conn' s2) ∧ settled p (spawn_tracker p conn' s2)) as Hspawn.
  { intros conn' s2 Hno T2 C2 Hcl Hn. assert (tracked_client conn = None) as Htn.
    { destruct (tracked_client conn) as [c|] eqn:E; [|done]. destruct (ok_client _ Hs1 _ _ _ Hp E) as (id & t & H1 & H2 & _).
      by destruct (Hno _ _ H1). }
    unfold spawn_tracker, fresh. split.
    - intros id t. cbn [set_connection put_task tasks connections]. rewrite T2.
      intros [[<- <-]|[_ H]]%lookup_insert_Some Htp; [|by destruct (Hno _ _ H)]. split.
      + intros id' t' [[<- _]|[_ H]]%lookup_insert_Some Htp'; [done|by destruct (Hno _ _ H)].
      + rewrite lookup_insert_eq. change (tracked_client conn' = None). congruence.
    - intros id t. cbn [set_connection put_task tasks cancelled]. rewrite T2, C2.
      intros [[<- <-]|[_ H]]%lookup_insert_Some Htp; [done|by destruct (Hno _ _ H)]. }
  assert (cancel conn ∈ cancelled s1 ∨ (match tracker conn with Some id => bool_decide (is_Some (tasks s1 !! id)) | None => false end) = false →
    ∀ id t, tasks s1 !! id = Some t → t_peer t ≠ p) as Hno.
  { intros Hor id t Ht Htp. destruct (ok_task _ Hs1 _ _ Ht) as (c & Hc & [[H1 H2]|[H1 _]]); [|by apply (Hset1 id t)].
    rewrite Htp, Hp in Hc. injection Hc as <-. destruct Hor as [Hin|Hu].
    - apply (Hset1 id t Ht Htp). by rewrite H1.
    - rewrite H2, bool_decide_true in Hu by by eexists. done. }
  case_bool_decide as Hcan.
  - apply Hspawn; [apply Hno; by left|done|done|done|]. simpl. intros Hin. pose proof (ok_cancelled _ Hs1 _ Hin). lia.
  - destruct (match tracker conn with Some id => _ | None => false end) eqn:Hu; [done|].
    apply Hspawn; [apply Hno; by right|done..].
Qed.

Lemma exact_keep_all p l s :
  cm_ok s → settled p s → exact p s → exact p (foldl (λ s q, keep_peer_connected q s) s l).
Proof.
  revert s. induction l as [|q l IH]; intros s Hs Hset Hex; [done|]. simpl.
  destruct (decide (p = q)) as [<-|Hne].
  - destruct (exact_keep p s Hs Hset Hex). by apply IH; [apply keep_ok|..].
  - destruct (keep_other p q s Hs Hne) as [H1 H2].
    apply IH; [by apply keep_ok|by eapply settled_other|by eapply exact_other].
Qed.

(** A turn of the only task of [p] *)
Lemma exact_turn a id t s s' :
  cm_ok s → exact (t_peer t) s → tasks s !! id = Some t → task_turn a id t s = Some s' → exact (t_peer t) s'.
Proof.
  intros Hs Hex Ht Hrun. destruct (ok_task _ Hs _ _ Ht) as (conn & Hc & _).
  destruct (Hex _ _ Ht eq_refl) as [Hone Htr]. rewrite Hc in Htr. simpl in Htr.
  assert (∀ o s1, tasks s1 = tasks s → (∀ t', o = Some t' → connections s1 !! t_peer t ≫= tracked_client = held t') →
    exact (t_peer t) (put_task id o s1)) as Hput.
  { intros o s1 E1 E2 id' t' Ht' Hp'. unfold put_task in *. cbn [tasks connections] in *. rewrite E1 in *.
    assert (id' = id ∧ o = Some t') as [-> ->].
    { destruct o as [t0|].
      - apply lookup_insert_Some in Ht' as [[<- <-]|[N H]]; [done|]. destruct N. symmetry. by eapply Hone.
      - apply lookup_delete_Some in Ht' as [N H]. destruct N. symmetry. by eapply Hone. }
    split; [|by apply E2]. intros id' t0 [[<- _]|[_ H]]%lookup_insert_Some Hp0; [done|by eapply Hone]. }
  unfold task_turn, drop_client in Hrun. unfold held in Htr.
  assert (∀ t', loop_head t = Some t' → held t' = None) as Hl by (by intros t' (_ & _ & ?)%loop_head_same).
  destruct (t_await t) eqn:Ea; destruct a as [| | |[]|[]|ok|]; try done; try (case_bool_decide; [|done]);
    rewrite ?(set_tracked_run _ _ conn) in Hrun by done;
    injection Hrun as <-; (apply Hput; [done|]);
    cbn [broadcast set_connection connections fresh snd]; rewrite ?lookup_insert_eq, ?Hc; simpl;
    intros t'; first [intros H; rewrite (Hl _ H); by rewrite ?Htr|by intros [= <-]; rewrite ?Htr].
Qed.

Lemma exact_step p e s s' :
  cm_ok s → (e = KeepPeerConnected p ∨ e = KeepAllConnected → settled p s) → cm_step e s = Some s' →
  exact p s → exact p s'.
Proof.
  intros Hs Hset Hrun Hex. destruct e as [| |q|q|peers|id a]; simpl in Hrun.
  - injection Hrun as <-. apply exact_keep_all; [done| |done]. apply Hset. by right.
  - by injection Hrun as <-.
  - injection Hrun as <-. destruct (is_connectable s q); [|done]. destruct (decide (q = p)) as [->|Hne].
    + apply exact_keep; [done| |done]. apply Hset. by left.
    + eapply exact_other; [|done]. by apply keep_other.
  - injection Hrun as <-. unfold disconnect_peer. by destruct (connections s !! q).
  - by injection Hrun as <-.
  - destruct (tasks s !! id) as [t|] eqn:Ht; [|done]. simpl in Hrun. destruct (decide (t_peer t = p)) as [<-|Hne].
    + by eapply exact_turn.
    + eapply exact_other; [|done]. by eapply turn_other.
Qed.

(** C26: when a peer is only connected again after the task that was told to stop has
    stopped, an operation for that peer is given the connection that its task has
    made, from its check on and until it ends, and none at other times. *)
Theorem tracked_while_up addresses p es s
  (Hrun : cm_run es (app_new addresses) = Some s) (Hes : restarts_settled p es (app_new addresses)) :
  match first_connected_peer s [p] with
  | Some (q, c) => ∃ id t, tasks s !! id = Some t ∧ t_peer t = p ∧ held t = Some c
  | None => ∀ id t, tasks s !! id = Some t → t_peer t = p → held t = None
  end.
Proof.
  assert (exact p s) as Hex.
  { assert (exact p (app_new addresses)) as H0 by (intros id t H; simplify_map_eq/=).
    pose proof (app_new_ok addresses) as Hok. revert Hrun Hes H0 Hok. generalize (app_new addresses).
    induction es as [|e es IH]; intros s0; simpl; [by intros [= <-]|].
    destruct (cm_step e s0) as [s1|] eqn:E; [|done]. simpl. intros Hrun [Hset Hes] Hex Hok.
    apply (IH s1 Hrun); [by apply Hes|by eapply exact_step|by eapply step_ok]. }
  pose proof (run_ok es _ s (app_new_ok addresses) Hrun) as Hs. simpl.
  destruct (connections s !! p ≫= tracked_client) as [c|] eqn:E.
  - destruct (connections s !! p) as [conn|] eqn:Ec; [|done]. by eapply ok_client.
  - intros id t Ht Hp. destruct (Hex _ _ Ht Hp) as [_ H]. congruence.
Qed.

(** The only task of [p], which nothing tells to stop, holds a connection that is not
    tracked. *)
Definition hidden p id c s : Prop :=
  (∃ t, tasks s !! id = Some t ∧ t_peer t = p ∧ t_await t = UntilShutdown c ∧ t_cancel t ∉ cancelled s) ∧
  (∀ id' t', tasks s !! id' = Some t' → t_peer t' = p → id' = id) ∧
  ∃ conn, connections s !! p = Some conn ∧ tracked_client conn = None.

Lemma hidden_other p id c s s' : same_peer p s s' → cancelled s' = cancelled s → hidden p id c s → hidden p id c s'.
Proof.
  intros [E1 E2] Ec [(t & H1 & H2 & H3 & H4) [H5 H6]]. unfold hidden. rewrite E1, Ec. split_and!; [| |done].
  - exists t. split; [by apply E2|done].
  - intros id' t' Ht' Hp. apply E2 in Ht'; [|done]. by eapply H5.
Qed.

Lemma hidden_keep p id c s : cm_ok s → hidden p id c s → keep_peer_connected p s = s.
Proof.
  intros Hs [(t & H1 & H2 & H3 & H4) (H5 & conn & H6 & H7)]. unfold keep_peer_connected, entry. rewrite H6.
  destruct (ok_task _ Hs _ _ H1) as (conn' & Hc & [[Et Er]|[? _]]); [|done]. rewrite H2, H6 in Hc. injection Hc as <-.
  rewrite bool_decide_false by (by rewrite <- Et). rewrite Er, bool_decide_true by by eexists. done.
Qed.

Lemma hidden_keep_all p id c l s : cm_ok s → hidden p id c s → hidden p id c (foldl (λ s q, keep_peer_connected q s) s l).
Proof.
  revert s. induction l as [|q l IH]; intros s Hs H; [done|]. simpl. destruct (decide (p = q)) as [<-|Hne].
  - rewrite (hidden_keep p id c) by done. by apply IH.
  - destruct (keep_other p q s Hs Hne) as [H1 H2]. apply IH; [by apply keep_ok|by eapply hidden_other].
Qed.

Lemma hidden_step p id c e s s' :
  cm_ok s → (∀ a, e ≠ Turn id a) → ¬ disconnects p e → cm_step e s = Some s' → hidden p id c s → hidden p id c s'.
Proof.
  intros Hs Hturn Hdis Hrun Hh. destruct e as [| |q|q|peers|id' a]; simpl in Hrun.
  - injection Hrun as <-. by apply hidden_keep_all.
  - destruct Hdis. by right.
  - injection Hrun as <-. destruct (is_connectable s q); [by apply (hidden_keep_all p id c [q])|done].
  - injection Hrun as <-. unfold disconnect_peer. destruct (connections s !! q) as [conn|] eqn:Eq; [|done].
    destruct Hh as [(t & H1 & H2 & H3 & H4) [H5 H6]]. split; [|done]. exists t. split_and!; [done..|]. simpl.
    intros [Hin|Hin%elem_of_singleton]%elem_of_union; [done|]. apply Hdis. left. f_equal.
    destruct (ok_task _ Hs _ _ H1) as (conn' & Hc & [[Et _]|[? _]]); [|done]. rewrite <- H2.
    apply (ok_token_inj _ Hs q (t_peer t) conn conn'); [done|done|congruence].
  - by injection Hrun as <-.
  - destruct (tasks s !! id') as [t'|] eqn:Et; [|done]. simpl in Hrun. pose proof Hh as [_ [H5 _]].
    assert (t_peer t' ≠ p) as Hne. { intros E. apply (Hturn a). by rewrite (H5 _ _ Et E). }
    apply (hidden_other p id c s); [by eapply turn_other|by eapply turn_own|done].
Qed.

(** Two tasks of a peer: the one told to stop waits for the end of its connection, the
    newer one, which nothing tells to stop, holds the connection [c]. *)
Record restarted p old id c s : Prop := {
  re_old : ∃ t c0, tasks s !! old = Some t ∧ t_peer t = p ∧ t_await t = UntilShutdown c0 ∧ t_cancel t ∈ cancelled s;
  re_new : ∃ t, tasks s !! id = Some t ∧ t_peer t = p ∧ t_await t = UntilShutdown c ∧ t_cancel t ∉ cancelled s;
  re_only : ∀ id' t', tasks s !! id' = Some t' → t_peer t' = p → id' = old ∨ id' = id;
}.

(** Stopping, the older task clears the connection of the newer one. *)
Lemma restarted_hidden p old id c s :
  cm_ok s → restarted p old id c s → ∃ s', cm_step (Turn old Cancelled) s = Some s' ∧ hidden p id c s'.
Proof.
  intros Hs [(t0 & c0 & H1 & H2 & H3 & H4) (t & T1 & T2 & T3 & T4) Honly].
  destruct (ok_task _ Hs _ _ H1) as (conn & Hc & _).
  assert (old ≠ id) as Hne by (intros ->; rewrite H1 in T1; by simplify_eq).
  assert (∀ i, i ≠ old → tasks (put_task old None (drop_client t0 s)) !! i = tasks s !! i) as Htk.
  { intros i Hi. unfold drop_client, set_tracked_client, entry. rewrite Hc. simpl. by rewrite lookup_delete_ne. }
  assert (cancelled (put_task old None (drop_client t0 s)) = cancelled s) as Hcan.
  { unfold drop_client, set_tracked_client, entry. by rewrite Hc. }
  exists (put_task old None (drop_client t0 s)). split_and!.
  - simpl. rewrite H1. simpl. unfold task_turn. by rewrite H3, bool_decide_true.
  - split_and!.
    + exists t. by rewrite Htk, Hcan.
    + intros id' t' Ht' Hp. destruct (decide (id' = old)) as [->|Hi].
      * simpl in Ht'. by rewrite lookup_delete_eq in Ht'.
      * rewrite Htk in Ht' by done. by destruct (Honly _ _ Ht' Hp).
    + unfold drop_client, set_tracked_client, entry. rewrite Hc, H2. simpl. eexists. by rewrite lookup_insert_eq.
Qed.

Lemma hidden_run p id c es s s' :
  cm_ok s → Forall (λ e, (∀ a, e ≠ Turn id a) ∧ ¬ disconnects p e) es → cm_run es s = Some s' → hidden p id c s →
  hidden p id c s'.
Proof.
  intros Hs Hes. revert s Hs. induction Hes as [|e es [He1 He2] _ IH]; intros s Hs; simpl; [by intros [= <-]|].
  destruct (cm_step e s) as [s1|] eqn:E; [|done]. simpl. intros Hrun Hh.
  apply (IH s1); [by eapply step_ok|done|by eapply hidden_step].
Qed.

(** C40: when a peer has two tasks, an older one that is told to stop while its
    connection is up and a newer one that holds a connection of its own, the older one
    stops, and with that clears the connection of the newer one, which is left as it
    is.  From then on the peer counts as not connected: whatever is asked but to
    disconnect it (asking again to keep it connected included), and whatever other tasks
    do, operations are not given the connection that is up, until its task takes a
    turn, which is when the connection ends. *)
Theorem restart_hides_client addresses es1 s0 p old id c
  (Hrun1 : cm_run es1 (app_new addresses) = Some s0) (Htwo : restarted p old id c s0) :
  ∃ s1, cm_step (Turn old Cancelled) s0 = Some s1 ∧
    ∀ es2 s2, Forall (λ e, (∀ a, e ≠ Turn id a) ∧ ¬ disconnects p e) es2 → cm_run es2 s1 = Some s2 →
      first_connected_peer s2 [p] = None ∧ ∃ t, tasks s2 !! id = Some t ∧ t_peer t = p ∧ t_await t = UntilShutdown c.
Proof.
  pose proof (run_ok es1 _ s0 (app_new_ok addresses) Hrun1) as Hs0.
  destruct (restarted_hidden p old id c s0 Hs0 Htwo) as (s1 & Hstep & Hh). exists s1. split; [done|].
  intros es2 s2 Hes Hrun2.
  destruct (hidden_run p id c es2 s1 s2 ltac:(by eapply step_ok) Hes Hrun2 Hh)
    as [(t & H1 & H2 & H3 & _) (_ & conn & H4 & H5)].
  split; [simpl; rewrite H4; simpl; by rewrite H5|by exists t].
Qed.
End manager.

(** ** Witnesses *)

Section witnesses.
Definition delays : N → option (N * N) := λ d, Some (d, d + 1).
Definition p1 : Peer := mkPeer "p1".
Definition p2 : Peer := mkPeer "p2".
Definition known : gmap Peer string := {[p1 := "host1:77"; p2 := "host2:77"]}.
Definition start : AppContext N := app_new N known.
Abbreviation run := (cm_run N 500 delays).

(** Task 1 connects to the first peer; the second one cannot be reached at first. *)
Definition events1 : list CmEvent :=
  [KeepPeerConnected p1; Turn 1 Runs; Turn 1 (ConnectDone true); Turn 1 (CheckDone true); Turn 1 (RegisterDone true);
   KeepPeerConnected p2; Turn 4 Runs; Turn 4 (ConnectDone false); PeerOperation [p2; p1]].

Lemma connections_reachable_inv_witness : ∃ s, run events1 start = Some s ∧
  executed N s = [Some (p1, 2%nat)] ∧
  ∃ id t, tasks N s !! id = Some t ∧ t_peer N t = p1 ∧ held N t = Some 2%nat.
Proof.
  destruct (run events1 start) as [s|] eqn:E; [|by vm_compute in E]. exists s. split; [done|].
  assert (match run events1 start with Some s => (executed N s, first_connected_peer N s [p2; p1]) | None => ([], None) end
    = ([Some (p1, 2%nat)], Some (p1, 2%nat))) as Es by (vm_compute; reflexivity).
  rewrite E in Es. apply pair_equal_spec in Es as [E1 E2]. split; [exact E1|].
  pose proof (connections_reachable_inv N 500 delays known events1 s [p2; p1] E) as [H _].
  rewrite E2 in H. apply H.
Defined.

Lemma kept_peer_connects_witness : ∃ s, run events1 start = Some s ∧
  ∃ id t, tasks N s !! id = Some t ∧ t_peer N t = p2 ∧
    ∃ l s3 c, run (Turn id <$> l) s = Some s3 ∧ first_connected_peer N s3 [p2] = Some (p2, c).
Proof.
  destruct (run (take 5 events1) start) as [s1|] eqn:E1; [|by vm_compute in E1].
  assert (is_connectable N s1 p2 = true) as Hp.
  { assert ((λ s, is_connectable N s p2) <$> run (take 5 events1) start = Some true) as H by (vm_compute; reflexivity).
    rewrite E1 in H. by injection H. }
  destruct (run (drop 5 events1) s1) as [s2|] eqn:E2.
  2:{ assert (is_Some (run (take 5 events1) start ≫= run (drop 5 events1))) as [s H] by (vm_compute; by eexists).
      rewrite E1 in H. change (run (drop 5 events1) s1 = Some s) in H. congruence. }
  exists s2. split.
  { assert (run events1 start = run (take 5 events1) start ≫= run (drop 5 events1)) as -> by (vm_compute; reflexivity).
    rewrite E1. exact E2. }
  destruct (kept_peer_connects N 500 delays known (take 5 events1) s1 p2 (drop 6 events1) s2 ltac:(done) E1 Hp E2)
    as (id & t & H1 & H2 & _ & l & s3 & c & H3 & H4 & _).
  - repeat constructor; by intros [|].
  - exists id, t. split; [done|]. split; [done|]. by exists l, s3, c.
Defined.
Lemma tracked_while_up_witness : ∃ s, run events1 start = Some s ∧
  first_connected_peer N s [p1] = Some (p1, 2%nat) ∧ ∃ id t, tasks N s !! id = Some t ∧ t_peer N t = p1 ∧ held N t = Some 2%nat.
Proof.
  destruct (run events1 start) as [s|] eqn:E; [|by vm_compute in E]. exists s. split; [done|].
  assert ((λ s, first_connected_peer N s [p1]) <$> run events1 start = Some (Some (p1, 2%nat))) as Es
    by (vm_compute; reflexivity).
  rewrite E in Es. assert (first_connected_peer N s [p1] = Some (p1, 2%nat)) as Ef by (by injection Es). clear Es.
  split; [exact Ef|]. pose proof (tracked_while_up N 500 delays known p1 events1 s E) as H. rewrite Ef in H. apply H.
  assert (∀ es s, Forall (λ e, e ≠ KeepPeerConnected p1 ∧ e ≠ KeepAllConnected) es → restarts_settled N 500 delays p1 es s) as Hlater.
  { clear. induction es as [|e es IH]; intros s Hes; [done|]. apply Forall_cons in Hes as [[H1 H2] Hes]. split; [by intros []|].
    intros s' _. by apply IH. }
  split; [|intros s' _; apply Hlater; by repeat constructor].
  intros _ id t Ht. simpl in Ht. by rewrite lookup_empty in Ht.
Defined.

(** The first task of a peer is told to stop while it registers; a second one is
    started, and connects; what is left for the first one is to stop. *)
Definition events2 : list CmEvent :=
  [KeepPeerConnected p1; Turn 1 Runs; Turn 1 (ConnectDone true); Turn 1 (CheckDone true);
   DisconnectPeer p1; KeepPeerConnected p1;
   Turn 4 Runs; Turn 4 (ConnectDone true); Turn 4 (CheckDone true); Turn 4 (RegisterDone true);
   Turn 1 (RegisterDone true)].

Definition first_task : Task N := {| t_peer := p1; t_cancel := 0%nat; t_backoff := None; t_await := UntilShutdown 2 |}.
Definition second_task : Task N := {| t_peer := p1; t_cancel := 3%nat; t_backoff := None; t_await := UntilShutdown 5 |}.

Lemma events2_restarted s : run events2 start = Some s → restarted N p1 1 4 5 s.
Proof.
  intros Hrun.
  assert ((λ s, (map_to_list (tasks N s), bool_decide (0%nat ∈ cancelled N s), bool_decide (3%nat ∈ cancelled N s)))
      <$> run events2 start = Some ([(4%nat, second_task); (1%nat, first_task)], true, false)) as E by (vm_compute; reflexivity).
  rewrite Hrun in E. simpl in E. injection E as E1 E2 E3.
  apply bool_decide_eq_true in E2. apply bool_decide_eq_false in E3.
  assert (∀ id t, tasks N s !! id = Some t ↔ (id, t) = (1%nat, first_task) ∨ (id, t) = (4%nat, second_task)) as Ht.
  { intros id t. rewrite <- elem_of_map_to_list, E1, elem_of_cons, list_elem_of_singleton. apply or_comm. }
  split.
  - exists first_task, 2%nat. split_and!; [apply Ht; by left|done..].
  - exists second_task. split_and!; [apply Ht; by right|done..].
  - intros id' t' [[= -> _]|[= -> _]]%Ht _; auto.
Qed.

Lemma restart_hides_client_witness : ∃ s0 s1 s2, run events2 start = Some s0 ∧
  first_connected_peer N s0 [p1] = Some (p1, 5%nat) ∧
  cm_step N 500 delays (Turn 1 Cancelled) s0 = Some s1 ∧
  run [KeepPeerConnected p1; KeepAllConnected; PeerOperation [p1]] s1 = Some s2 ∧ first_connected_peer N s2 [p1] = None.
Proof.
  destruct (run events2 start) as [s0|] eqn:E0; [|by vm_compute in E0].
  destruct (restart_hides_client N 500 delays known events2 s0 p1 1 4 5 E0 (events2_restarted s0 E0)) as (s1 & E1 & H).
  destruct (run [KeepPeerConnected p1; KeepAllConnected; PeerOperation [p1]] s1) as [s2|] eqn:E2.
  2:{ assert (match (run events2 start ≫= cm_step N 500 delays (Turn 1 Cancelled))
      ≫= run [KeepPeerConnected p1; KeepAllConnected; PeerOperation [p1]] with Some _ => true | None => false end = true)
      as Hs by (vm_compute; reflexivity).
    rewrite E0 in Hs. cbn [mbind option_bind] in Hs. rewrite E1 in Hs. cbn [mbind option_bind] in Hs. by rewrite E2 in Hs. }
  exists s0, s1, s2. split; [done|]. split.
  { assert ((λ s, first_connected_peer N s [p1]) <$> run events2 start = Some (Some (p1, 5%nat))) as Es by (vm_compute; reflexivity).
    rewrite E0 in Es. by injection Es. }
  split; [exact E1|]. split; [exact E2|].
  apply (H [KeepPeerConnected p1; KeepAllConnected; PeerOperation [p1]] s2); [|exact E2].
  repeat (apply Forall_cons; split); [..|by apply Forall_nil]; (split; [by intros a|by intros [|]]).
Defined.
End witnesses.
