(* ===== verification/Reconnect.v ===== *)
(** * Calls on a connection that is made again

    [crate/realize-network/src/reconnect.rs]: [Reconnect], a stub that several flows of
    control share; when a call finds the connection lost, one of them connects again
    and the others wait.

    The connection is behind a lock.  A flow that waits for a lock, for an answer, or
    for the time to pass is at an [await]; what it waits for is an argument of the
    step, the time included.  The stub, how to connect, and the delays are parameters. *)
From stdpp Require Import gmap.
From S2P Require Import Prelude.
Local Open Scope N_scope.

Definition MAX_RETRY_COUNT : N := 10.

(** The errors of tarpc that are told apart *)
Inductive RpcError : Type :=
| RpcShutdown
| RpcChannel
| RpcDeadlineExceeded
| RpcOther.

#[global] Instance RpcError_eq_dec : EqDecision RpcError.
Proof. solve_decision. Defined.

Section reconnect.
(** The stubs, and the answers to a call *)
Context (T Resp : Type).
(** The delays of the strategy *)
Context (strategy : nat → option N).
Context (short_deadline : option N).

Inductive Reconnectable : Type :=
| Connected (inner : T) (connection_count : N) (confirmed : bool)
| GiveUp.

Abbreviation response := (result RpcError Resp).

(** [short_ctx]: the deadline of a call *)
Definition short_ctx (now deadline : N) : N :=
  match short_deadline with
  | Some duration => if now + duration <? deadline then now + duration else deadline
  | None => deadline
  end.

(** [should_retry], and the count of the retries after it *)
Definition should_retry (resp : response) (now deadline retry_count : N) : bool * N :=
  match resp with
  | Err RpcDeadlineExceeded =>
      if now <? deadline then (negb (MAX_RETRY_COUNT <? retry_count + 1), retry_count + 1) else (false, retry_count)
  | _ => (false, retry_count)
  end.

Definition should_reconnect (resp : response) : bool :=
  match resp with Err RpcShutdown | Err RpcChannel => true | _ => false end.

(** Where a call is: it waits to read the connection; it holds it while the stub
    answers; it waits to write that it works; it waits to connect again; it holds
    the connection while it sleeps, before the next attempt; it has returned; nobody
    waits for it any more. *)
Inductive Flow : Type :=
| FRead (retry_count : N)
| FCall (inner : T) (connection_count : N) (confirmed : bool) (retry_count : N)
| FConfirm (resp : response)
| FWrite (idx : N)
| FSleep (idx : N) (attempt : nat)
| FReturned (resp : response)
| FDropped.

(** A call, with its deadline *)
Record Call : Type := { c_deadline : N; c_flow : Flow }.

(** The calls that were made on the stubs: by whom, on which connection, the deadline
    they were given, and their answer. *)
Record Made : Type := { m_call : nat; m_connection : N; m_deadline : N; m_resp : response }.

Record Shared : Type := {
  inner_ : Reconnectable;
  calls : gmap nat Call;
  made : list Made;
}.

(** [Reconnect::new], when it connects *)
Definition reconnect_new (stub : T) : Shared :=
  {| inner_ := Connected stub 1 false; calls := ∅; made := [] |}.

Definition set_flow (id : nat) (f : Flow) (c : Call) (s : Shared) : Shared :=
  {| inner_ := inner_ s; calls := <[id := {| c_deadline := c_deadline c; c_flow := f |}]> (calls s); made := made s |}.
Definition set_inner (r : Reconnectable) (s : Shared) : Shared :=
  {| inner_ := r; calls := calls s; made := made s |}.

Definition reads (c : Call) : bool := match c_flow c with FCall _ _ _ _ => true | _ => false end.
Definition writes (c : Call) : bool := match c_flow c with FSleep _ _ => true | _ => false end.

(** The lock can be taken for reading, for writing. *)
Definition can_read (s : Shared) : bool := bool_decide (map_Forall (λ _ c, writes c = false) (calls s)).
Definition can_write (s : Shared) : bool :=
  bool_decide (map_Forall (λ _ c, reads c = false ∧ writes c = false) (calls s)).

(** The head of the loop of [reconnect], which holds the lock. *)
Definition attempt (id : nat) (c : Call) (idx : N) (k : nat) (now : N) (s : Shared) : Shared :=
  match strategy k with
  | None => set_inner GiveUp (set_flow id (FRead 0) c s)
  | Some duration =>
      if c_deadline c <=? now + duration then set_flow id (FReturned (Err RpcDeadlineExceeded)) c s
      else set_flow id (FSleep idx k) c s
  end.

Inductive Step : Type :=
| Enter (id : nat) (deadline : N)
| TakeLock (id : nat) (now : N)
| Answer (id : nat) (sent now : N) (resp : response)
| TryConnect (id : nat) (now : N) (stub : option T)
| DropCall (id : nat).

(** The answer of the stub: [sent] is when it was asked. *)
Definition answered (id : nat) (c : Call) (count : N) (confirmed : bool) (retry_count sent now : N) (resp : response)
  (s : Shared) : Shared :=
  let s := {| inner_ := inner_ s; calls := calls s;
              made := made s ++ [{| m_call := id; m_connection := count; m_deadline := short_ctx sent (c_deadline c);
                                    m_resp := resp |}] |} in
  let '(retry, retry_count) := should_retry resp now (c_deadline c) retry_count in
  if (retry : bool) then set_flow id (FRead retry_count) c s
  else if negb confirmed then
    set_flow id (if is_ok resp then FConfirm resp else FReturned resp) c s
  else if negb (should_reconnect resp) then set_flow id (FReturned resp) c s
  else set_flow id (FWrite count) c s.

Definition rc_step (st : Step) (s : Shared) : option Shared :=
  match st with
  | Enter id deadline =>
      match calls s !! id with
      | None => Some (set_flow id (FRead 0) {| c_deadline := deadline; c_flow := FRead 0 |} s)
      | Some _ => None
      end
  | TakeLock id now =>
      c ← calls s !! id;
      match c_flow c with
      | FRead retry_count =>
          if can_read s then
            Some (match inner_ s with
                  | GiveUp => set_flow id (FReturned (Err RpcShutdown)) c s
                  | Connected inner count confirmed => set_flow id (FCall inner count confirmed retry_count) c s
                  end)
          else None
      | FConfirm resp =>
          if can_write s then
            Some (set_flow id (FReturned resp) c
                    (match inner_ s with
                     | Connected inner count _ => set_inner (Connected inner count true) s
                     | GiveUp => s
                     end))
          else None
      | FWrite idx =>
          if can_write s then
            Some (match inner_ s with
                  | Connected _ count _ => if count =? idx then attempt id c idx 0 now s else set_flow id (FRead 0) c s
                  | GiveUp => set_flow id (FRead 0) c s
                  end)
          else None
      | _ => None
      end
  | Answer id sent now resp =>
      c ← calls s !! id;
      match c_flow c with
      | FCall _ count confirmed retry_count => Some (answered id c count confirmed retry_count sent now resp s)
      | _ => None
      end
  | TryConnect id now stub =>
      c ← calls s !! id;
      match c_flow c with
      | FSleep idx k =>
          Some (match stub with
                | Some stub => set_inner (Connected stub (idx + 1) true) (set_flow id (FRead 0) c s)
                | None => attempt id c idx (S k) now s
                end)
      | _ => None
      end
  | DropCall id =>
      c ← calls s !! id;
      match c_flow c with FReturned _ => None | _ => Some (set_flow id FDropped c s) end
  end.

Fixpoint rc_run (l : list Step) (s : Shared) : option Shared :=
  match l with [] => Some s | st :: l => rc_step st s ≫= rc_run l end.

(** ** What always holds *)

Implicit Types (s : Shared) (c : Call) (id : nat) (m : Made).

(** How often a call asked the stub of a connection *)
Definition made_by id (n : N) (l : list Made) : N :=
  N.of_nat (length (filter (λ m, m_call m = id ∧ m_connection m = n) l)).

Definition some_ok s : Prop := ∃ m, m ∈ made s ∧ is_ok (m_resp m) = true.
Definition got id (resp : response) s : Prop := ∃ m, m ∈ made s ∧ m_call m = id ∧ m_resp m = resp.

Definition on_connection s (P : N → Prop) : Prop :=
  match inner_ s with Connected _ n _ => P n | GiveUp => True end.

(** Something was answered on a connection that is known to work, or was replaced. *)
Definition worked (r : Reconnectable) : Prop :=
  match r with Connected _ n confirmed => confirmed = true ∨ 1 < n | GiveUp => True end.

Definition flow_ok s id (f : Flow) : Prop :=
  match f with
  | FRead r => r ≤ MAX_RETRY_COUNT ∧ on_connection s (λ n, made_by id n (made s) ≤ r)
  | FCall i n confirmed r => inner_ s = Connected i n confirmed ∧ r ≤ MAX_RETRY_COUNT ∧ made_by id n (made s) ≤ r
  | FConfirm resp => is_ok resp = true ∧ got id resp s
  | FWrite idx => on_connection s (λ n, idx ≤ n) ∧ (∀ n, idx < n → made_by id n (made s) = 0) ∧ some_ok s
  | FSleep idx _ =>
      (∃ i confirmed, inner_ s = Connected i idx confirmed) ∧ (∀ n, idx < n → made_by id n (made s) = 0) ∧ some_ok s
  | FReturned resp =>
      resp = Err RpcShutdown ∧ inner_ s = GiveUp ∨ resp = Err RpcDeadlineExceeded ∧ some_ok s ∨ got id resp s
  | FDropped => True
  end.

Record rc_ok s : Prop := {
  ro_lock : ∀ id1 id2 c1 c2, calls s !! id1 = Some c1 → calls s !! id2 = Some c2 → id1 ≠ id2 → writes c1 = true →
    reads c2 = false ∧ writes c2 = false;
  ro_flow : ∀ id c, calls s !! id = Some c → flow_ok s id (c_flow c);
  ro_made : ∀ id n, made_by id n (made s) ≤ MAX_RETRY_COUNT + 1;
  ro_new : ∀ id n, on_connection s (λ n0, n0 < n → made_by id n (made s) = 0);
  ro_known : ∀ m, m ∈ made s → ∃ c, calls s !! m_call m = Some c ∧ m_deadline m ≤ c_deadline c;
  ro_worked : worked (inner_ s) → some_ok s;
}.

Lemma reconnect_new_ok stub : rc_ok (reconnect_new stub).
Proof.
  split; simpl; intros; simplify_map_eq/=; try done.
  - by apply not_elem_of_nil in H.
  - destruct H; [done|lia].
Qed.

Definition flow_reads (f : Flow) : bool := match f with FCall _ _ _ _ => true | _ => false end.
Definition flow_writes (f : Flow) : bool := match f with FSleep _ _ => true | _ => false end.

(** Nobody but [id] holds the lock. *)
Definition alone s id : Prop := ∀ id' c, calls s !! id' = Some c → id' ≠ id → reads c = false ∧ writes c = false.

Lemma set_flow_ok id f c c0 s :
  rc_ok s → calls s !! id = Some c0 → c_deadline c0 = c_deadline c → flow_ok s id f →
  (flow_writes f = true → alone s id) →
  (flow_reads f = true → ∀ id' c', calls s !! id' = Some c' → id' ≠ id → writes c' = false) →
  rc_ok (set_flow id f c s).
Proof.
  intros [O1 O2 O3 O4 O5 O6] Hc Hd Hf Hw Hr. split; cbn [set_flow calls inner_ made]; [..|done].
  - intros id1 id2 c1 c2 [[<- <-]|[N1 H1]]%lookup_insert_Some [[<- <-]|[N2 H2]]%lookup_insert_Some Hne; try done.
    + intros Hw1. by apply (Hw Hw1 id2).
    + intros Hw1. destruct (flow_reads f) eqn:Er.
      * by rewrite (Hr eq_refl _ _ H1 ltac:(done)) in Hw1.
      * split; [exact Er|]. destruct (flow_writes f) eqn:Ew; [|exact Ew].
        destruct (Hw eq_refl _ _ H1 ltac:(done)) as [_ H]. congruence.
    + by eapply O1.
  - intros id' c' [[<- <-]|[_ H]]%lookup_insert_Some; [exact Hf|by apply O2].
  - exact O3.
  - exact O4.
  - intros m Hm. destruct (O5 m Hm) as (c' & H1 & H2). destruct (decide (m_call m = id)) as [E|Hne].
    + rewrite E, lookup_insert_eq. eexists. split; [done|]. simpl. rewrite E, Hc in H1. injection H1 as <-. by rewrite <- Hd.
    + rewrite lookup_insert_ne by done. by exists c'.
Qed.

Lemma set_inner_ok r s :
  rc_ok s → (∀ id c, calls s !! id = Some c → reads c = false ∧ writes c = false) →
  match r with Connected _ n' _ => ∃ i n b, inner_ s = Connected i n b ∧ n ≤ n' | GiveUp => True end →
  some_ok s → rc_ok (set_inner r s).
Proof.
  intros [O1 O2 O3 O4 O5 O6] Hfree Hr Hok. split; cbn [set_inner calls inner_ made]; [done| |done| |done|done].
  - intros id c Hc. specialize (O2 id c Hc). destruct (Hfree id c Hc) as [F1 F2]. unfold reads in F1. unfold writes in F2.
    unfold on_connection in *. destruct (c_flow c) as [x|i n b x|resp|idx|idx k|resp|]; simpl in *; try done.
    + destruct O2 as [H1 H2]. split; [done|]. unfold on_connection in *. cbn [set_inner inner_]. destruct r as [i' n' b'|]; [|done].
      destruct Hr as (i & n & b & E & Hle). rewrite E in *. destruct (N.eq_dec n n') as [->|Hne]; [done|].
      cbn [set_inner made]. rewrite (O4 id n') by lia. lia.
    + destruct O2 as (H1 & H2 & H3). split_and!; [|done..]. unfold on_connection in *. cbn [set_inner inner_].
      destruct r as [i' n' b'|]; [|done]. destruct Hr as (i & n & b & E & Hle). rewrite E in H1. lia.
    + destruct O2 as [[-> E]|[H|H]]; [left|right; by left|right; by right]. split; [done|]. cbn [set_inner inner_].
      destruct r as [i' n' b'|]; [|done]. destruct Hr as (i & n & b & E' & _). congruence.
  - intros id n. unfold on_connection in *. cbn [set_inner inner_]. destruct r as [i' n' b'|]; [|done].
    destruct Hr as (i & n0 & b & E & Hle). specialize (O4 id n). rewrite E in O4. intros H. apply O4. lia.
Qed.

Lemma can_read_spec s : can_read s = true ↔ ∀ id c, calls s !! id = Some c → writes c = false.
Proof. unfold can_read. by rewrite bool_decide_eq_true. Qed.
Lemma can_write_spec s : can_write s = true ↔ ∀ id c, calls s !! id = Some c → reads c = false ∧ writes c = false.
Proof. unfold can_write. by rewrite bool_decide_eq_true. Qed.

Lemma alone_dropped id c s :
  alone s id → ∀ id' c', calls (set_flow id FDropped c s) !! id' = Some c' → reads c' = false ∧ writes c' = false.
Proof. unfold set_flow. cbn [calls]. intros H id' c' [[<- <-]|[N Hc]]%lookup_insert_Some; [done|]. by eapply H. Qed.

(** A flow that is alone with the lock replaces the connection, and reads it again. *)
Lemma replace_ok id c r idx i b s :
  rc_ok s → calls s !! id = Some c → alone s id → inner_ s = Connected i idx b →
  (∀ n, idx < n → made_by id n (made s) = 0) → some_ok s →
  match r with Connected _ n' _ => n' = idx + 1 | GiveUp => True end →
  rc_ok (set_inner r (set_flow id (FRead 0) c s)).
Proof.
  intros Hs Hc Ha Hi Hm Hok Hr.
  assert (set_inner r (set_flow id (FRead 0) c s) = set_flow id (FRead 0) c (set_inner r (set_flow id FDropped c s))) as ->.
  { unfold set_inner, set_flow. cbn [calls inner_ made]. by rewrite insert_insert_eq. }
  apply (set_flow_ok _ _ _ {| c_deadline := c_deadline c; c_flow := FDropped |}); [| |done| |done|done].
  - apply set_inner_ok; [by apply (set_flow_ok _ _ _ c)|by apply alone_dropped| |done].
    destruct r as [i' n' b'|]; [|done]. exists i, idx, b. split; [done|lia].
  - cbn [set_inner set_flow calls]. by rewrite lookup_insert_eq.
  - split; [done|]. unfold on_connection. cbn [set_inner inner_]. destruct r as [i' n' b'|]; [|done]. subst n'.
    cbn [set_inner set_flow made]. rewrite Hm by lia. done.
Qed.

Lemma attempt_ok id c idx k now s :
  rc_ok s → calls s !! id = Some c → alone s id →
  (∃ i b, inner_ s = Connected i idx b) → (∀ n, idx < n → made_by id n (made s) = 0) → some_ok s →
  rc_ok (attempt id c idx k now s).
Proof.
  intros Hs Hc Ha (i & b & Hi) Hm Hok. unfold attempt. destruct (strategy k) as [d|].
  - destruct (c_deadline c <=? now + d).
    + apply (set_flow_ok _ _ _ c); [done..| |done|done]. right. left. done.
    + apply (set_flow_ok _ _ _ c); [done..| |done|done]. split; [by exists i, b|done].
  - by eapply replace_ok.
Qed.

Lemma made_by_app id n l m :
  made_by id n (l ++ [m]) = made_by id n l + (if decide (m_call m = id ∧ m_connection m = n) then 1 else 0).
Proof. unfold made_by. rewrite filter_app, filter_cons, length_app. case_decide; simpl; lia. Qed.

Lemma short_ctx_le now deadline : short_ctx now deadline ≤ deadline.
Proof. unfold short_ctx. destruct short_deadline as [d|]; [|lia]. destruct (N.ltb_spec (now + d) deadline); lia. Qed.

(** The log of the calls grows by one that is allowed. *)
Lemma made_ok id c i n b x sent resp s :
  rc_ok s → calls s !! id = Some c → c_flow c = FCall i n b x →
  let m := {| m_call := id; m_connection := n; m_deadline := short_ctx sent (c_deadline c); m_resp := resp |} in
  let s' := {| inner_ := inner_ s; calls := <[id := {| c_deadline := c_deadline c; c_flow := FDropped |}]> (calls s);
               made := made s ++ [m] |} in
  rc_ok s' ∧ made_by id n (made s') ≤ x + 1 ∧ x ≤ MAX_RETRY_COUNT ∧ inner_ s = Connected i n b ∧
  (∀ n', n < n' → made_by id n' (made s') = 0).
Proof.
  intros Hs Hc Hf m s'. pose proof (ro_flow _ Hs _ _ Hc) as H. rewrite Hf in H. destruct H as (Hi & Hx & Hm).
  destruct Hs as [O1 O2 O3 O4 O5 O6]. assert (∀ id' n', id' ≠ id ∨ n' ≠ n → made_by id' n' (made s') = made_by id' n' (made s)) as Hsame.
  { intros id' n' Hne. unfold s'. cbn [made]. rewrite made_by_app, decide_False by (simpl; naive_solver). lia. }
  assert (made_by id n (made s') ≤ x + 1) as Hx'.
  { unfold s'. cbn [made]. rewrite made_by_app, decide_True by done. lia. }
  assert (∀ o, got id o s → got id o s') as _ by (intros o (m' & ? & ?); exists m'; split; [set_solver|done]).
  assert (some_ok s → some_ok s') as Hok by (intros (m' & ? & ?); exists m'; split; [set_solver|done]).
  split; [|split_and!; [done..|]].
  2:{ intros n' Hn. rewrite Hsame by (right; lia). specialize (O4 id n'). unfold on_connection in O4. rewrite Hi in O4.
      by apply O4. }
  split.
  - intros id1 id2 c1 c2. unfold s'. cbn [calls].
    intros [[<- <-]|[N1 H1]]%lookup_insert_Some [[<- <-]|[N2 H2]]%lookup_insert_Some Hne; try done. by eapply O1.
  - intros id' c'. unfold s' at 1. cbn [calls]. intros [[<- <-]|[N H]]%lookup_insert_Some; [done|].
    specialize (O2 _ _ H). destruct (c_flow c') as [y|i' n' b' y|resp'|idx|idx k|resp'|]; cbn [flow_ok] in O2 |- *; try done.
    + destruct O2 as [H1 H2]. split; [done|]. unfold on_connection in *. change (inner_ s') with (inner_ s). rewrite Hi in *.
      by rewrite Hsame by (left; congruence).
    + rewrite Hsame by (left; congruence). done.
    + destruct O2 as [H1 (m' & ? & ?)]. split; [done|]. exists m'. split; [set_solver|done].
    + destruct O2 as (H1 & H2 & H3). split_and!; [done| |by apply Hok]. intros n' Hn. rewrite Hsame by (left; congruence).
      by apply H2.
    + destruct O2 as (H1 & H2 & H3). split_and!; [done| |by apply Hok]. intros n' Hn. rewrite Hsame by (left; congruence).
      by apply H2.
    + destruct O2 as [H1|[[H1 H2]|(m' & ? & ?)]]; [by left|right; left; split; [done|by apply Hok]|].
      right. right. exists m'. split; [set_solver|done].
  - intros id' n'. destruct (decide (id' = id ∧ n' = n)) as [[-> ->]|Hne]; [unfold MAX_RETRY_COUNT in *; lia|].
    rewrite Hsame; [done|]. destruct (decide (id' = id)); [right|by left]. naive_solver.
  - intros id' n'. specialize (O4 id' n'). unfold on_connection in *. unfold s'. cbn [inner_]. rewrite Hi in *. intros Hn.
    rewrite Hsame by (right; lia). by apply O4.
  - unfold s'. cbn [made calls]. intros m' [Hm'|Hm']%elem_of_app.
    + destruct (O5 m' Hm') as (c' & H1 & H2). destruct (decide (m_call m' = id)) as [E|Hne].
      * rewrite E, lookup_insert_eq. eexists. split; [done|]. simpl. rewrite E, Hc in H1. by injection H1 as <-.
      * rewrite lookup_insert_ne by done. by exists c'.
    + apply list_elem_of_singleton in Hm' as ->. rewrite lookup_insert_eq. eexists. split; [done|]. apply short_ctx_le.
  - intros Hw. by apply Hok, O6.
Qed.

Lemma answered_ok id c i n b x sent now resp s :
  rc_ok s → calls s !! id = Some c → c_flow c = FCall i n b x → rc_ok (answered id c n b x sent now resp s).
Proof.
  intros Hs Hc Hf. destruct (made_ok id c i n b x sent resp s Hs Hc Hf) as (M1 & M2 & M3 & M4 & M5).
  unfold answered. set (m := {| m_call := id |}) in *. set (s1 := {| inner_ := inner_ s; calls := calls s; made := made s ++ [m] |}) in *.
  set (s2 := {| inner_ := inner_ s; calls := <[id := {| c_deadline := c_deadline c; c_flow := FDropped |}]> (calls s);
                made := made s ++ [m] |}) in *.
  assert (∀ f, set_flow id f c s1 = set_flow id f c s2) as E.
  { intros f. unfold set_flow. cbn [calls inner_ made s1 s2]. by rewrite insert_insert_eq. }
  assert (calls s2 !! id = Some {| c_deadline := c_deadline c; c_flow := FDropped |}) as Hc2 by apply lookup_insert_eq.
  assert (got id resp s2) as Hgot by (exists m; split; [simpl; set_solver|done]).
  assert (∀ f, flow_ok s2 id f → flow_reads f = false → flow_writes f = false → rc_ok (set_flow id f c s1)) as Hput.
  { intros f H1 H2 H3. rewrite E. apply (set_flow_ok _ _ _ {| c_deadline := c_deadline c; c_flow := FDropped |}); [done..| |];
      [by rewrite H3|by rewrite H2]. }
  destruct (should_retry resp now (c_deadline c) x) as [retry x'] eqn:Er. unfold should_retry in Er. destruct retry.
  - apply Hput; [|done..]. assert (x' = x + 1 ∧ x' ≤ MAX_RETRY_COUNT) as [-> Hx].
    { destruct resp as [|[]]; try done. destruct (now <? c_deadline c); [|done]. injection Er as Er <-.
      split; [done|]. apply negb_true_iff, N.ltb_ge in Er. done. }
    split; [done|]. unfold on_connection. cbn [s2 inner_]. by rewrite M4.
  - destruct b; simpl negb; cbv iota.
    + destruct (should_reconnect resp); simpl negb; cbv iota; [|apply Hput; [right; by right|done..]].
      apply Hput; [|done..]. split_and!; [|done|].
      * unfold on_connection. cbn [s2 inner_]. rewrite M4. lia.
      * apply (ro_worked _ M1). cbn [s2 inner_]. rewrite M4. by left.
    + destruct (is_ok resp) eqn:Eo; apply Hput; [by split|done|done|right; by right|done..].
Qed.

Lemma rc_step_ok st s s' : rc_ok s → rc_step st s = Some s' → rc_ok s'.
Proof.
  intros Hs. destruct st as [id deadline|id now|id sent now resp|id now stub|id]; simpl;
    destruct (calls s !! id) as [c|] eqn:Hc; simpl; try done.
  - intros [= <-]. destruct Hs as [O1 O2 O3 O4 O5 O6]. split; cbn [set_flow calls inner_ made]; [..|done].
    + intros id1 id2 c1 c2 [[<- <-]|[N1 H1]]%lookup_insert_Some [[<- <-]|[N2 H2]]%lookup_insert_Some Hne; try done. by eapply O1.
    + intros id' c' [[<- <-]|[_ H]]%lookup_insert_Some; [|by apply O2]. split; [done|]. unfold on_connection. cbn [set_flow inner_].
      destruct (inner_ s); [|done]. cbn [set_flow made]. unfold made_by. rewrite filter_none; [simpl; lia|].
      apply Forall_forall. intros m Hm [E _]. destruct (O5 m Hm) as (c & H & _). rewrite E in H. congruence.
    + exact O3.
    + exact O4.
    + intros m Hm. destruct (O5 m Hm) as (c & H1 & H2). exists c. rewrite lookup_insert_ne by congruence. done.
  - pose proof (ro_flow _ Hs _ _ Hc) as Hf. destruct (c_flow c) as [x|i n b x|resp|idx|idx k|resp|] eqn:Ec; try done.
    + destruct (can_read s) eqn:Er; [|done]. rewrite can_read_spec in Er. intros [= <-]. destruct Hf as [H1 H2].
      unfold on_connection in H2. destruct (inner_ s) as [i n b|] eqn:Ei; (apply (set_flow_ok _ _ _ c); [done..| |done|]).
      * by split_and!.
      * intros _ id' c' Hc' _. by eapply Er.
      * by left.
      * done.
    + destruct (can_write s) eqn:Ew; [|done]. rewrite can_write_spec in Ew. intros [= <-]. destruct Hf as [H1 (m & M1 & M2 & M3)].
      assert (some_ok s) as Hok by (exists m; split; [done|by rewrite M3]).
      assert (∀ s1, rc_ok s1 → calls s1 = calls s → made s1 = made s → rc_ok (set_flow id (FReturned resp) c s1)) as Hret.
      { intros s1 Hs1 E1 E2. apply (set_flow_ok _ _ _ c); [done|by rewrite E1|done| |done|done]. right. right. exists m. by rewrite E2. }
      destruct (inner_ s) as [i n b|] eqn:Ei; apply Hret; try done. apply set_inner_ok; [done|exact Ew| |done].
      by exists i, n, b.
    + destruct (can_write s) eqn:Ew; [|done]. rewrite can_write_spec in Ew. intros [= <-]. destruct Hf as (H1 & H2 & H3).
      unfold on_connection in H1. destruct (inner_ s) as [i n b|] eqn:Ei.
      * destruct (N.eqb_spec n idx) as [->|Hne].
        -- apply attempt_ok; [done|done|intros ????; by eapply Ew|by exists i, b|done|done].
        -- apply (set_flow_ok _ _ _ c); [done..| |done|done]. split; [done|]. unfold on_connection. rewrite Ei, H2 by lia. done.
      * apply (set_flow_ok _ _ _ c); [done..| |done|done]. split; [done|]. unfold on_connection. by rewrite Ei.
  - destruct (c_flow c) as [x|i n b x|resp'|idx|idx k|resp'|] eqn:Ec; try done. intros [= <-]. by eapply answered_ok.
  - pose proof (ro_flow _ Hs _ _ Hc) as Hf. destruct (c_flow c) as [x|i n b x|resp|idx|idx k|resp|] eqn:Ec; try done.
    destruct Hf as ((i & b & Hi) & H2 & H3).
    assert (alone s id) as Ha.
    { intros id' c' Hc' Hne. eapply (ro_lock _ Hs); [exact Hc|exact Hc'|congruence|]. unfold writes. by rewrite Ec. }
    intros [= <-]. destruct stub as [stub|].
    + by eapply replace_ok.
    + apply attempt_ok; try done. by exists i, b.
  - destruct (c_flow c); try done; intros [= <-]; by apply (set_flow_ok _ _ _ c).
Qed.

Lemma rc_run_ok l s s' : rc_ok s → rc_run l s = Some s' → rc_ok s'.
Proof.
  revert s. induction l as [|st l IH]; intros s Hs; simpl; [by intros [= <-]|].
  destruct (rc_step st s) as [s1|] eqn:E; [|done]. simpl. apply IH. by eapply rc_step_ok.
Qed.

(** C27: however calls take turns, fail, are dropped or wait, a call is answered with what
    the stub answered it, with a shutdown when connecting was given up, or with an
    exceeded deadline; it asks no connection more than eleven times, and never with a
    later deadline than its own; a connection is only replaced, or given up, once
    something was answered; and while one call connects again no other one uses the
    connection or connects. *)
Theorem reconnect_calls stub l s (Hrun : rc_run l (reconnect_new stub) = Some s) :
  (∀ id c resp, calls s !! id = Some c → c_flow c = FReturned resp →
     resp = Err RpcShutdown ∧ inner_ s = GiveUp ∨ resp = Err RpcDeadlineExceeded ∧ some_ok s ∨ got id resp s) ∧
  (∀ id n, made_by id n (made s) ≤ 11) ∧
  (∀ m, m ∈ made s → ∃ c, calls s !! m_call m = Some c ∧ m_deadline m ≤ c_deadline c) ∧
  match inner_ s with Connected _ n _ => 1 < n → some_ok s | GiveUp => some_ok s end ∧
  ∀ id1 id2 c1 c2 idx k, calls s !! id1 = Some c1 → calls s !! id2 = Some c2 → id1 ≠ id2 → c_flow c1 = FSleep idx k →
    reads c2 = false ∧ writes c2 = false.
Proof.
  destruct (rc_run_ok l _ s (reconnect_new_ok stub) Hrun) as [O1 O2 O3 O4 O5 O6]. split_and!.
  - intros id c resp Hc Hf. specialize (O2 id c Hc). by rewrite Hf in O2.
  - exact O3.
  - exact O5.
  - destruct (inner_ s) as [i n b|]; [intros Hn|]; apply O6; [by right|done].
  - intros id1 id2 c1 c2 idx k H1 H2 Hne Hf. eapply O1; [exact H1|exact H2|done|]. unfold writes. by rewrite Hf.
Qed.

Definition waits c : Prop := match c_flow c with FReturned _ | FDropped => False | _ => True end.

(** Calls never block each other for good: while a call has not returned and was
    not dropped, there is one that can go on, whatever is answered to it. *)
Theorem reconnect_progress stub l s id c
  (Hrun : rc_run l (reconnect_new stub) = Some s) (Hc : calls s !! id = Some c) (Hw : waits c) :
  ∃ id', (∀ now, is_Some (rc_step (TakeLock id' now) s)) ∨
    (∀ sent now resp, is_Some (rc_step (Answer id' sent now resp) s)) ∨
    (∀ now stub, is_Some (rc_step (TryConnect id' now stub) s)).
Proof.
  destruct (decide (map_Forall (λ _ c, writes c = false) (calls s))) as [Hnw|Hw'].
  2:{ rewrite map_not_Forall in Hw' by apply _. destruct Hw' as (id' & c' & Hc' & H). exists id'. right. right.
      intros now st. simpl. rewrite Hc'. simpl. unfold writes in H. destruct (c_flow c'); try done; by eexists. }
  destruct (decide (map_Forall (λ _ c, reads c = false) (calls s))) as [Hnr|Hr'].
  2:{ rewrite map_not_Forall in Hr' by apply _. destruct Hr' as (id' & c' & Hc' & H). exists id'. right. left.
      intros sent now resp. simpl. rewrite Hc'. simpl. unfold reads in H. destruct (c_flow c'); try done; by eexists. }
  assert (can_read s = true) as Er by by apply can_read_spec.
  assert (can_write s = true) as Ew.
  { apply can_write_spec. intros i d Hd. split; [by apply (Hnr i)|by apply (Hnw i)]. }
  pose proof (Hnw id c Hc) as Hn1. pose proof (Hnr id c Hc) as Hn2. simpl in Hn1, Hn2. unfold reads, writes in Hn1, Hn2.
  unfold waits in Hw. exists id. left. intros now. simpl. rewrite Hc. simpl.
  destruct (c_flow c); try done; rewrite ?Er, ?Ew; by eexists.
Qed.
End reconnect.

(** ** Witnesses *)

Section witnesses.
Definition two_delays (k : nat) : option N := match k with 0%nat => Some 5 | 1%nat => Some 10 | _ => None end.
Definition rc_start : Shared string string := reconnect_new string string "first".
Abbreviation run := (rc_run string string two_delays (Some 100)).

(** Two calls find that the connection is lost, after it worked; the first to get the
    lock connects again, in the second attempt; the second one then uses that
    connection. *)
Definition steps1 : list (Step string string) :=
  [Enter _ _ 0 1000; TakeLock _ _ 0 0; Answer _ _ 0 0 1 (Ok "pong"); TakeLock _ _ 0 1;
   Enter _ _ 1 1000; Enter _ _ 2 1000; TakeLock _ _ 1 2; TakeLock _ _ 2 2;
   Answer _ _ 1 2 3 (Err RpcShutdown); Answer _ _ 2 2 3 (Err RpcChannel); TakeLock _ _ 2 4;
   TryConnect _ _ 2 9 None; TryConnect _ _ 2 19 (Some "second"); TakeLock _ _ 1 20; TakeLock _ _ 1 21;
   Answer _ _ 1 21 22 (Ok "late")].

Lemma reconnect_calls_witness : ∃ s, run steps1 rc_start = Some s ∧
  inner_ _ _ s = Connected string "second" 2 true ∧ some_ok _ _ s ∧ made_by string 1 1 (made _ _ s) ≤ 11.
Proof.
  destruct (run steps1 rc_start) as [s|] eqn:E; [|by vm_compute in E]. exists s. split; [done|].
  assert (inner_ _ _ <$> run steps1 rc_start = Some (Connected string "second" 2 true)) as Ei by (vm_compute; reflexivity).
  rewrite E in Ei. assert (inner_ _ _ s = Connected string "second" 2 true) as Es by (by injection Ei). clear Ei.
  destruct (reconnect_calls string string two_delays (Some 100) "first" steps1 s E) as (_ & H1 & _ & H2 & _).
  rewrite Es in H2. split; [exact Es|]. split; [apply H2; reflexivity|apply H1].
Defined.

Lemma reconnect_progress_witness : ∃ s id', run (take 11 steps1) rc_start = Some s ∧
  ((∀ now, is_Some (rc_step string string two_delays (Some 100) (TakeLock _ _ id' now) s)) ∨
   (∀ sent now resp, is_Some (rc_step string string two_delays (Some 100) (Answer _ _ id' sent now resp) s)) ∨
   (∀ now stub, is_Some (rc_step string string two_delays (Some 100) (TryConnect _ _ id' now stub) s))).
Proof.
  destruct (run (take 11 steps1) rc_start) as [s|] eqn:E; [|by vm_compute in E].
  assert ((λ s, c_flow _ _ <$> calls _ _ s !! 1%nat) <$> run (take 11 steps1) rc_start = Some (Some (FWrite string string 1)))
    as Ec by (vm_compute; reflexivity).
  rewrite E in Ec. assert (c_flow _ _ <$> calls _ _ s !! 1%nat = Some (FWrite string string 1)) as Ec' by (by injection Ec).
  clear Ec. destruct (calls _ _ s !! 1%nat) as [c|] eqn:Hc; [|done]. injection Ec' as Ec.
  destruct (reconnect_progress string string two_delays (Some 100) "first" (take 11 steps1) s 1 c E Hc) as [id' H].
  - unfold waits. by rewrite Ec.
  - by exists s, id'.
Defined.
End witnesses.
