(* ===== verification/Network.v ===== *)
(** * Addresses, limits and services of the network

    [crate/realize-network/src/hostport.rs], [rate_limit.rs] and the choice of a service
    in [network.rs]: the text of an address, the stream that writes no faster than a
    limiter allows, and what is done with a connection that was accepted.

    The resolver, the limiter, the sockets and TLS are parameters. *)
From Stdlib Require Import Strings.Byte.
From stdpp Require Import gmap strings.
From S2P Require Import Prelude Types Path Connections.
Local Open Scope N_scope.

(** ** Addresses *)

Definition u16_modulus : N := 65536.

Definition digit (a : ascii) : option N :=
  let n := N_of_ascii a in if (48 <=? n) && (n <=? 57) then Some (n - 48) else None.

(** The loop of [u16::from_str], which checks for overflows. *)
Fixpoint parse_digits (s : string) (acc : N) : option N :=
  match s with
  | EmptyString => Some acc
  | String a s =>
      d ← digit a;
      let acc := acc * 10 + d in
      if acc <? u16_modulus then parse_digits s acc else None
  end.

(** [str::parse::<u16>] *)
Definition parse_u16 (s : string) : option N :=
  match s with
  | EmptyString => None
  | String "+" EmptyString => None
  | String "+" s => parse_digits s 0
  | s => parse_digits s 0
  end.

(** [u16::fmt] *)
Fixpoint show_digits (fuel : nat) (n : N) (rest : string) : string :=
  match fuel with
  | O => rest
  | S fuel =>
      let rest := String (ascii_of_N (48 + n mod 10)) rest in
      if n <? 10 then rest else show_digits fuel (n / 10) rest
  end.
Definition show_u16 (n : N) : string := show_digits 5 n "".

Lemma digit_show d : d < 10 → digit (ascii_of_N (48 + d)) = Some d ∧ ascii_of_N (48 + d) ≠ ":"%char.
Proof.
  intros Hd. assert (∀ k, (k < 10)%nat → digit (ascii_of_N (48 + N.of_nat k)) = Some (N.of_nat k) ∧
    ascii_of_N (48 + N.of_nat k) ≠ ":"%char) as H by (intros k Hk; do 10 (destruct k; [done|]); lia).
  specialize (H (N.to_nat d)). rewrite N2Nat.id in H. apply H. lia.
Qed.

Lemma show_digits_spec fuel n rest :
  n < 10 ^ N.of_nat fuel → n < u16_modulus →
  parse_digits (show_digits fuel n rest) 0 = parse_digits rest n ∧
  Str.contains ":" (show_digits fuel n rest) = Str.contains ":" rest.
Proof.
  revert n rest. induction fuel as [|fuel IH]; intros n rest Hf Hn.
  { simpl in *. by assert (n = 0) as -> by lia. }
  cbn [show_digits]. destruct (digit_show (n mod 10)) as [Hd Hc]; [by apply N.mod_lt|].
  assert (∀ acc, acc * 10 + n mod 10 = n →
    parse_digits (String (ascii_of_N (48 + n mod 10)) rest) acc = parse_digits rest n) as Hstep.
  { intros acc E. simpl. rewrite Hd. simpl. rewrite E. by destruct (N.ltb_spec n u16_modulus); [|lia]. }
  assert (Str.contains ":" (String (ascii_of_N (48 + n mod 10)) rest) = Str.contains ":" rest) as Hcol.
  { simpl. by rewrite bool_decide_false. }
  destruct (N.ltb_spec n 10) as [Hlt|Hge].
  - split; [|exact Hcol]. apply Hstep. rewrite N.mod_small by done. lia.
  - pose proof (N.div_mod n 10 ltac:(done)) as Hdm.
    destruct (IH (n / 10) (String (ascii_of_N (48 + n mod 10)) rest)) as [I1 I2].
    + rewrite Nat2N.inj_succ, N.pow_succ_r' in Hf. apply N.Div0.div_lt_upper_bound; lia.
    + pose proof (N.Div0.div_le_upper_bound n 10 n ltac:(lia)). lia.
    + rewrite I1, I2. split; [apply Hstep; lia|exact Hcol].
Qed.

Lemma show_digits_cons fuel n a rest : show_digits fuel n (String a rest) ≠ "".
Proof.
  revert n a rest. induction fuel as [|fuel IH]; intros n a rest; [done|]. cbn [show_digits].
  destruct (n <? 10); [done|apply IH].
Qed.

Lemma parse_u16_digits s n : s ≠ "" → parse_digits s 0 = Some n → parse_u16 s = Some n.
Proof.
  destruct s as [|a s]; [done|]. intros _ H. destruct (decide (a = "+"%char)) as [->|Ha]; [done|].
  destruct a as [[] [] [] [] [] [] [] []]; try exact H; by destruct Ha.
Qed.

Lemma show_u16_spec n :
  n < u16_modulus → parse_u16 (show_u16 n) = Some n ∧ Str.contains ":" (show_u16 n) = false.
Proof.
  intros Hn. destruct (show_digits_spec 5 n "") as [H1 H2]; [unfold u16_modulus in Hn; simpl; lia|done|].
  split; [|exact H2]. apply parse_u16_digits; [|exact H1]. unfold show_u16. cbn [show_digits].
  destruct (n <? 10); [done|]. apply (show_digits_cons 4).
Qed.

Lemma parse_digits_bound s acc n : acc < u16_modulus → parse_digits s acc = Some n → n < u16_modulus.
Proof.
  revert acc. induction s as [|a s IH]; intros acc Ha; simpl; [by intros [= <-]|].
  destruct (digit a) as [d|]; simpl; [|done]. destruct (N.ltb_spec (acc * 10 + d) u16_modulus); [|done]. by apply IH.
Qed.

Lemma parse_u16_bound s n : parse_u16 s = Some n → n < u16_modulus.
Proof.
  unfold parse_u16. intros H. destruct s as [|a s]; [done|].
  destruct (decide (a = "+"%char)) as [->|Ha].
  - destruct s; [done|]. by apply parse_digits_bound in H.
  - assert (parse_digits (String a s) 0 = Some n) as H'.
    { destruct a as [[] [] [] [] [] [] [] []]; try exact H; by destruct Ha. }
    by apply parse_digits_bound in H'.
Qed.

Section hostport.
Context (SocketAddr : Type).
(** [tokio::net::lookup_host], of a text of the form "host:port" *)
Context (lookup_host : string → option (list SocketAddr)).

Record HostPort : Type := { hp_host : string; hp_port : N; hp_addr : SocketAddr }.

Inductive HostPortError : Type := InvalidPort | MissingPort | LookupFailed.

Fixpoint ends_with_char (s : string) (c : ascii) : bool :=
  match s with
  | EmptyString => false
  | String a EmptyString => bool_decide (a = c)
  | String _ s => ends_with_char s c
  end.

Definition hostport_parse (s : string) : result HostPortError HostPort :=
  match Str.rfind ":" s with
  | None => Err MissingPort
  | Some idx =>
      let host := Str.take idx s in
      match parse_u16 (Str.drop 1 (Str.drop idx s)) with
      | None => Err InvalidPort
      | Some port =>
          let host :=
            if Str.starts_with host "[" && ends_with_char host "]"
            then Str.take (String.length host - 2) (Str.drop 1 host) else host in
          match lookup_host s with
          | Some (addr :: _) => Ok {| hp_host := host; hp_port := port; hp_addr := addr |}
          | _ => Err LookupFailed
          end
      end
  end.

(** [HostPort::fmt] *)
Definition hostport_show (host : string) (port : N) : string := host +:+ String ":" (show_u16 port).

Lemma rfind_last c s t : Str.contains c t = false → Str.rfind c (s +:+ String c t) = Some (String.length s).
Proof.
  intros Ht. induction s as [|a s IH].
  - simpl. apply rfind_None in Ht. rewrite Ht. by rewrite decide_True.
  - rewrite app_cons_str. simpl. by rewrite IH.
Qed.

Lemma drop_length_app s t : Str.drop (String.length s) (s +:+ t) = t.
Proof. induction s as [|a s IH]; [done|]. rewrite app_cons_str. simpl. exact IH. Qed.

Lemma ends_with_app s c : ends_with_char (s +:+ String c "") c = true.
Proof.
  induction s as [|a s IH]; [simpl; by rewrite bool_decide_true|]. rewrite app_cons_str. simpl.
  destruct (s +:+ String c "") eqn:E; [by destruct s|exact IH].
Qed.

(** The parts of an address are read as they were written, with brackets around the
    host or without; the port is one of 16 bits. *)
Lemma hostport_roundtrip host port addr addrs :
  port < u16_modulus →
  (Str.starts_with host "[" && ends_with_char host "]" = false →
   lookup_host (hostport_show host port) = Some (addr :: addrs) →
   hostport_parse (hostport_show host port) = Ok {| hp_host := host; hp_port := port; hp_addr := addr |}) ∧
  (let bracketed := String "[" (host +:+ "]") in
   lookup_host (hostport_show bracketed port) = Some (addr :: addrs) →
   hostport_parse (hostport_show bracketed port) = Ok {| hp_host := host; hp_port := port; hp_addr := addr |}).
Proof.
  intros Hp. destruct (show_u16_spec port Hp) as [Hport Hcol]. unfold hostport_parse, hostport_show. split.
  - intros Hb ->. rewrite (rfind_last _ host) by done. rewrite take_length_app, drop_length_app. cbn [Str.drop].
    by rewrite Hport, Hb.
  - cbv zeta. set (b := String "[" (host +:+ "]")). intros ->. rewrite (rfind_last _ b) by done.
    rewrite take_length_app, drop_length_app. change (Str.drop 1 (String ":" (show_u16 port))) with (show_u16 port).
    rewrite Hport. assert (Str.starts_with b "[" && ends_with_char b "]" = true) as ->.
    { unfold b. simpl. change (ends_with_char (String "[" host +:+ String "]" "") "]" = true). apply ends_with_app. }
    assert (Str.take (String.length b - 2) (Str.drop 1 b) = host) as ->; [|done].
    unfold b. cbn [Str.drop String.length]. rewrite length_app_str.
    replace (S (String.length host + String.length "]") - 2)%nat with (String.length host) by (simpl; lia).
    apply take_length_app.
Qed.

Lemma hostport_port s hp : hostport_parse s = Ok hp → hp_port hp < u16_modulus.
Proof.
  unfold hostport_parse. destruct (Str.rfind ":" s) as [idx|]; [|done]. destruct (parse_u16 _) as [port|] eqn:E; [|done].
  destruct (lookup_host s) as [[|addr addrs]|]; try done. intros [= <-]. by eapply parse_u16_bound.
Qed.
End hostport.

(** ** Limits *)

(** What a stream did, and how many bytes its limiter has still to let through *)
Record RateLimitedStream : Type := {
  rl_written : list byte;
  rl_waiter : option N;
  rl_consumed : N;
}.

Definition rate_limited_new : RateLimitedStream := {| rl_written := []; rl_waiter := None; rl_consumed := 0 |}.

Inductive PollWrite : Type :=
| WritePending
| WriteReady (len : nat)
| WriteFailed.

(** [poll_write]: whether the limiter has let through what was consumed, and what the
    stream answers, which takes a part of the bytes. *)
Definition rl_poll_write (let_through : bool) (inner : PollWrite) (buf : list byte) (s : RateLimitedStream)
  : PollWrite * RateLimitedStream :=
  match rl_waiter s, let_through with
  | Some _, false => (WritePending, s)
  | _, _ =>
      match inner with
      | WriteReady len =>
          let len := Nat.min len (length buf) in
          (WriteReady len,
           {| rl_written := rl_written s ++ take len buf;
              rl_waiter := if bool_decide (0 < len)%nat then Some (N.of_nat len) else None;
              rl_consumed := rl_consumed s + N.of_nat len |})
      | r => (r, {| rl_written := rl_written s; rl_waiter := None; rl_consumed := rl_consumed s |})
      end
  end.

Fixpoint rl_writes (l : list (bool * PollWrite * list byte)) (s : RateLimitedStream) : list PollWrite * RateLimitedStream :=
  match l with
  | [] => ([], s)
  | (let_through, inner, buf) :: l =>
      let '(r, s) := rl_poll_write let_through inner buf s in
      let '(rs, s) := rl_writes l s in (r :: rs, s)
  end.

(** Every byte that was written was taken from the limiter, once, and nothing was
    written while the limiter held back what was written before. *)
Lemma rl_writes_consumed l s :
  N.of_nat (length (rl_written s)) = rl_consumed s →
  N.of_nat (length (rl_written (rl_writes l s).2)) = rl_consumed (rl_writes l s).2.
Proof.
  revert s. induction l as [|[[b inner] buf] l IH]; intros s Hs; simpl; [done|].
  destruct (rl_poll_write b inner buf s) as [r s1] eqn:E.
  assert (N.of_nat (length (rl_written s1)) = rl_consumed s1) as Hs1.
  { unfold rl_poll_write in E. destruct (rl_waiter s), b, inner; simplify_eq/=; try done;
      rewrite length_app, length_take; lia. }
  specialize (IH s1 Hs1). by destruct (rl_writes l s1).
Qed.

Lemma rl_held_back inner buf s n :
  rl_waiter s = Some n → rl_poll_write false inner buf s = (WritePending, s).
Proof. intros H. unfold rl_poll_write. by rewrite H. Qed.

(** ** Services *)

(** [Server]: the handlers of the services, by their tags of four bytes *)
Section server.
Context (Handler : Type).

Record Server : Type := { handlers : gmap (list N) Handler; verifier : PeerVerifier }.

Definition server_new (v : PeerVerifier) : Server := {| handlers := ∅; verifier := v |}.
Definition register_raw (tag : list N) (handler : Handler) (s : Server) : Server :=
  {| handlers := <[tag := handler]> (handlers s); verifier := verifier s |}.

Inductive AcceptError : Type := ConnectionLost | UnknownTag | Panicked.

(** [Server::accept], of a connection whose client was verified with these
    certificates and that then sends a tag, or does not. *)
Definition server_accept (certificates : list (list N)) (tag : option (list N)) (s : Server)
  : result AcceptError (Peer * Handler) :=
  match connection_peer_id (verifier s) (Some certificates) with
  | None => Err Panicked
  | Some peer =>
      match tag with
      | None => Err ConnectionLost
      | Some tag =>
          match handlers s !! tag with
          | Some handler => Ok (peer, handler)
          | None => Err UnknownTag
          end
      end
  end.

(** A service is only reached by a peer whose key is known, as that peer; and the check
    that the key is known never kills the server. *)
Lemma server_accept_spec s cert certs tag :
  verify_client_cert (verifier s) cert = Ok tt →
  server_accept (cert :: certs) tag s ≠ Err Panicked ∧
  ∀ peer handler, server_accept (cert :: certs) tag s = Ok (peer, handler) →
    allowed_peers (verifier s) !! cert = Some peer ∧ ∃ t, tag = Some t ∧ handlers s !! t = Some handler.
Proof.
  intros Hv. destruct (accepted_peer_known _ _ certs Hv) as [p Hp]. unfold server_accept. rewrite Hp. simpl in Hp.
  destruct tag as [t|]; [|done]. destruct (handlers s !! t) as [h|] eqn:E; [|done]. split; [done|].
  intros peer handler [= <- <-]. split; [done|]. by exists t.
Qed.
End server.
